(* ===== verification/_CoqProject ===== *)
-Q . S2P
Prelude.v
PyFloat.v
PyString.v
PyBytes.v
PyText.v
Json.v
PySort.v
Scheduler.v
Sha256.v
PagedKV.v
Frontier.v
Cancellation.v
PrefixCache.v
PrefixStore.v
EventSchema.v
EventBus.v
StructuredOutput.v
Gguf.v
Citations.v
Reasoning.v
Residency.v
Operations.v
Coalescer.v
NativeCalls.v
ToolCalls.v
Security.v
Manifest.v
Routing.v
FrontierState.v
Inventory.v
Registry.v
History.v
Speculation.v
Caches.v
