(* ===== verification/Prelude.v ===== *)
(** * LewLM: a verification development

    LewLM (src/src/lewlm) is a local service that runs language models: it loads
    models, admits and batches requests over one runtime, caches prompt prefixes,
    streams output and events to its clients, and checks and cleans what models
    write.  This library translates the stateful and algorithmic core of that
    service to Rocq and proves what makes it correct.  This file is the root: it
    holds the notations, tactics and generic lemmas, and this overview.

    ** Parts and files

    The Python language (no repository code): Prelude (record update, fallible
    code, insertion-ordered dictionaries), PyFloat (binary64 arithmetic), PyString
    (ASCII strings), PyBytes (bytes, little-endian integers, UTF-8), PyText
    (strings as code points, searching), Json (JSON values), PySort (the stable sort
    by a key), Sha256.

    Admission and batching.  Scheduler: [RuntimeRequestScheduler] of
    runtime/scheduler.py, which grants a bounded number of slots to prefill and
    decode requests.  Frontier: [FrontierBatchScheduler] of the same file, which
    collects requests of one key into batches run by drain tasks.  Cancellation:
    runtime/cancellation.py, the handles by which clients cancel requests, before
    or while they run; its tokens are what [acquire] of Scheduler watches.

    Memory and model residency.  PagedKV: runtime/paged_kv.py, reference-counted
    key/value pages shared by prompts and evicted under pressure.  PrefixCache:
    runtime/prefix_cache.py, the prompt-prefix cache with shared pages, and the
    page keys of storage/prefix_cache_store.py; PrefixStore: the rest of that file,
    the store that keeps entries and pages on disk across restarts, whose answers
    PrefixCache takes as arguments.  Residency: runtime/residency.py,
    which loads each model once, leases it to requests, drains and unloads it.
    Operations: runtime/operations.py, the background drain operations over it.
    Coalescer: runtime/request_coalescer.py, by which identical requests share one
    execution, as core/multimodal.py uses it.

    Choosing models.  Manifest: the model records and enumerations of
    core/contracts.py and the serving plans of runtime/experimental/architectures.py.
    Routing: routing/service.py, which picks a model and a runtime for each request,
    with the selectors of registry/service.py, the runtime selection of
    runtime/catalog.py and the measured preferences it weighs.  What it picks is what
    Residency loads and leases.  Inventory: registry/external_inventory.py and
    registry/ollama_inventory.py, the manifests of what other servers advertise, and
    the URIs of utils/model_identity.py that name them.  Registry: registry/service.py
    over the table of manifests of storage/metadata.py, which a scan brings in line
    with what Inventory read and with what is on disk, and from which Routing picks.
    FrontierState: storage/frontier_state.py, which follows the requests to models
    with experts or recurrent state over the plans of Manifest.  Speculation:
    core/speculation.py, which picks a draft model or another way of speculative
    decoding for a routed request.

    Sessions.  History: history/service.py over the session tables of
    storage/metadata.py, the stored conversations that requests continue.  Caches:
    storage/block_cache.py and runtime/response_cache.py, the attachments, encoder
    outputs and responses that are kept for requests that come again.

    Events.  EventSchema: events/schema.py.  EventBus: events/bus.py and
    events/filters.py, publishing, subscribing and resuming from a cursor.
    Residency publishes its events with their types and payloads.

    Input and output of models.  StructuredOutput: structured_output.py, the
    JSON-schema validator of model output.  Citations: core/citations.py, and
    Reasoning: core/reasoning.py, the streaming processors that strip citation
    markers and reasoning blocks.  ToolCalls: tool_calls.py and
    tool_call_contract.py, the extraction of tool calls from model output, which
    validates their arguments with StructuredOutput, and NativeCalls: the parser of
    native call arguments in the same file.  Security: security/http.py,
    security/authorization.py and security/audit.py, the gates in front of the
    routes.  Gguf: registry/gguf_header.py, the
    reader of model file headers.

    ** How the code is represented

    - An object that code mutates is a record, a dictionary an association list in
      insertion order; an object that is shared or outlives its dictionary entry
      (tokens, batch states, drain tasks, queues, residency records) lives in a
      store indexed by allocation number.
    - A method is one function; a coroutine is cut at its suspension points into
      one function per stretch.  No section under an asyncio or thread lock awaits
      in this code, so a stretch is atomic, and the interleavings of any number of
      coroutines are the sequences of these steps: [System] in Scheduler,
      [fsystem] and [resume] in Frontier, [cell_step] and [manager_step] in
      Residency, the token steps in Cancellation.
    - Clock readings, generated identifiers, answers of the persistent store, of
      inference backends and of batch executors are arguments of the steps.
    - Exceptions are values: [Err], an error constructor, or an outcome.
    - Numbers are exact: integers unbounded as in Python, floats IEEE binary64
      with Python's mixed comparisons; byte and word widths are kept in Gguf and
      Sha256.

    ** What the theorems show

    - Scheduler: slots are conserved and never leaked by the modelled
      interleavings, bounds and counters hold, no grantable waiter is left waiting.
    - Frontier: every unanswered request is owned by exactly one live drain task,
      unless the execution of its batch was cancelled; a bounded number of resumptions answers all; answers go to their requests.
    - PagedKV, PrefixCache: reference counts are exact (in PagedKV for pages that no
      prompt repeats and that are of one model), such pages stay resident in use,
      eviction takes exactly what it must, lookups find the longest prefix, and
      what is saved is found.
    - PrefixStore: page counts are exact over all operations, restarts and models
      that are told apart on disk ([reachable], [run_store], [names_apart]), the files are those of the entries and pages in
      memory, a restart loses nothing, and the limit evicts the least recently used.
    - Cancellation: the registry stays bounded and unambiguous, only the owner
      cancels, cancelling is idempotent and no waiter misses its wake-up.
    - Residency: each step performs exactly the lifecycle actions listed for it
      ([actions]), whose guards ([perform]) let leases be taken only when a model is
      READY and nothing be loaded or unloaded under a lease; whoever waits has
      something to wait for.  The backend may drop models that nobody uses.
    - Operations: an operation follows its lifecycle and the events tell it exactly; an
      idempotency key runs one operation; cancelling settles, a shutdown is final.
    - Coalescer: identical requests share one execution and its answer.
    - Routing: a routed pair can serve the request and is the first in rank among
      those that can; a model is substituted only where the operator asked for it;
      a request fails only where no usable pair exists, with the reason that applies.
    - Inventory: URIs are read back as the names they were made from; models that a
      daemon says to run off-host get manifests only by opt-in.
    - Registry: a scan leaves exactly what it found and what it must keep, a second
      one changes nothing; the advertised inventory shows each group of models once.
    - FrontierState: the window of resident experts is a least-recently-used cache;
      counters add up.
    - Speculation: every candidate plan can be executed, in the order of preference.
    - History: the counts of a session are those of its turns; an exported session is
      imported as the same conversation (a summary names it as it is called now).
    - Caches: the encoder cache serves only features that are current, and blocks and
      responses are read back as they were stored.
    - Events: completing an event is idempotent; a resumed subscriber receives each
      later event exactly once.
    - StructuredOutput: the verdict is equivalent to a reference semantics
      ([conforms]) and validation terminates on every schema.
    - Citations, Reasoning: the result does not depend on how the stream is cut, and
      markers and reasoning blocks are separated exactly.
    - NativeCalls: the parser of native arguments decides a grammar ([native_text]).
    - ToolCalls: the candidates are those of the text, and each call object of them
      is reported as a call exactly if its tool is declared and its arguments conform
      to the schema, else as an issue that says why; native calls are found in any plain text, and rendered
      calls are read back.
    - Security: lifecycle roles are enforced and audited, credentials outside ASCII
      raise, the rate limit is an exact
      sliding window per claimed key (and no limit to who claims many).
    - Gguf: the reader recovers what a writer wrote within its limits, and is total
      and bounded on arbitrary bytes.
    - Several theorems are counterexamples to what the code means to do (a leaked
      slot, a page evicted in use, a stranded batch, a key that is never answered
      again, an operation that never ends, two models that share one directory, an
      exception that escapes a total function, hidden reasoning that is shown, quoted
      text that is executed, an advertised substitute that is refused, models that take
      each other's id, a draw of experts that never ends, a session that forgets to
      count a turn, an import that reorders turns, a request that fails for want of an
      optional package); they are stated
      positively, on the model, as the behaviour of the code.

    ** Fuel and bounds

    Fuel stands for recursion or loops that are not structural, and is
    shown to suffice wherever the code terminates: [dispatch_loop] has one unit per waiter; [consume_loop] of
    Citations and Reasoning one per buffered character (each iteration but the
    last shortens the buffer, and running out would be [None]); [validate_node] of
    StructuredOutput has [enough_fuel], computed from the schema, the value and
    the code's bound of 64 references ([MAX_REF_DEPTH]); [enforce_loop] of PrefixStore
    one per entry; [descriptors_from] one per token.  In Gguf the nesting
    of [skip_value], and in NativeCalls that of [parse_value], is the interpreter's
    recursion limit, a quantity the theorems mention; the loops of NativeCalls have
    one unit per character and never run out ([native_arguments_exact]).
    The draw of experts in FrontierState has no bound in the code: its theorems say
    what it returns when it does, and that it need not.  Elsewhere Python's stack depth and memory are not bounded.

    ** Assumptions and parameters

    - Page keys are SHA-256 digests; theorems that need it assume that the digests
      at hand do not collide ([names_apart] of PrefixStore: nor do the shortened
      file names, and the directories of the models in use are disjoint).
    - [re.compile], [json.loads], [json.dumps], [raw_decode], the pydantic
      serializer and the table of [str.casefold] are parameters; what is used of
      them is a hypothesis.
    - Theorems about Residency assume that the backend does not drop on its own a
      model that a caller leases or waits for ([backend_keeps]) and that new coroutines and tasks are new objects
      ([fresh_ids]); [drain_unloads_under_a_lease] shows what happens otherwise.
    - Strings are ASCII where a file says so; handles and cursors are.
    - A runtime is what its methods answer while a request is routed; that scores are
      ordered assumes that no model is so large that its size is no finite float
      ([sized]).
    - A scan relies on paths on disk being no URIs, and on runtimes that are keyed by
      the ids of configured endpoints ([input_ok]); new sessions have new ids.

    ** Not modelled

    Inference backends, adapters of other servers, the walk over model directories,
    conversion, document formats, encryption, sandboxes and tool servers: their
    behaviour is that of libraries, devices, processes and files outside the
    repository.  HTTP routes, the command line, configuration and the library facade:
    glue over the modelled services and declarations of a framework.  The chat and
    multimodal pipelines thread the modelled parts together around calls of backends
    and templates; of them the coalescing of requests and the speculation plans are
    modelled.  Telemetry and benchmarks aggregate counters into reports that no
    decision depends on.  Of the SQLite store the tables of manifests, sessions, cached
    blocks and cached responses are modelled; jobs, probes and preferences are rows
    written and read back by key. *)

From stdpp Require Export base list gmap strings fin_maps sets numbers relations.
From Stdlib Require Export ZArith Lia.

#[global] Set Default Goal Selector "!".

(** ** Record update

    Python objects are mutated one attribute at a time.  [r <| f := v |>] is
    the record [r] with the field [f] set to [v].  A record joins the notation
    by giving its eta expansion as an [Eta] instance; the setter of a field is
    read off that expansion by type class search. *)

Class Eta (R : Type) := eta : R -> R.

Class Setter {R T : Type} (proj : R -> T) := set_field : (T -> T) -> R -> R.

Ltac build_setter :=
  match goal with
  | |- @Setter ?R ?T ?proj =>
      let h := constr:(_ : Eta R) in
      let e := eval hnf in (h : R -> R) in
      let f := fresh "f" in
      let r := fresh "r" in
      unfold Setter; intros f r;
      let b := eval cbv beta in (e r) in
      let b' := eval pattern (proj r) in b in
      match b' with
      | ?g _ => let t := eval cbv beta in (g (f (proj r))) in exact t
      end
  end.

#[export] Hint Extern 1 (Setter _) => build_setter : typeclass_instances.

Declare Scope py_scope.
Delimit Scope py_scope with py.

Notation "r <| f := v |>" := (set_field (proj:=f) (fun _ => v) r)
  (at level 1, left associativity, f at level 0, v at level 200) : py_scope.
Notation "r <| f ::= g |>" := (set_field (proj:=f) g r)
  (at level 1, left associativity, f at level 0, g at level 200) : py_scope.

#[global] Open Scope py_scope.
#[global] Arguments set_field {R T} proj {Setter} _ _ /.

(** ** Fallible code

    A Python function that raises returns [Err e]; [let?] is the propagation
    of the exception to the caller. *)

Inductive result (E A : Type) : Type :=
| Ok (a : A)
| Err (e : E).
Arguments Ok {E A} a.
Arguments Err {E A} e.

Definition rbind {E A B : Type} (m : result E A) (k : A -> result E B) : result E B :=
  match m with
  | Ok a => k a
  | Err e => Err e
  end.

Definition is_ok {E A : Type} (m : result E A) : bool :=
  match m with Ok _ => true | Err _ => false end.

Notation "'let?' x := m 'in' k" := (rbind m (fun x => k))
  (at level 10, x pattern, m at level 200, k at level 200) : py_scope.

(** Of code that returned, every call before returned. *)
Lemma rbind_Ok {E A B} (r : result E A) (k : A -> result E B) y :
  rbind r k = Ok y -> exists x, r = Ok x /\ k x = Ok y.
Proof. destruct r as [x|]; [by exists x|done]. Qed.

Ltac ok_inv :=
  repeat match goal with
  | H : rbind _ _ = Ok _ |- _ =>
      let x := fresh "r" in let Hx := fresh "Hr" in apply rbind_Ok in H as (x & Hx & H)
  | H : Ok _ = Ok _ |- _ => injection H as <-
  end.

#[global] Instance result_eq_dec {E A} `{EqDecision E, EqDecision A} : EqDecision (result E A).
Proof. solve_decision. Defined.

(** ** Tactics

    [case_if] destructs the conditions of the goal's (or a hypothesis') conditionals and keeps the
    equations; [bool_lia] turns boolean comparisons on [Z] into propositions
    before calling [lia]. *)

Ltac bool_prop :=
  repeat match goal with
  | H : (_ && _)%bool = true |- _ => apply andb_true_iff in H; destruct H
  | H : (_ || _)%bool = false |- _ => apply orb_false_iff in H; destruct H
  | H : negb _ = true |- _ => apply negb_true_iff in H
  | H : negb _ = false |- _ => apply negb_false_iff in H
  | H : (_ <=? _)%Z = true |- _ => apply Z.leb_le in H
  | H : (_ <=? _)%Z = false |- _ => apply Z.leb_gt in H
  | H : (_ <? _)%Z = true |- _ => apply Z.ltb_lt in H
  | H : (_ <? _)%Z = false |- _ => apply Z.ltb_ge in H
  | H : (_ >=? _)%Z = _ |- _ => rewrite Z.geb_leb in H
  | H : (_ >? _)%Z = _ |- _ => rewrite Z.gtb_ltb in H
  | H : (_ =? _)%Z = true |- _ => apply Z.eqb_eq in H
  | H : (_ =? _)%Z = false |- _ => apply Z.eqb_neq in H
  | H : bool_decide _ = true |- _ => apply bool_decide_eq_true in H
  | H : bool_decide _ = false |- _ => apply bool_decide_eq_false in H
  end.

Ltac bool_lia := bool_prop; lia.

Ltac case_if :=
  match goal with
  | |- context [if ?b then _ else _] => destruct b eqn:?
  | H : context [if ?b then _ else _] |- _ => destruct b eqn:?
  end.

(** ** Lists *)

Section list_lemmas.
Context {A : Type}.
  Implicit Types (l : list A) (p q : A -> bool).

  (** The number of elements that satisfy [p], as a Python [sum(1 for ...)]. *)
Definition countb (p : A -> bool) (l : list A) : Z :=
    Z.of_nat (length (List.filter p l)).

Lemma countb_nil p : countb p [] = 0%Z.
  Proof. done. Qed.

Lemma countb_cons p x l : countb p (x :: l) = ((if p x then 1 else 0) + countb p l)%Z.
  Proof. unfold countb. simpl. destruct (p x); simpl; lia. Qed.

Lemma countb_app p l1 l2 : countb p (l1 ++ l2) = (countb p l1 + countb p l2)%Z.
  Proof. unfold countb. rewrite List.filter_app, length_app. lia. Qed.

Lemma countb_nonneg p l : (0 <= countb p l)%Z.
  Proof. unfold countb. lia. Qed.

Lemma countb_le_length p l : (countb p l <= Z.of_nat (length l))%Z.
  Proof.
    induction l as [|x l IH]; [done|].
    rewrite countb_cons. simpl. destruct (p x); lia.
  Qed.

Lemma countb_split p l :
    (countb p l + countb (fun x => negb (p x)) l = Z.of_nat (length l))%Z.
  Proof.
    induction l as [|x l IH]; [done|].
    rewrite !countb_cons. simpl. destruct (p x); simpl; lia.
  Qed.

Lemma countb_ext p q l : (forall x, x ∈ l -> p x = q x) -> countb p l = countb q l.
  Proof.
    induction l as [|x l IH]; intros H; [done|].
    rewrite !countb_cons, IH; [|intros y Hy; apply H; by right].
    rewrite H; [done|by left].
  Qed.

  (** Removing the element at index [i], as [list.pop(i)]. *)
Definition remove_at (i : nat) (l : list A) : list A := take i l ++ drop (S i) l.

Lemma remove_at_middle l1 x l2 : remove_at (length l1) (l1 ++ x :: l2) = l1 ++ l2.
  Proof.
    unfold remove_at. induction l1 as [|y l1 IH]; simpl; [done|]. by f_equal.
  Qed.

Lemma lookup_split_at l i x :
    l !! i = Some x -> exists l1 l2, l = l1 ++ x :: l2 /\ length l1 = i.
  Proof.
    intros H. exists (take i l), (drop (S i) l). split.
    - symmetry. by apply take_drop_middle.
    - apply length_take_le. apply lookup_lt_Some in H. lia.
  Qed.

Lemma filter_length_le p l : length (List.filter p l) <= length l.
  Proof. induction l as [|x l IH]; simpl; [lia|]. destruct (p x); simpl; lia. Qed.
End list_lemmas.

Create Rewrite HintDb countb.
#[export] Hint Rewrite @countb_nil @countb_cons @countb_app : countb.

(** ** Insertion-ordered dictionaries

    Python's [dict] and [OrderedDict] as association lists in insertion order.
    Assigning to a key already present keeps its position. *)

Section odict.
Context {K V : Type} {eqK : EqDecision K}.
  Implicit Types (d : list (K * V)) (k : K) (v : V).

Fixpoint dget (k : K) (d : list (K * V)) : option V :=
    match d with
    | [] => None
    | (k', v) :: d' => if decide (k = k') then Some v else dget k d'
    end.

Definition dmem (k : K) (d : list (K * V)) : bool :=
    match dget k d with Some _ => true | None => false end.

Fixpoint dset (k : K) (v : V) (d : list (K * V)) : list (K * V) :=
    match d with
    | [] => [(k, v)]
    | (k', v') :: d' => if decide (k = k') then (k, v) :: d' else (k', v') :: dset k v d'
    end.

Fixpoint ddel (k : K) (d : list (K * V)) : list (K * V) :=
    match d with
    | [] => []
    | (k', v') :: d' => if decide (k = k') then d' else (k', v') :: ddel k d'
    end.

  (** [OrderedDict.move_to_end(k)]. *)
Definition dmove_to_end (k : K) (d : list (K * V)) : list (K * V) :=
    match dget k d with
    | Some v => ddel k d ++ [(k, v)]
    | None => d
    end.

Definition dkeys (d : list (K * V)) : list K := map fst d.

Lemma dget_dset_eq d k v : dget k (dset k v d) = Some v.
  Proof. induction d as [|[k' v'] d IH]; simpl; repeat (case_decide; simpl); congruence. Qed.

Lemma dget_dset_ne d k k' v : k' <> k -> dget k' (dset k v d) = dget k' d.
  Proof.
    intros Hne. induction d as [|[k'' v''] d IH]; simpl;
      repeat (case_decide; simpl); subst; congruence.
  Qed.

Lemma dget_ddel_ne d k k' : k' <> k -> dget k' (ddel k d) = dget k' d.
  Proof.
    intros Hne. induction d as [|[k'' v''] d IH]; simpl;
      repeat (case_decide; simpl); subst; congruence.
  Qed.

Lemma dget_None d k : dget k d = None <-> k ∉ dkeys d.
  Proof.
    induction d as [|[k' v'] d IH]; simpl; [set_solver|].
    case_decide; subst; set_solver.
  Qed.

Lemma dget_Some_key d k v : dget k d = Some v -> k ∈ dkeys d.
  Proof.
    intros H. destruct (decide (k ∈ dkeys d)) as [|Hn]; [done|].
    apply dget_None in Hn. congruence.
  Qed.

Lemma dget_Some_elem d k v : dget k d = Some v -> (k, v) ∈ d.
  Proof.
    induction d as [|[k' v'] d IH]; simpl; [done|].
    case_decide; intros; simplify_eq; [by left|right; auto].
  Qed.

Lemma dget_elem d k v : NoDup (dkeys d) -> (k, v) ∈ d -> dget k d = Some v.
  Proof.
    induction d as [|[k' v'] d IH]; simpl; intros Hnd Hin; [by apply not_elem_of_nil in Hin|].
    apply NoDup_cons in Hnd as [Hn Hnd].
    apply elem_of_cons in Hin as [Heq|Hin].
    - simplify_eq. by rewrite decide_True.
    - case_decide; [|auto]. subst. exfalso. apply Hn.
      apply (list_elem_of_fmap_2' fst d (k', v)); done.
  Qed.

Lemma dkeys_dset_old d k v : k ∈ dkeys d -> dkeys (dset k v d) = dkeys d.
  Proof.
    induction d as [|[k' v'] d IH]; simpl; [by intros ?%not_elem_of_nil|].
    intros Hin. case_decide; subst; simpl; [done|]. rewrite IH; [done|set_solver].
  Qed.

Lemma dset_new d k v : k ∉ dkeys d -> dset k v d = d ++ [(k, v)].
  Proof.
    induction d as [|[k' v'] d IH]; simpl; [done|].
    intros Hn. case_decide; subst; [set_solver|]. rewrite IH; [done|set_solver].
  Qed.

Lemma dkeys_app d1 d2 : dkeys (d1 ++ d2) = dkeys d1 ++ dkeys d2.
  Proof. apply map_app. Qed.

Lemma dkeys_dset_elem d k k' v : k' ∈ dkeys (dset k v d) <-> k' = k \/ k' ∈ dkeys d.
  Proof.
    destruct (decide (k ∈ dkeys d)) as [Hin|Hn].
    - rewrite dkeys_dset_old by done. set_solver.
    - rewrite dset_new, dkeys_app by done. set_solver.
  Qed.

Lemma NoDup_dset d k v : NoDup (dkeys d) -> NoDup (dkeys (dset k v d)).
  Proof.
    intros Hnd. destruct (decide (k ∈ dkeys d)) as [Hin|Hn].
    - by rewrite dkeys_dset_old.
    - rewrite dset_new, dkeys_app by done. simpl.
      apply NoDup_app. split; [done|]. split; [set_solver|apply NoDup_singleton].
  Qed.

Lemma dkeys_ddel_sub d k k' : k' ∈ dkeys (ddel k d) -> k' ∈ dkeys d.
  Proof.
    induction d as [|[k'' v''] d IH]; simpl; [done|]. case_decide; set_solver.
  Qed.

Lemma NoDup_ddel d k : NoDup (dkeys d) -> NoDup (dkeys (ddel k d)).
  Proof.
    induction d as [|[k'' v''] d IH]; simpl; intros Hnd; [done|].
    apply NoDup_cons in Hnd as [Hn Hnd]. case_decide; [done|].
    simpl. apply NoDup_cons. split; [|auto].
    intros Hin. by apply Hn, (dkeys_ddel_sub _ k).
  Qed.

Lemma ddel_not_elem d k : NoDup (dkeys d) -> k ∉ dkeys (ddel k d).
  Proof.
    induction d as [|[k'' v''] d IH]; simpl; intros Hnd; [set_solver|].
    apply NoDup_cons in Hnd as [Hn Hnd]. case_decide; subst; [done|].
    simpl. set_solver.
  Qed.

Lemma ddel_id d k : k ∉ dkeys d -> ddel k d = d.
  Proof.
    induction d as [|[k' v'] d IH]; simpl; [done|].
    intros Hn. case_decide; [set_solver|]. rewrite IH; [done|set_solver].
  Qed.

Lemma dget_ddel_eq d k : NoDup (dkeys d) -> dget k (ddel k d) = None.
  Proof. intros Hnd. by apply dget_None, ddel_not_elem. Qed.

Lemma length_dset_le d k v : length (dset k v d) <= S (length d).
  Proof. induction d as [|[k' v'] d IH]; simpl; [lia|]. case_decide; simpl; lia. Qed.

Lemma length_ddel_le d k : length (ddel k d) <= length d.
  Proof. induction d as [|[k' v'] d IH]; simpl; [lia|]. case_decide; simpl; lia. Qed.

Lemma length_ddel_mem d k : k ∈ dkeys d -> S (length (ddel k d)) = length d.
  Proof.
    induction d as [|[k' v'] d IH]; simpl; [by intros ?%not_elem_of_nil|].
    intros Hin. case_decide; subst; simpl; [done|]. rewrite IH; [done|set_solver].
  Qed.

Lemma ddel_None d k : dget k d = None -> ddel k d = d.
  Proof.
    induction d as [|[k' v'] d IH]; simpl; [done|].
    case_decide; [done|]. intros Hd. f_equal. auto.
  Qed.
End odict.

#[global] Arguments dget : simpl never.
#[global] Arguments dset : simpl never.
#[global] Arguments ddel : simpl never.

(** The equations of the operations, and what holds of every value. *)
Section odict_equations.
Context {K V : Type} {eqK : EqDecision K}.
  Implicit Types (d : list (K * V)) (k : K) (P : V -> Prop) (f : V -> Z).

Lemma dget_cons k x d : dget k (x :: d) = if decide (k = x.1) then Some x.2 else dget k d.
  Proof. by destruct x. Qed.
Lemma dset_cons k v x d : dset k v (x :: d) = if decide (k = x.1) then (k, v) :: d else x :: dset k v d.
  Proof. by destruct x. Qed.
Lemma ddel_cons k x d : ddel k (x :: d) = if decide (k = x.1) then d else x :: ddel k d.
  Proof. by destruct x. Qed.

Lemma Forall_dset P k v d : Forall (fun x => P x.2) d -> P v -> Forall (fun x => P x.2) (dset k v d).
  Proof.
    intros Hd Hv. induction Hd as [|x d Hx Hd IH]; [by repeat constructor|].
    rewrite dset_cons. case_decide; by constructor.
  Qed.

Lemma Forall_ddel P k d : Forall (fun x => P x.2) d -> Forall (fun x => P x.2) (ddel k d).
  Proof. intros Hd. induction Hd as [|x d Hx Hd IH]; [done|]. rewrite ddel_cons. case_decide; [done|by constructor]. Qed.

Lemma Forall_dget P k v d : Forall (fun x => P x.2) d -> dget k d = Some v -> P v.
  Proof. intros Hd Hv%dget_Some_elem. exact (proj1 (Forall_forall _ _) Hd _ Hv). Qed.

  (** [{**a, **b}]. *)
Definition dmerge (a b : list (K * V)) : list (K * V) := foldl (fun d x => dset x.1 x.2 d) a b.

Lemma dget_dmerge k a b : k ∉ dkeys b -> dget k (dmerge a b) = dget k a.
  Proof.
    unfold dmerge. revert a. induction b as [|x b IH]; intros a; [done|]. cbn [dkeys map foldl].
    intros [Hne Hn]%not_elem_of_cons. rewrite IH by done. by apply dget_dset_ne.
  Qed.

  (** The sum of a measure of the values. *)
Definition dtotal f d : Z := foldr Z.add 0%Z (map (fun x => f x.2) d).

Lemma dtotal_dset f k v d :
    dtotal f (dset k v d) = (dtotal f d - match dget k d with Some o => f o | None => 0 end + f v)%Z.
  Proof.
    unfold dtotal. induction d as [|x d IH]; [unfold dset, dget; cbn; lia|]. rewrite dset_cons, dget_cons.
    case_decide; cbn [map foldr snd]; [lia|]. rewrite IH. lia.
  Qed.

Lemma dtotal_ddel f k d : (forall v, 0 <= f v)%Z -> (dtotal f (ddel k d) <= dtotal f d)%Z.
  Proof.
    intros Hf. unfold dtotal. induction d as [|x d IH]; [done|]. rewrite ddel_cons. pose proof (Hf x.2).
    case_decide; cbn [map foldr snd]; lia.
  Qed.
End odict_equations.

(** ** Filtered and mapped lists *)

Lemma elem_list_filter {A} (p : A -> bool) x l : x ∈ List.filter p l <-> x ∈ l /\ p x = true.
Proof. by rewrite !list_elem_of_In, filter_In. Qed.

Lemma NoDup_map_filter {A B} (f : A -> B) p (l : list A) : NoDup (map f l) -> NoDup (map f (List.filter p l)).
Proof.
  induction l as [|x l IH]; [done|]. cbn [map List.filter]. intros [Hx Hl]%NoDup_cons. destruct (p x); [|by apply IH].
  cbn [map]. constructor; [|by apply IH]. intros (y & Hxy & Hy)%list_elem_of_fmap. apply elem_list_filter in Hy as [Hy _].
  apply Hx. rewrite Hxy. apply list_elem_of_fmap. by exists y.
Qed.

Lemma NoDup_map_inj {A B} (f : A -> B) (l : list A) x y : NoDup (map f l) -> x ∈ l -> y ∈ l -> f x = f y -> x = y.
Proof.
  induction l as [|z l IH]; [by intros _ ?%not_elem_of_nil|]. cbn [map]. intros [Hz Hl]%NoDup_cons.
  intros [Hx|Hx]%elem_of_cons [Hy|Hy]%elem_of_cons Hf; [congruence| | |by apply IH].
  - exfalso. apply Hz, list_elem_of_fmap. exists y. by subst.
  - exfalso. apply Hz, list_elem_of_fmap. exists x. by subst.
Qed.

Lemma elem_concat_map {A B} (f : A -> list B) l y : y ∈ concat (map f l) <-> exists x, x ∈ l /\ y ∈ f x.
Proof.
  rewrite list_elem_of_In, in_concat. setoid_rewrite in_map_iff. setoid_rewrite list_elem_of_In. naive_solver.
Qed.

(** Dictionaries built by a loop over a list: the keys, and the value of a key that is
    written once. *)
Section index_by.
Context {A K V : Type} {eqK : EqDecision K} (k : A -> K) (v : A -> V).
Notation index := (foldl (fun d x => dset (k x) (v x) d)).

Lemma dkeys_index l : forall d s, s ∈ dkeys (index d l) <-> s ∈ dkeys d \/ s ∈ map k l.
Proof.
  induction l as [|x l IH]; intros d s; cbn [foldl map]; [rewrite elem_of_nil; tauto|].
  rewrite IH, dkeys_dset_elem, elem_of_cons. tauto.
Qed.

Lemma dget_index_other l : forall d s, s ∉ map k l -> dget s (index d l) = dget s d.
Proof.
  induction l as [|x l IH]; intros d s; cbn [foldl map]; [done|]. intros [Hs Hl]%not_elem_of_cons.
  rewrite IH by done. by apply dget_dset_ne.
Qed.

Lemma dget_index l : forall d x, NoDup (map k l) -> x ∈ l -> dget (k x) (index d l) = Some (v x).
Proof.
  induction l as [|y l IH]; intros d x; cbn [foldl map]; [by intros _ ?%not_elem_of_nil|].
  intros [Hy Hl]%NoDup_cons [->|Hx]%elem_of_cons; [|by apply IH]. rewrite dget_index_other by done. apply dget_dset_eq.
Qed.
End index_by.

(** ** Finite sets of identifiers: sizes, used to count slot holders *)

Lemma size_insert_new (s : gset nat) (x : nat) : x ∉ s -> size ({[x]} ∪ s) = S (size s).
Proof. intros H. rewrite size_union by set_solver. by rewrite size_singleton. Qed.

Lemma size_remove_elem (s : gset nat) (x : nat) : x ∈ s -> S (size (s ∖ {[x]})) = size s.
Proof.
  intros H. rewrite <- (size_insert_new (s ∖ {[x]}) x) by set_solver.
  f_equal. apply set_eq. intros y. destruct (decide (y = x)); set_solver.
Qed.

Lemma size_elem_pos (s : gset nat) (x : nat) : x ∈ s -> 0 < size s.
Proof. intros H. apply size_remove_elem in H. lia. Qed.

Lemma size_ext (s1 s2 : gset nat) : (forall x, x ∈ s1 <-> x ∈ s2) -> size s1 = size s2.
Proof. intros H. f_equal. apply set_eq. done. Qed.
