(* ===== verification/PyFloat.v ===== *)
(** Python's [float] and the mixed [int]/[float] arithmetic the runtime uses.

    A Python float is an IEEE 754 binary64 number; it is represented here by
    the Standard Library's executable specification [spec_float] with precision
    53 and maximal exponent 1024, so every operation below computes the very
    value CPython computes (round to nearest, ties to even).  Nothing in this
    file models repository code: it is the language the other files are
    translated from. *)

From Stdlib Require Export SpecFloat.
From S2P Require Import Prelude.

Open Scope Z_scope.

Definition f64 : Type := spec_float.

Definition prec64 : Z := 53.
Definition emax64 : Z := 1024.

Definition fzero : f64 := S754_zero false.

#[global] Instance f64_eq_dec : EqDecision f64.
Proof. intros x y. unfold Decision. decide equality; repeat decide equality. Defined.

Definition fadd : f64 -> f64 -> f64 := SFadd prec64 emax64.
Definition fsub : f64 -> f64 -> f64 := SFsub prec64 emax64.
Definition fmul : f64 -> f64 -> f64 := SFmul prec64 emax64.
Definition fdiv : f64 -> f64 -> f64 := SFdiv prec64 emax64.
Definition fltb : f64 -> f64 -> bool := SFltb.
Definition fleb : f64 -> f64 -> bool := SFleb.
Definition feqb : f64 -> f64 -> bool := SFeqb.

(** [max(a, b)] and [min(a, b)]: the first argument unless the second is
    strictly larger (smaller); a NaN second argument is never chosen. *)
Definition fmax (a b : f64) : f64 := if fltb a b then b else a.
Definition fmin (a b : f64) : f64 := if fltb b a then b else a.

(** The float nearest to an integer; an infinity stands for [OverflowError]. *)
Definition f_of_Z (z : Z) : f64 := binary_normalize prec64 emax64 z 0 false.

Definition f_sign (z : Z) : bool := z <? 0.

(** [a / b] on integers ([b <> 0]): the correctly rounded quotient. *)
Definition int_truediv (a b : Z) : f64 :=
  match Z.abs a, Z.abs b with
  | Zpos pa, Zpos pb => fdiv (S754_finite (f_sign a) pa 0) (S754_finite (f_sign b) pb 0)
  | _, _ => fzero
  end.

(** Round half to even of the quotient [n / d], [d > 0]. *)
Definition rne_div (n d : Z) : Z :=
  let q := n / d in
  let r := n mod d in
  if 2 * r <? d then q
  else if d <? 2 * r then q + 1
  else if Z.even q then q else q + 1.

(** The exact value of a finite float as a fraction [(n, d)], [d > 0]. *)
Definition f_fraction (x : f64) : option (Z * Z) :=
  match x with
  | S754_zero _ => Some (0, 1)
  | S754_finite s m e =>
      let sm := if s then Zneg m else Zpos m in
      if 0 <=? e then Some (sm * 2 ^ e, 1) else Some (sm, 2 ^ (- e))
  | _ => None
  end.

(** [round(x)] on a float: the nearest integer, ties to even; [None] stands
    for the [OverflowError] (infinity) or [ValueError] (NaN) it raises. *)
Definition f_round_int (x : f64) : option Z :=
  match f_fraction x with
  | Some (n, d) => Some (rne_div n d)
  | None => None
  end.

(** [round(x, 4)]: the float nearest to the correctly rounded decimal. *)
Definition f_round4 (x : f64) : f64 :=
  match f_fraction x with
  | Some (n, d) => int_truediv (rne_div (n * 10000) d) 10000
  | None => x
  end.

(** Exact comparison of a finite float's value with an integer. *)
Definition int_float_compare (z : Z) (x : f64) : option comparison :=
  match x with
  | S754_nan => None
  | S754_infinity true => Some Gt
  | S754_infinity false => Some Lt
  | _ => match f_fraction x with
         | Some (n, d) => Some (Z.compare (z * d) n)
         | None => None
         end
  end.

Definition f_is_finite (x : f64) : bool :=
  match x with S754_zero _ | S754_finite _ _ _ => true | _ => false end.

Definition f_abs (x : f64) : f64 := SFabs x.

Definition f_is_nan (x : f64) : bool := match x with S754_nan => true | _ => false end.

(** [int(x)]: towards zero; [None] where it raises.  [math.ceil] likewise. *)
Definition f_trunc (x : f64) : option Z := match f_fraction x with Some (n, d) => Some (Z.quot n d) | None => None end.
Definition f_ceil (x : f64) : option Z := match f_fraction x with Some (n, d) => Some (- ((- n) / d)) | None => None end.

(** Lemmas on rounding. *)

Lemma rne_div_bounds n d : 0 < d -> n / d <= rne_div n d <= n / d + 1.
Proof.
  intros Hd. unfold rne_div. repeat case_if; lia.
Qed.

Lemma rne_div_close n d : 0 < d -> 2 * Z.abs (rne_div n d * d - n) <= d.
Proof.
  intros Hd. unfold rne_div.
  pose proof (Z.div_mod n d ltac:(lia)). pose proof (Z.mod_pos_bound n d Hd).
  repeat case_if; bool_prop; nia.
Qed.

Lemma fmax_ge_l a b : fmax a b = a \/ fltb a b = true.
Proof. unfold fmax. destruct (fltb a b); auto. Qed.

(** ** Order

    Floats other than NaN are ordered like triples, in lexicographic order. *)
Definition f_rank (x : f64) : Z * Z * Z :=
  match x with
  | S754_infinity true => (-2, 0, 0)
  | S754_finite true m e => (-1, - e, Zneg m)
  | S754_zero _ | S754_nan => (0, 0, 0)
  | S754_finite false m e => (1, e, Zpos m)
  | S754_infinity false => (2, 0, 0)
  end.

Definition rank_lt (x y : Z * Z * Z) : Prop :=
  x.1.1 < y.1.1 \/ (x.1.1 = y.1.1 /\ (x.1.2 < y.1.2 \/ (x.1.2 = y.1.2 /\ x.2 < y.2))).

Lemma fltb_rank x y : f_is_nan x = false -> f_is_nan y = false -> fltb x y = true <-> rank_lt (f_rank x) (f_rank y).
Proof.
  unfold fltb, SFltb, rank_lt.
  destruct x as [s|[]| |[] m e], y as [s'|[]| |[] m' e']; simpl; intros; try done;
    try (split; [done|lia]); try (split; [lia|done]).
  - destruct (Z.compare_spec e e'); [|split; [done|lia]|split; [lia|done]].
    change (Pos.compare_cont Eq m m') with (Pos.compare m m'). destruct (Pos.compare_spec m m'); simpl; split; try done; lia.
  - destruct (Z.compare_spec e e'); [|split; [lia|done]|split; [done|lia]].
    change (Pos.compare_cont Eq m m') with (Pos.compare m m'). destruct (Pos.compare_spec m m'); simpl; split; try done; lia.
Qed.

Lemma feqb_rank x y : f_is_nan x = false -> f_is_nan y = false -> feqb x y = true <-> f_rank x = f_rank y.
Proof.
  unfold feqb, SFeqb.
  destruct x as [s|[]| |[] m e], y as [s'|[]| |[] m' e']; simpl; intros; try done.
  - destruct (Z.compare_spec e e'); [|split; [done|intros [= ?]; lia]..].
    change (Pos.compare_cont Eq m m') with (Pos.compare m m'). destruct (Pos.compare_spec m m'); simpl; split; try done.
    + by intros; subst.
    + intros [= ?]. lia.
    + intros [= ?]. lia.
  - destruct (Z.compare_spec e e'); [|split; [done|intros [= ?]; lia]..].
    change (Pos.compare_cont Eq m m') with (Pos.compare m m'). destruct (Pos.compare_spec m m'); simpl; split; try done.
    + by intros; subst.
    + intros [= ?]. lia.
    + intros [= ?]. lia.
Qed.

Lemma sfcompare_sym x y : SFcompare x y = option_map CompOpp (SFcompare y x).
Proof.
  destruct x as [s|[]| |[] m e], y as [s'|[]| |[] m' e']; simpl; try done; rewrite (Z.compare_antisym e');
    destruct (e' ?= e) eqn:He; simpl; try done;
    change (Pos.compare_cont Eq m m') with (Pos.compare m m'); change (Pos.compare_cont Eq m' m) with (Pos.compare m' m);
    rewrite (Pos.compare_antisym m'); by destruct (Pos.compare m' m).
Qed.

(** Rounding never makes a NaN, and keeps the sign of what overflows. *)
Lemma shr_1_nonneg r : 0 <= shr_m r -> 0 <= shr_m (shr_1 r).
Proof. destruct r as [[|[p|p|]|p] b s]; simpl; lia. Qed.

Lemma shr_nonneg r e n : 0 <= shr_m r -> 0 <= shr_m (shr r e n).1.
Proof.
  unfold shr. destruct n as [|p|p]; simpl; [done| |done]. revert r.
  induction p as [p IH|p IH|]; intros r Hr; simpl; [by apply IH, IH, shr_1_nonneg|by apply IH, IH|by apply shr_1_nonneg].
Qed.

Lemma round_aux_sign sx m e l :
  0 <= m -> f_is_nan (binary_round_aux prec64 emax64 sx m e l) = false
            /\ binary_round_aux prec64 emax64 sx m e l <> S754_infinity (negb sx).
Proof.
  intros Hm. unfold binary_round_aux, shr_fexp.
  destruct (shr (shr_record_of_loc m l) e _) as [r1 e1] eqn:H1.
  assert (Hr1 : 0 <= shr_m r1).
  { change r1 with (r1, e1).1. rewrite <- H1. apply shr_nonneg. destruct l as [|[]]; exact Hm. }
  assert (Hr2 : 0 <= round_nearest_even (shr_m r1) (loc_of_shr_record r1)).
  { unfold round_nearest_even. destruct (loc_of_shr_record r1) as [|[]]; try lia. destruct (Z.even _); lia. }
  destruct (shr _ e1 _) as [r2 e2] eqn:H2.
  assert (Hr3 : 0 <= shr_m r2).
  { change r2 with (r2, e2).1. rewrite <- H2. apply shr_nonneg. exact Hr2. }
  destruct (shr_m r2) as [|p|p]; [done| |lia]. destruct (Z.leb _ _); [done|]. by destruct sx.
Qed.

Lemma normalize_not_nan m e s : f_is_nan (binary_normalize prec64 emax64 m e s) = false.
Proof.
  destruct m as [|p|p]; simpl; [done| |]; unfold binary_round; destruct (shl_align _ _ _) as [mz ez];
    by apply round_aux_sign.
Qed.

Lemma fadd_not_nan x y : f_is_nan x = false -> f_is_finite y = true -> f_is_nan (fadd x y) = false.
Proof. destruct x as [[]|[]| |], y as [[]|[]| |]; simpl; intros; try done; apply normalize_not_nan. Qed.

Lemma fsub_not_nan x y : f_is_nan x = false -> f_is_finite y = true -> f_is_nan (fsub x y) = false.
Proof. destruct x as [[]|[]| |], y as [[]|[]| |]; simpl; intros; try done; apply normalize_not_nan. Qed.

Lemma fadd_pos_not_nan x y : f_is_finite x = true -> f_is_nan y = false -> f_is_nan (fadd x y) = false.
Proof. destruct x as [[]|[]| |], y as [[]|[]| |]; simpl; intros; try done; apply normalize_not_nan. Qed.

Lemma truediv_sign a b : 0 <= a -> 0 < b -> f_is_nan (int_truediv a b) = false /\ int_truediv a b <> S754_infinity true.
Proof.
  intros Ha Hb. unfold int_truediv. rewrite !Z.abs_eq by lia.
  destruct a as [|a|a]; [done| |lia]. destruct b as [|b|b]; [done| |lia]. cbn [Z.abs]. unfold fdiv, SFdiv.
  destruct (SFdiv_core_binary prec64 emax64 (Zpos a) 0 (Zpos b) 0) as [[mz ez] lz] eqn:H.
  assert (Hm : 0 <= mz).
  { unfold SFdiv_core_binary in H. destruct (Z.div_eucl _ _) as [q r] eqn:Hq. injection H as <- _ _.
    set (m' := match _ with Z0 => _ | Zpos _ => _ | Zneg _ => _ end) in Hq.
    assert (Hm' : 0 <= m'). { unfold m'. destruct (_ - _); [lia|apply Z.shiftl_nonneg; lia|lia]. }
    pose proof (Z.div_pos m' (Zpos b) Hm' ltac:(lia)) as Hd. unfold Z.div in Hd. by rewrite Hq in Hd. }
  by apply round_aux_sign.
Qed.

Example half_div : int_truediv 1 3 = S754_finite false 6004799503160661 (-54).
Proof. vm_compute. reflexivity. Qed.

Example round4_two_thirds : f_round4 (int_truediv 2 3) = int_truediv 6667 10000.
Proof. vm_compute. reflexivity. Qed.
