(* ===== verification/PyString.v ===== *)
(** Python's [str] operations used by the runtime, on ASCII strings, and the
    membership tests of its sets.  Language, not repository code. *)

From Stdlib Require Import DecimalString DecimalN.
From S2P Require Import Prelude.

(** ** Collections *)

Definition nonempty {A} (s : list A) : bool := match s with [] => false | _ => true end.

Definition member {A} `{EqDecision A} (x : A) (s : list A) : bool :=
  existsb (fun y => bool_decide (x = y)) s.

(** ** Characters and whitespace *)

(** [str.isspace] and [str.isdigit] on ASCII characters. *)
Definition is_space (c : Ascii.ascii) : bool :=
  let n := Ascii.nat_of_ascii c in ((9 <=? n) && (n <=? 13) || (28 <=? n) && (n <=? 32))%nat.

Definition is_digit (c : Ascii.ascii) : bool :=
  let n := Ascii.nat_of_ascii c in ((48 <=? n) && (n <=? 57))%nat.

Fixpoint lstrip (s : string) : string :=
  match s with
  | EmptyString => EmptyString
  | String c s' => if is_space c then lstrip s' else s
  end.

(** Trailing characters go when everything after them is whitespace too. *)
Fixpoint rstrip (s : string) : string :=
  match s with
  | EmptyString => EmptyString
  | String c s' =>
      match rstrip s' with
      | EmptyString => if is_space c then EmptyString else String c EmptyString
      | t => String c t
      end
  end.

Definition strip (s : string) : string := rstrip (lstrip s).

(** [s.partition(sep)] for a one-character separator. *)
Fixpoint partition (sep : Ascii.ascii) (s : string) : string * bool * string :=
  match s with
  | EmptyString => (EmptyString, false, EmptyString)
  | String c s' =>
      if decide (c = sep) then (EmptyString, true, s')
      else let '(a, found, b) := partition sep s' in (String c a, found, b)
  end.

Definition isdigit (s : string) : bool :=
  nonempty (String.list_ascii_of_string s) && forallb is_digit (String.list_ascii_of_string s).

(** [int(text)] of a text of digits: CPython refuses more than 4300 of them. *)
Definition int_max_str_digits : nat := 4300.

Definition int_of_digits (s : string) : option N :=
  if (int_max_str_digits <? String.length s)%nat then None
  else N.of_uint <$> NilEmpty.uint_of_string s.

(** [str(n)] of a natural number. *)
Definition str_of_N (n : N) : string := NilEmpty.string_of_uint (N.to_uint n).

(** [s.startswith(prefix)] and the rest of [s] after it. *)
Fixpoint strip_prefix (prefix s : string) : option string :=
  match prefix, s with
  | EmptyString, _ => Some s
  | String c prefix', String c' s' => if decide (c = c') then strip_prefix prefix' s' else None
  | String _ _, EmptyString => None
  end.

(** [s.split(sep)] for a one-character separator. *)
Fixpoint split (sep : Ascii.ascii) (s : string) : list string :=
  match s with
  | EmptyString => [EmptyString]
  | String c s' =>
      if decide (c = sep) then EmptyString :: split sep s'
      else match split sep s' with
           | part :: parts => String c part :: parts
           | [] => [String c EmptyString]
           end
  end.

(** [s.replace(a + b, c)]: non-overlapping occurrences from the left of a
    two-character text, each replaced by one character. *)
Fixpoint replace2 (a b c : Ascii.ascii) (s : string) : string :=
  match s with
  | String x (String y s'' as s') =>
      if decide (x = a /\ y = b) then String c (replace2 a b c s'') else String x (replace2 a b c s')
  | _ => s
  end.

Fixpoint lstrip_char (c : Ascii.ascii) (s : string) : string :=
  match s with
  | String x s' => if decide (x = c) then lstrip_char c s' else s
  | EmptyString => EmptyString
  end.

Definition hex_value (c : Ascii.ascii) : option nat :=
  let n := Ascii.nat_of_ascii c in
  if ((48 <=? n) && (n <=? 57))%nat then Some (n - 48)%nat
  else if ((97 <=? n) && (n <=? 102))%nat then Some (n - 87)%nat
  else if ((65 <=? n) && (n <=? 70))%nat then Some (n - 55)%nat
  else None.

(** [urllib.parse.unquote]: each [%XX] becomes the character it encodes. *)
Fixpoint unquote (s : string) : string :=
  match s with
  | String p (String h (String l s'' as s2) as s1) =>
      match (if decide (p = Ascii.ascii_of_nat 37) then hex_value h else None), hex_value l with
      | Some vh, Some vl => String (Ascii.ascii_of_nat (16 * vh + vl)) (unquote s'')
      | _, _ => String p (unquote s1)
      end
  | String p s1 => String p (unquote s1)
  | EmptyString => EmptyString
  end.

(** ** Case and slugs *)

Definition lower_char (c : Ascii.ascii) : Ascii.ascii :=
  let n := Ascii.nat_of_ascii c in if ((65 <=? n) && (n <=? 90))%nat then Ascii.ascii_of_nat (n + 32) else c.
Definition upper_char (c : Ascii.ascii) : Ascii.ascii :=
  let n := Ascii.nat_of_ascii c in if ((97 <=? n) && (n <=? 122))%nat then Ascii.ascii_of_nat (n - 32) else c.

(** [str.casefold] of an ASCII string. *)
Fixpoint casefold (s : string) : string :=
  match s with EmptyString => EmptyString | String c s' => String (lower_char c) (casefold s') end.

(** [str.capitalize]: all that follows the first character is lowered. *)
Definition capitalize (s : string) : string :=
  match s with EmptyString => EmptyString | String c s' => String (upper_char c) (casefold s') end.

(** [re.sub(r"[^a-z0-9]+", "-", s)]. *)
Fixpoint sub_other (in_run : bool) (s : string) : string :=
  match s with
  | EmptyString => EmptyString
  | String c s' =>
      let n := Ascii.nat_of_ascii c in
      if (((97 <=? n) && (n <=? 122)) || ((48 <=? n) && (n <=? 57)))%nat then String c (sub_other false s')
      else if in_run then sub_other true s' else String (Ascii.ascii_of_nat 45) (sub_other true s')
  end.

Fixpoint drop_dashes (l : list Ascii.ascii) : list Ascii.ascii :=
  match l with c :: l' => if (Ascii.nat_of_ascii c =? 45)%nat then drop_dashes l' else l | [] => [] end.

(** [urllib.parse.quote(s, safe='')] of an ASCII string. *)
Definition unreserved (c : Ascii.ascii) : bool :=
  let n := Ascii.nat_of_ascii c in
  ((65 <=? n) && (n <=? 90) || (97 <=? n) && (n <=? 122) || (48 <=? n) && (n <=? 57)
   || (n =? 95) || (n =? 46) || (n =? 45) || (n =? 126))%nat.

Definition hex_upper (n : nat) : Ascii.ascii := Ascii.ascii_of_nat (if (n <? 10)%nat then 48 + n else 55 + n).

Fixpoint quote (s : string) : string :=
  match s with
  | EmptyString => EmptyString
  | String c s' =>
      if unreserved c then String c (quote s')
      else let n := Ascii.nat_of_ascii c in
           String (Ascii.ascii_of_nat 37) (String (hex_upper (n / 16)) (String (hex_upper (n mod 16)) (quote s')))
  end.

(** [int(text)]: optional whitespace around, a sign, digits in groups joined by
    single underscores.  [None] is the [ValueError]. *)
Fixpoint remove_underscores (prev_digit : bool) (s : string) : option string :=
  match s with
  | EmptyString => if prev_digit then Some EmptyString else None
  | String c s' =>
      if is_digit c then String c <$> remove_underscores true s'
      else if decide (c = Ascii.ascii_of_nat 95) then
        if prev_digit then remove_underscores false s' else None
      else None
  end.

Definition int_of_string (s : string) : option Z :=
  let unsigned t := Z.of_N <$> (remove_underscores false t ≫= int_of_digits) in
  match strip s with
  | String c s' =>
      if decide (c = Ascii.ascii_of_nat 45) then Z.opp <$> unsigned s'
      else if decide (c = Ascii.ascii_of_nat 43) then unsigned s'
      else unsigned (String c s')
  | EmptyString => None
  end.

Example int_of_string_examples :
  map int_of_string [" 12 "; "-3"; "+1_000"; "1__0"; "_1"; ""; "0x1"; "1.0"]
  = [Some 12; Some (-3); Some 1000; None; None; None; None; None]%Z.
Proof. vm_compute. reflexivity. Qed.

Example unquote_examples :
  map unquote ["a%20b"; "%7E1"; "%4"; "%zz"; "100%"; "%25"] = ["a b"; "~1"; "%4"; "%zz"; "100%"; "%"].
Proof. vm_compute. reflexivity. Qed.

Example split_examples : split (Ascii.ascii_of_nat 47) "a//b/" = ["a"; ""; "b"; ""].
Proof. reflexivity. Qed.

(** ** Lemmas *)

Lemma list_ascii_app s t :
  String.list_ascii_of_string (s +:+ t)
  = String.list_ascii_of_string s ++ String.list_ascii_of_string t.
Proof. induction s as [|c s IH]; [done|]. simpl. by rewrite IH. Qed.

Definition all_chars (p : Ascii.ascii -> bool) (s : string) : bool :=
  forallb p (String.list_ascii_of_string s).

Lemma all_chars_app p s t : all_chars p (s +:+ t) = all_chars p s && all_chars p t.
Proof. unfold all_chars. by rewrite list_ascii_app, forallb_app. Qed.

Lemma all_chars_cons p c s : all_chars p (String c s) = p c && all_chars p s.
Proof. done. Qed.

Lemma all_chars_impl (p q : Ascii.ascii -> bool) s :
  (forall c, p c = true -> q c = true) -> all_chars p s = true -> all_chars q s = true.
Proof.
  intros H. induction s as [|c s IH]; [done|]. rewrite !all_chars_cons, !andb_true_iff. naive_solver.
Qed.

Lemma rstrip_id s : all_chars (fun c => negb (is_space c)) s = true -> rstrip s = s.
Proof.
  induction s as [|c s IH]; [done|]. rewrite all_chars_cons, andb_true_iff. intros [Hc Hs].
  simpl. rewrite IH by done. destruct s; [|done]. apply negb_true_iff in Hc. by rewrite Hc.
Qed.

Lemma strip_id s : all_chars (fun c => negb (is_space c)) s = true -> strip s = s.
Proof.
  intros Hs. unfold strip. assert (lstrip s = s) as ->; [|by apply rstrip_id].
  destruct s as [|c s]; [done|]. rewrite all_chars_cons, andb_true_iff in Hs. destruct Hs as [Hc _].
  apply negb_true_iff in Hc. simpl. by rewrite Hc.
Qed.

Lemma partition_app sep s t :
  all_chars (fun c => negb (bool_decide (c = sep))) s = true ->
  partition sep (s +:+ String sep t) = (s, true, t).
Proof.
  induction s as [|c s IH]; intros Hs; simpl; [by rewrite decide_True|].
  rewrite all_chars_cons, andb_true_iff in Hs. destruct Hs as [Hc Hs].
  apply negb_true_iff, bool_decide_eq_false in Hc. rewrite decide_False by done. by rewrite IH.
Qed.

Lemma string_of_uint_digits u : all_chars is_digit (NilEmpty.string_of_uint u) = true.
Proof. induction u; [done|..]; simpl; rewrite all_chars_cons; by rewrite IHu. Qed.

Lemma str_of_N_digits n : isdigit (str_of_N n) = true.
Proof.
  unfold isdigit. apply andb_true_iff. split; [|apply string_of_uint_digits].
  unfold str_of_N. destruct (N.to_uint n) eqn:H; try done.
  pose proof (Unsigned.of_to n) as Hn. rewrite H in Hn. simpl in Hn. subst n. discriminate.
Qed.

Lemma int_of_str_of_N n :
  (String.length (str_of_N n) <= int_max_str_digits)%nat -> int_of_digits (str_of_N n) = Some n.
Proof.
  intros Hlen. unfold int_of_digits.
  destruct (Nat.ltb_spec int_max_str_digits (String.length (str_of_N n))); [lia|].
  unfold str_of_N. by rewrite NilEmpty.usu; simpl; rewrite Unsigned.of_to.
Qed.

Lemma unquote_cons c s : c <> Ascii.ascii_of_nat 37 -> unquote (String c s) = String c (unquote s).
Proof. intros Hc. destruct s as [|h [|l s]]; [done|done|]. cbn [unquote]. by rewrite decide_False. Qed.

Lemma unquote_escape c s :
  let n := Ascii.nat_of_ascii c in
  unquote (String (Ascii.ascii_of_nat 37) (String (hex_upper (n / 16)) (String (hex_upper (n mod 16)) s))) = String c (unquote s).
Proof. destruct c as [[] [] [] [] [] [] [] []]; reflexivity. Qed.

Lemma unquote_quote s : unquote (quote s) = s.
Proof.
  induction s as [|c s IH]; [done|]. cbn [quote]. destruct (unreserved c) eqn:Hc.
  - rewrite unquote_cons, IH; [done|]. by intros ->.
  - cbn zeta. by rewrite unquote_escape, IH.
Qed.

Lemma quote_inj s t : quote s = quote t -> s = t.
Proof. intros H. by rewrite <- (unquote_quote s), H, unquote_quote. Qed.
