(* ===== verification/PyBytes.v ===== *)
(** Python's [bytes] as the file readers use them: little-endian integers as
    [struct] packs them and [bytes.decode] of UTF-8 with replacement characters.
    Language, not repository code. *)

From Stdlib Require Import Strings.Byte.
From S2P Require Import Prelude.

Definition bytes : Type := list Byte.byte.

#[global] Instance byte_eq_dec : EqDecision Byte.byte := Byte.byte_eq_dec.

(** A text as its code points. *)
Definition pystr : Type := list N.

Definition pystr_of (s : string) : pystr := map Ascii.N_of_ascii (String.list_ascii_of_string s).

Definition bytes_of (s : string) : bytes := map Ascii.byte_of_ascii (String.list_ascii_of_string s).

(** [s.endswith(suffix)]. *)
Definition ends_with (suffix s : pystr) : bool :=
  bool_decide (suffix = drop (length s - length suffix) s) && (length suffix <=? length s)%nat.

Lemma ends_with_app suffix s : ends_with suffix (s ++ suffix) = true.
Proof.
  unfold ends_with. rewrite length_app. apply andb_true_iff. split.
  - apply bool_decide_eq_true.
    replace (length s + length suffix - length suffix)%nat with (length s) by lia. by rewrite drop_app_length.
  - apply Nat.leb_le. lia.
Qed.

(** ** Little-endian integers *)

Fixpoint le_value (bs : bytes) : N :=
  match bs with
  | [] => 0
  | b :: bs' => Byte.to_N b + 256 * le_value bs'
  end.

Definition byte_of (n : N) : Byte.byte :=
  match Byte.of_N (n mod 256) with Some b => b | None => Byte.x00 end.

Fixpoint le_bytes (w : nat) (n : N) : bytes :=
  match w with
  | O => []
  | S w' => byte_of n :: le_bytes w' (n / 256)
  end.

(** Two's complement on [w] bytes. *)
Definition le_signed (bs : bytes) : Z :=
  let n := Z.of_N (le_value bs) in
  let m := (256 ^ Z.of_nat (length bs))%Z in
  (if n <? m / 2 then n else n - m)%Z.

Lemma byte_of_N n : Byte.to_N (byte_of n) = (n mod 256)%N.
Proof.
  unfold byte_of. pose proof (Byte.to_of_N_iff) as H. destruct (Byte.of_N (n mod 256)) as [b|] eqn:Hb.
  - by apply Byte.to_of_N in Hb.
  - apply Byte.of_N_None_iff in Hb. pose proof (N.mod_lt n 256 ltac:(lia)). lia.
Qed.

Lemma length_le_bytes w n : length (le_bytes w n) = w.
Proof. revert n. induction w as [|w IH]; intros n; [done|]. simpl. by rewrite IH. Qed.

Lemma le_value_bytes w n : (n < 256 ^ N.of_nat w)%N -> le_value (le_bytes w n) = n.
Proof.
  revert n. induction w as [|w IH]; intros n Hn; [simpl in *; lia|].
  rewrite Nat2N.inj_succ, N.pow_succ_r' in Hn. cbn [le_bytes le_value].
  rewrite byte_of_N, IH by (apply N.Div0.div_lt_upper_bound; lia).
  rewrite (N.div_mod n 256) at 3 by lia. lia.
Qed.

(** ** UTF-8 *)

Definition REPLACEMENT : N := 65533.

(** What a leading byte announces: how many bytes follow, the range of the first
    of them, and the bits it contributes. *)
Definition utf8_lead (b : N) : option (nat * N * N * N) :=
  (if b <=? 127 then Some (0%nat, 0, 0, b)
   else if (194 <=? b) && (b <=? 223) then Some (1%nat, 128, 191, b mod 32)
   else if b =? 224 then Some (2%nat, 160, 191, b mod 16)
   else if b =? 237 then Some (2%nat, 128, 159, b mod 16)
   else if (225 <=? b) && (b <=? 239) then Some (2%nat, 128, 191, b mod 16)
   else if b =? 240 then Some (3%nat, 144, 191, b mod 8)
   else if (241 <=? b) && (b <=? 243) then Some (3%nat, 128, 191, b mod 8)
   else if b =? 244 then Some (3%nat, 128, 143, b mod 8)
   else None)%N.

(** [need] bytes of a sequence are missing, the next one in [lo .. hi]; every
    maximal prefix of a sequence that breaks off is one replacement character. *)
Fixpoint utf8_decode_from (need : nat) (lo hi acc : N) (bs : bytes) : pystr :=
  match bs with
  | [] => match need with O => [] | S _ => [REPLACEMENT] end
  | byte :: bs' =>
      let b := Byte.to_N byte in
      let start := match utf8_lead b with
                   | None => REPLACEMENT :: utf8_decode_from 0 0 0 0 bs'
                   | Some (O, _, _, c) => c :: utf8_decode_from 0 0 0 0 bs'
                   | Some (n, lo, hi, c) => utf8_decode_from n lo hi c bs'
                   end in
      match need with
      | O => start
      | S need' =>
          if ((lo <=? b) && (b <=? hi))%N then
            let acc := (64 * acc + b mod 64)%N in
            match need' with
            | O => acc :: utf8_decode_from 0 0 0 0 bs'
            | S _ => utf8_decode_from need' 128 191 acc bs'
            end
          else REPLACEMENT :: start
      end
  end.

(** [bs.decode("utf-8", errors="replace")]. *)
Definition utf8_decode (bs : bytes) : pystr := utf8_decode_from 0 0 0 0 bs.

Lemma byte_of_ascii_N a : Byte.to_N (Ascii.byte_of_ascii a) = Ascii.N_of_ascii a.
Proof. destruct a as [[] [] [] [] [] [] [] []]; reflexivity. Qed.

(** ASCII texts are encoded as themselves. *)
Lemma utf8_decode_ascii s :
  forallb (fun a => (Ascii.N_of_ascii a <=? 127)%N) (String.list_ascii_of_string s) = true ->
  utf8_decode (bytes_of s) = pystr_of s.
Proof.
  unfold utf8_decode, bytes_of, pystr_of. induction (String.list_ascii_of_string s) as [|a l IH]; [done|].
  simpl. intros [Ha Hl]%andb_true_iff. rewrite byte_of_ascii_N. unfold utf8_lead. rewrite Ha.
  by rewrite IH.
Qed.

Example utf8_examples :
  map utf8_decode [ [Byte.xe2; Byte.x82; Byte.xac]; [Byte.xf0; Byte.x9f; Byte.x98]; [Byte.xc0; Byte.x80];
                    [Byte.xed; Byte.xa0; Byte.x80]; [Byte.xe2; Byte.x82; Byte.x41] ]
  = [ [8364]; [65533]; [65533; 65533]; [65533; 65533; 65533]; [65533; 65] ]%N.
Proof. by vm_compute. Qed.
