(* ===== verification/PyText.v ===== *)
(** Python's [str] as a list of code points, for the components that search and
    rewrite model output: whitespace, find, strip, split, join, and what the
    searches guarantee.  Language, not repository code. *)

From S2P Require Import Prelude PyBytes.

#[local] Open Scope N_scope.

(** [str.isspace], which is also what [\s] matches. *)
Definition text_space (c : N) : bool :=
  ((9 <=? c) && (c <=? 13)) || ((28 <=? c) && (c <=? 32)) || (c =? 133) || (c =? 160) || (c =? 5760)
  || ((8192 <=? c) && (c <=? 8202)) || (c =? 8232) || (c =? 8233) || (c =? 8239) || (c =? 8287) || (c =? 12288).

Fixpoint text_lstrip (s : pystr) : pystr :=
  match s with
  | [] => []
  | c :: s' => if text_space c then text_lstrip s' else s
  end.

(** [s.strip()]. *)
Definition text_strip (s : pystr) : pystr := rev (text_lstrip (rev (text_lstrip s))).

(** [s.startswith(p)]. *)
Fixpoint starts_with (p s : pystr) : bool :=
  match p, s with
  | [], _ => true
  | c :: p', d :: s' => (c =? d) && starts_with p' s'
  | _ :: _, [] => false
  end.

(** [s.find(sub)]. *)
Fixpoint find (sub s : pystr) : option nat :=
  if starts_with sub s then Some 0%nat
  else match s with [] => None | _ :: s' => S <$> find sub s' end.

Definition removeprefix (p s : pystr) : pystr := if starts_with p s then drop (length p) s else s.

Definition removesuffix (p s : pystr) : pystr :=
  if ends_with p s then take (length s - length p) s else s.

(** The parts of [s] between the characters that satisfy [sep]. *)
Fixpoint split_on (sep : N -> bool) (s : pystr) : list pystr :=
  match s with
  | [] => [[]]
  | c :: s' =>
      if sep c then [] :: split_on sep s'
      else match split_on sep s' with
           | part :: parts => (c :: part) :: parts
           | [] => [[c]]
           end
  end.

(** [sep.join(parts)]. *)
Fixpoint join (sep : pystr) (parts : list pystr) : pystr :=
  match parts with
  | [] => []
  | [p] => p
  | p :: parts' => p ++ sep ++ join sep parts'
  end.

(** ** Prefixes *)

Lemma starts_with_spec p s : starts_with p s = true <-> exists t, s = p ++ t.
Proof.
  revert s. induction p as [|c p IH]; intros s; simpl; [split; [by exists s|done]|].
  destruct s as [|d s]; [split; [done|by intros [t [=]]]|].
  rewrite andb_true_iff, N.eqb_eq, IH. split.
  - intros (-> & t & ->). by exists t.
  - intros [t [= <- ->]]. split; [done|]. by exists t.
Qed.

Lemma starts_with_app p t : starts_with p (p ++ t) = true.
Proof. apply starts_with_spec. by exists t. Qed.

Lemma starts_with_more p s t : starts_with p s = true -> starts_with p (s ++ t) = true.
Proof. intros [u ->]%starts_with_spec. rewrite <- app_assoc. apply starts_with_app. Qed.

(** What starts with [p] once [t] follows either starts with it already, or is
    itself the start of [p]. *)
Lemma starts_with_split p s t :
  starts_with p (s ++ t) = true -> starts_with p s = true \/ (length s < length p)%nat /\ starts_with s p = true.
Proof.
  intros H%starts_with_spec. destruct H as [u H].
  destruct (decide (length p <= length s)%nat) as [Hl|Hl].
  - left. apply starts_with_spec. exists (drop (length p) s).
    rewrite <- (take_drop (length p) s) at 1. f_equal.
    rewrite <- (take_app_le s t), H by done. apply take_app_length.
  - right. split; [lia|]. apply starts_with_spec. exists (drop (length s) p).
    rewrite <- (take_drop (length s) p) at 1. f_equal.
    rewrite <- (take_app_le p u) by lia. rewrite <- H. apply take_app_length.
Qed.

(** ** First occurrences *)

Lemma find_Some sub s i :
  find sub s = Some i -> exists u v, s = u ++ sub ++ v /\ length u = i.
Proof.
  revert i. induction s as [|c s IH]; intros i; cbn [find].
  - destruct (starts_with sub []) eqn:Hs; [|done]. intros [= <-].
    apply starts_with_spec in Hs as [t Ht]. by exists [], t.
  - destruct (starts_with sub (c :: s)) eqn:Hs.
    + intros [= <-]. apply starts_with_spec in Hs as [t Ht]. by exists [], t.
    + intros (j & Hj & ->)%fmap_Some. destruct (IH _ Hj) as (u & v & -> & <-). by exists (c :: u), v.
Qed.

(** More text does not move the first occurrence. *)
Lemma find_more sub s t i : find sub s = Some i -> find sub (s ++ t) = Some i.
Proof.
  revert i. induction s as [|c s IH]; intros i; cbn [find app].
  - destruct (starts_with sub []) eqn:Hs; [|done]. intros [= <-].
    apply (starts_with_more _ _ t) in Hs. destruct t; simpl in *; by rewrite Hs.
  - destruct (starts_with sub (c :: s)) eqn:Hs.
    + intros [= <-]. apply (starts_with_more _ _ t) in Hs. simpl app in Hs. by rewrite Hs.
    + intros (j & Hj & ->)%fmap_Some.
      destruct (starts_with sub (c :: s ++ t)) eqn:Hst.
      * exfalso. change (c :: s ++ t) with ((c :: s) ++ t) in Hst.
        apply starts_with_split in Hst as [Hst|[Hl _]]; [congruence|].
        destruct (find_Some _ _ _ Hj) as (u & v & -> & _). simpl in Hl. rewrite !length_app in Hl. lia.
      * by rewrite (IH _ Hj).
Qed.

(** No occurrence begins in the first [n] characters. *)
Lemma find_skip sub s n :
  (forall i, (i < n)%nat -> starts_with sub (drop i s) = false) -> (n <= length s)%nat ->
  find sub s = (Nat.add n) <$> find sub (drop n s).
Proof.
  revert s. induction n as [|n IH]; intros s H Hn; [rewrite drop_0; by destruct (find sub s)|].
  destruct s as [|c s]; [simpl in Hn; lia|]. cbn [find drop].
  rewrite (H 0%nat ltac:(lia) : starts_with sub (c :: s) = false).
  rewrite IH; [by destruct (find sub (drop n s))|intros i Hi; apply (H (S i)); lia|simpl in Hn; lia].
Qed.

Lemma find_None sub s i : find sub s = None -> starts_with sub (drop i s) = false.
Proof.
  revert i. induction s as [|c s IH]; intros i; cbn [find].
  - destruct (starts_with sub []) eqn:Hs; [done|]. by destruct i.
  - destruct (starts_with sub (c :: s)) eqn:Hs; [done|]. intros Hf%fmap_None. destruct i; [done|]. by apply IH.
Qed.

Lemma find_at sub s i :
  find sub s = Some i -> starts_with sub (drop i s) = true /\ (i + length sub <= length s)%nat.
Proof.
  intros (u & v & -> & <-)%find_Some. rewrite drop_app_length. split; [apply starts_with_app|].
  rewrite !length_app. lia.
Qed.

(** ** Partial occurrences at the end

    [is_trailing t text prefix]: the longest end of [text] that is a proper start
    of [prefix] has [t] characters. *)

Record is_trailing (t : nat) (text prefix : pystr) : Prop := {
  tr_text : (t <= length text)%nat;
  tr_prefix : (t <= length prefix - 1)%nat;
  tr_partial : starts_with (drop (length text - t) text) prefix = true;
  tr_longest : forall m, (m <= length text)%nat -> (m <= length prefix - 1)%nat ->
    starts_with (drop (length text - m) text) prefix = true -> (m <= t)%nat
}.

Lemma trailing_unique t t' text prefix : is_trailing t text prefix -> is_trailing t' text prefix -> t = t'.
Proof. intros [] []. apply Nat.le_antisymm; auto. Qed.

(** No occurrence of [prefix] starts before its trailing part, whatever follows. *)
Lemma safe_part_no_start t prefix text more i :
  is_trailing t text prefix -> find prefix text = None -> (i < length text - t)%nat ->
  starts_with prefix (drop i (text ++ more)) = false.
Proof.
  intros [] Hf Hi. destruct (starts_with prefix (drop i (text ++ more))) eqn:Hs; [|done]. exfalso.
  rewrite drop_app_le in Hs by lia. destruct (starts_with_split _ _ _ Hs) as [H|[Hl H]].
  - by rewrite (find_None _ _ i Hf) in H.
  - rewrite length_drop in Hl. specialize (tr_longest0 (length text - i)%nat ltac:(lia) ltac:(lia)).
    replace (length text - (length text - i))%nat with i in * by lia. specialize (tr_longest0 H). lia.
Qed.

(** The trailing part of [text] and what follows does not depend on the safe part. *)
Lemma trailing_of_rest t t' k prefix text more :
  is_trailing t text prefix -> (k <= length text - t)%nat -> is_trailing t' (text ++ more) prefix ->
  is_trailing t' (drop k text ++ more) prefix.
Proof.
  intros Ht Hk Hw. set (w := text ++ more) in *. set (q := drop k text ++ more).
  assert (Hwq : w = take k text ++ q) by (unfold w, q; by rewrite app_assoc, take_drop).
  assert (Hlen : length w = (k + length q)%nat) by (rewrite Hwq, length_app, length_take; lia).
  assert (Hdrop : forall m, (m <= length q)%nat -> drop (length w - m) w = drop (length q - m) q).
  { intros m Hm. rewrite Hwq at 2. rewrite drop_app_ge; rewrite length_take; [f_equal|]; lia. }
  assert (Hlw : length w = (length text + length more)%nat) by (unfold w; by rewrite length_app).
  destruct Hw as [W1 W2 W3 W4].
  assert (Hle : (t' <= length q)%nat).
  { destruct (decide (t' <= length q)%nat) as [|Hn]; [done|]. exfalso.
    set (i := (length w - t')%nat) in *. unfold w in W3. rewrite drop_app_le in W3 by lia.
    apply starts_with_spec in W3 as [u Hu].
    assert (Hs : starts_with (drop i text) prefix = true).
    { apply starts_with_spec. exists (more ++ u). by rewrite Hu, app_assoc. }
    pose proof (tr_longest _ _ _ Ht (length text - i)%nat ltac:(lia) ltac:(lia)) as H4.
    replace (length text - (length text - i))%nat with i in H4 by lia. specialize (H4 Hs). lia. }
  split; [done|done|by rewrite <- Hdrop|]. intros m Hm1 Hm2 Hs. apply W4; [lia|done|]. by rewrite Hdrop.
Qed.
