(* ===== verification/Json.v ===== *)
(** JSON values as Python holds them after [json.loads]: [None], booleans,
    integers of any size, floats, strings, lists and dictionaries in insertion
    order.  Like PyFloat, this file is the language the other files are
    translated to, not repository code.  Strings are ASCII. *)

From S2P Require Import Prelude PyFloat.

Inductive json : Type :=
| JNull
| JBool (b : bool)
| JInt (n : Z)
| JFloat (x : f64)
| JStr (s : string)
| JArr (items : list json)
| JObj (members : list (string * json)).

(** Induction with the hypothesis for every element of an array and every
    member of an object. *)
Section json_induction.
Context (P : json -> Prop).
Context (Hnull : P JNull) (Hbool : forall b, P (JBool b)) (Hint : forall n, P (JInt n)).
Context (Hfloat : forall x, P (JFloat x)) (Hstr : forall s, P (JStr s)).
Context (Harr : forall items, Forall P items -> P (JArr items)).
Context (Hobj : forall members, Forall (fun m => P m.2) members -> P (JObj members)).

Fixpoint json_nested_ind (j : json) : P j :=
    match j with
    | JNull => Hnull
    | JBool b => Hbool b
    | JInt n => Hint n
    | JFloat x => Hfloat x
    | JStr s => Hstr s
    | JArr items =>
        Harr items
          ((fix all (l : list json) : Forall P l :=
              match l with
              | [] => Forall_nil_2 _
              | x :: l' => Forall_cons_2 _ _ _ (json_nested_ind x) (all l')
              end) items)
    | JObj members =>
        Hobj members
          ((fix all (l : list (string * json)) : Forall (fun m => P m.2) l :=
              match l with
              | [] => Forall_nil_2 _
              | m :: l' => Forall_cons_2 _ _ _ (json_nested_ind m.2) (all l')
              end) members)
    end.
End json_induction.

(** Structural equality (not Python's [==], for which [1 == 1.0 == True]). *)
Fixpoint json_eqb (x y : json) {struct x} : bool :=
  match x, y with
  | JNull, JNull => true
  | JBool b, JBool b' => bool_decide (b = b')
  | JInt n, JInt n' => bool_decide (n = n')
  | JFloat f, JFloat f' => bool_decide (f = f')
  | JStr s, JStr s' => bool_decide (s = s')
  | JArr l, JArr l' =>
      (fix all (l l' : list json) {struct l} : bool :=
         match l, l' with
         | [], [] => true
         | a :: l, a' :: l' => json_eqb a a' && all l l'
         | _, _ => false
         end) l l'
  | JObj l, JObj l' =>
      (fix all (l l' : list (string * json)) {struct l} : bool :=
         match l, l' with
         | [], [] => true
         | (k, a) :: l, (k', a') :: l' => bool_decide (k = k') && (json_eqb a a' && all l l')
         | _, _ => false
         end) l l'
  | _, _ => false
  end.

Lemma json_eqb_spec x y : json_eqb x y = true <-> x = y.
Proof.
  revert y. induction x as [| | | | |items IH|members IH] using json_nested_ind;
    intros [| | | | |items'|members']; simpl;
    try (rewrite bool_decide_eq_true); try (split; congruence).
  - revert items'. induction IH as [|a l Ha _ IHl]; intros [|a' l']; try (split; congruence).
    rewrite andb_true_iff, Ha, IHl. split; [intros [-> [= ->]]|intros [= -> ->]]; done.
  - revert members'. induction IH as [|[k a] l Ha _ IHl]; intros [|[k' a'] l'];
      try (split; congruence). simpl in Ha.
    rewrite !andb_true_iff, bool_decide_eq_true, Ha, IHl.
    split; [intros [-> [-> [= ->]]]|intros [= -> -> ->]]; done.
Qed.

#[global] Instance json_eq_dec : EqDecision json.
Proof.
  intros x y. destruct (json_eqb x y) eqn:H; [left|right].
  - by apply json_eqb_spec.
  - intros Heq%json_eqb_spec. congruence.
Defined.

(** [bool(value)]. *)
Definition json_truthy (j : json) : bool :=
  match j with
  | JNull => false
  | JBool b => b
  | JInt n => negb (n =? 0)%Z
  | JFloat x => negb (feqb x fzero)
  | JStr s => negb (s =? "")%string
  | JArr items => match items with [] => false | _ => true end
  | JObj members => match members with [] => false | _ => true end
  end.

(** [bool(s)] of an optional string: neither [None] nor empty. *)
Definition truthy (s : option string) : bool :=
  match s with
  | Some t => negb (t =? "")%string
  | None => false
  end.

(** [a or b] on optional strings. *)
Definition or_else (a b : option string) : option string := if truthy a then a else b.

Lemma or_else_truthy a b : truthy a = true -> or_else a b = a.
Proof. unfold or_else. by intros ->. Qed.

Lemma or_else_falsy a b : truthy a = false -> or_else a b = b.
Proof. unfold or_else. by intros ->. Qed.
