(* ===== verification/PySort.v ===== *)
(** Python's [list.sort] with a key: the stable sort of a list by a comparison of
    which only "less than" is used.  Language, not repository code. *)

From Stdlib Require Import Sorted.
From S2P Require Import Prelude.

Open Scope Z_scope.

(** ** The order of strings *)

Lemma ascii_lt_trans a b c : Ascii.compare a b = Lt -> Ascii.compare b c = Lt -> Ascii.compare a c = Lt.
Proof. unfold Ascii.compare. rewrite !N.compare_lt_iff. apply N.lt_trans. Qed.

Lemma string_lt_trans a : forall b c, String.compare a b = Lt -> String.compare b c = Lt -> String.compare a c = Lt.
Proof.
  induction a as [|x a IH]; intros [|y b] [|z c]; simpl; try done.
  destruct (Ascii.compare x y) eqn:Hxy, (Ascii.compare y z) eqn:Hyz; try done.
  - apply Ascii.compare_eq_iff in Hxy, Hyz. subst. unfold Ascii.compare. rewrite N.compare_refl. apply IH.
  - apply Ascii.compare_eq_iff in Hxy. subst. by rewrite Hyz.
  - apply Ascii.compare_eq_iff in Hyz. subst. by rewrite Hxy.
  - by rewrite (ascii_lt_trans _ _ _ Hxy Hyz).
Qed.

Lemma string_ltb_spec a b : String.ltb a b = true <-> String.compare a b = Lt.
Proof. unfold String.ltb. by destruct (String.compare a b). Qed.

Lemma string_ltb_trans a b c : String.ltb a b = true -> String.ltb b c = true -> String.ltb a c = true.
Proof. rewrite !string_ltb_spec. apply string_lt_trans. Qed.

Lemma string_ltb_total a b : a = b \/ String.ltb a b = true \/ String.ltb b a = true.
Proof.
  rewrite !string_ltb_spec. pose proof (String.compare_antisym a b) as H.
  destruct (String.compare b a) eqn:Hc; simpl in H; [left; by apply String.compare_eq_iff|tauto..].
Qed.

Lemma string_ltb_irrefl a : String.ltb a a = false.
Proof.
  unfold String.ltb. pose proof (String.compare_antisym a a) as H. by destruct (String.compare a a).
Qed.

(** Lexicographic orders of integers. *)
Lemma lexicographic_split (u v w x y z : Z) (P Q R : Prop) :
  (R -> P \/ Q) -> u < w \/ (u = w /\ (x < z \/ (x = z /\ R))) ->
  (u < v \/ (u = v /\ (x < y \/ (x = y /\ P)))) \/ (v < w \/ (v = w /\ (y < z \/ (y = z /\ Q)))).
Proof.
  intros HR H. destruct (Z.lt_total u v) as [?|[<-|?]], (Z.lt_total x y) as [?|[<-|?]]; try tauto;
    destruct H as [?|[? [?|[? Hr]]]]; try (apply HR in Hr); try (right; lia); intuition lia.
Qed.


(** ** Sorting *)

Section sorting.
Context {A : Type} (lt : A -> A -> bool).

Fixpoint insert_by (x : A) (l : list A) : list A :=
  match l with
  | [] => [x]
  | y :: l' => if lt y x then y :: insert_by x l' else x :: l
  end.

Definition sort_by (l : list A) : list A := foldr insert_by [] l.

Lemma insert_by_perm x l : insert_by x l ≡ₚ x :: l.
Proof.
  induction l as [|y l IH]; [done|]. cbn [insert_by]. destruct (lt y x); [|done]. rewrite IH. apply perm_swap.
Qed.

Lemma sort_by_perm l : sort_by l ≡ₚ l.
Proof. induction l as [|x l IH]; [done|]. cbn [sort_by foldr]. rewrite insert_by_perm. by constructor. Qed.

Lemma elem_sort_by x l : x ∈ sort_by l <-> x ∈ l.
Proof. by rewrite sort_by_perm. Qed.

Lemma sort_by_nil l : sort_by l = [] <-> l = [].
Proof.
  split; [|by intros ->]. intros H. pose proof (sort_by_perm l) as Hp. rewrite H in Hp. by apply Permutation_nil in Hp.
Qed.

(** Where the comparison is a weak order, the result is in order. *)
Record weak_order (P : A -> Prop) : Prop := {
  wo_asym : forall a b, P a -> P b -> lt a b = true -> lt b a = false;
  wo_split : forall a b c, P a -> P b -> P c -> lt a c = true -> lt a b = true \/ lt b c = true
}.

Context (P : A -> Prop) (Hwo : weak_order P).

Lemma wo_irrefl a : P a -> lt a a = false.
Proof. intros Ha. destruct (lt a a) eqn:H; [|done]. pose proof (wo_asym _ Hwo a a Ha Ha H). congruence. Qed.

Definition in_order (l : list A) : Prop := StronglySorted (fun a b => lt b a = false) l.

Lemma insert_by_in_order x l : P x -> Forall P l -> in_order l -> in_order (insert_by x l).
Proof.
  intros Hx. induction l as [|y l IH]; intros HP Hs; cbn [insert_by].
  { constructor; [constructor|constructor]. }
  apply Forall_cons in HP as [Hy HP]. apply StronglySorted_inv in Hs as [Hs Hall]. destruct (lt y x) eqn:Hyx.
  - constructor; [by apply IH|]. apply Forall_forall. intros z Hz. rewrite insert_by_perm in Hz.
    apply elem_of_cons in Hz as [->|Hz]; [by apply (wo_asym _ Hwo)|].
    by apply (proj1 (Forall_forall _ _) Hall).
  - constructor; [by constructor|]. constructor; [done|]. apply Forall_forall. intros z Hz.
    assert (Hzy : lt z y = false) by by apply (proj1 (Forall_forall _ _) Hall).
    assert (Hpz : P z) by by apply (proj1 (Forall_forall _ _) HP).
    apply not_true_iff_false. intros Hzx. destruct (wo_split _ Hwo z y x Hpz Hy Hx Hzx); congruence.
Qed.

Lemma sort_by_in_order l : Forall P l -> in_order (sort_by l).
Proof.
  induction 1 as [|x l Hx HP IH]; [constructor|]. cbn [sort_by foldr]. apply insert_by_in_order; [done| |done].
  apply Forall_forall. intros z Hz. rewrite elem_sort_by in Hz. by apply (proj1 (Forall_forall _ _) HP).
Qed.

(** The first of the sorted list: nothing in the list is less. *)
Lemma sort_by_head l x l' y : Forall P l -> sort_by l = x :: l' -> y ∈ l -> lt y x = false.
Proof.
  intros HP Hs Hy. pose proof (sort_by_in_order l HP) as Ho. rewrite Hs in Ho.
  apply StronglySorted_inv in Ho as [_ Hall]. rewrite <- elem_sort_by, Hs in Hy.
  apply elem_of_cons in Hy as [->|Hy]; [|by apply (proj1 (Forall_forall _ _) Hall)].
  apply wo_irrefl. apply (proj1 (Forall_forall _ _) HP). rewrite <- elem_sort_by, Hs. by left.
Qed.
End sorting.

(** ** Keys of several parts

    A part of a key is a strict total order on some type; tuples are compared part by
    part. *)

Record part_of_key {A} (P : A -> Prop) (eqb ltb : A -> A -> bool) (T : Type) (k : A -> T) (R : T -> T -> Prop) : Prop := {
  pk_irrefl : forall x, ~ R x x;
  pk_trans : forall x y z, R x y -> R y z -> R x z;
  pk_total : forall x y, x = y \/ R x y \/ R y x;
  pk_eqb : forall a b, P a -> P b -> eqb a b = true <-> k a = k b;
  pk_ltb : forall a b, P a -> P b -> ltb a b = true <-> R (k a) (k b)
}.

Definition lexicographic {A} (eqb ltb rest : A -> A -> bool) (a b : A) : bool := if eqb a b then rest a b else ltb a b.

Section lexicographic.
Context {A : Type} (P : A -> Prop) (eqb ltb rest : A -> A -> bool) (T : Type) (k : A -> T) (R : T -> T -> Prop).
Context (Hk : part_of_key P eqb ltb T k R) (Hrest : weak_order rest P).

Lemma eqb_false a b : P a -> P b -> eqb a b = false <-> k a <> k b.
Proof. intros Ha Hb. rewrite <- (pk_eqb _ _ _ _ _ _ Hk a b Ha Hb). by destruct (eqb a b). Qed.

Lemma lexicographic_true a b :
  P a -> P b -> lexicographic eqb ltb rest a b = true <-> R (k a) (k b) \/ (k a = k b /\ rest a b = true).
Proof.
  intros Ha Hb. unfold lexicographic. destruct (eqb a b) eqn:He.
  - apply (pk_eqb _ _ _ _ _ _ Hk) in He; [|done|done]. rewrite He. pose proof (pk_irrefl _ _ _ _ _ _ Hk (k b)). tauto.
  - apply eqb_false in He; [|done|done]. rewrite (pk_ltb _ _ _ _ _ _ Hk) by done. tauto.
Qed.

Lemma weak_order_lexicographic : weak_order (lexicographic eqb ltb rest) P.
Proof.
  split.
  - intros a b Ha Hb H%lexicographic_true; [|done|done]. apply not_true_iff_false. rewrite lexicographic_true by done.
    intros H'. destruct H as [H|[He H]], H' as [H'|[He' H']].
    + eapply (pk_irrefl _ _ _ _ _ _ Hk), (pk_trans _ _ _ _ _ _ Hk); [exact H|exact H'].
    + rewrite He' in H. by eapply (pk_irrefl _ _ _ _ _ _ Hk).
    + rewrite He in H'. by eapply (pk_irrefl _ _ _ _ _ _ Hk).
    + pose proof (wo_asym _ _ Hrest a b Ha Hb H). congruence.
  - intros a b c Ha Hb Hc. rewrite !lexicographic_true by done. intros H.
    destruct (pk_total _ _ _ _ _ _ Hk (k a) (k b)) as [He|[Hl|Hl]]; [|by (left; left)|].
    + rewrite He in *. destruct H as [H|[He' H]]; [by (right; left)|].
      destruct (wo_split _ _ Hrest a b c Ha Hb Hc H) as [?|?]; [left|right]; by right.
    + right. left. destruct H as [H|[He H]]; [by eapply (pk_trans _ _ _ _ _ _ Hk)|by rewrite <- He].
Qed.
End lexicographic.

Lemma string_part {A} (P : A -> Prop) (f : A -> string) :
  part_of_key P (fun a b => f a =? f b)%string (fun a b => String.ltb (f a) (f b)) string f (fun x y => String.ltb x y = true).
Proof.
  split.
  - intros x. by rewrite string_ltb_irrefl.
  - apply string_ltb_trans.
  - apply string_ltb_total.
  - intros a b _ _. apply String.eqb_eq.
  - done.
Qed.

Lemma string_weak_order {A} (P : A -> Prop) (f : A -> string) : weak_order (fun a b => String.ltb (f a) (f b)) P.
Proof.
  split.
  - intros a b _ _ H. apply not_true_iff_false. intros H'. pose proof (string_ltb_trans _ _ _ H H') as H2.
    by rewrite string_ltb_irrefl in H2.
  - intros a b c _ _ _ H. destruct (string_ltb_total (f a) (f b)) as [He|[?|Hl]]; [right; by rewrite <- He|by left|right].
    by eapply string_ltb_trans.
Qed.
