(* ===== verification/Scheduler.v ===== *)
(** Runtime admission control: [RuntimeRequestScheduler] of
    src/src/lewlm/runtime/scheduler.py.

    The scheduler's counters, its waiter list and the futures its waiters
    sleep on are one record.  Every critical section is a pure function on that
    record; [acquire] is split at its only suspension point, the
    [asyncio.wait] on the waiter's future, into [acquire_begin] and
    [acquire_resume].  Clock readings are arguments.  [System] runs any number
    of requests over one scheduler, one coroutine segment at a time. *)

From S2P Require Import Prelude PyFloat.

Inductive lane := Decode | Prefill.

#[global] Instance lane_eq_dec : EqDecision lane.
Proof. solve_decision. Defined.

Definition is_decode (l : lane) : bool := match l with Decode => true | Prefill => false end.
Definition is_prefill (l : lane) : bool := negb (is_decode l).

(** Configuration, clamped by [__init__]. *)
Record scheduler_config := {
  max_concurrent_requests : Z;
  queue_limit : Z;
  queue_timeout_seconds : Z;
  decode_priority_enabled : bool;
  long_prefill_token_threshold : Z;
  prefill_isolation_enabled : bool;
  prefill_isolation_max_concurrent_requests : Z;
  prefill_isolation_decode_reserve : Z
}.

Definition init_config (max_concurrent limit timeout : Z) (decode_priority : bool)
    (long_prefill_threshold : Z) (isolation : bool) (isolation_max isolation_reserve : Z)
    : scheduler_config :=
  {| max_concurrent_requests := Z.max 0 max_concurrent;
     queue_limit := Z.max 0 limit;
     queue_timeout_seconds := Z.max 1 timeout;
     decode_priority_enabled := decode_priority;
     long_prefill_token_threshold := Z.max 0 long_prefill_threshold;
     prefill_isolation_enabled := isolation;
     prefill_isolation_max_concurrent_requests := Z.max 1 isolation_max;
     prefill_isolation_decode_reserve := Z.max 0 isolation_reserve |}.

(** [_QueuedRuntimeRequest]; a future is named by its allocation number. *)
Record queued_request := {
  w_future : nat;
  w_enqueued_at : f64;
  w_lane : lane;
  w_isolated : bool
}.

#[global] Instance queued_request_eq_dec : EqDecision queued_request.
Proof. solve_decision. Defined.

(** [asyncio.Future[_GrantedRuntimeRequest]]: the payload is the grant's
    [decode_priority_applied] flag. *)
Inductive future_state := FPending | FResult (decode_priority_applied : bool) | FCancelled.

Definition future_done (f : future_state) : bool :=
  match f with FPending => false | _ => true end.

Record scheduler := {
  waiters : list queued_request;
  futures : gmap nat future_state;
  active_requests : Z;
  queued_requests : Z;
  active_decode_requests : Z;
  active_prefill_requests : Z;
  queued_decode_requests : Z;
  queued_prefill_requests : Z;
  peak_active_requests : Z;
  max_observed_queue_depth : Z;
  max_observed_decode_queue_depth : Z;
  max_observed_prefill_queue_depth : Z;
  total_queued_requests : Z;
  rejected_requests : Z;
  timed_out_requests : Z;
  total_queue_wait_seconds : f64;
  max_queue_wait_seconds : f64;
  decode_priority_request_count : Z;
  prefill_request_count : Z;
  prioritized_decode_grants : Z;
  isolated_prefill_requests : Z;
  frontier_total_batches : Z;
  frontier_total_requests : Z;
  frontier_batched_requests : Z;
  frontier_coalesced_requests : Z;
  frontier_total_queue_delay_seconds : f64;
  frontier_max_queue_delay_seconds : f64;
  frontier_total_batch_size : Z;
  frontier_total_batch_utilization : f64;
  frontier_window_milliseconds : Z;
  frontier_max_batch_size : Z
}.

#[export] Instance scheduler_eta : Eta scheduler := fun r =>
  Build_scheduler (waiters r) (futures r) (active_requests r) (queued_requests r)
    (active_decode_requests r) (active_prefill_requests r) (queued_decode_requests r)
    (queued_prefill_requests r) (peak_active_requests r) (max_observed_queue_depth r)
    (max_observed_decode_queue_depth r) (max_observed_prefill_queue_depth r)
    (total_queued_requests r) (rejected_requests r) (timed_out_requests r)
    (total_queue_wait_seconds r) (max_queue_wait_seconds r) (decode_priority_request_count r)
    (prefill_request_count r) (prioritized_decode_grants r) (isolated_prefill_requests r)
    (frontier_total_batches r) (frontier_total_requests r) (frontier_batched_requests r)
    (frontier_coalesced_requests r) (frontier_total_queue_delay_seconds r)
    (frontier_max_queue_delay_seconds r) (frontier_total_batch_size r)
    (frontier_total_batch_utilization r) (frontier_window_milliseconds r)
    (frontier_max_batch_size r).

Definition init_scheduler : scheduler :=
  Build_scheduler [] ∅ 0 0 0 0 0 0 0 0 0 0 0 0 0 fzero fzero 0 0 0 0 0 0 0 0 fzero fzero 0 fzero 0 0.

(** Slots that remain for isolated prefill work once the decode reserve is
    kept back: [max - min(reserve, max(max - 1, 0))]. *)
Definition unreserved_slots (cfg : scheduler_config) : Z :=
  max_concurrent_requests cfg
  - Z.min (prefill_isolation_decode_reserve cfg) (Z.max (max_concurrent_requests cfg - 1) 0).

Definition prefill_isolation_active (cfg : scheduler_config) (l : lane) (prefill_isolation : bool) : bool :=
  if (negb (is_prefill l) || negb prefill_isolation || negb (prefill_isolation_enabled cfg))%bool
  then false
  else if max_concurrent_requests cfg <=? 1 then false
  else 0 <? unreserved_slots cfg.

Definition grant_slot_locked (l : lane) (prefill_isolated : bool) (st : scheduler) : scheduler :=
  let st := st <| active_requests ::= fun n => n + 1 |> in
  let st := st <| peak_active_requests := Z.max (peak_active_requests st) (active_requests st) |> in
  match l with
  | Prefill => st <| active_prefill_requests ::= fun n => n + 1 |>
  | Decode => st <| active_decode_requests ::= fun n => n + 1 |>
  end.

Definition can_grant_locked (cfg : scheduler_config) (l : lane) (prefill_isolated : bool)
    (st : scheduler) : bool :=
  if max_concurrent_requests cfg <=? active_requests st then false
  else if (negb (is_prefill l) || negb prefill_isolated)%bool then true
  else
    let available_prefill_slots :=
      Z.max 1 (Z.min (prefill_isolation_max_concurrent_requests cfg) (unreserved_slots cfg)) in
    let max_active_requests_for_prefill := Z.max 1 (unreserved_slots cfg) in
    ((active_prefill_requests st <? available_prefill_slots)
     && (active_requests st <? max_active_requests_for_prefill))%bool.

Definition higher_priority_waiter_exists_locked (cfg : scheduler_config) (l : lane)
    (st : scheduler) : bool :=
  if (negb (decode_priority_enabled cfg) || negb (is_prefill l))%bool then false
  else existsb (fun w => is_decode (w_lane w)) (waiters st).

(** The bookkeeping shared by every way a waiter leaves the queue. *)
Definition dequeue_counters (w : queued_request) (st : scheduler) : scheduler :=
  let st := st <| queued_requests ::= fun n => Z.max 0 (n - 1) |> in
  match w_lane w with
  | Decode => st <| queued_decode_requests ::= fun n => Z.max 0 (n - 1) |>
  | Prefill => st <| queued_prefill_requests ::= fun n => Z.max 0 (n - 1) |>
  end.

(** [list.remove]: drop the first equal element. *)
Fixpoint remove_first (w : queued_request) (ws : list queued_request) : list queued_request :=
  match ws with
  | [] => []
  | w' :: ws' => if decide (w' = w) then ws' else w' :: remove_first w ws'
  end.

Definition remove_waiter_locked (w : queued_request) (st : scheduler) : scheduler :=
  if decide (w ∈ waiters st) then
    dequeue_counters w (st <| waiters := remove_first w (waiters st) |>)
  else st.

(** [_withdraw_waiter]: the second component is the grant won in the race. *)
Definition withdraw_waiter (w : queued_request) (st : scheduler) : scheduler * option bool :=
  if decide (w ∈ waiters st) then (remove_waiter_locked w st, None)
  else match futures st !! w_future w with
       | Some (FResult decode_priority_applied) => (st, Some decode_priority_applied)
       | _ => (st, None)
       end.

(** The loop of [_next_waiter_index_locked]: the first grantable index and the
    first grantable decode index; it stops at the latter. *)
Fixpoint scan_waiters (cfg : scheduler_config) (st : scheduler) (index : nat)
    (ws : list queued_request) (first_eligible : option nat) : option nat * option nat :=
  match ws with
  | [] => (first_eligible, None)
  | w :: ws' =>
      if negb (can_grant_locked cfg (w_lane w) (w_isolated w) st)
      then scan_waiters cfg st (S index) ws' first_eligible
      else
        let first_eligible := match first_eligible with None => Some index | Some i => Some i end in
        if is_decode (w_lane w) then (first_eligible, Some index)
        else scan_waiters cfg st (S index) ws' first_eligible
  end.

Definition next_waiter_index_locked (cfg : scheduler_config) (st : scheduler) : option nat * bool :=
  let '(first_eligible_index, first_decode_index) := scan_waiters cfg st 0 (waiters st) None in
  match first_eligible_index with
  | None => (None, false)
  | Some e =>
      match first_decode_index with
      | Some d => if (decode_priority_enabled cfg && negb (Nat.eqb d e))%bool
                  then (Some d, true) else (Some e, false)
      | None => (Some e, false)
      end
  end.

(** One iteration of the dispatch loop, at the index it chose. *)
Definition dispatch_one (i : nat) (w : queued_request) (decode_priority_applied : bool)
    (st : scheduler) : scheduler :=
  let st := st <| waiters := remove_at i (waiters st) |> in
  let st := dequeue_counters w st in
  let st := if decode_priority_applied
            then st <| prioritized_decode_grants ::= fun n => n + 1 |> else st in
  let st := grant_slot_locked (w_lane w) (w_isolated w) st in
  match futures st !! w_future w with
  | Some FPending => st <| futures := <[w_future w := FResult decode_priority_applied]> (futures st) |>
  | _ => st
  end.

(** The [while] loop of [_dispatch_waiters_locked]; every iteration removes a
    waiter, so the queue's length is enough fuel. *)
Fixpoint dispatch_loop (fuel : nat) (cfg : scheduler_config) (st : scheduler) : scheduler :=
  match fuel with
  | O => st
  | S fuel =>
      match waiters st with
      | [] => st
      | _ =>
          if active_requests st <? max_concurrent_requests cfg then
            match next_waiter_index_locked cfg st with
            | (None, _) => st
            | (Some i, decode_priority_applied) =>
                match waiters st !! i with
                | Some w => dispatch_loop fuel cfg (dispatch_one i w decode_priority_applied st)
                | None => st
                end
            end
          else st
      end
  end.

Definition dispatch_waiters_locked (cfg : scheduler_config) (st : scheduler) : scheduler :=
  if max_concurrent_requests cfg <=? 0 then st
  else dispatch_loop (length (waiters st)) cfg st.

Definition release_counters (l : lane) (st : scheduler) : scheduler :=
  let st := st <| active_requests ::= fun n => Z.max 0 (n - 1) |> in
  match l with
  | Prefill => st <| active_prefill_requests ::= fun n => Z.max 0 (n - 1) |>
  | Decode => st <| active_decode_requests ::= fun n => Z.max 0 (n - 1) |>
  end.

Definition release (cfg : scheduler_config) (l : lane) (prefill_isolated : bool) (st : scheduler)
    : scheduler :=
  dispatch_waiters_locked cfg (release_counters l st).

(** [RuntimeRequestAdmission] and its idempotent [release]. *)
Record admission := {
  was_queued : bool;
  wait_seconds : f64;
  adm_lane : lane;
  adm_decode_priority_applied : bool;
  adm_prefill_isolated : bool;
  adm_released : bool
}.

Definition admission_release (cfg : scheduler_config) (a : admission) (st : scheduler)
    : scheduler * admission :=
  if adm_released a then (st, a)
  else (release cfg (adm_lane a) (adm_prefill_isolated a) st,
        {| was_queued := was_queued a; wait_seconds := wait_seconds a; adm_lane := adm_lane a;
           adm_decode_priority_applied := adm_decode_priority_applied a;
           adm_prefill_isolated := adm_prefill_isolated a; adm_released := true |}).

(** ** [acquire] *)

(** What [acquire] can raise.  [BackpressureError] carries its details. *)
Inductive acquire_error :=
| RequestCancelledError
| BackpressureError (message : string) (max_concurrent limit timeout : Z)
| TaskCancelledError
| InvalidStateError
| AssertionError.

Definition backpressure (cfg : scheduler_config) (message : string) : acquire_error :=
  BackpressureError message (max_concurrent_requests cfg) (queue_limit cfg)
    (queue_timeout_seconds cfg).

(** The first segment ends with an admission, an exception, or the coroutine
    suspended on a waiter's future. *)
Inductive begin_outcome :=
| BAdmitted (a : admission)
| BRaised (e : acquire_error)
| BWait (w : queued_request).

(** [raise_if_request_cancelled]: the request's token, if it has one, and
    whether it has been signalled. *)
Definition token_cancelled (token : option bool) : bool :=
  match token with Some c => c | None => false end.

Definition count_request (l : lane) (decode_priority_requested prefill_isolated : bool)
    (st : scheduler) : scheduler :=
  let st := if decode_priority_requested
            then st <| decode_priority_request_count ::= fun n => n + 1 |> else st in
  match l with
  | Prefill =>
      let st := st <| prefill_request_count ::= fun n => n + 1 |> in
      if prefill_isolated then st <| isolated_prefill_requests ::= fun n => n + 1 |> else st
  | Decode => st
  end.

Definition enqueue_waiter (w : queued_request) (st : scheduler) : scheduler :=
  let st := st <| futures := <[w_future w := FPending]> (futures st) |> in
  let st := st <| waiters := waiters st ++ [w] |> in
  let st := st <| queued_requests ::= fun n => n + 1 |> in
  let st := st <| total_queued_requests ::= fun n => n + 1 |> in
  let st := st <| max_observed_queue_depth :=
                    Z.max (max_observed_queue_depth st) (queued_requests st) |> in
  match w_lane w with
  | Decode =>
      let st := st <| queued_decode_requests ::= fun n => n + 1 |> in
      st <| max_observed_decode_queue_depth :=
              Z.max (max_observed_decode_queue_depth st) (queued_decode_requests st) |>
  | Prefill =>
      let st := st <| queued_prefill_requests ::= fun n => n + 1 |> in
      st <| max_observed_prefill_queue_depth :=
              Z.max (max_observed_prefill_queue_depth st) (queued_prefill_requests st) |>
  end.

Definition immediate_admission (l : lane) (prefill_isolated : bool) : admission :=
  {| was_queued := false; wait_seconds := fzero; adm_lane := l;
     adm_decode_priority_applied := false; adm_prefill_isolated := prefill_isolated;
     adm_released := false |}.

(** [acquire] up to its suspension: [future] is the future it would allocate
    and [now] the reading of [time.perf_counter]. *)
Definition acquire_begin (cfg : scheduler_config) (token : option bool) (future : nat) (now : f64)
    (prefill_heavy decode_priority prefill_isolation : bool) (st : scheduler)
    : scheduler * begin_outcome :=
  if token_cancelled token then (st, BRaised RequestCancelledError)
  else
    let l := if prefill_heavy then Prefill else Decode in
    let decode_priority_requested :=
      (decode_priority_enabled cfg && is_decode l && decode_priority)%bool in
    let prefill_isolated := prefill_isolation_active cfg l prefill_isolation in
    let st := count_request l decode_priority_requested prefill_isolated st in
    if max_concurrent_requests cfg <=? 0 then
      (grant_slot_locked l prefill_isolated st, BAdmitted (immediate_admission l prefill_isolated))
    else if (can_grant_locked cfg l prefill_isolated st
             && negb (higher_priority_waiter_exists_locked cfg l st))%bool then
      (grant_slot_locked l prefill_isolated st, BAdmitted (immediate_admission l prefill_isolated))
    else if queue_limit cfg <=? queued_requests st then
      (st <| rejected_requests ::= fun n => n + 1 |>,
       BRaised (backpressure cfg "Runtime request queue is full."))
    else
      let w := {| w_future := future; w_enqueued_at := now; w_lane := l;
                  w_isolated := prefill_isolated |} in
      (enqueue_waiter w st, BWait w).

(** How [asyncio.wait] came back: with the waiter's future in [done], with
    neither waitable done (the queue timeout), with the cancellation waiter in
    [done] (it is tested first), or by raising [CancelledError]. *)
Inductive wake := WakeFuture | WakeTimeout | WakeToken | WakeTaskCancelled.

Definition withdraw_and_release (cfg : scheduler_config) (w : queued_request) (st : scheduler)
    : scheduler :=
  match withdraw_waiter w st with
  | (st, Some _) => release cfg (w_lane w) (w_isolated w) st
  | (st, None) => st
  end.

(** The tail of [acquire] once the slot is known to be granted. *)
Definition finish_granted (cfg : scheduler_config) (token : option bool) (now : f64)
    (w : queued_request) (decode_priority_applied : bool) (st : scheduler)
    : scheduler * result acquire_error admission :=
  let waited := fsub now (w_enqueued_at w) in
  let st := st <| total_queue_wait_seconds :=
                    fadd (total_queue_wait_seconds st) (fmax waited fzero) |> in
  let st := st <| max_queue_wait_seconds := fmax (max_queue_wait_seconds st) waited |> in
  let a := {| was_queued := true; wait_seconds := f_round4 waited; adm_lane := w_lane w;
              adm_decode_priority_applied := decode_priority_applied;
              adm_prefill_isolated := w_isolated w; adm_released := false |} in
  if token_cancelled token
  then (fst (admission_release cfg a st), Err RequestCancelledError)
  else (st, Ok a).

Definition acquire_resume (cfg : scheduler_config) (how : wake) (token : option bool) (now : f64)
    (w : queued_request) (st : scheduler) : scheduler * result acquire_error admission :=
  match how with
  | WakeTaskCancelled => (withdraw_and_release cfg w st, Err TaskCancelledError)
  | WakeToken =>
      (withdraw_and_release cfg w st,
       Err (if token_cancelled token then RequestCancelledError else AssertionError))
  | WakeTimeout =>
      match withdraw_waiter w st with
      | (st, Some decode_priority_applied) =>
          finish_granted cfg token now w decode_priority_applied st
      | (st, None) =>
          (st <| timed_out_requests ::= fun n => n + 1 |>,
           Err (backpressure cfg "Runtime request queue wait timed out."))
      end
  | WakeFuture =>
      match futures st !! w_future w with
      | Some (FResult decode_priority_applied) =>
          finish_granted cfg token now w decode_priority_applied st
      | _ => (st, Err InvalidStateError)
      end
  end.

(** ** Batching statistics and the snapshot *)

Definition record_continuous_batch (batch_size max_batch_size : Z) (queue_delay_seconds : list f64)
    (batch_window_milliseconds : Z) (st : scheduler) : scheduler :=
  let normalized_batch_size := Z.max batch_size 0 in
  let normalized_max_batch_size := Z.max max_batch_size 1 in
  let normalized_delays := map (fun delay => fmax delay fzero) queue_delay_seconds in
  let longest := match normalized_delays with [] => fzero | d :: ds => fold_left fmax ds d end in
  let st := st <| frontier_total_batches ::= fun n => n + 1 |> in
  let st := st <| frontier_total_requests ::= fun n => n + normalized_batch_size |> in
  let st := st <| frontier_total_batch_size ::= fun n => n + normalized_batch_size |> in
  let st := st <| frontier_total_batch_utilization ::=
                    fun x => fadd x (int_truediv normalized_batch_size normalized_max_batch_size) |> in
  let st := st <| frontier_batched_requests ::=
                    fun n => n + (if 1 <? normalized_batch_size then normalized_batch_size else 0) |> in
  let st := st <| frontier_coalesced_requests ::= fun n => n + Z.max (normalized_batch_size - 1) 0 |> in
  let st := st <| frontier_total_queue_delay_seconds ::=
                    fun x => fadd x (fold_left fadd normalized_delays fzero) |> in
  let st := st <| frontier_max_queue_delay_seconds ::= fun x => fmax x longest |> in
  let st := st <| frontier_window_milliseconds ::= fun n => Z.max n batch_window_milliseconds |> in
  st <| frontier_max_batch_size ::= fun n => Z.max n normalized_max_batch_size |>.

Definition record_frontier_batch := record_continuous_batch.

Inductive stat := SInt (z : Z) | SFloat (x : f64) | SBool (b : bool).

Definition average (total : f64) (n : Z) : stat :=
  SFloat (if n =? 0 then fzero else f_round4 (fdiv total (f_of_Z n))).

Definition average_int (total n : Z) : stat :=
  SFloat (if n =? 0 then fzero else f_round4 (int_truediv total n)).

Definition snapshot (cfg : scheduler_config) (st : scheduler) : list (string * stat) :=
  let frontier (prefix : string) :=
    [ ((prefix ++ "window_milliseconds")%string, SInt (frontier_window_milliseconds st));
      ((prefix ++ "max_batch_size")%string, SInt (frontier_max_batch_size st));
      ((prefix ++ "total_batches")%string, SInt (frontier_total_batches st));
      ((prefix ++ "total_requests")%string, SInt (frontier_total_requests st));
      ((prefix ++ "batched_requests")%string, SInt (frontier_batched_requests st));
      ((prefix ++ "coalesced_requests")%string, SInt (frontier_coalesced_requests st));
      ((prefix ++ "total_queue_delay_seconds")%string,
        SFloat (f_round4 (frontier_total_queue_delay_seconds st)));
      ((prefix ++ "average_queue_delay_seconds")%string,
        average (frontier_total_queue_delay_seconds st) (frontier_total_requests st));
      ((prefix ++ "max_queue_delay_seconds")%string,
        SFloat (f_round4 (frontier_max_queue_delay_seconds st)));
      ((prefix ++ "average_batch_size")%string,
        average_int (frontier_total_batch_size st) (frontier_total_batches st));
      ((prefix ++ "average_batch_utilization")%string,
        average (frontier_total_batch_utilization st) (frontier_total_batches st)) ] in
  [ ("max_concurrent_requests", SInt (max_concurrent_requests cfg));
    ("queue_limit", SInt (queue_limit cfg));
    ("queue_timeout_seconds", SInt (queue_timeout_seconds cfg));
    ("decode_priority_enabled", SBool (decode_priority_enabled cfg));
    ("long_prefill_token_threshold", SInt (long_prefill_token_threshold cfg));
    ("prefill_isolation_enabled", SBool (prefill_isolation_enabled cfg));
    ("prefill_isolation_max_concurrent_requests",
      SInt (prefill_isolation_max_concurrent_requests cfg));
    ("prefill_isolation_decode_reserve", SInt (prefill_isolation_decode_reserve cfg));
    ("active_requests", SInt (active_requests st));
    ("queued_requests", SInt (queued_requests st));
    ("active_decode_requests", SInt (active_decode_requests st));
    ("active_prefill_requests", SInt (active_prefill_requests st));
    ("queued_decode_requests", SInt (queued_decode_requests st));
    ("queued_prefill_requests", SInt (queued_prefill_requests st));
    ("peak_active_requests", SInt (peak_active_requests st));
    ("max_observed_queue_depth", SInt (max_observed_queue_depth st));
    ("max_observed_decode_queue_depth", SInt (max_observed_decode_queue_depth st));
    ("max_observed_prefill_queue_depth", SInt (max_observed_prefill_queue_depth st));
    ("total_queued_requests", SInt (total_queued_requests st));
    ("rejected_requests", SInt (rejected_requests st));
    ("timed_out_requests", SInt (timed_out_requests st));
    ("total_queue_wait_seconds", SFloat (f_round4 (total_queue_wait_seconds st)));
    ("average_queue_wait_seconds",
      average (total_queue_wait_seconds st) (total_queued_requests st));
    ("max_queue_wait_seconds", SFloat (f_round4 (max_queue_wait_seconds st)));
    ("decode_priority_requests", SInt (decode_priority_request_count st));
    ("prefill_heavy_requests", SInt (prefill_request_count st));
    ("prioritized_decode_grants", SInt (prioritized_decode_grants st));
    ("isolated_prefill_requests", SInt (isolated_prefill_requests st)) ]%string
  ++ frontier "native_"%string ++ frontier "frontier_"%string.

(** ** The concurrent system

    A request is a coroutine running [acquire], then some work, then
    [release].  The asyncio loop runs one segment at a time, so a step is one
    segment.  [PAbandoned] is a request whose [finally] block was itself
    interrupted by [CancelledError]: it leaves [acquire] without withdrawing. *)

Inductive phase :=
| PWaiting (w : queued_request)
| PHolding (a : admission)
| PAbandoned (w : queued_request)
| PDone.

Record system := { sched : scheduler; phases : gmap nat phase }.

Definition phase_of_begin (o : begin_outcome) : phase :=
  match o with
  | BAdmitted a => PHolding a
  | BRaised _ => PDone
  | BWait w => PWaiting w
  end.

Definition phase_of_resume (r : result acquire_error admission) : phase :=
  match r with Ok a => PHolding a | Err _ => PDone end.

(** [asyncio.wait] reports the future only once it is done. *)
Definition wake_possible (how : wake) (w : queued_request) (st : scheduler) : bool :=
  match how with
  | WakeFuture => match futures st !! w_future w with Some f => future_done f | None => false end
  | _ => true
  end.

Inductive step (cfg : scheduler_config) : system -> system -> Prop :=
| step_begin s rid token now heavy prio iso st' o :
    phases s !! rid = None ->
    acquire_begin cfg token rid now heavy prio iso (sched s) = (st', o) ->
    step cfg s {| sched := st'; phases := <[rid := phase_of_begin o]> (phases s) |}
| step_resume s rid w how token now st' r :
    phases s !! rid = Some (PWaiting w) ->
    wake_possible how w (sched s) = true ->
    acquire_resume cfg how token now w (sched s) = (st', r) ->
    step cfg s {| sched := st'; phases := <[rid := phase_of_resume r]> (phases s) |}
| step_interrupt_cleanup s rid w :
    phases s !! rid = Some (PWaiting w) ->
    step cfg s {| sched := sched s; phases := <[rid := PAbandoned w]> (phases s) |}
| step_release s rid a st' a' :
    phases s !! rid = Some (PHolding a) ->
    admission_release cfg a (sched s) = (st', a') ->
    step cfg s {| sched := st'; phases := <[rid := PHolding a']> (phases s) |}.

Definition init_system : system := {| sched := init_scheduler; phases := ∅ |}.

Definition reachable (cfg : scheduler_config) : system -> Prop := rtc (step cfg) init_system.

(** The request [rid] owns a slot of lane [l]: its admission is unreleased, or
    its future was granted and it has not resumed. *)
Definition holds (ph : gmap nat phase) (st : scheduler) (rid : nat) (l : lane) : Prop :=
  match ph !! rid with
  | Some (PHolding a) => adm_lane a = l /\ adm_released a = false
  | Some (PWaiting w) | Some (PAbandoned w) =>
      w_lane w = l /\ exists b, futures st !! rid = Some (FResult b)
  | _ => False
  end.

Definition active_of (l : lane) (st : scheduler) : Z :=
  match l with Decode => active_decode_requests st | Prefill => active_prefill_requests st end.

Definition queued_of (l : lane) (st : scheduler) : Z :=
  match l with Decode => queued_decode_requests st | Prefill => queued_prefill_requests st end.

Definition in_lane (l : lane) (w : queued_request) : bool := bool_decide (w_lane w = l).

(** ** Invariants *)

Record counts_ok (cfg : scheduler_config) (st : scheduler) : Prop := {
  co_active : active_requests st = active_decode_requests st + active_prefill_requests st;
  co_queued : queued_requests st = Z.of_nat (length (waiters st));
  co_queued_lane l : queued_of l st = countb (in_lane l) (waiters st);
  co_capacity : 0 < max_concurrent_requests cfg -> active_requests st <= max_concurrent_requests cfg;
  co_unlimited : max_concurrent_requests cfg <= 0 -> waiters st = [];
  co_limit : 0 <= queue_limit cfg -> Z.of_nat (length (waiters st)) <= queue_limit cfg;
  co_nodup : NoDup (map w_future (waiters st));
  co_pending w : w ∈ waiters st -> futures st !! w_future w = Some FPending
}.

Definition slots_ok (ph : gmap nat phase) (st : scheduler) : Prop :=
  forall l, exists H : gset nat,
    active_of l st = Z.of_nat (size H) /\ forall rid, rid ∈ H <-> holds ph st rid l.

Definition sleeping (ph : gmap nat phase) (rid : nat) (w : queued_request) : Prop :=
  ph !! rid = Some (PWaiting w) \/ ph !! rid = Some (PAbandoned w).

Record wait_ok (ph : gmap nat phase) (st : scheduler) : Prop := {
  wo_sleeping rid w : sleeping ph rid w ->
    w_future w = rid /\ (w ∈ waiters st \/ exists b, futures st !! rid = Some (FResult b));
  wo_queued w : w ∈ waiters st -> sleeping ph (w_future w) w
}.

(** No queued request could be granted a slot right now. *)
Definition none_grantable (cfg : scheduler_config) (st : scheduler) : Prop :=
  forall w, w ∈ waiters st -> can_grant_locked cfg (w_lane w) (w_isolated w) st = false.

Record loop_inv (cfg : scheduler_config) (ph : gmap nat phase) (st : scheduler) : Prop := {
  li_counts : counts_ok cfg st;
  li_slots : slots_ok ph st;
  li_wait : wait_ok ph st
}.

Record inv (cfg : scheduler_config) (s : system) : Prop := {
  inv_loop : loop_inv cfg (phases s) (sched s);
  inv_none : none_grantable cfg (sched s)
}.

Lemma in_lane_other l w : in_lane l w = negb (in_lane (match l with Decode => Prefill | Prefill => Decode end) w).
Proof. unfold in_lane. destruct (w_lane w), l; done. Qed.

(** *** Granting is monotone in the occupied slots *)

Lemma can_grant_mono cfg l iso st st' :
  active_requests st <= active_requests st' ->
  active_prefill_requests st <= active_prefill_requests st' ->
  can_grant_locked cfg l iso st' = true -> can_grant_locked cfg l iso st = true.
Proof.
  unfold can_grant_locked. intros Ha Hp H. repeat case_if; bool_prop; try done; lia.
Qed.

Lemma can_grant_capacity cfg l iso st :
  can_grant_locked cfg l iso st = true -> active_requests st < max_concurrent_requests cfg.
Proof. unfold can_grant_locked. intros H. repeat case_if; bool_prop; try done; lia. Qed.

Lemma can_grant_frame cfg l iso st st' :
  active_requests st = active_requests st' ->
  active_prefill_requests st = active_prefill_requests st' ->
  can_grant_locked cfg l iso st = can_grant_locked cfg l iso st'.
Proof. unfold can_grant_locked. by intros -> ->. Qed.

(** *** The scan finds exactly the grantable waiters *)

Lemma scan_waiters_spec cfg st ws index fe e d :
  scan_waiters cfg st index ws fe = (e, d) ->
  (forall i, fe = Some i -> e = Some i) /\
  (fe = None -> e = None -> Forall (fun w => can_grant_locked cfg (w_lane w) (w_isolated w) st = false) ws) /\
  (forall i, fe = None -> e = Some i -> exists k w, i = (index + k)%nat /\ ws !! k = Some w /\
     can_grant_locked cfg (w_lane w) (w_isolated w) st = true /\
     forall k' w', (k' < k)%nat -> ws !! k' = Some w' ->
       can_grant_locked cfg (w_lane w') (w_isolated w') st = false) /\
  (forall i, d = Some i -> exists k w, i = (index + k)%nat /\ ws !! k = Some w /\
     can_grant_locked cfg (w_lane w) (w_isolated w) st = true /\ w_lane w = Decode /\
     forall k' w', (k' < k)%nat -> ws !! k' = Some w' -> w_lane w' = Decode ->
       can_grant_locked cfg (w_lane w') (w_isolated w') st = false) /\
  (d = None -> forall k w, ws !! k = Some w -> w_lane w = Decode ->
     can_grant_locked cfg (w_lane w) (w_isolated w) st = false).
Proof.
  revert index fe e d. induction ws as [|w ws IH]; intros index fe e d; simpl.
  { intros [= <- <-]. split_and!; naive_solver. }
  destruct (can_grant_locked cfg (w_lane w) (w_isolated w) st) eqn:Hg; simpl.
  2: { intros Hs. apply IH in Hs as (H1 & H2 & H3 & H4 & H5). split_and!; [done|..].
       - intros -> ->. constructor; auto.
       - intros i -> ->. destruct (H3 i) as (k & w' & -> & Hw & Hc & Hb); [done..|].
         exists (S k), w'. split_and!; [lia|done|done|]. intros [|k'] ? ?; naive_solver lia.
       - intros i ->. destruct (H4 i) as (k & w' & -> & Hw & Hc & Hl & Hb); [done|].
         exists (S k), w'. split_and!; [lia|done..|]. intros [|k'] ? ?; naive_solver lia.
       - intros -> [|k] w' ?; naive_solver. }
  destruct (is_decode (w_lane w)) eqn:Hd.
  - intros [= <- <-]. assert (w_lane w = Decode) as Hl by (by destruct (w_lane w)).
    split_and!; [naive_solver| |..].
    + by destruct fe.
    + intros i -> [= <-]. exists 0%nat, w. split_and!; [lia|done..|]. lia.
    + intros i [= <-]. exists 0%nat, w. split_and!; [lia|done..|]. lia.
    + done.
  - intros Hs. apply IH in Hs as (H1 & H2 & H3 & H4 & H5). split_and!.
    + intros i ->. by apply H1.
    + destruct fe; [done|]. intros _ ->. by specialize (H1 _ eq_refl).
    + intros i -> ->. specialize (H1 _ eq_refl). simplify_eq. exists 0%nat, w.
      split_and!; [lia|done..|]. lia.
    + intros i ->. destruct (H4 i) as (k & w' & -> & Hw & Hc & Hl & Hb); [done|].
      exists (S k), w'. split_and!; [lia|done..|]. intros [|k'] ? ? ? ?; [|naive_solver lia].
      simplify_eq/=. match goal with H : w_lane ?x = Decode, H2 : is_decode (w_lane ?x) = false |- _ => by rewrite H in H2 end.
    + intros -> [|k] w' ? ?; [|naive_solver]. simplify_eq/=.
      match goal with H : w_lane ?x = Decode, H2 : is_decode (w_lane ?x) = false |- _ => by rewrite H in H2 end.
Qed.

Lemma next_waiter_None cfg st b :
  next_waiter_index_locked cfg st = (None, b) -> none_grantable cfg st.
Proof.
  unfold next_waiter_index_locked. destruct (scan_waiters _ _ _ _ _) as [e d] eqn:Hs.
  apply scan_waiters_spec in Hs as (_ & Hn & _).
  intros H. destruct e; [destruct d; repeat case_if; done|].
  specialize (Hn eq_refl eq_refl). rewrite Forall_forall in Hn. exact Hn.
Qed.

Lemma next_waiter_Some cfg st i b :
  next_waiter_index_locked cfg st = (Some i, b) ->
  exists w, waiters st !! i = Some w /\ can_grant_locked cfg (w_lane w) (w_isolated w) st = true.
Proof.
  unfold next_waiter_index_locked. destruct (scan_waiters _ _ _ _ _) as [e d] eqn:Hs.
  apply scan_waiters_spec in Hs as (_ & _ & He & Hd & _).
  intros H. destruct e as [e|]; [|done].
  destruct (He e) as (k & w & -> & Hw & Hc & _); [done..|].
  destruct d as [d|]; [|simplify_eq; eauto].
  destruct (Hd d) as (k' & w' & -> & Hw' & Hc' & _); [done..|].
  repeat case_if; simplify_eq; eauto.
Qed.

(** *** Effect of the primitive operations on the fields the invariant reads *)

Lemma dispatch_one_fields l1 w l2 b st :
  waiters st = l1 ++ w :: l2 ->
  futures st !! w_future w = Some FPending ->
  let st' := dispatch_one (length l1) w b st in
  waiters st' = l1 ++ l2 /\
  futures st' = <[w_future w := FResult b]> (futures st) /\
  active_requests st' = active_requests st + 1 /\
  active_of (w_lane w) st' = active_of (w_lane w) st + 1 /\
  (forall l, l <> w_lane w -> active_of l st' = active_of l st) /\
  queued_requests st' = Z.max 0 (queued_requests st - 1) /\
  queued_of (w_lane w) st' = Z.max 0 (queued_of (w_lane w) st - 1) /\
  (forall l, l <> w_lane w -> queued_of l st' = queued_of l st).
Proof.
  intros Hw Hf. unfold dispatch_one, dequeue_counters, grant_slot_locked.
  destruct (w_lane w) eqn:Hl, b; simpl; rewrite Hf; simpl;
    rewrite Hw, remove_at_middle; split_and!; try done; intros []; done.
Qed.

Lemma release_counters_fields l st :
  let st' := release_counters l st in
  waiters st' = waiters st /\ futures st' = futures st /\
  active_requests st' = Z.max 0 (active_requests st - 1) /\
  active_of l st' = Z.max 0 (active_of l st - 1) /\
  (forall l', l' <> l -> active_of l' st' = active_of l' st) /\
  queued_requests st' = queued_requests st /\ (forall l', queued_of l' st' = queued_of l' st).
Proof. destruct l; simpl; split_and!; try done; intros []; done. Qed.

Lemma remove_first_split w ws :
  w ∈ ws -> exists l1 l2, ws = l1 ++ w :: l2 /\ remove_first w ws = l1 ++ l2.
Proof.
  induction ws as [|w' ws IH]; simpl; [by intros ?%not_elem_of_nil|].
  intros Hin. case_decide as He.
  - subst. by exists [], ws.
  - destruct IH as (l1 & l2 & -> & ->); [set_solver|]. by exists (w' :: l1), l2.
Qed.

Lemma remove_waiter_fields l1 w l2 st :
  waiters st = l1 ++ w :: l2 -> remove_first w (waiters st) = l1 ++ l2 ->
  let st' := remove_waiter_locked w st in
  waiters st' = l1 ++ l2 /\ futures st' = futures st /\
  active_requests st' = active_requests st /\ (forall l, active_of l st' = active_of l st) /\
  queued_requests st' = Z.max 0 (queued_requests st - 1) /\
  queued_of (w_lane w) st' = Z.max 0 (queued_of (w_lane w) st - 1) /\
  (forall l, l <> w_lane w -> queued_of l st' = queued_of l st).
Proof.
  intros Hw Hr. unfold remove_waiter_locked.
  rewrite decide_True by (rewrite Hw; set_solver). rewrite Hr.
  unfold dequeue_counters. simpl.
  destruct (w_lane w) eqn:Hl; simpl; split_and!; try done; intros []; done.
Qed.

Lemma countb_in_lane_same w l1 l2 :
  countb (in_lane (w_lane w)) (l1 ++ w :: l2) = countb (in_lane (w_lane w)) (l1 ++ l2) + 1.
Proof.
  rewrite !countb_app, countb_cons. unfold in_lane at 2. rewrite bool_decide_true by done. lia.
Qed.

Lemma countb_in_lane_other l w l1 l2 :
  l <> w_lane w -> countb (in_lane l) (l1 ++ w :: l2) = countb (in_lane l) (l1 ++ l2).
Proof.
  intros Hl. rewrite !countb_app, countb_cons. unfold in_lane at 2.
  rewrite bool_decide_false by congruence. lia.
Qed.

(** Dropping a waiter from the queue keeps the queue's own bookkeeping. *)
Lemma counts_drop_waiter cfg st st' l1 w l2 :
  counts_ok cfg st -> waiters st = l1 ++ w :: l2 -> waiters st' = l1 ++ l2 ->
  queued_requests st' = Z.max 0 (queued_requests st - 1) ->
  queued_of (w_lane w) st' = Z.max 0 (queued_of (w_lane w) st - 1) ->
  (forall l, l <> w_lane w -> queued_of l st' = queued_of l st) ->
  active_requests st' = active_decode_requests st' + active_prefill_requests st' ->
  (0 < max_concurrent_requests cfg -> active_requests st' <= max_concurrent_requests cfg) ->
  (forall w', w' ∈ l1 ++ l2 -> futures st' !! w_future w' = Some FPending) ->
  counts_ok cfg st'.
Proof.
  intros [Ha Hq Hql Hcap Hun Hlim Hnd Hpe] Hw Hw' Hq' Hql' Hqo Ha' Hcap' Hf.
  assert (length (waiters st) = S (length (waiters st'))) as Hlen.
  { rewrite Hw, Hw', !length_app. simpl. lia. }
  constructor; [done|lia| |done| |lia| |by rewrite Hw'].
  - intros l. destruct (decide (l = w_lane w)) as [->|Hne].
    + rewrite Hql', Hql, Hw, Hw', countb_in_lane_same.
      pose proof (countb_nonneg (in_lane (w_lane w)) (l1 ++ l2)). lia.
    + rewrite Hqo, Hql, Hw, Hw' by done. by apply countb_in_lane_other.
  - intros Hm. apply Hun in Hm. rewrite Hm in Hlen. done.
  - rewrite Hw'. rewrite Hw in Hnd. rewrite !map_app in *. simpl in Hnd.
    apply NoDup_app in Hnd as (Hn1 & Hd & Hn2). apply NoDup_cons in Hn2 as [_ Hn2].
    apply NoDup_app. split_and!; [done| |done]. set_solver.
Qed.

Lemma active_split st l :
  active_decode_requests st + active_prefill_requests st
  = active_of l st + active_of (match l with Decode => Prefill | Prefill => Decode end) st.
Proof. destruct l; simpl; lia. Qed.

Lemma nodup_middle_fresh (l1 l2 : list queued_request) w w' :
  NoDup (map w_future (l1 ++ w :: l2)) -> w' ∈ l1 ++ l2 -> w_future w' <> w_future w.
Proof.
  rewrite map_app. simpl. intros Hnd Hin Heq.
  apply NoDup_app in Hnd as (_ & Hd & Hn2). apply NoDup_cons in Hn2 as [Hn _].
  apply elem_of_app in Hin as [Hin|Hin].
  - apply (Hd (w_future w')); [by apply (list_elem_of_fmap_2 w_future)|rewrite Heq; by left].
  - apply Hn. rewrite <- Heq. by apply (list_elem_of_fmap_2 w_future).
Qed.

Lemma holds_frame ph st st' rid l :
  futures st' !! rid = futures st !! rid -> holds ph st' rid l <-> holds ph st rid l.
Proof. unfold holds. by intros ->. Qed.

Lemma dispatch_one_inv cfg ph st i w b :
  loop_inv cfg ph st -> waiters st !! i = Some w ->
  can_grant_locked cfg (w_lane w) (w_isolated w) st = true ->
  loop_inv cfg ph (dispatch_one i w b st).
Proof.
  intros [Hc Hs [Hsl Hqd]] Hi Hg. apply can_grant_capacity in Hg.
  apply lookup_split_at in Hi as (l1 & l2 & Hw & <-).
  assert (w ∈ waiters st) as Hin by (rewrite Hw; set_solver).
  assert (Hpe := co_pending _ _ Hc w Hin).
  assert (Hnd := co_nodup _ _ Hc). rewrite Hw in Hnd.
  destruct (dispatch_one_fields l1 w l2 b st Hw Hpe)
    as (Fw & Ff & Fa & Fl & Fo & Fq & Fql & Fqo).
  remember (dispatch_one (length l1) w b st) as st' eqn:Heq. clear Heq.
  assert (Hact := co_active _ _ Hc).
  pose proof (active_split st' (w_lane w)) as Hs1. pose proof (active_split st (w_lane w)) as Hs2.
  rewrite (Fo (match w_lane w with Decode => Prefill | Prefill => Decode end)) in Hs1
    by (by destruct (w_lane w)).
  constructor.
  - eapply counts_drop_waiter; try done; [lia|lia|].
    intros w' Hw'. rewrite Ff, lookup_insert_ne by (symmetry; by eapply nodup_middle_fresh).
    apply (co_pending _ _ Hc). rewrite Hw. set_solver.
  - intros l. destruct (Hs l) as (H & HH & Hiff).
    destruct (decide (l = w_lane w)) as [->|Hne].
    + exists ({[w_future w]} ∪ H). rewrite Fl, HH.
      assert (w_future w ∉ H) as Hni.
      { rewrite Hiff. unfold holds. destruct (Hqd w Hin) as [-> | ->];
          intros [_ [b' Hb]]; congruence. }
      rewrite size_insert_new by done. split; [lia|].
      intros rid. destruct (decide (rid = w_future w)) as [->|Hr].
      * split; [|set_solver]. intros _. unfold holds. rewrite Ff.
        destruct (Hqd w Hin) as [-> | ->]; (split; [done|]); exists b; apply lookup_insert_eq.
      * rewrite (holds_frame ph st st') by (by rewrite Ff, lookup_insert_ne).
        rewrite <- Hiff. set_solver.
    + exists H. rewrite (Fo l Hne). split; [done|]. intros rid. rewrite Hiff.
      destruct (decide (rid = w_future w)) as [->|Hr].
      * unfold holds. destruct (Hqd w Hin) as [-> | ->]; naive_solver.
      * symmetry. apply holds_frame. by rewrite Ff, lookup_insert_ne.
  - constructor.
    + intros rid w' Hsleep. destruct (Hsl rid w' Hsleep) as [<- Hor]. split; [done|].
      destruct (decide (w_future w' = w_future w)) as [He|Hne].
      * right. exists b. by rewrite Ff, He, lookup_insert_eq.
      * rewrite Ff, lookup_insert_ne by done. destruct Hor as [Hx|?]; [left|by right].
        rewrite Fw. rewrite Hw in Hx. set_solver.
    + intros w'. rewrite Fw. intros Hx. apply Hqd. rewrite Hw. set_solver.
Qed.

Lemma dispatch_loop_inv cfg ph fuel st :
  loop_inv cfg ph st -> loop_inv cfg ph (dispatch_loop fuel cfg st).
Proof.
  revert st. induction fuel as [|fuel IH]; intros st Hi; simpl; [done|].
  destruct (waiters st) eqn:Hw; [done|]. rewrite <- Hw.
  case_if; [|done].
  destruct (next_waiter_index_locked cfg st) as [[i|] b] eqn:Hn; [|done].
  apply next_waiter_Some in Hn as (w & Hwi & Hg). rewrite Hwi.
  by apply IH, dispatch_one_inv.
Qed.

(** The loop ends by its own test, not for lack of fuel: when it stops no
    waiter is grantable. *)
Lemma dispatch_loop_none cfg fuel st :
  0 < max_concurrent_requests cfg ->
  (length (waiters st) <= fuel)%nat ->
  none_grantable cfg (dispatch_loop fuel cfg st).
Proof.
  intros Hmax. revert st. induction fuel as [|fuel IH]; intros st Hlen; simpl.
  { intros w Hin. destruct (waiters st); simpl in *; [by apply not_elem_of_nil in Hin|lia]. }
  destruct (waiters st) eqn:Hw.
  { intros w Hin. rewrite Hw in Hin. by apply not_elem_of_nil in Hin. }
  rewrite <- Hw in *. case_if.
  - destruct (next_waiter_index_locked cfg st) as [[i|] b] eqn:Hn; [|by eapply next_waiter_None].
    apply next_waiter_Some in Hn as (w & Hwi & Hg). rewrite Hwi. apply IH.
    assert (waiters (dispatch_one i w b st) = remove_at i (waiters st)) as ->.
    { unfold dispatch_one, dequeue_counters, grant_slot_locked.
      destruct (w_lane w), b; simpl; by destruct (futures st !! w_future w) as [[]|]. }
    apply lookup_split_at in Hwi as (l1 & l2 & Heq & <-).
    rewrite Heq, remove_at_middle. rewrite Heq, !length_app in Hlen. simpl in Hlen.
    rewrite length_app. lia.
  - intros w _. destruct (can_grant_locked cfg (w_lane w) (w_isolated w) st) eqn:Hg; [|done].
    apply can_grant_capacity in Hg. bool_lia.
Qed.

Lemma dispatch_inv cfg ph st :
  loop_inv cfg ph st -> inv cfg {| sched := dispatch_waiters_locked cfg st; phases := ph |}.
Proof.
  intros Hi. unfold dispatch_waiters_locked. constructor; simpl; case_if.
  - done.
  - by apply dispatch_loop_inv.
  - intros w. rewrite (co_unlimited _ _ (li_counts _ _ _ Hi)) by bool_lia.
    by intros ?%not_elem_of_nil.
  - apply dispatch_loop_none; [bool_lia|done].
Qed.

(** *** Steps preserve the invariant *)

(** Equality on everything the invariant reads. *)
Definition same_core (st st' : scheduler) : Prop :=
  waiters st' = waiters st /\ futures st' = futures st /\
  active_requests st' = active_requests st /\ (forall l, active_of l st' = active_of l st) /\
  queued_requests st' = queued_requests st /\ (forall l, queued_of l st' = queued_of l st).

Lemma same_core_refl st : same_core st st.
Proof. by split_and!. Qed.

Lemma inv_frame cfg ph st st' :
  same_core st st' -> inv cfg {| sched := st; phases := ph |} ->
  inv cfg {| sched := st'; phases := ph |}.
Proof.
  intros (Fw & Ff & Fa & Fal & Fq & Fql) [[Hc Hs [Hsl Hqd]] Hn]. simpl in *.
  assert (forall l iso, can_grant_locked cfg l iso st' = can_grant_locked cfg l iso st) as Hcg.
  { intros l iso. apply can_grant_frame; [done|]. apply (Fal Prefill). }
  constructor; [constructor|]; simpl.
  - destruct Hc. constructor; rewrite ?Fw, ?Ff, ?Fa, ?Fq; try done.
    + pose proof (Fal Decode). pose proof (Fal Prefill). simpl in *. lia.
    + intros l. by rewrite Fql.
  - intros l. destruct (Hs l) as (H & HH & Hiff). exists H. rewrite Fal. split; [done|].
    intros rid. rewrite Hiff. symmetry. apply holds_frame. by rewrite Ff.
  - constructor; rewrite ?Fw, ?Ff; done.
  - intros w. rewrite Fw, Hcg. apply Hn.
Qed.

Lemma count_request_core l p iso st : same_core st (count_request l p iso st).
Proof. destruct l, p, iso; split_and!; try done; intros []; done. Qed.

Lemma holds_insert_ne ph st rid rid' p l :
  rid <> rid' -> holds (<[rid := p]> ph) st rid' l <-> holds ph st rid' l.
Proof. intros H. unfold holds. by rewrite lookup_insert_ne. Qed.

Definition idle_phase (p : phase) : Prop :=
  match p with PDone => True | PHolding a => adm_released a = true | _ => False end.

Lemma idle_phase_not_holds ph st rid p l : idle_phase p -> ~ holds (<[rid := p]> ph) st rid l.
Proof.
  unfold holds. rewrite lookup_insert_eq. destruct p; simpl; [done| |done|naive_solver].
  by intros -> [_ ?].
Qed.

Lemma idle_phase_not_sleeping ph rid p w : idle_phase p -> ~ sleeping (<[rid := p]> ph) rid w.
Proof. intros Hp [H|H]; rewrite lookup_insert_eq in H; simplify_eq; done. Qed.

(** A phase change at [rid] that leaves it idle keeps [wait_ok] when the queue
    does not hold [rid]'s waiter. *)
Lemma wait_ok_idle ph st st' rid p :
  wait_ok ph st -> idle_phase p -> futures st' = futures st ->
  (forall w, w ∈ waiters st' -> w_future w <> rid) ->
  (forall w, w ∈ waiters st' -> w ∈ waiters st) ->
  (forall w, w ∈ waiters st -> w_future w <> rid -> w ∈ waiters st') ->
  wait_ok (<[rid := p]> ph) st'.
Proof.
  intros [Hsl Hqd] Hp Ff Hne Hsub Hsup. constructor.
  - intros rid' w Hs. destruct (decide (rid' = rid)) as [->|Hr].
    { by apply idle_phase_not_sleeping in Hs. }
    assert (sleeping ph rid' w) as Hs'.
    { unfold sleeping in *. by rewrite lookup_insert_ne in Hs by done. }
    destruct (Hsl _ _ Hs') as [<- [Hw|[b Hb]]]; (split; [done|]).
    + left. auto.
    + right. exists b. by rewrite Ff.
  - intros w Hw. unfold sleeping. rewrite lookup_insert_ne by (symmetry; auto).
    apply Hqd. auto.
Qed.

Lemma holder_not_queued cfg ph st rid l w :
  counts_ok cfg st -> wait_ok ph st -> holds ph st rid l -> w ∈ waiters st -> w_future w <> rid.
Proof.
  intros Hc [Hsl Hqd] Hh Hin <-. pose proof (co_pending _ _ Hc w Hin) as Hp.
  unfold holds in Hh. destruct (Hqd w Hin) as [He|He]; rewrite He in Hh;
    destruct Hh as [_ [b Hb]]; congruence.
Qed.

Lemma release_inv cfg ph st rid l iso p :
  loop_inv cfg ph st -> holds ph st rid l -> idle_phase p ->
  inv cfg {| sched := release cfg l iso st; phases := <[rid := p]> ph |}.
Proof.
  intros [Hc Hs Hwo] Hh Hp. unfold release. apply dispatch_inv.
  destruct (release_counters_fields l st) as (Fw & Ff & Fa & Fl & Fo & Fq & Fql).
  remember (release_counters l st) as st' eqn:Heq. clear Heq.
  assert (forall w, w ∈ waiters st -> w_future w <> rid) as Hnq
    by (intros w; by eapply holder_not_queued).
  destruct (Hs l) as (H & HH & Hiff).
  assert (rid ∈ H) as Hin by by apply Hiff. pose proof (size_elem_pos _ _ Hin) as Hpos.
  pose proof (active_split st' l) as Hs1. pose proof (active_split st l) as Hs2.
  rewrite (Fo (match l with Decode => Prefill | Prefill => Decode end)) in Hs1 by (by destruct l).
  assert (0 <= active_of (match l with Decode => Prefill | Prefill => Decode end) st).
  { destruct (Hs (match l with Decode => Prefill | Prefill => Decode end)) as (H' & -> & _). lia. }
  pose proof (co_active _ _ Hc) as Hact.
  constructor.
  - destruct Hc. constructor; rewrite ?Fw, ?Ff, ?Fq; try done; try lia.
    intros l'. by rewrite Fql.
  - intros l'. destruct (decide (l' = l)) as [->|Hne].
    + exists (H ∖ {[rid]}). pose proof (size_remove_elem _ _ Hin). split; [lia|].
      intros rid'. destruct (decide (rid' = rid)) as [->|Hr].
      * split; [set_solver|]. intros Hx. by apply idle_phase_not_holds in Hx.
      * rewrite holds_insert_ne, (holds_frame _ _ _ _ _ (f_equal (lookup rid') Ff)), <- Hiff by done.
        set_solver.
    + destruct (Hs l') as (H' & HH' & Hiff'). exists H'. rewrite Fo by done. split; [done|].
      intros rid'. rewrite Hiff'. destruct (decide (rid' = rid)) as [->|Hr].
      * split; [|intros Hx; by apply idle_phase_not_holds in Hx].
        intros Hh'. exfalso. clear -Hh Hh' Hne. unfold holds in *.
        destruct (ph !! rid) as [[]|]; naive_solver.
      * by rewrite holds_insert_ne, (holds_frame _ _ _ _ _ (f_equal (lookup rid') Ff)).
  - eapply wait_ok_idle; try done; rewrite Fw; auto.
Qed.

Lemma idle_step_inv cfg ph st st' rid p :
  inv cfg {| sched := st; phases := ph |} -> same_core st st' -> idle_phase p ->
  (forall l, ~ holds ph st rid l) -> (forall w, w ∈ waiters st -> w_future w <> rid) ->
  inv cfg {| sched := st'; phases := <[rid := p]> ph |}.
Proof.
  intros Hi Hcore Hp Hnh Hnq. eapply inv_frame; [done|].
  destruct Hi as [[Hc Hs Hwo] Hn]. constructor; simpl in *; [|done].
  constructor; [done| |by eapply wait_ok_idle].
  intros l. destruct (Hs l) as (H & HH & Hiff). exists H. split; [done|].
  intros rid'. rewrite Hiff. destruct (decide (rid' = rid)) as [->|Hr].
  - split; [intros Hx; by apply Hnh in Hx|intros Hx; by apply idle_phase_not_holds in Hx].
  - by rewrite holds_insert_ne.
Qed.

Lemma grant_slot_fields l iso st :
  let st' := grant_slot_locked l iso st in
  waiters st' = waiters st /\ futures st' = futures st /\
  active_requests st' = active_requests st + 1 /\
  active_of l st' = active_of l st + 1 /\ (forall l', l' <> l -> active_of l' st' = active_of l' st) /\
  queued_requests st' = queued_requests st /\ (forall l', queued_of l' st' = queued_of l' st).
Proof. destruct l; simpl; split_and!; try done; intros []; done. Qed.

Lemma fresh_not_queued ph st rid w :
  wait_ok ph st -> ph !! rid = None -> w ∈ waiters st -> w_future w <> rid.
Proof. intros [_ Hqd] Hr Hin <-. destruct (Hqd w Hin); congruence. Qed.

Lemma fresh_not_holds (ph : gmap nat phase) st rid l : ph !! rid = None -> ~ holds ph st rid l.
Proof. unfold holds. intros Hn. rewrite Hn. tauto. Qed.

(** A slot granted on arrival. *)
Lemma grant_inv cfg ph st rid l iso a :
  inv cfg {| sched := st; phases := ph |} -> ph !! rid = None ->
  adm_lane a = l -> adm_released a = false ->
  (0 < max_concurrent_requests cfg -> can_grant_locked cfg l iso st = true) ->
  inv cfg {| sched := grant_slot_locked l iso st; phases := <[rid := PHolding a]> ph |}.
Proof.
  intros [[Hc Hs Hwo] Hn] Hr Hal Harel Hg. simpl in *.
  destruct (grant_slot_fields l iso st) as (Fw & Ff & Fa & Fl & Fo & Fq & Fql).
  remember (grant_slot_locked l iso st) as st' eqn:Heq. clear Heq.
  pose proof (active_split st' l) as Hs1. pose proof (active_split st l) as Hs2.
  rewrite (Fo (match l with Decode => Prefill | Prefill => Decode end)) in Hs1 by (by destruct l).
  pose proof (co_active _ _ Hc) as Hact.
  constructor; simpl; [constructor|].
  - destruct Hc. constructor; rewrite ?Fw, ?Ff, ?Fq; try done; try lia.
    + intros l'. by rewrite Fql.
    + intros Hm. apply Hg, can_grant_capacity in Hm. lia.
  - intros l'. destruct (Hs l') as (H & HH & Hiff). destruct (decide (l' = l)) as [->|Hne].
    + exists ({[rid]} ∪ H). assert (rid ∉ H) as Hni.
      { rewrite Hiff. by apply fresh_not_holds. }
      rewrite size_insert_new by done. split; [lia|].
      intros rid'. destruct (decide (rid' = rid)) as [->|Hr'].
      * split; [|set_solver]. intros _. unfold holds. by rewrite lookup_insert_eq.
      * rewrite holds_insert_ne, (holds_frame _ _ _ _ _ (f_equal (lookup rid') Ff)), <- Hiff by done.
        set_solver.
    + exists H. rewrite Fo by done. split; [done|]. intros rid'. rewrite Hiff.
      destruct (decide (rid' = rid)) as [->|Hr'].
      * split; [intros Hx; by apply fresh_not_holds in Hx|]. unfold holds. rewrite lookup_insert_eq.
        intros [? _]. congruence.
      * by rewrite holds_insert_ne, (holds_frame _ _ _ _ _ (f_equal (lookup rid') Ff)).
  - destruct Hwo as [Hsl Hqd]. constructor.
    + intros rid' w Hx. assert (rid' <> rid) as Hne.
      { intros ->. destruct Hx as [Hx|Hx]; rewrite lookup_insert_eq in Hx; done. }
      unfold sleeping in Hx. rewrite lookup_insert_ne in Hx by done.
      rewrite Fw, Ff. by apply Hsl.
    + intros w. rewrite Fw. intros Hin. unfold sleeping.
      rewrite lookup_insert_ne by (intros ->; eapply fresh_not_queued in Hin; by try constructor).
      by apply Hqd.
  - intros w. rewrite Fw. intros Hin. specialize (Hn w Hin).
    destruct (can_grant_locked cfg (w_lane w) (w_isolated w) st') eqn:Hg'; [|done].
    rewrite (can_grant_mono _ _ _ st st') in Hn; [done|lia| |done].
    destruct (decide (Prefill = l)) as [<-|Hne]; [simpl in Fl; lia|].
    specialize (Fo Prefill Hne). simpl in Fo. lia.
Qed.

Lemma enqueue_fields w st :
  let st' := enqueue_waiter w st in
  waiters st' = waiters st ++ [w] /\ futures st' = <[w_future w := FPending]> (futures st) /\
  active_requests st' = active_requests st /\ (forall l, active_of l st' = active_of l st) /\
  queued_requests st' = queued_requests st + 1 /\
  queued_of (w_lane w) st' = queued_of (w_lane w) st + 1 /\
  (forall l, l <> w_lane w -> queued_of l st' = queued_of l st).
Proof.
  unfold enqueue_waiter. simpl. destruct (w_lane w) eqn:Hl; simpl; split_and!; try done; intros []; done.
Qed.

Lemma enqueue_inv cfg ph st w :
  inv cfg {| sched := st; phases := ph |} -> ph !! w_future w = None ->
  0 < max_concurrent_requests cfg ->
  queued_requests st < queue_limit cfg ->
  can_grant_locked cfg (w_lane w) (w_isolated w) st = false ->
  inv cfg {| sched := enqueue_waiter w st; phases := <[w_future w := PWaiting w]> ph |}.
Proof.
  intros [[Hc Hs Hwo] Hn] Hr Hmax Hlim Hng. simpl in *.
  destruct (enqueue_fields w st) as (Fw & Ff & Fa & Fal & Fq & Fql & Fqo).
  remember (enqueue_waiter w st) as st' eqn:Heq. clear Heq.
  assert (forall w', w' ∈ waiters st -> w_future w' <> w_future w) as Hfresh
    by (intros w'; by eapply fresh_not_queued).
  assert (forall l iso, can_grant_locked cfg l iso st' = can_grant_locked cfg l iso st) as Hcg.
  { intros l iso. apply can_grant_frame; [done|]. apply (Fal Prefill). }
  constructor; simpl; [constructor|].
  - destruct Hc as [Ha Hq Hql Hcap Hun Hli Hnd Hpe].
    constructor; rewrite ?Fw, ?Fa, ?Fq, ?length_app; simpl; try done; try lia.
    + pose proof (Fal Decode). pose proof (Fal Prefill). simpl in *. lia.
    + intros l. rewrite countb_app, countb_cons, countb_nil. unfold in_lane at 2.
      destruct (decide (l = w_lane w)) as [->|Hne].
      * rewrite Fql, Hql, bool_decide_true by done. lia.
      * rewrite Fqo, Hql, bool_decide_false by congruence. lia.
    + rewrite map_app. apply NoDup_app. split; [done|]. simpl. split; [|apply NoDup_singleton].
      intros x Hx. apply list_elem_of_fmap in Hx as (w' & -> & Hin').
      specialize (Hfresh w' Hin'). set_solver.
    + intros w' [Hin|Hin]%elem_of_app; rewrite Ff.
      * rewrite lookup_insert_ne by (symmetry; auto). auto.
      * apply list_elem_of_singleton in Hin as ->. apply lookup_insert_eq.
  - intros l. destruct (Hs l) as (H & HH & Hiff). exists H. rewrite Fal. split; [done|].
    intros rid. rewrite Hiff. destruct (decide (rid = w_future w)) as [->|Hne].
    + split; [intros Hx; by apply fresh_not_holds in Hx|]. unfold holds.
      rewrite lookup_insert_eq, Ff, lookup_insert_eq. naive_solver.
    + rewrite holds_insert_ne by done. symmetry. apply holds_frame. by rewrite Ff, lookup_insert_ne.
  - destruct Hwo as [Hsl Hqd]. constructor.
    + intros rid w' Hx. destruct (decide (rid = w_future w)) as [->|Hne].
      * assert (w' = w) as ->.
        { destruct Hx as [Hx|Hx]; rewrite lookup_insert_eq in Hx; congruence. }
        split; [done|]. left. rewrite Fw. set_solver.
      * unfold sleeping in Hx. rewrite lookup_insert_ne in Hx by done.
        rewrite Fw, Ff, lookup_insert_ne by done. destruct (Hsl _ _ Hx) as [? [?|?]]; [|naive_solver].
        split; [done|]. left. set_solver.
    + intros w'. rewrite Fw. intros [Hin|Hin]%elem_of_app; unfold sleeping.
      * rewrite lookup_insert_ne by (symmetry; auto). by apply Hqd.
      * apply list_elem_of_singleton in Hin as ->. rewrite lookup_insert_eq. by left.
  - intros w'. rewrite Fw, Hcg. intros [Hin|Hin]%elem_of_app; [by apply Hn|].
    by apply list_elem_of_singleton in Hin as ->.
Qed.

(** When a slot is free, the queue holds no decode waiter. *)
Lemma free_slot_no_priority_waiter cfg st l iso :
  none_grantable cfg st -> can_grant_locked cfg l iso st = true ->
  higher_priority_waiter_exists_locked cfg l st = false.
Proof.
  intros Hn Hg%can_grant_capacity. unfold higher_priority_waiter_exists_locked. case_if; [done|].
  apply not_true_is_false. intros (w & Hin & Hd)%existsb_exists.
  apply list_elem_of_In in Hin. specialize (Hn w Hin).
  unfold can_grant_locked in Hn. destruct (w_lane w); [|done]. simpl in Hn.
  case_if; [bool_lia|done].
Qed.

Lemma acquire_begin_inv cfg ph st rid token now heavy prio iso st' o :
  inv cfg {| sched := st; phases := ph |} -> ph !! rid = None ->
  acquire_begin cfg token rid now heavy prio iso st = (st', o) ->
  inv cfg {| sched := st'; phases := <[rid := phase_of_begin o]> ph |}.
Proof.
  unfold acquire_begin. intros Hi Hr.
  assert (forall w, w ∈ waiters st -> w_future w <> rid) as Hnq.
  { intros w. eapply fresh_not_queued; [|done]. apply (li_wait _ _ _ (inv_loop _ _ Hi)). }
  case_if.
  { intros [= <- <-]. eapply idle_step_inv; [done|apply same_core_refl|done| |done].
    intros l. by apply fresh_not_holds. }
  set (l := if heavy then Prefill else Decode).
  set (isol := prefill_isolation_active cfg l iso).
  set (st1 := count_request _ _ _ _).
  assert (Hcore : same_core st st1) by apply count_request_core.
  assert (Hi1 := inv_frame _ _ _ _ Hcore Hi).
  case_if; [|case_if; [|case_if]].
  - intros [= <- <-]. apply grant_inv; [done..|bool_lia].
  - intros [= <- <-]. bool_prop. by apply grant_inv.
  - intros [= <- <-]. eapply (idle_step_inv _ _ st1); [done|by split_and!|done|..].
    + intros l'. by apply fresh_not_holds.
    + destruct Hcore as (-> & _). done.
  - intros [= <- <-]. simpl. bool_prop. eapply enqueue_inv; simpl; [done..|].
    destruct (can_grant_locked cfg l isol st1) eqn:Hg; [|done].
    match goal with H : (_ && _)%bool = false |- _ => simpl in H; apply negb_false_iff in H end.
    rewrite (free_slot_no_priority_waiter cfg st1 l isol) in *; [done|apply Hi1|done].
Qed.

(** A waiting request that gives up: it leaves the queue, or hands back the
    slot it won meanwhile. *)
Lemma remove_waiter_inv cfg ph st rid w p :
  inv cfg {| sched := st; phases := ph |} -> sleeping ph rid w -> w ∈ waiters st -> idle_phase p ->
  inv cfg {| sched := remove_waiter_locked w st; phases := <[rid := p]> ph |}.
Proof.
  intros [[Hc Hs Hwo] Hn] Hsleep Hin Hp. simpl in *.
  destruct (wo_sleeping _ _ Hwo _ _ Hsleep) as [Hrid _].
  destruct (remove_first_split _ _ Hin) as (l1 & l2 & Hw & Hrem).
  destruct (remove_waiter_fields l1 w l2 st Hw Hrem) as (Fw & Ff & Fa & Fal & Fq & Fql & Fqo).
  remember (remove_waiter_locked w st) as st' eqn:Heq. clear Heq.
  assert (Hnd := co_nodup _ _ Hc). rewrite Hw in Hnd.
  pose proof (Fal Decode) as FD. pose proof (Fal Prefill) as FP. simpl in FD, FP.
  pose proof (co_active _ _ Hc). pose proof (co_capacity _ _ Hc).
  constructor; simpl; [constructor|].
  - eapply counts_drop_waiter; try done; [lia|lia|].
    intros w' Hw'. rewrite Ff. apply (co_pending _ _ Hc). rewrite Hw. set_solver.
  - intros l. destruct (Hs l) as (H' & HH & Hiff). exists H'. rewrite Fal. split; [done|].
    intros rid'. rewrite Hiff. destruct (decide (rid' = rid)) as [->|Hne].
    + split; [|intros Hx; by apply idle_phase_not_holds in Hx].
      intros Hx. exfalso. by apply (holder_not_queued cfg ph st rid l w).
    + by rewrite holds_insert_ne, (holds_frame _ _ _ _ _ (f_equal (lookup rid') Ff)).
  - subst rid. eapply wait_ok_idle; try done; rewrite Fw.
    + intros w'. by eapply nodup_middle_fresh.
    + intros w' Hx. rewrite Hw. set_solver.
    + intros w' Hx Hne. rewrite Hw in Hx. set_solver.
  - intros w'. rewrite Fw. intros Hx. rewrite <- (can_grant_frame _ _ _ st st') by done.
    apply Hn. rewrite Hw. set_solver.
Qed.

Lemma withdrawn_granted ph st rid w b :
  wait_ok ph st -> sleeping ph rid w -> futures st !! w_future w = Some (FResult b) ->
  holds ph st rid (w_lane w).
Proof.
  intros Hwo Hs Hf. destruct (wo_sleeping _ _ Hwo _ _ Hs) as [<- _].
  unfold holds. destruct Hs as [-> | ->]; eauto.
Qed.

Lemma withdraw_cases cfg ph st rid w st' g :
  inv cfg {| sched := st; phases := ph |} -> sleeping ph rid w ->
  withdraw_waiter w st = (st', g) ->
  (g = None /\ forall p, idle_phase p -> inv cfg {| sched := st'; phases := <[rid := p]> ph |}) \/
  (exists b, g = Some b /\ st' = st /\ holds ph st rid (w_lane w)).
Proof.
  intros Hi Hs. unfold withdraw_waiter. case_decide as Hin.
  - intros [= <- <-]. left. split; [done|]. intros p Hp. by apply remove_waiter_inv.
  - destruct (wo_sleeping _ _ (li_wait _ _ _ (inv_loop _ _ Hi)) _ _ Hs) as [Hr [?|[b Hb]]]; [done|].
    simpl in Hb. rewrite <- Hr in Hb. rewrite Hb. intros [= <- <-]. right. exists b.
    split_and!; [done..|]. eapply withdrawn_granted; [apply Hi|done|done].
Qed.

Lemma withdraw_and_release_inv cfg ph st rid w p :
  inv cfg {| sched := st; phases := ph |} -> sleeping ph rid w -> idle_phase p ->
  inv cfg {| sched := withdraw_and_release cfg w st; phases := <[rid := p]> ph |}.
Proof.
  intros Hi Hs Hp. unfold withdraw_and_release.
  destruct (withdraw_waiter w st) as [st' g] eqn:Hw.
  destruct (withdraw_cases _ _ _ _ _ _ _ Hi Hs Hw) as [[-> H]|(b & -> & -> & Hh)]; [auto|].
  apply release_inv; [apply Hi|done|done].
Qed.

(** The wake-up of a request whose future was granted. *)
Lemma resume_held_inv cfg ph st rid w b a :
  inv cfg {| sched := st; phases := ph |} -> sleeping ph rid w ->
  futures st !! w_future w = Some (FResult b) -> adm_lane a = w_lane w -> adm_released a = false ->
  inv cfg {| sched := st; phases := <[rid := PHolding a]> ph |}.
Proof.
  intros [[Hc Hs Hwo] Hn] Hsleep Hf Hal Harel. simpl in *.
  assert (Hh := withdrawn_granted _ _ _ _ _ Hwo Hsleep Hf).
  constructor; simpl; [constructor|]; [done| | |done].
  - intros l. destruct (Hs l) as (H & HH & Hiff). exists H. split; [done|]. intros rid'.
    rewrite Hiff. destruct (decide (rid' = rid)) as [->|Hne]; [|by rewrite holds_insert_ne].
    unfold holds at 2. rewrite lookup_insert_eq, Hal.
    unfold holds in *. destruct Hsleep as [He|He]; rewrite He in *; naive_solver.
  - destruct Hwo as [Hsl Hqd]. constructor.
    + intros rid' w' Hx. assert (rid' <> rid) as Hne.
      { intros ->. destruct Hx as [Hx|Hx]; rewrite lookup_insert_eq in Hx; done. }
      unfold sleeping in Hx. rewrite lookup_insert_ne in Hx by done. by apply Hsl.
    + intros w' Hin. unfold sleeping.
      rewrite lookup_insert_ne; [by apply Hqd|]. symmetry.
      by eapply (holder_not_queued cfg ph st).
Qed.

Lemma finish_granted_inv cfg ph st rid w b token now st' r :
  inv cfg {| sched := st; phases := ph |} -> sleeping ph rid w ->
  futures st !! w_future w = Some (FResult b) ->
  finish_granted cfg token now w b st = (st', r) ->
  inv cfg {| sched := st'; phases := <[rid := phase_of_resume r]> ph |}.
Proof.
  intros Hi Hs Hf. unfold finish_granted.
  set (st1 := set_field max_queue_wait_seconds _ _).
  assert (Hi1 : inv cfg {| sched := st1; phases := ph |}) by (eapply inv_frame; [|done]; by split_and!).
  case_if; intros [= <- <-].
  - apply release_inv; [apply Hi1| |done].
    eapply (withdrawn_granted _ st1); [apply (inv_loop _ _ Hi1)|done|done].
  - by eapply resume_held_inv.
Qed.

Lemma withdrawn_result w st b st' :
  withdraw_waiter w st = (st', Some b) -> st' = st /\ futures st !! w_future w = Some (FResult b).
Proof.
  unfold withdraw_waiter. case_decide; [done|].
  destruct (futures st !! w_future w) as [[| |]|]; naive_solver.
Qed.

Lemma step_inv cfg s s' : inv cfg s -> step cfg s s' -> inv cfg s'.
Proof.
  intros Hi Hstep. destruct Hstep as
    [s rid token now heavy prio iso st' o Hr Hb | s rid w how token now st' r Hr Hposs Hres
    | s rid w Hr | s rid a st' a' Hr Hrel]; destruct s as [st ph]; simpl in *.
  - by eapply acquire_begin_inv.
  - assert (sleeping ph rid w) as Hs by by left.
    destruct how; simpl in Hres.
    + destruct (wo_sleeping _ _ (li_wait _ _ _ (inv_loop _ _ Hi)) _ _ Hs) as [Hrid [Hin|[b Hb]]].
      { pose proof (co_pending _ _ (li_counts _ _ _ (inv_loop _ _ Hi)) w Hin) as Hpe.
        simpl in Hpe, Hposs. by rewrite Hpe in Hposs. }
      simpl in Hb. rewrite <- Hrid in Hb. rewrite Hb in Hres. by eapply finish_granted_inv.
    + destruct (withdraw_waiter w st) as [st1 g] eqn:Hw.
      destruct (withdraw_cases _ _ _ _ _ _ _ Hi Hs Hw) as [[-> H]|(b & -> & -> & Hh)].
      * simplify_eq. eapply inv_frame; [|by apply (H PDone)]. by split_and!.
      * apply withdrawn_result in Hw as [_ Hf]. by eapply finish_granted_inv.
    + simplify_eq. by apply withdraw_and_release_inv.
    + simplify_eq. by apply withdraw_and_release_inv.
  - destruct Hi as [[Hc Hs Hwo] Hn]. constructor; simpl in *; [constructor|]; [done| | |done].
    + intros l. destruct (Hs l) as (H & HH & Hiff). exists H. split; [done|]. intros rid'.
      rewrite Hiff. destruct (decide (rid' = rid)) as [->|Hne]; [|by rewrite holds_insert_ne].
      unfold holds. by rewrite Hr, lookup_insert_eq.
    + destruct Hwo as [Hsl Hqd]. constructor; [intros x w' Hx|intros w' Hx].
      * destruct (decide (x = rid)) as [->|Hne].
        -- assert (w' = w) as -> by (destruct Hx as [Hx|Hx]; rewrite lookup_insert_eq in Hx; congruence).
           apply Hsl. by left.
        -- unfold sleeping in Hx. rewrite lookup_insert_ne in Hx by done. by apply Hsl.
      * unfold sleeping. destruct (decide (w_future w' = rid)) as [He|Hne].
        -- rewrite He, lookup_insert_eq. right.
           destruct (Hqd w' Hx) as [Hy|Hy]; rewrite He in Hy; congruence.
        -- rewrite lookup_insert_ne by done. by apply Hqd.
  - unfold admission_release in Hrel. destruct (adm_released a) eqn:Hre; simplify_eq.
    + by rewrite insert_id.
    + apply release_inv; [apply Hi| |done]. unfold holds. by rewrite Hr.
Qed.

Lemma init_inv cfg : 0 <= max_concurrent_requests cfg -> inv cfg init_system.
Proof.
  intros Hm. constructor; [constructor|]; simpl.
  - constructor; simpl; try done.
    + by intros [].
    + constructor.
    + intros w Hw. by apply not_elem_of_nil in Hw.
  - intros l. exists ∅. split; [by destruct l|]. intros rid. unfold holds. simpl.
    rewrite lookup_empty. set_solver.
  - constructor.
    + intros rid w [H|H]; by rewrite lookup_empty in H.
    + intros w Hw. by apply not_elem_of_nil in Hw.
  - intros w Hw. by apply not_elem_of_nil in Hw.
Qed.

Lemma reachable_inv cfg s : 0 <= max_concurrent_requests cfg -> reachable cfg s -> inv cfg s.
Proof.
  intros Hm Hr. assert (H := init_inv cfg Hm). revert H.
  unfold reachable in Hr. induction Hr; [done|]. intros. by eapply IHHr, step_inv.
Qed.

#[export] Hint Resolve reachable_inv : scheduler.

(** *** A granted future stays granted *)

Lemma dispatch_loop_futures cfg fuel st f b :
  futures st !! f = Some (FResult b) -> futures (dispatch_loop fuel cfg st) !! f = Some (FResult b).
Proof.
  revert st. induction fuel as [|fuel IH]; intros st Hf; simpl; [done|].
  destruct (waiters st) eqn:Hw; [done|]. rewrite <- Hw. case_if; [|done].
  destruct (next_waiter_index_locked cfg st) as [[i|] b'] eqn:Hn; [|done].
  destruct (waiters st !! i) as [w|]; [|done]. apply IH.
  unfold dispatch_one, dequeue_counters, grant_slot_locked.
  destruct (w_lane w), b'; simpl;
    destruct (futures st !! w_future w) as [[]|] eqn:Hfw; simpl; try done;
    (rewrite lookup_insert_ne; [done|congruence]).
Qed.

Lemma release_futures cfg l iso st f b :
  futures st !! f = Some (FResult b) -> futures (release cfg l iso st) !! f = Some (FResult b).
Proof.
  intros Hf. unfold release, dispatch_waiters_locked. case_if.
  - by destruct l.
  - apply dispatch_loop_futures. by destruct l.
Qed.

Lemma withdraw_futures w st st' g : withdraw_waiter w st = (st', g) -> futures st' = futures st.
Proof.
  unfold withdraw_waiter, remove_waiter_locked, dequeue_counters.
  repeat case_decide; intros Heq; simplify_eq; [by destruct (w_lane w)|].
  by destruct (futures st !! w_future w) as [[]|]; simplify_eq.
Qed.

Lemma withdraw_and_release_futures cfg w st f b :
  futures st !! f = Some (FResult b) ->
  futures (withdraw_and_release cfg w st) !! f = Some (FResult b).
Proof.
  intros Hf. unfold withdraw_and_release. destruct (withdraw_waiter w st) as [st' g] eqn:Hw.
  rewrite <- (withdraw_futures _ _ _ _ Hw) in Hf. destruct g; [by apply release_futures|done].
Qed.

Lemma finish_granted_futures cfg token now w d st st' r f b :
  futures st !! f = Some (FResult b) -> finish_granted cfg token now w d st = (st', r) ->
  futures st' !! f = Some (FResult b).
Proof.
  intros Hf. unfold finish_granted. case_if; intros [= <- <-]; [|done].
  unfold admission_release. simpl. by apply release_futures.
Qed.

Definition abandoned_granted (s : system) (rid : nat) (w : queued_request) : Prop :=
  phases s !! rid = Some (PAbandoned w) /\ exists b, futures (sched s) !! rid = Some (FResult b).

Lemma abandoned_granted_step cfg s s' rid w :
  step cfg s s' -> abandoned_granted s rid w -> abandoned_granted s' rid w.
Proof.
  intros Hstep [Hp [b Hb]]. destruct Hstep as
    [s rid' token now heavy prio iso st' o Hr Hbg | s rid' w' how token now st' r Hr _ Hres
    | s rid' w' Hr | s rid' a st' a' Hr Hrel];
    (assert (rid' <> rid) by congruence);
    (split; simpl; [by rewrite lookup_insert_ne|exists b]); simpl; [| |done|].
  - revert Hbg. unfold acquire_begin. case_if; [by intros [= <- <-]|].
    set (l := if heavy then Prefill else Decode). set (st1 := count_request _ _ _ _).
    assert (futures st1 = futures (sched s)) as Hf by apply count_request_core.
    rewrite <- Hf in Hb.
    case_if; [|case_if; [|case_if]]; intros [= <- <-]; [by destruct l..|done|].
    unfold enqueue_waiter. simpl. destruct l; simpl; by rewrite lookup_insert_ne.
  - destruct how; simpl in Hres.
    + destruct (futures (sched s) !! w_future w') as [[]|]; simplify_eq; try done.
      by eapply finish_granted_futures.
    + destruct (withdraw_waiter w' (sched s)) as [st1 g] eqn:Hw.
      rewrite <- (withdraw_futures _ _ _ _ Hw) in Hb.
      destruct g; simplify_eq; [by eapply finish_granted_futures|done].
    + simplify_eq. by apply withdraw_and_release_futures.
    + simplify_eq. by apply withdraw_and_release_futures.
  - unfold admission_release in Hrel. destruct (adm_released a); simplify_eq; [done|].
    by apply release_futures.
Qed.

Lemma abandoned_granted_forever cfg s s' rid w :
  rtc (step cfg) s s' -> abandoned_granted s rid w -> abandoned_granted s' rid w.
Proof. induction 1; [done|]. intros. by eapply IHrtc, abandoned_granted_step. Qed.

(** ** Theorems *)

Section theorems.
Context (max_concurrent limit timeout : Z) (decode_priority : bool) (long_prefill : Z)
          (isolation : bool) (isolation_max isolation_reserve : Z).

Let cfg := init_config max_concurrent limit timeout decode_priority long_prefill
               isolation isolation_max isolation_reserve.

Lemma configured_inv s : reachable cfg s -> inv cfg s.
  Proof using Type. apply reachable_inv. simpl. lia. Qed.

(** C2. Whatever the configuration and the interleaving of arrivals, grants,
      timeouts, cancellations and releases: at most [max_concurrent_requests]
      slots are in use when there is a limit, the queue never exceeds its
      limit, and every counter the scheduler reports agrees with its queue and
      with the per-lane split. *)
Theorem scheduler_bounds_and_counters s :
    reachable cfg s ->
    (0 < max_concurrent_requests cfg -> active_requests (sched s) <= max_concurrent_requests cfg) /\
    Z.of_nat (length (waiters (sched s))) <= queue_limit cfg /\
    queued_requests (sched s) = Z.of_nat (length (waiters (sched s))) /\
    (forall l, queued_of l (sched s) = countb (in_lane l) (waiters (sched s))) /\
    active_requests (sched s) = active_decode_requests (sched s) + active_prefill_requests (sched s) /\
    (forall l, 0 <= active_of l (sched s)).
  Proof using Type.
    intros [[Hc Hs _] _]%configured_inv. split_and!; try apply Hc; simpl; try lia.
    intros l. destruct (Hs l) as (H & -> & _). lia.
  Qed.

(** C1. Slots are neither lost nor duplicated: in every reachable state the
      number of active requests of a lane is the number of requests of that
      lane that hold a slot (an unreleased admission, or a grant that arrived
      while the request was still suspended), through every race between a
      grant and a timeout, a cancellation or a task cancellation. *)
Theorem scheduler_slots_conserved s l :
    reachable cfg s ->
    exists holders : gset nat,
      active_of l (sched s) = Z.of_nat (size holders) /\
      forall rid, rid ∈ holders <-> holds (phases s) (sched s) rid l.
  Proof using Type. intros [[_ Hs _] _]%configured_inv. apply Hs. Qed.

(** C3. The scheduler is work conserving: a queued request is one that could
      not be granted a slot now.  Hence the decode-priority test on arrival
      never turns away a request for which a slot is free. *)
Theorem scheduler_work_conserving s :
    reachable cfg s ->
    none_grantable cfg (sched s) /\
    forall l iso, can_grant_locked cfg l iso (sched s) = true ->
      higher_priority_waiter_exists_locked cfg l (sched s) = false.
  Proof using Type.
    intros [_ Hn]%configured_inv. split; [done|]. intros l iso. by apply free_slot_no_priority_waiter.
  Qed.

(** When every request has finished (raised, or released its admission)
      the scheduler is back to rest: no active request, an empty queue. *)
Theorem scheduler_returns_to_rest s :
    reachable cfg s ->
    (forall rid p, phases s !! rid = Some p -> idle_phase p) ->
    active_requests (sched s) = 0 /\ waiters (sched s) = [].
  Proof using Type.
    intros [[Hc Hs Hwo] _]%configured_inv Hidle.
    assert (forall l, active_of l (sched s) = 0) as Hz.
    { intros l. destruct (Hs l) as (H & -> & Hiff).
      destruct (decide (H = ∅)) as [->|Hne]; [done|].
      apply set_choose_L in Hne as [rid Hin]. apply Hiff in Hin. exfalso.
      unfold holds in Hin. destruct (phases s !! rid) as [p|] eqn:Hp; [|done].
      specialize (Hidle _ _ Hp). destruct p; simpl in Hidle; try done.
      destruct Hin. congruence. }
    split.
    - rewrite (co_active _ _ Hc). pose proof (Hz Decode). pose proof (Hz Prefill). simpl in *. lia.
    - destruct (waiters (sched s)) as [|w ws] eqn:Hw; [done|]. exfalso.
      destruct (wo_queued _ _ Hwo w) as [Hp|Hp]; [rewrite Hw; by left| |];
        by apply Hidle in Hp.
  Qed.
End theorems.

(** The dispatcher's choice: without decode priority the oldest grantable
    waiter; with it the oldest grantable decode waiter when there is one (and
    the flag reports that it overtook an older grantable waiter), otherwise the
    oldest grantable waiter.  It is [None] exactly when nobody is grantable. *)
Theorem next_waiter_choice cfg st :
  let ok w := can_grant_locked cfg (w_lane w) (w_isolated w) st = true in
  let first p i := exists w, waiters st !! i = Some w /\ ok w /\ p w /\
    forall j w', (j < i)%nat -> waiters st !! j = Some w' -> ok w' -> ~ p w' in
  match next_waiter_index_locked cfg st with
  | (None, applied) => applied = false /\ forall w, w ∈ waiters st -> ~ ok w
  | (Some i, true) =>
      decode_priority_enabled cfg = true /\ first (fun w => w_lane w = Decode) i /\
      ~ first (fun _ => True) i
  | (Some i, false) =>
      first (fun _ => True) i /\
      (decode_priority_enabled cfg = true ->
       w_lane <$> waiters st !! i = Some Decode \/
       forall w, w ∈ waiters st -> ok w -> w_lane w <> Decode)
  end.
Proof.
  intros ok first. destruct (next_waiter_index_locked cfg st) as [i applied] eqn:Hn.
  destruct i as [i|].
  2: { assert (H := next_waiter_None _ _ _ Hn). split.
       - unfold next_waiter_index_locked in Hn. destruct (scan_waiters _ _ _ _ _) as [[?|] [?|]];
           repeat case_if; naive_solver.
       - intros w Hw Hok. unfold ok in Hok. by rewrite H in Hok. }
  unfold next_waiter_index_locked in Hn. destruct (scan_waiters _ _ _ _ _) as [e d] eqn:Hs.
  apply scan_waiters_spec in Hs as (_ & _ & He & Hd & Hnd).
  destruct e as [e|]; [|done].
  destruct (He e) as (k & w & Hk & Hw & Hc & Hb); [done..|]. simpl in Hk; subst k.
  assert (first (fun _ => True) e) as Hfirst.
  { exists w. split_and!; [done..|]. intros j w' Hj Hw' Hok'. unfold ok in Hok'.
    by rewrite (Hb j w') in Hok'. }
  destruct d as [d|].
  - destruct (Hd d) as (k' & w' & Hk' & Hw' & Hc' & Hl' & Hb'); [done|]. simpl in Hk'; subst k'.
    destruct (decode_priority_enabled cfg && negb (Nat.eqb d e))%bool eqn:Hcond; simplify_eq.
    + bool_prop. match goal with H : Nat.eqb _ _ = false |- _ => apply Nat.eqb_neq in H end.
      split_and!; [done| |].
      * exists w'. split_and!; [done..|]. intros j w'' Hj Hw'' Hok'' Hl''. unfold ok in Hok''.
        by rewrite (Hb' j w'') in Hok''.
      * intros (v & Hv & Hov & _ & Hbv).
        destruct (Nat.lt_total e i) as [Hlt|[->|Hlt]]; [|done|].
        -- by apply (Hbv e w Hlt Hw Hc).
        -- unfold ok in Hov. by rewrite (Hb i v Hlt Hv) in Hov.
    + split; [done|]. intros Hdp. left.
      rewrite Hdp in Hcond. simpl in Hcond. bool_prop.
      match goal with H : Nat.eqb _ _ = true |- _ => apply Nat.eqb_eq in H; subst end.
      rewrite Hw'. simpl. by rewrite Hl'.
  - simplify_eq. split; [done|]. intros _. right. intros v [j Hj]%list_elem_of_lookup Hok Hl.
    unfold ok in Hok. by rewrite (Hnd eq_refl j v) in Hok.
Qed.

(** ** Executable runs: the steps as functions, for concrete traces *)

Definition do_begin (cfg : scheduler_config) (rid : nat) (token : option bool) (now : f64)
    (heavy prio iso : bool) (s : system) : system :=
  let '(st, o) := acquire_begin cfg token rid now heavy prio iso (sched s) in
  {| sched := st; phases := <[rid := phase_of_begin o]> (phases s) |}.

Definition do_release (cfg : scheduler_config) (rid : nat) (s : system) : system :=
  match phases s !! rid with
  | Some (PHolding a) =>
      let '(st, a') := admission_release cfg a (sched s) in
      {| sched := st; phases := <[rid := PHolding a']> (phases s) |}
  | _ => s
  end.

Definition do_interrupt (rid : nat) (s : system) : system :=
  match phases s !! rid with
  | Some (PWaiting w) => {| sched := sched s; phases := <[rid := PAbandoned w]> (phases s) |}
  | _ => s
  end.

Lemma do_begin_reachable cfg rid token now heavy prio iso s :
  reachable cfg s -> phases s !! rid = None ->
  reachable cfg (do_begin cfg rid token now heavy prio iso s).
Proof.
  intros Hs Hr. eapply rtc_r; [exact Hs|]. unfold do_begin.
  destruct (acquire_begin cfg token rid now heavy prio iso (sched s)) as [st o] eqn:He.
  by eapply step_begin.
Qed.

Lemma do_release_reachable cfg rid s : reachable cfg s -> reachable cfg (do_release cfg rid s).
Proof.
  intros Hs. unfold do_release. destruct (phases s !! rid) as [[]|] eqn:Hp; try done.
  destruct (admission_release cfg a (sched s)) as [st a'] eqn:He.
  eapply rtc_r; [exact Hs|]. by eapply step_release.
Qed.

Lemma do_interrupt_reachable cfg rid s : reachable cfg s -> reachable cfg (do_interrupt rid s).
Proof.
  intros Hs. unfold do_interrupt. destruct (phases s !! rid) as [[]|] eqn:Hp; try done.
  eapply rtc_r; [exact Hs|]. by eapply step_interrupt_cleanup.
Qed.

#[export] Hint Resolve do_begin_reachable do_release_reachable do_interrupt_reachable rtc_refl
  : scheduler.

Definition demo_config : scheduler_config := init_config 1 4 30 true 0 false 1 1.

(** One prefill request runs, a prefill and a decode request queue behind it. *)
Definition demo_queued : system :=
  do_begin demo_config 2 None fzero false true false
    (do_begin demo_config 1 None fzero true false false
      (do_begin demo_config 0 None fzero true false false init_system)).

(** The running request releases: the decode request overtakes. *)
Definition demo_released : system := do_release demo_config 0 demo_queued.

Lemma demo_queued_reachable : reachable demo_config demo_queued.
Proof. repeat apply do_begin_reachable; (apply rtc_refl || (vm_compute; reflexivity)). Qed.

Lemma demo_released_reachable : reachable demo_config demo_released.
Proof. apply do_release_reachable, demo_queued_reachable. Qed.

Example demo_decode_overtakes :
  phases demo_released !! 2%nat = phases demo_queued !! 2%nat /\
  futures (sched demo_released) !! 2%nat = Some (FResult true) /\
  map w_future (waiters (sched demo_released)) = [1%nat] /\
  prioritized_decode_grants (sched demo_released) = 1.
Proof. vm_compute. auto. Qed.

(** A waiter is granted the only slot, and its [finally] block is interrupted
    before it can resume. *)
Definition demo_leak : system :=
  do_interrupt 1
    (do_release demo_config 0
      (do_begin demo_config 1 (Some false) fzero false false false
        (do_begin demo_config 0 None fzero false false false init_system))).

Lemma demo_leak_reachable : reachable demo_config demo_leak.
Proof.
  apply do_interrupt_reachable, do_release_reachable.
  repeat apply do_begin_reachable; (apply rtc_refl || (vm_compute; reflexivity)).
Qed.

(** The cleanup of a queued [acquire] is not itself protected: a
    [CancelledError] delivered while the [finally] block awaits the cancelled
    cancellation waiter leaves [acquire] without withdrawing.  With one slot,
    there is a reachable state in which every request has finished and from
    which no request is ever admitted again. *)
Theorem interrupted_cleanup_leaks_the_slot :
  exists s, reachable demo_config s /\
    (forall rid p, phases s !! rid = Some p -> idle_phase p \/ exists w, p = PAbandoned w) /\
    forall s', rtc (step demo_config) s s' ->
      forall l iso, can_grant_locked demo_config l iso (sched s') = false.
Proof.
  exists demo_leak. split; [exact demo_leak_reachable|]. split.
  - assert (phases demo_leak = <[1%nat := PAbandoned {| w_future := 1; w_enqueued_at := fzero;
        w_lane := Decode; w_isolated := false |}]> (<[0%nat := PHolding {| was_queued := false;
        wait_seconds := fzero; adm_lane := Decode; adm_decode_priority_applied := false;
        adm_prefill_isolated := false; adm_released := true |}]> ∅)) as ->
      by (vm_compute; reflexivity).
    intros rid p. rewrite !lookup_insert_Some, lookup_empty. naive_solver.
  - intros s' Hrun l iso.
    assert (inv demo_config s') as [[Hc Hs _] _].
    { apply reachable_inv; [done|]. unfold reachable. etrans; [apply demo_leak_reachable|done]. }
    eapply (abandoned_granted_forever _ _ _ 1 {| w_future := 1; w_enqueued_at := fzero;
        w_lane := Decode; w_isolated := false |}) in Hrun as [Hp Hf].
    2: { split; [vm_compute; reflexivity|]. exists false. vm_compute. reflexivity. }
    destruct (Hs Decode) as (H & HH & Hiff).
    assert (1%nat ∈ H) as Hin by (apply Hiff; unfold holds; by rewrite Hp).
    apply size_elem_pos in Hin.
    destruct (Hs Prefill) as (H' & HH' & _). pose proof (co_active _ _ Hc). simpl in *.
    destruct (can_grant_locked _ _ _ _) eqn:Hg; [|done].
    apply can_grant_capacity in Hg. simpl in Hg. lia.
Qed.

(** Witnesses at the runs above. *)

Lemma scheduler_bounds_and_counters_witness :
  reachable demo_config demo_queued /\ active_requests (sched demo_queued) <= 1 /\
  queued_requests (sched demo_queued) = 2.
Proof.
  split; [exact demo_queued_reachable|]. split.
  - apply (proj1 (scheduler_bounds_and_counters 1 4 30 true 0 false 1 1 demo_queued
                    demo_queued_reachable)). reflexivity.
  - vm_compute. reflexivity.
Defined.

Lemma scheduler_slots_conserved_witness :
  exists holders : gset nat,
    active_of Decode (sched demo_released) = Z.of_nat (size holders) /\
    forall rid, rid ∈ holders <-> holds (phases demo_released) (sched demo_released) rid Decode.
Proof.
  exact (scheduler_slots_conserved 1 4 30 true 0 false 1 1 demo_released Decode
           demo_released_reachable).
Defined.

Lemma scheduler_work_conserving_witness :
  length (waiters (sched demo_queued)) = 2%nat /\ none_grantable demo_config (sched demo_queued).
Proof.
  split; [vm_compute; reflexivity|].
  exact (proj1 (scheduler_work_conserving 1 4 30 true 0 false 1 1 demo_queued demo_queued_reachable)).
Defined.

Definition demo_finished : system :=
  do_release demo_config 0 (do_begin demo_config 0 None fzero true false false init_system).

Lemma demo_finished_reachable : reachable demo_config demo_finished.
Proof. apply do_release_reachable, do_begin_reachable; [apply rtc_refl|vm_compute; reflexivity]. Qed.

Lemma demo_finished_idle rid p : phases demo_finished !! rid = Some p -> idle_phase p.
Proof.
  assert (phases demo_finished = <[0%nat := PHolding {| was_queued := false; wait_seconds := fzero;
    adm_lane := Prefill; adm_decode_priority_applied := false; adm_prefill_isolated := false;
    adm_released := true |}]> ∅) as -> by (vm_compute; reflexivity).
  rewrite lookup_insert_Some, lookup_empty. naive_solver.
Qed.

Lemma scheduler_returns_to_rest_witness :
  active_requests (sched demo_finished) = 0 /\ waiters (sched demo_finished) = [].
Proof.
  exact (scheduler_returns_to_rest 1 4 30 true 0 false 1 1 demo_finished demo_finished_reachable
           demo_finished_idle).
Defined.
