(* ===== verification/Sha256.v ===== *)
(** [hashlib.sha256(...).hexdigest()], as the runtime's content-addressed keys
    use it: an executable transcription of FIPS 180-4 on lists of byte values.
    It models the Standard Library of Python, not repository code; no theorem
    unfolds it, and the examples at the end pin it to published digests. *)

From S2P Require Import Prelude.

Open Scope Z_scope.

Definition word_mask : Z := 4294967295.

Definition add32 (a b : Z) : Z := Z.land (a + b) word_mask.
Definition rotr32 (n x : Z) : Z := Z.lor (Z.shiftr x n) (Z.land (Z.shiftl x (32 - n)) word_mask).

Definition ch (x y z : Z) : Z := Z.lxor (Z.land x y) (Z.land (Z.lxor x word_mask) z).
Definition maj (x y z : Z) : Z := Z.lxor (Z.lxor (Z.land x y) (Z.land x z)) (Z.land y z).
Definition big_sigma0 (x : Z) : Z := Z.lxor (Z.lxor (rotr32 2 x) (rotr32 13 x)) (rotr32 22 x).
Definition big_sigma1 (x : Z) : Z := Z.lxor (Z.lxor (rotr32 6 x) (rotr32 11 x)) (rotr32 25 x).
Definition small_sigma0 (x : Z) : Z := Z.lxor (Z.lxor (rotr32 7 x) (rotr32 18 x)) (Z.shiftr x 3).
Definition small_sigma1 (x : Z) : Z := Z.lxor (Z.lxor (rotr32 17 x) (rotr32 19 x)) (Z.shiftr x 10).

Definition round_constants : list Z :=
  [ 1116352408; 1899447441; 3049323471; 3921009573; 961987163; 1508970993; 2453635748; 2870763221;
    3624381080; 310598401; 607225278; 1426881987; 1925078388; 2162078206; 2614888103; 3248222580;
    3835390401; 4022224774; 264347078; 604807628; 770255983; 1249150122; 1555081692; 1996064986;
    2554220882; 2821834349; 2952996808; 3210313671; 3336571891; 3584528711; 113926993; 338241895;
    666307205; 773529912; 1294757372; 1396182291; 1695183700; 1986661051; 2177026350; 2456956037;
    2730485921; 2820302411; 3259730800; 3345764771; 3516065817; 3600352804; 4094571909; 275423344;
    430227734; 506948616; 659060556; 883997877; 958139571; 1322822218; 1537002063; 1747873779;
    1955562222; 2024104815; 2227730452; 2361852424; 2428436474; 2756734187; 3204031479; 3329325298 ].

Definition initial_hash : list Z :=
  [ 1779033703; 3144134277; 1013904242; 2773480762; 1359893119; 2600822924; 528734635; 1541459225 ].

(** The message schedule, kept newest first: [w(t)] from [w(t-2)], [w(t-7)],
    [w(t-15)] and [w(t-16)]. *)
Fixpoint extend_schedule (fuel : nat) (rev_w : list Z) : list Z :=
  match fuel with
  | O => rev_w
  | S fuel =>
      let nth i := List.nth i rev_w 0 in
      let w := add32 (add32 (small_sigma1 (nth 1%nat)) (nth 6%nat))
                     (add32 (small_sigma0 (nth 14%nat)) (nth 15%nat)) in
      extend_schedule fuel (w :: rev_w)
  end.

Definition compress_round (s : list Z) (kw : Z * Z) : list Z :=
  match s with
  | [a; b; c; d; e; f; g; h] =>
      let t1 := add32 (add32 (add32 h (big_sigma1 e)) (add32 (ch e f g) (fst kw))) (snd kw) in
      let t2 := add32 (big_sigma0 a) (maj a b c) in
      [add32 t1 t2; a; b; c; add32 d t1; e; f; g]
  | _ => s
  end.

Definition compress (h : list Z) (block : list Z) : list Z :=
  let w := List.rev (extend_schedule 48 (List.rev block)) in
  let s := fold_left compress_round (combine round_constants w) h in
  map (fun p => add32 (fst p) (snd p)) (combine h s).

(** Big-endian words of a byte list, and blocks of sixteen words. *)
Fixpoint be_words (bs : list Z) : list Z :=
  match bs with
  | a :: b :: c :: d :: bs' => (((a * 256 + b) * 256 + c) * 256 + d) :: be_words bs'
  | _ => []
  end.

Fixpoint be_bytes (n : nat) (z : Z) : list Z :=
  match n with
  | O => []
  | S n => be_bytes n (Z.shiftr z 8) ++ [Z.land z 255]
  end.

Definition pad (bs : list Z) : list Z :=
  let len := length bs in
  let zeros := ((119 - len mod 64) mod 64)%nat in
  bs ++ 128 :: repeat 0 zeros ++ be_bytes 8 (8 * Z.of_nat len).

Fixpoint hash_blocks (fuel : nat) (h : list Z) (ws : list Z) : list Z :=
  match fuel with
  | O => h
  | S fuel =>
      match ws with
      | [] => h
      | _ => hash_blocks fuel (compress h (take 16 ws)) (drop 16 ws)
      end
  end.

Definition sha256_words (bs : list Z) : list Z :=
  let ws := be_words (pad bs) in hash_blocks (length ws) initial_hash ws.

Definition hex_digit (d : Z) : Ascii.ascii :=
  Ascii.ascii_of_nat (Z.to_nat (if d <? 10 then 48 + d else 87 + d)).

Definition hex_byte (b : Z) : string :=
  String (hex_digit (b / 16)) (String (hex_digit (b mod 16)) EmptyString).

Definition hexdigest (bs : list Z) : string :=
  String.concat "" (map hex_byte (List.concat (map (be_bytes 4) (sha256_words bs)))).

(** [hmac.new(key, msg, hashlib.sha256).hexdigest()] (RFC 2104) for a key of at
    most one block. *)
Definition digest_bytes (bs : list Z) : list Z := List.concat (map (be_bytes 4) (sha256_words bs)).

Definition hmac_hexdigest (key msg : list Z) : string :=
  let padded := key ++ repeat 0 (64 - length key) in
  let inner := digest_bytes (map (Z.lxor 54) padded ++ msg) in
  hexdigest (map (Z.lxor 92) padded ++ inner).

(** The bytes of an ASCII string: [s.encode("utf-8")]. *)
Definition encode_ascii (s : string) : list Z :=
  map (fun c => Z.of_nat (Ascii.nat_of_ascii c)) (String.list_ascii_of_string s).

(** [int.to_bytes(8, "little", signed=True)]; [None] is its [OverflowError]. *)
Fixpoint le_bytes (n : nat) (z : Z) : list Z :=
  match n with
  | O => []
  | S n => Z.land z 255 :: le_bytes n (Z.shiftr z 8)
  end.

Definition to_bytes8_signed (z : Z) : option (list Z) :=
  if ((- 2 ^ 63 <=? z) && (z <? 2 ^ 63))%bool then Some (le_bytes 8 z) else None.

Example sha256_empty :
  hexdigest [] = "e3b0c44298fc1c149afbf4c8996fb92427ae41e4649b934ca495991b7852b855"%string.
Proof. vm_compute. reflexivity. Qed.

Example sha256_abc :
  hexdigest (encode_ascii "abc")
  = "ba7816bf8f01cfea414140de5dae2223b00361a396177a9cb410ff61f20015ad"%string.
Proof. vm_compute. reflexivity. Qed.

Example sha256_two_blocks :
  hexdigest (encode_ascii "abcdbcdecdefdefgefghfghighijhijkijkljklmklmnlmnomnopnopq")
  = "248d6a61d20638b8e5c026930c3e6039a33ce45964ff2167f6ecedd419db06c1"%string.
Proof. vm_compute. reflexivity. Qed.

Example minus_one_bytes : to_bytes8_signed (-1) = Some (repeat 255 8).
Proof. reflexivity. Qed.

(** RFC 4231, test case 2. *)
Example hmac_rfc4231 :
  hmac_hexdigest (encode_ascii "Jefe") (encode_ascii "what do ya want for nothing?")
  = "5bdcc146bf60754e6a042426089575c75a003f089d2739839dec58b964ec3843"%string.
Proof. vm_compute. reflexivity. Qed.
