(* ===== verification/PagedKV.v ===== *)
(** Paged-KV residency accounting: [PagedKVResidencyManager] of
    src/src/lewlm/runtime/paged_kv.py.

    Resident pages are content addressed, shared by the reservations whose
    prompts contain them and reference counted; unreferenced pages are evicted
    under pressure, prefill pages first.  [resident_pages] and
    [active_reservations] are the two dictionaries in insertion order, a page
    object is the value under its key, and [time.perf_counter] is an argument. *)

From stdpp Require Import pretty sorting.
From S2P Require Import Prelude PyFloat Sha256 Scheduler.

Open Scope Z_scope.

Record kv_config := {
  page_size_tokens : Z;
  max_pages : option Z
}.

(** [__init__]. *)
Definition init_kv_config (page_size : Z) (pages : option Z) : kv_config :=
  {| page_size_tokens := Z.max (if page_size =? 0 then 1 else page_size) 1;
     max_pages := match pages with Some p => Some (Z.max p 1) | None => None end |}.

(** [_ResidentKVPage]. *)
Record page := {
  pg_model : string;
  pg_key : string;
  pg_lane : lane;
  pg_ref_count : Z;
  pg_reuse_count : Z;
  pg_last_touched_at : f64
}.

#[export] Instance page_eta : Eta page := fun r =>
  Build_page (pg_model r) (pg_key r) (pg_lane r) (pg_ref_count r) (pg_reuse_count r)
    (pg_last_touched_at r).

(** [_ActiveReservation]. *)
Record active_reservation := {
  ar_model : string;
  ar_lane : lane;
  ar_prompt_page_keys : list string;
  ar_decode_pages : Z
}.

Record kv_state := {
  resident_pages : list (string * page);
  active_reservations : list (string * active_reservation);
  active_transient_decode_pages : Z;
  active_transient_prefill_pages : Z;
  reservation_counter : N;
  total_reservations : Z;
  decode_lane_reservations : Z;
  prefill_lane_reservations : Z;
  total_reused_pages : Z;
  total_new_pages : Z;
  total_evicted_pages : Z;
  prefill_evicted_pages : Z;
  decode_evicted_pages : Z;
  decode_headroom_preservation_events : Z;
  prefill_decode_tradeoff_events : Z;
  overflow_events : Z;
  overflow_pages : Z;
  high_pressure_events : Z;
  peak_resident_pages : Z;
  peak_total_pages : Z;
  peak_pressure_ratio : f64
}.

#[export] Instance kv_state_eta : Eta kv_state := fun r =>
  Build_kv_state (resident_pages r) (active_reservations r) (active_transient_decode_pages r)
    (active_transient_prefill_pages r) (reservation_counter r) (total_reservations r)
    (decode_lane_reservations r) (prefill_lane_reservations r) (total_reused_pages r)
    (total_new_pages r) (total_evicted_pages r) (prefill_evicted_pages r)
    (decode_evicted_pages r) (decode_headroom_preservation_events r)
    (prefill_decode_tradeoff_events r) (overflow_events r) (overflow_pages r)
    (high_pressure_events r) (peak_resident_pages r) (peak_total_pages r) (peak_pressure_ratio r).

Definition init_kv : kv_state :=
  Build_kv_state [] [] 0 0 0 0 0 0 0 0 0 0 0 0 0 0 0 0 0 0 fzero.

Inductive pressure_level := PLow | PMedium | PHigh | POverflow | PUnbounded.

#[global] Instance pressure_level_eq_dec : EqDecision pressure_level.
Proof. solve_decision. Defined.

(** [PagedKVReservation]. *)
Record reservation := {
  reservation_id : string;
  rs_model : string;
  rs_lane : lane;
  rs_prompt_pages : Z;
  rs_decode_pages : Z;
  rs_requested_pages : Z;
  rs_reused_pages : Z;
  rs_new_pages : Z;
  rs_evicted_pages : Z;
  rs_overflow_pages : Z;
  rs_resident_pages_after : Z;
  rs_active_pages_after : Z;
  rs_resident_decode_pages_after : Z;
  rs_resident_prefill_pages_after : Z;
  rs_active_decode_pages_after : Z;
  rs_active_prefill_pages_after : Z;
  rs_pressure_ratio : f64;
  rs_pressure_level : pressure_level
}.

(** ** Counting *)

Definition total_pages_locked (st : kv_state) : Z :=
  Z.of_nat (length (resident_pages st)) + active_transient_decode_pages st
  + active_transient_prefill_pages st.

Definition page_active (p : page) : bool := 0 <? pg_ref_count p.

Definition active_page_count_locked (st : kv_state) : Z :=
  countb (fun kp => page_active (snd kp)) (resident_pages st)
  + active_transient_decode_pages st + active_transient_prefill_pages st.

Definition transient_pages (l : lane) (st : kv_state) : Z :=
  match l with
  | Decode => active_transient_decode_pages st
  | Prefill => active_transient_prefill_pages st
  end.

Definition active_page_count_for_lane_locked (l : lane) (st : kv_state) : Z :=
  countb (fun kp => page_active (snd kp) && bool_decide (pg_lane (snd kp) = l))%bool
    (resident_pages st)
  + transient_pages l st.

Definition resident_page_count_for_lane_locked (l : lane) (st : kv_state) : Z :=
  countb (fun kp => bool_decide (pg_lane (snd kp) = l)) (resident_pages st).

Definition pressure_ratio_locked (cfg : kv_config) (total_pages : Z) : f64 :=
  match max_pages cfg with
  | None => fzero
  | Some m => if m <=? 0 then fzero else f_round4 (int_truediv total_pages m)
  end.

Definition pressure_level_of (pressure_ratio : f64) (max_pages : option Z) (overflow : Z)
    : pressure_level :=
  match max_pages with
  | None => PUnbounded
  | Some _ =>
      if ((0 <? overflow) || fltb (f_of_Z 1) pressure_ratio)%bool then POverflow
      else if fleb (int_truediv 85 100) pressure_ratio then PHigh
      else if fleb (int_truediv 6 10) pressure_ratio then PMedium
      else PLow
  end.

(** ** Content-addressed page keys *)

(** [int(token).to_bytes(8, "little", signed=True)] for each token of a page. *)
Fixpoint token_bytes (tokens : list Z) : option (list Z) :=
  match tokens with
  | [] => Some []
  | t :: ts =>
      match to_bytes8_signed t, token_bytes ts with
      | Some b, Some bs => Some (b ++ bs)
      | _, _ => None
      end
  end.

Definition page_key (model_id : string) (tokens : list Z) : option string :=
  match token_bytes tokens with
  | Some bs => Some (hexdigest (encode_ascii model_id ++ bs))
  | None => None
  end.

(** One key per [page_size_tokens] tokens; the token count bounds the pages. *)
Fixpoint page_keys_loop (fuel : nat) (size : nat) (model_id : string) (tokens : list Z)
    : option (list string) :=
  match fuel with
  | O => Some []
  | S fuel =>
      match tokens with
      | [] => Some []
      | _ =>
          match page_key model_id (take size tokens),
                page_keys_loop fuel size model_id (drop size tokens) with
          | Some k, Some ks => Some (k :: ks)
          | _, _ => None
          end
      end
  end.

(** [None] is the [OverflowError] of a token that does not fit eight bytes. *)
Definition page_keys_for (cfg : kv_config) (model_id : string) (prompt_tokens : list Z)
    : option (list string) :=
  page_keys_loop (length prompt_tokens) (Z.to_nat (page_size_tokens cfg)) model_id prompt_tokens.

(** ** Eviction *)

Definition lane_rank (l : lane) : Z := match l with Prefill => 0 | Decode => 1 end.

(** Python's [<] on the sort key [(lane, last_touched_at, page_key)]. *)
Definition candidate_lt (p q : page) : bool :=
  if lane_rank (pg_lane p) =? lane_rank (pg_lane q) then
    if feqb (pg_last_touched_at p) (pg_last_touched_at q)
    then String.ltb (pg_key p) (pg_key q)
    else fltb (pg_last_touched_at p) (pg_last_touched_at q)
  else lane_rank (pg_lane p) <? lane_rank (pg_lane q).

(** [sorted]: stable, so an equal element goes after the ones already placed. *)
Fixpoint insert_candidate (p : page) (ps : list page) : list page :=
  match ps with
  | [] => [p]
  | q :: ps' => if candidate_lt p q then p :: q :: ps' else q :: insert_candidate p ps'
  end.

Definition sort_candidates (ps : list page) : list page :=
  fold_left (fun acc p => insert_candidate p acc) ps [].

Definition eviction_candidates (st : kv_state) : list page :=
  sort_candidates (List.filter (fun p => pg_ref_count p <=? 0) (map snd (resident_pages st))).

(** The eviction loop: the pages removed so far, as (decode, prefill). *)
Fixpoint evict_loop (limit needed : Z) (candidates : list page) (st : kv_state)
    (decode_evicted prefill_evicted : Z) : kv_state * Z * Z :=
  match candidates with
  | [] => (st, decode_evicted, prefill_evicted)
  | p :: ps =>
      if total_pages_locked st + Z.max needed 0 <=? limit
      then (st, decode_evicted, prefill_evicted)
      else
        match dget (pg_key p) (resident_pages st) with
        | None => evict_loop limit needed ps st decode_evicted prefill_evicted
        | Some removed =>
            let st := st <| resident_pages := ddel (pg_key p) (resident_pages st) |> in
            match pg_lane removed with
            | Decode => evict_loop limit needed ps st (decode_evicted + 1) prefill_evicted
            | Prefill => evict_loop limit needed ps st decode_evicted (prefill_evicted + 1)
            end
        end
  end.

Definition evict_to_fit_locked (cfg : kv_config) (needed : Z) (preferred_lane : lane) (st : kv_state)
    : kv_state * Z :=
  match max_pages cfg with
  | None => (st, 0)
  | Some limit =>
      if total_pages_locked st + Z.max needed 0 <=? limit then (st, 0)
      else
        let '(st, decode_evicted, prefill_evicted) :=
          evict_loop limit needed (eviction_candidates st) st 0 0 in
        let evicted := decode_evicted + prefill_evicted in
        if evicted =? 0 then (st, 0)
        else
          let st := st <| total_evicted_pages ::= fun n => n + evicted |> in
          let st := st <| decode_evicted_pages ::= fun n => n + decode_evicted |> in
          let st := st <| prefill_evicted_pages ::= fun n => n + prefill_evicted |> in
          let st := match preferred_lane with
                    | Decode => if 0 <? prefill_evicted
                                then st <| decode_headroom_preservation_events ::= fun n => n + 1 |>
                                else st
                    | Prefill => if 0 <? decode_evicted
                                 then st <| prefill_decode_tradeoff_events ::= fun n => n + 1 |>
                                 else st
                    end in
          (st, evicted)
  end.

(** ** [reserve] *)

Definition reuse_page (l : lane) (timestamp : f64) (p : page) : page :=
  p <| pg_ref_count ::= fun n => n + 1 |> <| pg_reuse_count ::= fun n => n + 1 |>
    <| pg_lane := l |> <| pg_last_touched_at := timestamp |>.

(** The first loop: resident pages are referenced again, the others are
    collected as new. *)
Fixpoint touch_pages (l : lane) (timestamp : f64) (keys : list string)
    (pages : list (string * page)) : list (string * page) * list string * Z :=
  match keys with
  | [] => (pages, [], 0)
  | k :: ks =>
      match dget k pages with
      | None =>
          let '(pages, new_keys, reused) := touch_pages l timestamp ks pages in
          (pages, k :: new_keys, reused)
      | Some p =>
          let '(pages, new_keys, reused) :=
            touch_pages l timestamp ks (dset k (reuse_page l timestamp p) pages) in
          (pages, new_keys, reused + 1)
      end
  end.

Definition new_page (model_id : string) (l : lane) (timestamp : f64) (k : string) : page :=
  {| pg_model := model_id; pg_key := k; pg_lane := l; pg_ref_count := 1; pg_reuse_count := 0;
     pg_last_touched_at := timestamp |}.

Definition add_pages (model_id : string) (l : lane) (timestamp : f64) (keys : list string)
    (pages : list (string * page)) : list (string * page) :=
  fold_left (fun pages k => dset k (new_page model_id l timestamp k) pages) keys pages.

Definition decode_pages_for (cfg : kv_config) (max_tokens : Z) : Z :=
  Z.max ((Z.max max_tokens 0 + page_size_tokens cfg - 1) / page_size_tokens cfg) 1.

Definition add_transient (l : lane) (decode_pages : Z) (st : kv_state) : kv_state :=
  match l with
  | Decode => st <| active_transient_decode_pages ::= fun n => n + decode_pages |>
                 <| decode_lane_reservations ::= fun n => n + 1 |>
  | Prefill => st <| active_transient_prefill_pages ::= fun n => n + decode_pages |>
                  <| prefill_lane_reservations ::= fun n => n + 1 |>
  end.

Definition reservation_name (n : N) : string := ("kv-" +:+ pretty n)%string.

(** The statistics recorded once the pages are in place. *)
Definition record_pressure (overflow : Z) (level : pressure_level) (total : Z) (ratio : f64)
    (st : kv_state) : kv_state :=
  let st := if 0 <? overflow
            then st <| overflow_events ::= fun n => n + 1 |> <| overflow_pages ::= fun n => n + overflow |>
            else st in
  let st := if bool_decide (level = PHigh \/ level = POverflow)
            then st <| high_pressure_events ::= fun n => n + 1 |> else st in
  st <| peak_resident_pages ::= fun n => Z.max n (Z.of_nat (length (resident_pages st))) |>
     <| peak_total_pages ::= fun n => Z.max n total |>
     <| peak_pressure_ratio ::= fun x => fmax x ratio |>.

(** The new pages, the transient decode pages and the reservation itself. *)
Definition admit_reservation (model_id : string) (l : lane) (timestamp : f64) (id : string)
    (keys new_keys : list string) (reused decode_pages : Z) (st : kv_state) : kv_state :=
  let st := st <| resident_pages ::= add_pages model_id l timestamp new_keys |> in
  let st := add_transient l decode_pages st in
  let st := st <| active_reservations ::=
                   dset id {| ar_model := model_id; ar_lane := l; ar_prompt_page_keys := keys;
                              ar_decode_pages := decode_pages |} |> in
  st <| total_reservations ::= fun n => n + 1 |>
     <| total_reused_pages ::= fun n => n + reused |>
     <| total_new_pages ::= fun n => n + Z.of_nat (length new_keys) |>.

Definition overflow_of (cfg : kv_config) (total_pages : Z) : Z :=
  match max_pages cfg with
  | Some m => if m <? total_pages then total_pages - m else 0
  | None => 0
  end.

Definition reserve (cfg : kv_config) (timestamp : f64) (model_id : string) (prompt_tokens : list Z)
    (max_tokens : Z) (l : lane) (st : kv_state) : option (kv_state * reservation) :=
  match page_keys_for cfg model_id prompt_tokens with
  | None => None
  | Some keys =>
      let decode_pages := decode_pages_for cfg max_tokens in
      let st := st <| reservation_counter ::= N.succ |> in
      let id := reservation_name (reservation_counter st) in
      let '(pages, new_keys, reused) := touch_pages l timestamp keys (resident_pages st) in
      let st := st <| resident_pages := pages |> in
      let needed := Z.of_nat (length new_keys) + decode_pages in
      let '(st, evicted) := evict_to_fit_locked cfg needed l st in
      let st := admit_reservation model_id l timestamp id keys new_keys reused decode_pages st in
      let total := total_pages_locked st in
      let overflow := overflow_of cfg total in
      let ratio := pressure_ratio_locked cfg total in
      let level := pressure_level_of ratio (max_pages cfg) overflow in
      let st := record_pressure overflow level total ratio st in
      Some (st,
        {| reservation_id := id; rs_model := model_id; rs_lane := l;
           rs_prompt_pages := Z.of_nat (length keys); rs_decode_pages := decode_pages;
           rs_requested_pages := Z.of_nat (length keys) + decode_pages; rs_reused_pages := reused;
           rs_new_pages := Z.of_nat (length new_keys); rs_evicted_pages := evicted;
           rs_overflow_pages := overflow;
           rs_resident_pages_after := Z.of_nat (length (resident_pages st));
           rs_active_pages_after := active_page_count_locked st;
           rs_resident_decode_pages_after := resident_page_count_for_lane_locked Decode st;
           rs_resident_prefill_pages_after := resident_page_count_for_lane_locked Prefill st;
           rs_active_decode_pages_after := active_page_count_for_lane_locked Decode st;
           rs_active_prefill_pages_after := active_page_count_for_lane_locked Prefill st;
           rs_pressure_ratio := ratio; rs_pressure_level := level |})
  end.

(** ** [release] and [unregister_model] *)

Definition drop_transient (r : active_reservation) (st : kv_state) : kv_state :=
  match ar_lane r with
  | Decode => st <| active_transient_decode_pages ::= fun n => Z.max 0 (n - ar_decode_pages r) |>
  | Prefill => st <| active_transient_prefill_pages ::= fun n => Z.max 0 (n - ar_decode_pages r) |>
  end.

Definition release_page (timestamp : f64) (p : page) : page :=
  p <| pg_ref_count ::= fun n => Z.max 0 (n - 1) |> <| pg_last_touched_at := timestamp |>.

Fixpoint release_pages (timestamp : f64) (keys : list string) (pages : list (string * page))
    : list (string * page) :=
  match keys with
  | [] => pages
  | k :: ks =>
      match dget k pages with
      | None => release_pages timestamp ks pages
      | Some p => release_pages timestamp ks (dset k (release_page timestamp p) pages)
      end
  end.

(** [release] reads only the reservation's identifier. *)
Definition release (cfg : kv_config) (timestamp : f64) (id : option string) (st : kv_state)
    : kv_state :=
  match id with
  | None => st
  | Some id =>
      match dget id (active_reservations st) with
      | None => st
      | Some r =>
          let st := st <| active_reservations ::= ddel id |> in
          let st := drop_transient r st in
          let st := st <| resident_pages ::= release_pages timestamp (ar_prompt_page_keys r) |> in
          fst (evict_to_fit_locked cfg 0 Decode st)
      end
  end.

(** The reservations of the model are dropped one by one, then its pages. *)
Definition drop_reservation (st : kv_state) (id : string) : kv_state :=
  match dget id (active_reservations st) with
  | None => st
  | Some r => drop_transient r (st <| active_reservations ::= ddel id |>)
  end.

Definition reservation_ids_of (model_id : string) (st : kv_state) : list string :=
  map fst (List.filter (fun ir => bool_decide (ar_model (snd ir) = model_id)) (active_reservations st)).

Definition page_keys_of (model_id : string) (pages : list (string * page)) : list string :=
  map fst (List.filter (fun kp => bool_decide (pg_model (snd kp) = model_id)) pages).

Definition unregister_model (model_id : string) (st : kv_state) : kv_state :=
  let st := fold_left drop_reservation (reservation_ids_of model_id st) st in
  st <| resident_pages ::= fun pages =>
          fold_left (fun pages k => ddel k pages) (page_keys_of model_id pages) pages |>.

(** ** [snapshot] *)

Definition snapshot (cfg : kv_config) (st : kv_state) : list (string * stat) * pressure_level :=
  let total := total_pages_locked st in
  let ratio := pressure_ratio_locked cfg total in
  ([ ("page_size_tokens", SInt (page_size_tokens cfg)) ]
   ++ match max_pages cfg with Some m => [ ("max_pages", SInt m) ] | None => [] end
   ++ [ ("resident_pages", SInt (Z.of_nat (length (resident_pages st))));
        ("active_pages", SInt (active_page_count_locked st));
        ("active_decode_pages", SInt (active_page_count_for_lane_locked Decode st));
        ("active_prefill_pages", SInt (active_page_count_for_lane_locked Prefill st));
        ("resident_decode_pages", SInt (resident_page_count_for_lane_locked Decode st));
        ("resident_prefill_pages", SInt (resident_page_count_for_lane_locked Prefill st));
        ("decode_lane_reservations", SInt (decode_lane_reservations st));
        ("prefill_lane_reservations", SInt (prefill_lane_reservations st));
        ("reused_pages", SInt (total_reused_pages st));
        ("new_pages", SInt (total_new_pages st));
        ("evicted_pages", SInt (total_evicted_pages st));
        ("prefill_evicted_pages", SInt (prefill_evicted_pages st));
        ("decode_evicted_pages", SInt (decode_evicted_pages st));
        ("decode_headroom_preservation_events", SInt (decode_headroom_preservation_events st));
        ("prefill_decode_tradeoff_events", SInt (prefill_decode_tradeoff_events st));
        ("overflow_events", SInt (overflow_events st));
        ("overflow_pages", SInt (overflow_pages st));
        ("high_pressure_events", SInt (high_pressure_events st));
        ("peak_resident_pages", SInt (peak_resident_pages st));
        ("peak_total_pages", SInt (peak_total_pages st));
        ("pressure_ratio", SFloat ratio);
        ("peak_pressure_ratio", SFloat (f_round4 (peak_pressure_ratio st))) ]%string,
   pressure_level_of ratio (max_pages cfg)
     (match max_pages cfg with Some m => Z.max (total - m) 0 | None => 0 end)).

(** ** Histories *)

(** A call on the manager. *)
Inductive kv_call :=
| KReserve (ts : f64) (m : string) (tokens : list Z) (max_tokens : Z) (l : lane)
| KRelease (ts : f64) (id : option string)
| KUnregister (m : string).

(** What it leaves: [reserve] raises before it has touched anything. *)
Definition run_call (cfg : kv_config) (st : kv_state) (c : kv_call) : kv_state :=
  match c with
  | KReserve ts m tokens mt l => match reserve cfg ts m tokens mt l st with Some (st', _) => st' | None => st end
  | KRelease ts id => release cfg ts id st
  | KUnregister m => unregister_model m st
  end.

Definition run_calls (cfg : kv_config) (cs : list kv_call) : kv_state := fold_left (run_call cfg) cs init_kv.

(** How often a prompt lists a page. *)
Definition listed (k : string) (keys : list string) : nat := count_occ (fun x y => decide (x = y)) keys k.

(** A prompt that contains page [k] lists it once, for the model [m]. *)
Definition sole_page (cfg : kv_config) (k m : string) (c : kv_call) : bool :=
  match c with
  | KReserve _ m' tokens _ _ =>
      match page_keys_for cfg m' tokens with
      | Some keys => match listed k keys with O => true | S n => (n =? 0)%nat && (m' =? m)%string end
      | None => true
      end
  | _ => true
  end.

(** How many active reservations hold a page, and the decode pages they hold
    in a lane. *)
Definition holds (k : string) (ir : string * active_reservation) : bool :=
  bool_decide (k ∈ ar_prompt_page_keys (snd ir)).

Definition holders (k : string) (ars : list (string * active_reservation)) : Z :=
  countb (holds k) ars.

Definition held_decode_pages (l : lane) (ars : list (string * active_reservation)) : Z :=
  foldr (fun ir n => (if bool_decide (ar_lane (snd ir) = l) then ar_decode_pages (snd ir) else 0) + n)
    0 ars.

(** The accounting invariant, of the pages [k] that belong to one model [m], where
    [owner k = Some m], and that every prompt lists at most once.  Reference counts are
    exact for the keys in [exact]: all of them between calls. *)
Record kv_inv_on (exact : string -> Prop) (owner : string -> option string) (st : kv_state) : Prop := {
  ki_pages_nodup : NoDup (dkeys (resident_pages st));
  ki_ars_nodup : NoDup (dkeys (active_reservations st));
  ki_key : forall k p, dget k (resident_pages st) = Some p -> pg_key p = k;
  ki_page : forall k m p, owner k = Some m -> dget k (resident_pages st) = Some p ->
    pg_model p = m /\ (exact k -> pg_ref_count p = holders k (active_reservations st));
  ki_ar : forall id r, dget id (active_reservations st) = Some r ->
    1 <= ar_decode_pages r /\ exists n, id = reservation_name n /\ (n <= reservation_counter st)%N;
  ki_ar_key : forall id r k m, owner k = Some m -> dget id (active_reservations st) = Some r ->
    k ∈ ar_prompt_page_keys r ->
    ar_model r = m /\ listed k (ar_prompt_page_keys r) = 1%nat /\ is_Some (dget k (resident_pages st));
  ki_transient : forall l, transient_pages l st = held_decode_pages l (active_reservations st)
}.

Definition kv_inv : (string -> option string) -> kv_state -> Prop := kv_inv_on (fun _ => True).

(** ** Counting lemmas *)

Lemma holders_nonneg k ars : 0 <= holders k ars.
Proof. apply countb_nonneg. Qed.

Lemma dget_split {V} (k : string) (d : list (string * V)) v :
  dget k d = Some v -> exists d1 d2, d = d1 ++ (k, v) :: d2 /\ ddel k d = d1 ++ d2.
Proof.
  induction d as [|[k' v'] d IH]; [done|].
  unfold dget, ddel; simpl; fold (@dget string V _) (@ddel string V _).
  case_decide.
  - intros [= ->]. subst. by exists [], d.
  - intros (d1 & d2 & -> & Hdel)%IH. exists ((k', v') :: d1), d2. rewrite Hdel. done.
Qed.

Lemma holders_ddel k id r ars :
  dget id ars = Some r ->
  holders k ars = holders k (ddel id ars) + (if bool_decide (k ∈ ar_prompt_page_keys r) then 1 else 0).
Proof.
  intros (d1 & d2 & -> & ->)%dget_split. unfold holders. autorewrite with countb.
  unfold holds at 2. simpl. case_bool_decide; lia.
Qed.

Lemma held_app l d1 d2 : held_decode_pages l (d1 ++ d2) = held_decode_pages l d1 + held_decode_pages l d2.
Proof. induction d1 as [|x d1 IH]; simpl; [done|]. unfold held_decode_pages in *. lia. Qed.

Lemma held_ddel l id r ars :
  dget id ars = Some r ->
  held_decode_pages l ars
  = held_decode_pages l (ddel id ars) + (if bool_decide (ar_lane r = l) then ar_decode_pages r else 0).
Proof.
  intros (d1 & d2 & -> & ->)%dget_split. rewrite !held_app. simpl.
  unfold held_decode_pages. lia.
Qed.

Lemma held_nonneg l ars :
  (forall id r, (id, r) ∈ ars -> 1 <= ar_decode_pages r) -> 0 <= held_decode_pages l ars.
Proof.
  induction ars as [|[id r] ars IH]; simpl; intros H; [lia|].
  assert (0 <= held_decode_pages l ars) by (apply IH; intros; apply (H id0); by right).
  specialize (H id r ltac:(by left)). unfold held_decode_pages in *. case_bool_decide; lia.
Qed.

(** ** Eviction *)

(** Pages filed under their own keys, each once. *)
Definition well_keyed (pages : list (string * page)) : Prop :=
  NoDup (dkeys pages) /\ forall k p, dget k pages = Some p -> pg_key p = k.

Definition evictable (p : page) : bool := pg_ref_count p <=? 0.

(** Removing several keys one after the other. *)
Definition ddels (keys : list string) (pages : list (string * page)) : list (string * page) :=
  fold_left (fun pages k => ddel k pages) keys pages.

Lemma ddels_NoDup keys pages : NoDup (dkeys pages) -> NoDup (dkeys (ddels keys pages)).
Proof. revert pages. induction keys as [|k ks IH]; intros d H; simpl; [done|]. by apply IH, NoDup_ddel. Qed.

Lemma dget_ddels keys pages k :
  NoDup (dkeys pages) ->
  dget k (ddels keys pages) = if decide (k ∈ keys) then None else dget k pages.
Proof.
  revert pages. induction keys as [|k' ks IH]; intros d H; simpl; [done|].
  unfold ddels in *. rewrite IH by by apply NoDup_ddel.
  destruct (decide (k = k')) as [->|Hne].
  - rewrite dget_ddel_eq by done. rewrite (decide_True (P := k' ∈ k' :: ks)) by by left.
    by case_decide.
  - rewrite dget_ddel_ne by done. repeat case_decide; set_solver.
Qed.

Lemma ddels_well_keyed keys pages : well_keyed pages -> well_keyed (ddels keys pages).
Proof.
  intros [Hnd Hk]. split; [by apply ddels_NoDup|]. intros k p.
  rewrite dget_ddels by done. case_decide; [done|]. apply Hk.
Qed.

Lemma insert_candidate_perm p ps : insert_candidate p ps ≡ₚ p :: ps.
Proof.
  induction ps as [|q ps IH]; simpl; [done|]. case_if; [done|]. rewrite IH. by constructor.
Qed.

Lemma sort_candidates_perm ps : sort_candidates ps ≡ₚ ps.
Proof.
  unfold sort_candidates. rewrite <- (app_nil_r ps) at 2. generalize (@nil page) as acc.
  induction ps as [|p ps IH]; intros acc; simpl; [done|].
  rewrite IH, insert_candidate_perm. by rewrite Permutation_middle.
Qed.

(** Prefill pages come before decode pages. *)
Definition lane_le (p q : page) : Prop := lane_rank (pg_lane p) <= lane_rank (pg_lane q).

#[export] Instance lane_le_trans : Transitive lane_le.
Proof. unfold lane_le. intros ???. lia. Qed.

Lemma candidate_lt_lane p q :
  if candidate_lt p q then lane_le p q else lane_le q p.
Proof. unfold candidate_lt, lane_le. repeat case_if; bool_lia. Qed.

Lemma insert_candidate_sorted p ps :
  StronglySorted lane_le ps -> StronglySorted lane_le (insert_candidate p ps).
Proof.
  induction 1 as [|q ps Hs IH Hq]; simpl; [repeat constructor|].
  pose proof (candidate_lt_lane p q) as Hpq. case_if.
  - constructor; [by constructor|]. constructor; [done|].
    eapply Forall_impl; [exact Hq|]. intros r Hr. by transitivity q.
  - constructor; [done|]. rewrite insert_candidate_perm. by constructor.
Qed.

Lemma sort_candidates_sorted ps : StronglySorted lane_le (sort_candidates ps).
Proof.
  unfold sort_candidates. assert (StronglySorted lane_le (@nil page)) as H by constructor.
  revert H. generalize (@nil page) as acc.
  induction ps as [|p ps IH]; intros acc H; simpl; [done|]. by apply IH, insert_candidate_sorted.
Qed.

(** The pages of a dictionary, and those among them that may be evicted. *)
Lemma elem_of_candidates st p :
  well_keyed (resident_pages st) ->
  p ∈ eviction_candidates st <-> dget (pg_key p) (resident_pages st) = Some p /\ pg_ref_count p <= 0.
Proof.
  intros [Hnd Hk]. unfold eviction_candidates. rewrite sort_candidates_perm.
  rewrite list_elem_of_In, filter_In, <- list_elem_of_In. rewrite list_elem_of_fmap, Z.leb_le.
  split.
  - intros [([k q] & -> & Hq) Hr]. simpl in *. apply dget_elem in Hq as Hg; [|done].
    rewrite (Hk _ _ Hg). done.
  - intros [Hg Hr]. split; [|done]. exists (pg_key p, p). split; [done|]. by apply dget_Some_elem.
Qed.

Lemma filter_keys_NoDup (f : page -> bool) pages :
  well_keyed pages -> NoDup (map pg_key (List.filter f (map snd pages))).
Proof.
  intros [Hnd Hk]. assert (forall kp, kp ∈ pages -> pg_key (snd kp) = fst kp) as Hk'.
  { intros [k p] Hin. apply Hk, dget_elem; done. }
  clear Hk. induction pages as [|[k p] d IH]; simpl; [constructor|].
  apply NoDup_cons in Hnd as [Hn Hnd].
  assert (NoDup (map pg_key (List.filter f (map snd d)))) as H.
  { apply IH; [done|]. intros kp Hkp. apply Hk'. by right. }
  destruct (f p); simpl; [|done]. constructor; [|done].
  rewrite list_elem_of_In, in_map_iff. intros (q & Hq & Hin).
  apply filter_In in Hin as [Hin _]. apply in_map_iff in Hin as ([k' q'] & Heq & Hin). simpl in Heq. subst q'.
  apply list_elem_of_In in Hin. pose proof (Hk' (k, p) ltac:(by left)) as H1.
  pose proof (Hk' (k', q) ltac:(by right)) as H2. simpl in *. apply Hn.
  rewrite <- H1, <- Hq, H2. apply (list_elem_of_fmap_2' fst d (k', q)); done.
Qed.

Lemma candidates_NoDup st :
  well_keyed (resident_pages st) -> NoDup (map pg_key (eviction_candidates st)).
Proof.
  intros Hw. unfold eviction_candidates. rewrite sort_candidates_perm. by apply filter_keys_NoDup.
Qed.

Definition is_lane (l : lane) (p : page) : bool :=
  match l, pg_lane p with Decode, Decode | Prefill, Prefill => true | _, _ => false end.

(** How many candidates the loop takes before the pages fit. *)
Definition evictions (limit needed : Z) (candidates : list page) (st : kv_state) : nat :=
  Nat.min (length candidates) (Z.to_nat (total_pages_locked st + Z.max needed 0 - limit)).

Lemma triple_eq {A B C} (a a' : A) (b b' : B) (c c' : C) :
  a = a' -> b = b' -> c = c' -> (a, b, c) = (a', b', c').
Proof. congruence. Qed.

(** The loop removes exactly the first [evictions] candidates. *)
Lemma evict_loop_spec limit needed cs : forall st d p,
  NoDup (dkeys (resident_pages st)) -> NoDup (map pg_key cs) ->
  (forall q, q ∈ cs -> dget (pg_key q) (resident_pages st) = Some q) ->
  let taken := take (evictions limit needed cs st) cs in
  evict_loop limit needed cs st d p
  = (st <| resident_pages ::= ddels (map pg_key taken) |>,
     d + countb (is_lane Decode) taken, p + countb (is_lane Prefill) taken).
Proof.
  induction cs as [|q cs IH]; intros st d p Hnd Hks Hg.
  { simpl. autorewrite with countb. destruct st; simpl. by rewrite !Z.add_0_r. }
  simpl in Hks. apply NoDup_cons in Hks as [Hq Hks].
  cbn [evict_loop]. unfold evictions. cbn [length]. case_if.
  { bool_prop. replace (Z.to_nat _) with O by lia. rewrite Nat.min_0_r. cbn.
    autorewrite with countb. destruct st; simpl. by rewrite !Z.add_0_r. }
  rewrite (Hg q) by by left. bool_prop.
  set (st1 := st <| resident_pages := ddel (pg_key q) (resident_pages st) |>).
  assert (Hlen : S (length (resident_pages st1)) = length (resident_pages st)).
  { apply length_ddel_mem. eapply dget_Some_key, Hg. by left. }
  assert (Htot : total_pages_locked st1 = total_pages_locked st - 1).
  { unfold total_pages_locked. subst st1. simpl in *. lia. }
  assert (Hev : Nat.min (S (length cs)) (Z.to_nat (total_pages_locked st + Z.max needed 0 - limit))
                = S (evictions limit needed cs st1)).
  { unfold evictions. rewrite Htot. lia. }
  rewrite Hev. cbn [take map]. unfold ddels. cbn [fold_left].
  assert (Hnd1 : NoDup (dkeys (resident_pages st1))) by by apply NoDup_ddel.
  assert (Hg1 : forall q', q' ∈ cs -> dget (pg_key q') (resident_pages st1) = Some q').
  { intros q' Hin. subst st1. simpl. rewrite dget_ddel_ne; [apply Hg; by right|].
    intros Heq. apply Hq. rewrite <- Heq. apply list_elem_of_fmap. by exists q'. }
  rewrite !countb_cons.
  destruct (pg_lane q) eqn:Hl; rewrite (IH st1) by done; unfold is_lane; rewrite Hl;
    (apply triple_eq; [done|lia|lia]).
Qed.

(** Fields that eviction leaves alone. *)
Record same_reservations (st st' : kv_state) : Prop := {
  sr_ars : active_reservations st' = active_reservations st;
  sr_decode : active_transient_decode_pages st' = active_transient_decode_pages st;
  sr_prefill : active_transient_prefill_pages st' = active_transient_prefill_pages st;
  sr_counter : reservation_counter st' = reservation_counter st
}.

(** The candidates that an eviction with the given target takes. *)
Definition victims (cfg : kv_config) (needed : Z) (st : kv_state) : list page :=
  match max_pages cfg with
  | None => []
  | Some limit => take (evictions limit needed (eviction_candidates st) st) (eviction_candidates st)
  end.

Lemma evict_to_fit_spec cfg needed l st :
  well_keyed (resident_pages st) ->
  let st' := fst (evict_to_fit_locked cfg needed l st) in
  resident_pages st' = ddels (map pg_key (victims cfg needed st)) (resident_pages st)
  /\ snd (evict_to_fit_locked cfg needed l st) = Z.of_nat (length (victims cfg needed st))
  /\ total_evicted_pages st' = total_evicted_pages st + Z.of_nat (length (victims cfg needed st))
  /\ same_reservations st st'.
Proof.
  intros Hw. unfold evict_to_fit_locked, victims. destruct (max_pages cfg) as [limit|];
    [|simpl; repeat split; lia].
  case_if.
  { bool_prop. unfold evictions. replace (Z.to_nat _) with O by lia. rewrite Nat.min_0_r.
    simpl. repeat split; lia. }
  rewrite evict_loop_spec; [|apply Hw|by apply candidates_NoDup|].
  2: { intros q Hq. by apply elem_of_candidates in Hq as [? _]. }
  set (taken := take _ _). rewrite !Z.add_0_l.
  assert (Hsum : countb (is_lane Decode) taken + countb (is_lane Prefill) taken
                 = Z.of_nat (length taken)).
  { clearbody taken. induction taken as [|q qs IH]; [done|]. rewrite !countb_cons. simpl length.
    unfold is_lane at 1 3. destruct (pg_lane q); lia. }
  rewrite Hsum. destruct (Z.of_nat (length taken) =? 0) eqn:He; bool_prop.
  - destruct taken; [|simpl in *; lia]. simpl. repeat split; lia.
  - destruct l; simpl; case_if; simpl; repeat split.
Qed.

Lemma victims_unreferenced cfg needed st p :
  well_keyed (resident_pages st) -> p ∈ victims cfg needed st ->
  dget (pg_key p) (resident_pages st) = Some p /\ pg_ref_count p <= 0.
Proof.
  intros Hw Hp. apply elem_of_candidates; [done|]. unfold victims in Hp.
  destruct (max_pages cfg); [|by apply not_elem_of_nil in Hp]. by eapply elem_of_take in Hp as (? & ?%list_elem_of_lookup_2 & _).
Qed.

(** What is left after an eviction: every referenced page, and nothing new. *)
Lemma dget_evicted cfg needed l st k :
  well_keyed (resident_pages st) ->
  dget k (resident_pages (fst (evict_to_fit_locked cfg needed l st)))
  = if decide (k ∈ map pg_key (victims cfg needed st)) then None else dget k (resident_pages st).
Proof.
  intros Hw. destruct (evict_to_fit_spec cfg needed l st Hw) as (-> & _).
  apply dget_ddels, Hw.
Qed.

Lemma evicted_referenced cfg needed l st k p :
  well_keyed (resident_pages st) -> dget k (resident_pages st) = Some p -> 0 < pg_ref_count p ->
  dget k (resident_pages (fst (evict_to_fit_locked cfg needed l st))) = Some p.
Proof.
  intros Hw Hg Hp. rewrite dget_evicted by done. case_decide as Hin; [|done]. exfalso.
  apply list_elem_of_fmap in Hin as (q & -> & Hq).
  apply victims_unreferenced in Hq as [Hq ?]; [|done]. rewrite Hq in Hg. simplify_eq. lia.
Qed.

Lemma evicted_subset cfg needed l st k p :
  well_keyed (resident_pages st) ->
  dget k (resident_pages (fst (evict_to_fit_locked cfg needed l st))) = Some p ->
  dget k (resident_pages st) = Some p.
Proof. intros Hw. rewrite dget_evicted by done. by case_decide. Qed.

Lemma evicted_well_keyed cfg needed l st :
  well_keyed (resident_pages st) ->
  well_keyed (resident_pages (fst (evict_to_fit_locked cfg needed l st))).
Proof.
  intros Hw. destruct (evict_to_fit_spec cfg needed l st Hw) as (-> & _). by apply ddels_well_keyed.
Qed.

(** ** The two loops of [reserve] *)

Lemma dget_dset_cases {V} (k k' : string) (v : V) d :
  dget k' (dset k v d) = if decide (k' = k) then Some v else dget k' d.
Proof. case_decide; subst; [apply dget_dset_eq|by apply dget_dset_ne]. Qed.

Lemma dset_well_keyed k p pages : well_keyed pages -> pg_key p = k -> well_keyed (dset k p pages).
Proof.
  intros [Hnd Hk] Hp. split; [by apply NoDup_dset|]. intros k' q. rewrite dget_dset_cases.
  case_decide; [congruence|apply Hk].
Qed.

Lemma listed_zero k keys : listed k keys = O <-> k ∉ keys.
Proof. unfold listed. rewrite <- count_occ_not_In, list_elem_of_In. done. Qed.

Lemma listed_pos k keys : k ∈ keys <-> (1 <= listed k keys)%nat.
Proof.
  destruct (decide (k ∈ keys)) as [H|H]; split; intros H1; try done.
  - destruct (listed k keys) eqn:Hl; [by apply listed_zero in Hl|lia].
  - apply listed_zero in H. lia.
Qed.

Lemma NoDup_listed k keys : NoDup keys -> (listed k keys <= 1)%nat.
Proof.
  induction 1 as [|k' ks Hn _ IH]; [simpl; lia|]. unfold listed in *. cbn [count_occ]. destruct (decide (k' = k)) as [->|]; [|done].
  apply listed_zero in Hn. unfold listed in Hn. lia.
Qed.

(** A page listed at most once in [k :: ks]. *)
Lemma listed_cons_le k k' ks : (listed k (k' :: ks) <= 1)%nat -> (listed k ks <= 1)%nat /\ (k = k' -> k ∉ ks).
Proof. unfold listed. cbn [count_occ]. destruct (decide (k' = k)); intros H; (split; [lia|]); [intros _; apply listed_zero; unfold listed; lia|congruence]. Qed.

Lemma touch_pages_spec l ts keys : forall pages pages' new_keys reused,
  touch_pages l ts keys pages = (pages', new_keys, reused) ->
  dkeys pages' = dkeys pages
  /\ (well_keyed pages -> well_keyed pages')
  /\ (forall k, (listed k keys <= 1)%nat ->
        dget k pages' = if decide (k ∈ keys) then reuse_page l ts <$> dget k pages else dget k pages)
  /\ (forall k, k ∈ new_keys <-> k ∈ keys /\ dget k pages = None)
  /\ (NoDup keys -> NoDup new_keys).
Proof.
  induction keys as [|k ks IH]; simpl; intros pages pages' new_keys reused Ht.
  { simplify_eq. split_and!; set_solver. }
  destruct (dget k pages) as [p|] eqn:Hg.
  - destruct (touch_pages l ts ks (dset k _ pages)) as [[ps nk] ru] eqn:Ht'. simplify_eq.
    apply IH in Ht' as (Hks & Hwk & Hget & Hnew & Hnn).
    split; [rewrite Hks; by eapply dkeys_dset_old, dget_Some_key|]. split_and!.
    + intros Hw. apply Hwk, dset_well_keyed; [done|]. by apply Hw in Hg.
    + intros k' [Hle Hself]%listed_cons_le. rewrite Hget, dget_dset_cases by done. destruct (decide (k' = k)) as [->|].
      * rewrite (decide_False (P := k ∈ ks)), (decide_True (P := k ∈ k :: ks)), Hg by (by left || auto). done.
      * repeat case_decide; set_solver.
    + intros k'. rewrite Hnew, dget_dset_cases. case_decide; [subst|]; set_solver.
    + by intros [_ Hnd]%NoDup_cons; auto.
  - destruct (touch_pages l ts ks pages) as [[ps nk] ru] eqn:Ht'. simplify_eq.
    apply IH in Ht' as (Hks & Hwk & Hget & Hnew & Hnn). split_and!; [done|done| | |].
    + intros k' [Hle Hself]%listed_cons_le. rewrite Hget by done.
      destruct (decide (k' = k)) as [->|]; [|repeat case_decide; set_solver].
      rewrite Hg. by repeat case_decide.
    + set_solver.
    + intros [Hk Hnd]%NoDup_cons. constructor; [|auto]. rewrite Hnew. tauto.
Qed.

Lemma add_pages_spec m l ts keys : forall pages,
  well_keyed pages ->
  well_keyed (add_pages m l ts keys pages)
  /\ (forall k, dget k (add_pages m l ts keys pages)
              = if decide (k ∈ keys) then Some (new_page m l ts k) else dget k pages).
Proof.
  unfold add_pages. induction keys as [|k ks IH]; simpl; intros pages Hw; [done|].
  destruct (IH (dset k (new_page m l ts k) pages)) as [Hw' Hget]; [by apply dset_well_keyed|].
  split; [done|]. intros k'. rewrite Hget, dget_dset_cases.
  destruct (decide (k' = k)) as [->|]; repeat case_decide; set_solver.
Qed.

Lemma release_pages_spec ts keys : forall pages,
  well_keyed pages ->
  well_keyed (release_pages ts keys pages)
  /\ (forall k, (listed k keys <= 1)%nat -> dget k (release_pages ts keys pages)
        = if decide (k ∈ keys) then release_page ts <$> dget k pages else dget k pages).
Proof.
  induction keys as [|k ks IH]; simpl; intros pages Hw; [done|].
  destruct (dget k pages) as [p|] eqn:Hg.
  - destruct (IH (dset k (release_page ts p) pages)) as [Hwk Hget].
    { apply dset_well_keyed; [done|]. by apply Hw in Hg. }
    split; [done|]. intros k' [Hle Hself]%listed_cons_le.
    rewrite Hget, dget_dset_cases by done. destruct (decide (k' = k)) as [->|].
    + rewrite (decide_False (P := k ∈ ks)), (decide_True (P := k ∈ k :: ks)), Hg by (by left || auto). done.
    + repeat case_decide; set_solver.
  - destruct (IH pages Hw) as [Hwk Hget]. split; [done|]. intros k' [Hle Hself]%listed_cons_le. rewrite Hget by done.
    destruct (decide (k' = k)) as [->|]; [|repeat case_decide; set_solver].
    rewrite Hg. by repeat case_decide.
Qed.

(** ** What one call changes *)

Lemma record_pressure_same o lv t ra st :
  resident_pages (record_pressure o lv t ra st) = resident_pages st
  /\ active_reservations (record_pressure o lv t ra st) = active_reservations st
  /\ active_transient_decode_pages (record_pressure o lv t ra st) = active_transient_decode_pages st
  /\ active_transient_prefill_pages (record_pressure o lv t ra st) = active_transient_prefill_pages st
  /\ reservation_counter (record_pressure o lv t ra st) = reservation_counter st
  /\ total_pages_locked (record_pressure o lv t ra st) = total_pages_locked st.
Proof. unfold record_pressure. repeat case_if; done. Qed.

Definition lane_pages (l l' : lane) (n : Z) : Z := if bool_decide (l = l') then n else 0.

Lemma reserve_effect cfg ts m tokens mt l st st' rs :
  reserve cfg ts m tokens mt l st = Some (st', rs) ->
  exists keys pages new_keys reused,
    let n := decode_pages_for cfg mt in
    let st1 := st <| reservation_counter ::= N.succ |> <| resident_pages := pages |> in
    let st2 := fst (evict_to_fit_locked cfg (Z.of_nat (length new_keys) + n) l st1) in
    let id := reservation_name (N.succ (reservation_counter st)) in
    page_keys_for cfg m tokens = Some keys
    /\ touch_pages l ts keys (resident_pages st) = (pages, new_keys, reused)
    /\ resident_pages st' = add_pages m l ts new_keys (resident_pages st2)
    /\ active_reservations st' = dset id (Build_active_reservation m l keys n) (active_reservations st2)
    /\ active_transient_decode_pages st' = active_transient_decode_pages st2 + lane_pages l Decode n
    /\ active_transient_prefill_pages st' = active_transient_prefill_pages st2 + lane_pages l Prefill n
    /\ reservation_counter st' = reservation_counter st2
    /\ reservation_id rs = id
    /\ rs_overflow_pages rs = match max_pages cfg with
                              | Some mx => Z.max 0 (total_pages_locked st' - mx)
                              | None => 0
                              end.
Proof.
  unfold reserve. destruct (page_keys_for cfg m tokens) as [keys|]; [|done].
  simpl resident_pages at 1.
  destruct (touch_pages l ts keys (resident_pages st)) as [[pages nk] ru] eqn:Ht.
  intros H. exists keys, pages, nk, ru. cbv zeta.
  set (st1 := (st <| reservation_counter ::= N.succ |> <| resident_pages := pages |>)) in *.
  destruct (evict_to_fit_locked cfg (Z.of_nat (length nk) + decode_pages_for cfg mt) l st1) as [st2 ev].
  set (st3 := admit_reservation _ _ _ _ _ _ _ _ _) in *.
  injection H as Hst Hrs. subst st' rs. simpl fst.
  match goal with
  | |- context [record_pressure ?o ?lv ?t ?ra ?s] =>
      destruct (record_pressure_same o lv t ra s) as (H1 & H2 & H3 & H4 & H5 & H6)
  end.
  split; [done|]. split; [done|]. rewrite H1, H2, H3, H4, H5, H6.
  repeat match goal with |- _ /\ _ => split end; try (by destruct l; simpl; rewrite ?Z.add_0_r).
  simpl. unfold overflow_of. destruct (max_pages cfg); [|done]. case_if; bool_lia.
Qed.

Lemma decode_pages_pos cfg mt : 1 <= decode_pages_for cfg mt.
Proof. unfold decode_pages_for. lia. Qed.

Lemma reservation_name_inj n n' : reservation_name n = reservation_name n' -> n = n'.
Proof. intros H. apply (inj (String.append "kv-")) in H. by apply (inj pretty). Qed.

(** ** The invariant is preserved *)

Lemma kv_inv_well_keyed exact owner st : kv_inv_on exact owner st -> well_keyed (resident_pages st).
Proof. intros H. split; apply H. Qed.

Lemma holders_pos k id r ars :
  dget id ars = Some r -> k ∈ ar_prompt_page_keys r -> 1 <= holders k ars.
Proof.
  intros Hg Hk. rewrite (holders_ddel k id r) by done. rewrite bool_decide_true by done.
  pose proof (holders_nonneg k (ddel id ars)). lia.
Qed.

Lemma holders_pos_inv k ars :
  NoDup (dkeys ars) -> 1 <= holders k ars ->
  exists id r, dget id ars = Some r /\ k ∈ ar_prompt_page_keys r.
Proof.
  unfold holders. induction ars as [|[id r] ars IH]; simpl; [autorewrite with countb; lia|].
  intros [Hn Hnd]%NoDup_cons. autorewrite with countb. unfold holds at 1. simpl.
  case_bool_decide as Hk; intros H.
  - exists id, r. unfold dget. simpl. by rewrite decide_True.
  - destruct IH as (id' & r' & Hg & Hk'); [done|lia|]. exists id', r'. split; [|done].
    unfold dget; simpl; fold (@dget string active_reservation _). rewrite decide_False; [done|].
    intros ->. by apply Hn, (dget_Some_key _ _ r').
Qed.

Lemma holders_absent exact owner st k m :
  kv_inv_on exact owner st -> owner k = Some m -> dget k (resident_pages st) = None ->
  holders k (active_reservations st) = 0.
Proof.
  intros Hi Ho Hk. pose proof (holders_nonneg k (active_reservations st)).
  destruct (decide (1 <= holders k (active_reservations st))) as [Hp|]; [|lia].
  apply holders_pos_inv in Hp as (id & r & Hg & Hin); [|apply Hi].
  eapply ki_ar_key in Hin as (_ & _ & ? & ?); [|done..]. congruence.
Qed.

Lemma holders_new k id r ars :
  id ∉ dkeys ars ->
  holders k (dset id r ars) = holders k ars + (if bool_decide (k ∈ ar_prompt_page_keys r) then 1 else 0).
Proof.
  intros Hn. rewrite dset_new by done. unfold holders. autorewrite with countb.
  unfold holds at 2. simpl. case_bool_decide; lia.
Qed.

Lemma held_new l id r ars :
  id ∉ dkeys ars ->
  held_decode_pages l (dset id r ars)
  = held_decode_pages l ars + lane_pages (ar_lane r) l (ar_decode_pages r).
Proof. intros Hn. rewrite dset_new, held_app by done. simpl. unfold lane_pages. lia. Qed.

Lemma fresh_name owner exact st :
  kv_inv_on exact owner st ->
  reservation_name (N.succ (reservation_counter st)) ∉ dkeys (active_reservations st).
Proof.
  intros Hi Hin. apply list_elem_of_fmap in Hin as ([id r] & Hid & Hin). simpl in Hid.
  apply dget_elem in Hin; [|apply Hi]. apply Hi in Hin as (_ & n & -> & Hn).
  apply reservation_name_inj in Hid. lia.
Qed.

Section reserve_step.
Context (owner : string -> option string) (cfg : kv_config) (st st1 st2 st' : kv_state).
Context (m : string) (l : lane) (ts : f64) (keys new_keys : list string) (n needed : Z).
Let id := reservation_name (N.succ (reservation_counter st)).
Let r := Build_active_reservation m l keys n.

Context (Hi : kv_inv owner st) (Hn : 1 <= n) (Hw1 : well_keyed (resident_pages st1)).
Context (Hst1 : forall k, (listed k keys <= 1)%nat -> dget k (resident_pages st1)
     = if decide (k ∈ keys) then reuse_page l ts <$> dget k (resident_pages st)
       else dget k (resident_pages st)).
Context (Hnew : forall k, k ∈ new_keys <-> k ∈ keys /\ dget k (resident_pages st) = None).
Context (Hst2 : st2 = fst (evict_to_fit_locked cfg needed l st1)).
Context (Hpages : resident_pages st' = add_pages m l ts new_keys (resident_pages st2)).
Context (Hars : active_reservations st' = dset id r (active_reservations st)).
  (** The page in question. *)
Context (k m' : string) (Howner : owner k = Some m') (Hsole : k ∈ keys -> m = m' /\ listed k keys = 1%nat).

Lemma sole_listed : (listed k keys <= 1)%nat.
  Proof using Hsole.
    destruct (decide (k ∈ keys)) as [Hk|Hk]; [destruct (Hsole Hk); lia|]. apply listed_zero in Hk. lia.
  Qed.

Lemma reserve_page p :
    dget k (resident_pages st') = Some p ->
    pg_model p = m' /\ pg_ref_count p = holders k (active_reservations st').
  Proof using All.
    rewrite Hars, holders_new by by apply (fresh_name owner (fun _ => True)).
    rewrite Hpages. destruct (add_pages_spec m l ts new_keys (resident_pages st2)) as [_ ->].
    { subst st2. by apply evicted_well_keyed. }
    case_decide as Hk.
    - intros [= <-]. apply Hnew in Hk as [Hk Hnone]. simpl.
      rewrite (holders_absent _ _ _ _ _ Hi Howner Hnone), bool_decide_true by done. by destruct (Hsole Hk).
    - subst st2. intros Hg%evicted_subset; [|done]. rewrite (Hst1 k sole_listed) in Hg. simpl.
      case_decide.
      + rewrite bool_decide_true by done.
        apply fmap_Some in Hg as (q & Hq & ->). apply (ki_page _ _ _ Hi _ _ _ Howner) in Hq as (? & Hq). simpl.
        rewrite Hq by done. done.
      + rewrite bool_decide_false by done. apply (ki_page _ _ _ Hi _ _ _ Howner) in Hg as (? & Hq).
        rewrite Hq by done. split; [done|lia].
  Qed.

  (** A page that some reservation holds after the call is resident. *)
Lemma reserve_resident :
    k ∈ keys \/ 1 <= holders k (active_reservations st) -> is_Some (dget k (resident_pages st')).
  Proof using All.
    intros Hk. rewrite Hpages. destruct (add_pages_spec m l ts new_keys (resident_pages st2)) as [_ ->].
    { subst st2. by apply evicted_well_keyed. }
    case_decide as Hin; [by eexists|]. subst st2.
    destruct (dget k (resident_pages st)) as [q|] eqn:Hq.
    2: { exfalso. destruct Hk as [Hk|Hk]; [by apply Hin, Hnew|].
         rewrite (holders_absent _ _ _ _ _ Hi Howner Hq) in Hk. lia. }
    destruct (ki_page _ _ _ Hi _ _ _ Howner Hq) as (_ & Hr). specialize (Hr I).
    pose proof (holders_nonneg k (active_reservations st)).
    pose proof (Hst1 k sole_listed) as Hk1. rewrite Hq in Hk1. destruct (decide (k ∈ keys)).
    - eexists. eapply evicted_referenced; [done|exact Hk1|]. simpl. lia.
    - eexists. eapply evicted_referenced; [done|exact Hk1|]. destruct Hk; [done|lia].
  Qed.
End reserve_step.

Lemma kv_inv_reserve owner cfg ts m tokens mt l keys st st' rs :
  kv_inv owner st -> page_keys_for cfg m tokens = Some keys ->
  (forall k m', owner k = Some m' -> k ∈ keys -> m = m' /\ listed k keys = 1%nat) ->
  reserve cfg ts m tokens mt l st = Some (st', rs) -> kv_inv owner st'.
Proof.
  intros Hi Hkeys Hown Hr.
  apply reserve_effect in Hr as (keys' & pages & nk & ru & Hk' & Ht & Hp & Ha & Hd & Hpf & Hc & _).
  rewrite Hkeys in Hk'. injection Hk' as <-.
  destruct (touch_pages_spec _ _ _ _ _ _ _ Ht) as (Hks & Hwk & Hget & Hnew & _).
  set (st1 := (st <| reservation_counter ::= N.succ |> <| resident_pages := pages |>)) in *.
  set (n := decode_pages_for cfg mt) in *. pose proof (decode_pages_pos cfg mt : 1 <= n) as Hn.
  assert (Hw1 : well_keyed (resident_pages st1)) by apply Hwk, (kv_inv_well_keyed _ _ _ Hi).
  destruct (evict_to_fit_spec cfg (Z.of_nat (length nk) + n) l st1 Hw1) as (_ & _ & _ & [Ea Ed Ep Ec]).
  rewrite Ea in Ha. rewrite Ed in Hd. rewrite Ep in Hpf. rewrite Ec in Hc.
  pose proof (fresh_name owner (fun _ => True) st Hi) as Hf.
  assert (Hars : forall id r, dget id (active_reservations st') = Some r ->
    (id = reservation_name (N.succ (reservation_counter st)) /\ r = Build_active_reservation m l keys n)
    \/ dget id (active_reservations st) = Some r).
  { intros id r. rewrite Ha, dget_dset_cases. case_decide; intros; simplify_eq; auto. }
  assert (Hw' : well_keyed (resident_pages st')) by (rewrite Hp; apply add_pages_spec; by apply evicted_well_keyed).
  split; [apply Hw'| |apply Hw'|..].
  - rewrite Ha. apply NoDup_dset, Hi.
  - intros k m' p Ho Hg.
    destruct (reserve_page owner cfg st st1 _ st' m l ts keys nk n _ Hi Hn Hw1 Hget Hnew eq_refl Hp Ha k m' Ho (Hown k m' Ho) p Hg).
    auto.
  - intros id r [[-> ->]|Hg]%Hars; simpl.
    + split; [done|]. eexists. split; [done|]. rewrite Hc. simpl. lia.
    + apply Hi in Hg as (? & x & -> & ?). split; [done|]. exists x. split; [done|].
      rewrite Hc. simpl. lia.
  - intros id r k m' Ho Hg Hk.
    assert (Hres : k ∈ keys \/ 1 <= holders k (active_reservations st) ->
      is_Some (dget k (resident_pages st')))
      by exact (reserve_resident owner cfg st st1 _ st' m l ts keys nk n _ Hi Hn Hw1 Hget Hnew eq_refl Hp Ha k m' Ho (Hown k m' Ho)).
    apply Hars in Hg as [[-> ->]|Hg].
    + destruct (Hown k m' Ho Hk) as [-> Hl]. split_and!; [done|done|]. apply Hres. by left.
    + destruct (ki_ar_key _ _ _ Hi _ _ _ _ Ho Hg Hk) as (? & ? & _). split_and!; [done..|].
      apply Hres. right. by eapply holders_pos.
  - intros l'. rewrite Ha, held_new by done. destruct l'; simpl; [rewrite Hd|rewrite Hpf]; simpl.
    + f_equal. apply (ki_transient _ _ _ Hi Decode).
    + f_equal. apply (ki_transient _ _ _ Hi Prefill).
Qed.

(** Dropping a reservation: the transient pages go with it, and [max(0, ...)]
    never truncates. *)
Lemma drop_transient_exact exact owner st id r l :
  kv_inv_on exact owner st -> dget id (active_reservations st) = Some r ->
  transient_pages l (drop_transient r st)
  = held_decode_pages l (ddel id (active_reservations st)).
Proof.
  intros Hi Hg. pose proof (ki_transient _ _ _ Hi l) as Ht.
  rewrite (held_ddel l id r) in Ht by done.
  assert (0 <= held_decode_pages l (ddel id (active_reservations st))).
  { apply held_nonneg. intros id' r' Hin. apply dget_elem in Hin; [|by apply NoDup_ddel, Hi].
    destruct (decide (id' = id)) as [->|].
    - by rewrite dget_ddel_eq in Hin by apply Hi.
    - rewrite dget_ddel_ne in Hin by done. apply Hi in Hin. tauto. }
  destruct l, r as [? [] ? ?]; simpl in *; lia.
Qed.

Lemma drop_transient_same r st :
  resident_pages (drop_transient r st) = resident_pages st
  /\ active_reservations (drop_transient r st) = active_reservations st
  /\ reservation_counter (drop_transient r st) = reservation_counter st.
Proof. unfold drop_transient. by destruct (ar_lane r). Qed.

Lemma drop_transient_ars f r st l :
  transient_pages l (drop_transient r (st <| active_reservations ::= f |>))
  = transient_pages l (drop_transient r st).
Proof. destruct r as [? [] ? ?], l; done. Qed.

(** Forgetting a reservation keeps every clause but the reference counts of
    its own pages. *)
Lemma kv_inv_forget (exact exact' : string -> Prop) owner st st' id r :
  kv_inv_on exact owner st -> dget id (active_reservations st) = Some r ->
  active_reservations st' = ddel id (active_reservations st) ->
  reservation_counter st' = reservation_counter st ->
  (forall l, transient_pages l st' = transient_pages l (drop_transient r st)) ->
  well_keyed (resident_pages st') ->
  (forall k m p', owner k = Some m -> dget k (resident_pages st') = Some p' -> exists p,
     dget k (resident_pages st) = Some p /\ pg_model p' = pg_model p
     /\ (exact' k -> exact k /\ pg_ref_count p'
            = pg_ref_count p - (if bool_decide (k ∈ ar_prompt_page_keys r) then 1 else 0))) ->
  (forall k m, owner k = Some m -> 1 <= holders k (active_reservations st') -> is_Some (dget k (resident_pages st'))) ->
  kv_inv_on exact' owner st'.
Proof.
  intros Hi Hg Ha Hc Ht Hw Hp Hres.
  assert (Hsub : forall id' r', dget id' (active_reservations st') = Some r' ->
    dget id' (active_reservations st) = Some r').
  { intros id' r'. rewrite Ha. destruct (decide (id' = id)) as [->|].
    - by rewrite dget_ddel_eq by apply Hi.
    - by rewrite dget_ddel_ne. }
  split; [apply Hw| |apply Hw|..].
  - rewrite Ha. apply NoDup_ddel, Hi.
  - intros k m p' Ho Hk. apply (Hp _ _ _ Ho) in Hk as (p & Hk & -> & Hr).
    apply (ki_page _ _ _ Hi _ _ _ Ho) in Hk as (Hm & He). split; [done|]. intros [Hx ->]%Hr. rewrite He by done.
    rewrite Ha, (holders_ddel k id r) by done. lia.
  - intros id' r' Hr'%Hsub. rewrite Hc. by apply Hi in Hr'.
  - intros id' r' k m Ho Hr' Hk. destruct (ki_ar_key _ _ _ Hi _ _ _ _ Ho (Hsub _ _ Hr') Hk) as (? & ? & _).
    split_and!; [done..|]. apply (Hres _ _ Ho). by eapply holders_pos.
  - intros l. rewrite Ht, Ha. by eapply drop_transient_exact.
Qed.

Lemma kv_inv_release owner cfg ts id st : kv_inv owner st -> kv_inv owner (release cfg ts id st).
Proof.
  intros Hi. unfold release. destruct id as [id|]; [|done].
  destruct (dget id (active_reservations st)) as [r|] eqn:Hg; [|done].
  pose proof (kv_inv_well_keyed _ _ _ Hi) as Hw.
  destruct (release_pages_spec ts (ar_prompt_page_keys r) (resident_pages st) Hw) as [Hwk Hget].
  assert (Hl : forall k m, owner k = Some m -> (listed k (ar_prompt_page_keys r) <= 1)%nat).
  { intros k m Ho. destruct (decide (k ∈ ar_prompt_page_keys r)) as [Hk|Hk%listed_zero]; [|lia].
    destruct (ki_ar_key _ _ _ Hi _ _ _ _ Ho Hg Hk) as (_ & Hl & _). lia. }
  destruct (drop_transient_same r (st <| active_reservations ::= ddel id |>)) as (Hp & Ha & Hc).
  pose proof (fun l => drop_transient_ars (ddel id) r st l) as Ht.
  set (st1 := drop_transient _ _) in *.
  change (resident_pages st1 = resident_pages st) in Hp.
  change (active_reservations st1 = ddel id (active_reservations st)) in Ha.
  change (reservation_counter st1 = reservation_counter st) in Hc.
  set (st2 := (st1 <| resident_pages ::= _ |>)).
  assert (Hw2 : well_keyed (resident_pages st2)).
  { subst st2. simpl. by rewrite Hp. }
  destruct (evict_to_fit_spec cfg 0 Decode st2 Hw2) as (_ & _ & _ & [Ea Ed Ep Ec]).
  assert (Hcount : forall k m q, owner k = Some m -> dget k (resident_pages st) = Some q ->
    pg_ref_count q = holders k (ddel id (active_reservations st))
                     + (if bool_decide (k ∈ ar_prompt_page_keys r) then 1 else 0)).
  { intros k m q Ho Hq. apply (ki_page _ _ _ Hi _ _ _ Ho) in Hq as (_ & Hq). rewrite Hq by done. by apply holders_ddel. }
  eapply (kv_inv_forget _ _ _ _ _ id r Hi Hg).
  - by rewrite Ea.
  - by rewrite Ec.
  - intros l. rewrite <- Ht. destruct l; simpl; [by rewrite Ed|by rewrite Ep].
  - by apply evicted_well_keyed.
  - intros k m p' Ho Hk%evicted_subset; [|done]. subst st2. simpl in Hk. rewrite Hp, (Hget k (Hl k m Ho)) in Hk. case_decide as Hin.
    + apply fmap_Some in Hk as (q & Hq & ->). exists q. split; [done|]. split; [done|]. intros _.
      split; [done|]. simpl. apply (Hcount _ _ _ Ho) in Hq as ->. rewrite bool_decide_true by done.
      pose proof (holders_nonneg k (ddel id (active_reservations st))). lia.
    + exists p'. rewrite bool_decide_false by done. split_and!; [done..|]. intros _. split; [done|lia].
  - intros k m Ho. rewrite Ea. simpl. rewrite Ha. intros Hh.
    destruct (dget k (resident_pages st)) as [q|] eqn:Hq.
    2: { apply (holders_absent _ _ _ _ _ Hi Ho) in Hq. rewrite (holders_ddel k id r) in Hq by done.
         case_bool_decide; lia. }
    apply (Hcount _ _ _ Ho) in Hq as Hr. specialize (Hget k (Hl k m Ho)). rewrite Hq in Hget.
    case_decide as Hin; (eexists; eapply evicted_referenced;
      [done|subst st2; simpl; rewrite Hp; exact Hget|]); simpl;
      [rewrite bool_decide_true in Hr by done|rewrite bool_decide_false in Hr by done]; lia.
Qed.

(** [unregister_model]: while the reservations of [m] are dropped one by one,
    the counts stay exact for the pages of the other models. *)
Lemma drop_reservation_inv owner m st id :
  kv_inv_on (fun k => owner k <> Some m) owner st ->
  (forall r, dget id (active_reservations st) = Some r -> ar_model r = m) ->
  kv_inv_on (fun k => owner k <> Some m) owner (drop_reservation st id)
  /\ active_reservations (drop_reservation st id) = ddel id (active_reservations st)
  /\ resident_pages (drop_reservation st id) = resident_pages st.
Proof.
  intros Hi Hm. unfold drop_reservation.
  destruct (dget id (active_reservations st)) as [r|] eqn:Hg; [|by rewrite ddel_None].
  destruct (drop_transient_same r (st <| active_reservations ::= ddel id |>)) as (Hp & Ha & Hc).
  split; [|by rewrite Ha].
  eapply (kv_inv_forget _ _ _ _ _ id r Hi Hg).
  - by rewrite Ha.
  - by rewrite Hc.
  - intros l. apply drop_transient_ars.
  - rewrite Hp. exact (kv_inv_well_keyed _ _ _ Hi).
  - intros k m' p Ho. rewrite Hp. simpl. intros Hk. exists p. split_and!; [done..|]. intros Hne.
    split; [done|]. rewrite bool_decide_false; [lia|]. intros Hin. apply Hne.
    destruct (ki_ar_key _ _ _ Hi _ _ _ _ Ho Hg Hin) as (Hr & _). by rewrite Ho, <- Hr, (Hm r eq_refl).
  - intros k m' Ho. rewrite Ha, Hp. simpl. intros Hh.
    destruct (dget k (resident_pages st)) eqn:Hq; [done|].
    apply (holders_absent _ _ _ _ _ Hi Ho) in Hq. rewrite (holders_ddel k id r) in Hq by done.
    case_bool_decide; lia.
Qed.

Definition ddel_ars (ids : list string) (ars : list (string * active_reservation)) :=
  fold_left (fun d k => ddel k d) ids ars.

Lemma drop_reservations_inv owner m ids : forall st,
  kv_inv_on (fun k => owner k <> Some m) owner st ->
  (forall id r, id ∈ ids -> dget id (active_reservations st) = Some r -> ar_model r = m) ->
  let st' := fold_left drop_reservation ids st in
  kv_inv_on (fun k => owner k <> Some m) owner st'
  /\ resident_pages st' = resident_pages st
  /\ forall id r, dget id (active_reservations st') = Some r ->
       dget id (active_reservations st) = Some r /\ id ∉ ids.
Proof.
  induction ids as [|i ids IH]; intros st Hi Hm; simpl.
  { split_and!; [done..|]. intros id r Hg. split; [done|]. apply not_elem_of_nil. }
  destruct (drop_reservation_inv owner m st i Hi) as (Hi' & Ha & Hp).
  { intros r. apply Hm. by left. }
  assert (Hsub : forall id r, dget id (ddel i (active_reservations st)) = Some r ->
    id <> i /\ dget id (active_reservations st) = Some r).
  { intros id r. destruct (decide (id = i)) as [->|].
    - by rewrite dget_ddel_eq by apply Hi.
    - by rewrite dget_ddel_ne. }
  destruct (IH (drop_reservation st i) Hi') as (Hi2 & Hp2 & Hsub2).
  { intros id r Hin. rewrite Ha. intros [_ Hg]%Hsub. by apply (Hm id); [right|]. }
  split; [done|]. split; [congruence|]. intros id r [Hg Hn]%Hsub2. rewrite Ha in Hg.
  apply Hsub in Hg as [? ?]. split; [done|]. by apply not_elem_of_cons.
Qed.

Lemma elem_of_page_keys_of m pages k :
  NoDup (dkeys pages) ->
  k ∈ page_keys_of m pages <-> exists p, dget k pages = Some p /\ pg_model p = m.
Proof.
  intros Hnd. unfold page_keys_of. rewrite list_elem_of_fmap. split.
  - intros ([k' p] & -> & Hin). apply list_elem_of_In, filter_In in Hin as [Hin Hm].
    apply list_elem_of_In in Hin. bool_prop. exists p. simpl in *. split; [by apply dget_elem|done].
  - intros (p & Hg & Hm). exists (k, p). split; [done|]. apply list_elem_of_In, filter_In.
    rewrite <- list_elem_of_In. split; [by apply dget_Some_elem|]. simpl. by apply bool_decide_eq_true.
Qed.

Lemma kv_inv_unregister owner m st : kv_inv owner st -> kv_inv owner (unregister_model m st).
Proof.
  intros Hi.
  assert (Hi0 : kv_inv_on (fun k => owner k <> Some m) owner st).
  { destruct Hi as [? ? ? Hp ? ? ?]. split; [done..| |done|done|done].
    intros k m' p Ho Hk. destruct (Hp k m' p Ho Hk). auto. }
  assert (Hids : forall id r, dget id (active_reservations st) = Some r ->
    id ∈ reservation_ids_of m st <-> ar_model r = m).
  { intros id r Hg. unfold reservation_ids_of. rewrite list_elem_of_fmap. split.
    - intros ([id' r'] & -> & Hin). apply list_elem_of_In, filter_In in Hin as [Hin Hm].
      apply list_elem_of_In, dget_elem in Hin; [|apply Hi]. simpl in *. bool_prop. congruence.
    - intros Hm. exists (id, r). split; [done|]. apply list_elem_of_In, filter_In.
      rewrite <- list_elem_of_In. split; [by apply dget_Some_elem|]. by apply bool_decide_eq_true. }
  destruct (drop_reservations_inv owner m (reservation_ids_of m st) st Hi0) as (Hi1 & Hp & Hsub).
  { intros id r Hin Hg. by apply (Hids id r). }
  unfold unregister_model. set (st1 := fold_left _ _ _) in *. clearbody st1.
  destruct Hi1 as [Hnd1 Hnd2 Hkey1 Hpage Har Hkey Htr].
  assert (Hget : forall k m', owner k = Some m' ->
    dget k (ddels (page_keys_of m (resident_pages st1)) (resident_pages st1))
    = if decide (m' = m) then None else dget k (resident_pages st1)).
  { intros k m' Ho. rewrite dget_ddels by done. pose proof (elem_of_page_keys_of m _ k Hnd1) as Hin.
    destruct (dget k (resident_pages st1)) as [p|] eqn:Hk; [|by repeat case_decide].
    destruct (Hpage k m' p Ho Hk) as [Hm _]. repeat case_decide; naive_solver. }
  assert (Hw : well_keyed (ddels (page_keys_of m (resident_pages st1)) (resident_pages st1))) by by apply ddels_well_keyed.
  split; simpl; fold (ddels (page_keys_of m (resident_pages st1)) (resident_pages st1)); [apply Hw|done|apply Hw|..].
  - intros k m' p Ho. rewrite (Hget k m' Ho). case_decide; [done|]. intros Hk. destruct (Hpage k m' p Ho Hk) as [? Hr].
    split; [done|]. intros _. apply Hr. congruence.
  - done.
  - intros id r k m' Ho Hg Hk. destruct (Hkey id r k m' Ho Hg Hk) as (Hm & Hl & Hs). split_and!; [done..|].
    rewrite (Hget k m' Ho), decide_False; [done|]. intros ->. apply Hsub in Hg as [Hg Hn].
    by apply Hn, (Hids id r).
  - intros l. rewrite <- Htr. by destruct l.
Qed.

Lemma kv_inv_init owner : kv_inv owner init_kv.
Proof. split; simpl; try constructor; try done. by intros []. Qed.

(** The invariant of the pages that the calls of a history list once, for their model. *)
Lemma run_calls_inv owner cfg cs :
  (forall k m, owner k = Some m -> forallb (sole_page cfg k m) cs = true) -> kv_inv owner (run_calls cfg cs).
Proof.
  unfold run_calls. generalize (kv_inv_init owner). generalize init_kv.
  induction cs as [|c cs IH]; intros st Hi Hcs; [done|]. cbn [fold_left]. apply IH.
  - assert (Hc : forall k m, owner k = Some m -> sole_page cfg k m c = true).
    { intros k m Ho. specialize (Hcs k m Ho). cbn [forallb] in Hcs. by apply andb_true_iff in Hcs as [? _]. }
    destruct c as [ts m tokens mt l|ts id|m]; cbn [run_call].
    + destruct (reserve cfg ts m tokens mt l st) as [[st' rs]|] eqn:Hr; [|done].
      destruct (page_keys_for cfg m tokens) as [keys|] eqn:Hk; [|unfold reserve in Hr; by rewrite Hk in Hr].
      eapply kv_inv_reserve; [done|exact Hk| |exact Hr]. intros k m' Ho Hin%listed_pos.
      specialize (Hc k m' Ho). cbn [sole_page] in Hc. rewrite Hk in Hc. destruct (listed k keys) as [|n]; [lia|].
      apply andb_true_iff in Hc as [->%Nat.eqb_eq ->%String.eqb_eq]. done.
    + by apply kv_inv_release.
    + by apply kv_inv_unregister.
  - intros k m Ho. specialize (Hcs k m Ho). cbn [forallb] in Hcs. by apply andb_true_iff in Hcs as [_ ?].
Qed.

(** What holds after any calls: no condition on their pages. *)
Lemma run_calls_plain cfg cs : kv_inv (fun _ => None) (run_calls cfg cs).
Proof. by apply run_calls_inv. Qed.

(** ** Properties *)

(** C4. Residency accounting.  After any reservations, releases and unregistrations, the
    transient counters are the decode pages of the lane's active reservations, never
    truncated at zero.  And a page that no prompt of the history lists twice, and that is
    of one model's prompts only, is counted exactly: its reference count is the number of
    active reservations that hold it; so, while one holds it, the page is resident, under
    its own model, and pinned by a positive count that eviction respects.  (For a page
    that one prompt repeats this fails: [repeated_page_evicted_in_use].) *)
Theorem reserved_pages_stay_resident (cfg : kv_config) (cs : list kv_call) :
  let st := run_calls cfg cs in
  (forall l, transient_pages l st = held_decode_pages l (active_reservations st))
  /\ forall k m, forallb (sole_page cfg k m) cs = true ->
       (forall id r, dget id (active_reservations st) = Some r -> k ∈ ar_prompt_page_keys r ->
          exists p, dget k (resident_pages st) = Some p /\ 1 <= pg_ref_count p
                    /\ pg_model p = ar_model r /\ ar_model r = m)
       /\ (forall p, dget k (resident_pages st) = Some p ->
             pg_ref_count p = holders k (active_reservations st)).
Proof.
  cbv zeta. split; [apply (run_calls_plain cfg cs)|]. intros k m Hcs.
  set (owner k' := if decide (k' = k) then Some m else None).
  assert (Ho : owner k = Some m) by (unfold owner; by rewrite decide_True).
  assert (Hi : kv_inv owner (run_calls cfg cs)).
  { apply run_calls_inv. intros k' m'. unfold owner. case_decide; [by intros [= <-]; subst|done]. }
  assert (Hcount : forall p, dget k (resident_pages (run_calls cfg cs)) = Some p ->
    pg_model p = m /\ pg_ref_count p = holders k (active_reservations (run_calls cfg cs))).
  { intros p Hp. destruct (ki_page _ _ _ Hi _ _ _ Ho Hp) as [? Hr]. auto. }
  split; [|intros p Hp; by destruct (Hcount p Hp)].
  intros id r Hg Hk. destruct (ki_ar_key _ _ _ Hi _ _ _ _ Ho Hg Hk) as (Hm & _ & p & Hp). exists p.
  destruct (Hcount p Hp) as [Hpm ->]. split_and!; [done| |congruence|done]. by eapply holders_pos.
Qed.

Definition sample_cfg : kv_config := init_kv_config 2 (Some 4).

(** Two reservations share a page; the first is released. *)
Definition sample_calls : list kv_call :=
  [ KReserve (f_of_Z 1) "m" [1; 2; 3] 2 Prefill; KReserve (f_of_Z 2) "m" [1; 2] 1 Decode;
    KRelease (f_of_Z 3) (Some "kv-1"%string) ].

Lemma reserved_pages_stay_resident_witness :
  exists k, page_keys_for sample_cfg "m" [1; 2] = Some [k]
  /\ (exists r, dget "kv-2"%string (active_reservations (run_calls sample_cfg sample_calls)) = Some r
                /\ ar_prompt_page_keys r = [k])
  /\ exists p, dget k (resident_pages (run_calls sample_cfg sample_calls)) = Some p /\ pg_ref_count p = 1.
Proof.
  destruct (page_keys_for sample_cfg "m" [1; 2]) as [[|k [|]]|] eqn:Hk;
    [apply (f_equal (fmap length)) in Hk; vm_compute in Hk; discriminate Hk| |apply (f_equal (fmap length)) in Hk; vm_compute in Hk; discriminate Hk
    |apply (f_equal (fmap length)) in Hk; vm_compute in Hk; discriminate Hk].
  exists k. split; [reflexivity|].
  assert (Hc : match page_keys_for sample_cfg "m" [1; 2] with Some [k] => forallb (sole_page sample_cfg k "m") sample_calls | _ => false end = true)
    by (vm_compute; reflexivity).
  assert (Hr : match dget "kv-2"%string (active_reservations (run_calls sample_cfg sample_calls)) with
               | Some r => bool_decide (Some (ar_prompt_page_keys r) = page_keys_for sample_cfg "m" [1; 2])
               | None => false end = true) by (vm_compute; reflexivity).
  assert (Hh : match page_keys_for sample_cfg "m" [1; 2] with Some [k] => holders k (active_reservations (run_calls sample_cfg sample_calls)) | _ => 0 end = 1)
    by (vm_compute; reflexivity).
  rewrite Hk in Hc, Hr, Hh.
  destruct (dget "kv-2"%string (active_reservations (run_calls sample_cfg sample_calls))) as [r|] eqn:Hg; [|discriminate Hr].
  apply bool_decide_eq_true in Hr. injection Hr as Hr.
  split; [exists r; split; [reflexivity|exact Hr]|].
  destruct (reserved_pages_stay_resident sample_cfg sample_calls) as [_ H]. destruct (H k "m"%string Hc) as [Hin Hcount].
  destruct (Hin "kv-2"%string r Hg) as (p & Hp & _); [rewrite Hr; by left|].
  exists p. split; [exact Hp|]. rewrite (Hcount p Hp). exact Hh.
Defined.

Lemma countb_perm {A} (f : A -> bool) (l l' : list A) : l ≡ₚ l' -> countb f l = countb f l'.
Proof. induction 1; autorewrite with countb; lia. Qed.

Lemma victims_length cfg needed limit st :
  max_pages cfg = Some limit ->
  Z.of_nat (length (victims cfg needed st))
  = Z.min (countb (fun kp => evictable (snd kp)) (resident_pages st))
          (Z.max 0 (total_pages_locked st + Z.max needed 0 - limit)).
Proof.
  intros Hm. unfold victims. rewrite Hm, length_take. unfold evictions.
  assert (Z.of_nat (length (eviction_candidates st))
          = countb (fun kp => evictable (snd kp)) (resident_pages st)) as <-; [|lia].
  unfold eviction_candidates. rewrite sort_candidates_perm. unfold countb.
  induction (resident_pages st) as [|[k p] d IH]; simpl; [done|].
  unfold evictable at 1. simpl. case_if; simpl; lia.
Qed.

Lemma length_ddels keys : forall pages,
  NoDup (dkeys pages) -> NoDup keys /\ (forall k, k ∈ keys -> k ∈ dkeys pages) ->
  Z.of_nat (length (ddels keys pages)) = Z.of_nat (length pages) - Z.of_nat (length keys).
Proof.
  unfold ddels. induction keys as [|k ks IH]; simpl; intros d Hd [Hnd Hin]; [lia|].
  apply NoDup_cons in Hnd as [Hk Hnd]. rewrite IH; [|by apply NoDup_ddel|split; [done|]].
  - pose proof (length_ddel_mem d k ltac:(apply Hin; by left)). lia.
  - intros k' Hk'. destruct (dget k' d) as [v|] eqn:Hg.
    + apply (dget_Some_key _ _ v). rewrite dget_ddel_ne; [done|]. by intros ->.
    + apply dget_None in Hg. exfalso. apply Hg, Hin. by right.
Qed.

Lemma victims_resident cfg needed st :
  well_keyed (resident_pages st) ->
  NoDup (map pg_key (victims cfg needed st))
  /\ forall k, k ∈ map pg_key (victims cfg needed st) -> k ∈ dkeys (resident_pages st).
Proof.
  intros Hw. split.
  - unfold victims. destruct (max_pages cfg); [|constructor].
    pose proof (candidates_NoDup st Hw) as H.
    rewrite <- (take_drop (evictions z needed (eviction_candidates st) st) (eviction_candidates st)), map_app in H.
    by apply NoDup_app in H as [? _].
  - intros k (p & -> & Hp)%list_elem_of_fmap. apply victims_unreferenced in Hp as [Hp _]; [|done].
    by eapply dget_Some_key.
Qed.

Lemma sorted_take_drop {A} (R : A -> A -> Prop) l n x y :
  StronglySorted R l -> x ∈ take n l -> y ∈ drop n l -> R x y.
Proof.
  intros Hs. revert n. induction Hs as [|z l Hs IH Hz]; intros [|n]; simpl;
    try (by intros ?%not_elem_of_nil); intros Hx Hy.
  apply elem_of_cons in Hx as [->|Hx]; [|by eapply IH].
  rewrite Forall_forall in Hz. apply Hz. rewrite <- (take_drop n l). apply elem_of_app. by right.
Qed.

(** Eviction is exact.  With a limit, it removes as many pages as the excess
    requires and no more than are unreferenced; every referenced page stays, no
    page changes, and a decode page goes only when no unreferenced prefill page
    is left. *)
Theorem eviction_exact (cfg : kv_config) (limit needed : Z) (l : lane) (st : kv_state)
    (Hw : well_keyed (resident_pages st)) (Hm : max_pages cfg = Some limit) :
  let st' := fst (evict_to_fit_locked cfg needed l st) in
  let evicted := snd (evict_to_fit_locked cfg needed l st) in
  evicted = Z.min (countb (fun kp => evictable (snd kp)) (resident_pages st))
                  (Z.max 0 (total_pages_locked st + Z.max needed 0 - limit))
  /\ total_pages_locked st' = total_pages_locked st - evicted
  /\ total_evicted_pages st' = total_evicted_pages st + evicted
  /\ (forall k p, dget k (resident_pages st) = Some p -> 0 < pg_ref_count p ->
        dget k (resident_pages st') = Some p)
  /\ (forall k p, dget k (resident_pages st') = Some p -> dget k (resident_pages st) = Some p)
  /\ (forall k p, dget k (resident_pages st) = Some p -> dget k (resident_pages st') = None ->
        pg_lane p = Decode ->
        forall k' q, dget k' (resident_pages st') = Some q -> pg_lane q = Prefill ->
          0 < pg_ref_count q).
Proof.
  destruct (evict_to_fit_spec cfg needed l st Hw) as (Hp & He & Ht & [Ha Hd Hpf Hc]).
  split_and!.
  - rewrite He. by apply victims_length.
  - rewrite He. unfold total_pages_locked. rewrite Hd, Hpf, Hp, length_ddels; [rewrite length_map; lia|apply Hw|].
    by apply victims_resident.
  - by rewrite He.
  - intros k p. by apply evicted_referenced.
  - intros k p. by apply evicted_subset.
  - intros k p Hk Hn Hl k' q Hq Hlq.
    destruct (decide (pg_ref_count q <= 0)) as [Hr|]; [exfalso|lia].
    rewrite dget_evicted in Hn, Hq by done. destruct (decide (k ∈ _)) as [Hin|] in Hn; [|congruence].
    destruct (decide (k' ∈ _)) as [|Hin'] in Hq; [done|]. apply Hw in Hq as Hkq. subst k'.
    assert (Hqc : q ∈ eviction_candidates st) by by apply elem_of_candidates.
    apply list_elem_of_fmap in Hin as (p' & -> & Hp').
    apply victims_unreferenced in Hp' as Hp2; [|done]. destruct Hp2 as [Hp2 _].
    rewrite Hk in Hp2. injection Hp2 as <-.
    assert (Hle : lane_le p q).
    { unfold victims in Hp', Hin'. rewrite Hm in Hp', Hin'.
      eapply sorted_take_drop; [apply sort_candidates_sorted|exact Hp'|].
      rewrite <- (take_drop (evictions limit needed (eviction_candidates st) st)) in Hqc.
      apply elem_of_app in Hqc as [Hqc|Hqc]; [|done]. exfalso. apply Hin'.
      apply list_elem_of_fmap. by exists q. }
    unfold lane_le in Hle. rewrite Hl, Hlq in Hle. simpl in Hle. lia.
Qed.

(** Three unreferenced pages and one in use, with one decode page reserved. *)
Definition sample_pages : kv_state :=
  init_kv <| resident_pages :=
    [ ("a", Build_page "m" "a" Decode 0 0 (f_of_Z 1)); ("b", Build_page "m" "b" Prefill 0 0 (f_of_Z 2));
      ("c", Build_page "m" "c" Prefill 1 0 (f_of_Z 3)); ("d", Build_page "m" "d" Decode 0 0 (f_of_Z 4)) ]%string |>
    <| active_transient_decode_pages := 1 |>.

Lemma eviction_exact_witness :
  well_keyed (resident_pages sample_pages)
  /\ snd (evict_to_fit_locked sample_cfg 1 Decode sample_pages) = 2
  /\ (exists p, dget "c"%string (resident_pages (fst (evict_to_fit_locked sample_cfg 1 Decode sample_pages)))
                = Some p)
  /\ dkeys (resident_pages (fst (evict_to_fit_locked sample_cfg 1 Decode sample_pages)))
     = ["c"; "d"]%string.
Proof.
  assert (Hw : well_keyed (resident_pages sample_pages)).
  { split; [refine (bool_decide_unpack _ _); vm_compute; exact I|]. intros k p.
    unfold dget. simpl. repeat case_decide; intros; by simplify_eq/=. }
  split; [exact Hw|].
  destruct (eviction_exact sample_cfg 4 1 Decode sample_pages Hw eq_refl) as (He & _ & _ & Hk & _).
  split; [rewrite He; reflexivity|]. split; [|reflexivity].
  eexists. by apply Hk.
Defined.

Lemma length_add_pages m l ts keys : forall pages,
  NoDup keys -> (forall k, k ∈ keys -> dget k pages = None) ->
  Z.of_nat (length (add_pages m l ts keys pages)) = Z.of_nat (length pages) + Z.of_nat (length keys).
Proof.
  unfold add_pages. induction keys as [|k ks IH]; simpl; intros pages Hnd Hn; [lia|].
  apply NoDup_cons in Hnd as [Hk Hnd]. rewrite IH; [|done|].
  - rewrite dset_new by by apply dget_None, Hn; left. rewrite length_app. simpl. lia.
  - intros k' Hk'. rewrite dget_dset_ne; [apply Hn; by right|]. by intros ->.
Qed.

(** When the target is out of reach, eviction has taken every candidate. *)
Lemma evicted_all cfg limit needed l st k p :
  well_keyed (resident_pages st) -> max_pages cfg = Some limit ->
  let st' := fst (evict_to_fit_locked cfg needed l st) in
  limit < total_pages_locked st' + Z.max needed 0 ->
  dget k (resident_pages st') = Some p -> 0 < pg_ref_count p.
Proof.
  intros Hw Hm st' Hlt Hg. destruct (decide (pg_ref_count p <= 0)) as [Hr|]; [exfalso|lia].
  destruct (eviction_exact cfg limit needed l st Hw Hm) as (He & Ht & _).
  fold st' in Ht. destruct (evict_to_fit_spec cfg needed l st Hw) as (_ & Hlen & _).
  subst st'. rewrite dget_evicted in Hg by done.
  destruct (decide (k ∈ _)) as [|Hn] in Hg; [done|]. apply Hn.
  assert (Hc : p ∈ eviction_candidates st).
  { apply elem_of_candidates; [done|]. apply Hw in Hg as Hk. by subst k. }
  apply Hw in Hg as <-. apply list_elem_of_fmap. exists p. split; [done|].
  unfold victims in *. rewrite Hm in *. rewrite take_ge; [done|].
  rewrite length_take in Hlen. unfold evictions in *. lia.
Qed.

(** A reservation is charged exactly its overflow.  With a limit, the
    manager either fits the reservation, or reports precisely the excess, and
    then everything still resident is in use: nothing more could be evicted. *)
Theorem reserve_overflow_exact (cfg : kv_config) (cs : list kv_call) (limit : Z) (ts : f64)
    (m : string) (tokens : list Z) (mt : Z) (l : lane) (keys : list string)
    (st' : kv_state) (rs : reservation) :
  let st := run_calls cfg cs in
  max_pages cfg = Some limit ->
  page_keys_for cfg m tokens = Some keys -> NoDup keys ->
  reserve cfg ts m tokens mt l st = Some (st', rs) ->
  (rs_overflow_pages rs = 0 /\ total_pages_locked st' <= limit)
  \/ (0 < rs_overflow_pages rs /\ total_pages_locked st' = limit + rs_overflow_pages rs
      /\ forall k p, dget k (resident_pages st') = Some p -> 0 < pg_ref_count p).
Proof.
  cbv zeta. pose proof (run_calls_plain cfg cs) as Hi. revert Hi. generalize (run_calls cfg cs) as st.
  intros st Hi Hm Hkeys Hnd Hr.
  apply reserve_effect in Hr as (keys' & pages & nk & ru & Hk' & Ht & Hp & _ & Hd & Hpf & _ & _ & Ho).
  rewrite Hkeys in Hk'. injection Hk' as <-. rewrite Hm in Ho. rewrite Ho.
  destruct (touch_pages_spec _ _ _ _ _ _ _ Ht) as (Hks & Hwk & Hget & Hnew & Hnn). specialize (Hnn Hnd).
  set (st1 := (st <| reservation_counter ::= N.succ |> <| resident_pages := pages |>)) in *.
  set (n := decode_pages_for cfg mt) in *. pose proof (decode_pages_pos cfg mt : 1 <= n) as Hn.
  assert (Hw1 : well_keyed (resident_pages st1)) by apply Hwk, (kv_inv_well_keyed _ _ _ Hi).
  set (needed := Z.of_nat (length nk) + n) in *.
  set (st2 := fst (evict_to_fit_locked cfg needed l st1)) in *.
  destruct (evict_to_fit_spec cfg needed l st1 Hw1) as (_ & _ & _ & [_ Ed Ep _]).
  assert (Htot : total_pages_locked st' = total_pages_locked st2 + needed).
  { unfold total_pages_locked. rewrite Hd, Hpf, Hp, length_add_pages; [|done|].
    - unfold lane_pages, needed. destruct l; simpl; lia.
    - intros k [Hk Hg]%Hnew. destruct (dget k (resident_pages st2)) eqn:H2; [|done].
      apply evicted_subset in H2; [|done]. simpl in H2.
      rewrite (Hget k (NoDup_listed _ _ Hnd)), Hg in H2. by case_decide. }
  destruct (decide (total_pages_locked st' <= limit)); [left; lia|right].
  split_and!; [lia..|]. intros k p. rewrite Hp.
  destruct (add_pages_spec m l ts nk (resident_pages st2)) as [_ ->]; [by apply evicted_well_keyed|].
  case_decide; [by intros [= <-]|]. intros Hg.
  eapply (evicted_all cfg limit needed l st1 k p Hw1 Hm); [fold st2; lia|exact Hg].
Qed.

Lemma reserve_overflow_exact_witness :
  exists st' rs, reserve sample_cfg (f_of_Z 1) "m" [1; 2; 3] 7 Decode init_kv = Some (st', rs)
  /\ total_pages_locked st' = 6
  /\ forall k p, dget k (resident_pages st') = Some p -> 0 < pg_ref_count p.
Proof.
  assert (Hc : match reserve sample_cfg (f_of_Z 1) "m" [1; 2; 3] 7 Decode init_kv with
               | Some (st', rs) => rs_overflow_pages rs
               | None => 0
               end = 2) by (vm_compute; reflexivity).
  assert (Hd : match page_keys_for sample_cfg "m" [1; 2; 3] with Some ks => bool_decide (NoDup ks) | None => false end = true)
    by (vm_compute; reflexivity).
  destruct (reserve sample_cfg (f_of_Z 1) "m" [1; 2; 3] 7 Decode init_kv) as [[st' rs]|] eqn:Hr;
    [|discriminate Hc].
  destruct (page_keys_for sample_cfg "m" [1; 2; 3]) as [keys|] eqn:Hk; [|discriminate Hd].
  apply bool_decide_eq_true in Hd.
  exists st', rs. split; [reflexivity|].
  destruct (reserve_overflow_exact sample_cfg [] 4 _ _ _ _ _ keys st' rs
    eq_refl Hk Hd Hr) as [[H0 _]|(_ & Ht & Hp)]; [rewrite Hc in H0; discriminate H0|].
  split; [rewrite Ht, Hc; reflexivity|exact Hp].
Defined.

(** Releasing is exact and idempotent.  A release removes its own
    reservation and no other, and a second release of the same reservation,
    at any later time, changes nothing. *)
Theorem release_exactly_once (cfg : kv_config) (cs : list kv_call) (ts ts' : f64) (id : string) :
  let st := run_calls cfg cs in
  let st' := release cfg ts (Some id) st in
  dget id (active_reservations st') = None
  /\ (forall id', id' <> id -> dget id' (active_reservations st') = dget id' (active_reservations st))
  /\ release cfg ts' (Some id) st' = st'.
Proof.
  cbv zeta. pose proof (run_calls_plain cfg cs) as Hi. revert Hi. generalize (run_calls cfg cs) as st. intros st Hi.
  set (st' := release cfg ts (Some id) st).
  assert (Ha : active_reservations st' = ddel id (active_reservations st)).
  { subst st'. unfold release. destruct (dget id (active_reservations st)) as [r|] eqn:Hg;
      [|by rewrite ddel_None].
    pose proof (kv_inv_well_keyed _ _ _ Hi) as Hw.
    destruct (drop_transient_same r (st <| active_reservations ::= ddel id |>)) as (Hp & Had & _).
    set (st1 := drop_transient _ _) in *. change (resident_pages st1 = resident_pages st) in Hp.
    set (st2 := (st1 <| resident_pages ::= _ |>)).
    assert (Hw2 : well_keyed (resident_pages st2)).
    { subst st2. simpl. rewrite Hp. by apply release_pages_spec. }
    destruct (evict_to_fit_spec cfg 0 Decode st2 Hw2) as (_ & _ & _ & [Ea _ _ _]).
    rewrite Ea. exact Had. }
  split_and!.
  - rewrite Ha. apply dget_ddel_eq, Hi.
  - intros id' Hne. rewrite Ha. by apply dget_ddel_ne.
  - unfold release at 1. rewrite Ha, dget_ddel_eq by apply Hi. done.
Qed.

(** The pages that an active reservation holds and that are no longer resident. *)
Definition lost_pages (id : string) (st : kv_state) : list string :=
  match dget id (active_reservations st) with
  | Some r => List.filter (fun k => negb (dmem k (resident_pages st))) (ar_prompt_page_keys r)
  | None => []
  end.

(** A prompt of two identical one-token pages shares its page with a second
    reservation; the first is released and a third one needs room. *)
Definition repeated_page_calls : list kv_call :=
  [ KReserve (f_of_Z 1) "m" [5; 5] 1 Decode; KReserve (f_of_Z 2) "m" [5] 1 Decode;
    KRelease (f_of_Z 3) (Some "kv-1"%string); KReserve (f_of_Z 4) "m" [6] 1 Decode ].

(** The accounting is wrong for a prompt that repeats a page.  The page is
    counted once when it is created and twice when it is released, so the count
    reaches zero under a second reservation that still holds it, and eviction
    takes the page of an active reservation. *)
Theorem repeated_page_evicted_in_use :
  length (lost_pages "kv-2" (run_calls (init_kv_config 1 (Some 3)) repeated_page_calls)) = 1%nat.
Proof. vm_compute. reflexivity. Qed.
