(* ===== verification/Frontier.v ===== *)
(** Continuous batching: [FrontierBatchScheduler] of
    src/src/lewlm/runtime/scheduler.py.

    Requests of one key wait in a batch state for a short window; a drain task
    per state takes them in batches.  Batch states and tasks are objects with
    identity, so the system is a store: [fs_objects] and [fs_tasks] are indexed
    by allocation number and [fs_states] is [self._states].  Every section under
    [self._lock] contains no [await], so it is one atomic step; a drain task is
    suspended only between the phases of [drain_phase].  The executor
    [execute_batch] is the caller's: its outcome is an argument of the step. *)

From stdpp Require Import sorting.
From S2P Require Import Prelude PyFloat Scheduler.

Open Scope Z_scope.

Section frontier.
Context {Payload Result Exc : Type}.

(** [FrontierBatchMetrics]. *)
Record frontier_metrics := {
  fm_batch_size : Z;
  fm_batch_position : Z;
  fm_batch_utilization : f64;
  fm_queue_delay_seconds : f64;
  fm_batch_window_milliseconds : Z;
  fm_max_batch_size : Z
}.

(** [FrontierBatchResult]. *)
Record batch_result := { br_value : Result; br_metrics : frontier_metrics }.

(** What a failed batch sets on its futures: the executor's exception, or the
    [ValueError] about the number of results. *)
Inductive batch_error :=
| ExecutorRaised (e : Exc)
| WrongResultCount (expected received : Z).

Inductive batch_future :=
| BPending
| BResult (r : batch_result)
| BException (e : batch_error)
| BCancelled.

Definition batch_future_done (f : batch_future) : bool :=
  match f with BPending => false | _ => true end.

(** [_PendingFrontierBatchItem]; the future is named by its allocation number. *)
Record pending_item := { pi_payload : Payload; pi_enqueued_at : f64; pi_future : nat }.

(** [_FrontierBatchState]. *)
Record batch_state := {
  bs_queue : list pending_item;
  bs_task : option nat;
  bs_wake_event : bool
}.

#[export] Instance batch_state_eta : Eta batch_state := fun r =>
  Build_batch_state (bs_queue r) (bs_task r) (bs_wake_event r).

(** Where a drain task is suspended: before [_wait_for_window], inside its
    [wait_for], before [_take_batch], awaiting [execute_batch], before the
    [finally] clause, finished. *)
Inductive drain_phase :=
| DWait
| DWindow (milliseconds : Z)
| DTake
| DExec (items : list pending_item) (metrics : list frontier_metrics)
| DFinally
| DDone.

Record drain_task := { dt_key : string; dt_state : nat; dt_phase : drain_phase }.

#[export] Instance drain_task_eta : Eta drain_task := fun r =>
  Build_drain_task (dt_key r) (dt_state r) (dt_phase r).

(** The scheduler with its heap.  [fs_lost] is a history variable: the requests
    of batches whose execution was cancelled. *)
Record fsystem := {
  fs_states : list (string * nat);
  fs_objects : list batch_state;
  fs_tasks : list drain_task;
  fs_futures : list batch_future;
  fs_runtime : scheduler;
  fs_lost : list nat
}.

#[export] Instance fsystem_eta : Eta fsystem := fun r =>
  Build_fsystem (fs_states r) (fs_objects r) (fs_tasks r) (fs_futures r) (fs_runtime r) (fs_lost r).

Record frontier_config := { batch_window_milliseconds : Z; max_batch_size : Z }.

(** [__init__]. *)
Definition init_frontier_config (window batch : Z) : frontier_config :=
  {| batch_window_milliseconds := Z.max 1 window; max_batch_size := Z.max 1 batch |}.

Definition init_fsystem (rt : scheduler) : fsystem := Build_fsystem [] [] [] [] rt [].

Definition full (cfg : frontier_config) (q : list pending_item) : bool :=
  max_batch_size cfg <=? Z.of_nat (length q).

Definition task_done (s : fsystem) (task : option nat) : bool :=
  match task with
  | None => true
  | Some tid => match fs_tasks s !! tid with
                | Some t => match dt_phase t with DDone => true | _ => false end
                | None => true
                end
  end.

(** [asyncio.create_task(self._drain(...))] for the state object [sid]. *)
Definition spawn_drain (key : string) (sid : nat) (s : fsystem) : fsystem :=
  let tid := length (fs_tasks s) in
  s <| fs_tasks ::= fun ts => ts ++ [ {| dt_key := key; dt_state := sid; dt_phase := DWait |} ] |>
    <| fs_objects ::= alter (fun o => o <| bs_task := Some tid |>) sid |>.

Definition find_state (key : string) (s : fsystem) : nat * fsystem :=
  match dget key (fs_states s) with
  | Some sid => (sid, s)
  | None =>
      let sid := length (fs_objects s) in
      (sid, s <| fs_objects ::= fun os => os ++ [Build_batch_state [] None false] |>
              <| fs_states ::= dset key sid |>)
  end.

Definition object (s : fsystem) (sid : nat) : batch_state :=
  default (Build_batch_state [] None false) (fs_objects s !! sid).

(** [enqueue] up to its [await future]; the caller then waits for the future
    returned. *)
Definition enqueue (cfg : frontier_config) (key : string) (payload : Payload) (now : f64)
    (s : fsystem) : fsystem * nat :=
  let future := length (fs_futures s) in
  let s := s <| fs_futures ::= fun fs => fs ++ [BPending] |> in
  let '(sid, s) := find_state key s in
  let item := {| pi_payload := payload; pi_enqueued_at := now; pi_future := future |} in
  let s := s <| fs_objects ::= alter (fun o => o <| bs_queue ::= fun q => q ++ [item] |>) sid |> in
  let s := if task_done s (bs_task (object s sid)) then spawn_drain key sid s else s in
  let s := if full cfg (bs_queue (object s sid))
           then s <| fs_objects ::= alter (fun o => o <| bs_wake_event := true |>) sid |> else s in
  (s, future).

(** [_effective_batch_window_milliseconds]: an idle runtime halves the window
    of a lone request. *)
Definition effective_batch_window_milliseconds (cfg : frontier_config) (rt : scheduler)
    (queue_depth : Z) : Z :=
  if queue_depth <=? 1 then
    if ((active_requests rt =? 0) && (queued_requests rt =? 0))%bool
    then Z.max 1 (batch_window_milliseconds cfg / 2)
    else batch_window_milliseconds cfg
  else batch_window_milliseconds cfg.

(** The locked section of [_wait_for_window] and what the task waits for next. *)
Definition wait_for_window (cfg : frontier_config) (rt : scheduler) (o : batch_state)
    : batch_state * drain_phase :=
  match bs_queue o with
  | [] => (o, DTake)
  | q =>
      let o := o <| bs_wake_event := false |> in
      if full cfg q then (o, DTake)
      else (o, DWindow (effective_batch_window_milliseconds cfg rt (Z.of_nat (length q))))
  end.

(** [_take_batch]. *)
Definition take_batch (cfg : frontier_config) (key : string) (sid : nat) (s : fsystem)
    : fsystem * list pending_item :=
  let q := bs_queue (object s sid) in
  if (negb (bool_decide (dget key (fs_states s) = Some sid)) || bool_decide (length q = 0%nat))%bool
  then (s, [])
  else
    let n := Z.to_nat (max_batch_size cfg) in
    let s := s <| fs_objects ::= alter (fun o => o <| bs_queue ::= drop n |>) sid |> in
    let s := if full cfg (bs_queue (object s sid))
             then s <| fs_objects ::= alter (fun o => o <| bs_wake_event := true |>) sid |> else s in
    (s, take n q).

(** The metrics built for a batch, position by position. *)
Definition batch_metrics (cfg : frontier_config) (dispatched_at : f64) (items : list pending_item)
    : list frontier_metrics :=
  let size := Z.of_nat (length items) in
  imap (fun position item =>
    {| fm_batch_size := size; fm_batch_position := Z.of_nat position;
       fm_batch_utilization := f_round4 (int_truediv size (max_batch_size cfg));
       fm_queue_delay_seconds := f_round4 (fsub dispatched_at (pi_enqueued_at item));
       fm_batch_window_milliseconds := batch_window_milliseconds cfg;
       fm_max_batch_size := max_batch_size cfg |}) items.

(** Setting a future unless it is already done. *)
Definition settle (fid : nat) (f : batch_future) (fs : list batch_future) : list batch_future :=
  alter (fun old => if batch_future_done old then old else f) fid fs.

Definition fail_batch (items : list pending_item) (e : batch_error) (fs : list batch_future)
    : list batch_future :=
  fold_left (fun fs item => settle (pi_future item) (BException e) fs) items fs.

Fixpoint deliver (items : list pending_item) (values : list Result) (metrics : list frontier_metrics)
    (fs : list batch_future) : list batch_future :=
  match items, values, metrics with
  | i :: items, v :: values, m :: metrics =>
      deliver items values metrics
        (settle (pi_future i) (BResult {| br_value := v; br_metrics := m |}) fs)
  | _, _, _ => fs
  end.

(** How [await execute_batch(...)] comes back; [XCancelled] is a
    [CancelledError], which [except Exception] does not catch. *)
Inductive exec_outcome :=
| XValues (values : list Result)
| XRaises (e : Exc)
| XCancelled.

(** The body of the drain loop after [execute_batch]. *)
Definition finish_batch (cfg : frontier_config) (out : exec_outcome) (items : list pending_item)
    (metrics : list frontier_metrics) (s : fsystem) : fsystem * drain_phase :=
  match out with
  | XRaises e => (s <| fs_futures ::= fail_batch items (ExecutorRaised e) |>, DWait)
  | XValues values =>
      let size := Z.of_nat (length items) in
      if bool_decide (length values = length items) then
        (s <| fs_runtime ::= record_continuous_batch size (max_batch_size cfg)
                               (map fm_queue_delay_seconds metrics) (batch_window_milliseconds cfg) |>
           <| fs_futures ::= deliver items values metrics |>, DWait)
      else (s <| fs_futures ::= fail_batch items
                                  (WrongResultCount size (Z.of_nat (length values))) |>, DWait)
  | XCancelled => (s <| fs_lost ::= fun l => l ++ map pi_future items |>, DFinally)
  end.

(** The [finally] clause of [_drain]. *)
Definition drain_finally (key : string) (sid : nat) (s : fsystem) : fsystem :=
  if bool_decide (dget key (fs_states s) = Some sid) then
    match bs_queue (object s sid) with
    | [] => s <| fs_states ::= ddel key |>
    | _ => spawn_drain key sid s
    end
  else s.

Definition set_phase (tid : nat) (p : drain_phase) (s : fsystem) : fsystem :=
  s <| fs_tasks ::= alter (fun t => t <| dt_phase := p |>) tid |>.

(** One resumption of a drain task, up to its next suspension. *)
Definition resume (cfg : frontier_config) (tid : nat) (now : f64) (out : exec_outcome) (s : fsystem)
    : fsystem :=
  match fs_tasks s !! tid with
  | None => s
  | Some t =>
      let key := dt_key t in
      let sid := dt_state t in
      match dt_phase t with
      | DWait =>
          let '(o, p) := wait_for_window cfg (fs_runtime s) (object s sid) in
          set_phase tid p (s <| fs_objects ::= alter (fun _ => o) sid |>)
      | DWindow _ => set_phase tid DTake s
      | DTake =>
          let '(s, items) := take_batch cfg key sid s in
          match items with
          | [] => set_phase tid DFinally s
          | _ => set_phase tid (DExec items (batch_metrics cfg now items)) s
          end
      | DExec items metrics =>
          let '(s, p) := finish_batch cfg out items metrics s in set_phase tid p s
      | DFinally => set_phase tid DDone (drain_finally key sid s)
      | DDone => s
      end
  end.

(** The events: a request arrives, a drain task runs on, a waiting caller is
    cancelled (which cancels its future), the shared scheduler moves. *)
Inductive fstep (cfg : frontier_config) (s : fsystem) : fsystem -> Prop :=
| fstep_enqueue key payload now : fstep cfg s (fst (enqueue cfg key payload now s))
| fstep_resume tid now out : fstep cfg s (resume cfg tid now out s)
| fstep_cancel fid : fstep cfg s (s <| fs_futures ::= settle fid BCancelled |>)
| fstep_runtime rt : fstep cfg s (s <| fs_runtime := rt |>).

Definition freachable (cfg : frontier_config) (rt : scheduler) (s : fsystem) : Prop :=
  rtc (fstep cfg) (init_fsystem rt) s.

(** ** The invariant *)

Definition live (t : drain_task) : Prop := dt_phase t <> DDone.

Definition exec_ids (p : drain_phase) : list nat :=
  match p with DExec items _ => map pi_future items | _ => [] end.

Definition queue_ids (o : batch_state) : list nat := map pi_future (bs_queue o).

Definition task_phase (s : fsystem) (task : option nat) : drain_phase :=
  match task with
  | None => DDone
  | Some tid => match fs_tasks s !! tid with Some t => dt_phase t | None => DDone end
  end.

(** The requests of a state object in service order: those its drain task is
    executing, then the queued ones. *)
Definition chain (s : fsystem) (o : batch_state) : list nat :=
  exec_ids (task_phase s (bs_task o)) ++ queue_ids o.

Definition batch_ok (cfg : frontier_config) (p : drain_phase) : Prop :=
  match p with
  | DExec items metrics => (1 <= length items <= Z.to_nat (max_batch_size cfg))%nat
                           /\ length metrics = length items
  | _ => True
  end.

Record finv (cfg : frontier_config) (s : fsystem) : Prop := {
  fi_nodup : NoDup (dkeys (fs_states s));
  fi_registered : forall key sid, dget key (fs_states s) = Some sid -> exists o tid t,
    fs_objects s !! sid = Some o /\ bs_task o = Some tid /\ fs_tasks s !! tid = Some t
    /\ live t /\ dt_key t = key /\ dt_state t = sid;
  fi_live : forall tid t, fs_tasks s !! tid = Some t -> live t ->
    dget (dt_key t) (fs_states s) = Some (dt_state t)
    /\ exists o, fs_objects s !! dt_state t = Some o /\ bs_task o = Some tid;
  fi_queued : forall sid o, fs_objects s !! sid = Some o -> bs_queue o <> [] ->
    exists key, dget key (fs_states s) = Some sid;
  fi_task : forall sid o tid, fs_objects s !! sid = Some o -> bs_task o = Some tid ->
    exists t, fs_tasks s !! tid = Some t /\ dt_state t = sid;
  fi_chain : forall sid o, fs_objects s !! sid = Some o ->
    StronglySorted lt (chain s o) /\ Forall (fun fid => fid < length (fs_futures s))%nat (chain s o);
  fi_disjoint : forall sid1 sid2 o1 o2 fid,
    fs_objects s !! sid1 = Some o1 -> fs_objects s !! sid2 = Some o2 ->
    fid ∈ chain s o1 -> fid ∈ chain s o2 -> sid1 = sid2;
  fi_pending : forall fid, fs_futures s !! fid = Some BPending ->
    fid ∈ fs_lost s \/ exists sid o, fs_objects s !! sid = Some o /\ fid ∈ chain s o;
  fi_batch : forall tid t, fs_tasks s !! tid = Some t -> batch_ok cfg (dt_phase t)
}.

(** One drain task moves on: its phase and its state object change, futures are
    settled, and its chain loses a prefix. *)
Definition moved (sid tid : nat) (o' : batch_state) (t' : drain_task) (futures' : list batch_future)
    (lost' : list nat) (rt' : scheduler) (s : fsystem) : fsystem :=
  Build_fsystem (fs_states s) (<[sid := o']> (fs_objects s)) (<[tid := t']> (fs_tasks s)) futures'
    rt' lost'.

Lemma chain_moved_eq sid tid o' t' futures' lost' rt' s :
  (tid < length (fs_tasks s))%nat -> bs_task o' = Some tid ->
  chain (moved sid tid o' t' futures' lost' rt' s) o' = exec_ids (dt_phase t') ++ queue_ids o'.
Proof.
  intros Ht Ho. unfold chain, task_phase. rewrite Ho. simpl. by rewrite list_lookup_insert_eq.
Qed.

Lemma chain_moved_ne sid tid o' t' futures' lost' rt' s o :
  bs_task o <> Some tid -> chain (moved sid tid o' t' futures' lost' rt' s) o = chain s o.
Proof.
  intros Hne. unfold chain, task_phase. destruct (bs_task o) as [tid'|]; [|done]. simpl.
  rewrite list_lookup_insert_ne; [done|congruence].
Qed.

Lemma insert_cases {A} (l : list A) i j x y :
  (i < length l)%nat -> <[i := x]> l !! j = Some y -> (j = i /\ y = x) \/ (j <> i /\ l !! j = Some y).
Proof.
  intros Hi. destruct (decide (j = i)) as [->|Hne].
  - rewrite list_lookup_insert_eq by done. intros [= <-]. by left.
  - rewrite list_lookup_insert_ne by done. by right.
Qed.

Lemma finv_moved cfg s sid tid o t o' t' futures' lost' rt' pre :
  finv cfg s -> fs_tasks s !! tid = Some t -> live t -> dt_state t = sid ->
  fs_objects s !! sid = Some o -> bs_task o = Some tid -> bs_task o' = Some tid ->
  dt_key t' = dt_key t -> dt_state t' = sid -> live t' -> batch_ok cfg (dt_phase t') ->
  exec_ids (dt_phase t) ++ queue_ids o = pre ++ exec_ids (dt_phase t') ++ queue_ids o' ->
  length futures' = length (fs_futures s) ->
  (forall fid, futures' !! fid = Some BPending ->
     fs_futures s !! fid = Some BPending /\ (fid ∈ pre -> fid ∈ lost')) ->
  (forall fid, fid ∈ fs_lost s -> fid ∈ lost') ->
  finv cfg (moved sid tid o' t' futures' lost' rt' s).
Proof.
  intros Hi Ht Hl Hsid Ho Hbt Hbt' Hk' Hs' Hl' Hb' Hch Hlen Hpend Hlost.
  set (s' := moved _ _ _ _ _ _ _ _).
  assert (Htl : (tid < length (fs_tasks s))%nat) by by eapply lookup_lt_Some.
  assert (Hol : (sid < length (fs_objects s))%nat) by by eapply lookup_lt_Some.
  assert (Hobj : forall sid' o1, fs_objects s' !! sid' = Some o1 ->
    (sid' = sid /\ o1 = o') \/ (sid' <> sid /\ fs_objects s !! sid' = Some o1 /\ bs_task o1 <> Some tid)).
  { intros sid' o1 [[Hx Hy]|[Hx Hy]]%(insert_cases _ _ _ _ _ Hol); [by left|right]. split_and!; [done..|].
    intros Hb. destruct (fi_task _ _ Hi _ _ _ Hy Hb) as (t1 & Ht1 & Hd1). congruence. }
  pose proof (fun tid' t1 => insert_cases (fs_tasks s) tid tid' t' t1 Htl) as Htask.
  assert (Hco : chain s o = pre ++ chain s' o').
  { unfold s'. rewrite chain_moved_eq by done. unfold chain, task_phase. by rewrite Hbt, Ht. }
  assert (Hcn : forall o1, bs_task o1 <> Some tid -> chain s' o1 = chain s o1)
    by (intros; by apply chain_moved_ne).
  split.
  - apply Hi.
  - intros key sid1 Hg. destruct (fi_registered _ _ Hi _ _ Hg) as (o1 & tid1 & t1 & H1 & H2 & H3 & H4 & H5 & H6).
    destruct (decide (sid1 = sid)) as [->|Hne].
    + exists o', tid, t'. simpl. rewrite !list_lookup_insert_eq by done. split_and!; try done. congruence.
    + exists o1, tid1, t1. simpl. rewrite list_lookup_insert_ne by done.
      rewrite list_lookup_insert_ne; [done|]. intros ->. congruence.
  - intros tid1 t1 [[-> ->]|[Hne H1]]%Htask Hl1.
    + rewrite Hk', Hs'. destruct (fi_live _ _ Hi _ _ Ht Hl) as [Hg _]. rewrite Hsid in Hg.
      split; [done|]. exists o'. simpl. by rewrite list_lookup_insert_eq.
    + destruct (fi_live _ _ Hi _ _ H1 Hl1) as [Hg (o1 & Ho1 & Hb1)]. split; [done|].
      exists o1. simpl. rewrite list_lookup_insert_ne; [done|]. congruence.
  - intros sid1 o1 [[-> ->]|(Hne & H1 & _)]%Hobj Hq.
    + exists (dt_key t). destruct (fi_live _ _ Hi _ _ Ht Hl) as [Hg _]. by rewrite Hsid in Hg.
    + exact (fi_queued _ _ Hi _ _ H1 Hq).
  - intros sid1 o1 tid1 [[-> ->]|(Hne & H1 & H2)]%Hobj Hb.
    + exists t'. simpl. assert (tid1 = tid) as -> by congruence. by rewrite list_lookup_insert_eq.
    + destruct (fi_task _ _ Hi _ _ _ H1 Hb) as (t1 & Ht1 & Hd1). exists t1. simpl.
      rewrite list_lookup_insert_ne; [done|]. congruence.
  - intros sid1 o1 [[-> ->]|(Hne & H1 & H2)]%Hobj; simpl; rewrite Hlen.
    + destruct (fi_chain _ _ Hi _ _ Ho) as [Hs Hf]. rewrite Hco in Hs, Hf.
      apply StronglySorted_app in Hs as (_ & _ & Hs). by apply Forall_app in Hf as [_ Hf].
    + rewrite Hcn by done. by eapply fi_chain.
  - intros sid1 sid2 o1 o2 fid H1 H2 Hf1 Hf2.
    assert (Hin : forall sid3 o3, fs_objects s' !! sid3 = Some o3 -> fid ∈ chain s' o3 ->
      exists o4, fs_objects s !! sid3 = Some o4 /\ fid ∈ chain s o4).
    { intros sid3 o3 [[-> ->]|(Hne & H3 & H4)]%Hobj Hf.
      - exists o. split; [done|]. rewrite Hco. apply elem_of_app. by right.
      - exists o3. split; [done|]. by rewrite <- Hcn. }
    destruct (Hin _ _ H1 Hf1) as (o3 & H3 & Hf3), (Hin _ _ H2 Hf2) as (o4 & H4 & Hf4).
    by eapply (fi_disjoint _ _ Hi).
  - intros fid [Hp Hpre]%Hpend. destruct (fi_pending _ _ Hi _ Hp) as [Hin|(sid1 & o1 & H1 & Hin)].
    { left. by apply Hlost. }
    destruct (decide (sid1 = sid)) as [->|Hne].
    + assert (o1 = o) as -> by congruence. rewrite Hco in Hin. apply elem_of_app in Hin as [Hin|Hin].
      * left. by apply Hpre.
      * right. exists sid, o'. simpl. by rewrite list_lookup_insert_eq.
    + right. exists sid1, o1. simpl. rewrite list_lookup_insert_ne by done. split; [done|].
      rewrite Hcn; [done|]. intros Hb. destruct (fi_task _ _ Hi _ _ _ H1 Hb) as (t1 & Ht1 & Hd1). congruence.
  - intros tid1 t1 [[-> ->]|[Hne H1]]%Htask; [done|]. by eapply fi_batch.
Qed.

(** The [finally] clause with an empty queue unregisters the state. *)
Lemma finv_pop cfg s sid tid o t :
  finv cfg s -> fs_tasks s !! tid = Some t -> dt_phase t = DFinally -> dt_state t = sid ->
  fs_objects s !! sid = Some o -> bs_task o = Some tid -> bs_queue o = [] ->
  finv cfg (Build_fsystem (ddel (dt_key t) (fs_states s)) (fs_objects s)
              (<[tid := t <| dt_phase := DDone |>]> (fs_tasks s)) (fs_futures s) (fs_runtime s) (fs_lost s)).
Proof.
  intros Hi Ht Hp Hsid Ho Hb Hq. set (s' := Build_fsystem _ _ _ _ _ _).
  assert (Htl : (tid < length (fs_tasks s))%nat) by by eapply lookup_lt_Some.
  assert (Hlive : live t) by (unfold live; by rewrite Hp).
  destruct (fi_live _ _ Hi _ _ Ht Hlive) as [Hg _]. rewrite Hsid in Hg.
  assert (Hdel : forall key sid1, dget key (ddel (dt_key t) (fs_states s)) = Some sid1 <->
    dget key (fs_states s) = Some sid1 /\ key <> dt_key t).
  { intros key sid1. destruct (decide (key = dt_key t)) as [->|Hne].
    - rewrite dget_ddel_eq by apply Hi. naive_solver.
    - rewrite dget_ddel_ne by done. naive_solver. }
  assert (Hchain : forall o1, chain s' o1 = chain s o1).
  { intros o1. unfold chain, task_phase. destruct (bs_task o1) as [tid1|]; [|done]. simpl.
    destruct (decide (tid1 = tid)) as [->|Hne].
    - by rewrite list_lookup_insert_eq, Ht, Hp.
    - by rewrite list_lookup_insert_ne. }
  pose proof (fun tid' t1 => insert_cases (fs_tasks s) tid tid' (t <| dt_phase := DDone |>) t1 Htl) as Htask.
  split.
  - apply NoDup_ddel, Hi.
  - intros key sid1 [Hg1 Hne]%Hdel.
    destruct (fi_registered _ _ Hi _ _ Hg1) as (o1 & tid1 & t1 & H1 & H2 & H3 & H4 & H5 & H6).
    exists o1, tid1, t1. simpl. rewrite list_lookup_insert_ne; [done|]. intros ->. congruence.
  - intros tid1 t1 [[-> ->]|[Hne H1]]%Htask Hl1; [by exfalso; apply Hl1|].
    destruct (fi_live _ _ Hi _ _ H1 Hl1) as [Hg1 (o1 & Ho1 & Hb1)].
    split; [|by exists o1]. apply Hdel. split; [done|]. intros Heq. rewrite Heq in Hg1.
    apply Hne. assert (dt_state t1 = sid) as Hs1 by congruence. rewrite Hs1 in Ho1. congruence.
  - intros sid1 o1 H1 Hq1. destruct (fi_queued _ _ Hi _ _ H1 Hq1) as [key Hg1]. exists key.
    apply Hdel. split; [done|]. intros ->. assert (sid1 = sid) as -> by congruence. simpl in H1. congruence.
  - intros sid1 o1 tid1 H1 Hb1. simpl. destruct (fi_task _ _ Hi _ _ _ H1 Hb1) as (t1 & Ht1 & Hd1).
    destruct (decide (tid1 = tid)) as [->|Hne].
    + eexists. rewrite list_lookup_insert_eq by done. split; [done|]. simpl. congruence.
    + exists t1. by rewrite list_lookup_insert_ne.
  - intros sid1 o1 H1. rewrite Hchain. exact (fi_chain _ _ Hi _ _ H1).
  - intros sid1 sid2 o1 o2 fid H1 H2. rewrite !Hchain. apply (fi_disjoint _ _ Hi); done.
  - intros fid Hf. destruct (fi_pending _ _ Hi _ Hf) as [|(sid1 & o1 & H1 & Hc)]; [by left|right].
    exists sid1, o1. by rewrite Hchain.
  - intros tid1 t1 [[-> ->]|[Hne H1]]%Htask; [done|]. exact (fi_batch _ _ Hi _ _ H1).
Qed.

(** A registered state gets a fresh drain task in place of a finished one. *)
Lemma finv_respawn cfg s sid tid o t :
  finv cfg s -> fs_tasks s !! tid = Some t -> dt_phase t = DFinally -> dt_state t = sid ->
  fs_objects s !! sid = Some o -> bs_task o = Some tid ->
  finv cfg (Build_fsystem (fs_states s)
              (<[sid := o <| bs_task := Some (length (fs_tasks s)) |>]> (fs_objects s))
              (<[tid := t <| dt_phase := DDone |>]> (fs_tasks s) ++ [Build_drain_task (dt_key t) sid DWait])
              (fs_futures s) (fs_runtime s) (fs_lost s)).
Proof.
  intros Hi Ht Hp Hsid Ho Hb. set (new := length (fs_tasks s)). set (s' := Build_fsystem _ _ _ _ _ _).
  assert (Htl : (tid < new)%nat) by by eapply lookup_lt_Some.
  assert (Hol : (sid < length (fs_objects s))%nat) by by eapply lookup_lt_Some.
  assert (Hlive : live t) by (unfold live; by rewrite Hp).
  destruct (fi_live _ _ Hi _ _ Ht Hlive) as [Hg _]. rewrite Hsid in Hg.
  set (o' := o <| bs_task := Some new |>).
  assert (Hobj : forall sid' o1, fs_objects s' !! sid' = Some o1 ->
    (sid' = sid /\ o1 = o') \/ (sid' <> sid /\ fs_objects s !! sid' = Some o1 /\ bs_task o1 <> Some tid)).
  { intros sid' o1 [[Hx Hy]|[Hx Hy]]%(insert_cases _ _ _ _ _ Hol); [by left|right]. split_and!; [done..|].
    intros Hb1. destruct (fi_task _ _ Hi _ _ _ Hy Hb1) as (t1 & Ht1 & Hd1). congruence. }
  assert (Hnew : fs_tasks s' !! new = Some (Build_drain_task (dt_key t) sid DWait)).
  { simpl. rewrite lookup_app_r, length_insert by (rewrite length_insert; done).
    by replace (new - length (fs_tasks s))%nat with 0%nat by (unfold new; lia). }
  assert (Hold : forall tid1, (tid1 < new)%nat ->
    fs_tasks s' !! tid1 = <[tid := t <| dt_phase := DDone |>]> (fs_tasks s) !! tid1).
  { intros tid1 Hlt. simpl. by rewrite lookup_app_l by by rewrite length_insert. }
  assert (Htask : forall tid1 t1, fs_tasks s' !! tid1 = Some t1 ->
    (tid1 = new /\ t1 = Build_drain_task (dt_key t) sid DWait)
    \/ (tid1 = tid /\ t1 = t <| dt_phase := DDone |>)
    \/ (tid1 <> tid /\ (tid1 < new)%nat /\ fs_tasks s !! tid1 = Some t1)).
  { intros tid1 t1 H1. destruct (decide (tid1 < new)%nat) as [Hlt|].
    - rewrite Hold in H1 by done. apply insert_cases in H1 as [?|[? ?]]; auto.
    - apply lookup_lt_Some in H1 as Hlt. simpl in Hlt. rewrite length_app, length_insert in Hlt.
      simpl in Hlt. assert (tid1 = new) as -> by (unfold new in *; lia). left. split; [done|congruence]. }
  assert (Hstay : forall tid1 t1, fs_tasks s !! tid1 = Some t1 -> tid1 <> tid -> fs_tasks s' !! tid1 = Some t1).
  { intros tid1 t1 H1 Hne. rewrite Hold by by eapply lookup_lt_Some. by rewrite list_lookup_insert_ne. }
  assert (Hco : chain s' o' = chain s o).
  { unfold chain, task_phase. rewrite Hb, Ht, Hp. change (bs_task o') with (Some new). cbv beta iota. by rewrite Hnew. }
  assert (Hcn : forall sid1 o1, fs_objects s !! sid1 = Some o1 -> bs_task o1 <> Some tid ->
    chain s' o1 = chain s o1).
  { intros sid1 o1 H1 Hne. unfold chain, task_phase. destruct (bs_task o1) as [tid1|] eqn:Hb1; [|done].
    destruct (fi_task _ _ Hi _ _ _ H1 Hb1) as (t1 & Ht1 & _).
    rewrite (Hstay tid1 t1), Ht1; [done|done|congruence]. }
  assert (Hsub : forall sid1 o1, fs_objects s' !! sid1 = Some o1 ->
    exists o2, fs_objects s !! sid1 = Some o2 /\ chain s' o1 = chain s o2).
  { intros sid1 o1 [[-> ->]|(Hne & H1 & H2)]%Hobj; [by exists o|]. exists o1. split; [done|]. by eapply Hcn. }
  split.
  - apply Hi.
  - intros key sid1 Hg1. destruct (fi_registered _ _ Hi _ _ Hg1) as (o1 & tid1 & t1 & H1 & H2 & H3 & H4 & H5 & H6).
    destruct (decide (sid1 = sid)) as [->|Hne].
    + exists o', new, (Build_drain_task (dt_key t) sid DWait). split; [simpl; by rewrite list_lookup_insert_eq|].
      split_and!; try done. simpl. congruence.
    + exists o1, tid1, t1. simpl. rewrite list_lookup_insert_ne by done. split_and!; try done.
      apply Hstay; [done|]. intros ->. congruence.
  - intros tid1 t1 [[-> ->]|[[-> ->]|(Hne & Hlt & H1)]]%Htask Hl1; simpl.
    + split; [done|]. exists o'. by rewrite list_lookup_insert_eq.
    + by exfalso; apply Hl1.
    + destruct (fi_live _ _ Hi _ _ H1 Hl1) as [Hg1 (o1 & Ho1 & Hb1)]. split; [done|]. exists o1.
      rewrite list_lookup_insert_ne; [done|]. congruence.
  - intros sid1 o1 [[-> ->]|(Hne & H1 & _)]%Hobj Hq1; [by exists (dt_key t)|].
    exact (fi_queued _ _ Hi _ _ H1 Hq1).
  - intros sid1 o1 tid1 [[-> ->]|(Hne & H1 & H2)]%Hobj Hb1.
    + simpl in Hb1. injection Hb1 as <-. eexists. by split; [exact Hnew|].
    + destruct (fi_task _ _ Hi _ _ _ H1 Hb1) as (t1 & Ht1 & Hd1). exists t1. split; [|done].
      apply Hstay; [done|congruence].
  - intros sid1 o1 (o2 & H2 & ->)%Hsub. exact (fi_chain _ _ Hi _ _ H2).
  - intros sid1 sid2 o1 o2 fid (o3 & H3 & ->)%Hsub (o4 & H4 & ->)%Hsub. apply (fi_disjoint _ _ Hi); done.
  - intros fid Hf. destruct (fi_pending _ _ Hi _ Hf) as [|(sid1 & o1 & H1 & Hc)]; [by left|right].
    destruct (decide (sid1 = sid)) as [->|Hne].
    + exists sid, o'. simpl. rewrite list_lookup_insert_eq by done. split; [done|]. rewrite Hco. congruence.
    + exists sid1, o1. simpl. rewrite list_lookup_insert_ne by done. split; [done|].
      rewrite (Hcn sid1); [done|done|]. intros Hb1.
      destruct (fi_task _ _ Hi _ _ _ H1 Hb1) as (t1 & Ht1 & Hd1). congruence.
  - intros tid1 t1 [[-> ->]|[[-> ->]|(Hne & Hlt & H1)]]%Htask; [done..|]. exact (fi_batch _ _ Hi _ _ H1).
Qed.

Lemma chain_snoc_lt l n : StronglySorted lt l -> Forall (fun x => x < n)%nat l ->
  StronglySorted lt (l ++ [n]) /\ Forall (fun x => x < S n)%nat (l ++ [n]).
Proof.
  intros Hs Hf. rewrite Forall_forall in Hf. split.
  - apply StronglySorted_app_2; [|done|repeat constructor].
    intros x y Hx ->%list_elem_of_singleton. by apply Hf.
  - apply Forall_app. split; [|repeat constructor]. apply Forall_forall. intros x Hx%Hf. lia.
Qed.

Lemma pending_snoc (fs : list batch_future) fid :
  (fs ++ [BPending]) !! fid = Some BPending -> fid = length fs \/ fs !! fid = Some BPending.
Proof. intros [[Hx Hy]|[Hx Hy]]%lookup_snoc_Some; auto. Qed.

(** A request joins a registered state. *)
Lemma finv_push cfg s key sid o o' item :
  finv cfg s -> dget key (fs_states s) = Some sid -> fs_objects s !! sid = Some o ->
  bs_task o' = bs_task o -> bs_queue o' = bs_queue o ++ [item] -> pi_future item = length (fs_futures s) ->
  finv cfg (Build_fsystem (fs_states s) (<[sid := o']> (fs_objects s)) (fs_tasks s)
              (fs_futures s ++ [BPending]) (fs_runtime s) (fs_lost s)).
Proof.
  intros Hi Hg Ho Hb Hq Hf. set (s' := Build_fsystem _ _ _ _ _ _).
  assert (Hol : (sid < length (fs_objects s))%nat) by by eapply lookup_lt_Some.
  pose proof (fun sid' o1 => insert_cases (fs_objects s) sid sid' o' o1 Hol) as Hobj.
  assert (Hco : chain s' o' = chain s o ++ [length (fs_futures s)]).
  { unfold chain, queue_ids. rewrite Hq, map_app, app_assoc. simpl. rewrite Hf. unfold task_phase. by rewrite Hb. }
  assert (Hcn : forall o1, chain s' o1 = chain s o1) by done.
  assert (Hself : fs_objects s' !! sid = Some o') by (simpl; by rewrite list_lookup_insert_eq).
  assert (Hother : forall sid1 o1, fs_objects s !! sid1 = Some o1 -> sid1 <> sid -> fs_objects s' !! sid1 = Some o1)
    by (intros; simpl; by rewrite list_lookup_insert_ne).
  assert (Hbound : forall sid1 o1 fid, fs_objects s !! sid1 = Some o1 -> fid ∈ chain s o1 ->
    (fid < length (fs_futures s))%nat).
  { intros sid1 o1 fid H1 Hin. destruct (fi_chain _ _ Hi _ _ H1) as [_ Hall].
    rewrite Forall_forall in Hall. by apply Hall. }
  assert (Hsub : forall sid1 o1 fid, fs_objects s' !! sid1 = Some o1 -> fid ∈ chain s' o1 ->
    (exists o2, fs_objects s !! sid1 = Some o2 /\ fid ∈ chain s o2) \/ (sid1 = sid /\ fid = length (fs_futures s))).
  { intros sid1 o1 fid [[-> ->]|[Hne H1]]%Hobj Hin; [|left; by exists o1].
    rewrite Hco in Hin. apply elem_of_app in Hin as [Hin| ->%list_elem_of_singleton]; [left; by exists o|by right]. }
  split.
  - apply Hi.
  - intros key1 sid1 Hg1. destruct (fi_registered _ _ Hi _ _ Hg1) as (o1 & tid1 & t1 & H1 & H2 & H3 & H4).
    destruct (decide (sid1 = sid)) as [->|Hne].
    + exists o', tid1, t1. rewrite Hself. split; [done|]. split; [congruence|done].
    + exists o1, tid1, t1. rewrite (Hother sid1 o1) by done. done.
  - intros tid1 t1 H1 Hl1. destruct (fi_live _ _ Hi _ _ H1 Hl1) as [Hg1 (o1 & Ho1 & Hb1)]. split; [done|].
    destruct (decide (dt_state t1 = sid)) as [Heq|Hne].
    + exists o'. rewrite Heq. split; [done|]. congruence.
    + exists o1. by rewrite (Hother _ o1).
  - intros sid1 o1 [[-> ->]|[Hne H1]]%Hobj Hq1; [by exists key|]. exact (fi_queued _ _ Hi _ _ H1 Hq1).
  - intros sid1 o1 tid1 [[-> ->]|[Hne H1]]%Hobj Hb1; [|by apply (fi_task _ _ Hi sid1 o1)].
    apply (fi_task _ _ Hi sid o); [done|congruence].
  - intros sid1 o1 [[-> ->]|[Hne H1]]%Hobj; simpl fs_futures; rewrite length_app, Nat.add_1_r.
    + rewrite Hco. destruct (fi_chain _ _ Hi _ _ Ho). by apply chain_snoc_lt.
    + destruct (fi_chain _ _ Hi _ _ H1) as [Hs Hall]. split; [done|].
      eapply Forall_impl; [exact Hall|]. simpl. lia.
  - intros sid1 sid2 o1 o2 fid H1 H2 Hf1 Hf2.
    destruct (Hsub _ _ _ H1 Hf1) as [(o3 & H3 & Hf3)|[-> ->]], (Hsub _ _ _ H2 Hf2) as [(o4 & H4 & Hf4)|[-> Hx]].
    + by apply (fi_disjoint _ _ Hi sid1 sid2 o3 o4 fid).
    + subst. apply (Hbound _ _ _ H3) in Hf3. lia.
    + apply (Hbound _ _ _ H4) in Hf4. lia.
    + done.
  - intros fid [->|Hp]%pending_snoc.
    + right. exists sid, o'. split; [done|]. rewrite Hco. apply elem_of_app. right. by apply list_elem_of_singleton.
    + destruct (fi_pending _ _ Hi _ Hp) as [|(sid1 & o1 & H1 & Hc)]; [by left|right].
      destruct (decide (sid1 = sid)) as [->|Hne].
      * exists sid, o'. split; [done|]. rewrite Hco. apply elem_of_app. left. congruence.
      * exists sid1, o1. by rewrite (Hother _ o1).
  - apply Hi.
Qed.

(** A request for a key without a state creates the state and its task. *)
Lemma finv_register cfg s key item wake :
  finv cfg s -> dget key (fs_states s) = None -> pi_future item = length (fs_futures s) ->
  finv cfg (Build_fsystem (dset key (length (fs_objects s)) (fs_states s))
              (fs_objects s ++ [Build_batch_state [item] (Some (length (fs_tasks s))) wake])
              (fs_tasks s ++ [Build_drain_task key (length (fs_objects s)) DWait])
              (fs_futures s ++ [BPending]) (fs_runtime s) (fs_lost s)).
Proof.
  intros Hi Hg Hf. set (sid := length (fs_objects s)). set (tid := length (fs_tasks s)).
  set (o' := Build_batch_state _ _ _). set (t' := Build_drain_task _ _ _).
  set (s' := Build_fsystem _ _ _ _ _ _).
  assert (Hself : fs_objects s' !! sid = Some o') by (simpl; apply lookup_snoc_Some; by right).
  assert (Hnew : fs_tasks s' !! tid = Some t') by (simpl; apply lookup_snoc_Some; by right).
  assert (Hobj : forall sid1 o1, fs_objects s' !! sid1 = Some o1 ->
    (sid1 = sid /\ o1 = o') \/ (fs_objects s !! sid1 = Some o1 /\ sid1 <> sid)).
  { intros sid1 o1 [[Hx Hy]|[Hx Hy]]%lookup_snoc_Some; [right|left; by subst]. split; [done|]. unfold sid. lia. }
  assert (Htask : forall tid1 t1, fs_tasks s' !! tid1 = Some t1 ->
    (tid1 = tid /\ t1 = t') \/ fs_tasks s !! tid1 = Some t1).
  { intros tid1 t1 [[Hx Hy]|[Hx Hy]]%lookup_snoc_Some; [by right|left; by subst]. }
  assert (Hkeep : forall sid1 o1, fs_objects s !! sid1 = Some o1 -> fs_objects s' !! sid1 = Some o1)
    by (intros; simpl; apply lookup_snoc_Some; left; split; [by eapply lookup_lt_Some|done]).
  assert (Hkeept : forall tid1 t1, fs_tasks s !! tid1 = Some t1 -> fs_tasks s' !! tid1 = Some t1)
    by (intros; simpl; apply lookup_snoc_Some; left; split; [by eapply lookup_lt_Some|done]).
  assert (Hsid : forall key1 sid1, dget key1 (fs_states s) = Some sid1 -> sid1 <> sid).
  { intros key1 sid1 Hg1. destruct (fi_registered _ _ Hi _ _ Hg1) as (o1 & _ & _ & H1 & _).
    apply lookup_lt_Some in H1. unfold sid. lia. }
  assert (Hst : forall key1 sid1, dget key1 (fs_states s) = Some sid1 ->
    dget key1 (fs_states s') = Some sid1).
  { intros key1 sid1 Hg1. simpl. rewrite dget_dset_ne; [done|]. congruence. }
  assert (Hco : chain s' o' = [length (fs_futures s)]).
  { unfold chain, task_phase, o'. cbn [bs_task]. rewrite Hnew. unfold queue_ids. simpl. by rewrite Hf. }
  assert (Hcn : forall sid1 o1, fs_objects s !! sid1 = Some o1 -> chain s' o1 = chain s o1).
  { intros sid1 o1 H1. unfold chain, task_phase. destruct (bs_task o1) as [tid1|] eqn:Hb1; [|done].
    destruct (fi_task _ _ Hi _ _ _ H1 Hb1) as (t1 & Ht1 & _). by rewrite (Hkeept _ _ Ht1), Ht1. }
  assert (Hbound : forall sid1 o1 fid, fs_objects s !! sid1 = Some o1 -> fid ∈ chain s o1 ->
    (fid < length (fs_futures s))%nat).
  { intros sid1 o1 fid H1 Hin. destruct (fi_chain _ _ Hi _ _ H1) as [_ Hall].
    rewrite Forall_forall in Hall. by apply Hall. }
  split.
  - apply NoDup_dset, Hi.
  - intros key1 sid1. simpl fs_states. destruct (decide (key1 = key)) as [->|Hne].
    + rewrite dget_dset_eq. intros [= <-]. by exists o', tid, t'.
    + rewrite dget_dset_ne by done. intros Hg1.
      destruct (fi_registered _ _ Hi _ _ Hg1) as (o1 & tid1 & t1 & H1 & H2 & H3 & H4).
      exists o1, tid1, t1. auto.
  - intros tid1 t1 [[-> ->]|H1]%Htask Hl1.
    + split; [apply dget_dset_eq|by exists o'].
    + destruct (fi_live _ _ Hi _ _ H1 Hl1) as [Hg1 (o1 & Ho1 & Hb1)]. split; [auto|]. exists o1. auto.
  - intros sid1 o1 [[-> ->]|[H1 _]]%Hobj Hq1; [exists key; apply dget_dset_eq|].
    destruct (fi_queued _ _ Hi _ _ H1 Hq1) as [key1 Hg1]. exists key1. auto.
  - intros sid1 o1 tid1 [[-> ->]|[H1 _]]%Hobj Hb1.
    + injection Hb1 as <-. by exists t'.
    + destruct (fi_task _ _ Hi _ _ _ H1 Hb1) as (t1 & Ht1 & Hd1). exists t1. auto.
  - intros sid1 o1 [[-> ->]|[H1 _]]%Hobj; simpl fs_futures; rewrite length_app, Nat.add_1_r.
    + rewrite Hco. split; [repeat constructor|]. repeat constructor.
    + rewrite (Hcn _ _ H1). destruct (fi_chain _ _ Hi _ _ H1) as [Hs Hall]. split; [done|].
      eapply Forall_impl; [exact Hall|]. simpl. lia.
  - intros sid1 sid2 o1 o2 fid [[-> ->]|[H1 Hne1]]%Hobj [[-> ->]|[H2 Hne2]]%Hobj;
      rewrite ?Hco, ?(Hcn sid1), ?(Hcn sid2) by done.
    + done.
    + intros ->%list_elem_of_singleton Hin%(Hbound _ _ _ H2). lia.
    + intros Hin%(Hbound _ _ _ H1) ->%list_elem_of_singleton. lia.
    + by apply (fi_disjoint _ _ Hi).
  - intros fid [->|Hp]%pending_snoc.
    + right. exists sid, o'. split; [done|]. rewrite Hco. by apply list_elem_of_singleton.
    + destruct (fi_pending _ _ Hi _ Hp) as [|(sid1 & o1 & H1 & Hc)]; [by left|right].
      exists sid1, o1. split; [auto|]. by rewrite (Hcn sid1).
  - intros tid1 t1 [[-> ->]|H1]%Htask; [done|]. exact (fi_batch _ _ Hi _ _ H1).
Qed.

(** ** Every event preserves the invariant *)

Lemma alter_Some {A} (f : A -> A) (i : nat) (l : list A) x : l !! i = Some x -> alter f i l = <[i := f x]> l.
Proof.
  intros Hx. apply list_eq. intros j. destruct (decide (j = i)) as [->|Hne].
  - rewrite list_lookup_alter_eq, Hx. rewrite list_lookup_insert_eq; [done|]. by eapply lookup_lt_Some.
  - by rewrite list_lookup_alter_ne, list_lookup_insert_ne.
Qed.

Lemma object_Some s sid o : fs_objects s !! sid = Some o -> object s sid = o.
Proof. unfold object. by intros ->. Qed.

Lemma object_snoc s os o : fs_objects s = os ++ [o] -> object s (length os) = o.
Proof. intros H. apply object_Some. rewrite H. apply lookup_snoc_Some. by right. Qed.

Lemma enqueue_registered cfg key payload now s sid o :
  dget key (fs_states s) = Some sid -> fs_objects s !! sid = Some o -> task_done s (bs_task o) = false ->
  exists o', fst (enqueue cfg key payload now s)
    = Build_fsystem (fs_states s) (<[sid := o']> (fs_objects s)) (fs_tasks s)
        (fs_futures s ++ [BPending]) (fs_runtime s) (fs_lost s)
  /\ bs_task o' = bs_task o
  /\ bs_queue o' = bs_queue o ++ [Build_pending_item payload now (length (fs_futures s))].
Proof.
  intros Hg Ho Htd. unfold enqueue, find_state. simpl fs_states. rewrite Hg.
  set (item := Build_pending_item _ _ _). assert (sid < length (fs_objects s))%nat as Hl by by eapply lookup_lt_Some.
  set (s1 := set_field fs_objects _ _).
  set (o1 := o <| bs_queue ::= fun q => q ++ [item] |>).
  assert (H1 : fs_objects s1 = <[sid := o1]> (fs_objects s)) by by apply alter_Some.
  assert (Ho1 : object s1 sid = o1) by (apply object_Some; rewrite H1; by rewrite list_lookup_insert_eq).
  rewrite Ho1. replace (task_done s1 (bs_task o1)) with false by (symmetry; exact Htd). rewrite Ho1.
  case_if; simpl fst.
  - exists (o1 <| bs_wake_event := true |>). split; [|done]. subst s1. simpl.
    f_equal. rewrite (alter_Some _ sid (fs_objects s) o) by done.
    rewrite (alter_Some _ sid _ o1) by (by rewrite list_lookup_insert_eq). apply list_insert_insert_eq.
  - exists o1. split; [|done]. subst s1. simpl. f_equal. by apply alter_Some.
Qed.

Lemma enqueue_unregistered cfg key payload now s :
  dget key (fs_states s) = None ->
  exists wake, fst (enqueue cfg key payload now s)
    = Build_fsystem (dset key (length (fs_objects s)) (fs_states s))
        (fs_objects s ++ [Build_batch_state [Build_pending_item payload now (length (fs_futures s))]
                            (Some (length (fs_tasks s))) wake])
        (fs_tasks s ++ [Build_drain_task key (length (fs_objects s)) DWait])
        (fs_futures s ++ [BPending]) (fs_runtime s) (fs_lost s).
Proof.
  intros Hg. unfold enqueue, find_state. simpl fs_states. rewrite Hg. cbv zeta beta iota.
  set (sid := length (fs_objects s)). set (item := Build_pending_item _ _ _).
  assert (Hat : forall (os : list batch_state) (f : batch_state -> batch_state) o,
    length os = sid -> alter f sid (os ++ [o]) = os ++ [f o]).
  { intros os f o <-. rewrite (alter_Some f _ _ o) by (apply lookup_snoc_Some; by right).
    rewrite insert_app_r_alt by lia. by rewrite Nat.sub_diag. }
  match goal with
  | |- context [task_done ?x (bs_task (object ?x ?i))] => set (s1 := x); change i with sid
  end.
  assert (H1 : s1 = Build_fsystem (dset key sid (fs_states s))
      (fs_objects s ++ [Build_batch_state [item] None false]) (fs_tasks s)
      (fs_futures s ++ [BPending]) (fs_runtime s) (fs_lost s)).
  { subst s1. simpl. fold sid. by rewrite Hat. }
  rewrite H1. clear s1 H1. set (s1 := Build_fsystem _ _ _ _ _ _).
  assert (Ho : object s1 sid = Build_batch_state [item] None false) by by apply object_snoc.
  rewrite Ho.
  cbn [bs_task task_done]. set (s2 := spawn_drain key sid s1).
  assert (H2 : s2 = Build_fsystem (dset key sid (fs_states s))
      (fs_objects s ++ [Build_batch_state [item] (Some (length (fs_tasks s))) false])
      (fs_tasks s ++ [Build_drain_task key sid DWait])
      (fs_futures s ++ [BPending]) (fs_runtime s) (fs_lost s)).
  { subst s2. unfold spawn_drain. simpl. by rewrite Hat. }
  rewrite H2. clear s2 H2. case_if; simpl; rewrite ?Hat by done; by eexists.
Qed.

Lemma live_not_done s o tid t :
  bs_task o = Some tid -> fs_tasks s !! tid = Some t -> live t -> task_done s (bs_task o) = false.
Proof. intros -> Ht Hl. simpl. rewrite Ht. unfold live in Hl. by destruct (dt_phase t). Qed.

Lemma finv_enqueue cfg key payload now s : finv cfg s -> finv cfg (fst (enqueue cfg key payload now s)).
Proof.
  intros Hi. destruct (dget key (fs_states s)) as [sid|] eqn:Hg.
  - destruct (fi_registered _ _ Hi _ _ Hg) as (o & tid & t & Ho & Hb & Ht & Hl & _).
    destruct (enqueue_registered cfg key payload now s sid o Hg Ho) as (o' & -> & Hb' & Hq').
    { by eapply live_not_done. }
    by eapply finv_push.
  - destruct (enqueue_unregistered cfg key payload now s Hg) as (wake & ->). by apply finv_register.
Qed.

Lemma settle_length fid f fs : length (settle fid f fs) = length fs.
Proof. apply length_alter. Qed.

Lemma settle_pending fid f fs fid' :
  batch_future_done f = true -> settle fid f fs !! fid' = Some BPending ->
  fs !! fid' = Some BPending /\ fid' <> fid.
Proof.
  intros Hf. unfold settle. destruct (decide (fid' = fid)) as [->|Hne].
  - rewrite list_lookup_alter_eq. intros (old & Hold & Heq)%fmap_Some. destruct old; simplify_eq/=.
  - by rewrite list_lookup_alter_ne.
Qed.

Lemma fail_batch_spec items e fs :
  length (fail_batch items e fs) = length fs
  /\ forall fid, fail_batch items e fs !! fid = Some BPending ->
       fs !! fid = Some BPending /\ fid ∉ map pi_future items.
Proof.
  unfold fail_batch. revert fs. induction items as [|i items IH]; intros fs; simpl.
  { split; [done|]. intros fid. split; [done|apply not_elem_of_nil]. }
  destruct (IH (settle (pi_future i) (BException e) fs)) as [Hlen Hp].
  split; [by rewrite Hlen, settle_length|]. intros fid [Hs Hn]%Hp.
  apply settle_pending in Hs as [Hs Hne]; [|done]. split; [done|]. by apply not_elem_of_cons.
Qed.

Lemma deliver_spec items : forall values metrics fs,
  length values = length items -> length metrics = length items ->
  length (deliver items values metrics fs) = length fs
  /\ forall fid, deliver items values metrics fs !! fid = Some BPending ->
       fs !! fid = Some BPending /\ fid ∉ map pi_future items.
Proof.
  induction items as [|i items IH]; intros [|v values] [|m metrics] fs Hv Hm; try done; simpl.
  { split; [done|]. intros fid. split; [done|apply not_elem_of_nil]. }
  destruct (IH values metrics (settle (pi_future i) (BResult (Build_batch_result v m)) fs)) as [Hlen Hp];
    [by injection Hv|by injection Hm|].
  split; [by rewrite Hlen, settle_length|]. intros fid [Hs Hn]%Hp.
  apply settle_pending in Hs as [Hs Hne]; [|done]. split; [done|]. by apply not_elem_of_cons.
Qed.

Lemma finv_runtime cfg s rt : finv cfg s -> finv cfg (s <| fs_runtime := rt |>).
Proof. intros []. by split. Qed.

Lemma finv_settle cfg s fid f :
  batch_future_done f = true -> finv cfg s -> finv cfg (s <| fs_futures ::= settle fid f |>).
Proof.
  intros Hf [? ? ? ? ? Hc ? Hp ?]. split; try done; simpl.
  - intros sid o Ho. rewrite settle_length. by apply (Hc sid).
  - intros fid' [Hs _]%settle_pending; [|done]. by apply Hp.
Qed.

(** The effect of each resumption on a live task [t] of the state object [o]. *)
Lemma moved_intro s sid tid o o' t p futures' lost' rt' :
  fs_tasks s !! tid = Some t -> fs_objects s !! sid = Some o ->
  set_phase tid p (Build_fsystem (fs_states s) (alter (fun _ => o') sid (fs_objects s)) (fs_tasks s)
                     futures' rt' lost')
  = moved sid tid o' (t <| dt_phase := p |>) futures' lost' rt' s.
Proof.
  intros Ht Ho. unfold set_phase, moved. simpl. by rewrite (alter_Some _ _ _ _ Ht), (alter_Some _ _ _ _ Ho).
Qed.

Lemma moved_same_object s sid tid o t p futures' lost' rt' :
  fs_tasks s !! tid = Some t -> fs_objects s !! sid = Some o ->
  set_phase tid p (Build_fsystem (fs_states s) (fs_objects s) (fs_tasks s) futures' rt' lost')
  = moved sid tid o (t <| dt_phase := p |>) futures' lost' rt' s.
Proof.
  intros Ht Ho. rewrite <- (moved_intro s sid tid o o t p) by done. unfold set_phase. simpl. f_equal.
  rewrite (alter_Some _ _ _ _ Ho). symmetry. by apply list_insert_id.
Qed.

Lemma wait_for_window_same cfg rt o o' p :
  wait_for_window cfg rt o = (o', p) ->
  bs_task o' = bs_task o /\ bs_queue o' = bs_queue o /\ exec_ids p = [] /\ p <> DDone /\ batch_ok cfg p.
Proof.
  unfold wait_for_window. destruct (bs_queue o) as [|i q] eqn:Hq; [by intros; simplify_eq|].
  case_if; intros; simplify_eq/=; done.
Qed.

Lemma take_batch_effect cfg key sid s o :
  dget key (fs_states s) = Some sid -> fs_objects s !! sid = Some o -> bs_queue o <> [] ->
  exists o', fst (take_batch cfg key sid s)
     = Build_fsystem (fs_states s) (alter (fun _ => o') sid (fs_objects s)) (fs_tasks s)
         (fs_futures s) (fs_runtime s) (fs_lost s)
  /\ snd (take_batch cfg key sid s) = take (Z.to_nat (max_batch_size cfg)) (bs_queue o)
  /\ bs_task o' = bs_task o /\ bs_queue o' = drop (Z.to_nat (max_batch_size cfg)) (bs_queue o).
Proof.
  intros Hg Ho Hq. unfold take_batch. rewrite (object_Some _ _ _ Ho), bool_decide_true by done.
  rewrite bool_decide_false by by destruct (bs_queue o). cbn [negb orb].
  set (n := Z.to_nat _). set (s1 := set_field fs_objects _ s).
  set (o1 := o <| bs_queue ::= drop n |>).
  assert (H1 : fs_objects s1 = <[sid := o1]> (fs_objects s)) by by apply alter_Some.
  assert (Ho1 : object s1 sid = o1).
  { apply object_Some. rewrite H1, list_lookup_insert_eq; [done|by eapply lookup_lt_Some]. }
  rewrite Ho1. case_if; cbn [fst snd].
  - exists (o1 <| bs_wake_event := true |>). split; [|done]. subst s1. simpl. f_equal.
    rewrite !(alter_Some _ sid (fs_objects s) o) by done. rewrite (alter_Some _ sid _ o1).
    + apply list_insert_insert_eq.
    + rewrite list_lookup_insert_eq; [done|by eapply lookup_lt_Some].
  - exists o1. split; [|done]. subst s1. simpl. f_equal. by rewrite !(alter_Some _ sid (fs_objects s) o).
Qed.

Lemma batch_metrics_length cfg now items : length (batch_metrics cfg now items) = length items.
Proof. unfold batch_metrics. apply length_imap. Qed.

(** What [finish_batch] does to futures and lost requests. *)
Lemma finish_batch_effect cfg out items metrics s s' p :
  length metrics = length items -> finish_batch cfg out items metrics s = (s', p) ->
  exists futures' lost' rt',
    s' = Build_fsystem (fs_states s) (fs_objects s) (fs_tasks s) futures' rt' lost'
    /\ exec_ids p = [] /\ p <> DDone /\ batch_ok cfg p
    /\ length futures' = length (fs_futures s)
    /\ (forall fid, futures' !! fid = Some BPending -> fs_futures s !! fid = Some BPending
          /\ (fid ∈ map pi_future items -> fid ∈ lost'))
    /\ (forall fid, fid ∈ fs_lost s -> fid ∈ lost').
Proof.
  intros Hm. unfold finish_batch. destruct out as [values|e|].
  - case_bool_decide as Hv; intros; simplify_eq/=; do 3 eexists; (split; [reflexivity|]).
    + destruct (deliver_spec items values metrics (fs_futures s) Hv Hm) as [Hl Hp].
      split_and!; try done. intros fid [? ?]%Hp. done.
    + destruct (fail_batch_spec items (WrongResultCount (Z.of_nat (length items)) (Z.of_nat (length values)))
        (fs_futures s)) as [Hl Hp].
      split_and!; try done. intros fid [? ?]%Hp. done.
  - intros; simplify_eq/=. do 3 eexists. split; [reflexivity|].
    destruct (fail_batch_spec items (ExecutorRaised e) (fs_futures s)) as [Hl Hp].
    split_and!; try done. intros fid [? ?]%Hp. done.
  - intros; simplify_eq/=. do 3 eexists. split; [reflexivity|]. split_and!; try done.
    + intros fid Hp. split; [done|]. intros Hin. apply elem_of_app. by right.
    + intros fid Hin. apply elem_of_app. by left.
Qed.

Lemma drain_finally_effect cfg s sid tid o t :
  finv cfg s -> fs_tasks s !! tid = Some t -> dt_phase t = DFinally -> dt_state t = sid ->
  fs_objects s !! sid = Some o -> bs_task o = Some tid ->
  finv cfg (set_phase tid DDone (drain_finally (dt_key t) sid s)).
Proof.
  intros Hi Ht Hp Hs Ho Hb. unfold drain_finally.
  destruct (fi_live _ _ Hi _ _ Ht) as [Hg _]; [unfold live; by rewrite Hp|]. rewrite Hs in Hg.
  rewrite bool_decide_true, (object_Some _ _ _ Ho) by done.
  destruct (bs_queue o) as [|i q] eqn:Hq.
  - unfold set_phase. simpl. rewrite (alter_Some _ _ _ _ Ht). by eapply finv_pop.
  - unfold set_phase, spawn_drain. simpl. rewrite (alter_Some _ _ _ _ Ho).
    replace (alter _ tid (fs_tasks s ++ _))
      with (<[tid := t <| dt_phase := DDone |>]> (fs_tasks s) ++ [Build_drain_task (dt_key t) sid DWait]).
    + by eapply finv_respawn.
    + rewrite (alter_Some _ tid _ t) by (by apply lookup_app_l_Some).
      rewrite insert_app_l; [done|by eapply lookup_lt_Some].
Qed.

Lemma finv_resume cfg tid now out s :
  1 <= max_batch_size cfg -> finv cfg s -> finv cfg (resume cfg tid now out s).
Proof.
  intros Hmax Hi. unfold resume. destruct (fs_tasks s !! tid) as [t|] eqn:Ht; [|done].
  assert (Hdl : dt_phase t = DDone \/ live t) by (unfold live; destruct (dt_phase t); auto).
  destruct Hdl as [Hd|Hd]; [by rewrite Hd|].
  destruct (fi_live _ _ Hi _ _ Ht Hd) as [Hg (o & Ho & Hb)]. set (sid := dt_state t) in *.
  pose proof (fi_batch _ _ Hi _ _ Ht) as Hbt.
  assert (Hmove : forall o' p futures' lost' rt' pre,
    bs_task o' = Some tid -> p <> DDone -> batch_ok cfg p ->
    exec_ids (dt_phase t) ++ queue_ids o = pre ++ exec_ids p ++ queue_ids o' ->
    length futures' = length (fs_futures s) ->
    (forall fid, futures' !! fid = Some BPending ->
       fs_futures s !! fid = Some BPending /\ (fid ∈ pre -> fid ∈ lost')) ->
    (forall fid, fid ∈ fs_lost s -> fid ∈ lost') ->
    finv cfg (moved sid tid o' (t <| dt_phase := p |>) futures' lost' rt' s)).
  { intros o' p futures' lost' rt' pre. intros. by eapply (finv_moved cfg s sid tid o t). }
  assert (Hstay : forall o' p, bs_task o' = Some tid -> p <> DDone -> batch_ok cfg p ->
    exec_ids (dt_phase t) ++ queue_ids o = exec_ids p ++ queue_ids o' ->
    finv cfg (moved sid tid o' (t <| dt_phase := p |>) (fs_futures s) (fs_lost s) (fs_runtime s) s)).
  { intros o' p ? ? ? ?. apply (Hmove _ _ _ _ _ []); try done. intros fid Hf. split; [done|].
    by intros ?%not_elem_of_nil. }
  destruct (dt_phase t) as [|ms| |items metrics| |] eqn:Hp; try done.
  - destruct (wait_for_window cfg (fs_runtime s) (object s sid)) as [o' p] eqn:Hw.
    rewrite (object_Some _ _ _ Ho) in Hw. apply wait_for_window_same in Hw as (H1 & H2 & H3 & H4 & H5).
    refine (eq_ind_r (finv cfg) _ (moved_intro s sid tid o o' t p _ _ _ Ht Ho)).
    apply Hstay; try done; [congruence|]. unfold queue_ids. by rewrite H2, H3.
  - refine (eq_ind_r (finv cfg) _ (moved_same_object s sid tid o t DTake _ _ _ Ht Ho)). by apply Hstay.
  - destruct (decide (bs_queue o = [])) as [Hq|Hq].
    + unfold take_batch. rewrite (object_Some _ _ _ Ho), Hq, bool_decide_true by done. simpl.
      refine (eq_ind_r (finv cfg) _ (moved_same_object s sid tid o t DFinally _ _ _ Ht Ho)). by apply Hstay.
    + destruct (take_batch_effect cfg _ _ _ _ Hg Ho Hq) as (o' & H1 & H2 & H3 & H4).
      destruct (take_batch cfg (dt_key t) sid s) as [s1 items]. cbn [fst snd] in H1, H2. subst s1 items.
      assert (Hn : (1 <= Z.to_nat (max_batch_size cfg))%nat) by lia.
      set (items := take _ _). assert (Hlen : (1 <= length items <= Z.to_nat (max_batch_size cfg))%nat).
      { subst items. rewrite length_take. destruct (bs_queue o); [done|]. simpl length. lia. }
      destruct items as [|i0 items0] eqn:Hit; [simpl in Hlen; lia|].
      refine (eq_ind_r (finv cfg) _ (moved_intro s sid tid o o' t _ _ _ _ Ht Ho)).
      apply Hstay; try done; [congruence| |].
      * split; [done|]. apply batch_metrics_length.
      * cbn [exec_ids]. unfold queue_ids. rewrite <- Hit, H4, <- map_app. subst items. by rewrite take_drop.
  - destruct (finish_batch cfg out items metrics s) as [s' p] eqn:Hf.
    destruct Hbt as [Hn Hm].
    apply finish_batch_effect in Hf as (fs' & lost' & rt' & -> & H1 & H2 & H3 & H4 & H5 & H6); [|done].
    refine (eq_ind_r (finv cfg) _ (moved_same_object s sid tid o t p _ _ _ Ht Ho)).
    apply (Hmove _ _ _ _ _ (map pi_future items)); try done. by rewrite H1.
  - by eapply drain_finally_effect.
Qed.

Lemma finv_init cfg rt : finv cfg (init_fsystem rt).
Proof. split; simpl; try done; try constructor; intros; by rewrite ?lookup_nil in *. Qed.

Lemma freachable_inv cfg rt s : 1 <= max_batch_size cfg -> freachable cfg rt s -> finv cfg s.
Proof.
  intros Hmax. unfold freachable. generalize (finv_init cfg rt). generalize (init_fsystem rt) as s0.
  intros s0 H0 H. induction H as [|s0 s1 s Hs _ IH]; [done|]. apply IH. destruct Hs.
  - by apply finv_enqueue.
  - by apply finv_resume.
  - by apply finv_settle.
  - by apply finv_runtime.
Qed.

Lemma StronglySorted_lt_NoDup (l : list nat) : StronglySorted lt l -> NoDup l.
Proof.
  induction 1 as [|x l Hs IH Hx]; constructor; [|done]. intros Hin.
  rewrite Forall_forall in Hx. apply Hx in Hin. lia.
Qed.

(** ** Progress *)

(** The executor answers the batch it is given. *)
Definition outcome_of (exec : list (Payload * frontier_metrics) -> list Result) (p : drain_phase)
    : exec_outcome :=
  match p with
  | DExec items metrics => XValues (exec (combine (map pi_payload items) metrics))
  | _ => XCancelled
  end.

(** The current drain task of a state object runs on, the executor answering. *)
Definition advance (cfg : frontier_config) (sid : nat) (now : f64)
    (exec : list (Payload * frontier_metrics) -> list Result) (s : fsystem) : fsystem :=
  match bs_task (object s sid) with
  | None => s
  | Some tid => resume cfg tid now (outcome_of exec (task_phase s (Some tid))) s
  end.

Fixpoint drive (n : nat) (cfg : frontier_config) (sid : nat) (now : f64)
    (exec : list (Payload * frontier_metrics) -> list Result) (s : fsystem) : fsystem :=
  match n with
  | O => s
  | S n => drive n cfg sid now exec (advance cfg sid now exec s)
  end.

(** Resumptions left before the task is done, if nothing else arrives. *)
Definition work (p : drain_phase) (queued : nat) : nat :=
  match queued with
  | O => match p with DDone => 0 | DFinally => 1 | DTake => 2 | DWindow _ => 3 | DWait => 4 | DExec _ _ => 5 end
  | _ => 8 * queued
         + match p with DTake => 1 | DWindow _ => 2 | DWait => 3 | DExec _ _ => 4 | _ => 5 end
  end%nat.

Definition work_of (s : fsystem) (sid : nat) : nat :=
  work (task_phase s (bs_task (object s sid))) (length (bs_queue (object s sid))).

(** [fid] is answered in [s'], or still in the chain of the object. *)
Definition carried (s s' : fsystem) (sid : nat) : Prop :=
  (forall fid, fid ∈ chain s (object s sid) ->
     fid ∈ chain s' (object s' sid) \/ fs_futures s' !! fid <> Some BPending)
  /\ (forall fid, fs_futures s' !! fid = Some BPending -> fs_futures s !! fid = Some BPending)
  /\ length (fs_futures s') = length (fs_futures s).

Lemma carried_trans s1 s2 s3 sid : carried s1 s2 sid -> carried s2 s3 sid -> carried s1 s3 sid.
Proof.
  intros (H1 & H2 & H3) (H4 & H5 & H6). split; [|split; [auto|congruence]].
  intros fid [Hc|Hf]%H1; [by apply H4|]. right. auto.
Qed.

Lemma object_moved s sid tid o o' t' futures' lost' rt' :
  fs_objects s !! sid = Some o -> object (moved sid tid o' t' futures' lost' rt' s) sid = o'.
Proof.
  intros Ho. apply object_Some. simpl. rewrite list_lookup_insert_eq; [done|by eapply lookup_lt_Some].
Qed.

(** A task that moves on carries its chain. *)
Lemma carried_moved s sid tid o o' t t' futures' lost' rt' pre :
  fs_tasks s !! tid = Some t -> fs_objects s !! sid = Some o -> bs_task o = Some tid ->
  bs_task o' = Some tid ->
  exec_ids (dt_phase t) ++ queue_ids o = pre ++ exec_ids (dt_phase t') ++ queue_ids o' ->
  length futures' = length (fs_futures s) ->
  (forall fid, futures' !! fid = Some BPending -> fs_futures s !! fid = Some BPending /\ fid ∉ pre) ->
  carried s (moved sid tid o' t' futures' lost' rt' s) sid
  /\ work_of (moved sid tid o' t' futures' lost' rt' s) sid = work (dt_phase t') (length (bs_queue o')).
Proof.
  intros Ht Ho Hb Hb' Hc Hlen Hf. assert (tid < length (fs_tasks s))%nat by by eapply lookup_lt_Some.
  split; [split; [|split]|].
  - intros fid. rewrite (object_Some _ _ _ Ho), (object_moved s sid tid o) by done.
    rewrite chain_moved_eq by done. unfold chain, task_phase. rewrite Hb, Ht, Hc.
    rewrite elem_of_app. intros [Hin|Hin]; [right|by left]. intros Hp. by apply Hf in Hp as [_ ?].
  - intros fid Hp. by apply Hf in Hp as [? _].
  - done.
  - unfold work_of. rewrite (object_moved s sid tid o), Hb' by done. unfold task_phase. simpl.
    by rewrite list_lookup_insert_eq.
Qed.

(** One resumption: nothing is dropped, and there is less left to do. *)
Definition advanced (s s' : fsystem) (sid : nat) : Prop :=
  carried s s' sid /\ (work_of s' sid < work_of s sid)%nat
  /\ exists o', fs_objects s' !! sid = Some o' /\ bs_task o' <> None.

Lemma advanced_moved s sid tid o o' t p futures' lost' rt' pre :
  fs_tasks s !! tid = Some t -> fs_objects s !! sid = Some o -> bs_task o = Some tid ->
  bs_task o' = Some tid ->
  exec_ids (dt_phase t) ++ queue_ids o = pre ++ exec_ids p ++ queue_ids o' ->
  length futures' = length (fs_futures s) ->
  (forall fid, futures' !! fid = Some BPending -> fs_futures s !! fid = Some BPending /\ fid ∉ pre) ->
  (work p (length (bs_queue o')) < work (dt_phase t) (length (bs_queue o)))%nat ->
  advanced s (moved sid tid o' (t <| dt_phase := p |>) futures' lost' rt' s) sid.
Proof.
  intros Ht Ho Hb Hb' Hc Hlen Hf Hw.
  destruct (carried_moved s sid tid o o' t (t <| dt_phase := p |>) futures' lost' rt' pre) as [Hca Hwo];
    [done..|].
  split; [done|]. split.
  - rewrite Hwo. unfold work_of, task_phase. by rewrite (object_Some _ _ _ Ho), Hb, Ht.
  - exists o'. simpl. rewrite list_lookup_insert_eq by by eapply lookup_lt_Some. split; [done|congruence].
Qed.

Lemma wait_for_window_work cfg rt o o' p :
  wait_for_window cfg rt o = (o', p) -> (work p (length (bs_queue o)) < work DWait (length (bs_queue o)))%nat.
Proof.
  unfold wait_for_window. destruct (bs_queue o) as [|i q]; [intros; simplify_eq/=; lia|].
  simpl length. unfold work. case_if; intros; simplify_eq; lia.
Qed.

Lemma take_work n items metrics q : (1 <= n)%nat -> q <> 0%nat ->
  (work (DExec items metrics) (q - n) < work DTake q)%nat.
Proof. intros Hn Hq. unfold work. destruct q as [|q]; [done|]. destruct (S q - n)%nat eqn:?; lia. Qed.

Lemma advanced_finally cfg s sid tid o t :
  fs_tasks s !! tid = Some t -> dt_phase t = DFinally -> dt_state t = sid ->
  dget (dt_key t) (fs_states s) = Some sid -> fs_objects s !! sid = Some o -> bs_task o = Some tid ->
  finv cfg s -> advanced s (set_phase tid DDone (drain_finally (dt_key t) sid s)) sid.
Proof.
  intros Ht Hp Hs Hg Ho Hb Hi. assert (tid < length (fs_tasks s))%nat by by eapply lookup_lt_Some.
  assert (Hwo : work_of s sid = work DFinally (length (bs_queue o))).
  { unfold work_of, task_phase. by rewrite (object_Some _ _ _ Ho), Hb, Ht, Hp. }
  assert (Hcs : chain s (object s sid) = queue_ids o).
  { rewrite (object_Some _ _ _ Ho). unfold chain, task_phase. by rewrite Hb, Ht, Hp. }
  unfold advanced, carried. rewrite Hcs, Hwo. unfold drain_finally.
  rewrite bool_decide_true, (object_Some _ _ _ Ho) by done.
  destruct (bs_queue o) as [|i q] eqn:Hq.
  - split; [|split].
    + split; [|done]. intros fid. unfold queue_ids. rewrite Hq. by intros ?%not_elem_of_nil.
    + unfold work_of, object, set_phase. simpl. rewrite Ho. simpl. rewrite Hb, Hq. simpl.
      rewrite list_lookup_alter_eq, Ht. simpl. lia.
    + exists o. split; [done|congruence].
  - set (o' := o <| bs_task := Some (length (fs_tasks s)) |>).
    set (s' := set_phase tid DDone (spawn_drain (dt_key t) sid s)).
    assert (Ho' : fs_objects s' !! sid = Some o') by (simpl; by rewrite list_lookup_alter_eq, Ho).
    assert (Hph : task_phase s' (bs_task o') = DWait).
    { simpl. rewrite list_lookup_alter_ne by (subst; lia).
      by rewrite (proj2 (lookup_snoc_Some _ _ _ _)) by by right. }
    split; [|split].
    + split; [|done]. intros fid Hin. left. rewrite (object_Some _ _ _ Ho'). unfold chain.
      by rewrite Hph.
    + unfold work_of. rewrite (object_Some _ _ _ Ho'), Hph. simpl bs_queue. rewrite Hq. simpl. lia.
    + by exists o'.
Qed.

Lemma advance_progress cfg sid now exec s o :
  1 <= max_batch_size cfg -> (forall l, length (exec l) = length l) -> finv cfg s ->
  fs_objects s !! sid = Some o -> bs_task o <> None -> work_of s sid <> 0%nat ->
  advanced s (advance cfg sid now exec s) sid.
Proof.
  intros Hmax Hexec Hi Ho Hnone Hwork. unfold advance. rewrite (object_Some _ _ _ Ho).
  destruct (bs_task o) as [tid|] eqn:Hb; [clear Hnone|done].
  destruct (fi_task _ _ Hi _ _ _ Ho Hb) as (t & Ht & Hsid).
  assert (Hself : forall fid, fs_futures s !! fid = Some BPending ->
    fs_futures s !! fid = Some BPending /\ fid ∉ []) by (intros; split; [done|apply not_elem_of_nil]).
  pose proof (fi_batch _ _ Hi _ _ Ht) as Hbt. unfold resume. simpl task_phase. rewrite Ht, Hsid.
  destruct (dt_phase t) as [|ms| |items metrics| |] eqn:Hp; simpl outcome_of.
  - destruct (wait_for_window cfg (fs_runtime s) (object s sid)) as [o' p] eqn:Hw.
    rewrite (object_Some _ _ _ Ho) in Hw. apply wait_for_window_work in Hw as Hlt.
    apply wait_for_window_same in Hw as (H1 & H2 & H3 & H4 & H5).
    refine (eq_ind_r (fun x => advanced s x sid) _ (moved_intro s sid tid o o' t p _ _ _ Ht Ho)).
    apply (advanced_moved _ _ _ o _ _ _ _ _ _ []); try done; [congruence| |].
    + unfold queue_ids. by rewrite H2, H3, Hp.
    + by rewrite H2, Hp.
  - refine (eq_ind_r (fun x => advanced s x sid) _ (moved_same_object s sid tid o t DTake _ _ _ Ht Ho)).
    apply (advanced_moved _ _ _ o _ _ _ _ _ _ []); try done; rewrite Hp; [done|].
    unfold work. destruct (length (bs_queue o)); lia.
  - destruct (decide (bs_queue o = [])) as [Hq|Hq].
    + unfold take_batch. rewrite (object_Some _ _ _ Ho), Hq, (bool_decide_true (length (@nil pending_item) = 0%nat)), orb_true_r by done. simpl.
      refine (eq_ind_r (fun x => advanced s x sid) _ (moved_same_object s sid tid o t DFinally _ _ _ Ht Ho)).
      apply (advanced_moved _ _ _ o _ _ _ _ _ _ []); try done; rewrite Hp; [done|]. rewrite Hq. simpl. lia.
    + assert (Hl : live t) by (unfold live; by rewrite Hp).
      destruct (fi_live _ _ Hi _ _ Ht Hl) as [Hg _]. rewrite Hsid in Hg.
      destruct (take_batch_effect cfg _ _ _ _ Hg Ho Hq) as (o' & H1 & H2 & H3 & H4).
      destruct (take_batch cfg (dt_key t) sid s) as [s1 items]. cbn [fst snd] in H1, H2. subst s1 items.
      set (n := Z.to_nat (max_batch_size cfg)) in *. assert (Hn : (1 <= n)%nat) by lia.
      set (items := take n (bs_queue o)).
      assert (Hlen : (0 < length items)%nat).
      { subst items. rewrite length_take. destruct (bs_queue o); [done|]. simpl length. lia. }
      destruct items as [|i0 items0] eqn:Hit; [simpl in Hlen; lia|].
      refine (eq_ind_r (fun x => advanced s x sid) _ (moved_intro s sid tid o o' t _ _ _ _ Ht Ho)).
      apply (advanced_moved _ _ _ o _ _ _ _ _ _ []); try done; [congruence| |]; rewrite Hp.
      * cbn [exec_ids]. unfold queue_ids. rewrite <- Hit, H4, <- map_app. subst items. by rewrite take_drop.
      * rewrite H4, length_drop. apply take_work; [done|]. by destruct (bs_queue o).
  - destruct Hbt as [Hn Hm]. unfold finish_batch.
    assert (Hlen : length (exec (combine (map pi_payload items) metrics)) = length items).
    { rewrite Hexec, length_combine, length_map. lia. }
    rewrite bool_decide_true by done.
    destruct (deliver_spec items (exec (combine (map pi_payload items) metrics)) metrics (fs_futures s) Hlen Hm)
      as [Hdl Hd].
    refine (eq_ind_r (fun x => advanced s x sid) _ (moved_same_object s sid tid o t DWait _ _ _ Ht Ho)).
    apply (advanced_moved _ _ _ o _ _ _ _ _ _ (map pi_future items)); try done; rewrite Hp; [done|].
    unfold work. destruct (length (bs_queue o)); lia.
  - assert (Hl : live t) by (unfold live; by rewrite Hp).
    destruct (fi_live _ _ Hi _ _ Ht Hl) as [Hg _]. rewrite Hsid in Hg. by eapply advanced_finally.
  - exfalso. apply Hwork. unfold work_of, task_phase. rewrite (object_Some _ _ _ Ho), Hb, Ht, Hp.
    destruct (decide (bs_queue o = [])) as [->|Hq]; [done|].
    destruct (fi_queued _ _ Hi _ _ Ho Hq) as [key Hg].
    destruct (fi_registered _ _ Hi _ _ Hg) as (o1 & tid1 & t1 & H1 & H2 & H3 & H4 & _).
    exfalso. apply H4. congruence.
Qed.

Lemma drive_progress cfg sid now exec : forall n s o,
  1 <= max_batch_size cfg -> (forall l, length (exec l) = length l) -> finv cfg s ->
  fs_objects s !! sid = Some o -> bs_task o <> None -> (work_of s sid <= n)%nat ->
  exists k, (k <= n)%nat /\ carried s (drive k cfg sid now exec s) sid
  /\ work_of (drive k cfg sid now exec s) sid = 0%nat.
Proof.
  intros n. induction n as [|n IH]; intros s o Hmax Hexec Hi Ho Hb Hw.
  { exists 0%nat. split; [done|]. split; [|simpl; lia]. split; auto. }
  destruct (decide (work_of s sid = 0%nat)) as [Hz|Hz].
  { exists 0%nat. split; [lia|]. split; [|done]. split; auto. }
  destruct (advance_progress cfg sid now exec s o) as (Hc & Hlt & o' & Ho' & Hb'); [done..|].
  destruct (IH (advance cfg sid now exec s) o') as (k & Hk & Hck & Hwk); try done; [|lia|].
  { unfold advance. destruct (bs_task (object s sid)); [|done]. by apply finv_resume. }
  exists (S k). split; [lia|]. simpl. split; [by eapply carried_trans|done].
Qed.

(** A task with no work left holds nothing. *)
Lemma work_zero_chain s sid : work_of s sid = 0%nat -> chain s (object s sid) = [].
Proof.
  unfold work_of, chain, queue_ids. destruct (bs_queue (object s sid)); simpl.
  - by destruct (task_phase s _).
  - destruct (task_phase s _); lia.
Qed.

Lemma work_bound p q : (work p q <= 8 * q + 5)%nat.
Proof. unfold work. destruct q, p; lia. Qed.

Lemma frontier_config_pos window batch : 1 <= max_batch_size (init_frontier_config window batch).
Proof. simpl. lia. Qed.

(** A request is owned: it is in the batch being executed by, or in the queue behind,
    the live drain task of the registered state of its key. *)
Definition owned (s : fsystem) (fid : nat) : Prop :=
  exists key sid o tid t, dget key (fs_states s) = Some sid /\ fs_objects s !! sid = Some o
    /\ bs_task o = Some tid /\ fs_tasks s !! tid = Some t /\ dt_phase t <> DDone
    /\ dt_state t = sid /\ fid ∈ chain s o.

(** The step cancels the execution of a batch. *)
Definition cancels_execution (s : fsystem) (tid : nat) (out : exec_outcome) : bool :=
  match out, dt_phase <$> fs_tasks s !! tid with XCancelled, Some (DExec _ _) => true | _, _ => false end.

(** Histories in which no execution of a batch is cancelled. *)
Inductive fstep_kept (cfg : frontier_config) (s : fsystem) : fsystem -> Prop :=
| kept_enqueue key payload now : fstep_kept cfg s (fst (enqueue cfg key payload now s))
| kept_resume tid now out : cancels_execution s tid out = false -> fstep_kept cfg s (resume cfg tid now out s)
| kept_cancel fid : fstep_kept cfg s (s <| fs_futures ::= settle fid BCancelled |>)
| kept_runtime rt : fstep_kept cfg s (s <| fs_runtime := rt |>).

Lemma enqueue_lost cfg key payload now s : fs_lost (fst (enqueue cfg key payload now s)) = fs_lost s.
Proof. unfold enqueue, find_state, spawn_drain. by repeat case_match; simplify_eq/=. Qed.

Lemma drain_finally_lost key sid s : fs_lost (drain_finally key sid s) = fs_lost s.
Proof. unfold drain_finally, spawn_drain. by repeat case_match; simplify_eq/=. Qed.

Lemma resume_lost cfg tid now out s :
  cancels_execution s tid out = false -> fs_lost (resume cfg tid now out s) = fs_lost s.
Proof.
  unfold cancels_execution, resume. destruct (fs_tasks s !! tid) as [t|]; [|done]. cbn [fmap option_fmap option_map].
  destruct (dt_phase t) as [|d| |items metrics| |]; intros Hc.
  - by destruct (wait_for_window _ _ _).
  - done.
  - unfold take_batch. by repeat case_match; simplify_eq/=.
  - unfold finish_batch. by destruct out; repeat case_match; simplify_eq/=.
  - apply drain_finally_lost.
  - done.
Qed.

Lemma kept_lost cfg rt s : rtc (fstep_kept cfg) (init_fsystem rt) s -> fs_lost s = [].
Proof.
  intros H. apply (rtc_ind_r (fun s => fs_lost s = []) (init_fsystem rt)) in H; [done|done|].
  intros s1 s2 _ Hstep <-. destruct Hstep; [apply enqueue_lost|by apply resume_lost|done|done].
Qed.

(** C5. No request is stranded, none runs twice, none overtakes.  As long as no execution
    of a batch is cancelled, a request without an answer is in exactly one place: the
    batch being executed by, or the queue behind, the live drain task of the registered
    state of its key.  Where executions may be cancelled, the only other such requests are
    those of the batches that were being executed then ([fs_lost]).  Batches and queue are
    in arrival order, and a batch holds between one and [max_batch_size] requests. *)
Theorem frontier_requests_owned (window batch : Z) (rt : scheduler) (s : fsystem) :
  let cfg := init_frontier_config window batch in
  freachable cfg rt s ->
  (rtc (fstep_kept cfg) (init_fsystem rt) s -> forall fid, fs_futures s !! fid = Some BPending -> owned s fid)
  /\ (forall fid, fs_futures s !! fid = Some BPending -> fid ∈ fs_lost s \/ owned s fid)
  /\ (forall sid1 sid2 o1 o2 fid, fs_objects s !! sid1 = Some o1 -> fs_objects s !! sid2 = Some o2 ->
        fid ∈ chain s o1 -> fid ∈ chain s o2 -> sid1 = sid2)
  /\ (forall sid o, fs_objects s !! sid = Some o -> StronglySorted lt (chain s o))
  /\ (forall tid t items metrics, fs_tasks s !! tid = Some t -> dt_phase t = DExec items metrics ->
        1 <= Z.of_nat (length items) <= max_batch_size cfg /\ length metrics = length items).
Proof.
  intros cfg Hi%(freachable_inv _ _ _ (frontier_config_pos window batch)).
  change (finv cfg s) in Hi.
  assert (Hown : forall fid, fs_futures s !! fid = Some BPending -> fid ∈ fs_lost s \/ owned s fid).
  { intros fid Hp. destruct (fi_pending _ _ Hi _ Hp) as [|(sid & o & Ho & Hc)]; [by left|right].
    assert (Hown : exists key, dget key (fs_states s) = Some sid).
    { unfold chain in Hc. destruct (decide (bs_queue o = [])) as [Hq|Hq];
        [|exact (fi_queued _ _ Hi _ _ Ho Hq)].
      unfold queue_ids in Hc. rewrite Hq, app_nil_r in Hc. unfold task_phase in Hc.
      destruct (bs_task o) as [tid|] eqn:Hb; [|by apply not_elem_of_nil in Hc].
      destruct (fi_task _ _ Hi _ _ _ Ho Hb) as (t & Ht & Hs). rewrite Ht in Hc.
      destruct (fi_live _ _ Hi _ _ Ht) as [Hg _].
      - unfold live. intros Hd. rewrite Hd in Hc. by apply not_elem_of_nil in Hc.
      - exists (dt_key t). congruence. }
    destruct Hown as [key Hg].
    destruct (fi_registered _ _ Hi _ _ Hg) as (o1 & tid & t & H1 & H2 & H3 & H4 & H5 & H6).
    assert (o1 = o) as -> by congruence. by exists key, sid, o, tid, t. }
  split_and!.
  - intros Hk fid Hp. destruct (Hown fid Hp) as [Hl|]; [|done]. rewrite (kept_lost _ _ _ Hk) in Hl.
    by apply not_elem_of_nil in Hl.
  - exact Hown.
  - apply Hi.
  - intros sid o Ho. by apply (fi_chain _ _ Hi sid).
  - intros tid t items metrics Ht Hp. pose proof (fi_batch _ _ Hi _ _ Ht) as Hb. rewrite Hp in Hb.
    destruct Hb as [[Hb1 Hb2] Hm]. pose proof (frontier_config_pos window batch : 1 <= max_batch_size cfg) as Hpos.
    revert Hb2 Hpos. generalize (max_batch_size cfg). intros mx Hb2 Hpos. split; [lia|done].
Qed.

(** C6. Every request is served.  From any reachable state, if the executor
    returns one result per request of each batch, at most [8 * q + 5] resumptions
    of the drain tasks of a state object with [q] queued requests answer every
    request it holds, whether queued or in the batch being executed. *)
Theorem frontier_requests_complete (window batch : Z) (rt : scheduler) (s : fsystem)
    (sid : nat) (o : batch_state) (now : f64) (exec : list (Payload * frontier_metrics) -> list Result) :
  let cfg := init_frontier_config window batch in
  freachable cfg rt s -> (forall l, length (exec l) = length l) -> fs_objects s !! sid = Some o ->
  exists k, (k <= 8 * length (bs_queue o) + 5)%nat /\
  forall fid, fid ∈ chain s o -> exists f,
    fs_futures (drive k cfg sid now exec s) !! fid = Some f /\ batch_future_done f = true.
Proof.
  intros cfg Hi%(freachable_inv _ _ _ (frontier_config_pos window batch)) Hexec Ho.
  destruct (decide (bs_task o = None)) as [Hn|Hn].
  { exists 0%nat. split; [lia|]. intros fid Hc. exfalso. unfold chain in Hc. rewrite Hn in Hc.
    unfold queue_ids in Hc. simpl in Hc. destruct (decide (bs_queue o = [])) as [Hq|Hq].
    - rewrite Hq in Hc. by apply not_elem_of_nil in Hc.
    - destruct (fi_queued _ _ Hi _ _ Ho Hq) as [key Hg].
      destruct (fi_registered _ _ Hi _ _ Hg) as (o1 & tid & t & H1 & H2 & _). congruence. }
  destruct (drive_progress cfg sid now exec (work_of s sid) s o) as (k & Hk & (Hc & _ & Hl) & Hz);
    [apply frontier_config_pos|done..|].
  exists k. split.
  { etransitivity; [exact Hk|]. unfold work_of. rewrite (object_Some _ _ _ Ho). apply work_bound. }
  intros fid Hin. destruct (fi_chain _ _ Hi _ _ Ho) as [_ Hall]. rewrite Forall_forall in Hall.
  rewrite (object_Some _ _ _ Ho) in Hc. specialize (Hall _ Hin). simpl in Hall. rewrite <- Hl in Hall.
  apply lookup_lt_is_Some in Hall as [f Hf]. exists f. split; [done|].
  destruct (Hc _ Hin) as [Hin'|Hp].
  - rewrite (work_zero_chain _ _ Hz) in Hin'. by apply not_elem_of_nil in Hin'.
  - by destruct f.
Qed.

Lemma settle_other fid f fs fid' : fid' <> fid -> settle fid f fs !! fid' = fs !! fid'.
Proof. intros Hne. unfold settle. by rewrite list_lookup_alter_ne. Qed.

Lemma deliver_other items : forall values metrics fs fid,
  fid ∉ map pi_future items -> deliver items values metrics fs !! fid = fs !! fid.
Proof.
  induction items as [|i items IH]; intros [|v values] [|m metrics] fs fid Hn; try done; simpl.
  apply not_elem_of_cons in Hn as [Hne Hn]. rewrite IH by done. by apply settle_other.
Qed.

Lemma deliver_position items : forall values metrics fs k i v m,
  NoDup (map pi_future items) -> items !! k = Some i -> values !! k = Some v -> metrics !! k = Some m ->
  fs !! pi_future i = Some BPending ->
  deliver items values metrics fs !! pi_future i = Some (BResult (Build_batch_result v m)).
Proof.
  induction items as [|i0 items IH]; intros [|v0 values] [|m0 metrics] fs [|k] i v m Hnd Hi Hv Hm Hf;
    try done; simpl in *; apply NoDup_cons in Hnd as [Hn Hnd].
  - simplify_eq. rewrite deliver_other by done. unfold settle. by rewrite list_lookup_alter_eq, Hf.
  - eapply IH; try done. rewrite settle_other; [done|]. intros Heq. apply Hn. rewrite <- Heq.
    apply list_elem_of_fmap. exists i. split; [done|]. by eapply list_elem_of_lookup_2.
Qed.

Lemma fail_batch_all items e : forall fs fid,
  fid ∈ map pi_future items -> fs !! fid = Some BPending ->
  fail_batch items e fs !! fid = Some (BException e).
Proof.
  unfold fail_batch. induction items as [|i items IH]; intros fs fid Hin Hf; simpl in *;
    [by apply not_elem_of_nil in Hin|].
  destruct (decide (fid = pi_future i)) as [->|Hne].
  - assert (Hs : settle (pi_future i) (BException e) fs !! pi_future i = Some (BException e)).
    { unfold settle. by rewrite list_lookup_alter_eq, Hf. }
    revert Hs. generalize (settle (pi_future i) (BException e) fs) as fs'. clear.
    induction items as [|j items IH]; intros fs' Hs; simpl; [done|]. apply IH. unfold settle.
    destruct (decide (pi_future i = pi_future j)) as [<-|Hne].
    + by rewrite list_lookup_alter_eq, Hs.
    + by rewrite list_lookup_alter_ne.
  - apply IH; [by apply elem_of_cons in Hin as [?|?]|]. by rewrite settle_other.
Qed.

(** A batch answers each of its own requests.  When the execution of a batch
    comes back with one value per request, the [k]-th pending request receives the
    [k]-th value with the metrics of position [k]; when it raises, or returns the
    wrong number of values, every pending request of the batch receives the
    error; a request already answered or cancelled is left alone; and the drain
    loop goes on. *)
Theorem batch_answers_its_requests (window batch : Z) (rt : scheduler) (s : fsystem)
    (tid : nat) (t : drain_task) (items : list pending_item) (metrics : list frontier_metrics)
    (now : f64) (out : exec_outcome) :
  let cfg := init_frontier_config window batch in
  freachable cfg rt s -> fs_tasks s !! tid = Some t -> dt_phase t = DExec items metrics ->
  let s' := resume cfg tid now out s in
  match out with
  | XValues values =>
      dt_phase <$> fs_tasks s' !! tid = Some DWait
      /\ (length values = length items -> forall k i, items !! k = Some i ->
            fs_futures s !! pi_future i = Some BPending ->
            exists v m, values !! k = Some v /\ metrics !! k = Some m
              /\ fs_futures s' !! pi_future i = Some (BResult (Build_batch_result v m)))
      /\ (length values <> length items -> forall i, i ∈ items ->
            fs_futures s !! pi_future i = Some BPending ->
            fs_futures s' !! pi_future i
            = Some (BException (WrongResultCount (Z.of_nat (length items)) (Z.of_nat (length values)))))
  | XRaises e =>
      dt_phase <$> fs_tasks s' !! tid = Some DWait
      /\ forall i, i ∈ items -> fs_futures s !! pi_future i = Some BPending ->
           fs_futures s' !! pi_future i = Some (BException (ExecutorRaised e))
  | XCancelled => fs_futures s' = fs_futures s
  end.
Proof.
  intros cfg Hi%(freachable_inv _ _ _ (frontier_config_pos window batch)) Ht Hp s'.
  assert (Hl : live t) by (unfold live; by rewrite Hp).
  destruct (fi_live _ _ Hi _ _ Ht Hl) as [_ (o & Ho & Hb)].
  destruct (fi_chain _ _ Hi _ _ Ho) as [Hs _].
  assert (Hnd : NoDup (map pi_future items)).
  { unfold chain, task_phase in Hs. rewrite Hb, Ht, Hp in Hs. apply StronglySorted_app in Hs as (_ & Hs & _).
    by apply (StronglySorted_lt_NoDup _ Hs). }
  pose proof (fi_batch _ _ Hi _ _ Ht) as Hbt. rewrite Hp in Hbt. destruct Hbt as [_ Hm].
  assert (Hin : forall i, i ∈ items -> pi_future i ∈ map pi_future items)
    by (intros; apply list_elem_of_fmap; eauto).
  unfold s', resume. rewrite Ht, Hp. unfold finish_batch. destruct out as [values|e|].
  - case_bool_decide as Hv; simpl; rewrite list_lookup_alter_eq, Ht; (split; [done|]; split; [|]); try done.
    + intros _ k i Hk Hf. apply lookup_lt_Some in Hk as Hlt.
      destruct (lookup_lt_is_Some_2 values k) as [v Hvk]; [lia|].
      destruct (lookup_lt_is_Some_2 metrics k) as [m Hmk]; [lia|].
      exists v, m. split_and!; [done..|]. by eapply deliver_position.
    + intros _ i Hii Hf. by apply fail_batch_all; [apply Hin|].
  - simpl. rewrite list_lookup_alter_eq, Ht. split; [done|]. intros i Hii Hf.
    by apply fail_batch_all; [apply Hin|].
  - done.
Qed.

(** Concrete histories. *)
Inductive fevent :=
| FEnqueue (key : string) (payload : Payload) (now : f64)
| FResume (tid : nat) (now : f64) (out : exec_outcome).

Definition run_event (cfg : frontier_config) (s : fsystem) (e : fevent) : fsystem :=
  match e with
  | FEnqueue key payload now => fst (enqueue cfg key payload now s)
  | FResume tid now out => resume cfg tid now out s
  end.

Definition run_events (cfg : frontier_config) (rt : scheduler) (es : list fevent) : fsystem :=
  fold_left (run_event cfg) es (init_fsystem rt).

Lemma run_events_reachable cfg rt es : freachable cfg rt (run_events cfg rt es).
Proof.
  unfold run_events. assert (H : freachable cfg rt (init_fsystem rt)) by constructor. revert H.
  generalize (init_fsystem rt) at 1 2 as s. induction es as [|e es IH]; intros s H; simpl; [done|].
  apply IH. eapply rtc_r; [exact H|]. destruct e; [apply fstep_enqueue|apply fstep_resume].
Qed.

End frontier.

Arguments fevent : clear implicits.

(** Three requests, batches of two: the first two are being executed. *)
Definition three_requests : list (fevent nat nat unit) :=
  [ FEnqueue "m" 10%nat (f_of_Z 0); FEnqueue "m" 11%nat (f_of_Z 0); FEnqueue "m" 12%nat (f_of_Z 0);
    FResume 0 (f_of_Z 1) XCancelled; FResume 0 (f_of_Z 1) XCancelled ].

Definition three_cfg : frontier_config := init_frontier_config 10 2.

Lemma three_requests_kept :
  rtc (fstep_kept three_cfg) (init_fsystem init_scheduler) (run_events three_cfg init_scheduler three_requests).
Proof.
  unfold run_events, three_requests. cbn [fold_left run_event].
  repeat (eapply rtc_r; [|first [apply kept_enqueue | apply kept_resume; by vm_compute]]). apply rtc_refl.
Qed.

Lemma frontier_requests_owned_witness :
  let s := run_events three_cfg init_scheduler three_requests in
  fs_futures s !! 2%nat = Some BPending
  /\ exists key sid o tid t, dget key (fs_states s) = Some sid /\ fs_objects s !! sid = Some o
       /\ bs_task o = Some tid /\ fs_tasks s !! tid = Some t /\ dt_phase t <> DDone
       /\ dt_state t = sid /\ 2%nat ∈ chain s o.
Proof.
  intros s. split; [vm_compute; reflexivity|].
  destruct (frontier_requests_owned 10 2 init_scheduler s) as [H _];
    [apply run_events_reachable|].
  apply (H three_requests_kept 2%nat). vm_compute. reflexivity.
Defined.

Lemma frontier_requests_complete_witness :
  let s := run_events three_cfg init_scheduler three_requests in
  exists o k, fs_objects s !! 0%nat = Some o /\ chain s o = [0; 1; 2]%nat
  /\ forall fid, fid ∈ chain s o -> exists f,
       fs_futures (drive k three_cfg 0 (f_of_Z 2) (map (fun p => fst p + 1)%nat) s) !! fid = Some f
       /\ batch_future_done f = true.
Proof.
  intros s. eexists.
  destruct (frontier_requests_complete 10 2 init_scheduler s 0 (object s 0) (f_of_Z 2)
              (map (fun p => fst p + 1)%nat)) as (k & _ & Hk).
  - apply run_events_reachable.
  - intros l. apply length_map.
  - reflexivity.
  - exists k. split; [|split; [|exact Hk]]; reflexivity.
Defined.

Lemma batch_answers_its_requests_witness :
  let s := run_events three_cfg init_scheduler three_requests in
  exists v m, [7; 8]%nat !! 1%nat = Some v
  /\ fs_futures (resume three_cfg 0 (f_of_Z 3) (XValues [7; 8]%nat) s) !! 1%nat
     = Some (BResult (Build_batch_result v m)).
Proof.
  intros s.
  assert (Ht : exists t items metrics, fs_tasks s !! 0%nat = Some t /\ dt_phase t = DExec items metrics
    /\ length items = 2%nat /\ pi_future <$> items !! 1%nat = Some 1%nat).
  { do 3 eexists. split; [reflexivity|]. split; [reflexivity|]. split; reflexivity. }
  destruct Ht as (t & items & metrics & Ht & Hp & Hl & Hi).
  destruct (batch_answers_its_requests 10 2 init_scheduler s 0 t items metrics (f_of_Z 3) (XValues [7; 8]%nat))
    as (_ & H & _); [apply run_events_reachable|done|done|].
  apply fmap_Some in Hi as (i & Hi & Hf).
  destruct (H (eq_sym Hl) 1%nat i Hi) as (v & m & Hv & Hm & Hr); [rewrite <- Hf; vm_compute; reflexivity|].
  exists v, m. split; [exact Hv|]. rewrite <- Hf in Hr. exact Hr.
Defined.

(** A cancelled execution strands its batch.  [except Exception] does not
    catch the [CancelledError] of a cancelled [execute_batch]: the drain task ends,
    the key is forgotten, nothing runs any more, and the two requests of the batch
    wait for ever. *)
Theorem cancelled_execution_strands_the_batch :
  let s := run_events three_cfg init_scheduler
             (take 2 three_requests
              ++ [ FResume 0 (f_of_Z 1) XCancelled; FResume 0 (f_of_Z 1) XCancelled;
                   FResume 0 (f_of_Z 1) XCancelled; FResume 0 (f_of_Z 1) XCancelled ]) in
  fs_futures s = [BPending; BPending] /\ fs_states s = [] /\ map dt_phase (fs_tasks s) = [DDone].
Proof. vm_compute. done. Qed.
