(* ===== verification/Cancellation.v ===== *)
(** Cancellation handles: src/src/lewlm/runtime/cancellation.py.

    [RequestCancellationRegistry] with its four dictionaries in insertion order,
    [CancellationToken]s as objects in a store indexed by allocation number, and
    [utc_now] as an argument (microseconds).  Every method of the registry runs
    under [self._lock], so each is one atomic step.  Handles are the bytes of the
    Python string: a valid handle is ASCII, so lengths agree. *)

From S2P Require Import Prelude Sha256.

Open Scope Z_scope.

(** ** Request handles *)

Definition MAX_REQUEST_HANDLE_CHARACTERS : nat := 128.

(** The class [[A-Za-z0-9._~-]]. *)
Definition handle_char (c : Ascii.ascii) : bool :=
  let n := Z.of_nat (Ascii.nat_of_ascii c) in
  ((65 <=? n) && (n <=? 90) || (97 <=? n) && (n <=? 122) || (48 <=? n) && (n <=? 57)
   || (n =? 46) || (n =? 95) || (n =? 126) || (n =? 45))%bool.

Definition valid_request_handle (request_id : string) : bool :=
  ((1 <=? String.length request_id)%nat
   && (String.length request_id <=? MAX_REQUEST_HANDLE_CHARACTERS)%nat
   && forallb handle_char (String.list_ascii_of_string request_id))%bool.

Inductive cancel_error :=
| InvalidRequestError
| RequestHandleConflictError (message : string)
| ToolAuthorizationError
| RequestCancelledError.

Definition validate_request_handle (request_id : string) : result cancel_error string :=
  if valid_request_handle request_id then Ok request_id else Err InvalidRequestError.

(** ** Tokens *)

Inductive cancellation_state := CANCELLING | PENDING | CANCELLED | COMPLETED.

(** [RequestCancellationRecord]; [runtime_instance_id] is the registry's constant. *)
Record cancellation_record := {
  cr_request_id : string;
  cr_state : cancellation_state;
  cr_application_id : option string;
  cr_requested_at : option Z;
  cr_expires_at : option Z;
  cr_completed_at : option Z
}.

#[export] Instance cancellation_record_eta : Eta cancellation_record := fun r =>
  Build_cancellation_record (cr_request_id r) (cr_state r) (cr_application_id r)
    (cr_requested_at r) (cr_expires_at r) (cr_completed_at r).

(** [CancellationToken]; [tk_waiters] are the futures of [wait_cancelled]. *)
Record token := {
  tk_request_id : string;
  tk_application_id : option string;
  tk_credential_fingerprint : option string;
  tk_requested_at : option Z;
  tk_cancelled : bool;
  tk_observed : bool;
  tk_waiters : list nat
}.

#[export] Instance token_eta : Eta token := fun r =>
  Build_token (tk_request_id r) (tk_application_id r) (tk_credential_fingerprint r)
    (tk_requested_at r) (tk_cancelled r) (tk_observed r) (tk_waiters r).

(** [CancellationToken.cancel]: the token, its requested time, and the futures
    handed to [_resolve_cancellation_waiter]. *)
Definition token_cancel (now : Z) (t : token) : token * Z * list nat :=
  let requested := match tk_requested_at t with Some r => r | None => now end in
  (t <| tk_requested_at := Some requested |> <| tk_cancelled := true |> <| tk_waiters := [] |>,
   requested, tk_waiters t).

(** [raise_if_cancelled] and [observe_if_cancelled]: the checkpoint's answer. *)
Definition observe_if_cancelled (t : token) : token * bool :=
  if tk_cancelled t then (t <| tk_observed := true |>, true) else (t, false).

Definition raise_if_cancelled (t : token) : token * result cancel_error unit :=
  if tk_cancelled t then (t <| tk_observed := true |>, Err RequestCancelledError) else (t, Ok tt).

(** ** The registry *)

(** [_PendingIntent]. *)
Record pending_intent := {
  in_application_id : option string;
  in_credential_fingerprint : option string;
  in_requested_at : Z;
  in_expires_at : Z;
  in_trusted_owner_override : bool
}.

Record registry_config := {
  intent_ttl : Z;                (* microseconds *)
  max_tracked_requests : Z;
  credential_salt : list Z       (* [secrets.token_bytes(32)] *)
}.

Definition init_registry_config (ttl max_tracked : Z) (salt : list Z) : registry_config :=
  {| intent_ttl := Z.max 1000000 ttl; max_tracked_requests := Z.max 1 max_tracked;
     credential_salt := salt |}.

Record registry := {
  rg_tokens : list token;
  rg_active : list (string * nat);
  rg_pending : list (string * pending_intent);
  rg_terminal : list (string * cancellation_record);
  rg_terminal_owners : list (string * (option string * option string))
}.

#[export] Instance registry_eta : Eta registry := fun r =>
  Build_registry (rg_tokens r) (rg_active r) (rg_pending r) (rg_terminal r) (rg_terminal_owners r).

Definition init_registry : registry := Build_registry [] [] [] [] [].

Definition credential_fingerprint (cfg : registry_config) (credential : option string) : option string :=
  match credential with
  | None => None
  | Some c => Some (hmac_hexdigest (credential_salt cfg) (encode_ascii c))
  end.

(** [_owners_match]: the application identifiers are ignored;
    [hmac.compare_digest] is equality. *)
Definition owners_match (owner_fingerprint caller_fingerprint : option string) : bool :=
  match owner_fingerprint, caller_fingerprint with
  | None, None => true
  | Some o, Some c => bool_decide (o = c)
  | _, _ => false
  end.

Definition require_owner (owner_fingerprint caller_fingerprint : option string) (trusted_caller : bool)
    : result cancel_error unit :=
  if (trusted_caller || owners_match owner_fingerprint caller_fingerprint)%bool
  then Ok tt else Err ToolAuthorizationError.

(** [_expire_intents_locked]. *)
Definition expire_intents (now : Z) (pending : list (string * pending_intent))
    : list (string * pending_intent) :=
  List.filter (fun ki => now <? in_expires_at (snd ki)) pending.

(** [_evict_locked] and [_evict_terminal_locked]: [popitem(last=False)] until the
    bound holds, i.e. dropping the oldest entries in excess. *)
Definition excess {V} (cfg : registry_config) (entries : list (string * V)) : nat :=
  Z.to_nat (Z.of_nat (length entries) - max_tracked_requests cfg).

Definition evict {V} (cfg : registry_config) (entries : list (string * V)) : list (string * V) :=
  drop (excess cfg entries) entries.

Definition evict_terminal (cfg : registry_config) (r : registry) : registry :=
  let n := excess cfg (rg_terminal r) in
  let dropped := dkeys (take n (rg_terminal r)) in
  r <| rg_terminal ::= drop n |>
    <| rg_terminal_owners ::= fun o => fold_left (fun o k => ddel k o) dropped o |>.

(** Entering [track]: the number of the new token. *)
Definition track (cfg : registry_config) (now : Z) (request_id : string) (application_id : option string)
    (credential : option string) (r : registry) : registry * result cancel_error nat :=
  match validate_request_handle request_id with
  | Err e => (r, Err e)
  | Ok request_id =>
      let fingerprint := credential_fingerprint cfg credential in
      let tok := Build_token request_id application_id fingerprint None false false [] in
      let r := r <| rg_pending ::= expire_intents now |> in
      if dmem request_id (rg_active r) then
        (r, Err (RequestHandleConflictError "The request handle is already active."))
      else
        let r := if dmem request_id (rg_terminal r)
                 then r <| rg_terminal ::= ddel request_id |> <| rg_terminal_owners ::= ddel request_id |>
                 else r in
        let tid := length (rg_tokens r) in
        match dget request_id (rg_pending r) with
        | Some intent =>
            if (negb (in_trusted_owner_override intent)
                && negb (owners_match (in_credential_fingerprint intent) fingerprint))%bool
            then (r, Err (RequestHandleConflictError
                            "The request handle is reserved by another cancellation owner."))
            else
              let r := r <| rg_pending ::= ddel request_id |> in
              let tok := tok <| tk_requested_at := Some (in_requested_at intent) |> in
              let '(tok, _, _) := token_cancel now tok in
              (r <| rg_tokens ::= fun ts => ts ++ [tok] |> <| rg_active ::= dset request_id tid |>, Ok tid)
        | None =>
            (r <| rg_tokens ::= fun ts => ts ++ [tok] |> <| rg_active ::= dset request_id tid |>, Ok tid)
        end
  end.

(** [_release], the end of the [track] block. *)
Definition release (cfg : registry_config) (now : Z) (tid : nat) (r : registry) : registry :=
  match rg_tokens r !! tid with
  | None => r
  | Some tok =>
      let h := tk_request_id tok in
      let r := if bool_decide (dget h (rg_active r) = Some tid)
               then r <| rg_active ::= ddel h |> else r in
      let record := Build_cancellation_record h (if tk_observed tok then CANCELLED else COMPLETED)
                      (tk_application_id tok) (tk_requested_at tok) None (Some now) in
      let r := r <| rg_terminal ::= dset h record |> in
      let r := r <| rg_terminal_owners ::= dset h (tk_application_id tok, tk_credential_fingerprint tok) |> in
      let r := r <| rg_terminal ::= dmove_to_end h |> in
      evict_terminal cfg r
  end.

(** [cancel]. *)
Definition cancel_active (now : Z) (request_id : string) (tid : nat) (tok : token) (r : registry)
    : registry * cancellation_record * list nat :=
  let '(tok', requested, woken) := token_cancel now tok in
  (r <| rg_tokens ::= <[tid := tok']> |>,
   Build_cancellation_record request_id CANCELLING (tk_application_id tok) (Some requested) None None,
   woken).

Definition cancel_terminal (now : Z) (request_id : string) (terminal : cancellation_record) (r : registry)
    : registry * cancellation_record :=
  match cr_requested_at terminal with
  | None =>
      let terminal := terminal <| cr_requested_at := Some now |> in
      (r <| rg_terminal ::= dset request_id terminal |>, terminal)
  | Some _ => (r, terminal)
  end.

Definition cancel_pending (cfg : registry_config) (request_id : string) (intent : pending_intent)
    (r : registry) : registry * cancellation_record :=
  (r <| rg_pending ::= fun p => evict cfg (dmove_to_end request_id (dset request_id intent p)) |>,
   Build_cancellation_record request_id PENDING (in_application_id intent)
     (Some (in_requested_at intent)) (Some (in_expires_at intent)) None).

Definition cancel (cfg : registry_config) (now : Z) (request_id : string) (application_id : option string)
    (credential : option string) (trusted_caller : bool) (r : registry)
    : registry * result cancel_error (cancellation_record * list nat) :=
  match validate_request_handle request_id with
  | Err e => (r, Err e)
  | Ok request_id =>
      let fingerprint := credential_fingerprint cfg credential in
      let r := r <| rg_pending ::= expire_intents now |> in
      match dget request_id (rg_active r) with
      | Some tid =>
          match rg_tokens r !! tid with
          | None => (r, Err InvalidRequestError)    (* no such object: unreachable *)
          | Some tok =>
              match require_owner (tk_credential_fingerprint tok) fingerprint trusted_caller with
              | Err e => (r, Err e)
              | Ok _ => let '(r, record, woken) := cancel_active now request_id tid tok r in
                        (r, Ok (record, woken))
              end
          end
      | None =>
          match dget request_id (rg_terminal r) with
          | Some terminal =>
              let owner := match dget request_id (rg_terminal_owners r) with
                           | Some (_, f) => f
                           | None => None
                           end in
              match require_owner owner fingerprint trusted_caller with
              | Err e => (r, Err e)
              | Ok _ => let '(r, record) := cancel_terminal now request_id terminal r in
                        (r, Ok (record, []))
              end
          | None =>
              match dget request_id (rg_pending r) with
              | Some existing =>
                  match require_owner (in_credential_fingerprint existing) fingerprint trusted_caller with
                  | Err e => (r, Err e)
                  | Ok _ => let '(r, record) := cancel_pending cfg request_id existing r in
                            (r, Ok (record, []))
                  end
              | None =>
                  let intent := Build_pending_intent application_id fingerprint now
                                  (now + intent_ttl cfg) trusted_caller in
                  let '(r, record) := cancel_pending cfg request_id intent r in
                  (r, Ok (record, []))
              end
          end
      end
  end.

(** A checkpoint of a running request. *)
Definition checkpoint (tid : nat) (r : registry) : registry :=
  r <| rg_tokens ::= alter (fun t => fst (observe_if_cancelled t)) tid |>.

(** ** Histories *)

(** A [track] block leaves once, while its token is the active one. *)
Inductive rstep (cfg : registry_config) (r : registry) : registry -> Prop :=
| rstep_track now h app cred : rstep cfg r (fst (track cfg now h app cred r))
| rstep_release now tid tok :
    rg_tokens r !! tid = Some tok -> dget (tk_request_id tok) (rg_active r) = Some tid ->
    rstep cfg r (release cfg now tid r)
| rstep_cancel now h app cred trusted : rstep cfg r (fst (cancel cfg now h app cred trusted r))
| rstep_checkpoint tid : rstep cfg r (checkpoint tid r).

Definition rreachable (cfg : registry_config) (r : registry) : Prop := rtc (rstep cfg) init_registry r.

Definition token_ok (t : token) : Prop :=
  (tk_observed t = true -> tk_cancelled t = true)
  /\ (tk_cancelled t = true <-> tk_requested_at t <> None).

Definition record_ok (h : string) (rec : cancellation_record) : Prop :=
  cr_request_id rec = h /\ cr_completed_at rec <> None
  /\ (cr_state rec = COMPLETED \/ (cr_state rec = CANCELLED /\ cr_requested_at rec <> None)).

Record rinv (cfg : registry_config) (r : registry) : Prop := {
  ri_active_nodup : NoDup (dkeys (rg_active r));
  ri_pending_nodup : NoDup (dkeys (rg_pending r));
  ri_terminal_nodup : NoDup (dkeys (rg_terminal r));
  ri_owners_nodup : NoDup (dkeys (rg_terminal_owners r));
  ri_active : forall h tid, dget h (rg_active r) = Some tid ->
    exists tok, rg_tokens r !! tid = Some tok /\ tk_request_id tok = h;
  ri_active_pending : forall h, h ∈ dkeys (rg_active r) -> h ∉ dkeys (rg_pending r);
  ri_active_terminal : forall h, h ∈ dkeys (rg_active r) -> h ∉ dkeys (rg_terminal r);
  ri_pending_terminal : forall h, h ∈ dkeys (rg_pending r) -> h ∉ dkeys (rg_terminal r);
  ri_owners : forall h, h ∈ dkeys (rg_terminal_owners r) <-> h ∈ dkeys (rg_terminal r);
  ri_tokens : forall tid tok, rg_tokens r !! tid = Some tok -> token_ok tok;
  ri_records : forall h rec, dget h (rg_terminal r) = Some rec -> record_ok h rec;
  ri_pending_bound : Z.of_nat (length (rg_pending r)) <= max_tracked_requests cfg;
  ri_terminal_bound : Z.of_nat (length (rg_terminal r)) <= max_tracked_requests cfg
}.

(** ** Dictionary lemmas *)

Section filter_odict.
Context {V : Type} (f : string * V -> bool).

Lemma dkeys_filter_sub d k : k ∈ dkeys (List.filter f d) -> k ∈ dkeys d.
  Proof.
    induction d as [|[k' v] d IH]; simpl; [done|]. case_if; simpl; set_solver.
  Qed.

Lemma NoDup_filter_keys d : NoDup (dkeys d) -> NoDup (dkeys (List.filter f d)).
  Proof.
    induction d as [|[k v] d IH]; simpl; [done|]. intros [Hn Hnd]%NoDup_cons.
    case_if; [|auto]. simpl. constructor; [|auto]. by intros ?%dkeys_filter_sub.
  Qed.

Lemma dget_filter d k v :
    NoDup (dkeys d) -> dget k (List.filter f d) = Some v <-> dget k d = Some v /\ f (k, v) = true.
  Proof.
    intros Hnd. split.
    - intros Hg%dget_Some_elem. apply list_elem_of_In, filter_In in Hg as [Hin Hf].
      split; [|done]. by apply dget_elem; [|apply list_elem_of_In].
    - intros [Hg Hf]. apply dget_elem; [by apply NoDup_filter_keys|].
      apply list_elem_of_In, filter_In. split; [|done]. by apply list_elem_of_In, dget_Some_elem.
  Qed.
End filter_odict.

Section odict_more.
Context {V : Type}.
  Implicit Types (d : list (string * V)).

Lemma NoDup_drop_keys n d : NoDup (dkeys d) -> NoDup (dkeys (drop n d)).
  Proof.
    intros H. rewrite <- (take_drop n d), dkeys_app in H. by apply NoDup_app in H as (_ & _ & ?).
  Qed.

Lemma dkeys_drop_sub n d k : k ∈ dkeys (drop n d) -> k ∈ dkeys d.
  Proof. intros H. rewrite <- (take_drop n d), dkeys_app. apply elem_of_app. by right. Qed.

Lemma dget_drop n d k v : NoDup (dkeys d) -> dget k (drop n d) = Some v -> dget k d = Some v.
  Proof.
    intros Hnd Hg%dget_Some_elem. apply dget_elem; [done|].
    rewrite <- (take_drop n d). apply elem_of_app. by right.
  Qed.

Lemma dmove_to_end_last k v d : dget k d = Some v -> dmove_to_end k d = ddel k d ++ [(k, v)].
  Proof. unfold dmove_to_end. by intros ->. Qed.

Lemma dkeys_ddel d k k' : NoDup (dkeys d) -> k' ∈ dkeys (ddel k d) <-> k' ∈ dkeys d /\ k' <> k.
  Proof.
    intros Hnd. split.
    - intros H. split; [by eapply dkeys_ddel_sub|]. intros ->. by eapply ddel_not_elem.
    - intros [H Hne]. destruct (dget k' d) as [v|] eqn:Hg; [|by apply dget_None in Hg].
      eapply dget_Some_key. by rewrite dget_ddel_ne.
  Qed.

  (** Assigning and moving to the end: the entry is last, the others stay. *)
Lemma dset_move k v d :
    NoDup (dkeys d) -> dmove_to_end k (dset k v d) = ddel k (dset k v d) ++ [(k, v)]
    /\ NoDup (dkeys (dmove_to_end k (dset k v d)))
    /\ (forall k', k' ∈ dkeys (dmove_to_end k (dset k v d)) <-> k' = k \/ k' ∈ dkeys d).
  Proof.
    intros Hnd. rewrite (dmove_to_end_last _ v) by apply dget_dset_eq. split; [done|].
    pose proof (NoDup_dset _ k v Hnd) as Hs. split.
    - rewrite dkeys_app. apply NoDup_app. split; [by apply NoDup_ddel|]. split; [|apply NoDup_singleton].
      intros k' Hk' ->%list_elem_of_singleton. by eapply ddel_not_elem in Hk'.
    - intros k'. rewrite dkeys_app, elem_of_app, dkeys_ddel, dkeys_dset_elem by done. simpl.
      rewrite list_elem_of_singleton. destruct (decide (k' = k)); naive_solver.
  Qed.

Lemma drop_keeps_last (n : nat) d kv : (n <= length d)%nat -> kv ∈ drop n (d ++ [kv]).
  Proof. intros H. rewrite drop_app_le by done. apply elem_of_app. right. by apply list_elem_of_singleton. Qed.

Lemma excess_bound cfg d : 1 <= max_tracked_requests cfg ->
    Z.of_nat (length (evict cfg d)) <= max_tracked_requests cfg.
  Proof. intros Hm. unfold evict, excess. rewrite length_drop. lia. Qed.

Lemma evict_keeps_last cfg d kv : 1 <= max_tracked_requests cfg -> kv ∈ evict cfg (d ++ [kv]).
  Proof.
    intros Hm. unfold evict. apply drop_keeps_last. unfold excess. rewrite length_app. simpl. lia.
  Qed.
End odict_more.

Lemma ddels_owner_keys (ks : list string) : forall (o : list (string * (option string * option string))),
  NoDup (dkeys o) ->
  NoDup (dkeys (fold_left (fun o k => ddel k o) ks o))
  /\ (forall h, h ∈ dkeys (fold_left (fun o k => ddel k o) ks o) <-> h ∈ dkeys o /\ h ∉ ks)
  /\ (forall h, h ∉ ks -> dget h (fold_left (fun o k => ddel k o) ks o) = dget h o).
Proof.
  induction ks as [|k ks IH]; intros o Hnd; simpl.
  { split_and!; [done| |done]. intros h. split; [intros H; split; [done|apply not_elem_of_nil]|by intros []]. }
  destruct (IH (ddel k o) (NoDup_ddel _ _ Hnd)) as (H1 & H2 & H3). split_and!; [done| |].
  - intros h. rewrite H2, dkeys_ddel by done. set_solver.
  - intros h Hn. apply not_elem_of_cons in Hn as [Hne Hn]. rewrite H3 by done. by apply dget_ddel_ne.
Qed.

(** ** The invariant is preserved *)

Lemma rinv_expire cfg now r : rinv cfg r -> rinv cfg (r <| rg_pending ::= expire_intents now |>).
Proof.
  intros []. split; simpl; try done; unfold expire_intents.
  - by apply NoDup_filter_keys.
  - intros h Hh Hp%dkeys_filter_sub. by eapply ri_active_pending0.
  - intros h Hh%dkeys_filter_sub. by apply ri_pending_terminal0.
  - pose proof (filter_length_le (fun ki : string * pending_intent => now <? in_expires_at (snd ki)) (rg_pending r)).
    lia.
Qed.

Lemma rinv_drop_terminal cfg h r :
  rinv cfg r -> rinv cfg (r <| rg_terminal ::= ddel h |> <| rg_terminal_owners ::= ddel h |>).
Proof.
  intros []. split; simpl; try done.
  - by apply NoDup_ddel.
  - by apply NoDup_ddel.
  - intros k Hk Ht%dkeys_ddel_sub. by eapply ri_active_terminal0.
  - intros k Hk Ht%dkeys_ddel_sub. by eapply ri_pending_terminal0.
  - intros k. by rewrite !dkeys_ddel, ri_owners0.
  - intros k rec. destruct (decide (k = h)) as [->|]; [by rewrite dget_ddel_eq|].
    rewrite dget_ddel_ne by done. apply ri_records0.
  - pose proof (length_ddel_le (rg_terminal r) h). lia.
Qed.

Lemma rinv_drop_pending cfg h r : rinv cfg r -> rinv cfg (r <| rg_pending ::= ddel h |>).
Proof.
  intros []. split; simpl; try done.
  - by apply NoDup_ddel.
  - intros k Hk Ht%dkeys_ddel_sub. by eapply ri_active_pending0.
  - intros k Hk%dkeys_ddel_sub. by apply ri_pending_terminal0.
  - pose proof (length_ddel_le (rg_pending r) h). lia.
Qed.

(** A fresh token becomes the active one of a handle known nowhere else. *)
Lemma rinv_activate cfg tok r :
  rinv cfg r -> token_ok tok -> tk_request_id tok ∉ dkeys (rg_active r) ->
  tk_request_id tok ∉ dkeys (rg_pending r) -> tk_request_id tok ∉ dkeys (rg_terminal r) ->
  rinv cfg (r <| rg_tokens ::= fun ts => ts ++ [tok] |>
              <| rg_active ::= dset (tk_request_id tok) (length (rg_tokens r)) |>).
Proof.
  intros [] Htok Ha Hp Ht. split; simpl; try done.
  - by apply NoDup_dset.
  - intros h tid. destruct (decide (h = tk_request_id tok)) as [->|].
    + rewrite dget_dset_eq. intros [= <-]. exists tok. split; [|done].
      apply lookup_snoc_Some. by right.
    + rewrite dget_dset_ne by done. intros (t & Ht' & Hh)%ri_active0. exists t. split; [|done].
      apply lookup_snoc_Some. left. split; [by eapply lookup_lt_Some|done].
  - intros h [->|Hh]%dkeys_dset_elem; [done|]. by apply ri_active_pending0.
  - intros h [->|Hh]%dkeys_dset_elem; [done|]. by apply ri_active_terminal0.
  - intros tid t [[_ H]|[_ <-]]%lookup_snoc_Some; [|done]. by eapply ri_tokens0.
Qed.

Lemma rinv_track cfg now h app cred r : rinv cfg r -> rinv cfg (fst (track cfg now h app cred r)).
Proof.
  intros Hi. unfold track, validate_request_handle. case_if; [|done].
  pose proof (rinv_expire cfg now r Hi) as Hi1.
  set (r1 := (r <| rg_pending ::= expire_intents now |>)) in *.
  destruct (dmem h (rg_active r1)) eqn:Ha; [done|].
  assert (Hna : h ∉ dkeys (rg_active r1)).
  { apply dget_None. unfold dmem in Ha. by destruct (dget h (rg_active r1)). }
  set (r2 := if dmem h (rg_terminal r1) then _ else r1).
  assert (H2 : rinv cfg r2 /\ rg_active r2 = rg_active r1 /\ rg_pending r2 = rg_pending r1
               /\ rg_tokens r2 = rg_tokens r1 /\ h ∉ dkeys (rg_terminal r2)).
  { subst r2. destruct (dmem h (rg_terminal r1)) eqn:Ht.
    - split; [by apply rinv_drop_terminal|]. split_and!; try done. simpl. apply ddel_not_elem, Hi1.
    - split_and!; try done. apply dget_None. unfold dmem in Ht. by destruct (dget h (rg_terminal r1)). }
  destruct H2 as (Hi2 & Ha2 & Hp2 & Htk2 & Hnt). clearbody r2.
  destruct (dget h (rg_pending r2)) as [intent|] eqn:Hg.
  - case_if; [done|]. cbn [fst token_cancel tk_requested_at set_field].
    set (r3 := (r2 <| rg_pending ::= ddel h |>)). assert (Hi3 : rinv cfg r3) by by apply rinv_drop_pending.
    apply (rinv_activate cfg (Build_token h app (credential_fingerprint cfg cred)
             (Some (in_requested_at intent)) true false []) r3 Hi3); simpl.
    + split; simpl; [done|]. split; done.
    + by rewrite Ha2.
    + apply ddel_not_elem, Hi2.
    + done.
  - cbn [fst]. apply (rinv_activate cfg (Build_token h app (credential_fingerprint cfg cred)
             None false false []) r2 Hi2); simpl.
    + split; simpl; [done|]. split; done.
    + by rewrite Ha2.
    + by apply dget_None.
    + done.
Qed.

(** Replacing a token by one of the same handle. *)
Lemma rinv_token cfg tid f r :
  rinv cfg r -> (forall t, token_ok t -> token_ok (f t)) -> (forall t, tk_request_id (f t) = tk_request_id t) ->
  rinv cfg (r <| rg_tokens ::= alter f tid |>).
Proof.
  intros [] Hok Hid. split; simpl; try done.
  - intros h tid' (t & Ht & Hh)%ri_active0. destruct (decide (tid' = tid)) as [->|].
    + exists (f t). rewrite list_lookup_alter_eq, Ht. split; [done|]. by rewrite Hid.
    + exists t. by rewrite list_lookup_alter_ne.
  - intros tid' t. destruct (decide (tid' = tid)) as [->|].
    + rewrite list_lookup_alter_eq. intros (t' & Ht & ->)%fmap_Some. by eapply Hok, ri_tokens0.
    + rewrite list_lookup_alter_ne by done. apply ri_tokens0.
Qed.

Lemma token_cancel_ok now t : token_ok t -> token_ok (fst (fst (token_cancel now t))).
Proof. unfold token_ok, token_cancel. simpl. intros _. split; [done|]. split; done. Qed.

Lemma observe_ok t : token_ok t -> token_ok (fst (observe_if_cancelled t)).
Proof. unfold token_ok, observe_if_cancelled. destruct (tk_cancelled t) eqn:Hc; simpl; [|by rewrite Hc]. naive_solver. Qed.

Lemma rinv_cancel_pending cfg h intent r :
  1 <= max_tracked_requests cfg -> rinv cfg r ->
  h ∉ dkeys (rg_active r) -> h ∉ dkeys (rg_terminal r) ->
  rinv cfg (fst (cancel_pending cfg h intent r)).
Proof.
  intros Hm [] Ha Ht. destruct (dset_move h intent (rg_pending r)) as (_ & Hnd & Hks); [done|].
  split; simpl; try done.
  - by apply NoDup_drop_keys.
  - intros k Hk Hp%dkeys_drop_sub. apply Hks in Hp as [->|Hp]; [done|]. by eapply ri_active_pending0.
  - intros k Hp%dkeys_drop_sub. apply Hks in Hp as [->|Hp]; [done|]. by apply ri_pending_terminal0.
  - by apply excess_bound.
Qed.

Lemma rinv_cancel_terminal cfg now h rec r :
  rinv cfg r -> dget h (rg_terminal r) = Some rec -> rinv cfg (fst (cancel_terminal now h rec r)).
Proof.
  intros Hi Hg. unfold cancel_terminal. destruct (cr_requested_at rec) eqn:Hr; [done|].
  pose proof (ri_records _ _ Hi _ _ Hg) as Hrec. pose proof (dget_Some_key _ _ _ Hg) as Hk.
  destruct Hi. split; simpl; rewrite ?dkeys_dset_old by done; try done.
  - intros k rec'. destruct (decide (k = h)) as [->|]; [|rewrite dget_dset_ne by done; apply ri_records0].
    rewrite dget_dset_eq. intros [= <-]. destruct Hrec as (H1 & H2 & [H3|[H3 H4]]).
    + split_and!; [done|done|by left].
    + split_and!; [done|done|right]. done.
  - rewrite <- (length_map fst), (dkeys_dset_old _ _ _ Hk : map fst _ = _). unfold dkeys. by rewrite length_map.
Qed.

Lemma rinv_cancel cfg now h app cred trusted r :
  1 <= max_tracked_requests cfg -> rinv cfg r ->
  rinv cfg (fst (cancel cfg now h app cred trusted r)).
Proof.
  intros Hm Hi. unfold cancel, validate_request_handle. case_if; [|done].
  pose proof (rinv_expire cfg now r Hi) as Hi1.
  set (r1 := (r <| rg_pending ::= expire_intents now |>)) in *. clearbody r1.
  destruct (dget h (rg_active r1)) as [tid|] eqn:Ha.
  - destruct (rg_tokens r1 !! tid) as [tok|] eqn:Ht; [|done].
    destruct (require_owner _ _ _); [|done]. simpl.
    assert (Heq : <[tid := fst (fst (token_cancel now tok))]> (rg_tokens r1)
                  = alter (fun t => fst (fst (token_cancel now t))) tid (rg_tokens r1)).
    { apply list_eq. intros i. destruct (decide (i = tid)) as [->|].
      - rewrite list_lookup_alter_eq, Ht, list_lookup_insert_eq; [done|by eapply lookup_lt_Some].
      - by rewrite list_lookup_alter_ne, list_lookup_insert_ne. }
    simpl in Heq. rewrite Heq.
    apply (rinv_token cfg tid (fun t => fst (fst (token_cancel now t))) r1 Hi1); [|done].
    intros t. apply token_cancel_ok.
  - destruct (dget h (rg_terminal r1)) as [rec|] eqn:Ht.
    + destruct (require_owner _ _ _); [|done].
      pose proof (rinv_cancel_terminal cfg now h rec r1 Hi1 Ht) as H.
      by destruct (cancel_terminal now h rec r1).
    + apply dget_None in Ha, Ht. destruct (dget h (rg_pending r1)) as [existing|] eqn:Hp.
      * destruct (require_owner _ _ _); [|done]. by apply (rinv_cancel_pending cfg h existing r1).
      * by apply (rinv_cancel_pending cfg h _ r1).
Qed.

Definition release_record (now : Z) (tok : token) : cancellation_record :=
  Build_cancellation_record (tk_request_id tok) (if tk_observed tok then CANCELLED else COMPLETED)
    (tk_application_id tok) (tk_requested_at tok) None (Some now).

Lemma release_effect cfg now tid tok r :
  rg_tokens r !! tid = Some tok -> dget (tk_request_id tok) (rg_active r) = Some tid ->
  let h := tk_request_id tok in
  let terminal := dmove_to_end h (dset h (release_record now tok) (rg_terminal r)) in
  release cfg now tid r
  = Build_registry (rg_tokens r) (ddel h (rg_active r)) (rg_pending r) (evict cfg terminal)
      (fold_left (fun o k => ddel k o) (dkeys (take (excess cfg terminal) terminal))
         (dset h (tk_application_id tok, tk_credential_fingerprint tok) (rg_terminal_owners r))).
Proof. intros Ht Ha. unfold release. rewrite Ht, bool_decide_true by done. reflexivity. Qed.

Lemma release_record_ok now tok : token_ok tok -> record_ok (tk_request_id tok) (release_record now tok).
Proof.
  intros [H1 H2]. unfold record_ok, release_record. simpl. split; [done|]. split; [done|].
  destruct (tk_observed tok); [right|by left]. split; [done|]. apply H2. auto.
Qed.

Lemma keys_take_drop {V} n (d : list (string * V)) h :
  NoDup (dkeys d) -> h ∈ dkeys (drop n d) <-> h ∈ dkeys d /\ h ∉ dkeys (take n d).
Proof.
  intros Hnd. assert (Hd : dkeys d = dkeys (take n d) ++ dkeys (drop n d))
    by by rewrite <- dkeys_app, take_drop.
  rewrite Hd in Hnd |- *. apply NoDup_app in Hnd as (_ & Hdisj & _). set_solver.
Qed.

Lemma rinv_release cfg now tid tok r :
  1 <= max_tracked_requests cfg -> rinv cfg r -> rg_tokens r !! tid = Some tok ->
  dget (tk_request_id tok) (rg_active r) = Some tid -> rinv cfg (release cfg now tid r).
Proof.
  intros Hm Hi Ht Ha. rewrite (release_effect cfg now tid tok r Ht Ha).
  pose proof (ri_tokens _ _ Hi _ _ Ht) as Htok. destruct Hi. set (h := tk_request_id tok) in *.
  destruct (dset_move h (release_record now tok) (rg_terminal r)) as (_ & Hnd & Hks); [done|].
  set (terminal := dmove_to_end _ _) in *.
  destruct (ddels_owner_keys (dkeys (take (excess cfg terminal) terminal))
    (dset h (tk_application_id tok, tk_credential_fingerprint tok) (rg_terminal_owners r)))
    as (Ho1 & Ho2 & _); [by apply NoDup_dset|].
  assert (Hterm : forall k, k ∈ dkeys (evict cfg terminal) -> k = h \/ k ∈ dkeys (rg_terminal r)).
  { intros k Hk%dkeys_drop_sub. by apply Hks. }
  assert (Hah : h ∈ dkeys (rg_active r)) by by eapply dget_Some_key.
  split; simpl; try done.
  - by apply NoDup_ddel.
  - by apply NoDup_drop_keys.
  - intros k tid' Hk. apply ri_active0. destruct (decide (k = h)) as [->|].
    + by rewrite dget_ddel_eq in Hk.
    + by rewrite dget_ddel_ne in Hk.
  - intros k Hk%dkeys_ddel_sub. by apply ri_active_pending0.
  - intros k [Hk Hne]%dkeys_ddel [->|Hk']%Hterm; [done| |done]. by eapply ri_active_terminal0.
  - intros k Hk [->|Hk']%Hterm; [by eapply ri_active_pending0|by eapply ri_pending_terminal0].
  - intros k. rewrite Ho2. unfold evict. rewrite keys_take_drop, Hks, dkeys_dset_elem, ri_owners0 by done. done.
  - intros k rec Hg. unfold evict in Hg. apply dget_drop in Hg; [|done].
    unfold terminal in Hg. rewrite (dmove_to_end_last _ (release_record now tok)) in Hg by apply dget_dset_eq.
    apply dget_Some_elem, elem_of_app in Hg as [Hg|Hg].
    + apply dget_elem in Hg; [|apply NoDup_ddel, NoDup_dset; done].
      destruct (decide (k = h)) as [->|Hne]; [by rewrite dget_ddel_eq in Hg by by apply NoDup_dset|].
      rewrite dget_ddel_ne, dget_dset_ne in Hg by done. by apply ri_records0.
    + apply list_elem_of_singleton in Hg. simplify_eq. by apply release_record_ok.
  - by apply excess_bound.
Qed.

Lemma rinv_init cfg : 1 <= max_tracked_requests cfg -> rinv cfg init_registry.
Proof. intros Hm. split; simpl; try done; try constructor; try lia; try set_solver. Qed.

Lemma rreachable_inv cfg r : 1 <= max_tracked_requests cfg -> rreachable cfg r -> rinv cfg r.
Proof.
  intros Hm. unfold rreachable. generalize (rinv_init cfg Hm). generalize init_registry as r0.
  intros r0 H0 H. induction H as [|r0 r1 r Hs _ IH]; [done|]. apply IH. destruct Hs.
  - by apply rinv_track.
  - by eapply rinv_release.
  - by apply rinv_cancel.
  - apply rinv_token; [done|apply observe_ok|]. intros t. unfold observe_if_cancelled. by case_if.
Qed.

Lemma init_max ttl mx salt : 1 <= max_tracked_requests (init_registry_config ttl mx salt).
Proof. simpl. lia. Qed.

Lemma dmem_true V (h : string) (d : list (string * V)) : dmem h d = true <-> h ∈ dkeys d.
Proof.
  unfold dmem. destruct (dget h d) as [v|] eqn:Hg.
  - split; [|done]. intros _. by eapply dget_Some_key.
  - apply dget_None in Hg. done.
Qed.

Lemma owners_match_refl f : owners_match f f = true.
Proof. destruct f; simpl; [|done]. by apply bool_decide_eq_true. Qed.

(** ** Properties *)

Section properties.
Context (ttl mx : Z) (salt : list Z).
Let cfg := init_registry_config ttl mx salt.

(** C11. The registry stays bounded and unambiguous.  In every history, pending
    intents and terminal records each number at most [max_tracked_requests]; a
    handle is active, pending or terminal but never two of these; an active
    handle names a live token of that handle; exactly the terminal records have an
    owner; and a terminal record that says CANCELLED was cancelled. *)
Theorem registry_bounded_and_unambiguous (r : registry) :
  rreachable cfg r ->
  Z.of_nat (length (rg_pending r)) <= Z.max 1 mx
  /\ Z.of_nat (length (rg_terminal r)) <= Z.max 1 mx
  /\ (forall h, dmem h (rg_active r) = true -> dmem h (rg_pending r) = false /\ dmem h (rg_terminal r) = false)
  /\ (forall h, dmem h (rg_pending r) = true -> dmem h (rg_terminal r) = false)
  /\ (forall h, dmem h (rg_terminal_owners r) = dmem h (rg_terminal r))
  /\ (forall h tid, dget h (rg_active r) = Some tid ->
        exists tok, rg_tokens r !! tid = Some tok /\ tk_request_id tok = h)
  /\ (forall h rec, dget h (rg_terminal r) = Some rec -> cr_request_id rec = h
        /\ (cr_state rec = COMPLETED \/ (cr_state rec = CANCELLED /\ cr_requested_at rec <> None))).
Proof.
  intros Hi%(rreachable_inv _ _ (init_max ttl mx salt)). destruct Hi.
  assert (Hmem : forall V h (d : list (string * V)), dmem h d = true <-> h ∈ dkeys d) by apply dmem_true.
  assert (Hnot : forall V h (d : list (string * V)), h ∉ dkeys d -> dmem h d = false).
  { intros V h d H. destruct (dmem h d) eqn:E; [|done]. by apply Hmem in E. }
  split_and!; try done.
  - intros h Hh%Hmem. split; apply Hnot; auto.
  - intros h Hh%Hmem. apply Hnot; auto.
  - intros h. destruct (dmem h (rg_terminal r)) eqn:E.
    + apply Hmem, ri_owners0, Hmem, E.
    + apply Hnot. rewrite ri_owners0. intros ?%Hmem. congruence.
  - intros h rec Hg. by destruct (ri_records0 _ _ Hg) as (? & _ & ?).
Qed.

(** A cancellation may arrive before its request.  Cancelling an unknown handle
    answers PENDING; until the intent expires, the request that arrives with the
    handle and the same credential (or any, after a trusted cancellation) gets a
    token that is cancelled from the start, so its first checkpoint raises; a
    different credential is refused. *)
Theorem cancel_before_arrival (r : registry) (now : Z) (h : string) (app cred : option string)
    (trusted : bool) (now2 : Z) (app2 cred2 : option string) :
  rreachable cfg r -> valid_request_handle h = true ->
  dget h (rg_active r) = None -> dget h (rg_terminal r) = None ->
  dget h (expire_intents now (rg_pending r)) = None -> now2 < now + intent_ttl cfg ->
  exists r1 rec, cancel cfg now h app cred trusted r = (r1, Ok (rec, []))
  /\ cr_state rec = PENDING /\ cr_requested_at rec = Some now
  /\ cr_expires_at rec = Some (now + intent_ttl cfg)
  /\ if (trusted || owners_match (credential_fingerprint cfg cred) (credential_fingerprint cfg cred2))%bool
     then exists r2 tid tok, track cfg now2 h app2 cred2 r1 = (r2, Ok tid)
          /\ rg_tokens r2 !! tid = Some tok /\ tk_requested_at tok = Some now
          /\ snd (raise_if_cancelled tok) = Err RequestCancelledError
     else exists r2 msg, track cfg now2 h app2 cred2 r1 = (r2, Err (RequestHandleConflictError msg)).
Proof.
  intros Hi%(rreachable_inv _ _ (init_max ttl mx salt)) Hv Ha Ht Hp Hlt.
  pose proof (rinv_expire cfg now r Hi) as Hi1. apply ri_pending_nodup in Hi1. simpl in Hi1.
  set (fp := credential_fingerprint cfg cred). set (fp2 := credential_fingerprint cfg cred2).
  set (intent := Build_pending_intent app fp now (now + intent_ttl cfg) trusted).
  set (pend := evict cfg (dmove_to_end h (dset h intent (expire_intents now (rg_pending r))))).
  assert (Hc : cancel cfg now h app cred trusted r
    = (r <| rg_pending := pend |>,
       Ok (Build_cancellation_record h PENDING app (Some now) (Some (now + intent_ttl cfg)) None, []))).
  { unfold cancel, validate_request_handle. rewrite Hv. simpl. rewrite Ha, Ht, Hp. reflexivity. }
  exists (r <| rg_pending := pend |>). eexists. split; [exact Hc|]. simpl.
  split; [done|]. split; [done|]. split; [done|].
  destruct (dset_move h intent (expire_intents now (rg_pending r)) Hi1) as (Hlast & Hnd & _).
  assert (Hg : dget h pend = Some intent).
  { apply dget_elem; [by apply NoDup_drop_keys|]. unfold pend. rewrite Hlast.
    apply evict_keeps_last, init_max. }
  assert (Hg2 : dget h (expire_intents now2 pend) = Some intent).
  { apply dget_filter; [by apply NoDup_drop_keys|]. split; [done|]. simpl. bool_prop. by apply Z.ltb_lt. }
  unfold track, validate_request_handle. rewrite Hv. cbv zeta.
  assert (Hna : dmem h (rg_active r) = false) by (unfold dmem; by rewrite Ha).
  assert (Hnt : dmem h (rg_terminal r) = false) by (unfold dmem; by rewrite Ht).
  cbn [rg_active rg_terminal rg_pending rg_tokens set_field]. simpl. rewrite Hna, Hnt. simpl. rewrite Hg2.
  change (in_trusted_owner_override intent) with trusted.
  change (in_credential_fingerprint intent) with fp. fold fp2.
  destruct trusted; [|destruct (owners_match fp fp2)]; simpl.
  1-2: do 3 eexists; (split; [reflexivity|]); simpl;
       (split; [apply lookup_snoc_Some; by right|]); done.
  do 2 eexists. reflexivity.
Qed.

(** The credential fingerprint that owns a handle. *)
Definition owner_of (r : registry) (h : string) : option (option string) :=
  match dget h (rg_active r) with
  | Some tid => match rg_tokens r !! tid with
                | Some tok => Some (tk_credential_fingerprint tok)
                | None => None
                end
  | None =>
      match dget h (rg_terminal r), dget h (rg_terminal_owners r), dget h (rg_pending r) with
      | Some _, Some (_, f), _ => Some f
      | None, _, Some intent => Some (in_credential_fingerprint intent)
      | _, _, _ => None
      end
  end.

(** Only the owner cancels.  For a handle with an owner, a caller who is
    neither trusted nor presents the owner's credential is refused with
    [ToolAuthorizationError] and, expired intents aside, changes nothing; any
    other caller is answered, whatever application identifier is presented. *)
Theorem only_the_owner_cancels (r : registry) (now : Z) (h : string) (app cred : option string)
    (trusted : bool) (f : option string) :
  rreachable cfg r -> valid_request_handle h = true ->
  owner_of (r <| rg_pending ::= expire_intents now |>) h = Some f ->
  if (trusted || owners_match f (credential_fingerprint cfg cred))%bool
  then exists r' answer, cancel cfg now h app cred trusted r = (r', Ok answer)
  else cancel cfg now h app cred trusted r
       = (r <| rg_pending ::= expire_intents now |>, Err ToolAuthorizationError).
Proof.
  intros Hi%(rreachable_inv _ _ (init_max ttl mx salt)) Hv. unfold owner_of, cancel, validate_request_handle.
  rewrite Hv. cbv zeta. set (r1 := (r <| rg_pending ::= expire_intents now |>)).
  destruct (dget h (rg_active r1)) as [tid|].
  { destruct (rg_tokens r1 !! tid) as [tok|]; [|done]. intros [= <-]. unfold require_owner.
    case_if; [|done]. destruct (cancel_active _ _ _ _ _) as [[r2 rec] w]. by do 2 eexists. }
  destruct (dget h (rg_terminal r1)) as [rec|].
  { destruct (dget h (rg_terminal_owners r1)) as [[a f']|]; [|done]. intros [= <-]. unfold require_owner.
    case_if; [|done]. destruct (cancel_terminal _ _ _ _) as [r2 rec2]. by do 2 eexists. }
  destruct (dget h (rg_pending r1)) as [intent|]; [|done]. intros [= <-]. unfold require_owner.
  case_if; [|done]. destruct (cancel_pending _ _ _ _) as [r2 rec2]. by do 2 eexists.
Qed.

(** Cancelling is idempotent.  A second cancellation of the same handle by the
    same caller, at any later time before a pending intent expires, succeeds with
    the same state and the same first requested time, and wakes nobody again. *)
Theorem cancel_idempotent (r r1 : registry) (now now2 : Z) (h : string) (app cred : option string)
    (trusted : bool) (rec : cancellation_record) (woken : list nat) :
  rreachable cfg r -> cancel cfg now h app cred trusted r = (r1, Ok (rec, woken)) ->
  (forall e, cr_expires_at rec = Some e -> now2 < e) ->
  exists r2 rec2, cancel cfg now2 h app cred trusted r1 = (r2, Ok (rec2, []))
  /\ cr_state rec2 = cr_state rec /\ cr_requested_at rec2 = cr_requested_at rec
  /\ cr_expires_at rec2 = cr_expires_at rec /\ rg_active r2 = rg_active r1.
Proof.
  intros Hi%(rreachable_inv _ _ (init_max ttl mx salt)).
  unfold cancel at 1, validate_request_handle. destruct (valid_request_handle h) eqn:Hv; [|done].
  cbv zeta. pose proof (rinv_expire cfg now r Hi) as Hi1.
  set (r0 := (r <| rg_pending ::= expire_intents now |>)) in *. clearbody r0. clear Hi r. rename r0 into r.
  set (fp := credential_fingerprint cfg cred) in *.
  destruct (dget h (rg_active r)) as [tid|] eqn:Ha.
  { destruct (rg_tokens r !! tid) as [tok|] eqn:Ht; [|done].
    unfold require_owner. destruct (trusted || _)%bool eqn:Ho; [|done]. simpl. intros [= <- <- <-] _.
    unfold cancel, validate_request_handle. rewrite Hv. simpl. rewrite Ha.
    rewrite list_lookup_insert_eq by by eapply lookup_lt_Some. simpl. fold fp. unfold require_owner.
    rewrite Ho. simpl. by do 2 eexists. }
  destruct (dget h (rg_terminal r)) as [term|] eqn:Ht.
  { unfold require_owner. destruct (trusted || _)%bool eqn:Ho; [|done].
    destruct (ri_records _ _ Hi1 _ _ Ht) as (_ & _ & _).
    unfold cancel_terminal. destruct (cr_requested_at term) as [q|] eqn:Hq; intros [= <- <- <-] _.
    - unfold cancel, validate_request_handle. rewrite Hv. simpl. rewrite Ha, Ht. fold fp. unfold require_owner.
      rewrite Ho. unfold cancel_terminal. rewrite Hq. by do 2 eexists.
    - unfold cancel, validate_request_handle. rewrite Hv. simpl. rewrite Ha, dget_dset_eq. fold fp.
      unfold require_owner. rewrite Ho. simpl. by do 2 eexists. }
  assert (Hpend : forall intent, (trusted || owners_match (in_credential_fingerprint intent) fp)%bool = true ->
    cancel_pending cfg h intent r = (r1, rec) ->
    (forall e, cr_expires_at rec = Some e -> now2 < e) ->
    exists r2 rec2, cancel cfg now2 h app cred trusted r1 = (r2, Ok (rec2, []))
      /\ cr_state rec2 = cr_state rec /\ cr_requested_at rec2 = cr_requested_at rec
      /\ cr_expires_at rec2 = cr_expires_at rec /\ rg_active r2 = rg_active r1).
  { intros intent Ho [= <- <-] Hexp. simpl in Hexp. specialize (Hexp _ eq_refl).
    destruct (dset_move h intent (rg_pending r) (ri_pending_nodup _ _ Hi1)) as (Hlast & Hnd & _).
    assert (Hg : dget h (expire_intents now2 (evict cfg (dmove_to_end h (dset h intent (rg_pending r)))))
                 = Some intent).
    { apply dget_filter; [by apply NoDup_drop_keys|]. split; [|by apply Z.ltb_lt].
      apply dget_elem; [by apply NoDup_drop_keys|]. rewrite Hlast. apply evict_keeps_last, init_max. }
    unfold cancel, validate_request_handle. rewrite Hv. simpl. rewrite Ha, Ht, Hg. fold fp.
    unfold require_owner. rewrite Ho. by do 2 eexists. }
  destruct (dget h (rg_pending r)) as [existing|] eqn:Hp.
  - unfold require_owner. destruct (trusted || _)%bool eqn:Ho; [|done].
    destruct (cancel_pending cfg h existing r) as [r2 rec2] eqn:Hc. intros [= <- <- <-]. by eapply Hpend.
  - destruct (cancel_pending cfg h _ r) as [r2 rec2] eqn:Hc. intros [= <- <- <-]. eapply Hpend; [|exact Hc].
    simpl. by rewrite owners_match_refl, orb_true_r.
Qed.

(** The terminal record tells the truth.  When a tracked request ends, its
    handle stops being active and becomes terminal: CANCELLED if a checkpoint of
    the request observed the signal, COMPLETED otherwise, owned by the request's
    credential; its owner reads that state back, even from a full registry. *)
Theorem release_tells_the_truth (r : registry) (now now2 : Z) (tid : nat) (tok : token)
    (app cred : option string) :
  rreachable cfg r -> rg_tokens r !! tid = Some tok -> dget (tk_request_id tok) (rg_active r) = Some tid ->
  valid_request_handle (tk_request_id tok) = true ->
  owners_match (tk_credential_fingerprint tok) (credential_fingerprint cfg cred) = true ->
  let r' := release cfg now tid r in
  dget (tk_request_id tok) (rg_active r') = None
  /\ exists r2 rec, cancel cfg now2 (tk_request_id tok) app cred false r' = (r2, Ok (rec, []))
  /\ cr_state rec = (if tk_observed tok then CANCELLED else COMPLETED)
  /\ cr_completed_at rec = Some now
  /\ cr_requested_at rec = Some (default now2 (tk_requested_at tok)).
Proof.
  intros Hi%(rreachable_inv _ _ (init_max ttl mx salt)) Ht Ha Hv Ho r'.
  unfold r'. rewrite (release_effect cfg now tid tok r Ht Ha). cbv zeta. set (h := tk_request_id tok) in *.
  destruct (dset_move h (release_record now tok) (rg_terminal r) (ri_terminal_nodup _ _ Hi)) as (Hlast & Hnd & _).
  set (terminal := dmove_to_end _ _) in *.
  assert (Hdel : dget h (ddel h (rg_active r)) = None) by apply dget_ddel_eq, Hi.
  assert (Hg : dget h (evict cfg terminal) = Some (release_record now tok)).
  { apply dget_elem; [by apply NoDup_drop_keys|]. rewrite Hlast. apply evict_keeps_last, init_max. }
  assert (Hown : dget h (fold_left (fun o k => ddel k o) (dkeys (take (excess cfg terminal) terminal))
      (dset h (tk_application_id tok, tk_credential_fingerprint tok) (rg_terminal_owners r)))
    = Some (tk_application_id tok, tk_credential_fingerprint tok)).
  { destruct (ddels_owner_keys (dkeys (take (excess cfg terminal) terminal))
      (dset h (tk_application_id tok, tk_credential_fingerprint tok) (rg_terminal_owners r)))
      as (_ & _ & ->); [apply NoDup_dset, Hi|apply dget_dset_eq|].
    apply (keys_take_drop (excess cfg terminal) terminal h Hnd). by eapply dget_Some_key. }
  split; [exact Hdel|]. unfold cancel, validate_request_handle. rewrite Hv. simpl. rewrite Hdel, Hg, Hown.
  unfold require_owner. rewrite Ho. simpl. unfold cancel_terminal, release_record. simpl.
  destruct (tk_requested_at tok); simpl; by do 2 eexists.
Qed.

End properties.

(** ** Witnesses *)

Definition sample_registry_cfg : registry_config := init_registry_config 300000000 2 [1; 2; 3].

(** A request is running under one credential. *)
Definition running : registry :=
  fst (track sample_registry_cfg 5 "job-1" (Some "app") (Some "key-a") init_registry).

Lemma running_reachable : rreachable sample_registry_cfg running.
Proof. eapply rtc_l; [apply rstep_track|constructor]. Qed.

Lemma registry_bounded_and_unambiguous_witness :
  rreachable sample_registry_cfg running
  /\ dmem "job-1" (rg_active running) = true /\ dmem "job-1" (rg_terminal running) = false.
Proof.
  split; [exact running_reachable|].
  destruct (registry_bounded_and_unambiguous 300000000 2 [1; 2; 3] running running_reachable)
    as (_ & _ & Ha & _).
  assert (dmem "job-1" (rg_active running) = true) as Hm by (vm_compute; reflexivity).
  split; [exact Hm|]. by destruct (Ha "job-1"%string Hm).
Defined.

Lemma cancel_before_arrival_witness :
  exists r1 rec r2 tid tok,
    cancel sample_registry_cfg 10 "job-2" None (Some "key-b") false running = (r1, Ok (rec, []))
    /\ cr_state rec = PENDING
    /\ track sample_registry_cfg 20 "job-2" None (Some "key-b") r1 = (r2, Ok tid)
    /\ rg_tokens r2 !! tid = Some tok /\ snd (raise_if_cancelled tok) = Err RequestCancelledError.
Proof.
  destruct (cancel_before_arrival 300000000 2 [1; 2; 3] running 10 "job-2" None (Some "key-b"%string)
              false 20 None (Some "key-b"%string) running_reachable)
    as (r1 & rec & Hc & Hs & _ & _ & Ht); try (vm_compute; reflexivity).
  rewrite owners_match_refl in Ht. simpl in Ht. destruct Ht as (r2 & tid & tok & Ht & Hk & _ & Hr).
  exists r1, rec, r2, tid, tok. auto.
Defined.

Lemma only_the_owner_cancels_witness :
  cancel sample_registry_cfg 10 "job-1" (Some "app") (Some "key-b") false running
  = (running <| rg_pending ::= expire_intents 10 |>, Err ToolAuthorizationError).
Proof.
  assert (Ho : exists f, owner_of (running <| rg_pending ::= expire_intents 10 |>) "job-1" = Some f
    /\ (false || owners_match f (credential_fingerprint sample_registry_cfg (Some "key-b"%string)))%bool = false).
  { eexists. split; [reflexivity|]. vm_compute. reflexivity. }
  destruct Ho as (f & Ho & Hn).
  pose proof (only_the_owner_cancels 300000000 2 [1; 2; 3] running 10 "job-1" (Some "app"%string)
                (Some "key-b"%string) false f running_reachable eq_refl Ho) as H.
  fold sample_registry_cfg in H. rewrite Hn in H. exact H.
Defined.

Lemma cancel_idempotent_witness :
  exists r1 rec woken r2 rec2,
    cancel sample_registry_cfg 10 "job-1" None (Some "key-a") false running = (r1, Ok (rec, woken))
    /\ cancel sample_registry_cfg 30 "job-1" None (Some "key-a") false r1 = (r2, Ok (rec2, []))
    /\ cr_state rec2 = CANCELLING /\ cr_requested_at rec2 = Some 10.
Proof.
  assert (Hc : exists r1 rec woken,
    cancel sample_registry_cfg 10 "job-1" None (Some "key-a") false running = (r1, Ok (rec, woken))
    /\ cr_state rec = CANCELLING /\ cr_requested_at rec = Some 10 /\ cr_expires_at rec = None).
  { do 3 eexists. split; [vm_compute; reflexivity|]. split; [reflexivity|]. split; reflexivity. }
  destruct Hc as (r1 & rec & woken & Hc & Hs & Hr & He).
  destruct (cancel_idempotent 300000000 2 [1; 2; 3] running r1 10 30 "job-1" None (Some "key-a"%string)
              false rec woken running_reachable Hc) as (r2 & rec2 & Hc2 & Hs2 & Hr2 & _).
  { intros e H. rewrite He in H. discriminate H. }
  exists r1, rec, woken, r2, rec2. rewrite Hs2, Hr2. auto.
Defined.

Lemma release_tells_the_truth_witness :
  exists tok r2 rec, rg_tokens running !! 0%nat = Some tok
  /\ cancel sample_registry_cfg 60 "job-1" None (Some "key-a") false (release sample_registry_cfg 50 0 running)
     = (r2, Ok (rec, []))
  /\ cr_state rec = COMPLETED /\ cr_completed_at rec = Some 50.
Proof.
  assert (Hk : exists tok, rg_tokens running !! 0%nat = Some tok /\ tk_request_id tok = "job-1"%string
    /\ tk_observed tok = false
    /\ tk_credential_fingerprint tok = credential_fingerprint sample_registry_cfg (Some "key-a"%string)).
  { eexists. split; [reflexivity|]. split; [reflexivity|]. split; reflexivity. }
  destruct Hk as (tok & Ht & Hh & Ho & Hf).
  destruct (release_tells_the_truth 300000000 2 [1; 2; 3] running 50 60 0 tok None (Some "key-a"%string)
              running_reachable Ht) as (_ & r2 & rec & Hc & Hs & Hd & _).
  - rewrite Hh. reflexivity.
  - rewrite Hh. reflexivity.
  - rewrite Hf. apply owners_match_refl.
  - exists tok, r2, rec. rewrite Hh in Hc. rewrite Ho in Hs. auto.
Defined.

(** ** Waiting for the signal, across threads

    [CancellationToken.cancel] sets the event and then, under [_waiters_lock],
    takes the waiters; [wait_cancelled] registers its future under the same lock
    and removes it on the way out.  Several threads may cancel at once: the steps
    below interleave freely. *)
Record token_sync := {
  ts_cancelled : bool;
  ts_waiters : list nat;
  ts_resolved : list nat;      (* handed to [_resolve_cancellation_waiter] or set directly *)
  ts_cancelling : nat          (* calls of [cancel] between their two steps *)
}.

Definition sync_init : token_sync := Build_token_sync false [] [] 0.

Definition sync_set (t : token_sync) : token_sync :=
  Build_token_sync true (ts_waiters t) (ts_resolved t) (S (ts_cancelling t)).

Definition sync_drain (t : token_sync) : token_sync :=
  Build_token_sync (ts_cancelled t) [] (ts_resolved t ++ ts_waiters t) (pred (ts_cancelling t)).

Definition sync_register (future : nat) (t : token_sync) : token_sync :=
  if ts_cancelled t
  then Build_token_sync true (ts_waiters t) (ts_resolved t ++ [future]) (ts_cancelling t)
  else Build_token_sync false (ts_waiters t ++ [future]) (ts_resolved t) (ts_cancelling t).

(** [list.remove] of the waiter's own entry. *)
Definition sync_remove (future : nat) (t : token_sync) : token_sync :=
  Build_token_sync (ts_cancelled t) (List.filter (fun f => negb (f =? future)%nat) (ts_waiters t))
    (ts_resolved t) (ts_cancelling t).

(** [waiting] is the set of futures some [wait_cancelled] is suspended on. *)
Inductive sync_step : token_sync * list nat -> token_sync * list nat -> Prop :=
| sync_step_set t w : sync_step (t, w) (sync_set t, w)
| sync_step_drain t w : (0 < ts_cancelling t)%nat -> sync_step (t, w) (sync_drain t, w)
| sync_step_register f t w : f ∉ w -> sync_step (t, w) (sync_register f t, f :: w)
| sync_step_remove f t w :
    sync_step (t, w) (sync_remove f t, List.filter (fun g => negb (g =? f)%nat) w).

Definition sync_inv (tw : token_sync * list nat) : Prop :=
  (forall f, f ∈ snd tw -> f ∈ ts_waiters (fst tw) \/ f ∈ ts_resolved (fst tw))
  /\ (ts_cancelled (fst tw) = true -> ts_cancelling (fst tw) = 0%nat -> ts_waiters (fst tw) = []).

Lemma elem_of_without f g w :
  f ∈ List.filter (fun x => negb (x =? g)%nat) w <-> f ∈ w /\ f <> g.
Proof.
  rewrite !list_elem_of_In, filter_In, negb_true_iff, Nat.eqb_neq. done.
Qed.

Lemma sync_step_inv x y : sync_step x y -> sync_inv x -> sync_inv y.
Proof.
  intros Hs [H1 H2]. destruct Hs as [t w|t w Hc|f t w Hn|f t w]; unfold sync_inv; simpl in *.
  - split; [done|]. intros _. done.
  - split; [|done]. intros g Hg. right. apply elem_of_app. destruct (H1 g Hg); auto.
  - unfold sync_register. destruct (ts_cancelled t) eqn:Hc; simpl.
    + split; [|done]. intros g [->|Hg]%elem_of_cons.
      * right. apply elem_of_app. right. by apply list_elem_of_singleton.
      * destruct (H1 g Hg); [by left|right]. apply elem_of_app. by left.
    + split; [|done]. intros g [->|Hg]%elem_of_cons.
      * left. apply elem_of_app. right. by apply list_elem_of_singleton.
      * destruct (H1 g Hg); [left; apply elem_of_app; by left|by right].
  - split.
    + intros g [Hg Hne]%elem_of_without. destruct (H1 g Hg); [left|by right]. by apply elem_of_without.
    + intros Hc Hz. by rewrite H2.
Qed.

(** C12. No cancellation is lost on a waiter.  In every interleaving of cancelling
    and waiting threads, once a token is cancelled and no [cancel] call is half
    way, no registered waiter is left: every suspended [wait_cancelled] has had its
    future resolved. *)
Theorem no_lost_wakeup (t : token_sync) (w : list nat) :
  rtc sync_step (sync_init, []) (t, w) ->
  ts_cancelled t = true -> ts_cancelling t = 0%nat ->
  ts_waiters t = [] /\ forall f, f ∈ w -> f ∈ ts_resolved t.
Proof.
  assert (H0 : sync_inv (sync_init, [])) by (split; simpl; [by intros f ?%not_elem_of_nil|done]).
  intros H. assert (Hi : sync_inv (t, w)).
  { revert H0. induction H as [|x y z Hs _ IH]; [done|]. intros Hx. by apply IH, (sync_step_inv x). }
  destruct Hi as [H1 H2]. simpl in *. intros Hc Hz. split; [auto|].
  intros f Hf. destruct (H1 f Hf) as [Hw|]; [|done]. rewrite H2 in Hw by done. by apply not_elem_of_nil in Hw.
Qed.

(** A waiter registers between the two steps of a cancellation. *)
Lemma no_lost_wakeup_witness :
  let t := sync_drain (sync_register 8 (sync_set (sync_register 7 sync_init))) in
  ts_waiters t = [] /\ 8%nat ∈ ts_resolved t /\ 7%nat ∈ ts_resolved t.
Proof.
  intros t. destruct (no_lost_wakeup t [8; 7]%nat) as [Hw Hr]; [|reflexivity|reflexivity|].
  - eapply rtc_l; [apply (sync_step_register 7); apply not_elem_of_nil|].
    eapply rtc_l; [apply sync_step_set|].
    eapply rtc_l; [apply (sync_step_register 8); by intros ?%list_elem_of_singleton|].
    eapply rtc_l; [apply sync_step_drain; simpl; lia|constructor].
  - split; [exact Hw|]. split; apply Hr; set_solver.
Defined.
