(* ===== verification/PrefixCache.v ===== *)
(** Paged prompt-prefix cache: [InMemoryTokenPrefixCache] of
    src/src/lewlm/runtime/prefix_cache.py, with the content-addressed page keys of
    src/src/lewlm/storage/prefix_cache_store.py.

    Per model, a list of entries in least-recently-used order and a dictionary of
    reference-counted pages shared between entries.  Each section under
    [self._lock] is one function.  The persistent store is asked outside the lock:
    what it answered is an argument of [lookup], [preview], [save] and
    [invalidate].  A payload is opaque. *)

From stdpp Require Import pretty.
From S2P Require Import Prelude PyFloat Sha256 Scheduler.

Open Scope Z_scope.

(** ** Page keys *)

(** [json.dumps] of an ASCII string with [ensure_ascii]. *)
Definition json_escape (c : Ascii.ascii) : string :=
  let n := Z.of_nat (Ascii.nat_of_ascii c) in
  if n =? 34 then String (Ascii.ascii_of_nat 92) (String c EmptyString)
  else if n =? 92 then String c (String c EmptyString)
  else if n =? 10 then "\n" else if n =? 13 then "\r" else if n =? 9 then "\t"
  else if n =? 8 then "\b" else if n =? 12 then "\f"
  else if ((n <? 32) || (126 <? n))%bool then "\u00" +:+ hex_byte n
  else String c EmptyString.

Definition quote : string := String (Ascii.ascii_of_nat 34) EmptyString.

Definition json_string (s : string) : string :=
  quote +:+ String.concat "" (map json_escape (String.list_ascii_of_string s)) +:+ quote.

Definition json_key (k : string) (v : string) : string := json_string k +:+ ":" +:+ v.

Definition CACHE_VERSION : Z := 2.

(** [PersistentPrefixCacheStore.page_key_for]: [sort_keys] orders the members. *)
Definition page_key_for (model_id : string) (parent_page_key : option string) (page_index : Z)
    (page_tokens : list Z) (page_size_tokens : Z) : string :=
  let serialized :=
    "{" +:+ String.concat ","
      [ json_key "model_id" (json_string model_id);
        json_key "page_index" (pretty page_index);
        json_key "page_size_tokens" (pretty page_size_tokens);
        json_key "page_tokens" ("[" +:+ String.concat "," (map pretty page_tokens) +:+ "]");
        json_key "parent_page_key" (match parent_page_key with
                                    | Some k => json_string k
                                    | None => "null"
                                    end);
        json_key "version" (pretty CACHE_VERSION) ] +:+ "}" in
  hexdigest (encode_ascii serialized).

(** [_page_keys_for]: the key of a page covers its tokens, its position and, by
    its parent's key, everything before it. *)
Fixpoint page_keys_from (fuel : nat) (model_id : string) (size : nat) (index : Z)
    (parent : option string) (tokens : list Z) : list string :=
  match fuel, tokens with
  | S fuel, _ :: _ =>
      let k := page_key_for model_id parent index (take size tokens) (Z.of_nat size) in
      k :: page_keys_from fuel model_id size (index + 1) (Some k) (drop size tokens)
  | _, _ => []
  end.

Definition page_keys_for (model_id : string) (size : Z) (tokens : list Z) : list string :=
  page_keys_from (length tokens) model_id (Z.to_nat (Z.max size 1)) 0 None tokens.

Fixpoint longest_token_prefix (xs ys : list Z) : nat :=
  match xs, ys with
  | x :: xs, y :: ys => if x =? y then S (longest_token_prefix xs ys) else O
  | _, _ => O
  end.

Fixpoint matched_page_count (xs ys : list string) : nat :=
  match xs, ys with
  | x :: xs, y :: ys => if bool_decide (x = y) then S (matched_page_count xs ys) else O
  | _, _ => O
  end.

Definition estimate_page_size (page_key : string) (page_size_tokens : Z) : Z :=
  Z.max (Z.of_nat (String.length page_key)) 64 + page_size_tokens * 4.

Section cache.
Context {Payload : Type}.

Inductive source := Resident | Persisted.

(** [PrefixCacheEntry]. *)
Record entry := {
  e_model_id : string;
  e_prefix_tokens : list Z;
  e_payload : Payload;
  e_estimated_size_bytes : option Z;
  e_cache_key : option string;
  e_source : source;
  e_page_keys : list string;
  e_page_size_tokens : Z;
  e_page_count : Z;
  e_shared_page_count : Z;
  e_new_page_count : Z
}.

(** [PrefixCacheLookup] and [PrefixCachePreview]. *)
Record cache_lookup := {
  l_entry : entry;
  l_prefix_length : Z;
  l_matched_page_count : Z;
  l_resident_page_hits : Z;
  l_persisted_page_hits : Z;
  l_restored_page_count : Z
}.

Record cache_preview := {
  p_model_id : string;
  p_prefix_tokens : list Z;
  p_cache_key : option string;
  p_source : source;
  p_prefix_length : Z;
  p_matched_page_count : Z;
  p_resident_page_hits : Z;
  p_persisted_page_hits : Z;
  p_page_size_tokens : Z;
  p_page_count : Z;
  p_uncached_token_count : Z
}.

(** [_ResidentPrefixCachePage]; the key is the dictionary's. *)
Record rpage := { rp_estimated_size_bytes : Z; rp_ref_count : Z }.

Record cache_config := { max_entries_per_model : Z; cache_page_size : Z }.

Record cache_stats := {
  lookup_count : Z; hit_count : Z; miss_count : Z; save_count : Z;
  saved_prefill_tokens : Z; max_saved_prefill_tokens : Z;
  resident_hit_count : Z; persistent_hit_count : Z; restore_count : Z; eviction_count : Z;
  page_hit_count : Z; resident_page_hit_count : Z; persistent_page_hit_count : Z;
  page_save_count : Z; page_restore_count : Z;
  resident_page_eviction_count : Z; persistent_page_eviction_count : Z;
  copy_on_write_reused_pages : Z; invalidation_count : Z
}.

#[export] Instance cache_stats_eta : Eta cache_stats := fun r =>
  Build_cache_stats (lookup_count r) (hit_count r) (miss_count r) (save_count r)
    (saved_prefill_tokens r) (max_saved_prefill_tokens r) (resident_hit_count r)
    (persistent_hit_count r) (restore_count r) (eviction_count r) (page_hit_count r)
    (resident_page_hit_count r) (persistent_page_hit_count r) (page_save_count r)
    (page_restore_count r) (resident_page_eviction_count r) (persistent_page_eviction_count r)
    (copy_on_write_reused_pages r) (invalidation_count r).

Record cache := {
  c_entries : list (string * list entry);
  c_pages : list (string * list (string * rpage));
  c_stats : cache_stats
}.

#[export] Instance cache_eta : Eta cache := fun r => Build_cache (c_entries r) (c_pages r) (c_stats r).

(** [__init__], without and with the page size of a persistent store. *)
Definition init_cache_config (max_entries page_size store_page_size : Z) : cache_config :=
  {| max_entries_per_model := Z.max max_entries 1;
     cache_page_size := Z.max (if page_size =? 0 then (if store_page_size =? 0 then 1 else store_page_size)
                               else page_size) 1 |}.

Definition init_cache : cache :=
  Build_cache [] [] (Build_cache_stats 0 0 0 0 0 0 0 0 0 0 0 0 0 0 0 0 0 0 0).

Definition entries_of (m : string) (c : cache) : list entry := default [] (dget m (c_entries c)).
Definition pages_of (m : string) (c : cache) : list (string * rpage) := default [] (dget m (c_pages c)).

(** ** Matching *)

(** The loop of [_best_resident_match_locked]. *)
Fixpoint best_match (prompt_tokens : list Z) (prompt_keys : list string) (index : nat)
    (es : list entry) (best : option nat * nat * nat) : option nat * nat * nat :=
  match es with
  | [] => best
  | e :: es =>
      let '(best_index, best_length, best_pages) := best in
      let n := longest_token_prefix (e_prefix_tokens e) prompt_tokens in
      let best :=
        if (n =? 0)%nat then best
        else
          let pages := matched_page_count (e_page_keys e) prompt_keys in
          if ((best_length <? n) || ((n =? best_length) && (best_pages <? pages)))%nat%bool
          then (Some index, n, pages) else best in
      best_match prompt_tokens prompt_keys (S index) es best
  end.

Definition best_resident_match_locked (cfg : cache_config) (m : string) (prompt_tokens : list Z) (c : cache)
    : option nat * nat * nat :=
  best_match prompt_tokens (page_keys_for m (cache_page_size cfg) prompt_tokens) 0 (entries_of m c) (None, 0, 0)%nat.

(** [_resident_lookup_locked]: the hit moves to the recently-used end. *)
Definition resident_lookup_locked (cfg : cache_config) (m : string) (prompt_tokens : list Z) (c : cache)
    : option (cache * cache_lookup) :=
  match best_resident_match_locked cfg m prompt_tokens c with
  | (Some i, n, pages) =>
      match entries_of m c !! i with
      | Some e =>
          let es := remove_at i (entries_of m c) ++ [e] in
          Some (c <| c_entries ::= dset m es |>,
                {| l_entry := e; l_prefix_length := Z.of_nat n; l_matched_page_count := Z.of_nat pages;
                   l_resident_page_hits := Z.of_nat pages; l_persisted_page_hits := 0;
                   l_restored_page_count := 0 |})
      | None => None
      end
  | (None, _, _) => None
  end.

Definition resident_preview_locked (cfg : cache_config) (m : string) (prompt_tokens : list Z) (c : cache)
    : option cache_preview :=
  match best_resident_match_locked cfg m prompt_tokens c with
  | (Some i, n, pages) =>
      match entries_of m c !! i with
      | Some e =>
          Some {| p_model_id := e_model_id e; p_prefix_tokens := e_prefix_tokens e;
                  p_cache_key := e_cache_key e; p_source := Resident; p_prefix_length := Z.of_nat n;
                  p_matched_page_count := Z.of_nat pages; p_resident_page_hits := Z.of_nat pages;
                  p_persisted_page_hits := 0; p_page_size_tokens := e_page_size_tokens e;
                  p_page_count := Z.of_nat (length (e_page_keys e)); p_uncached_token_count := 0 |}
      | None => None
      end
  | (None, _, _) => None
  end.

(** ** Pages *)

(** [_release_resident_page_keys_locked] on the model's pages. *)
Fixpoint release_page_keys (keys : list string) (pages : list (string * rpage)) (removed : Z)
    : list (string * rpage) * Z :=
  match keys with
  | [] => (pages, removed)
  | k :: ks =>
      match dget k pages with
      | None => release_page_keys ks pages removed
      | Some p =>
          if 1 <? rp_ref_count p
          then release_page_keys ks (dset k (Build_rpage (rp_estimated_size_bytes p) (rp_ref_count p - 1)) pages)
                 removed
          else release_page_keys ks (ddel k pages) (removed + 1)
      end
  end.

(** [_shared_page_count_locked]: the leading keys already resident. *)
Fixpoint shared_page_count (keys : list string) (pages : list (string * rpage)) : Z :=
  match keys with
  | k :: ks => if dmem k pages then 1 + shared_page_count ks pages else 0
  | [] => 0
  end.

(** The first loop of [_insert_resident_locked]. *)
Fixpoint retain_page_keys (size : Z) (existing keys : list string) (pages : list (string * rpage)) (new : Z)
    : list (string * rpage) * Z :=
  match keys with
  | [] => (pages, new)
  | k :: ks =>
      match dget k pages with
      | None => retain_page_keys size existing ks
                  (dset k (Build_rpage (estimate_page_size k size) 1) pages) (new + 1)
      | Some p =>
          if bool_decide (k ∈ existing) then retain_page_keys size existing ks pages new
          else retain_page_keys size existing ks
                 (dset k (Build_rpage (rp_estimated_size_bytes p) (rp_ref_count p + 1)) pages) new
      end
  end.

(** The eviction loop: entries beyond the limit leave from the old end. *)
Fixpoint evict_entries (excess : nat) (es : list entry) (pages : list (string * rpage))
    (evicted_entries evicted_pages : Z) : list entry * list (string * rpage) * Z * Z :=
  match excess, es with
  | S excess, e :: es =>
      let '(pages, removed) := release_page_keys (e_page_keys e) pages 0 in
      evict_entries excess es pages (evicted_entries + 1) (evicted_pages + removed)
  | _, _ => (es, pages, evicted_entries, evicted_pages)
  end.

Fixpoint find_prefix (tokens : list Z) (es : list entry) : option nat :=
  match es with
  | [] => None
  | e :: es => if bool_decide (e_prefix_tokens e = tokens) then Some 0%nat
               else S <$> find_prefix tokens es
  end.

Record insert_summary := {
  is_new_page_count : Z;
  is_shared_page_count : Z;
  is_evicted_entry_count : Z;
  is_evicted_page_count : Z
}.

Definition keys_not_in (keys : list string) (l : list string) : list string :=
  List.filter (fun k => negb (bool_decide (k ∈ keys))) l.

(** The entry that replaces [existing], if any, with its page accounting. *)
Definition replace_entry (e : entry) (es : list entry) (pages : list (string * rpage))
    : list entry * list (string * rpage) * Z :=
  let index := find_prefix (e_prefix_tokens e) es in
  let existing := match index with Some i => es !! i | None => None end in
  let existing_keys := match existing with Some x => e_page_keys x | None => [] end in
  let '(pages, new) := retain_page_keys (e_page_size_tokens e) existing_keys (e_page_keys e) pages 0 in
  match index, existing with
  | Some i, Some x =>
      let pages := fst (release_page_keys (keys_not_in (e_page_keys e) (e_page_keys x)) pages 0) in
      (remove_at i es, pages, new)
  | _, _ => (es, pages, new)
  end.

(** [_insert_resident_locked]. *)
Definition insert_resident_locked (cfg : cache_config) (e : entry) (c : cache) : cache * insert_summary :=
  let m := e_model_id e in
  let shared := shared_page_count (e_page_keys e) (pages_of m c) in
  let '(es, pages, new) := replace_entry e (entries_of m c) (pages_of m c) in
  let stored := {| e_model_id := m; e_prefix_tokens := e_prefix_tokens e; e_payload := e_payload e;
                   e_estimated_size_bytes := e_estimated_size_bytes e; e_cache_key := e_cache_key e;
                   e_source := Resident; e_page_keys := e_page_keys e;
                   e_page_size_tokens := e_page_size_tokens e;
                   e_page_count := Z.of_nat (length (e_page_keys e));
                   e_shared_page_count := shared; e_new_page_count := new |} in
  let es := es ++ [stored] in
  let excess := Z.to_nat (Z.of_nat (length es) - max_entries_per_model cfg) in
  let '(es, pages, evicted_entries, evicted_pages) := evict_entries excess es pages 0 0 in
  (c <| c_entries ::= dset m es |> <| c_pages ::= dset m pages |>,
   {| is_new_page_count := new; is_shared_page_count := shared;
      is_evicted_entry_count := evicted_entries; is_evicted_page_count := evicted_pages |}).

(** ** Operations *)

(** [StoredPrefixCacheEntry], as the persistent store returns it. *)
Record stored_entry := {
  s_model_id : string;
  s_prefix_tokens : list Z;
  s_page_keys : list string;
  s_page_size_tokens : Z;
  s_payload : Payload;
  s_payload_persisted : bool;
  s_estimated_size_bytes : Z;
  s_cache_key : string
}.

(** What [put] and [enforce_limit] of the store answered to a [save]. *)
Record store_save := {
  ss_cache_key : string;
  ss_shared_page_count : Z;
  ss_new_page_count : Z;
  ss_evicted_entries : Z;
  ss_evicted_pages : Z
}.

(** [_persistent_lookup] on the store's answer. *)
Definition persistent_lookup (m : string) (prompt_tokens : list Z) (stored : option stored_entry)
    : option cache_lookup :=
  match stored with
  | None => None
  | Some s =>
      if negb (s_payload_persisted s) then None
      else
        let n := longest_token_prefix (s_prefix_tokens s) prompt_tokens in
        if (n =? 0)%nat then None
        else
          let pages := Z.of_nat (matched_page_count (s_page_keys s)
                                   (page_keys_for m (s_page_size_tokens s) prompt_tokens)) in
          Some {| l_entry := {| e_model_id := s_model_id s; e_prefix_tokens := s_prefix_tokens s;
                                e_payload := s_payload s;
                                e_estimated_size_bytes := Some (s_estimated_size_bytes s);
                                e_cache_key := Some (s_cache_key s); e_source := Persisted;
                                e_page_keys := s_page_keys s; e_page_size_tokens := s_page_size_tokens s;
                                e_page_count := Z.of_nat (length (s_page_keys s));
                                e_shared_page_count := pages; e_new_page_count := 0 |};
                  l_prefix_length := Z.of_nat n; l_matched_page_count := pages;
                  l_resident_page_hits := 0; l_persisted_page_hits := pages;
                  l_restored_page_count := 0 |}
  end.

Definition persistent_preview (m : string) (prompt_tokens : list Z) (stored : option stored_entry)
    : option cache_preview :=
  match stored with
  | None => None
  | Some s =>
      if negb (s_payload_persisted s) then None
      else
        let n := longest_token_prefix (s_prefix_tokens s) prompt_tokens in
        if (n =? 0)%nat then None
        else
          let pages := Z.of_nat (matched_page_count (s_page_keys s)
                                   (page_keys_for m (s_page_size_tokens s) prompt_tokens)) in
          Some {| p_model_id := s_model_id s; p_prefix_tokens := s_prefix_tokens s;
                  p_cache_key := Some (s_cache_key s); p_source := Persisted;
                  p_prefix_length := Z.of_nat n; p_matched_page_count := pages;
                  p_resident_page_hits := 0; p_persisted_page_hits := pages;
                  p_page_size_tokens := s_page_size_tokens s;
                  p_page_count := Z.of_nat (length (s_page_keys s)); p_uncached_token_count := 0 |}
  end.

Definition record_hit_locked (l : cache_lookup) (s : cache_stats) : cache_stats :=
  s <| hit_count ::= fun n => n + 1 |>
    <| saved_prefill_tokens ::= fun n => n + l_prefix_length l |>
    <| max_saved_prefill_tokens ::= fun n => Z.max n (l_prefix_length l) |>
    <| page_hit_count ::= fun n => n + l_matched_page_count l |>
    <| resident_page_hit_count ::= fun n => n + l_resident_page_hits l |>
    <| persistent_page_hit_count ::= fun n => n + l_persisted_page_hits l |>
    <| copy_on_write_reused_pages ::= fun n => n + l_matched_page_count l |>.

(** [lookup]; the store is asked only after a resident miss. *)
Definition lookup (cfg : cache_config) (m : string) (prompt_tokens : list Z) (stored : option stored_entry)
    (c : cache) : cache * option cache_lookup :=
  let c := c <| c_stats ::= fun s => s <| lookup_count ::= fun n => n + 1 |> |> in
  match resident_lookup_locked cfg m prompt_tokens c with
  | Some (c, l) =>
      (c <| c_stats ::= fun s => record_hit_locked l (s <| resident_hit_count ::= fun n => n + 1 |>) |>, Some l)
  | None =>
      match persistent_lookup m prompt_tokens stored with
      | Some l =>
          let c := c <| c_stats ::= fun s => s <| persistent_hit_count ::= fun n => n + 1 |>
                                               <| restore_count ::= fun n => n + 1 |> |> in
          let '(c, summary) := insert_resident_locked cfg (l_entry l) c in
          let restored := is_new_page_count summary in
          let l := {| l_entry := l_entry l; l_prefix_length := l_prefix_length l;
                      l_matched_page_count := l_matched_page_count l;
                      l_resident_page_hits := l_resident_page_hits l;
                      l_persisted_page_hits := l_persisted_page_hits l;
                      l_restored_page_count := restored |} in
          (c <| c_stats ::= fun s => record_hit_locked l (s <| page_restore_count ::= fun n => n + restored |>) |>,
           Some l)
      | None => (c <| c_stats ::= fun s => s <| miss_count ::= fun n => n + 1 |> |>, None)
      end
  end.

Definition with_uncached (prompt_tokens : list Z) (p : cache_preview) : cache_preview :=
  {| p_model_id := p_model_id p; p_prefix_tokens := p_prefix_tokens p; p_cache_key := p_cache_key p;
     p_source := p_source p; p_prefix_length := p_prefix_length p;
     p_matched_page_count := p_matched_page_count p; p_resident_page_hits := p_resident_page_hits p;
     p_persisted_page_hits := p_persisted_page_hits p; p_page_size_tokens := p_page_size_tokens p;
     p_page_count := p_page_count p;
     p_uncached_token_count := Z.max (Z.of_nat (length prompt_tokens) - p_prefix_length p) 0 |}.

Definition preview (cfg : cache_config) (m : string) (prompt_tokens : list Z) (stored : option stored_entry)
    (c : cache) : option cache_preview :=
  match prompt_tokens with
  | [] => None
  | _ =>
      match resident_preview_locked cfg m prompt_tokens c with
      | Some p => Some (with_uncached prompt_tokens p)
      | None => with_uncached prompt_tokens <$> persistent_preview m prompt_tokens stored
      end
  end.

(** The two locked sections of [save]: the resident pages shared beforehand, then
    the insertion, with the store's answer in between. *)
Definition save_shared (cfg : cache_config) (m : string) (tokens : list Z) (c : cache) : Z :=
  match page_keys_for m (cache_page_size cfg) tokens with
  | [] => 0
  | keys => shared_page_count keys (pages_of m c)
  end.

Definition save_commit (cfg : cache_config) (m : string) (tokens : list Z) (payload : Payload)
    (size : option Z) (resident_shared : Z) (persisted : option store_save) (c : cache) : cache * entry :=
  let keys := page_keys_for m (cache_page_size cfg) tokens in
  let c := match persisted with
           | Some p => c <| c_stats ::= fun s =>
                         s <| eviction_count ::= fun n => n + ss_evicted_entries p |>
                           <| persistent_page_eviction_count ::= fun n => n + ss_evicted_pages p |> |>
           | None => c
           end in
  let e := {| e_model_id := m; e_prefix_tokens := tokens; e_payload := payload;
              e_estimated_size_bytes := size;
              e_cache_key := match persisted with Some p => Some (ss_cache_key p) | None => None end;
              e_source := Resident; e_page_keys := keys; e_page_size_tokens := cache_page_size cfg;
              e_page_count := Z.of_nat (length keys);
              e_shared_page_count := match persisted with
                                     | Some p => ss_shared_page_count p
                                     | None => resident_shared
                                     end;
              e_new_page_count := match persisted with
                                  | Some p => ss_new_page_count p
                                  | None => Z.max (Z.of_nat (length keys) - resident_shared) 0
                                  end |} in
  let '(c, summary) := insert_resident_locked cfg e c in
  (c <| c_stats ::= fun s =>
       s <| page_save_count ::= fun n => n + is_new_page_count summary |>
         <| copy_on_write_reused_pages ::= fun n => n + is_shared_page_count summary |>
         <| resident_page_eviction_count ::= fun n => n + is_evicted_page_count summary |>
         <| eviction_count ::= fun n => n + is_evicted_entry_count summary |>
         <| save_count ::= fun n => n + 1 |> |>, e).

Definition save (cfg : cache_config) (m : string) (tokens : list Z) (payload : Payload) (size : option Z)
    (persisted : option store_save) (c : cache) : cache * option entry :=
  match tokens with
  | [] => (c, None)
  | _ => let '(c, e) := save_commit cfg m tokens payload size (save_shared cfg m tokens c) persisted c in
         (c, Some e)
  end.

(** The loop of [invalidate] over the model's entries. *)
Fixpoint invalidate_entries (cache_key : option string) (es : list entry) (pages : list (string * rpage))
    : list entry * list (string * rpage) * Z * Z :=
  match es with
  | [] => ([], pages, 0, 0)
  | e :: es =>
      let keep := match cache_key with
                  | Some k => negb (bool_decide (e_cache_key e = Some k))
                  | None => false
                  end in
      if keep then
        let '(es, pages, entry_count, page_count) := invalidate_entries cache_key es pages in
        (e :: es, pages, entry_count, page_count)
      else
        let '(pages, removed) := release_page_keys (e_page_keys e) pages 0 in
        let '(es, pages, entry_count, page_count) := invalidate_entries cache_key es pages in
        (es, pages, entry_count + 1, page_count + removed)
  end.

(** [invalidate]; [persisted] is what the store invalidated, if it was asked. *)
Definition invalidate (m : string) (cache_key : option string) (persisted : option (Z * Z)) (c : cache)
    : cache * (Z * Z * Z * Z) :=
  let '(es, pages, entry_count, page_count) := invalidate_entries cache_key (entries_of m c) (pages_of m c) in
  let c := match es with
           | [] => c <| c_entries ::= ddel m |>
           | _ => c <| c_entries ::= dset m es |>
           end in
  let c := match pages with
           | [] => c <| c_pages ::= ddel m |>
           | _ => c <| c_pages ::= dset m pages |>
           end in
  let c := c <| c_stats ::= fun s => s <| invalidation_count ::= fun n => n + entry_count |> |> in
  match persisted with
  | Some (persisted_entries, persisted_pages) =>
      (c <| c_stats ::= fun s => s <| invalidation_count ::= fun n => n + persisted_entries |> |>,
       (entry_count, page_count, persisted_entries, persisted_pages))
  | None => (c, (entry_count, page_count, 0, 0))
  end.

Definition sum_z (l : list Z) : Z := foldr Z.add 0 l.

(** [snapshot]; [store] is the store's four totals, when there is one. *)
Definition snapshot (cfg : cache_config) (store : option (Z * Z * Z * Z)) (c : cache)
    : list (string * stat) :=
  let all_entries := List.concat (map snd (c_entries c)) in
  let all_pages := List.concat (map snd (c_pages c)) in
  let total_entries := Z.of_nat (length all_entries) in
  let resident_size := sum_z (map (fun e => default 0 (e_estimated_size_bytes e)) all_entries) in
  let resident_pages := Z.of_nat (length all_pages) in
  let resident_page_size := sum_z (map (fun kp => rp_estimated_size_bytes (snd kp)) all_pages) in
  let '(persisted_entries, persisted_size, persisted_pages, persisted_page_size) :=
    default (0, 0, 0, 0) store in
  let s := c_stats c in
  let has_store := match store with Some _ => true | None => false end in
  [ ("supported", SBool true);
    ("active", SBool ((0 <? total_entries)%Z || (0 <? persisted_entries)%Z)%bool);
    ("page_size_tokens", SInt (cache_page_size cfg)); ("cache_entries", SInt total_entries);
    ("cache_size_bytes", SInt resident_size); ("resident_cache_entries", SInt total_entries);
    ("resident_cache_hits", SInt (resident_hit_count s));
    ("persisted_cache_entries", SInt persisted_entries);
    ("persisted_cache_size_bytes", SInt persisted_size);
    ("persistent_cache_hits", SInt (persistent_hit_count s)); ("cache_restores", SInt (restore_count s));
    ("cache_evictions", SInt (eviction_count s)); ("cache_hits", SInt (hit_count s));
    ("cache_misses", SInt (miss_count s)); ("cache_saves", SInt (save_count s));
    ("saved_prefill_tokens", SInt (saved_prefill_tokens s)); ("cached_tokens", SInt (saved_prefill_tokens s));
    ("max_saved_prefill_tokens", SInt (max_saved_prefill_tokens s));
    ("resident_page_count", SInt resident_pages); ("resident_page_size_bytes", SInt resident_page_size);
    ("persisted_page_count", SInt persisted_pages);
    ("persisted_page_size_bytes", SInt persisted_page_size); ("page_hits", SInt (page_hit_count s));
    ("resident_page_hits", SInt (resident_page_hit_count s));
    ("persistent_page_hits", SInt (persistent_page_hit_count s)); ("page_saves", SInt (page_save_count s));
    ("page_restores", SInt (page_restore_count s));
    ("resident_page_evictions", SInt (resident_page_eviction_count s));
    ("persisted_page_evictions", SInt (persistent_page_eviction_count s));
    ("page_evictions", SInt (resident_page_eviction_count s + persistent_page_eviction_count s)%Z);
    ("copy_on_write_reused_pages", SInt (copy_on_write_reused_pages s));
    ("cache_invalidations", SInt (invalidation_count s)); ("content_addressed", SBool has_store);
    ("restart_resilient", SBool has_store) ]%string.

(** ** Prefixes *)

Lemma longest_token_prefix_spec xs ys :
  let n := longest_token_prefix xs ys in
  (n <= length xs)%nat /\ (n <= length ys)%nat /\ take n xs = take n ys
  /\ (forall k, (k <= length xs)%nat -> (k <= length ys)%nat -> take k xs = take k ys -> (k <= n)%nat).
Proof.
  revert ys. induction xs as [|x xs IH]; intros [|y ys]; simpl; try (split_and!; [lia..|done|intros; lia]).
  case_if; bool_prop; simpl.
  - subst y. destruct (IH ys) as (H1 & H2 & H3 & H4). split_and!; [lia..|by rewrite H3|].
    intros [|k] Hk1 Hk2; [lia|]. simpl. intros [= Heq]. specialize (H4 k). lia || (apply le_n_S, H4; [lia..|done]).
  - split_and!; [lia..|done|]. intros [|k] _ _; [lia|]. simpl. intros [= ? _]. done.
Qed.

Lemma longest_token_prefix_self xs : longest_token_prefix xs xs = length xs.
Proof. induction xs as [|x xs IH]; simpl; [done|]. by rewrite Z.eqb_refl, IH. Qed.

Lemma longest_token_prefix_comm xs ys : longest_token_prefix xs ys = longest_token_prefix ys xs.
Proof.
  revert ys. induction xs as [|x xs IH]; intros [|y ys]; simpl; try done.
  rewrite (Z.eqb_sym y x), IH. done.
Qed.

(** Pages that lie within a common prefix have common keys. *)
Lemma matched_pages_from m size n : forall fuel1 fuel2 index parent xs ys,
  (0 < size)%nat -> (length xs <= fuel1)%nat -> (length ys <= fuel2)%nat ->
  (n * size <= longest_token_prefix xs ys)%nat ->
  (n <= matched_page_count (page_keys_from fuel1 m size index parent xs)
                           (page_keys_from fuel2 m size index parent ys))%nat.
Proof.
  induction n as [|n IH]; intros fuel1 fuel2 index parent xs ys Hs H1 H2 Hn; [lia|].
  destruct (longest_token_prefix_spec xs ys) as (Hx & Hy & Ht & _).
  set (len := longest_token_prefix xs ys) in *.
  assert (Hsize : (size <= len)%nat) by lia.
  destruct xs as [|x xs]; [simpl in Hx; lia|]. destruct ys as [|y ys]; [simpl in Hy; lia|].
  destruct fuel1 as [|fuel1]; [simpl in H1; lia|]. destruct fuel2 as [|fuel2]; [simpl in H2; lia|].
  assert (Hp : take size (x :: xs) = take size (y :: ys)).
  { apply (f_equal (take size)) in Ht. by rewrite !take_take, !Nat.min_l in Ht by lia. }
  cbn [page_keys_from]. rewrite Hp. cbn [matched_page_count]. rewrite bool_decide_true by done.
  apply le_n_S. apply IH; [done| | |].
  - rewrite length_drop. simpl in *. lia.
  - rewrite length_drop. simpl in *. lia.
  - destruct (longest_token_prefix_spec (drop size (x :: xs)) (drop size (y :: ys))) as (_ & _ & _ & Hmax).
    transitivity (len - size)%nat; [lia|]. apply Hmax; rewrite ?length_drop; [lia..|].
    rewrite !take_drop_commute. replace (size + (len - size))%nat with len by lia. by rewrite Ht.
Qed.

Lemma matched_pages_lower m size xs ys :
  1 <= size ->
  Z.of_nat (longest_token_prefix xs ys) / size
  <= Z.of_nat (matched_page_count (page_keys_for m size xs) (page_keys_for m size ys)).
Proof.
  intros Hs. unfold page_keys_for. rewrite Z.max_l by lia.
  set (q := Z.of_nat (longest_token_prefix xs ys) / size).
  assert (0 <= q) by (apply Z.div_pos; lia).
  assert (q * size <= Z.of_nat (longest_token_prefix xs ys)) by (rewrite Z.mul_comm; apply Z.mul_div_le; lia).
  assert (Hq : (Z.to_nat q <= matched_page_count (page_keys_from (length xs) m (Z.to_nat size) 0 None xs)
    (page_keys_from (length ys) m (Z.to_nat size) 0 None ys))%nat).
  { apply matched_pages_from; [lia..|]. nia. }
  lia.
Qed.

Lemma matched_page_count_self ks : matched_page_count ks ks = length ks.
Proof. induction ks as [|k ks IH]; simpl; [done|]. rewrite bool_decide_true by done. by rewrite IH. Qed.

(** ** The best match *)

(** The loop's answer against the entries it has seen. *)
Definition better (a b : nat * nat) : Prop := (a.1 < b.1 \/ (a.1 = b.1 /\ a.2 <= b.2))%nat.

Definition score (prompt : list Z) (keys : list string) (e : entry) : nat * nat :=
  (longest_token_prefix (e_prefix_tokens e) prompt, matched_page_count (e_page_keys e) keys).

Lemma better_trans a b c : better a b -> better b c -> better a c.
Proof. unfold better. lia. Qed.

Lemma best_match_spec prompt keys es : forall index bi bl bp ri rl rp,
  best_match prompt keys index es (bi, bl, bp) = (ri, rl, rp) ->
  better (bl, bp) (rl, rp)
  /\ (forall e, e ∈ es -> longest_token_prefix (e_prefix_tokens e) prompt <> 0%nat ->
        better (score prompt keys e) (rl, rp))
  /\ ((ri = bi /\ rl = bl /\ rp = bp)
      \/ exists j e, es !! j = Some e /\ ri = Some (index + j)%nat /\ score prompt keys e = (rl, rp)
                     /\ rl <> 0%nat).
Proof.
  induction es as [|e es IH]; intros index bi bl bp ri rl rp; simpl.
  { intros [= <- <- <-]. split_and!; [unfold better; simpl; lia|by intros e ?%not_elem_of_nil|by left]. }
  intros Hb. set (n := longest_token_prefix (e_prefix_tokens e) prompt) in *.
  set (pages := matched_page_count (e_page_keys e) keys) in *.
  assert (Hstep : exists bi' bl' bp',
    best_match prompt keys (S index) es (bi', bl', bp') = (ri, rl, rp)
    /\ better (bl, bp) (bl', bp') /\ (n <> 0%nat -> better (n, pages) (bl', bp'))
    /\ ((bi' = bi /\ bl' = bl /\ bp' = bp) \/ (bi' = Some index /\ bl' = n /\ bp' = pages /\ n <> 0%nat))).
  { destruct (n =? 0)%nat eqn:Hn; [apply Nat.eqb_eq in Hn|apply Nat.eqb_neq in Hn].
    - exists bi, bl, bp. split; [exact Hb|]. split_and!; [unfold better; simpl; lia|done|by left].
    - case_if.
      + exists (Some index), n, pages. split; [exact Hb|].
        apply orb_true_iff in Heqb as [H|H];
          [apply Nat.ltb_lt in H|apply andb_true_iff in H as [H1 H2]; apply Nat.eqb_eq in H1; apply Nat.ltb_lt in H2];
          (split_and!; [unfold better; simpl; lia|intros _; unfold better; simpl; lia|by right]).
      + exists bi, bl, bp. split; [exact Hb|]. apply orb_false_iff in Heqb as [H1 H2]. apply Nat.ltb_ge in H1.
        split_and!; [unfold better; simpl; lia| |by left]. intros _. unfold better. simpl.
        destruct (n =? bl)%nat eqn:Hq; [apply Nat.eqb_eq in Hq|apply Nat.eqb_neq in Hq; lia].
        apply Nat.ltb_ge in H2. lia. }
  destruct Hstep as (bi' & bl' & bp' & Hrec & Hbb & He & Hc).
  apply IH in Hrec as (H1 & H2 & H3). split_and!.
  - by eapply better_trans.
  - intros e' [->|Hin]%elem_of_cons Hne; [|by apply H2]. eapply better_trans; [by apply He|done].
  - destruct H3 as [(-> & -> & ->)|(j & e' & Hj & -> & Hsc & Hrl)].
    + destruct Hc as [?|(-> & -> & -> & Hne)]; [by left|right]. exists 0%nat, e.
      split_and!; [done|by rewrite Nat.add_0_r|done|done].
    + right. exists (S j), e'. split_and!; [done| |done|done]. f_equal. lia.
Qed.

(** ** Reference counting *)

Definition refs (k : string) (pages : list (string * rpage)) : Z :=
  match dget k pages with Some p => rp_ref_count p | None => 0 end.

Definition holds (k : string) (e : entry) : bool := bool_decide (k ∈ e_page_keys e).

Definition holders (k : string) (es : list entry) : Z := countb (holds k) es.

Definition one_if (b : bool) : Z := if b then 1 else 0.

(** Pages kept once each, with positive counts. *)
Definition pages_ok (pages : list (string * rpage)) : Prop :=
  NoDup (dkeys pages) /\ forall k p, dget k pages = Some p -> 1 <= rp_ref_count p.

Lemma refs_nonneg k pages : pages_ok pages -> 0 <= refs k pages.
Proof. intros [_ H]. unfold refs. destruct (dget k pages) eqn:E; [|lia]. apply H in E. lia. Qed.

Lemma refs_dset k k' p pages :
  refs k' (dset k p pages) = if decide (k' = k) then rp_ref_count p else refs k' pages.
Proof.
  unfold refs. case_decide; [subst; by rewrite dget_dset_eq|by rewrite dget_dset_ne].
Qed.

Lemma pages_ok_dset k p pages : pages_ok pages -> 1 <= rp_ref_count p -> pages_ok (dset k p pages).
Proof.
  intros [Hnd Hr] Hp. split; [by apply NoDup_dset|]. intros k' q.
  destruct (decide (k' = k)) as [->|]; [rewrite dget_dset_eq; congruence|].
  rewrite dget_dset_ne by done. apply Hr.
Qed.

Lemma pages_ok_ddel k pages : pages_ok pages -> pages_ok (ddel k pages).
Proof.
  intros [Hnd Hr]. split; [by apply NoDup_ddel|]. intros k' q.
  destruct (decide (k' = k)) as [->|]; [by rewrite dget_ddel_eq|].
  rewrite dget_ddel_ne by done. apply Hr.
Qed.

Lemma refs_ddel k k' pages :
  NoDup (dkeys pages) -> refs k' (ddel k pages) = if decide (k' = k) then 0 else refs k' pages.
Proof.
  intros Hnd. unfold refs. case_decide; [subst; by rewrite dget_ddel_eq|by rewrite dget_ddel_ne].
Qed.

Lemma release_page_keys_spec keys : forall pages removed pages' removed',
  NoDup keys -> pages_ok pages -> release_page_keys keys pages removed = (pages', removed') ->
  pages_ok pages'
  /\ (forall k, refs k pages' = Z.max 0 (refs k pages - one_if (bool_decide (k ∈ keys))))
  /\ Z.of_nat (length pages') + removed' = Z.of_nat (length pages) + removed.
Proof.
  induction keys as [|k ks IH]; simpl; intros pages removed pages' removed' Hnd Hok Hr.
  { simplify_eq. split_and!; [done| |done]. intros k. unfold one_if.
    pose proof (refs_nonneg k _ Hok). simpl. lia. }
  apply NoDup_cons in Hnd as [Hk Hnd].
  assert (Hone : forall k', k' <> k -> one_if (bool_decide (k' ∈ k :: ks)) = one_if (bool_decide (k' ∈ ks))).
  { intros k' Hne. f_equal. apply bool_decide_ext. set_solver. }
  assert (Hself : one_if (bool_decide (k ∈ k :: ks)) = 1) by (rewrite bool_decide_true; [done|by left]).
  assert (Hrest : one_if (bool_decide (k ∈ ks)) = 0) by by rewrite bool_decide_false.
  destruct (dget k pages) as [p|] eqn:Hg.
  - assert (Hrk : refs k pages = rp_ref_count p) by (unfold refs; by rewrite Hg).
    pose proof (proj2 Hok _ _ Hg) as Hp. case_if; bool_prop.
    + apply IH in Hr as (H1 & H2 & H3); [|done|apply pages_ok_dset; [done|simpl; lia]].
      split_and!; [done| |].
      * intros k'. rewrite H2, refs_dset. destruct (decide (k' = k)) as [->|Hne]; [|by rewrite Hone].
        rewrite Hself, Hrest, Hrk. simpl. lia.
      * rewrite H3. rewrite <- (length_map fst (dset _ _ _)).
        rewrite (dkeys_dset_old _ _ _ (dget_Some_key _ _ _ Hg) : map fst _ = _).
        unfold dkeys. by rewrite length_map.
    + apply IH in Hr as (H1 & H2 & H3); [|done|by apply pages_ok_ddel]. split_and!; [done| |].
      * intros k'. rewrite H2, refs_ddel by apply Hok. destruct (decide (k' = k)) as [->|Hne]; [|by rewrite Hone].
        rewrite Hself, Hrest, Hrk. lia.
      * pose proof (length_ddel_mem _ _ (dget_Some_key _ _ _ Hg)). lia.
  - apply IH in Hr as (H1 & H2 & H3); [|done|done]. split_and!; [done| |done]. intros k'. rewrite H2.
    destruct (decide (k' = k)) as [->|Hne]; [|by rewrite Hone]. rewrite Hself, Hrest.
    unfold refs. rewrite Hg. lia.
Qed.

Lemma retain_page_keys_spec size existing keys : forall pages new pages' new',
  NoDup keys -> pages_ok pages -> retain_page_keys size existing keys pages new = (pages', new') ->
  pages_ok pages'
  /\ forall k, refs k pages' = refs k pages
       + one_if (bool_decide (k ∈ keys) && (negb (bool_decide (k ∈ existing)) || (refs k pages =? 0)))%bool.
Proof.
  induction keys as [|k ks IH]; simpl; intros pages new pages' new' Hnd Hok Hr.
  { simplify_eq. split; [done|]. intros k. simpl. lia. }
  apply NoDup_cons in Hnd as [Hk Hnd].
  assert (Hone : forall k', k' <> k -> bool_decide (k' ∈ k :: ks) = bool_decide (k' ∈ ks)).
  { intros k' Hne. apply bool_decide_ext. set_solver. }
  assert (Hself : bool_decide (k ∈ k :: ks) = true) by (apply bool_decide_eq_true; by left).
  assert (Hrest : bool_decide (k ∈ ks) = false) by by apply bool_decide_eq_false.
  destruct (dget k pages) as [p|] eqn:Hg.
  - assert (Hrk : refs k pages = rp_ref_count p) by (unfold refs; by rewrite Hg).
    pose proof (proj2 Hok _ _ Hg) as Hp.
    assert (Hnz : (refs k pages =? 0) = false) by (apply Z.eqb_neq; lia).
    destruct (bool_decide (k ∈ existing)) eqn:He.
    + apply IH in Hr as (H1 & H2); [|done|done]. split; [done|]. intros k'. rewrite H2.
      destruct (decide (k' = k)) as [->|Hne]; [|by rewrite Hone]. rewrite Hself, Hrest, He, Hnz. simpl. lia.
    + apply IH in Hr as (H1 & H2); [|done|apply pages_ok_dset; [done|simpl; lia]]. split; [done|]. intros k'.
      rewrite H2, refs_dset. destruct (decide (k' = k)) as [->|Hne]; [|by rewrite Hone].
      rewrite Hself, Hrest, He, Hrk. simpl. lia.
  - apply IH in Hr as (H1 & H2); [|done|apply pages_ok_dset; [done|simpl; lia]]. split; [done|]. intros k'.
    rewrite H2, refs_dset. destruct (decide (k' = k)) as [->|Hne]; [|by rewrite Hone]. rewrite Hself, Hrest.
    unfold refs. rewrite Hg. simpl. rewrite orb_true_r. simpl. lia.
Qed.

(** ** The invariant of one model *)

Record model_inv (es : list entry) (pages : list (string * rpage)) : Prop := {
  mi_pages : pages_ok pages;
  mi_counts : forall k, refs k pages = holders k es;
  mi_keys : forall e, e ∈ es -> NoDup (e_page_keys e);
  mi_distinct : NoDup (map e_prefix_tokens es)
}.

Lemma holders_cons k e es : holders k (e :: es) = one_if (holds k e) + holders k es.
Proof. unfold holders. by rewrite countb_cons. Qed.

Lemma holders_app k es1 es2 : holders k (es1 ++ es2) = holders k es1 + holders k es2.
Proof. apply countb_app. Qed.

Lemma entry_holders_nonneg k es : 0 <= holders k es.
Proof. apply countb_nonneg. Qed.

(** Dropping the first entry and releasing its pages. *)
Lemma model_inv_release e es1 es2 pages pages' removed :
  model_inv (es1 ++ e :: es2) pages -> release_page_keys (e_page_keys e) pages 0 = (pages', removed) ->
  model_inv (es1 ++ es2) pages'.
Proof.
  intros [Hok Hc Hk Hd] Hr.
  apply release_page_keys_spec in Hr as (H1 & H2 & _); [|apply Hk; set_solver|done]. split; [done| | |].
  - intros k. rewrite H2, Hc, !holders_app, holders_cons. unfold holds at 1.
    pose proof (entry_holders_nonneg k es1). pose proof (entry_holders_nonneg k es2). lia.
  - intros e' He'. apply Hk. set_solver.
  - rewrite map_app in *. simpl in Hd. apply NoDup_app in Hd as (Hd1 & Hd2 & Hd3).
    apply NoDup_cons in Hd3 as [_ Hd3]. apply NoDup_app. split_and!; [done| |done].
    intros x Hx Hx'. apply (Hd2 x Hx). by right.
Qed.

Lemma evict_entries_spec excess : forall es pages ee ep es' pages' ee' ep',
  (excess <= length es)%nat -> model_inv es pages ->
  evict_entries excess es pages ee ep = (es', pages', ee', ep') ->
  model_inv es' pages' /\ es' = drop excess es /\ ee' = ee + Z.of_nat excess
  /\ ep' + Z.of_nat (length pages') = ep + Z.of_nat (length pages).
Proof.
  induction excess as [|n IH]; intros es pages ee ep es' pages' ee' ep' Hl Hi; simpl.
  { intros [= <- <- <- <-]. split_and!; [done|done|lia|done]. }
  destruct es as [|e es]; [simpl in Hl; lia|].
  destruct (release_page_keys (e_page_keys e) pages 0) as [pages1 removed] eqn:Hr.
  intros He. simpl in Hl.
  pose proof (model_inv_release e [] es pages pages1 removed Hi Hr) as Hi1. simpl in Hi1.
  apply release_page_keys_spec in Hr as (_ & _ & Hlen); [|apply (mi_keys _ _ Hi); by left|apply Hi].
  apply IH in He as (H1 & H2 & H3 & H4); [|lia|done]. split_and!; [done|done|lia|lia].
Qed.

Lemma find_prefix_spec tokens es :
  match find_prefix tokens es with
  | Some i => exists es1 x es2, es = es1 ++ x :: es2 /\ length es1 = i /\ e_prefix_tokens x = tokens
  | None => tokens ∉ map e_prefix_tokens es
  end.
Proof.
  induction es as [|e es IH]; simpl; [apply not_elem_of_nil|].
  case_bool_decide as He; [by exists [], e, es|].
  destruct (find_prefix tokens es) as [i|]; simpl.
  - destruct IH as (es1 & x & es2 & -> & <- & Hx). by exists (e :: es1), x, es2.
  - apply not_elem_of_cons. split; [done|done].
Qed.

Lemma NoDup_keys_not_in ks l : NoDup l -> NoDup (keys_not_in ks l).
Proof.
  unfold keys_not_in. induction 1 as [|k l Hk Hl IH]; simpl; [constructor|]. case_if; [|done].
  constructor; [|done]. intros Hin. apply Hk. by apply list_elem_of_In, filter_In in Hin as [?%list_elem_of_In _].
Qed.

Lemma elem_of_keys_not_in k ks l : k ∈ keys_not_in ks l <-> k ∈ l /\ k ∉ ks.
Proof.
  unfold keys_not_in. rewrite !list_elem_of_In, filter_In, negb_true_iff, bool_decide_eq_false.
  by rewrite !list_elem_of_In.
Qed.

(** Replacing: afterwards the counts are those of the other entries and the new
    one, which is not yet in the list. *)
Lemma replace_entry_spec e es pages es' pages' new :
  model_inv es pages -> NoDup (e_page_keys e) -> replace_entry e es pages = (es', pages', new) ->
  model_inv (es' ++ [e]) pages'
  /\ (forall x, x ∈ es' <-> x ∈ es /\ e_prefix_tokens x <> e_prefix_tokens e).
Proof.
  intros Hi Hnd. unfold replace_entry. pose proof (find_prefix_spec (e_prefix_tokens e) es) as Hf.
  destruct (find_prefix (e_prefix_tokens e) es) as [i|].
  - destruct Hf as (es1 & x & es2 & -> & <- & Hx). rewrite list_lookup_middle by done.
    destruct (retain_page_keys _ _ _ _ _) as [pages1 new1] eqn:Hr.
    destruct (release_page_keys (keys_not_in _ _) pages1 0) as [pages2 removed] eqn:Hrel.
    intros [= <- <- <-]. rewrite remove_at_middle. destruct Hi as [Hok Hc Hk Hd].
    assert (Hkx : NoDup (e_page_keys x)) by (apply Hk; set_solver).
    apply retain_page_keys_spec in Hr as (H1 & H2); [|done|done].
    simpl. apply release_page_keys_spec in Hrel as (H3 & H4 & _); [|by apply NoDup_keys_not_in|done].
    assert (Hx1 : NoDup (map e_prefix_tokens (es1 ++ es2)) /\ e_prefix_tokens x ∉ map e_prefix_tokens (es1 ++ es2)).
    { rewrite map_app in *. simpl in Hd. apply NoDup_app in Hd as (Hd1 & Hd2 & Hd3).
      apply NoDup_cons in Hd3 as [Hd4 Hd3]. split.
      - apply NoDup_app. split_and!; [done| |done]. intros y Hy Hy'. apply (Hd2 y Hy). by right.
      - intros [Hin|Hin]%elem_of_app; [|done]. apply (Hd2 _ Hin). by left. }
    split.
    + split; [done| | |].
      * intros k. rewrite H4, H2, Hc, !holders_app, !holders_cons.
        change (holders k []) with 0. change (holds k x) with (bool_decide (k ∈ e_page_keys x)).
        change (holds k e) with (bool_decide (k ∈ e_page_keys e)). pose proof (entry_holders_nonneg k es1). pose proof (entry_holders_nonneg k es2).
        replace (bool_decide (k ∈ keys_not_in (e_page_keys e) (e_page_keys x)))
          with (bool_decide (k ∈ e_page_keys x) && negb (bool_decide (k ∈ e_page_keys e)))%bool.
        -- destruct (bool_decide (k ∈ e_page_keys x)), (bool_decide (k ∈ e_page_keys e)); simpl; unfold one_if;
             repeat case_if; bool_prop; lia.
        -- symmetry. apply eq_bool_prop_intro. rewrite andb_True, negb_True, !bool_decide_spec.
           apply elem_of_keys_not_in.
      * intros e' He'. apply elem_of_app in He' as [He'| ->%list_elem_of_singleton]; [|done].
        apply Hk. set_solver.
      * rewrite map_app. simpl. rewrite <- Hx. apply NoDup_app. destruct Hx1 as [Hd1 Hd2].
        split_and!; [done| |apply NoDup_singleton]. intros y Hy ->%list_elem_of_singleton. done.
    + intros y. destruct Hx1 as [_ Hd2]. rewrite !elem_of_app, elem_of_cons. split.
      * intros Hy. split; [tauto|]. rewrite <- Hx. intros Heq. apply Hd2. rewrite <- Heq.
        apply list_elem_of_fmap. exists y. split; [done|]. by apply elem_of_app.
      * intros [[Hy|[->|Hy]] Hne]; [by left| |by right]. by rewrite Hx in Hne.
  - destruct (retain_page_keys _ _ _ _ _) as [pages1 new1] eqn:Hr. intros [= <- <- <-].
    destruct Hi as [Hok Hc Hk Hd]. apply retain_page_keys_spec in Hr as (H1 & H2); [|done|done]. split.
    + split; [done| | |].
      * intros k. rewrite H2, Hc, holders_app, holders_cons. change (holders k []) with 0.
        change (holds k e) with (bool_decide (k ∈ e_page_keys e)). rewrite (bool_decide_false (k ∈ [])) by apply not_elem_of_nil. simpl.
        rewrite andb_true_r. lia.
      * intros e' [He'| ->%list_elem_of_singleton]%elem_of_app; [by apply Hk|done].
      * rewrite map_app. apply NoDup_app. split_and!; [done| |apply NoDup_singleton].
        intros y Hy ->%list_elem_of_singleton. done.
    + intros y. split; [|tauto]. intros Hy. split; [done|]. intros Heq. apply Hf. rewrite <- Heq.
      apply list_elem_of_fmap. by exists y.
Qed.

(** ** The invariant of the cache *)

Record cache_inv (cfg : cache_config) (c : cache) : Prop := {
  ci_entries_nodup : NoDup (dkeys (c_entries c));
  ci_pages_nodup : NoDup (dkeys (c_pages c));
  ci_model : forall m, model_inv (entries_of m c) (pages_of m c);
  ci_bound : forall m, Z.of_nat (length (entries_of m c)) <= max_entries_per_model cfg
}.

Lemma model_inv_ext es es' pages :
  map e_prefix_tokens es' = map e_prefix_tokens es -> map e_page_keys es' = map e_page_keys es ->
  model_inv es pages -> model_inv es' pages.
Proof.
  intros H1 H2 [Hok Hc Hk Hd].
  assert (Hh : forall k, holders k es' = holders k es).
  { intros k. clear Hok Hc Hk Hd H1. revert es' H2. induction es as [|e es IH]; intros [|e' es'] H2; try done.
    simpl in H2. injection H2 as He H2. rewrite !holders_cons, (IH es') by done. unfold holds. by rewrite He. }
  split; [done| | |].
  - intros k. by rewrite Hh.
  - intros e' He'. assert (Hin : e_page_keys e' ∈ map e_page_keys es').
    { apply list_elem_of_fmap. by exists e'. }
    rewrite H2 in Hin. apply list_elem_of_fmap in Hin as (e & -> & He). by apply Hk.
  - by rewrite H1.
Qed.

(** What an insertion does to its model. *)
Lemma insert_effect cfg e c :
  1 <= max_entries_per_model cfg -> cache_inv cfg c -> NoDup (e_page_keys e) ->
  let m := e_model_id e in
  let c' := fst (insert_resident_locked cfg e c) in
  let summary := snd (insert_resident_locked cfg e c) in
  exists es stored pages,
    (forall x, x ∈ es <-> x ∈ entries_of m c /\ e_prefix_tokens x <> e_prefix_tokens e)
    /\ e_prefix_tokens stored = e_prefix_tokens e /\ e_page_keys stored = e_page_keys e
    /\ e_payload stored = e_payload e
    /\ model_inv (es ++ [stored]) pages
    /\ (let excess := Z.to_nat (Z.of_nat (length (es ++ [stored])) - max_entries_per_model cfg) in
        c_entries c' = dset m (drop excess (es ++ [stored])) (c_entries c)
        /\ is_evicted_entry_count summary = Z.of_nat excess)
    /\ (exists pages', c_pages c' = dset m pages' (c_pages c)
          /\ model_inv (entries_of m c') pages'
          /\ is_evicted_page_count summary + Z.of_nat (length pages') = Z.of_nat (length pages)).
Proof.
  intros Hmax Hi Hnd m c' summary. subst c' summary. unfold insert_resident_locked. fold m.
  destruct (replace_entry e (entries_of m c) (pages_of m c)) as [[es pages] new] eqn:Hr.
  apply replace_entry_spec in Hr as [Hmi Hes]; [|apply Hi|done].
  set (stored := Build_entry _ _ _ _ _ _ _ _ _ _ _).
  assert (Hmi2 : model_inv (es ++ [stored]) pages).
  { eapply model_inv_ext; [| |exact Hmi]; by rewrite !map_app. }
  set (excess := Z.to_nat _).
  destruct (evict_entries excess (es ++ [stored]) pages 0 0) as [[[es2 pages2] ee] ep] eqn:He.
  apply evict_entries_spec in He as (H1 & H2 & H3 & H4); [| |done].
  2: { unfold excess. rewrite length_app. simpl. lia. }
  subst es2 ee. exists es, stored, pages. split_and!; try done; simpl.
  - exists pages2. split; [done|]. unfold entries_of. simpl. rewrite dget_dset_eq. simpl. split; [done|lia].
Qed.

Lemma entries_of_set m m' es pages s (c : cache) :
  entries_of m (Build_cache (dset m' es (c_entries c)) pages s)
  = if decide (m = m') then es else entries_of m c.
Proof.
  unfold entries_of. simpl. case_decide; [subst; by rewrite dget_dset_eq|by rewrite dget_dset_ne].
Qed.

Lemma cache_inv_insert cfg e c :
  1 <= max_entries_per_model cfg -> cache_inv cfg c -> NoDup (e_page_keys e) ->
  cache_inv cfg (fst (insert_resident_locked cfg e c)).
Proof.
  intros Hmax Hi Hnd.
  destruct (insert_effect cfg e c Hmax Hi Hnd) as (es & stored & pages & _ & _ & _ & _ & _ & (He & _) & (pages' & Hp & Hm & _)).
  set (m := e_model_id e) in *. set (c' := fst (insert_resident_locked cfg e c)) in *. clearbody c'.
  split.
  - rewrite He. apply NoDup_dset, Hi.
  - rewrite Hp. apply NoDup_dset, Hi.
  - intros m'. destruct (decide (m' = m)) as [->|Hne].
    + unfold pages_of. rewrite Hp, dget_dset_eq. done.
    + unfold entries_of, pages_of. rewrite He, Hp, !dget_dset_ne by done. apply Hi.
  - intros m'. unfold entries_of. rewrite He. destruct (decide (m' = m)) as [->|Hne].
    + rewrite dget_dset_eq. simpl. rewrite length_drop, length_app. simpl. lia.
    + rewrite dget_dset_ne by done. apply Hi.
Qed.

Lemma cache_inv_stats cfg f c : cache_inv cfg c -> cache_inv cfg (c <| c_stats ::= f |>).
Proof. intros []. by split. Qed.

(** Moving an entry to the recently-used end. *)
Lemma model_inv_move es i e pages :
  es !! i = Some e -> model_inv es pages -> model_inv (remove_at i es ++ [e]) pages.
Proof.
  intros (es1 & es2 & -> & <-)%lookup_split_at [Hok Hc Hk Hd]. rewrite remove_at_middle. split; [done| | |].
  - intros k. rewrite Hc, !holders_app, !holders_cons. change (holders k []) with 0. lia.
  - intros x [Hx| ->%list_elem_of_singleton]%elem_of_app; apply Hk; set_solver.
  - assert (Hperm : es1 ++ e :: es2 ≡ₚ (es1 ++ es2) ++ [e]).
    { rewrite <- Permutation_middle. by rewrite <- Permutation_cons_append. }
    by rewrite <- (fmap_Permutation e_prefix_tokens _ _ Hperm : map _ _ ≡ₚ map _ _).
Qed.

Lemma resident_lookup_inv cfg m prompt c c' l :
  cache_inv cfg c -> resident_lookup_locked cfg m prompt c = Some (c', l) -> cache_inv cfg c'.
Proof.
  intros Hi. unfold resident_lookup_locked.
  destruct (best_resident_match_locked cfg m prompt c) as [[[i|] n] pages]; [|done].
  destruct (entries_of m c !! i) as [e|] eqn:He; [|done]. intros [= <- _]. split; simpl.
  - apply NoDup_dset, Hi.
  - apply Hi.
  - intros m'. rewrite entries_of_set. change (pages_of m' _) with (pages_of m' c) at 1.
    case_decide; [subst|apply Hi]. apply model_inv_move; [done|apply Hi].
  - intros m'. rewrite entries_of_set. case_decide; [subst|apply Hi].
    assert (Hl : length (remove_at i (entries_of m c) ++ [e]) = length (entries_of m c)).
    { apply lookup_split_at in He as (es1 & es2 & -> & <-). rewrite remove_at_middle, !length_app. simpl. lia. }
    rewrite Hl. apply Hi.
Qed.

Lemma invalidate_entries_spec key es : forall pages es' pages' n k,
  model_inv es pages -> invalidate_entries key es pages = (es', pages', n, k) ->
  model_inv es' pages' /\ (length es' <= length es)%nat
  /\ (forall e, e ∈ es' <-> e ∈ es /\ match key with Some c => e_cache_key e <> Some c | None => False end)
  /\ n = Z.of_nat (length es) - Z.of_nat (length es')
  /\ k + Z.of_nat (length pages') = Z.of_nat (length pages).
Proof.
  intros pages es' pages' n k Hi He.
  assert (Hgen : forall kept pages es' pages' n k, model_inv (kept ++ es) pages ->
    invalidate_entries key es pages = (es', pages', n, k) ->
    model_inv (kept ++ es') pages' /\ (length es' <= length es)%nat
    /\ (forall e, e ∈ es' <-> e ∈ es /\ match key with Some c => e_cache_key e <> Some c | None => False end)
    /\ n = Z.of_nat (length es) - Z.of_nat (length es')
    /\ k + Z.of_nat (length pages') = Z.of_nat (length pages)).
  { clear. induction es as [|e es IH]; intros kept pages es' pages' n k Hi; simpl.
    { intros [= <- <- <- <-]. split_and!; [done|simpl; lia| |simpl; lia|lia]. intros e. split; [by intros ?%not_elem_of_nil|].
      intros [?%not_elem_of_nil _]. done. }
    destruct (match key with Some c => negb (bool_decide (e_cache_key e = Some c)) | None => false end) eqn:Hkeep.
    - destruct (invalidate_entries key es pages) as [[[es1 pages1] n1] k1] eqn:Hr. intros [= <- <- <- <-].
      apply (IH (kept ++ [e])) in Hr as (H1 & H2 & H3 & H4 & H5); [|by rewrite <- app_assoc].
      rewrite <- app_assoc in H1. split_and!; [done|simpl; lia| |simpl; lia|done].
      intros x. rewrite !elem_of_cons, H3. destruct key as [c|]; [|done]. bool_prop.
      split; [intros [->|?]; tauto|]. intros [[->|?] ?]; tauto.
    - destruct (release_page_keys (e_page_keys e) pages 0) as [pages0 removed] eqn:Hrel.
      destruct (invalidate_entries key es pages0) as [[[es1 pages1] n1] k1] eqn:Hr. intros [= <- <- <- <-].
      pose proof (model_inv_release e kept es pages pages0 removed Hi Hrel) as Hi1.
      apply release_page_keys_spec in Hrel as (_ & _ & Hlen); [|apply (mi_keys _ _ Hi); set_solver|apply Hi].
      apply (IH kept) in Hr as (H1 & H2 & H3 & H4 & H5); [|done].
      split_and!; [done|lia| |lia|lia].
      intros x. rewrite H3, elem_of_cons. destruct key as [c|]; [|tauto].
      apply negb_false_iff, bool_decide_eq_true in Hkeep.
      split; [tauto|]. intros [[->|?] Hne]; [done|]. tauto. }
  by apply (Hgen []).
Qed.

Lemma cache_inv_invalidate cfg m key persisted c :
  1 <= max_entries_per_model cfg -> cache_inv cfg c -> cache_inv cfg (fst (invalidate m key persisted c)).
Proof.
  intros Hmax Hi. unfold invalidate.
  destruct (invalidate_entries key (entries_of m c) (pages_of m c)) as [[[es pages] n] k] eqn:He.
  apply invalidate_entries_spec in He as (Hmi & Hlen & _); [|apply Hi].
  set (c1 := match es with [] => _ | _ => _ end). set (c2 := match pages with [] => _ | _ => _ end).
  assert (H2 : cache_inv cfg c2).
  { assert (He1 : c_entries c2 = match es with [] => ddel m (c_entries c) | _ => dset m es (c_entries c) end)
      by (subst c2 c1; by destruct es, pages).
    assert (Hp1 : c_pages c2 = match pages with [] => ddel m (c_pages c) | _ => dset m pages (c_pages c) end)
      by (subst c2 c1; by destruct es, pages).
    assert (Hself : entries_of m c2 = es /\ pages_of m c2 = pages).
    { unfold entries_of, pages_of. rewrite He1, Hp1. destruct es, pages;
        rewrite ?dget_dset_eq, ?dget_ddel_eq by apply Hi; done. }
    assert (Hother : forall m', m' <> m -> entries_of m' c2 = entries_of m' c /\ pages_of m' c2 = pages_of m' c).
    { intros m' Hne. unfold entries_of, pages_of. rewrite He1, Hp1.
      destruct es, pages; rewrite ?dget_dset_ne, ?dget_ddel_ne by done; done. }
    split.
    - rewrite He1. destruct es; [apply NoDup_ddel|apply NoDup_dset]; apply Hi.
    - rewrite Hp1. destruct pages; [apply NoDup_ddel|apply NoDup_dset]; apply Hi.
    - intros m'. destruct (decide (m' = m)) as [->|Hne].
      + destruct Hself as [-> ->]. done.
      + destruct (Hother m' Hne) as [-> ->]. apply Hi.
    - intros m'. destruct (decide (m' = m)) as [->|Hne].
      + destruct Hself as [-> _]. pose proof (ci_bound _ _ Hi m). lia.
      + destruct (Hother m' Hne) as [-> _]. apply Hi. }
  destruct persisted as [[pe pp]|]; cbn [fst]; repeat apply cache_inv_stats; exact H2.
Qed.

(** ** Histories *)

(** One call, or one locked section of a call: an insertion may happen in any
    state, since [lookup] and [save] leave the lock before they insert.  The page
    keys of an inserted entry are pairwise distinct: no digest collides. *)
Inductive cstep (cfg : cache_config) (c : cache) : cache -> Prop :=
| cstep_lookup m prompt stored :
    (forall s, stored = Some s -> NoDup (s_page_keys s)) -> cstep cfg c (fst (lookup cfg m prompt stored c))
| cstep_save m tokens payload size shared persisted :
    NoDup (page_keys_for m (cache_page_size cfg) tokens) ->
    cstep cfg c (fst (save_commit cfg m tokens payload size shared persisted c))
| cstep_insert e : NoDup (e_page_keys e) -> cstep cfg c (fst (insert_resident_locked cfg e c))
| cstep_invalidate m key persisted : cstep cfg c (fst (invalidate m key persisted c)).

Definition creachable (cfg : cache_config) (c : cache) : Prop := rtc (cstep cfg) init_cache c.

Lemma cache_inv_lookup cfg m prompt stored c :
  1 <= max_entries_per_model cfg -> cache_inv cfg c ->
  (forall s, stored = Some s -> NoDup (s_page_keys s)) ->
  cache_inv cfg (fst (lookup cfg m prompt stored c)).
Proof.
  intros Hmax Hi Hs. unfold lookup. set (c1 := (c <| c_stats ::= _ |>)).
  assert (Hi1 : cache_inv cfg c1) by by apply cache_inv_stats.
  destruct (resident_lookup_locked cfg m prompt c1) as [[c2 l]|] eqn:Hl.
  - cbn [fst]. apply cache_inv_stats. by eapply resident_lookup_inv.
  - unfold persistent_lookup. destruct stored as [st|]; [|cbn [fst]; by apply cache_inv_stats].
    case_if; [cbn [fst]; by apply cache_inv_stats|]. case_if; [cbn [fst]; by apply cache_inv_stats|].
    cbn [l_entry]. set (e := Build_entry _ _ _ _ _ _ _ _ _ _ _). set (c2 := (c1 <| c_stats ::= _ |>)).
    assert (Hi2 : cache_inv cfg c2) by by apply cache_inv_stats.
    pose proof (cache_inv_insert cfg e c2 Hmax Hi2 (Hs _ eq_refl)) as Hi3.
    destruct (insert_resident_locked cfg e c2) as [c3 sm]. cbn [fst] in *. by apply cache_inv_stats.
Qed.

Lemma cache_inv_save cfg m tokens payload size shared persisted c :
  1 <= max_entries_per_model cfg -> cache_inv cfg c ->
  NoDup (page_keys_for m (cache_page_size cfg) tokens) ->
  cache_inv cfg (fst (save_commit cfg m tokens payload size shared persisted c)).
Proof.
  intros Hmax Hi Hnd. unfold save_commit. set (c1 := match persisted with Some p => _ | None => c end).
  assert (Hi1 : cache_inv cfg c1) by (subst c1; destruct persisted; [by apply cache_inv_stats|done]).
  clearbody c1. set (e := Build_entry _ _ _ _ _ _ _ _ _ _ _).
  pose proof (cache_inv_insert cfg e c1 Hmax Hi1 Hnd) as Hi2.
  destruct (insert_resident_locked cfg e c1) as [c2 sm]. cbn [fst] in *. by apply cache_inv_stats.
Qed.

Lemma model_inv_empty : model_inv [] [].
Proof.
  split; [split; [constructor|by intros k p]|done|by intros e ?%not_elem_of_nil|constructor].
Qed.

Lemma cache_inv_init cfg : 1 <= max_entries_per_model cfg -> cache_inv cfg init_cache.
Proof.
  intros Hmax. split; [constructor|constructor|intros m; apply model_inv_empty|].
  intros m. change (entries_of m init_cache) with (@nil entry). simpl. lia.
Qed.

Lemma creachable_inv cfg c : 1 <= max_entries_per_model cfg -> creachable cfg c -> cache_inv cfg c.
Proof.
  intros Hmax. unfold creachable. generalize (cache_inv_init cfg Hmax). generalize init_cache as c0.
  intros c0 H0 H. induction H as [|c0 c1 c Hs _ IH]; [done|]. apply IH. destruct Hs.
  - by apply cache_inv_lookup.
  - by apply cache_inv_save.
  - by apply cache_inv_insert.
  - by apply cache_inv_invalidate.
Qed.

(** ** Properties *)

(** C7. Shared pages are counted exactly.  In every history of lookups, restores,
    saves and invalidations, the reference count of each resident page is the
    number of its model's entries that contain it, and it is positive; every page
    of every entry is resident; a model never holds two entries for the same
    tokens, nor more entries than the limit. *)
Theorem resident_pages_counted (max_entries page_size store_page_size : Z) (c : cache) :
  let cfg := init_cache_config max_entries page_size store_page_size in
  creachable cfg c -> forall m,
  (forall k p, dget k (pages_of m c) = Some p ->
     rp_ref_count p = countb (fun e => bool_decide (k ∈ e_page_keys e)) (entries_of m c)
     /\ 1 <= rp_ref_count p)
  /\ (forall e k, e ∈ entries_of m c -> k ∈ e_page_keys e -> is_Some (dget k (pages_of m c)))
  /\ NoDup (map e_prefix_tokens (entries_of m c))
  /\ Z.of_nat (length (entries_of m c)) <= Z.max max_entries 1.
Proof.
  intros cfg Hr m.
  assert (Hi : cache_inv cfg c) by (apply creachable_inv; [simpl; lia|done]).
  destruct (ci_model _ _ Hi m) as [Hok Hc Hk Hd]. split_and!; [| |done|apply (ci_bound _ _ Hi)].
  - intros k p Hg. specialize (Hc k). unfold refs in Hc. rewrite Hg in Hc. split; [exact Hc|]. by apply Hok in Hg.
  - intros e k He Hke. specialize (Hc k). unfold refs in Hc. destruct (dget k (pages_of m c)); [done|].
    exfalso. apply list_elem_of_split in He as (es1 & es2 & Heq). rewrite Heq, holders_app, holders_cons in Hc.
    change (holds k e) with (bool_decide (k ∈ e_page_keys e)) in Hc. rewrite bool_decide_true in Hc by done.
    pose proof (entry_holders_nonneg k es1). pose proof (entry_holders_nonneg k es2). simpl in Hc. lia.
Qed.

Lemma lookup_longest_prefix_aux cfg m prompt c :
  let keys := page_keys_for m (cache_page_size cfg) prompt in
  match resident_lookup_locked cfg m prompt c with
  | Some (c', l) =>
      exists e, e ∈ entries_of m c
      /\ l_prefix_length l = Z.of_nat (longest_token_prefix (e_prefix_tokens e) prompt)
      /\ l_matched_page_count l = Z.of_nat (matched_page_count (e_page_keys e) keys)
      /\ c_stats c' = c_stats c
      /\ forall x, x ∈ entries_of m c -> longest_token_prefix (e_prefix_tokens x) prompt <> 0%nat ->
           better (score prompt keys x) (score prompt keys e)
  | None => forall x, x ∈ entries_of m c -> longest_token_prefix (e_prefix_tokens x) prompt = 0%nat
  end.
Proof.
  intros keys. unfold resident_lookup_locked, best_resident_match_locked. fold keys.
  destruct (best_match prompt keys 0 (entries_of m c) (None, 0, 0)%nat) as [[ri rl] rp] eqn:Hb.
  apply best_match_spec in Hb as (_ & Hbest & [(-> & -> & ->)|(j & e & Hj & -> & Hsc & Hrl)]).
  - intros x Hx. destruct (longest_token_prefix (e_prefix_tokens x) prompt) as [|n] eqn:Hn; [done|].
    assert (Hxb : better (score prompt keys x) (0, 0)%nat) by (apply Hbest; [done|by rewrite Hn]).
    unfold better, score in Hxb. rewrite Hn in Hxb. simpl in Hxb. lia.
  - simpl. rewrite Hj. exists e. rewrite <- Hsc in Hbest. unfold score in Hsc. injection Hsc as Hl Hp.
    subst rl rp. split_and!; try done. by eapply list_elem_of_lookup_2.
Qed.

(** C8. A lookup finds the longest cached prefix.  A resident hit returns an entry
    of the model that shares exactly [prefix_length > 0] leading tokens and exactly
    [matched_page_count] leading pages with the prompt; no other entry shares more
    tokens, nor as many tokens with more pages; the hit becomes the most recently
    used entry and the others keep their order.  A miss means that no entry shares
    the prompt's first token. *)
Theorem lookup_longest_prefix (cfg : cache_config) (m : string) (prompt : list Z) (c : cache) :
  let keys := page_keys_for m (cache_page_size cfg) prompt in
  match resident_lookup_locked cfg m prompt c with
  | Some (c', l) =>
      exists i e, entries_of m c !! i = Some e /\ l_entry l = e
      /\ entries_of m c' = remove_at i (entries_of m c) ++ [e]
      /\ l_prefix_length l = Z.of_nat (longest_token_prefix (e_prefix_tokens e) prompt)
      /\ 0 < l_prefix_length l
      /\ take (Z.to_nat (l_prefix_length l)) (e_prefix_tokens e) = take (Z.to_nat (l_prefix_length l)) prompt
      /\ l_matched_page_count l = Z.of_nat (matched_page_count (e_page_keys e) keys)
      /\ forall x, x ∈ entries_of m c ->
           Z.of_nat (longest_token_prefix (e_prefix_tokens x) prompt) <= l_prefix_length l
           /\ (Z.of_nat (longest_token_prefix (e_prefix_tokens x) prompt) = l_prefix_length l ->
               Z.of_nat (matched_page_count (e_page_keys x) keys) <= l_matched_page_count l)
  | None => forall x, x ∈ entries_of m c -> longest_token_prefix (e_prefix_tokens x) prompt = 0%nat
  end.
Proof.
  intros keys. unfold resident_lookup_locked, best_resident_match_locked. fold keys.
  destruct (best_match prompt keys 0 (entries_of m c) (None, 0, 0)%nat) as [[ri rl] rp] eqn:Hb.
  apply best_match_spec in Hb as (_ & Hbest & [(-> & -> & ->)|(j & e & Hj & -> & Hsc & Hrl)]).
  - intros x Hx. destruct (longest_token_prefix (e_prefix_tokens x) prompt) as [|n] eqn:Hn; [done|].
    assert (Hxb : better (score prompt keys x) (0, 0)%nat) by (apply Hbest; [done|by rewrite Hn]).
    unfold better, score in Hxb. rewrite Hn in Hxb. simpl in Hxb. lia.
  - simpl. rewrite Hj. unfold score in Hsc. injection Hsc as Hl Hp. subst rl rp.
    destruct (longest_token_prefix_spec (e_prefix_tokens e) prompt) as (_ & _ & Ht & _).
    exists j, e. simpl. unfold entries_of at 2. simpl. rewrite dget_dset_eq. simpl.
    rewrite Nat2Z.id. split_and!; [done..|lia|done|done|]. intros x Hx.
    destruct (longest_token_prefix (e_prefix_tokens x) prompt) as [|n] eqn:Hn; [split; lia|].
    assert (Hxb : better (score prompt keys x)
      (longest_token_prefix (e_prefix_tokens e) prompt, matched_page_count (e_page_keys e) keys))
      by (apply Hbest; [done|by rewrite Hn]).
    unfold better, score in Hxb. rewrite Hn in Hxb. simpl in Hxb. lia.
Qed.

Lemma matched_page_count_le xs ys : (matched_page_count xs ys <= length ys)%nat.
Proof.
  revert ys. induction xs as [|x xs IH]; intros [|y ys]; simpl; try lia. case_if; [|lia].
  specialize (IH ys). lia.
Qed.

(** A saved prefix is found again.  Right after [save], looking the same tokens
    up is a resident hit on all of them, whatever was evicted to make room. *)
Theorem save_then_lookup (max_entries page_size store_page_size : Z) (c : cache) (m : string)
    (tokens : list Z) (payload : Payload) (size : option Z) (persisted : option store_save)
    (stored : option stored_entry) :
  let cfg := init_cache_config max_entries page_size store_page_size in
  creachable cfg c -> tokens <> [] -> NoDup (page_keys_for m (cache_page_size cfg) tokens) ->
  exists c1 e, save cfg m tokens payload size persisted c = (c1, Some e) /\ e_payload e = payload
  /\ exists c2 l, lookup cfg m tokens stored c1 = (c2, Some l)
     /\ l_prefix_length l = Z.of_nat (length tokens)
     /\ l_matched_page_count l = Z.of_nat (length (page_keys_for m (cache_page_size cfg) tokens))
     /\ hit_count (c_stats c2) = hit_count (c_stats c1) + 1.
Proof.
  intros cfg Hr Hne Hnd. assert (Hmax : 1 <= max_entries_per_model cfg) by (simpl; lia).
  assert (Hi : cache_inv cfg c) by (apply creachable_inv; done).
  destruct tokens as [|t0 ts] eqn:Htok; [done|]. unfold save. rewrite <- Htok in *. clear Hne.
  set (shared := save_shared cfg m tokens c). unfold save_commit.
  set (c0 := match persisted with Some p => _ | None => c end).
  assert (Hi0 : cache_inv cfg c0) by (subst c0; destruct persisted; [by apply cache_inv_stats|done]).
  clearbody c0 shared. set (keys := page_keys_for m (cache_page_size cfg) tokens) in *.
  set (e := Build_entry _ _ _ _ _ _ _ _ _ _ _).
  destruct (insert_effect cfg e c0 Hmax Hi0 Hnd)
    as (es & st & pages & _ & Hst & Hsk & _ & _ & (He & _) & _).
  destruct (insert_resident_locked cfg e c0) as [c1 sm]. cbn [fst snd] in He.
  do 2 eexists. split; [reflexivity|]. split; [done|].
  set (c2 := (c1 <| c_stats ::= _ |>)).
  assert (Hin : st ∈ entries_of m c2).
  { unfold entries_of. simpl. rewrite He. change (e_model_id e) with m. rewrite dget_dset_eq. simpl.
    rewrite drop_app_le by (rewrite length_app; simpl; lia). apply elem_of_app. right.
    by apply list_elem_of_singleton. }
  unfold lookup. set (c3 := (c2 <| c_stats ::= _ |>)).
  pose proof (lookup_longest_prefix_aux cfg m tokens c3) as Hl.
  destruct (resident_lookup_locked cfg m tokens c3) as [[c4 l]|] eqn:Hlk.
  - do 2 eexists. split; [reflexivity|].
    destruct Hl as (x & Hx & Hpl & Hpm & Hc4 & Hbest). specialize (Hbest st Hin).
    unfold better, score in Hbest. rewrite Hst, Hsk in Hbest. change (e_prefix_tokens e) with tokens in Hbest.
    change (e_page_keys e) with keys in Hbest. fold keys in Hbest, Hpm.
    rewrite longest_token_prefix_self, matched_page_count_self in Hbest. cbn [fst snd] in Hbest.
    destruct (longest_token_prefix_spec (e_prefix_tokens x) tokens) as (_ & Hle & _).
    pose proof (matched_page_count_le (e_page_keys x) keys) as Hpk.
    assert (length tokens <> 0%nat) as Hnz by by rewrite Htok. specialize (Hbest Hnz).
    split_and!; [lia..|]. simpl. by rewrite Hc4.
  - specialize (Hl st Hin). rewrite Hst in Hl. change (e_prefix_tokens e) with tokens in Hl.
    rewrite longest_token_prefix_self in Hl. rewrite Htok in Hl. done.
Qed.

(** Requests that share a prefix share its pages.  Two prompts of a model agree
    on at least as many leading page keys as whole pages fit in their common
    prefix. *)
Theorem shared_prefix_shares_pages (m : string) (page_size : Z) (xs ys : list Z) :
  Z.of_nat (longest_token_prefix xs ys) / Z.max page_size 1
  <= Z.of_nat (matched_page_count (page_keys_for m page_size xs) (page_keys_for m page_size ys)).
Proof.
  pose proof (matched_pages_lower m (Z.max page_size 1) xs ys ltac:(lia)) as H.
  unfold page_keys_for in *. by rewrite (Z.max_l (Z.max page_size 1) 1) in H by lia.
Qed.

Lemma pages_ok_no_refs pages : pages_ok pages -> (forall k, refs k pages = 0) -> pages = [].
Proof.
  intros [Hnd Hr] Hz. destruct pages as [|[k p] d]; [done|]. exfalso.
  assert (Hg : dget k ((k, p) :: d) = Some p) by (unfold dget; simpl; by rewrite decide_True).
  specialize (Hz k). unfold refs in Hz. rewrite Hg in Hz. apply Hr in Hg. lia.
Qed.

(** Invalidation removes exactly what it names.  With a cache key, the entries
    of the model with that key leave and no other; without, the model is left with
    no entry and no page; the counts returned are the entries and pages that left,
    and other models are untouched. *)
Theorem invalidate_exact (max_entries page_size store_page_size : Z) (c : cache) (m : string)
    (key : option string) :
  let cfg := init_cache_config max_entries page_size store_page_size in
  creachable cfg c ->
  let c' := fst (invalidate m key None c) in
  let '(entry_count, page_count, _, _) := snd (invalidate m key None c) in
  (forall e, e ∈ entries_of m c' <-> e ∈ entries_of m c /\
     match key with Some k => e_cache_key e <> Some k | None => False end)
  /\ entry_count = Z.of_nat (length (entries_of m c)) - Z.of_nat (length (entries_of m c'))
  /\ page_count = Z.of_nat (length (pages_of m c)) - Z.of_nat (length (pages_of m c'))
  /\ (key = None -> entries_of m c' = [] /\ pages_of m c' = [])
  /\ (forall m', m' <> m -> entries_of m' c' = entries_of m' c /\ pages_of m' c' = pages_of m' c).
Proof.
  intros cfg Hr. assert (Hmax : 1 <= max_entries_per_model cfg) by (simpl; lia).
  assert (Hi : cache_inv cfg c) by (apply creachable_inv; done).
  pose proof (cache_inv_invalidate cfg m key None c Hmax Hi) as Hi'. revert Hi'. unfold invalidate.
  destruct (invalidate_entries key (entries_of m c) (pages_of m c)) as [[[es pages] n] k] eqn:He.
  apply invalidate_entries_spec in He as (Hmi & Hlen & Hin & Hn & Hk); [|apply Hi].
  cbn [fst snd]. set (c2 := set_field c_stats _ _). intros Hi'.
  assert (He1 : c_entries c2 = match es with [] => ddel m (c_entries c) | _ => dset m es (c_entries c) end)
    by (unfold c2; by destruct es, pages).
  assert (Hp1 : c_pages c2 = match pages with [] => ddel m (c_pages c) | _ => dset m pages (c_pages c) end)
    by (unfold c2; by destruct es, pages).
  assert (Hes : entries_of m c2 = es).
  { unfold entries_of. rewrite He1. destruct es; [by rewrite dget_ddel_eq by apply Hi|by rewrite dget_dset_eq]. }
  assert (Hps : pages_of m c2 = pages).
  { unfold pages_of. rewrite Hp1. destruct pages; [by rewrite dget_ddel_eq by apply Hi|by rewrite dget_dset_eq]. }
  rewrite Hes, Hps. split_and!; [done|lia|lia| |].
  - intros ->. assert (Hnil : es = []).
    { destruct es as [|e es]; [done|]. exfalso. by apply (Hin e); left. }
    split; [done|]. apply pages_ok_no_refs; [apply Hmi|]. intros x. by rewrite (mi_counts _ _ Hmi), Hnil.
  - intros m' Hne. unfold entries_of, pages_of. rewrite He1, Hp1.
    destruct es, pages; rewrite ?dget_dset_ne, ?dget_ddel_ne by done; done.
Qed.

End cache.

Example page_key_sample :
  page_keys_for "m" 2 [1; -2; 3]
  = ["a54f6d58231637bb18ed5823450a04fd80b8f7eefc3078b581f209521aa3b7a5";
     "a221c7853917aac2c98e8d88377e5d8759ae6882cbed55dccc71823d87b3b7e8"]%string.
Proof. vm_compute. reflexivity. Qed.

(** ** Witnesses *)

Definition sample_cache_cfg : cache_config := init_cache_config 2 2 0.

Definition saved (tokens : list Z) (c : @cache nat) : @cache nat :=
  fst (save_commit sample_cache_cfg "m" tokens 7%nat None 0 None c).

(** Two entries that share their first page. *)
Definition two_entries : @cache nat := saved [1; 2; 4] (saved [1; 2; 3] init_cache).

Definition distinct_keys (tokens : list Z) : bool :=
  bool_decide (NoDup (page_keys_for "m" (cache_page_size sample_cache_cfg) tokens)).

Lemma saved_reachable tokens c :
  distinct_keys tokens = true -> creachable sample_cache_cfg c -> creachable sample_cache_cfg (saved tokens c).
Proof.
  intros Hd Hr. eapply rtc_r; [exact Hr|]. apply cstep_save. by apply bool_decide_eq_true in Hd.
Qed.

Lemma two_entries_reachable : creachable sample_cache_cfg two_entries.
Proof.
  apply saved_reachable; [vm_compute; reflexivity|].
  apply saved_reachable; [vm_compute; reflexivity|]. constructor.
Qed.

(** The first page key of the sample model. *)
Definition first_key : string := hd "" (page_keys_for "m" 2 [1; 2]).

Lemma resident_pages_counted_witness :
  exists p, dget first_key (pages_of "m" two_entries) = Some p /\ rp_ref_count p = 2
  /\ countb (fun e => bool_decide (first_key ∈ e_page_keys e)) (entries_of "m" two_entries) = 2.
Proof.
  assert (Hc : match dget first_key (pages_of "m" two_entries) with
               | Some p => rp_ref_count p
               | None => 0
               end = 2) by (vm_compute; reflexivity).
  destruct (dget first_key (pages_of "m" two_entries)) as [p|] eqn:Hp; [|discriminate Hc].
  destruct (resident_pages_counted 2 2 0 two_entries two_entries_reachable "m") as (Hcount & _).
  exists p. split; [reflexivity|]. split; [exact Hc|].
  destruct (Hcount first_key p Hp) as [H _]. rewrite <- H. exact Hc.
Defined.

Lemma save_then_lookup_witness :
  exists c1 e c2 l, save sample_cache_cfg "m" [9] 8%nat None None two_entries = (c1, Some e)
  /\ lookup sample_cache_cfg "m" [9] None c1 = (c2, Some l) /\ l_prefix_length l = 1.
Proof.
  destruct (save_then_lookup 2 2 0 two_entries "m" [9] 8%nat None None None two_entries_reachable)
    as (c1 & e & Hs & _ & c2 & l & Hl & Hn & _).
  - discriminate.
  - change (NoDup (page_keys_for "m" (cache_page_size sample_cache_cfg) [9])).
    assert (Hd : distinct_keys [9] = true) by (vm_compute; reflexivity).
    by apply bool_decide_eq_true in Hd.
  - exists c1, e, c2, l. auto.
Defined.

Lemma invalidate_exact_witness :
  let c' := fst (invalidate "m" None None two_entries) in
  entries_of "m" c' = [] /\ pages_of "m" c' = [].
Proof.
  pose proof (invalidate_exact 2 2 0 two_entries "m" None two_entries_reachable) as H.
  destruct (snd (invalidate "m" None None two_entries)) as [[[n k] pe] pp].
  destruct H as (_ & _ & _ & H & _). by apply H.
Defined.

(** An entry restored from the persistent store. *)
Definition stored_sample : @stored_entry nat :=
  {| s_model_id := "m"; s_prefix_tokens := [3; 4]; s_page_keys := page_keys_for "m" 2 [3; 4];
     s_page_size_tokens := 2; s_payload := 5%nat; s_payload_persisted := true;
     s_estimated_size_bytes := 10; s_cache_key := "k" |}.

(** Evictions made by a restore are not counted.  With room for one entry, a
    lookup that restores a persisted entry evicts the resident one and its page,
    but neither eviction counter moves, so the pages saved and restored less the
    pages evicted no longer add up to the resident pages. *)
Theorem restore_evictions_uncounted :
  let cfg := init_cache_config 1 2 0 in
  let c1 := fst (save_commit cfg "m" [1; 2] 7%nat None 0 None init_cache) in
  let c2 := fst (lookup cfg "m" [3; 4] (Some stored_sample) c1) in
  map e_prefix_tokens (entries_of "m" c1) = [[1; 2]] /\ map e_prefix_tokens (entries_of "m" c2) = [[3; 4]]
  /\ eviction_count (c_stats c2) = 0 /\ resident_page_eviction_count (c_stats c2) = 0
  /\ page_save_count (c_stats c2) + page_restore_count (c_stats c2) = 2
  /\ length (pages_of "m" c2) = 1%nat.
Proof. vm_compute. repeat split. Qed.

(** Two entries share all three tokens of a prompt; the longer one was stored first
    and shares one page, the shorter one shares two and is returned. *)
Definition tied_entries : cache := saved [1; 2; 3] (saved [1; 2; 3; 4] init_cache).

Lemma lookup_longest_prefix_witness :
  exists c' l, resident_lookup_locked sample_cache_cfg "m" [1; 2; 3] tied_entries = Some (c', l)
  /\ e_prefix_tokens (l_entry l) = [1; 2; 3] /\ l_prefix_length l = 3 /\ l_matched_page_count l = 2
  /\ map (fun e => (longest_token_prefix (e_prefix_tokens e) [1; 2; 3],
                    matched_page_count (e_page_keys e) (page_keys_for "m" 2 [1; 2; 3]))) (entries_of "m" tied_entries)
     = [(3, 1); (3, 2)]%nat
  /\ forall x, x ∈ entries_of "m" tied_entries ->
       Z.of_nat (longest_token_prefix (e_prefix_tokens x) [1; 2; 3]) <= l_prefix_length l.
Proof.
  pose proof (lookup_longest_prefix sample_cache_cfg "m" [1; 2; 3] tied_entries) as H. cbv zeta in H.
  assert (Hc : match resident_lookup_locked sample_cache_cfg "m" [1; 2; 3] tied_entries with
               | Some (_, l) => (e_prefix_tokens (l_entry l), l_prefix_length l, l_matched_page_count l)
               | None => ([], 0, 0)
               end = ([1; 2; 3], 3, 2)) by (vm_compute; reflexivity).
  destruct (resident_lookup_locked sample_cache_cfg "m" [1; 2; 3] tied_entries) as [[c' l]|]; [|discriminate Hc].
  injection Hc as H1 H2 H3. exists c', l. split; [reflexivity|]. split; [exact H1|]. split; [exact H2|].
  split; [exact H3|]. split; [vm_compute; reflexivity|].
  intros x Hx. destruct H as (i & e & _ & _ & _ & _ & _ & _ & _ & Hbest). apply (Hbest x Hx).
Defined.
