(* ===== verification/PrefixStore.v ===== *)
(** The persistent prompt-prefix store: [PersistentPrefixCacheStore] of
    src/src/lewlm/storage/prefix_cache_store.py, which keeps the entries and the
    reference-counted pages of PrefixCache on disk across restarts.

    The disk is a dictionary from paths to what was written: a file holds the fields
    of an entry or a page ([json.dumps] and [json.loads] of them are inverse), and
    its size in bytes is a parameter.  The files of one directory are read in the order
    of their names or, for pages, of the dictionary.  Memory holds the models that were loaded.
    Each method runs under the store's lock and is one function; clock readings are
    arguments, numbers in the order of the ISO strings.  Model names are ASCII. *)

From Stdlib Require Import Sorted.
From stdpp Require Import pretty.
From S2P Require Import Prelude PyFloat PyString Json Sha256 PySort PrefixCache.

Open Scope Z_scope.

(** ** Paths *)

(** The cache directory of this version, and the one of versions before. *)
Inductive root := Current | Legacy.
Inductive folder := Top | Entries | Pages.

Definition directory : Type := root * string.
Definition path : Type := directory * folder * string.

#[export] Instance root_eq_dec : EqDecision root.
Proof. solve_decision. Defined.
#[export] Instance folder_eq_dec : EqDecision folder.
Proof. solve_decision. Defined.

(** [_SAFE_MODEL_ID_PATTERN.sub("-", value)]: every run of other characters. *)
Definition is_safe (c : Ascii.ascii) : bool :=
  let n := Ascii.nat_of_ascii c in
  (((48 <=? n) && (n <=? 57)) || ((65 <=? n) && (n <=? 90)) || ((97 <=? n) && (n <=? 122))
   || (n =? 46) || (n =? 95) || (n =? 45))%nat.

Definition dash : Ascii.ascii := Ascii.ascii_of_nat 45.

Fixpoint sub_unsafe (in_run : bool) (s : string) : string :=
  match s with
  | EmptyString => EmptyString
  | String c s' =>
      if is_safe c then String c (sub_unsafe false s')
      else if in_run then sub_unsafe true s' else String dash (sub_unsafe true s')
  end.

Fixpoint strip_front (chars : list Ascii.ascii) (l : list Ascii.ascii) : list Ascii.ascii :=
  match l with
  | c :: l' => if member c chars then strip_front chars l' else l
  | [] => []
  end.

Definition rstrip_chars (chars : list Ascii.ascii) (s : string) : string :=
  String.string_of_list_ascii (rev (strip_front chars (rev (String.list_ascii_of_string s)))).

Definition strip_chars (chars : list Ascii.ascii) (s : string) : string :=
  rstrip_chars chars (String.string_of_list_ascii (strip_front chars (String.list_ascii_of_string s))).

Definition digest_of (s : string) (n : nat) : string := String.substring 0 n (hexdigest (encode_ascii s)).

Definition normalized_segment (value fallback : string) : string :=
  let s := strip_chars [dash] (sub_unsafe false value) in if (s =? "")%string then fallback else s.

(** [_compact_cache_path_segment]. *)
Definition compact_segment (value fallback : string) (max_length : nat) : string :=
  let normalized := normalized_segment value fallback in
  if (String.length normalized <=? max_length)%nat then normalized
  else
    let digest := digest_of value 12 in
    let prefix_length := (max_length - String.length digest - 1)%nat in
    let prefix := rstrip_chars [dash; Ascii.ascii_of_nat 46; Ascii.ascii_of_nat 95]
                    (String.substring 0 prefix_length normalized) in
    if (prefix =? "")%string then String.substring 0 max_length digest else prefix +:+ "-" +:+ digest.

Definition MAX_CACHE_MODEL_SEGMENT_LENGTH : nat := 20.
Definition CACHE_KEY_FILENAME_LENGTH : nat := 20.

(** [_compact_cache_key_filename]. *)
Definition compact_filename (key : string) : string :=
  if (String.length key <=? CACHE_KEY_FILENAME_LENGTH)%nat then key else digest_of key CACHE_KEY_FILENAME_LENGTH.

Definition model_segment (m : string) : string := compact_segment m "model" MAX_CACHE_MODEL_SEGMENT_LENGTH.

Definition model_dir (m : string) : directory := (Current, model_segment m).

(** [_legacy_model_dir]. *)
Definition legacy_model_dir (m : string) : directory :=
  (Legacy, String.substring 0 48 (normalized_segment m "model") +:+ "-" +:+ digest_of m 10).

(** [_model_dirs]: the two legacy directories can be one. *)
Definition model_dirs (m : string) : list directory :=
  let compact := (Legacy, model_segment m) in
  model_dir m :: compact :: (if decide (legacy_model_dir m = compact) then [] else [legacy_model_dir m]).

Definition entry_path (m key : string) : path := (model_dir m, Entries, compact_filename key).
Definition page_path (m key : string) : path := (model_dir m, Pages, compact_filename key).

Definition legacy_entry_paths (m key : string) : list path :=
  concat (map (fun d => [(d, Entries, key); (d, Top, key)]) (model_dirs m)).
Definition legacy_page_paths (m key : string) : list path := map (fun d => (d, Pages, key)) (model_dirs m).

(** ** Data *)

(** [StoredPrefixCachePage] and [StoredPrefixCacheEntry]; [payload] is JSON, [None]
    where there is none that can be written. *)
Record stored_page := {
  sp_key : string;
  sp_model : string;
  sp_parent : option string;
  sp_index : Z;
  sp_page_size : Z;
  sp_tokens : list Z;
  sp_bytes : Z;
  sp_refs : Z;
  sp_access : Z;
  sp_created : Z;
  sp_updated : Z;
  sp_used : Z
}.

Record stored_prefix := {
  se_key : string;
  se_model : string;
  se_tokens : list Z;
  se_pages : list string;
  se_page_size : Z;
  se_payload : option json;
  se_bytes : Z;
  se_access : Z;
  se_created : Z;
  se_updated : Z;
  se_used : Z
}.

#[export] Instance stored_page_eta : Eta stored_page := fun r =>
  Build_stored_page (sp_key r) (sp_model r) (sp_parent r) (sp_index r) (sp_page_size r) (sp_tokens r)
    (sp_bytes r) (sp_refs r) (sp_access r) (sp_created r) (sp_updated r) (sp_used r).

#[export] Instance stored_prefix_eta : Eta stored_prefix := fun r =>
  Build_stored_prefix (se_key r) (se_model r) (se_tokens r) (se_pages r) (se_page_size r) (se_payload r)
    (se_bytes r) (se_access r) (se_created r) (se_updated r) (se_used r).

Inductive file := EntryFile (e : stored_prefix) | PageFile (p : stored_page).

Definition disk : Type := list (path * file).

(** [_PrefixCachePageDescriptor]. *)
Record descriptor := {
  pd_key : string;
  pd_parent : option string;
  pd_index : Z;
  pd_tokens : list Z;
  pd_page_size : Z;
  pd_bytes : Z
}.

(** What a payload can be before it is normalized. *)
Inductive payload_value :=
| PNone | PBool (b : bool) | PInt (n : Z) | PFloat (x : f64) | PStr (s : string)
| PList (items : list payload_value) | PTuple (items : list payload_value)
| PDict (members : list (option string * payload_value))   (* [None]: a key that is no string *)
| POther.

Definition is_none (v : payload_value) : bool := match v with PNone => true | _ => false end.

(** [_normalize_payload]; [None] also stands for what cannot be written. *)
Fixpoint normalize_payload (v : payload_value) : option json :=
  match v with
  | PNone | POther => None
  | PBool b => Some (JBool b)
  | PInt n => Some (JInt n)
  | PFloat x => Some (JFloat x)
  | PStr s => Some (JStr s)
  | PList items | PTuple items =>
      JArr <$> (fix all (l : list payload_value) : option (list json) :=
                  match l with
                  | [] => Some []
                  | x :: l' =>
                      match normalize_payload x, is_none x, all l' with
                      | Some j, _, Some js => Some (j :: js)
                      | None, true, Some js => Some (JNull :: js)
                      | _, _, _ => None
                      end
                  end) items
  | PDict members =>
      JObj <$> (fix all (l : list (option string * payload_value)) : option (list (string * json)) :=
                  match l with
                  | [] => Some []
                  | (Some k, x) :: l' =>
                      match normalize_payload x, is_none x, all l' with
                      | Some j, _, Some js => Some ((k, j) :: js)
                      | None, true, Some js => Some ((k, JNull) :: js)
                      | _, _, _ => None
                      end
                  | (None, _) :: _ => None
                  end) members
  end.

(** [cache_key_for]. *)
Definition cache_key_for (m : string) (tokens : list Z) : string :=
  hexdigest (encode_ascii
    ("{" +:+ String.concat ","
       [ json_key "model_id" (json_string m);
         json_key "prefix_tokens" ("[" +:+ String.concat "," (map pretty tokens) +:+ "]");
         json_key "version" (pretty CACHE_VERSION) ] +:+ "}")).

(** The serialized size of a page descriptor: its members in [sort_keys] order. *)
Definition descriptor_bytes (m key : string) (parent : option string) (index size : Z) (tokens : list Z) : Z :=
  Z.of_nat (String.length
    ("{" +:+ String.concat ","
       [ json_key "model_id" (json_string m);
         json_key "page_index" (pretty index);
         json_key "page_key" (json_string key);
         json_key "page_size_tokens" (pretty size);
         json_key "parent_page_key" (match parent with Some k => json_string k | None => "null" end);
         json_key "tokens" ("[" +:+ String.concat "," (map pretty tokens) +:+ "]") ] +:+ "}")).

Fixpoint descriptors_from (fuel : nat) (m : string) (size : nat) (index : Z) (parent : option string)
    (tokens : list Z) : list descriptor :=
  match fuel, tokens with
  | S fuel, _ :: _ =>
      let page := take size tokens in
      let k := page_key_for m parent index page (Z.of_nat size) in
      {| pd_key := k; pd_parent := parent; pd_index := index; pd_tokens := page; pd_page_size := Z.of_nat size;
         pd_bytes := descriptor_bytes m k parent index (Z.of_nat size) page |}
        :: descriptors_from fuel m size (index + 1) (Some k) (drop size tokens)
  | _, _ => []
  end.

(** [_page_descriptors_for]. *)
Definition descriptors_for (m : string) (size : Z) (tokens : list Z) : list descriptor :=
  descriptors_from (length tokens) m (Z.to_nat (Z.max size 1)) 0 None tokens.

(** ** The store *)

(** What is in memory of a model, with the disk it shares with the others. *)
Record slice := {
  sl_entries : list (string * stored_prefix);
  sl_pages : list (string * stored_page);
  sl_disk : disk
}.

#[export] Instance slice_eta : Eta slice := fun r => Build_slice (sl_entries r) (sl_pages r) (sl_disk r).

(** [ps_loaded] holds [_entries_by_model] and [_pages_by_model]; its keys are
    [_loaded_models]. *)
Record prefix_store := {
  ps_page_size : Z;
  ps_loaded : list (string * (list (string * stored_prefix) * list (string * stored_page)));
  ps_disk : disk
}.

#[export] Instance prefix_store_eta : Eta prefix_store := fun r =>
  Build_prefix_store (ps_page_size r) (ps_loaded r) (ps_disk r).

(** [__init__] on a disk. *)
Definition open_store (page_size : Z) (d : disk) : prefix_store :=
  {| ps_page_size := Z.max page_size 1; ps_loaded := []; ps_disk := d |}.

Record save_result := { sv_entry : stored_prefix; sv_new_page_count : Z; sv_shared_page_count : Z }.
Record eviction_summary := { ev_entries : list stored_prefix; ev_page_count : Z }.

Section store.
  (** [path.stat().st_size] of a file with this content, and [_serialized_size] of an entry. *)
Context (file_size : file -> Z) (serialized_size : stored_prefix -> Z).

(** ** Loading *)

Definition files_in (d : directory) (f : folder) (dk : disk) : list (string * file) :=
  omap (fun x => let '((dir, fold, name), c) := x in
                 if decide (dir = d /\ fold = f) then Some (name, c) else None) dk.

Fixpoint insert_file (x : string * file) (l : list (string * file)) : list (string * file) :=
  match l with
  | [] => [x]
  | y :: l' => if String.leb (x.1 +:+ ".json") (y.1 +:+ ".json") then x :: l else y :: insert_file x l'
  end.

Definition sorted_files (l : list (string * file)) : list (string * file) := foldr insert_file [] l.

Definition load_entry (m : string) (c : file) : option stored_prefix :=
  match c with
  | EntryFile e =>
      match se_tokens e with
      | [] => None
      | tokens =>
          let size := Z.max (se_page_size e) 1 in
          Some {| se_key := se_key e; se_model := se_model e; se_tokens := tokens;
                  se_pages := match se_pages e with
                              | [] => map pd_key (descriptors_for m size tokens)
                              | keys => keys
                              end;
                  se_page_size := size; se_payload := se_payload e;
                  se_bytes := Z.max (se_bytes e) (file_size c); se_access := Z.max (se_access e) 0;
                  se_created := se_created e; se_updated := se_updated e; se_used := se_used e |}
      end
  | PageFile _ => None
  end.

Definition load_page (c : file) : option stored_page :=
  match c with
  | PageFile p =>
      match sp_tokens p with
      | [] => None
      | tokens =>
          Some {| sp_key := sp_key p; sp_model := sp_model p; sp_parent := sp_parent p;
                  sp_index := Z.max (sp_index p) 0; sp_page_size := Z.max (sp_page_size p) 1; sp_tokens := tokens;
                  sp_bytes := Z.max (sp_bytes p) (file_size c); sp_refs := Z.max (sp_refs p) 1;
                  sp_access := Z.max (sp_access p) 0; sp_created := sp_created p; sp_updated := sp_updated p;
                  sp_used := sp_used p |}
      end
  | EntryFile _ => None
  end.

(** The files of all the model's directories, in the order they are read. *)
Definition entry_files (m : string) (dk : disk) : list (string * file) :=
  concat (map (fun d => sorted_files (files_in d Top dk) ++ sorted_files (files_in d Entries dk)) (model_dirs m)).
Definition page_files (m : string) (dk : disk) : list (string * file) :=
  concat (map (fun d => files_in d Pages dk) (model_dirs m)).

(** [_load_model_entries_locked] and [_load_model_pages_locked]. *)
Definition load_entries (m : string) (dk : disk) : list (string * stored_prefix) :=
  foldl (fun d e => dset (se_key e) e d) [] (omap (load_entry m) (map snd (entry_files m dk))).
Definition load_pages (m : string) (dk : disk) : list (string * stored_page) :=
  foldl (fun d p => dset (sp_key p) p d) [] (omap load_page (map snd (page_files m dk))).

(** [_rebuild_pages_from_entries]: the pages of one entry, then of all. *)
Definition rebuild_page (m : string) (e : stored_prefix) (pages : list (string * stored_page)) (x : descriptor)
    : list (string * stored_page) :=
  match dget (pd_key x) pages with
  | None =>
      dset (pd_key x)
        {| sp_key := pd_key x; sp_model := m; sp_parent := pd_parent x; sp_index := pd_index x;
           sp_page_size := pd_page_size x; sp_tokens := pd_tokens x; sp_bytes := pd_bytes x; sp_refs := 1;
           sp_access := se_access e; sp_created := se_created e; sp_updated := se_updated e;
           sp_used := se_used e |} pages
  | Some p =>
      dset (pd_key x)
        (p <| sp_refs ::= Z.add 1 |> <| sp_access ::= Z.max (se_access e) |>
           <| sp_updated ::= Z.max (se_updated e) |> <| sp_used ::= Z.max (se_used e) |>) pages
  end.

Definition rebuild_pages (m : string) (entries : list (string * stored_prefix)) : list (string * stored_page) :=
  foldl (fun pages e => foldl (rebuild_page m e) pages (descriptors_for m (se_page_size e) (se_tokens e)))
    [] (map snd entries).

Definition load_model (m : string) (dk : disk) : list (string * stored_prefix) * list (string * stored_page) :=
  let entries := load_entries m dk in
  let pages := load_pages m dk in
  (entries, match pages, entries with [], _ :: _ => rebuild_pages m entries | _, _ => pages end).

(** [_ensure_model_loaded_locked]: the model's part of the store. *)
Definition slice_of (m : string) (st : prefix_store) : slice :=
  let '(entries, pages) := match dget m (ps_loaded st) with
                           | Some loaded => loaded
                           | None => load_model m (ps_disk st)
                           end in
  {| sl_entries := entries; sl_pages := pages; sl_disk := ps_disk st |}.

Definition with_slice (m : string) (s : slice) (st : prefix_store) : prefix_store :=
  st <| ps_loaded ::= dset m (sl_entries s, sl_pages s) |> <| ps_disk := sl_disk s |>.

(** ** Writing *)

Definition unlink (paths : list path) (dk : disk) : disk := foldl (fun dk p => ddel p dk) dk paths.

Definition others (p : path) (paths : list path) : list path :=
  List.filter (fun q => negb (bool_decide (q = p))) paths.

(** [_write_entry_locked] of the entry kept under [key], and [_write_page_locked]. *)
Definition write_entry (key : string) (e : stored_prefix) (s : slice) : slice :=
  let p := entry_path (se_model e) (se_key e) in
  let dk := unlink (others p (legacy_entry_paths (se_model e) (se_key e))) (dset p (EntryFile e) (sl_disk s)) in
  s <| sl_entries ::= dset key (e <| se_bytes ::= Z.max (file_size (EntryFile e)) |>) |> <| sl_disk := dk |>.

Definition write_page (key : string) (p : stored_page) (s : slice) : slice :=
  let q := page_path (sp_model p) (sp_key p) in
  let dk := unlink (others q (legacy_page_paths (sp_model p) (sp_key p))) (dset q (PageFile p) (sl_disk s)) in
  s <| sl_pages ::= dset key (p <| sp_bytes ::= Z.max (file_size (PageFile p)) |>) |> <| sl_disk := dk |>.

(** [entries.pop(key)] with [_unlink_entry_paths], and the same of a page. *)
Definition drop_entry (m key : string) (s : slice) : slice :=
  s <| sl_entries ::= ddel key |>
    <| sl_disk ::= unlink (entry_path m key :: legacy_entry_paths m key) |>.

Definition drop_page (m key : string) (s : slice) : slice :=
  s <| sl_pages ::= ddel key |> <| sl_disk ::= unlink (page_path m key :: legacy_page_paths m key) |>.

(** [_release_page_keys_locked]; [at_] is the clock when the page is written. *)
Fixpoint release_pages (m : string) (at_ : string -> Z) (keys : list string) (s : slice) (removed : Z) : slice * Z :=
  match keys with
  | [] => (s, removed)
  | k :: keys' =>
      match dget k (sl_pages s) with
      | None => release_pages m at_ keys' s removed
      | Some p =>
          if 1 <? sp_refs p then
            release_pages m at_ keys' (write_page k (p <| sp_refs := sp_refs p - 1 |> <| sp_updated := at_ k |>) s) removed
          else release_pages m at_ keys' (drop_page m k s) (removed + 1)
      end
  end.

(** ** Operations *)

(** The loop of [_best_entry_match_locked]. *)
Fixpoint best_entry (prompt_tokens : list Z) (prompt_keys : list string) (es : list stored_prefix)
    (best : option stored_prefix * nat * nat) : option stored_prefix * nat * nat :=
  match es with
  | [] => best
  | e :: es' =>
      let '(_, best_length, best_pages) := best in
      let n := longest_token_prefix (se_tokens e) prompt_tokens in
      let k := matched_page_count (se_pages e) prompt_keys in
      best_entry prompt_tokens prompt_keys es'
        (if (n =? 0)%nat then best
         else if ((best_length <? n) || ((n =? best_length) && (best_pages <? k)))%nat%bool
              then (Some e, n, k) else best)
  end.

Definition best_entry_match (page_size : Z) (m : string) (prompt_tokens : list Z) (s : slice)
    : option stored_prefix * nat * nat :=
  best_entry prompt_tokens (page_keys_for m page_size prompt_tokens) (map snd (sl_entries s)) (None, 0, 0)%nat.

(** The pages that the hit touches. *)
Fixpoint touch_pages (now : Z) (keys : list string) (s : slice) : slice :=
  match keys with
  | [] => s
  | k :: keys' =>
      touch_pages now keys'
        (match dget k (sl_pages s) with
         | None => s
         | Some p => write_page k (p <| sp_access ::= Z.add 1 |> <| sp_used := now |> <| sp_updated := now |>) s
         end)
  end.

Definition lookup_slice (page_size : Z) (m : string) (prompt_tokens : list Z) (now : Z) (s : slice)
    : slice * option stored_prefix :=
  match best_entry_match page_size m prompt_tokens s with
  | (Some e, _, k) =>
      match se_payload e with
      | None => (s, None)
      | Some _ =>
          let e := e <| se_access ::= Z.add 1 |> <| se_used := now |> <| se_updated := now |> in
          let s := write_entry (se_key e) e s in
          let s := touch_pages now (take k (se_pages e)) s in
          (s, Some (e <| se_bytes ::= Z.max (file_size (EntryFile e)) |>))
      end
  | (None, _, _) => (s, None)
  end.

Definition preview_slice (page_size : Z) (m : string) (prompt_tokens : list Z) (s : slice) : option stored_prefix :=
  match best_entry_match page_size m prompt_tokens s with
  | (Some e, _, _) => match se_payload e with None => None | Some _ => Some e end
  | (None, _, _) => None
  end.

(** The loop over the descriptors in [put]: counts of shared and of new pages, and
    whether every page so far was shared. *)
Fixpoint put_pages (m : string) (now : Z) (existing : list string) (xs : list descriptor) (s : slice)
    (shared : Z) (still : bool) (new : Z) : slice * Z * Z :=
  match xs with
  | [] => (s, shared, new)
  | x :: xs' =>
      let k := pd_key x in
      match dget k (sl_pages s) with
      | Some p =>
          let p := if bool_decide (k ∈ existing) then p else p <| sp_refs ::= Z.add 1 |> in
          put_pages m now existing xs' (write_page k (p <| sp_updated := now |> <| sp_used := now |>) s)
            (if still then shared + 1 else shared) still new
      | None =>
          let p := {| sp_key := k; sp_model := m; sp_parent := pd_parent x; sp_index := pd_index x;
                      sp_page_size := pd_page_size x; sp_tokens := pd_tokens x; sp_bytes := Z.max (pd_bytes x) 0;
                      sp_refs := 1; sp_access := 0; sp_created := now; sp_updated := now; sp_used := now |} in
          put_pages m now existing xs' (write_page k p s) shared false (new + 1)
      end
  end.

Definition put_slice (page_size : Z) (m : string) (tokens : list Z) (payload : payload_value)
    (estimated : option Z) (now : Z) (at_ : string -> Z) (s : slice) : slice * save_result :=
  let key := cache_key_for m tokens in
  let xs := descriptors_for m page_size tokens in
  let keys := map pd_key xs in
  let existing := dget key (sl_entries s) in
  let existing_keys := match existing with Some x => se_pages x | None => [] end in
  let '(s, shared, new) := put_pages m now existing_keys xs s 0 true 0 in
  let s := match existing with
           | Some x => fst (release_pages m at_ (keys_not_in keys (se_pages x)) s 0)
           | None => s
           end in
  let e := {| se_key := key; se_model := m; se_tokens := tokens; se_pages := keys; se_page_size := page_size;
              se_payload := normalize_payload payload; se_bytes := Z.max (default 0 estimated) 0;
              se_access := match existing with Some x => se_access x | None => 0 end;
              se_created := match existing with Some x => se_created x | None => now end;
              se_updated := now; se_used := now |} in
  let e := if se_bytes e <=? 0 then e <| se_bytes := serialized_size e |> else e in
  (write_entry key e s,
   {| sv_entry := e <| se_bytes ::= Z.max (file_size (EntryFile e)) |>; sv_new_page_count := new;
      sv_shared_page_count := shared |}).

(** [(last_used_at, updated_at, key)], and the first item with the least. *)
Definition older (a b : string * stored_prefix) : bool :=
  let '(ka, ea) := a in let '(kb, eb) := b in
  (se_used ea <? se_used eb)
  || ((se_used ea =? se_used eb)
      && ((se_updated ea <? se_updated eb) || ((se_updated ea =? se_updated eb) && String.ltb ka kb))).

Fixpoint oldest (best : string * stored_prefix) (l : list (string * stored_prefix)) : string * stored_prefix :=
  match l with
  | [] => best
  | x :: l' => oldest (if older x best then x else best) l'
  end.

(** The loop of [enforce_limit], with fuel for its iterations: each drops an entry. *)
Fixpoint enforce_loop (fuel : nat) (m : string) (max_entries : Z) (at_ : string -> Z) (s : slice)
    (evicted : list stored_prefix) (pages : Z) : slice * eviction_summary :=
  match fuel, sl_entries s with
  | S fuel', x :: l =>
      if max_entries <? Z.of_nat (length (x :: l)) then
        let '(key, e) := oldest x l in
        let '(s, removed) := release_pages m at_ (se_pages e) (drop_entry m key s) 0 in
        enforce_loop fuel' m max_entries at_ s (evicted ++ [e]) (pages + removed)
      else (s, {| ev_entries := evicted; ev_page_count := pages |})
  | _, _ => (s, {| ev_entries := evicted; ev_page_count := pages |})
  end.

Definition enforce_slice (m : string) (max_entries : Z) (at_ : string -> Z) (s : slice) : slice * eviction_summary :=
  enforce_loop (length (sl_entries s)) m max_entries at_ s [] 0.

Fixpoint invalidate_loop (m : string) (at_ : string -> Z) (matching : list stored_prefix) (s : slice)
    (evicted : list stored_prefix) (pages : Z) : slice * eviction_summary :=
  match matching with
  | [] => (s, {| ev_entries := evicted; ev_page_count := pages |})
  | e :: matching' =>
      let '(s, removed) := release_pages m at_ (se_pages e) (drop_entry m (se_key e) s) 0 in
      invalidate_loop m at_ matching' s (evicted ++ [e]) (pages + removed)
  end.

Definition invalidate_slice (m : string) (cache_key : option string) (at_ : string -> Z) (s : slice)
    : slice * eviction_summary :=
  let matches e := match cache_key with None => true | Some k => bool_decide (se_key e = k) end in
  invalidate_loop m at_ (List.filter matches (map snd (sl_entries s))) s [] 0.

Inductive store_error := EmptyPrefix | BadLimit.

Definition lookup_stored (m : string) (prompt_tokens : list Z) (now : Z) (st : prefix_store)
    : prefix_store * option stored_prefix :=
  let '(s, r) := lookup_slice (ps_page_size st) m prompt_tokens now (slice_of m st) in (with_slice m s st, r).

Definition preview_stored (m : string) (prompt_tokens : list Z) (st : prefix_store)
    : prefix_store * option stored_prefix :=
  let s := slice_of m st in (with_slice m s st, preview_slice (ps_page_size st) m prompt_tokens s).

Definition put_stored (m : string) (tokens : list Z) (payload : payload_value) (estimated : option Z) (now : Z)
    (at_ : string -> Z) (st : prefix_store) : result store_error (prefix_store * save_result) :=
  match tokens with
  | [] => Err EmptyPrefix
  | _ =>
      let '(s, r) := put_slice (ps_page_size st) m tokens payload estimated now at_ (slice_of m st) in
      Ok (with_slice m s st, r)
  end.

Definition enforce_limit (m : string) (max_entries : Z) (at_ : string -> Z) (st : prefix_store)
    : result store_error (prefix_store * eviction_summary) :=
  if max_entries <? 1 then Err BadLimit
  else let '(s, r) := enforce_slice m max_entries at_ (slice_of m st) in Ok (with_slice m s st, r).

Definition invalidate_stored (m : string) (cache_key : option string) (at_ : string -> Z) (st : prefix_store)
    : prefix_store * eviction_summary :=
  let '(s, r) := invalidate_slice m cache_key at_ (slice_of m st) in (with_slice m s st, r).

(** [_ensure_model_loaded_locked] alone, then what the counts are read from. *)
Definition ensure_loaded (m : string) (st : prefix_store) : prefix_store := with_slice m (slice_of m st) st.

Definition entry_count (m : string) (st : prefix_store) : prefix_store * Z :=
  (ensure_loaded m st, Z.of_nat (length (sl_entries (slice_of m st)))).
Definition page_count (m : string) (st : prefix_store) : prefix_store * Z :=
  (ensure_loaded m st, Z.of_nat (length (sl_pages (slice_of m st)))).
Definition total_size_bytes (m : string) (st : prefix_store) : prefix_store * Z :=
  (ensure_loaded m st, foldr Z.add 0 (map (fun e => se_bytes e.2) (sl_entries (slice_of m st)))).
Definition total_page_size_bytes (m : string) (st : prefix_store) : prefix_store * Z :=
  (ensure_loaded m st, foldr Z.add 0 (map (fun p => sp_bytes p.2) (sl_pages (slice_of m st)))).

(** The same without a model: the files of every directory of this version. *)
Definition current_files (pages : bool) (st : prefix_store) : list file :=
  omap (fun x => let '((dir, f, _), c) := x in
                 if decide (dir.1 = Current /\ bool_decide (f = Pages) = pages) then Some c else None) (ps_disk st).

Definition total_entry_count (st : prefix_store) : Z := Z.of_nat (length (current_files false st)).
Definition total_page_count (st : prefix_store) : Z := Z.of_nat (length (current_files true st)).
Definition total_entry_bytes (st : prefix_store) : Z := foldr Z.add 0 (map file_size (current_files false st)).
Definition total_page_bytes (st : prefix_store) : Z := foldr Z.add 0 (map file_size (current_files true st)).

(** A use of the store; [Reopen] is a new process on the same disk. *)
Inductive store_op :=
| Lookup (m : string) (prompt : list Z) (now : Z)
| Preview (m : string) (prompt : list Z)
| Put (m : string) (tokens : list Z) (payload : payload_value) (estimated : option Z) (now : Z) (at_ : string -> Z)
| Enforce (m : string) (max_entries : Z) (at_ : string -> Z)
| Invalidate (m : string) (cache_key : option string) (at_ : string -> Z)
| Count (m : string)
| Reopen (page_size : Z).

Definition run_store (op : store_op) (st : prefix_store) : prefix_store :=
  match op with
  | Lookup m prompt now => fst (lookup_stored m prompt now st)
  | Preview m prompt => fst (preview_stored m prompt st)
  | Put m tokens payload estimated now at_ =>
      match put_stored m tokens payload estimated now at_ st with Ok (st', _) => st' | Err _ => st end
  | Enforce m n at_ => match enforce_limit m n at_ st with Ok (st', _) => st' | Err _ => st end
  | Invalidate m ck at_ => fst (invalidate_stored m ck at_ st)
  | Count m => fst (entry_count m st)
  | Reopen page_size => open_store page_size (ps_disk st)
  end.
End store.

(** ** The order of eviction *)

Lemma older_spec a b :
  older a b = true <->
  se_used a.2 < se_used b.2 \/ (se_used a.2 = se_used b.2
    /\ (se_updated a.2 < se_updated b.2 \/ (se_updated a.2 = se_updated b.2 /\ String.ltb a.1 b.1 = true))).
Proof.
  destruct a as [ka ea], b as [kb eb]. unfold older. cbn [fst snd].
  rewrite !orb_true_iff, !andb_true_iff, !orb_true_iff, !andb_true_iff, !Z.ltb_lt, !Z.eqb_eq. done.
Qed.

(** An item between two: it is older than the one or the other older than it. *)
Lemma older_split a b c : older a c = true -> older a b = true \/ older b c = true.
Proof.
  rewrite !older_spec. apply lexicographic_split. intros H.
  destruct (string_ltb_total a.1 b.1) as [<-|[?|Hl]]; [by right|by left|right]. by eapply string_ltb_trans.
Qed.

Lemma older_total a b : a.1 <> b.1 -> older a b = true \/ older b a = true.
Proof.
  intros Hne. rewrite !older_spec. destruct (string_ltb_total a.1 b.1) as [?|[?|?]]; [done| |];
    destruct (Z.lt_total (se_used a.2) (se_used b.2)) as [?|[->|?]]; try tauto;
    destruct (Z.lt_total (se_updated a.2) (se_updated b.2)) as [?|[->|?]]; tauto.
Qed.

Lemma older_irrefl a : older a a = false.
Proof. apply not_true_iff_false. rewrite older_spec, string_ltb_irrefl. intuition (lia || done). Qed.

Lemma older_asym a b : older a b = true -> older b a = false.
Proof.
  rewrite older_spec. intros H. apply not_true_iff_false. rewrite older_spec. intros H'.
  assert (Hab : String.ltb a.1 b.1 = true /\ String.ltb b.1 a.1 = true) by (intuition lia).
  destruct Hab as [H1 H2]. pose proof (string_ltb_trans _ _ _ H1 H2) as H3. by rewrite string_ltb_irrefl in H3.
Qed.

(** [oldest] is what [min] finds: none is older. *)
Lemma oldest_spec l : forall best,
  oldest best l ∈ best :: l /\ forall z, z ∈ best :: l -> older z (oldest best l) = false.
Proof.
  induction l as [|x l IH]; intros best; cbn [oldest].
  { split; [by left|]. intros z ->%list_elem_of_singleton. apply older_irrefl. }
  destruct (IH (if older x best then x else best)) as [H1 H2]. set (r := oldest _ l) in *. split.
  - apply elem_of_cons in H1 as [->|H1]; [|set_solver]. destruct (older x best); set_solver.
  - assert (Hb : older (if older x best then x else best) r = false) by (apply H2; by left).
    intros z [->|[->|Hz]%elem_of_cons]%elem_of_cons; [| |apply H2; by right];
      destruct (older x best) eqn:Hx; try done; apply not_true_iff_false; intros Hr.
    + destruct (older_split best x r Hr) as [Hb'|?]; [|congruence]. apply older_asym in Hb'. congruence.
    + destruct (older_split x best r Hr) as [?|?]; congruence.
Qed.

(** ** Dictionaries *)

Section dictionaries.
Context {K A : Type} {eqK : EqDecision K}.
  Implicit Types (d : list (K * A)).

(** Dictionaries built from a list: the last of a key counts. *)
Lemma dget_fold (key : A -> K) (l : list A) d k :
  dget k (foldl (fun d x => dset (key x) x d) d l)
  = match last (List.filter (fun x => bool_decide (key x = k)) l) with Some x => Some x | None => dget k d end.
Proof.
  revert d. induction l as [|x l IH]; intros d; [done|]. cbn [foldl List.filter]. rewrite IH.
  destruct (decide (key x = k)) as [Hk|Hne].
  - rewrite bool_decide_true by done. rewrite last_cons. case_match eqn:Hl; [done|]. subst k. by rewrite dget_dset_eq.
  - rewrite bool_decide_false by done. case_match; [done|]. rewrite dget_dset_ne by done. done.
Qed.

Lemma NoDup_fold (key : A -> K) (l : list A) d :
  NoDup (dkeys d) -> NoDup (dkeys (foldl (fun d x => dset (key x) x d) d l)).
Proof. revert d. induction l as [|x l IH]; intros d H; [done|]. cbn [foldl]. by apply IH, NoDup_dset. Qed.

(** If all that a list holds for a key is [x], so does the dictionary. *)
Lemma dget_fold_unique (key : A -> K) (l : list A) k (o : option A) :
  (forall x, x ∈ l -> key x = k -> o = Some x) -> (forall x, o = Some x -> x ∈ l /\ key x = k) ->
  dget k (foldl (fun d x => dset (key x) x d) [] l) = o.
Proof.
  intros H1 H2. rewrite dget_fold. destruct (last _) as [x|] eqn:Hl.
  - apply last_Some_elem_of in Hl. apply list_elem_of_In, filter_In in Hl as [Hin Hk%bool_decide_eq_true].
    symmetry. apply H1; [by apply list_elem_of_In|done].
  - destruct o as [x|]; [|done]. exfalso. destruct (H2 x eq_refl) as [Hin Hk]. apply last_None in Hl.
    assert (Hx : x ∈ List.filter (fun y => bool_decide (key y = k)) l).
    { apply list_elem_of_In, filter_In. split; [by apply list_elem_of_In|by apply bool_decide_eq_true]. }
    rewrite Hl in Hx. by apply not_elem_of_nil in Hx.
Qed.

(** Counting the items of a dictionary that is changed. *)
Lemma countb_ddel (f : K * A -> bool) k d :
  countb f (ddel k d) = countb f d - match dget k d with Some v => one_if (f (k, v)) | None => 0 end.
Proof.
  induction d as [|[k' v'] d IH]; [done|]. rewrite dget_cons, ddel_cons. cbn [fst snd].
  destruct (decide (k = k')) as [->|Hne]; rewrite !countb_cons; unfold one_if in *; cbn iota; [lia|]. rewrite IH. lia.
Qed.

Lemma countb_dset (f : K * A -> bool) k v d :
  countb f (dset k v d) = countb f (ddel k d) + one_if (f (k, v)).
Proof.
  induction d as [|[k' v'] d IH]; [change (countb f ([(k, v)]) = 0 + one_if (f (k, v))); rewrite countb_cons; apply Z.add_comm|]. rewrite dset_cons, ddel_cons. cbn [fst].
  destruct (decide (k = k')) as [->|Hne]; rewrite !countb_cons; unfold one_if in *; cbn iota; [lia|]. rewrite IH. lia.
Qed.

Lemma countb_some (f : K * A -> bool) d : countb f d <> 0 -> exists x, x ∈ d /\ f x = true.
Proof.
  induction d as [|x d IH]; [done|]. rewrite countb_cons. destruct (f x) eqn:Hf; intros H.
  - exists x. split; [by left|done].
  - destruct (IH H) as (y & Hy & Hfy). exists y. split; [by right|done].
Qed.

(** Dictionaries with the same items are the same up to their order. *)
Lemma dict_permutation d d' :
  NoDup (dkeys d) -> NoDup (dkeys d') -> (forall k, dget k d' = dget k d) -> d' ≡ₚ d.
Proof.
  intros Hd Hd' H. apply NoDup_Permutation; [by apply (NoDup_fmap_1 fst)|by apply (NoDup_fmap_1 fst)|].
  intros [k v]. split; intros Hin.
  - apply dget_elem in Hin; [|done]. apply dget_Some_elem. by rewrite <- H.
  - apply dget_elem in Hin; [|done]. apply dget_Some_elem. by rewrite H.
Qed.

Lemma countb_permutation (f : K * A -> bool) d d' : d' ≡ₚ d -> countb f d' = countb f d.
Proof. induction 1; rewrite ?countb_cons; lia. Qed.
End dictionaries.

(** ** Files *)

(** Nothing outside the directories [ds] differs. *)
Definition same_elsewhere (ds : list directory) (dk dk' : disk) : Prop :=
  forall d f, d ∉ ds -> files_in d f dk' = files_in d f dk.

Lemma same_elsewhere_refl ds dk : same_elsewhere ds dk dk.
Proof. by intros d f _. Qed.

Lemma same_elsewhere_trans ds a b c : same_elsewhere ds a b -> same_elsewhere ds b c -> same_elsewhere ds a c.
Proof. intros H1 H2 d f Hd. by rewrite H2, H1. Qed.

(** One file at a time. *)
Definition file_at (d : directory) (f : folder) (x : path * file) : option (string * file) :=
  if decide (x.1.1.1 = d /\ x.1.1.2 = f) then Some (x.1.2, x.2) else None.

Lemma files_in_cons d f x dk :
  files_in d f (x :: dk) = match file_at d f x with Some y => y :: files_in d f dk | None => files_in d f dk end.
Proof. destruct x as [[[xd xf] xn] c]. done. Qed.

Lemma files_in_dset d f p c dk : p.1.1 <> d -> files_in d f (dset p c dk) = files_in d f dk.
Proof.
  intros Hd. assert (Hp : forall c, file_at d f (p, c) = None).
  { intros c'. unfold file_at. by rewrite decide_False by naive_solver. }
  induction dk as [|[q c'] dk IH]; [change (files_in d f ([(p, c)]) = files_in d f []); by rewrite files_in_cons, Hp|].
  rewrite dset_cons. destruct (decide _) as [Hq|]; cbn [fst] in *; [subst q|]; rewrite !files_in_cons, ?Hp, ?IH; done.
Qed.

Lemma files_in_ddel d f p dk : p.1.1 <> d -> files_in d f (ddel p dk) = files_in d f dk.
Proof.
  intros Hd. induction dk as [|[q c'] dk IH]; [done|].
  rewrite ddel_cons. destruct (decide _) as [Hq|]; cbn [fst] in *; [subst q|]; rewrite !files_in_cons, ?IH; [|done].
  unfold file_at. by rewrite decide_False by naive_solver.
Qed.

Lemma unlink_cons p ps dk : unlink (p :: ps) dk = unlink ps (ddel p dk).
Proof. done. Qed.

Lemma unlink_elsewhere ds ps dk : Forall (fun p : path => p.1.1 ∈ ds) ps -> same_elsewhere ds dk (unlink ps dk).
Proof.
  intros H. revert dk. induction H as [|p ps Hp _ IH]; intros dk; [apply same_elsewhere_refl|].
  rewrite unlink_cons. eapply same_elsewhere_trans; [|apply IH]. intros d f Hd.
  apply files_in_ddel. intros <-. done.
Qed.

Lemma dset_elsewhere ds p c dk : p.1.1 ∈ ds -> same_elsewhere ds dk (dset p c dk).
Proof. intros Hp d f Hd. apply files_in_dset. by intros <-. Qed.

Lemma NoDup_unlink ps (dk : disk) : NoDup (dkeys dk) -> NoDup (dkeys (unlink ps dk)).
Proof.
  revert dk. induction ps as [|q ps IH]; intros dk Hnd; [done|]. rewrite unlink_cons. by apply IH, NoDup_ddel.
Qed.

Lemma dget_unlink p ps (dk : disk) :
  NoDup (dkeys dk) -> dget p (unlink ps dk) = if bool_decide (p ∈ ps) then None else dget p dk.
Proof.
  revert dk. induction ps as [|q ps IH]; intros dk Hnd.
  { by rewrite bool_decide_false by apply not_elem_of_nil. }
  rewrite unlink_cons, IH by by apply NoDup_ddel. destruct (decide (p = q)) as [->|Hne].
  - rewrite dget_ddel_eq by done. rewrite (bool_decide_true (q ∈ q :: ps)) by by left. by case_match.
  - rewrite dget_ddel_ne by done.
    rewrite (bool_decide_ext (p ∈ q :: ps) (p ∈ ps)) by set_solver. done.
Qed.

Lemma elem_files_in d f dk n c : (n, c) ∈ files_in d f dk <-> ((d, f, n), c) ∈ dk.
Proof.
  unfold files_in. rewrite list_elem_of_omap. split.
  - intros ([[[d' f'] n'] c'] & Hin & H). case_decide as Hd; [|done]. destruct Hd as [-> ->]. by injection H as -> ->.
  - intros Hin. exists ((d, f, n), c). split; [done|]. by rewrite decide_True.
Qed.

Lemma dget_files_in d f n dk : dget ((d, f, n) : path) dk = dget n (files_in d f dk).
Proof.
  induction dk as [|[[[xd xf] xn] c] dk IH]; [done|]. rewrite files_in_cons, dget_cons. unfold file_at. cbn [fst snd].
  destruct (decide (xd = d /\ xf = f)) as [[-> ->]|Hne].
  - rewrite dget_cons. cbn [fst snd]. destruct (decide (n = xn)) as [->|Hn].
    + by rewrite decide_True.
    + rewrite decide_False; [done|]. by intros [= ->].
  - rewrite decide_False; [done|]. intros [= -> -> ->]. naive_solver.
Qed.

Lemma dget_elsewhere ds dk dk' (q : path) :
  same_elsewhere ds dk dk' -> q.1.1 ∉ ds -> dget q dk' = dget q dk.
Proof. intros H Hq. destruct q as [[d f] n]. by rewrite !dget_files_in, H. Qed.

Lemma elem_sorted x l : x ∈ sorted_files l <-> x ∈ l.
Proof.
  induction l as [|y l IH]; [done|]. unfold sorted_files in *. cbn [foldr].
  assert (H : forall l', x ∈ insert_file y l' <-> x = y \/ x ∈ l').
  { induction l' as [|z l' IHl]; cbn [insert_file]; [by rewrite elem_of_cons|].
    destruct (String.leb _ _); rewrite !elem_of_cons; [done|]. rewrite IHl. naive_solver. }
  by rewrite H, elem_of_cons, IH.
Qed.


(** What a written file leaves. *)
Lemma dget_written (home : string -> path) (legacy : string -> list path) k c (dk : disk) q :
  NoDup (dkeys dk) ->
  dget q (unlink (others (home k) (legacy k)) (dset (home k) c dk))
  = if decide (q = home k) then Some c else if bool_decide (q ∈ legacy k) then None else dget q dk.
Proof.
  intros Hnd. rewrite dget_unlink by by apply NoDup_dset. unfold others.
  destruct (decide (q = home k)) as [->|Hne].
  - rewrite bool_decide_false; [apply dget_dset_eq|]. intros Hin%list_elem_of_In%filter_In.
    rewrite negb_true_iff, bool_decide_eq_false in Hin. naive_solver.
  - rewrite dget_dset_ne by done. rewrite (bool_decide_ext _ (q ∈ legacy k)); [done|].
    rewrite list_elem_of_In, filter_In, negb_true_iff, bool_decide_eq_false, <- list_elem_of_In. naive_solver.
Qed.

(** ** A dictionary and its files

    A dictionary whose values each have a file: [home k] or a path of a version
    before, [legacy k].  The files of a [zone] hold nothing else. *)

Section tracked.
Context {A : Type} (in_use : string -> Prop) (home : string -> path) (legacy : string -> list path)
        (read : file -> option A) (good : string -> A -> Prop) (zone : path -> Prop).

Definition places (k : string) : list path := home k :: legacy k.

Context (places_zone : forall k q, in_use k -> q ∈ places k -> zone q).
Context (places_apart : forall k k' q, in_use k -> in_use k' -> q ∈ places k -> q ∈ places k' -> k = k').

Record tracked (d : list (string * A)) (dk : disk) : Prop := {
  tr_memory : forall k v, dget k d = Some v ->
    in_use k /\ good k v /\ exists q c, q ∈ places k /\ dget q dk = Some c /\ read c = Some v;
  tr_disk : forall q c, zone q -> dget q dk = Some c -> exists k v, dget k d = Some v /\ q ∈ places k /\ read c = Some v
}.

Lemma tracked_same_zone d dk dk' : (forall q, zone q -> dget q dk' = dget q dk) -> tracked d dk -> tracked d dk'.
Proof.
  intros Hz [H1 H2]. split.
  - intros k v Hk. destruct (H1 k v Hk) as (Hu & Hg & q & c & Hq & Hc & Hr). split_and!; [done|done|].
    exists q, c. rewrite Hz by by eapply places_zone. done.
  - intros q c Hq. rewrite Hz by done. by apply H2.
Qed.

Lemma tracked_ext d d' dk : (forall k, dget k d' = dget k d) -> tracked d dk -> tracked d' dk.
Proof.
  intros He [H1 H2]. split; [intros k v; rewrite He; apply H1|].
  intros q c Hq Hc. destruct (H2 q c Hq Hc) as (k & v & Hk & Hv). exists k, v. by rewrite He.
Qed.

Lemma tracked_write k v c d dk :
  NoDup (dkeys dk) -> in_use k -> good k v -> read c = Some v -> tracked d dk ->
  tracked (dset k v d) (unlink (others (home k) (legacy k)) (dset (home k) c dk)).
Proof.
  intros Hnd Hu Hg Hr [H1 H2].
  assert (Ho : forall q, q ∉ places k -> dget q (unlink (others (home k) (legacy k)) (dset (home k) c dk)) = dget q dk).
  { intros q [Hq1 Hq2]%not_elem_of_cons. rewrite dget_written by done. by rewrite decide_False, bool_decide_false. }
  split.
  - intros k' v'. destruct (decide (k' = k)) as [->|Hne].
    + rewrite dget_dset_eq. intros [= <-]. split_and!; [done|done|]. exists (home k), c.
      rewrite dget_written, decide_True by done. split_and!; [by left|done|done].
    + rewrite dget_dset_ne by done. intros Hk'. destruct (H1 _ _ Hk') as (Hu' & Hg' & q & c' & Hq & Hc & Hr').
      split_and!; [done|done|]. exists q, c'. rewrite Ho; [done|]. intros Hqk. by apply Hne, (places_apart k' k q).
  - intros q c' Hz. rewrite dget_written by done. destruct (decide (q = home k)) as [->|Hq].
    + intros [= <-]. exists k, v. rewrite dget_dset_eq. split_and!; [done|by left|done].
    + case_bool_decide as Hl; [done|]. intros Hc. destruct (H2 q c' Hz Hc) as (k' & v' & Hk' & Hq' & Hr').
      exists k', v'. split_and!; [|done|done]. rewrite dget_dset_ne; [done|]. intros ->.
      apply elem_of_cons in Hq' as [?|?]; done.
Qed.

Lemma tracked_drop k d dk :
  NoDup (dkeys dk) -> NoDup (dkeys d) -> in_use k -> tracked d dk -> tracked (ddel k d) (unlink (places k) dk).
Proof.
  intros Hnd Hndd Hu [H1 H2]. split.
  - intros k' v'. destruct (decide (k' = k)) as [->|Hne]; [by rewrite dget_ddel_eq|].
    rewrite dget_ddel_ne by done. intros Hk'. destruct (H1 _ _ Hk') as (Hu' & Hg' & q & c' & Hq & Hc & Hr').
    split_and!; [done|done|]. exists q, c'. rewrite dget_unlink by done. rewrite bool_decide_false; [done|].
    intros Hqk. by apply Hne, (places_apart k' k q).
  - intros q c Hz. rewrite dget_unlink by done. case_bool_decide as Hq; [done|]. intros Hc.
    destruct (H2 q c Hz Hc) as (k' & v' & Hk' & Hq' & Hr'). exists k', v'. split_and!; [|done|done].
    rewrite dget_ddel_ne; [done|]. by intros ->.
Qed.

(** Reading all the files of the zone gives the dictionary back. *)
Lemma tracked_read (key : A -> string) (l : list A) d dk :
  (forall x, x ∈ l <-> exists q c, zone q /\ dget q dk = Some c /\ read c = Some x) ->
  (forall k v, good k v -> key v = k) -> tracked d dk ->
  forall k, dget k (foldl (fun d x => dset (key x) x d) [] l) = dget k d.
Proof.
  intros Hl Hkey [H1 H2] k. apply dget_fold_unique.
  - intros x (q & c & Hz & Hc & Hx)%Hl Hk. destruct (H2 q c Hz Hc) as (k' & v & Hd & _ & Hv).
    destruct (H1 k' v Hd) as (_ & Hg & _). apply Hkey in Hg. congruence.
  - intros x Hx. destruct (H1 k x Hx) as (Hu & Hg & q & c & Hq & Hc & Hr). split; [|by apply Hkey].
    apply Hl. exists q, c. split_and!; [by eapply places_zone|done|done].
Qed.
Lemma tracked_files (v : A) d dk :
  tracked d dk -> NoDup (dkeys d) ->
  v ∈ map snd d <-> exists q c, zone q /\ dget q dk = Some c /\ read c = Some v.
Proof.
  intros [H1 H2] Hnd. split.
  - intros ([k v'] & -> & Hin)%list_elem_of_fmap. apply dget_elem in Hin; [|done].
    destruct (H1 k v' Hin) as (Hu & _ & q & c & Hq & Hc & Hr). exists q, c. split_and!; [by eapply places_zone|done|done].
  - intros (q & c & Hz & Hc & Hr). destruct (H2 q c Hz Hc) as (k & v' & Hk & _ & Hr').
    apply list_elem_of_fmap. exists (k, v'). split; [cbn; congruence|by apply dget_Some_elem].
Qed.
End tracked.

(** ** Where a model's files are *)

(** Keys longer than a file name, whose shortened names differ. *)
Record distinct_keys (in_use : string -> Prop) : Prop := {
  dk_long : forall k, in_use k -> (CACHE_KEY_FILENAME_LENGTH < String.length k)%nat;
  dk_apart : forall k k', in_use k -> in_use k' -> compact_filename k = compact_filename k' -> k = k'
}.

Lemma substring_length n s : (String.length (String.substring 0 n s) <= n)%nat.
Proof. revert s. induction n as [|n IH]; intros [|c s]; simpl; [lia|lia|lia|]. specialize (IH s). lia. Qed.

Lemma compact_filename_length k : (String.length (compact_filename k) <= CACHE_KEY_FILENAME_LENGTH)%nat.
Proof.
  unfold compact_filename. destruct (_ <=? _)%nat eqn:H; [by apply Nat.leb_le in H|]. apply substring_length.
Qed.

Definition entry_zone (m : string) (q : path) : Prop := q.1.1 ∈ model_dirs m /\ q.1.2 <> Pages.
Definition page_zone (m : string) (q : path) : Prop := q.1.1 ∈ model_dirs m /\ q.1.2 = Pages.

Lemma model_dir_listed m : model_dir m ∈ model_dirs m.
Proof. by left. Qed.

Lemma elem_entry_places m k q :
  q ∈ places (entry_path m) (legacy_entry_paths m) k -> entry_zone m q /\ (q.2 = compact_filename k \/ q.2 = k).
Proof.
  unfold entry_zone. intros [->|Hq]%elem_of_cons.
  - split; [split; [apply model_dir_listed|done]|by left].
  - unfold legacy_entry_paths in Hq. apply list_elem_of_In, in_concat in Hq as (l & Hl & Hq).
    apply in_map_iff in Hl as (d & <- & Hd). apply list_elem_of_In in Hd.
    destruct Hq as [<-|[<-|[]]]; simpl; by split_and!; [| |right].
Qed.

Lemma elem_page_places m k q :
  q ∈ places (page_path m) (legacy_page_paths m) k -> page_zone m q /\ (q.2 = compact_filename k \/ q.2 = k).
Proof.
  unfold page_zone. intros [->|Hq]%elem_of_cons.
  - split; [split; [apply model_dir_listed|done]|by left].
  - unfold legacy_page_paths in Hq. apply list_elem_of_fmap in Hq as (d & -> & Hd). simpl. by split_and!; [| |right].
Qed.

(** ** What is written can be read *)

Section invariant.
Context (file_size : file -> Z).
Context (in_use : string -> Prop) (Hkeys : distinct_keys in_use).

Lemma file_names_apart k k' n :
  in_use k -> in_use k' -> n = compact_filename k \/ n = k -> n = compact_filename k' \/ n = k' -> k = k'.
Proof using Hkeys.
  intros Hk Hk' H H'. pose proof (compact_filename_length k). pose proof (compact_filename_length k').
  pose proof (dk_long _ Hkeys k Hk). pose proof (dk_long _ Hkeys k' Hk').
  destruct H as [->| ->], H' as [H'|H']; [by apply (dk_apart _ Hkeys)| | |done].
  - rewrite <- H' in *. lia.
  - rewrite H' in *. lia.
Qed.

Lemma entry_places_zone m k q : in_use k -> q ∈ places (entry_path m) (legacy_entry_paths m) k -> entry_zone m q.
Proof. by intros _ [? _]%elem_entry_places. Qed.
Lemma page_places_zone m k q : in_use k -> q ∈ places (page_path m) (legacy_page_paths m) k -> page_zone m q.
Proof. by intros _ [? _]%elem_page_places. Qed.

Lemma entry_places_apart m k k' q :
  in_use k -> in_use k' -> q ∈ places (entry_path m) (legacy_entry_paths m) k ->
  q ∈ places (entry_path m) (legacy_entry_paths m) k' -> k = k'.
Proof using Hkeys. intros Hk Hk' [_ H]%elem_entry_places [_ H']%elem_entry_places. by eapply file_names_apart. Qed.
Lemma page_places_apart m k k' q :
  in_use k -> in_use k' -> q ∈ places (page_path m) (legacy_page_paths m) k ->
  q ∈ places (page_path m) (legacy_page_paths m) k' -> k = k'.
Proof using Hkeys. intros Hk Hk' [_ H]%elem_page_places [_ H']%elem_page_places. by eapply file_names_apart. Qed.

Definition wf_entry (e : stored_prefix) : Prop :=
  se_tokens e <> [] /\ 1 <= se_page_size e /\ se_pages e <> [] /\ 0 <= se_access e.
Definition wf_page (p : stored_page) : Prop :=
  sp_tokens p <> [] /\ 0 <= sp_index p /\ 1 <= sp_page_size p /\ 1 <= sp_refs p /\ 0 <= sp_access p.

Lemma wf_load_entry m e :
  wf_entry e ->
  load_entry file_size m (EntryFile e) = Some (e <| se_bytes ::= Z.max (file_size (EntryFile e)) |>).
Proof.
  intros (Ht & Hs & Hp & Ha). unfold load_entry. set (n := file_size (EntryFile e)). clearbody n.
  destruct e as [? ? tokens pages size ? bytes access ? ? ?]. cbn in *. destruct tokens; [done|]. destruct pages; [done|].
  by rewrite (Z.max_comm bytes n), (Z.max_l size 1), (Z.max_l access 0).
Qed.

Lemma wf_load_page p :
  wf_page p -> load_page file_size (PageFile p) = Some (p <| sp_bytes ::= Z.max (file_size (PageFile p)) |>).
Proof.
  intros (Ht & Hi & Hs & Hr & Ha). unfold load_page. set (n := file_size (PageFile p)). clearbody n.
  destruct p as [? ? ? index size tokens bytes refs access ? ? ?]. cbn in *. destruct tokens; [done|].
  by rewrite (Z.max_comm bytes n), (Z.max_l size 1), (Z.max_l access 0), (Z.max_l index 0), (Z.max_l refs 1).
Qed.

(** The pages that a prompt is cut into. *)
Lemma descriptors_shape m size tokens fuel index parent :
  (1 <= size)%nat -> 0 <= index ->
  Forall (fun x => pd_tokens x <> [] /\ 0 <= pd_index x /\ 1 <= pd_page_size x)
    (descriptors_from fuel m size index parent tokens).
Proof.
  intros Hs. revert tokens index parent. induction fuel as [|fuel IH]; intros [|t tokens] index parent Hi; simpl;
    [constructor|constructor|constructor|]. constructor; [|apply IH; lia]. cbn.
  split_and!; [|done|lia]. destruct size; [lia|done].
Qed.

Lemma descriptors_keys m size tokens : map pd_key (descriptors_for m size tokens) = page_keys_for m size tokens.
Proof.
  unfold descriptors_for, page_keys_for. generalize (length tokens) (Z.to_nat (Z.max size 1)) 0 (@None string).
  intros fuel. revert tokens. induction fuel as [|fuel IH]; intros [|t tokens] n i parent; [done..|].
  cbn [descriptors_from page_keys_from map pd_key]. f_equal. apply IH.
Qed.

Lemma load_entry_wf m c e : load_entry file_size m c = Some e -> wf_entry e.
Proof.
  unfold load_entry. destruct c as [e0|p]; [|done]. destruct (se_tokens e0) as [|t ts] eqn:Ht; [done|].
  intros [= <-]. unfold wf_entry. cbn. split_and!; [done|lia| |lia].
  by destruct (se_pages e0).
Qed.

Lemma load_page_wf c p : load_page file_size c = Some p -> wf_page p.
Proof.
  unfold load_page. destruct c as [e|p0]; [done|]. destruct (sp_tokens p0) as [|t ts]; [done|].
  intros [= <-]. unfold wf_page. cbn. split_and!; [done|lia..].
Qed.

(** ** Memory and disk agree *)

Definition entry_good (m k : string) (e : stored_prefix) : Prop := se_key e = k /\ se_model e = m.
Definition page_good (m k : string) (p : stored_page) : Prop := sp_key p = k /\ sp_model p = m.

Record synced (m : string) (s : slice) : Prop := {
  sy_entries : NoDup (dkeys (sl_entries s));
  sy_pages : NoDup (dkeys (sl_pages s));
  sy_disk : NoDup (dkeys (sl_disk s));
  sy_entry_files : tracked in_use (entry_path m) (legacy_entry_paths m) (load_entry file_size m) (entry_good m)
                     (entry_zone m) (sl_entries s) (sl_disk s);
  sy_page_files : tracked in_use (page_path m) (legacy_page_paths m) (load_page file_size) (page_good m)
                    (page_zone m) (sl_pages s) (sl_disk s)
}.

Lemma synced_entry m s k e :
  synced m s -> dget k (sl_entries s) = Some e -> in_use k /\ se_key e = k /\ se_model e = m /\ wf_entry e.
Proof.
  intros Hs Hg. destruct (tr_memory _ _ _ _ _ _ _ _ (sy_entry_files _ _ Hs) _ _ Hg) as (Hu & [Hk Hm] & q & c & _ & _ & Hr).
  split_and!; [done|done|done|by eapply load_entry_wf].
Qed.

Lemma synced_page m s k p :
  synced m s -> dget k (sl_pages s) = Some p -> in_use k /\ sp_key p = k /\ sp_model p = m /\ wf_page p.
Proof.
  intros Hs Hg. destruct (tr_memory _ _ _ _ _ _ _ _ (sy_page_files _ _ Hs) _ _ Hg) as (Hu & [Hk Hm] & q & c & _ & _ & Hr).
  split_and!; [done|done|done|by eapply load_page_wf].
Qed.

(** A step of model [m]: it keeps the agreement and the others' files. *)
Definition kept (m : string) (s s' : slice) : Prop :=
  synced m s' /\ same_elsewhere (model_dirs m) (sl_disk s) (sl_disk s').

Lemma kept_refl m s : synced m s -> kept m s s.
Proof. intros H. split; [done|apply same_elsewhere_refl]. Qed.

Lemma kept_trans m s s1 s2 : kept m s s1 -> (synced m s1 -> kept m s1 s2) -> kept m s s2.
Proof. intros [H1 H2] H. destruct (H H1) as [H3 H4]. split; [done|by eapply same_elsewhere_trans]. Qed.

Lemma written_elsewhere m q l c dk :
  q.1.1 ∈ model_dirs m -> (forall x, x ∈ l -> x.1.1 ∈ model_dirs m) ->
  same_elsewhere (model_dirs m) dk (unlink (others q l) (dset q c dk)).
Proof.
  intros Hq Hl. eapply same_elsewhere_trans; [by apply (dset_elsewhere _ q c)|]. apply unlink_elsewhere.
  apply Forall_forall. intros x [Hx _]%list_elem_of_In%filter_In. apply Hl. by apply list_elem_of_In.
Qed.

Ltac slice_fields := cbn [sl_entries sl_pages sl_disk set_field].

Lemma write_entry_kept m k e s :
  synced m s -> in_use k -> se_key e = k -> se_model e = m -> wf_entry e -> kept m s (write_entry file_size k e s).
Proof using Hkeys.
  intros Hs Hu Hk Hm Hw. unfold write_entry. rewrite Hk, Hm. split; slice_fields.
  - split; slice_fields.
    + apply NoDup_dset, Hs.
    + apply Hs.
    + apply NoDup_unlink, NoDup_dset, Hs.
    + eapply tracked_write; [apply entry_places_apart|apply Hs|done| |by apply wf_load_entry|apply Hs]. by split.
    + eapply tracked_same_zone; [apply page_places_zone| |apply Hs]. intros q [_ Hz].
      rewrite (dget_written (entry_path m) (legacy_entry_paths m) k) by apply Hs. rewrite decide_False by (by intros ->). rewrite bool_decide_false; [done|].
      intros Hq. destruct (proj1 (elem_entry_places m k q ltac:(by right))) as [_ Hne]. done.
  - apply written_elsewhere; [apply model_dir_listed|]. intros x Hx. apply (elem_entry_places m k). by right.
Qed.

Lemma write_page_kept m k p s :
  synced m s -> in_use k -> sp_key p = k -> sp_model p = m -> wf_page p -> kept m s (write_page file_size k p s).
Proof using Hkeys.
  intros Hs Hu Hk Hm Hw. unfold write_page. rewrite Hk, Hm. split; slice_fields.
  - split; slice_fields.
    + apply Hs.
    + apply NoDup_dset, Hs.
    + apply NoDup_unlink, NoDup_dset, Hs.
    + eapply tracked_same_zone; [apply entry_places_zone| |apply Hs]. intros q [_ Hz].
      rewrite (dget_written (page_path m) (legacy_page_paths m) k) by apply Hs. rewrite decide_False by (by intros ->). rewrite bool_decide_false; [done|].
      intros Hq. destruct (proj1 (elem_page_places m k q ltac:(by right))) as [_ Hne]. done.
    + eapply tracked_write; [apply page_places_apart|apply Hs|done| |by apply wf_load_page|apply Hs]. by split.
  - apply written_elsewhere; [apply model_dir_listed|]. intros x Hx. apply (elem_page_places m k). by right.
Qed.

Lemma drop_entry_kept m k s : synced m s -> in_use k -> kept m s (drop_entry m k s).
Proof using Hkeys.
  intros Hs Hu. unfold drop_entry, drop_page. split; slice_fields.
  - split; slice_fields.
    + apply NoDup_ddel, Hs.
    + apply Hs.
    + apply NoDup_unlink, Hs.
    + eapply tracked_drop; [apply entry_places_apart|apply Hs..|done|apply Hs].
    + eapply tracked_same_zone; [apply page_places_zone| |apply Hs]. intros q [_ Hz].
      rewrite dget_unlink by apply Hs. rewrite bool_decide_false; [done|]. intros Hq.
      destruct (proj1 (elem_entry_places m k q Hq)) as [_ Hne]. done.
  - apply unlink_elsewhere, Forall_forall. intros x Hx. apply (elem_entry_places m k), Hx.
Qed.

Lemma drop_page_kept m k s : synced m s -> in_use k -> kept m s (drop_page m k s).
Proof using Hkeys.
  intros Hs Hu. unfold drop_entry, drop_page. split; slice_fields.
  - split; slice_fields.
    + apply Hs.
    + apply NoDup_ddel, Hs.
    + apply NoDup_unlink, Hs.
    + eapply tracked_same_zone; [apply entry_places_zone| |apply Hs]. intros q [_ Hz].
      rewrite dget_unlink by apply Hs. rewrite bool_decide_false; [done|]. intros Hq.
      destruct (proj1 (elem_page_places m k q Hq)) as [_ Hne]. done.
    + eapply tracked_drop; [apply page_places_apart|apply Hs..|done|apply Hs].
  - apply unlink_elsewhere, Forall_forall. intros x Hx. apply (elem_page_places m k), Hx.
Qed.

(** ** Pages and who holds them *)

Definition page_refs (k : string) (s : slice) : Z :=
  match dget k (sl_pages s) with Some p => sp_refs p | None => 0 end.

Definition holds_page (k : string) (x : string * stored_prefix) : bool := bool_decide (k ∈ se_pages x.2).
Definition entry_holders (k : string) (s : slice) : Z := countb (holds_page k) (sl_entries s).

(** Every page is counted by the entries that hold it. *)
Record counted (s : slice) : Prop := {
  co_refs : forall k, page_refs k s = entry_holders k s;
  co_distinct : forall k e, dget k (sl_entries s) = Some e -> NoDup (se_pages e)
}.

Lemma page_refs_nonneg m k s : synced m s -> 0 <= page_refs k s.
Proof.
  intros Hs. unfold page_refs. destruct (dget k _) as [p|] eqn:Hp; [|lia].
  destruct (synced_page _ _ _ _ Hs Hp) as (_ & _ & _ & Hw). unfold wf_page in Hw. lia.
Qed.

Lemma page_refs_zero m k s : synced m s -> (page_refs k s =? 0) = negb (dmem k (sl_pages s)).
Proof.
  intros Hs. unfold page_refs, dmem. destruct (dget k _) as [p|] eqn:Hp; [|done]. simpl.
  destruct (synced_page _ _ _ _ Hs Hp) as (_ & _ & _ & Hw). apply Z.eqb_neq. unfold wf_page in Hw. lia.
Qed.

Lemma page_refs_write k k' p s :
  page_refs k' (write_page file_size k p s) = if decide (k' = k) then sp_refs p else page_refs k' s.
Proof.
  unfold page_refs, write_page. slice_fields.
  destruct (decide (k' = k)) as [->|Hne]; [by rewrite dget_dset_eq|by rewrite dget_dset_ne].
Qed.

Lemma page_refs_drop m k k' s :
  synced m s -> page_refs k' (drop_page m k s) = if decide (k' = k) then 0 else page_refs k' s.
Proof.
  intros Hs. unfold page_refs, drop_page. slice_fields.
  destruct (decide (k' = k)) as [->|Hne]; [by rewrite dget_ddel_eq by apply Hs|by rewrite dget_ddel_ne].
Qed.

Lemma one_if_cons k' k (ks : list string) :
  k ∉ ks -> one_if (bool_decide (k' ∈ k :: ks)) = if decide (k' = k) then 1 else one_if (bool_decide (k' ∈ ks)).
Proof.
  intros Hk. destruct (decide (k' = k)) as [->|Hne].
  - by rewrite bool_decide_true by by left.
  - f_equal. apply bool_decide_ext. set_solver.
Qed.

(** Releasing pages: each loses a holder, and goes with its last. *)
Lemma release_stored_spec m at_ keys : forall s removed s' removed',
  NoDup keys -> synced m s -> release_pages file_size m at_ keys s removed = (s', removed') ->
  kept m s s' /\ sl_entries s' = sl_entries s
  /\ (forall k, page_refs k s' = Z.max 0 (page_refs k s - one_if (bool_decide (k ∈ keys))))
  /\ Z.of_nat (length (sl_pages s')) + removed' = Z.of_nat (length (sl_pages s)) + removed.
Proof using Hkeys.
  induction keys as [|k ks IH]; cbn [release_pages]; intros s removed s' removed' Hnd Hs Hr.
  { simplify_eq. split_and!; [by apply kept_refl|done| |done]. intros k. rewrite bool_decide_false by apply not_elem_of_nil. simpl.
    pose proof (page_refs_nonneg m k s' Hs). lia. }
  apply NoDup_cons in Hnd as [Hk Hnd].
  assert (Hrest : one_if (bool_decide (k ∈ ks)) = 0) by by rewrite bool_decide_false.
  destruct (dget k (sl_pages s)) as [p|] eqn:Hg.
  - assert (Hrk : page_refs k s = sp_refs p) by (unfold page_refs; by rewrite Hg).
    destruct (synced_page _ _ _ _ Hs Hg) as (Hu & Hpk & Hpm & Hw). destruct (1 <? sp_refs p) eqn:H1; bool_prop.
    + set (p' := p <| sp_refs := _ |> <| sp_updated := _ |>) in Hr.
      assert (Hkept : kept m s (write_page file_size k p' s)).
      { apply write_page_kept; [done..|]. unfold wf_page in *. simpl. split_and!; try apply Hw. lia. }
      apply IH in Hr as (H2 & H3 & H4 & H5); [|done|apply Hkept]. split_and!.
      * by eapply kept_trans.
      * done.
      * intros k'. rewrite H4, page_refs_write, one_if_cons by done. destruct (decide (k' = k)) as [->|]; [|done].
        rewrite Hrest, Hrk. simpl. lia.
      * rewrite H5. unfold write_page. slice_fields. rewrite <- (length_map fst (dset _ _ _)).
        rewrite (dkeys_dset_old _ _ _ (dget_Some_key _ _ _ Hg) : map fst _ = _). unfold dkeys. by rewrite length_map.
    + assert (Hkept : kept m s (drop_page m k s)) by by apply drop_page_kept.
      apply IH in Hr as (H2 & H3 & H4 & H5); [|done|apply Hkept]. split_and!.
      * by eapply kept_trans.
      * done.
      * intros k'. rewrite H4, (page_refs_drop m), one_if_cons by done. destruct (decide (k' = k)) as [->|]; [|done].
        rewrite Hrest, Hrk. lia.
      * rewrite H5. unfold drop_page. slice_fields. pose proof (length_ddel_mem _ _ (dget_Some_key _ _ _ Hg)). lia.
  - apply IH in Hr as (H2 & H3 & H4 & H5); [|done|done]. split_and!; [done|done| |done]. intros k'.
    rewrite H4, one_if_cons by done. destruct (decide (k' = k)) as [->|]; [|done].
    rewrite Hrest. unfold page_refs. rewrite Hg. lia.
Qed.

(** Retaining the pages of a prompt: those new, and those its entry did not hold. *)
Lemma put_pages_spec m now existing xs : forall s shared still new s' shared' new',
  NoDup (map pd_key xs) -> (forall x, x ∈ xs -> in_use (pd_key x)) ->
  Forall (fun x => pd_tokens x <> [] /\ 0 <= pd_index x /\ 1 <= pd_page_size x) xs ->
  synced m s -> put_pages file_size m now existing xs s shared still new = (s', shared', new') ->
  kept m s s' /\ sl_entries s' = sl_entries s
  /\ forall k, page_refs k s' = page_refs k s
       + one_if (bool_decide (k ∈ map pd_key xs) && (negb (bool_decide (k ∈ existing)) || (page_refs k s =? 0)))%bool.
Proof using Hkeys.
  induction xs as [|x xs IH]; cbn [put_pages map]; intros s shared still new s' shared' new' Hnd Hu Hw Hs Hr.
  { simplify_eq. split_and!; [by apply kept_refl|done|]. intros k. rewrite bool_decide_false by apply not_elem_of_nil.
    simpl. lia. }
  apply NoDup_cons in Hnd as [Hk Hnd]. apply Forall_cons in Hw as [(Hw1 & Hw2 & Hw3) Hw].
  pose proof (Hu x ltac:(by left)) as Hux.
  assert (Hrec : exists p shared1 still1 new1,
    put_pages file_size m now existing xs (write_page file_size (pd_key x) p s) shared1 still1 new1 = (s', shared', new')
    /\ sp_key p = pd_key x /\ sp_model p = m /\ wf_page p
    /\ sp_refs p = page_refs (pd_key x) s
         + one_if (negb (bool_decide (pd_key x ∈ existing)) || (page_refs (pd_key x) s =? 0))%bool).
  { unfold page_refs. destruct (dget (pd_key x) (sl_pages s)) as [p|] eqn:Hg.
    - destruct (synced_page _ _ _ _ Hs Hg) as (_ & Hpk & Hpm & Hwp). unfold wf_page in *.
      assert (Hnz : (sp_refs p =? 0) = false) by (apply Z.eqb_neq; lia). rewrite Hnz, orb_false_r.
      eexists _, _, _, _. split; [exact Hr|]. destruct (bool_decide (pd_key x ∈ existing)); simpl; split_and!; try done; try apply Hwp; lia.
    - eexists _, _, _, _. split; [exact Hr|]. unfold wf_page. rewrite orb_true_r. cbn. split_and!; done. }
  destruct Hrec as (p & shared1 & still1 & new1 & Hrec & Hpk & Hpm & Hwp & Hrefs).
  assert (Hkept : kept m s (write_page file_size (pd_key x) p s)) by by apply write_page_kept.
  apply IH in Hrec as (H2 & H3 & H4); [|done|intros y Hy; apply Hu; by right|done|apply Hkept]. split_and!.
  - by eapply kept_trans.
  - done.
  - intros k. rewrite H4, page_refs_write. destruct (decide (k = pd_key x)) as [->|Hne].
    + rewrite (bool_decide_false (pd_key x ∈ map pd_key xs)) by done.
      rewrite (bool_decide_true (pd_key x ∈ pd_key x :: map pd_key xs)) by by left. simpl. rewrite Hrefs. lia.
    + rewrite (bool_decide_ext (k ∈ pd_key x :: map pd_key xs) (k ∈ map pd_key xs)) by set_solver. done.
Qed.

Lemma touch_stored_spec m now keys : forall s,
  synced m s -> kept m s (touch_pages file_size now keys s) /\ sl_entries (touch_pages file_size now keys s) = sl_entries s
    /\ forall k, page_refs k (touch_pages file_size now keys s) = page_refs k s.
Proof using Hkeys.
  induction keys as [|k ks IH]; intros s Hs; cbn [touch_pages]; [split_and!; [by apply kept_refl|done|done]|].
  destruct (dget k (sl_pages s)) as [p|] eqn:Hg; [|by apply IH].
  set (p' := p <| sp_access ::= _ |> <| sp_used := _ |> <| sp_updated := _ |>).
  destruct (synced_page _ _ _ _ Hs Hg) as (Hu & Hpk & Hpm & Hw).
  assert (Hkept : kept m s (write_page file_size k p' s)).
  { apply write_page_kept; [done..|]. unfold wf_page in *. simpl. split_and!; try apply Hw. lia. }
  destruct (IH _ (proj1 Hkept)) as (H1 & H2 & H3). split_and!; [by eapply kept_trans|done|].
  intros k'. rewrite H3, page_refs_write. destruct (decide (k' = k)) as [->|]; [|done]. unfold page_refs. by rewrite Hg.
Qed.

(** ** Entries written and dropped *)

Lemma holders_write k k' e s :
  entry_holders k' (write_entry file_size k e s)
  = entry_holders k' s
    - match dget k (sl_entries s) with Some x => one_if (bool_decide (k' ∈ se_pages x)) | None => 0 end
    + one_if (bool_decide (k' ∈ se_pages e)).
Proof. unfold entry_holders, write_entry. slice_fields. rewrite countb_dset, countb_ddel. done. Qed.

Lemma holders_drop m k k' e s :
  dget k (sl_entries s) = Some e ->
  entry_holders k' (drop_entry m k s) = entry_holders k' s - one_if (bool_decide (k' ∈ se_pages e)).
Proof. intros Hg. unfold entry_holders, drop_entry. slice_fields. by rewrite countb_ddel, Hg. Qed.

Lemma stored_holders_pos k e k' s : dget k (sl_entries s) = Some e -> k' ∈ se_pages e -> 1 <= entry_holders k' s.
Proof.
  intros Hg Hk. pose proof (holders_drop "" k k' e s Hg) as H. rewrite bool_decide_true in H by done.
  pose proof (countb_nonneg (holds_page k') (sl_entries (drop_entry "" k s))). unfold entry_holders in *. change (one_if true) with 1 in H. lia.
Qed.

Lemma counted_same s s' :
  (forall k, page_refs k s' = page_refs k s) -> (forall k, entry_holders k s' = entry_holders k s) ->
  (forall k e, dget k (sl_entries s') = Some e -> NoDup (se_pages e)) -> counted s -> counted s'.
Proof. intros H1 H2 H3 [H4 _]. split; [|done]. intros k. by rewrite H1, H2. Qed.

(** What holds between the operations on a model. *)
Definition slice_ok (m : string) (s : slice) : Prop := synced m s /\ counted s.

(** Dropping one entry and releasing its pages. *)
Lemma evict_spec m at_ k e s s' removed :
  slice_ok m s -> dget k (sl_entries s) = Some e ->
  release_pages file_size m at_ (se_pages e) (drop_entry m k s) 0 = (s', removed) ->
  slice_ok m s' /\ kept m s s' /\ sl_entries s' = ddel k (sl_entries s)
  /\ Z.of_nat (length (sl_pages s')) + removed = Z.of_nat (length (sl_pages s)).
Proof using Hkeys.
  intros [Hs [Hc Hd]] Hg Hr. destruct (synced_entry _ _ _ _ Hs Hg) as (Hu & _).
  pose proof (drop_entry_kept m k s Hs Hu) as Hkept.
  apply release_stored_spec in Hr as (H1 & H2 & H3 & H4); [|by eapply Hd|apply Hkept].
  split_and!; [split; [apply H1|split]| | |].
  - intros k'. rewrite H3. unfold entry_holders. rewrite H2. fold (entry_holders k' (drop_entry m k s)).
    rewrite (holders_drop m k k' e s Hg). change (page_refs k' (drop_entry m k s)) with (page_refs k' s). rewrite Hc.
    assert (0 <= entry_holders k' s) by apply countb_nonneg. case_bool_decide as Hin; simpl; [|lia].
    pose proof (stored_holders_pos k e k' s Hg Hin). lia.
  - rewrite H2. unfold drop_entry. slice_fields. intros k' e'. destruct (decide (k' = k)) as [->|Hne].
    + by rewrite dget_ddel_eq by apply Hs.
    + rewrite dget_ddel_ne by done. apply Hd.
  - by eapply kept_trans.
  - done.
  - rewrite H4. unfold drop_entry. slice_fields. lia.
Qed.

(** ** Operations on one model *)

(** What [_best_entry_match_locked] finds. *)
Definition entry_score (prompt : list Z) (keys : list string) (e : stored_prefix) : nat * nat :=
  (longest_token_prefix (se_tokens e) prompt, matched_page_count (se_pages e) keys).

Lemma best_entry_spec prompt keys es : forall b bl bp r rl rp,
  best_entry prompt keys es (b, bl, bp) = (r, rl, rp) ->
  better (bl, bp) (rl, rp)
  /\ (forall e, e ∈ es -> longest_token_prefix (se_tokens e) prompt <> 0%nat -> better (entry_score prompt keys e) (rl, rp))
  /\ ((r = b /\ rl = bl /\ rp = bp)
      \/ exists e, e ∈ es /\ r = Some e /\ entry_score prompt keys e = (rl, rp) /\ rl <> 0%nat).
Proof.
  induction es as [|e es IH]; intros b bl bp r rl rp; cbn [best_entry].
  { intros [= <- <- <-]. split_and!; [unfold better; simpl; lia|by intros e ?%not_elem_of_nil|by left]. }
  set (n := longest_token_prefix (se_tokens e) prompt). set (k := matched_page_count (se_pages e) keys). intros Hb.
  assert (Hstep : exists b' bl' bp', best_entry prompt keys es (b', bl', bp') = (r, rl, rp)
    /\ better (bl, bp) (bl', bp') /\ (n <> 0%nat -> better (n, k) (bl', bp'))
    /\ ((b' = b /\ bl' = bl /\ bp' = bp) \/ (b' = Some e /\ bl' = n /\ bp' = k /\ n <> 0%nat))).
  { unfold better. simpl. destruct (n =? 0)%nat eqn:Hn; [apply Nat.eqb_eq in Hn|apply Nat.eqb_neq in Hn].
    - exists b, bl, bp. split; [exact Hb|]. split_and!; [lia|done|by left].
    - destruct (_ || _)%bool eqn:H in Hb.
      + exists (Some e), n, k. split; [exact Hb|]. apply orb_true_iff in H as [H|[H H']%andb_true_iff];
          [apply Nat.ltb_lt in H|apply Nat.eqb_eq in H; apply Nat.ltb_lt in H']; (split_and!; [lia|lia|by right]).
      + exists b, bl, bp. split; [exact Hb|]. apply orb_false_iff in H as [H1%Nat.ltb_ge H2].
        apply andb_false_iff in H2 as [H2%Nat.eqb_neq|H2%Nat.ltb_ge]; (split_and!; [lia|lia|by left]). }
  destruct Hstep as (b' & bl' & bp' & Hrec & Hbb & He & Hc). apply IH in Hrec as (H1 & H2 & H3). split_and!.
  - by eapply better_trans.
  - intros e' [->|Hin]%elem_of_cons Hne; [|by apply H2]. eapply better_trans; [by apply He|done].
  - destruct H3 as [(-> & -> & ->)|(e' & He' & H3)]; [|right; exists e'; split; [by right|done]].
    destruct Hc as [?|(-> & -> & -> & Hne)]; [by left|right]. exists e. split_and!; [by left|done..].
Qed.

(** The entry that a prompt matches best, if any. *)
Definition matches_best (page_size : Z) (m : string) (prompt : list Z) (s : slice) (found : option stored_prefix) : Prop :=
  match found with
  | Some e =>
      dget (se_key e) (sl_entries s) = Some e /\ longest_token_prefix (se_tokens e) prompt <> 0%nat
      /\ forall k x, dget k (sl_entries s) = Some x -> longest_token_prefix (se_tokens x) prompt <> 0%nat ->
           better (entry_score prompt (page_keys_for m page_size prompt) x)
             (entry_score prompt (page_keys_for m page_size prompt) e)
  | None => forall k x, dget k (sl_entries s) = Some x -> longest_token_prefix (se_tokens x) prompt = 0%nat
  end.

Lemma dget_snd (k : string) (x : stored_prefix) d : dget k d = Some x -> x ∈ map snd d.
Proof. intros H. apply list_elem_of_fmap. exists (k, x). split; [done|by apply dget_Some_elem]. Qed.

Lemma best_entry_match_spec page_size m prompt s found n k :
  synced m s -> best_entry_match page_size m prompt s = (found, n, k) -> matches_best page_size m prompt s found.
Proof.
  intros Hs Hb. unfold best_entry_match in Hb. apply best_entry_spec in Hb as (_ & H2 & H3).
  destruct H3 as [(-> & -> & ->)|(e & He & -> & Hsc & Hne)]; simpl.
  - intros k' x Hx. destruct (longest_token_prefix (se_tokens x) prompt) as [|z] eqn:Hz; [done|]. exfalso.
    specialize (H2 x (dget_snd _ _ _ Hx) ltac:(by rewrite Hz)). unfold better, entry_score in H2. rewrite Hz in H2. simpl in H2. lia.
  - apply list_elem_of_fmap in He as ([k' e'] & Heq & Hin). simpl in Heq. subst e'.
    apply dget_elem in Hin; [|apply Hs]. destruct (synced_entry _ _ _ _ Hs Hin) as (_ & -> & _). split_and!; [done| |].
    + unfold entry_score in Hsc. congruence.
    + intros k1 x Hx Hx0. rewrite Hsc. apply H2; [by eapply dget_snd|done].
Qed.

(** Writing an entry back with other counters. *)
Lemma rewrite_entry_ok m k e e' s :
  slice_ok m s -> dget k (sl_entries s) = Some e -> se_key e' = se_key e -> se_model e' = se_model e ->
  se_pages e' = se_pages e -> wf_entry e' ->
  slice_ok m (write_entry file_size k e' s) /\ kept m s (write_entry file_size k e' s).
Proof using Hkeys.
  intros [Hs Hc] Hg H1 H2 H3 Hw. destruct (synced_entry _ _ _ _ Hs Hg) as (Hu & Hk & Hm & _).
  assert (Hkept : kept m s (write_entry file_size k e' s)) by (apply write_entry_kept; congruence).
  split; [|done]. split; [apply Hkept|]. eapply counted_same; [| | |exact Hc]; [done| |].
  - intros k'. rewrite holders_write, Hg, H3. lia.
  - intros k' x. unfold write_entry. slice_fields. destruct (decide (k' = k)) as [->|Hne].
    + rewrite dget_dset_eq. intros [= <-]. cbn. rewrite H3. by apply (co_distinct _ Hc k).
    + rewrite dget_dset_ne by done. apply Hc.
Qed.

Lemma touch_pages_ok m now keys s :
  slice_ok m s -> slice_ok m (touch_pages file_size now keys s) /\ kept m s (touch_pages file_size now keys s).
Proof using Hkeys.
  intros [Hs Hc]. destruct (touch_stored_spec m now keys s Hs) as (H1 & H2 & H3). split; [|done]. split; [apply H1|].
  eapply counted_same; [done| |rewrite H2; apply Hc|done]. intros k. unfold entry_holders. by rewrite H2.
Qed.

Lemma lookup_slice_spec page_size m prompt now s :
  slice_ok m s ->
  let s' := fst (lookup_slice file_size page_size m prompt now s) in
  slice_ok m s' /\ kept m s s'
  /\ exists found, matches_best page_size m prompt s found
     /\ match snd (lookup_slice file_size page_size m prompt now s), found with
        | Some r, Some e => se_payload e <> None /\ se_payload r = se_payload e /\ se_tokens r = se_tokens e
                            /\ se_key r = se_key e /\ se_access r = se_access e + 1 /\ se_used r = now
        | None, Some e => se_payload e = None /\ s' = s
        | None, None => s' = s
        | Some _, None => False
        end.
Proof using Hkeys.
  intros Hok. unfold lookup_slice.
  destruct (best_entry_match page_size m prompt s) as [[found n] k] eqn:Hb.
  pose proof (best_entry_match_spec _ _ _ _ _ _ _ (proj1 Hok) Hb) as Hf. destruct found as [e|].
  2: { cbn. split_and!; [done|by apply kept_refl, Hok|]. by exists None. }
  destruct (se_payload e) eqn:Hp; cbn [fst snd].
  2: { split_and!; [done|by apply kept_refl, Hok|]. by exists (Some e). }
  destruct Hf as [Hg Hf]. set (e' := e <| se_access ::= _ |> <| se_used := _ |> <| se_updated := _ |>).
  destruct (synced_entry _ _ _ _ (proj1 Hok) Hg) as (_ & _ & _ & Hw).
  destruct (rewrite_entry_ok m (se_key e) e e' s Hok Hg) as [H1 H2]; [done..| |].
  { unfold wf_entry in *. cbn. split_and!; try apply Hw. lia. }
  destruct (touch_pages_ok m now (take k (se_pages e')) _ H1) as [H3 H4].
  split_and!; [done|by eapply kept_trans; [exact H2|]|]. exists (Some e). split; [by split|].
  cbn. split_and!; [congruence|done|done|done|lia|done].
Qed.

(** Storing a prompt: what the entry becomes, and that the counts follow. *)
Definition stored_as (page_size : Z) (m : string) (tokens : list Z) (payload : payload_value) (now : Z)
    (e : stored_prefix) : Prop :=
  se_key e = cache_key_for m tokens /\ se_model e = m /\ se_tokens e = tokens
  /\ se_pages e = map pd_key (descriptors_for m page_size tokens) /\ se_payload e = normalize_payload payload
  /\ se_used e = now /\ se_updated e = now.

Lemma refs_after_put (refs holders : Z) (in_new in_old released : bool) :
  0 <= refs -> refs = holders -> (in_old = true -> 1 <= holders) -> released = (in_old && negb in_new)%bool ->
  Z.max 0 (refs + one_if (in_new && (negb in_old || (refs =? 0))) - one_if released)
  = holders - one_if in_old + one_if in_new.
Proof.
  intros H0 -> H1 ->. destruct in_new, in_old, (holders =? 0) eqn:Hz; bool_prop; simpl; unfold one_if; lia.
Qed.

(** The pages that the entry before held, and those that it no longer does. *)
Definition old_pages (o : option stored_prefix) : list string := match o with Some x => se_pages x | None => [] end.

Lemma release_old_spec m at_ keys o s :
  synced m s -> NoDup (old_pages o) ->
  let s' := match o with
            | Some x => fst (release_pages file_size m at_ (keys_not_in keys (se_pages x)) s 0)
            | None => s
            end in
  kept m s s' /\ sl_entries s' = sl_entries s
  /\ forall k, page_refs k s' = Z.max 0 (page_refs k s - one_if (bool_decide (k ∈ keys_not_in keys (old_pages o)))).
Proof using Hkeys.
  intros Hs Hnd. destruct o as [x|]; cbn [old_pages] in *.
  - destruct (release_pages _ _ _ _ _ _) as [s0 removed] eqn:Hrel.
    apply release_stored_spec in Hrel as (H1 & H2 & H3 & _); [done|by apply NoDup_keys_not_in|done].
  - split_and!; [by apply kept_refl|done|]. intros k.
    pose proof (page_refs_nonneg m k s Hs). rewrite bool_decide_false by apply not_elem_of_nil. simpl. lia.
Qed.

(** The counts once the entry is written. *)
Lemma counted_after_put m key keys e s s2 :
  slice_ok m s -> NoDup keys -> se_pages e = keys -> sl_entries s2 = sl_entries s ->
  let old := old_pages (dget key (sl_entries s)) in
  (forall k, page_refs k s2
     = Z.max 0 (page_refs k s
                + one_if (bool_decide (k ∈ keys) && (negb (bool_decide (k ∈ old)) || (page_refs k s =? 0)))%bool
                - one_if (bool_decide (k ∈ keys_not_in keys old)))) ->
  counted (write_entry file_size key e s2).
Proof.
  intros [Hs Hc] Hnd Hpe He2 old Hr2. split.
  - intros k. change (page_refs k (write_entry file_size key e s2)) with (page_refs k s2).
    rewrite Hr2, holders_write, He2, Hpe. unfold entry_holders. rewrite He2.
    change (countb (holds_page k) (sl_entries s)) with (entry_holders k s).
    replace (match dget key (sl_entries s) with Some x => one_if (bool_decide (k ∈ se_pages x)) | None => 0 end)
      with (one_if (bool_decide (k ∈ old))).
    2: { unfold old, old_pages. destruct (dget key (sl_entries s)); [done|]. by rewrite bool_decide_false by apply not_elem_of_nil. }
    apply refs_after_put; [by eapply page_refs_nonneg|apply Hc| |].
    + intros Hin%bool_decide_eq_true. unfold old in Hin. destruct (dget key (sl_entries s)) as [x|] eqn:Hx.
      * by eapply stored_holders_pos.
      * by apply not_elem_of_nil in Hin.
    + apply eq_bool_prop_intro. rewrite andb_True, negb_True, !bool_decide_spec. apply elem_of_keys_not_in.
  - intros k x. unfold write_entry. slice_fields. rewrite He2. destruct (decide (k = key)) as [->|Hnk].
    + rewrite dget_dset_eq. intros [= <-]. cbn. by rewrite Hpe.
    + rewrite dget_dset_ne by done. apply Hc.
Qed.

Lemma put_slice_spec serialized_size page_size m tokens payload estimated now at_ s s' r :
  1 <= page_size -> tokens <> [] -> slice_ok m s ->
  let key := cache_key_for m tokens in
  let keys := map pd_key (descriptors_for m page_size tokens) in
  NoDup keys -> in_use key -> (forall k, k ∈ keys -> in_use k) ->
  put_slice file_size serialized_size page_size m tokens payload estimated now at_ s = (s', r) ->
  slice_ok m s' /\ kept m s s' /\ stored_as page_size m tokens payload now (sv_entry r)
  /\ forall k, dget k (sl_entries s') = if decide (k = key) then Some (sv_entry r) else dget k (sl_entries s).
Proof using Hkeys.
  intros Hps Hne [Hs Hc] key keys Hnd Hu Huk. unfold put_slice. fold key.
  set (xs := descriptors_for m page_size tokens) in *. fold keys.
  fold (old_pages (dget key (sl_entries s))). set (old := old_pages _).
  destruct (put_pages _ _ _ _ _ _ _ _ _) as [[s1 shared] new] eqn:Hput.
  apply put_pages_spec in Hput as (Hk1 & He1 & Hr1); [|done| | |done].
  2: { intros x Hx. apply Huk. apply list_elem_of_fmap. by exists x. }
  2: { apply descriptors_shape; lia. }
  set (s2 := match dget key (sl_entries s) with Some x => _ | None => s1 end).
  assert (Hold : NoDup old).
  { unfold old, old_pages. destruct (dget key _) eqn:Hx; [by eapply co_distinct|constructor]. }
  destruct (release_old_spec m at_ keys (dget key (sl_entries s)) s1 (proj1 Hk1) Hold) as (Hk2 & He2 & Hr2).
  fold s2 in Hk2, He2, Hr2. clearbody s2.
  set (e := Build_stored_prefix _ _ _ _ _ _ _ _ _ _ _). set (e' := if se_bytes e <=? 0 then _ else _).
  assert (Hacc : 0 <= se_access e).
  { unfold e. cbn. destruct (dget key (sl_entries s)) as [x|] eqn:Hx; [|done].
    destruct (synced_entry _ _ _ _ Hs Hx) as (_ & _ & _ & Hw). apply Hw. }
  assert (Hstored : stored_as page_size m tokens payload now e' /\ wf_entry e').
  { unfold e', stored_as, wf_entry. destruct (se_bytes e <=? 0); cbn; (split; [done|]); split_and!; try done;
      unfold keys, xs; by destruct tokens. }
  destruct Hstored as [Hst Hw]. clearbody e'. clear e Hacc.
  assert (Hk3 : kept m s2 (write_entry file_size key e' s2)).
  { apply write_entry_kept; [apply Hk2|done|by destruct Hst|by destruct Hst as (_ & ? & _)|done]. }
  intros [= <- <-]. split_and!.
  - split; [apply Hk3|]. apply (counted_after_put m key keys e' s s2); [done|done| |congruence|].
    + by destruct Hst as (_ & _ & _ & ? & _).
    + intros k. by rewrite Hr2, Hr1.
  - eapply kept_trans; [exact Hk1|]. intros _. by eapply kept_trans.
  - done.
  - intros k. unfold write_entry. slice_fields. rewrite He2, He1. cbn.
    destruct (decide (k = key)) as [->|Hnk]; [by rewrite dget_dset_eq|by rewrite dget_dset_ne].
Qed.

(** Evictions. *)
Definition item (e : stored_prefix) : string * stored_prefix := (se_key e, e).

Lemma ddel_permutation {A} (k : string) (v : A) d : dget k d = Some v -> d ≡ₚ (k, v) :: ddel k d.
Proof.
  induction d as [|[k' v'] d IH]; [done|]. rewrite dget_cons, ddel_cons. cbn [fst snd].
  destruct (decide (k = k')) as [->|Hne]; [by intros [= ->]|]. intros H.
  rewrite (IH H) at 1. apply perm_swap.
Qed.

(** Until at most [n] entries are left, the oldest goes. *)
Lemma enforce_loop_spec fuel m n at_ : forall s ev pc s' sum,
  slice_ok m s -> 1 <= n -> (length (sl_entries s) <= fuel)%nat ->
  enforce_loop file_size fuel m n at_ s ev pc = (s', sum) ->
  slice_ok m s' /\ kept m s s'
  /\ Z.of_nat (length (sl_entries s')) = Z.min (Z.of_nat (length (sl_entries s))) n
  /\ Z.of_nat (length (sl_pages s')) + ev_page_count sum = Z.of_nat (length (sl_pages s)) + pc
  /\ exists new, ev_entries sum = ev ++ new /\ sl_entries s ≡ₚ map item new ++ sl_entries s'
     /\ StronglySorted (fun x y => older x y = true) (map item new)
     /\ forall x y, x ∈ map item new -> y ∈ sl_entries s' -> older x y = true.
Proof using Hkeys.
  induction fuel as [|fuel IH]; intros s ev pc s' sum Hok Hn Hf He; cbn [enforce_loop] in He.
  all: destruct (sl_entries s) as [|x l] eqn:Hs; [|try (simpl in Hf; lia)].
  1, 2: simplify_eq; split_and!; [done|by apply kept_refl, Hok|rewrite Hs; simpl; lia|done|];
    exists []; rewrite app_nil_r, Hs; split_and!; [done|done|constructor|by intros ? ? ?%not_elem_of_nil].
  rewrite <- Hs in *. destruct (n <? _) eqn:Hlen; bool_prop.
  2: { simplify_eq. split_and!; [done|by apply kept_refl, Hok|lia|done|].
       exists []. rewrite app_nil_r. split_and!; [done|done|constructor|by intros ? ? ?%not_elem_of_nil]. }
  destruct (oldest_spec l x) as [Hin Hold]. destruct (oldest x l) as [key e]. rewrite <- Hs in Hin, Hold.
  destruct (release_pages _ _ _ _ _ _) as [s1 removed] eqn:Hr.
  apply dget_elem in Hin; [|apply Hok]. destruct (synced_entry _ _ _ _ (proj1 Hok) Hin) as (_ & Hkey & _).
  destruct (evict_spec m at_ key e s s1 removed Hok Hin Hr) as (H1 & H2 & H3 & H4).
  pose proof (length_ddel_mem _ _ (dget_Some_key _ _ _ Hin)) as Hl. rewrite <- H3 in Hl.
  apply IH in He as (H5 & H6 & H7 & H8 & new & H9 & H10 & H11 & H12); [|done|done|lia].
  pose proof (ddel_permutation _ _ _ Hin) as Hperm. rewrite <- H3 in Hperm.
  assert (Hfirst : forall y, y ∈ sl_entries s1 -> older (item e) y = true).
  { intros y Hy. unfold item. rewrite Hkey. destruct (older_total (key, e) y) as [?|Hyo]; [|done|].
    - rewrite H3 in Hy. intros Heq. apply (ddel_not_elem (sl_entries s) key); [apply Hok|].
      apply list_elem_of_fmap. exists y. by split.
    - rewrite Hold in Hyo; [done|]. rewrite Hperm. by right. }
  split_and!; [done|by eapply kept_trans|lia|lia|]. exists (e :: new). split_and!.
  - by rewrite H9, <- app_assoc.
  - cbn [map]. unfold item at 1. rewrite Hkey, Hperm, H10. done.
  - cbn [map]. constructor; [done|]. apply Forall_forall. intros y Hy. apply Hfirst. rewrite H10.
    apply elem_of_app. by left.
  - cbn [map]. intros y z [->|Hy]%elem_of_cons Hz; [|by apply H12]. apply Hfirst. rewrite H10. apply elem_of_app. by right.
Qed.

(** Every entry of a list goes, with its pages. *)
Lemma invalidate_loop_spec m at_ matching : forall s ev pc s' sum,
  slice_ok m s -> NoDup (map se_key matching) ->
  (forall e, e ∈ matching -> dget (se_key e) (sl_entries s) = Some e) ->
  invalidate_loop file_size m at_ matching s ev pc = (s', sum) ->
  slice_ok m s' /\ kept m s s' /\ ev_entries sum = ev ++ matching
  /\ Z.of_nat (length (sl_pages s')) + ev_page_count sum = Z.of_nat (length (sl_pages s)) + pc
  /\ forall k, dget k (sl_entries s') = if bool_decide (k ∈ map se_key matching) then None else dget k (sl_entries s).
Proof using Hkeys.
  induction matching as [|e es IH]; intros s ev pc s' sum Hok Hnd Hin He; cbn [invalidate_loop] in He.
  { simplify_eq. split_and!; [done|by apply kept_refl, Hok|by rewrite app_nil_r|done|].
    intros k. by rewrite bool_decide_false by apply not_elem_of_nil. }
  destruct (release_pages _ _ _ _ _ _) as [s1 removed] eqn:Hr. apply NoDup_cons in Hnd as [Hne Hnd].
  pose proof (Hin e ltac:(by left)) as Hg. destruct (evict_spec m at_ _ e s s1 removed Hok Hg Hr) as (H1 & H2 & H3 & H4).
  apply IH in He as (H5 & H6 & H7 & H8 & H9); [|done|done|].
  2: { intros x Hx. rewrite H3, dget_ddel_ne; [apply Hin; by right|]. intros Heq. apply Hne.
       change (se_key e ∈ map se_key es). rewrite <- Heq. apply list_elem_of_fmap. by exists x. }
  split_and!; [done|by eapply kept_trans|by rewrite H7, <- app_assoc|lia|].
  intros k. rewrite H9, H3. cbn [map]. destruct (decide (k = se_key e)) as [->|Hk].
  - rewrite dget_ddel_eq by apply Hok. rewrite (bool_decide_true (se_key e ∈ _ :: _)) by by left. by case_match.
  - rewrite dget_ddel_ne by done. rewrite (bool_decide_ext (k ∈ se_key e :: _) (k ∈ map se_key es)) by set_solver. done.
Qed.

Lemma invalidate_slice_spec m ck at_ s s' sum :
  slice_ok m s -> invalidate_slice file_size m ck at_ s = (s', sum) ->
  slice_ok m s' /\ kept m s s'
  /\ forall k, dget k (sl_entries s') = match ck with Some c => if decide (k = c) then None else dget k (sl_entries s)
                                       | None => None end.
Proof using Hkeys.
  intros Hok. unfold invalidate_slice. set (f := fun e => match ck with None => true | Some k => _ end).
  assert (Hg : forall e, e ∈ List.filter f (map snd (sl_entries s)) -> dget (se_key e) (sl_entries s) = Some e).
  { intros e He%list_elem_of_In%filter_In. destruct He as [He%list_elem_of_In _].
    apply list_elem_of_fmap in He as ([k x] & -> & Hin). cbn [snd]. apply dget_elem in Hin; [|apply Hok].
    by destruct (synced_entry _ _ _ _ (proj1 Hok) Hin) as (_ & -> & _). }
  intros He. apply invalidate_loop_spec in He as (H1 & H2 & _ & _ & H3); [|done| |done].
  2: { assert (Hkey : map se_key (map snd (sl_entries s)) = dkeys (sl_entries s)).
       { unfold dkeys. rewrite map_map. apply map_ext_in. intros [k x] Hin%list_elem_of_In.
         apply dget_elem in Hin; [|apply Hok]. by destruct (synced_entry _ _ _ _ (proj1 Hok) Hin) as (_ & ? & _). }
       apply NoDup_map_filter. rewrite Hkey. apply Hok. }
  split_and!; [done|done|]. intros k. rewrite H3.
  assert (Hm : k ∈ map se_key (List.filter f (map snd (sl_entries s)))
               <-> exists x, dget k (sl_entries s) = Some x /\ f x = true).
  { split.
    - intros (x & -> & Hx)%list_elem_of_fmap. exists x. split; [by apply Hg|].
      by apply list_elem_of_In, filter_In in Hx as [_ ?].
    - intros (x & Hx & Hf). apply list_elem_of_fmap. exists x.
      destruct (synced_entry _ _ _ _ (proj1 Hok) Hx) as (_ & Hkx & _). split; [done|].
      apply list_elem_of_In, filter_In. split; [apply list_elem_of_In; by eapply dget_snd|done]. }
  case_bool_decide as Hd; rewrite Hm in Hd.
  - destruct Hd as (x & Hx & Hfx). unfold f in Hfx. destruct ck as [c|]; [|done].
    apply bool_decide_eq_true in Hfx. destruct (synced_entry _ _ _ _ (proj1 Hok) Hx) as (_ & Hkx & _).
    rewrite decide_True; congruence.
  - destruct (dget k (sl_entries s)) as [x|] eqn:Hx; [|by destruct ck; [case_decide|]].
    destruct ck as [c|]; [rewrite decide_False; [done|]|exfalso; naive_solver].
    intros ->. apply Hd. exists x. split; [done|]. unfold f. apply bool_decide_eq_true.
    by destruct (synced_entry _ _ _ _ (proj1 Hok) Hx) as (_ & ? & _).
Qed.

(** ** Restarts *)

Lemma elem_entry_files m dk c :
  c ∈ map snd (entry_files m dk) <-> exists q, entry_zone m q /\ (q, c) ∈ dk.
Proof.
  unfold entry_files, entry_zone. split.
  - intros ([n c'] & -> & Hin)%list_elem_of_fmap. apply list_elem_of_In, in_concat in Hin as (l & Hl & Hin).
    apply in_map_iff in Hl as (d & <- & Hd%list_elem_of_In). apply list_elem_of_In, elem_of_app in Hin.
    rewrite !elem_sorted, !elem_files_in in Hin. destruct Hin as [Hin|Hin]; (eexists (_, _, _); split; [|exact Hin]; by split).
  - intros ([[d f] n] & [Hd Hf] & Hin). cbn in Hd, Hf. apply list_elem_of_fmap. exists (n, c). split; [done|].
    apply list_elem_of_In, in_concat. eexists. split; [apply in_map_iff; exists d; split; [done|by apply list_elem_of_In]|].
    apply list_elem_of_In, elem_of_app. rewrite !elem_sorted, !elem_files_in. destruct f; [by left|by right|done].
Qed.

Lemma elem_page_files m dk c :
  c ∈ map snd (page_files m dk) <-> exists q, page_zone m q /\ (q, c) ∈ dk.
Proof.
  unfold page_files, page_zone. split.
  - intros ([n c'] & -> & Hin)%list_elem_of_fmap. apply list_elem_of_In, in_concat in Hin as (l & Hl & Hin).
    apply in_map_iff in Hl as (d & <- & Hd%list_elem_of_In). apply list_elem_of_In in Hin.
    rewrite elem_files_in in Hin. eexists (_, _, _); split; [|exact Hin]; by split.
  - intros ([[d f] n] & [Hd Hf] & Hin). cbn in Hd, Hf. subst f. apply list_elem_of_fmap. exists (n, c). split; [done|].
    apply list_elem_of_In, in_concat. eexists. split; [apply in_map_iff; exists d; split; [done|by apply list_elem_of_In]|].
    by apply list_elem_of_In, elem_files_in.
Qed.

(** The contents of the files, and what is read of them. *)
Lemma read_files {A} (read : file -> option A) (zone : path -> Prop) (cs : list file) (dk : disk) :
  NoDup (dkeys dk) -> (forall c, c ∈ cs <-> exists q, zone q /\ (q, c) ∈ dk) ->
  forall x, x ∈ omap read cs <-> exists q c, zone q /\ dget q dk = Some c /\ read c = Some x.
Proof.
  intros Hnd Hcs x. rewrite list_elem_of_omap. split.
  - intros (c & (q & Hq & Hin)%Hcs & Hr). exists q, c. split_and!; [done|by apply dget_elem|done].
  - intros (q & c & Hq & Hc & Hr). exists c. split; [|done]. apply Hcs. exists q. split; [done|by apply dget_Some_elem].
Qed.

Lemma load_entries_synced m s :
  synced m s -> forall k, dget k (load_entries file_size m (sl_disk s)) = dget k (sl_entries s).
Proof.
  intros Hs. unfold load_entries. eapply tracked_read; [apply entry_places_zone| | |apply (sy_entry_files _ _ Hs)];
    [apply read_files; [apply Hs|apply elem_entry_files]|by intros k e [? _]].
Qed.

Lemma load_pages_synced m s :
  synced m s -> forall k, dget k (load_pages file_size m (sl_disk s)) = dget k (sl_pages s).
Proof.
  intros Hs. unfold load_pages. eapply tracked_read; [apply page_places_zone| | |apply (sy_page_files _ _ Hs)];
    [apply read_files; [apply Hs|apply elem_page_files]|by intros k e [? _]].
Qed.

(** A model is read back as it was: its pages never have to be rebuilt. *)
Lemma load_model_ok m s :
  slice_ok m s -> load_model file_size m (sl_disk s) = (load_entries file_size m (sl_disk s), load_pages file_size m (sl_disk s)).
Proof.
  intros [Hs Hc]. unfold load_model. pose proof (load_entries_synced m s Hs) as He.
  pose proof (load_pages_synced m s Hs) as Hp. destruct (load_pages file_size m (sl_disk s)) as [|p ps]; [|done].
  destruct (load_entries file_size m (sl_disk s)) as [|[k e] es]; [done|]. exfalso.
  specialize (He k). rewrite dget_cons in He. cbn [fst snd] in He. rewrite decide_True in He by done. symmetry in He.
  destruct (synced_entry _ _ _ _ Hs He) as (_ & _ & _ & _ & _ & Hpages & _).
  destruct (se_pages e) as [|q qs] eqn:Hq; [done|].
  pose proof (stored_holders_pos k e q s He ltac:(rewrite Hq; by left)) as Hh. rewrite <- (co_refs _ Hc q) in Hh.
  unfold page_refs in Hh. rewrite <- Hp in Hh. change (1 <= 0) in Hh. lia.
Qed.

Definition reloaded (m : string) (dk : disk) : slice :=
  {| sl_entries := (load_model file_size m dk).1; sl_pages := (load_model file_size m dk).2; sl_disk := dk |}.

Lemma reload_ok m s :
  slice_ok m s ->
  slice_ok m (reloaded m (sl_disk s))
  /\ (forall k, dget k (sl_entries (reloaded m (sl_disk s))) = dget k (sl_entries s))
  /\ forall k, dget k (sl_pages (reloaded m (sl_disk s))) = dget k (sl_pages s).
Proof.
  intros Hok. unfold reloaded. rewrite (load_model_ok m s Hok). cbn [fst snd sl_entries sl_pages].
  destruct Hok as [Hs Hc]. pose proof (load_entries_synced m s Hs) as He. pose proof (load_pages_synced m s Hs) as Hp.
  split; [|done]. assert (Hnd : NoDup (dkeys (load_entries file_size m (sl_disk s)))) by apply NoDup_fold, NoDup_nil_2.
  split; [split|split]; cbn [sl_entries sl_pages sl_disk].
  - done.
  - apply NoDup_fold, NoDup_nil_2.
  - apply Hs.
  - eapply tracked_ext; [exact He|apply Hs].
  - eapply tracked_ext; [exact Hp|apply Hs].
  - intros k. unfold page_refs, entry_holders. cbn [sl_entries sl_pages]. rewrite Hp.
    rewrite (countb_permutation _ (sl_entries s)); [apply Hc|]. apply dict_permutation; [apply Hs|done|done].
  - intros k e. rewrite He. apply Hc.
Qed.

(** ** The store *)

Context (serialized_size : stored_prefix -> Z).
Context (used : string -> Prop).
Context (Hdirs : forall m m' d, used m -> used m' -> d ∈ model_dirs m -> d ∈ model_dirs m' -> m = m').

Definition store_ok (st : prefix_store) : Prop :=
  1 <= ps_page_size st /\ forall m, used m -> slice_ok m (slice_of file_size m st).

Lemma load_model_elsewhere ds m dk dk' :
  same_elsewhere ds dk dk' -> (forall d, d ∈ model_dirs m -> d ∉ ds) -> load_model file_size m dk' = load_model file_size m dk.
Proof.
  intros H Hd. assert (He : entry_files m dk' = entry_files m dk /\ page_files m dk' = page_files m dk).
  { unfold entry_files, page_files. split; f_equal; apply map_ext_in; intros d Hin%list_elem_of_In; by rewrite !H by auto. }
  unfold load_model, load_entries, load_pages. by destruct He as [-> ->].
Qed.

Lemma synced_elsewhere m s dk :
  synced m s -> NoDup (dkeys dk) -> (forall q : path, q.1.1 ∈ model_dirs m -> dget q dk = dget q (sl_disk s)) ->
  synced m (s <| sl_disk := dk |>).
Proof.
  intros Hs Hnd Hq. split; slice_fields; [apply Hs..|done| |].
  - eapply tracked_same_zone; [apply entry_places_zone| |apply Hs]. intros q [Hz _]. by apply Hq.
  - eapply tracked_same_zone; [apply page_places_zone| |apply Hs]. intros q [Hz _]. by apply Hq.
Qed.

Lemma slice_disk m st : sl_disk (slice_of file_size m st) = ps_disk st.
Proof. unfold slice_of. by destruct (match dget m _ with Some _ => _ | None => _ end). Qed.

Lemma slice_of_same m s st : ps_disk (with_slice m s st) = sl_disk s /\ slice_of file_size m (with_slice m s st) = s.
Proof. split; [done|]. unfold slice_of, with_slice. cbn. rewrite dget_dset_eq. by destruct s. Qed.

Lemma slice_of_other m m' s st :
  used m -> used m' -> m' <> m -> same_elsewhere (model_dirs m) (ps_disk st) (sl_disk s) ->
  slice_of file_size m' (with_slice m s st) = (slice_of file_size m' st) <| sl_disk := sl_disk s |>.
Proof using Hdirs.
  intros Hu Hu' Hne He. unfold slice_of, with_slice. cbn [ps_loaded ps_disk set_field].
  rewrite dget_dset_ne by done. destruct (dget m' (ps_loaded st)) as [[es ps]|]; [done|].
  rewrite (load_model_elsewhere _ _ _ _ He) by eauto. by destruct (load_model file_size m' (ps_disk st)).
Qed.

(** A step of one model keeps the store. *)
Lemma with_slice_ok m s st :
  store_ok st -> used m -> slice_ok m s -> same_elsewhere (model_dirs m) (ps_disk st) (sl_disk s) ->
  store_ok (with_slice m s st).
Proof using Hdirs.
  intros [Hps Hst] Hu Hok He. split; [done|]. intros m' Hu'. destruct (decide (m' = m)) as [->|Hne].
  - by rewrite (proj2 (slice_of_same m s st)).
  - rewrite slice_of_other by done. destruct (Hst m' Hu') as [Hs Hc]. split; [|by destruct Hc].
    apply synced_elsewhere; [done|apply Hok|]. intros q Hq. rewrite slice_disk. eapply dget_elsewhere; [done|]. eauto.
Qed.

Lemma kept_store m s st : store_ok st -> used m -> slice_ok m s -> kept m (slice_of file_size m st) s -> store_ok (with_slice m s st).
Proof using Hdirs. intros Hst Hu Hok [_ He]. apply with_slice_ok; [done..|]. by rewrite slice_disk in He. Qed.

(** What the callers of the store are trusted with: names of models in use, and
    prompts whose keys differ. *)
Definition op_ok (page_size : Z) (op : store_op) : Prop :=
  match op with
  | Lookup m _ _ | Preview m _ | Enforce m _ _ | Invalidate m _ _ | Count m => used m
  | Put m tokens _ _ _ _ =>
      used m /\ in_use (cache_key_for m tokens) /\ NoDup (page_keys_for m page_size tokens)
      /\ forall k, k ∈ page_keys_for m page_size tokens -> in_use k
  | Reopen _ => True
  end.

Lemma store_ok_run op st : store_ok st -> op_ok (ps_page_size st) op -> store_ok (run_store file_size serialized_size op st).
Proof using Hdirs Hkeys.
  intros Hst Hop. pose proof Hst as [Hps Hsl]. destruct op as [m p now|m p|m t pl est now a|m n a|m ck a|m|size]; cbn [run_store op_ok] in *.
  - unfold lookup_stored. pose proof (lookup_slice_spec (ps_page_size st) m p now _ (Hsl m Hop)) as (H1 & H2 & _).
    destruct (lookup_slice _ _ _ _ _ _) as [s r]. by apply kept_store.
  - by apply kept_store; [done|done|apply Hsl|apply kept_refl, Hsl].
  - destruct Hop as (Hu & Hk & Hnd & Huk). unfold put_stored. destruct t as [|z t]; [done|]. set (tokens := z :: t) in *.
    destruct (put_slice _ _ _ _ _ _ _ _ _ _) as [s r] eqn:Hput. rewrite <- descriptors_keys in Hnd, Huk.
    apply put_slice_spec in Hput as (H1 & H2 & _); [by apply kept_store|done|done|by apply Hsl|done..].
  - unfold enforce_limit. destruct (n <? 1) eqn:Hn; [done|bool_prop].
    destruct (enforce_slice _ _ _ _ _) as [s r] eqn:He.
    apply enforce_loop_spec in He as (H1 & H2 & _); [by apply kept_store|by apply Hsl|lia|done].
  - unfold invalidate_stored. destruct (invalidate_slice _ _ _ _ _) as [s r] eqn:He.
    apply invalidate_slice_spec in He as (H1 & H2 & _); [by apply kept_store|by apply Hsl].
  - by apply kept_store; [done|done|apply Hsl|apply kept_refl, Hsl].
  - split; [cbn; lia|]. intros m Hu. destruct (reload_ok m _ (Hsl m Hu)) as (H & _). rewrite slice_disk in H.
    unfold reloaded in H. unfold slice_of, open_store. cbn [ps_loaded ps_disk]. change (dget m []) with (@None (list (string * stored_prefix) * list (string * stored_page))).
    by destruct (load_model file_size m (ps_disk st)).
Qed.

(** Stores that come of a use, from a disk on which all is in order. *)
Inductive reachable : prefix_store -> Prop :=
| reach_open page_size dk : store_ok (open_store page_size dk) -> reachable (open_store page_size dk)
| reach_step op st : reachable st -> op_ok (ps_page_size st) op -> reachable (run_store file_size serialized_size op st).

Lemma reachable_ok st : reachable st -> store_ok st.
Proof using Hdirs Hkeys. induction 1; [done|by apply store_ok_run]. Qed.

Lemma slice_ok_empty m : slice_ok m {| sl_entries := []; sl_pages := []; sl_disk := [] |}.
Proof.
  split; split; cbn; try apply NoDup_nil_2; try done; split; by try intros q c _.
Qed.

Lemma load_model_empty m : load_model file_size m [] = ([], []).
Proof.
  unfold load_model, load_entries, load_pages, entry_files, page_files. by induction (model_dirs m).
Qed.

Lemma reach_empty page_size : reachable (open_store page_size []).
Proof.
  apply reach_open. split; [cbn; lia|]. intros m _. unfold slice_of, open_store. cbn [ps_loaded ps_disk].
  change (dget m []) with (@None (list (string * stored_prefix) * list (string * stored_page))).
  rewrite load_model_empty. apply slice_ok_empty.
Qed.
End invariant.

(** ** What the store promises

    The names in use must be told apart on disk: keys by the start of the digest that
    names their file, models by their directories. *)
Record names_apart (in_use used : string -> Prop) : Prop := {
  na_keys : distinct_keys in_use;
  na_dirs : forall m m' d, used m -> used m' -> d ∈ model_dirs m -> d ∈ model_dirs m' -> m = m'
}.

Section promises.
Context (file_size : file -> Z) (serialized_size : stored_prefix -> Z) (in_use used : string -> Prop).

(** C9. Pages on disk are counted by the entries that hold them.  The store is one that
    came of a use from an orderly disk ([reachable]: for instance an empty one), and the
    names it is used with are told apart on disk ([names_apart]: no two models share a
    directory, no two keys the start of a digest).  Then, whatever was stored, read,
    evicted, invalidated or restarted before, and however the models were mixed: in
    memory each page's count is the number of the model's entries with it, no page is
    kept that no entry holds, and none that one holds is missing; and the files of the
    model hold exactly these entries and pages, as they will be read back. *)
Theorem stored_pages_counted st m :
  names_apart in_use used -> reachable file_size in_use serialized_size used st -> used m ->
  let s := slice_of file_size m st in
  (forall k, page_refs k s = entry_holders k s)
  /\ (forall k, dmem k (sl_pages s) = true <-> exists c e, dget c (sl_entries s) = Some e /\ k ∈ se_pages e)
  /\ (forall e, e ∈ map snd (sl_entries s) <->
        exists q c, entry_zone m q /\ dget q (ps_disk st) = Some c /\ load_entry file_size m c = Some e)
  /\ (forall p, p ∈ map snd (sl_pages s) <->
        exists q c, page_zone m q /\ dget q (ps_disk st) = Some c /\ load_page file_size c = Some p).
Proof.
  intros [Hk Hd] Hr Hu s. apply reachable_ok in Hr as [_ Hsl]; [|done|done]. specialize (Hsl m Hu). fold s in Hsl.
  destruct Hsl as [Hs Hc]. assert (Hdisk : sl_disk s = ps_disk st) by apply slice_disk. split_and!.
  - apply Hc.
  - intros k. rewrite <- (negb_involutive (dmem k _)), <- (page_refs_zero _ _ _ _ _ Hs), (co_refs _ Hc).
    rewrite negb_true_iff, Z.eqb_neq. split.
    + intros Hne. destruct (countb_some (holds_page k) (sl_entries s) Hne) as ([c e] & Hin & Hh).
      exists c, e. split; [by apply dget_elem; [apply Hs|]|]. by apply bool_decide_eq_true in Hh.
    + intros (c & e & Hg & Hin). pose proof (stored_holders_pos c e k s Hg Hin). lia.
  - intros e. rewrite <- Hdisk. eapply tracked_files; [apply entry_places_zone|apply (sy_entry_files _ _ _ _ Hs)|apply Hs].
  - intros p. rewrite <- Hdisk. eapply tracked_files; [apply page_places_zone|apply (sy_page_files _ _ _ _ Hs)|apply Hs].
Qed.

(** C10. A restart loses nothing, of a store that came of a use from an orderly disk with
    names that are told apart on disk: the process that opens the same disk, with whatever
    page size, has the same entries and pages of every model, with their counts and
    clocks, and answers a prompt with an entry that matched it best before.  (Models that
    share a directory, and a disk without page files, are outside: see
    [colliding_models_share_payloads] and [rebuilt_pages_are_forgotten].) *)
Theorem store_survives_restart st m page_size :
  names_apart in_use used -> reachable file_size in_use serialized_size used st -> used m ->
  let s := slice_of file_size m st in
  let st' := run_store file_size serialized_size (Reopen page_size) st in
  let s' := slice_of file_size m st' in
  sl_entries s' ≡ₚ sl_entries s /\ sl_pages s' ≡ₚ sl_pages s
  /\ forall prompt, exists found,
       matches_best (Z.max page_size 1) m prompt s found
       /\ (preview_stored file_size m prompt st').2
          = match found with Some e => match se_payload e with Some _ => Some e | None => None end | None => None end.
Proof.
  intros [Hk Hd] Hr Hu s st' s'. pose proof (reachable_ok _ _ Hk _ _ Hd _ Hr) as Hst. destruct Hst as [Hps Hsl].
  specialize (Hsl m Hu). fold s in Hsl. destruct (reload_ok _ _ m s Hsl) as (Hok & He & Hp).
  assert (Hs' : s' = reloaded file_size m (sl_disk s)).
  { unfold s', s, st', reloaded, run_store, open_store, slice_of at 1. rewrite slice_disk. cbn [ps_loaded ps_disk].
    change (dget m []) with (@None (list (string * stored_prefix) * list (string * stored_page))).
    by destruct (load_model file_size m (ps_disk st)). }
  rewrite <- Hs' in Hok, He, Hp. split_and!.
  - apply dict_permutation; [apply Hsl|apply Hok|done].
  - apply dict_permutation; [apply Hsl|apply Hok|done].
  - intros prompt. unfold preview_stored. cbn [snd]. fold s'. unfold preview_slice.
    destruct (best_entry_match _ _ _ s') as [[found n] k] eqn:Hb. cbn [ps_page_size st' run_store open_store] in Hb.
    apply (best_entry_match_spec file_size in_use) in Hb; [|apply Hok]. exists found. split; [|done].
    destruct found as [e|]; cbn [matches_best] in *; [|by intros k' x; rewrite <- He; apply Hb].
    rewrite <- He. split_and!; [apply Hb|apply Hb|]. intros k' x. rewrite <- He. apply Hb.
Qed.

(** The limit on a model's entries is exact and evicts the least recently used:
    it is refused below one; otherwise as many entries are left as were there or as
    the limit allows, those evicted and those left are together what was there, the
    evicted ones are reported in the order of their last use (then of their last
    change, then of their key) and each was older than every one that is left, and
    the pages reported as evicted are those that are gone. *)
Theorem stored_limit_evicts_the_oldest st m n at_ :
  names_apart in_use used -> reachable file_size in_use serialized_size used st -> used m ->
  let s := slice_of file_size m st in
  match enforce_limit file_size m n at_ st with
  | Err e => e = BadLimit /\ n < 1
  | Ok (st', sum) =>
      let s' := slice_of file_size m st' in
      1 <= n
      /\ Z.of_nat (length (sl_entries s')) = Z.min (Z.of_nat (length (sl_entries s))) n
      /\ sl_entries s ≡ₚ map item (ev_entries sum) ++ sl_entries s'
      /\ StronglySorted (fun x y => older x y = true) (map item (ev_entries sum))
      /\ (forall x y, x ∈ map item (ev_entries sum) -> y ∈ sl_entries s' -> older x y = true)
      /\ Z.of_nat (length (sl_pages s')) + ev_page_count sum = Z.of_nat (length (sl_pages s))
  end.
Proof.
  intros [Hk Hd] Hr Hu s. pose proof (reachable_ok _ _ Hk _ _ Hd _ Hr) as [_ Hsl]. specialize (Hsl m Hu).
  unfold enforce_limit. fold s in Hsl |- *. destruct (n <? 1) eqn:Hn; [by bool_prop|].
  destruct (enforce_slice file_size m n at_ s) as [s' sum] eqn:He. bool_prop. cbn zeta.
  rewrite (proj2 (slice_of_same _ m s' st)). unfold enforce_slice in He.
  apply (enforce_loop_spec _ _ Hk) in He as (_ & _ & H1 & H2 & new & H3 & H4 & H5 & H6); [|done|lia|done].
  rewrite H3. cbn [app]. split_and!; [lia|done..|lia].
Qed.

(** What is stored is found, also after a restart: an entry of the prompt itself. *)
Theorem stored_prompt_is_found st m tokens payload estimated now at_ page_size st' r :
  names_apart in_use used -> reachable file_size in_use serialized_size used st ->
  op_ok in_use used (ps_page_size st) (Put m tokens payload estimated now at_) ->
  put_stored file_size serialized_size m tokens payload estimated now at_ st = Ok (st', r) ->
  let s := slice_of file_size m (run_store file_size serialized_size (Reopen page_size) st') in
  dget (cache_key_for m tokens) (sl_entries s) = Some (sv_entry r)
  /\ stored_as (ps_page_size st) m tokens payload now (sv_entry r).
Proof.
  intros Hna Hr Hop Hput s. pose proof Hna as [Hk Hd]. pose proof (reachable_ok _ _ Hk _ _ Hd _ Hr) as [Hps Hsl].
  pose proof Hop as (Hu & Hkey & Hnd & Huk).
  assert (Hr' : reachable file_size in_use serialized_size used st').
  { pose proof (reach_step _ _ _ _ _ st Hr Hop) as H. cbn [run_store] in H. by rewrite Hput in H. }
  destruct (store_survives_restart st' m page_size Hna Hr' Hu) as (Hperm & _). fold s in Hperm.
  unfold put_stored in Hput. destruct tokens as [|t ts]; [done|]. set (tokens := t :: ts) in *.
  destruct (put_slice _ _ _ _ _ _ _ _ _ _) as [s1 r1] eqn:Hp. rewrite <- descriptors_keys in Hnd, Huk.
  apply (put_slice_spec _ _ Hk) in Hp as (H1 & _ & H2 & H3); [|done|done|by apply Hsl|done..].
  injection Hput as <- <-. rewrite (proj2 (slice_of_same _ m s1 st)) in Hperm. split; [|done].
  apply dget_elem.
  - unfold dkeys. rewrite Hperm. apply H1.
  - rewrite Hperm. apply dget_Some_elem. by rewrite H3, decide_True.
Qed.
End promises.

(** ** A store in use *)

Section examples.
Definition ex_models : list string := Eval vm_compute in ["a/b"; "c"].
Definition ex_prompts : list (string * list Z) := [("a/b", [1; 2; 3]); ("a/b", [1; 2; 4]); ("c", [1; 2; 3])].
Definition ex_keys : list string := Eval vm_compute in
  concat (map (fun x => cache_key_for x.1 x.2 :: page_keys_for x.1 2 x.2) ex_prompts).
Definition ex_in_use (k : string) : Prop := k ∈ ex_keys.
Definition ex_used (m : string) : Prop := m ∈ ex_models.

Definition ex_puts : list store_op := Eval vm_compute in
  imap (fun i x => Put x.1 x.2 (PStr "kv") None (Z.of_nat i) (fun _ => 3)) ex_prompts.

Definition ex_size (f : file) : Z := 10.
Definition ex_store : prefix_store := foldl (fun st op => run_store ex_size (fun _ => 10) op st) (open_store 2 []) ex_puts.

Lemma ex_names : names_apart ex_in_use ex_used.
Proof.
  split; [split|].
  - assert (H : Forall (fun k => (CACHE_KEY_FILENAME_LENGTH < String.length k)%nat) ex_keys).
    { apply (bool_decide_unpack _). vm_compute. exact I. }
    intros k Hk. by apply (proj1 (Forall_forall _ _) H).
  - assert (H : Forall (fun k => Forall (fun k' => compact_filename k = compact_filename k' -> k = k') ex_keys) ex_keys).
    { apply (bool_decide_unpack _). vm_compute. exact I. }
    intros k k' Hk Hk'. apply (proj1 (Forall_forall _ _) (proj1 (Forall_forall _ _) H k Hk) k' Hk').
  - assert (H : Forall (fun m => Forall (fun m' => Forall (fun d => d ∈ model_dirs m' -> m = m') (model_dirs m)) ex_models) ex_models).
    { apply (bool_decide_unpack _). vm_compute. exact I. }
    intros m m' d Hm Hm' Hd Hd'.
    by apply (proj1 (Forall_forall _ _) (proj1 (Forall_forall _ _) (proj1 (Forall_forall _ _) H m Hm) m' Hm') d Hd).
Qed.

Lemma put_page_size size serialized m tokens payload estimated now at_ st :
  ps_page_size (run_store size serialized (Put m tokens payload estimated now at_) st) = ps_page_size st.
Proof.
  cbn [run_store]. unfold put_stored. destruct tokens; [done|]. by destruct (put_slice _ _ _ _ _ _ _ _ _ _).
Qed.

Lemma ex_reachable : reachable ex_size ex_in_use (fun _ => 10) ex_used ex_store.
Proof.
  assert (H : Forall (fun x => x.1 ∈ ex_models /\ cache_key_for x.1 x.2 ∈ ex_keys /\ NoDup (page_keys_for x.1 2 x.2)
                              /\ Forall (fun k => k ∈ ex_keys) (page_keys_for x.1 2 x.2)) ex_prompts).
  { apply (bool_decide_unpack _). vm_compute. exact I. }
  unfold ex_prompts in H. rewrite !Forall_cons in H. destruct H as (H1 & H2 & H3 & _). cbn [fst snd] in H1, H2, H3.
  unfold ex_store, ex_puts. cbn [foldl].
  apply reach_step; [apply reach_step; [apply reach_step; [apply reach_empty|]|]|]; rewrite ?put_page_size;
    cbn [op_ok open_store ps_page_size].
  - destruct H1 as (? & ? & ? & H). split_and!; [done..|exact (proj1 (Forall_forall _ _) H)].
  - destruct H2 as (? & ? & ? & H). split_and!; [done..|exact (proj1 (Forall_forall _ _) H)].
  - destruct H3 as (? & ? & ? & H). split_and!; [done..|exact (proj1 (Forall_forall _ _) H)].
Qed.

Lemma ex_used_ab : ex_used "a/b".
Proof. by left. Qed.

Lemma stored_pages_counted_witness :
  let s := slice_of ex_size "a/b" ex_store in
  map (fun k => page_refs k s) (page_keys_for "a/b" 2 [1; 2; 3]) = [2; 1]
  /\ (forall k, page_refs k s = entry_holders k s)
  /\ (forall k, dmem k (sl_pages s) = true <-> exists c e, dget c (sl_entries s) = Some e /\ k ∈ se_pages e)
  /\ (forall e, e ∈ map snd (sl_entries s) <->
        exists q c, entry_zone "a/b" q /\ dget q (ps_disk ex_store) = Some c /\ load_entry ex_size "a/b" c = Some e)
  /\ (forall p, p ∈ map snd (sl_pages s) <->
        exists q c, page_zone "a/b" q /\ dget q (ps_disk ex_store) = Some c /\ load_page ex_size c = Some p).
Proof.
  split; [vm_compute; reflexivity|].
  exact (stored_pages_counted _ _ _ _ ex_store "a/b" ex_names ex_reachable ex_used_ab).
Defined.

Lemma store_survives_restart_witness :
  let s := slice_of ex_size "a/b" ex_store in
  let s' := slice_of ex_size "a/b" (run_store ex_size (fun _ => 10) (Reopen 4) ex_store) in
  length (sl_entries s) = 2%nat /\ sl_entries s' ≡ₚ sl_entries s.
Proof.
  split; [vm_compute; reflexivity|].
  exact (proj1 (store_survives_restart _ _ _ _ ex_store "a/b" 4 ex_names ex_reachable ex_used_ab)).
Defined.

Lemma stored_limit_evicts_the_oldest_witness :
  match enforce_limit ex_size "a/b" 1 (fun _ => 9) ex_store with
  | Ok (st', sum) =>
      map se_tokens (ev_entries sum) = [[1; 2; 3]] /\ ev_page_count sum = 1
      /\ Z.of_nat (length (sl_entries (slice_of ex_size "a/b" st'))) = 1
  | Err _ => False
  end.
Proof.
  pose proof (stored_limit_evicts_the_oldest _ _ _ _ ex_store "a/b" 1 (fun _ => 9) ex_names ex_reachable ex_used_ab) as H.
  cbv zeta in H. assert (Hl : length (sl_entries (slice_of ex_size "a/b" ex_store)) = 2%nat) by (vm_compute; reflexivity).
  rewrite Hl in H. clear Hl.
  assert (He : match enforce_limit ex_size "a/b" 1 (fun _ => 9) ex_store with
               | Ok (_, sum) => map se_tokens (ev_entries sum) = [[1; 2; 3]] /\ ev_page_count sum = 1
               | Err _ => False
               end) by (vm_compute; split; reflexivity).
  destruct (enforce_limit ex_size "a/b" 1 (fun _ => 9) ex_store) as [[st' sum]|]; [|exact He].
  destruct H as (_ & H & _), He as [He1 He2]. split; [exact He1|]. split; [exact He2|]. exact H.
Defined.

(** Two names with one directory: what was stored for the one is found for the other
    after a restart, with the other's payload. *)
Theorem colliding_models_share_payloads :
  let st := run_store ex_size (fun _ => 10) (Put "org/model" [1; 2; 3] (PStr "kv of org/model") None 0 (fun _ => 0))
              (open_store 2 []) in
  (preview_stored ex_size "org-model" [1; 2; 3] (run_store ex_size (fun _ => 10) (Reopen 2) st)).2
    = Some {| se_key := cache_key_for "org/model" [1; 2; 3]; se_model := "org/model"; se_tokens := [1; 2; 3];
              se_pages := page_keys_for "org/model" 2 [1; 2; 3]; se_page_size := 2;
              se_payload := Some (JStr "kv of org/model"); se_bytes := 10; se_access := 0; se_created := 0;
              se_updated := 0; se_used := 0 |}
  /\ (preview_stored ex_size "org-model" [1; 2; 3] (open_store 2 [])).2 = None.
Proof. vm_compute. split; reflexivity. Qed.

(** A disk with entries but no pages, as an earlier version left it: the pages are
    rebuilt in memory only, so that after one lookup and a restart the pages of the
    entry looked up are all there is. *)
Definition ex_old_entry (tokens : list Z) : path * file :=
  (entry_path "m" (cache_key_for "m" tokens),
   EntryFile {| se_key := cache_key_for "m" tokens; se_model := "m"; se_tokens := tokens; se_pages := [];
                se_page_size := 2; se_payload := Some (JStr "kv"); se_bytes := 10; se_access := 0; se_created := 0;
                se_updated := 0; se_used := 0 |}).

Theorem rebuilt_pages_are_forgotten :
  let st := open_store 2 [ex_old_entry [1; 2]; ex_old_entry [3; 4]] in
  let st' := run_store ex_size (fun _ => 10) (Reopen 2) (run_store ex_size (fun _ => 10) (Lookup "m" [1; 2] 5) st) in
  dkeys (sl_pages (slice_of ex_size "m" st)) ≡ₚ page_keys_for "m" 2 [1; 2] ++ page_keys_for "m" 2 [3; 4]
  /\ dkeys (sl_pages (slice_of ex_size "m" st')) = page_keys_for "m" 2 [1; 2]
  /\ length (sl_entries (slice_of ex_size "m" st')) = 2%nat.
Proof.
  split; [|vm_compute; split; reflexivity]. apply (bool_decide_unpack _). vm_compute. exact I.
Qed.
End examples.
