(* ===== verification/EventSchema.v ===== *)
(** Stream events: src/src/lewlm/events/schema.py.

    [StreamEvent] is a pydantic model: constructing one runs the "after"
    validator [_populate_common_fields], which completes the attributes from
    the payload and the payload from the attributes.  The generated values
    ([event_id], [created_at]) and the ambient correlation identifier are
    arguments; the serializer [model_dump_json] is a parameter of
    [to_event_stream]. *)

From S2P Require Import Prelude Json.

(** ** Enumerations *)

Inductive event_scope := SYSTEM | REQUEST | JOB.

#[global] Instance event_scope_eq_dec : EqDecision event_scope.
Proof. solve_decision. Defined.

Inductive event_type :=
| SYSTEM_READY
| EVENTS_RESUMED
| OPERATION_PROGRESS
| REQUEST_ACCEPTED
| REQUEST_QUEUED
| REQUEST_FAILED
| REQUEST_COMPLETED
| PREFILL_STARTED
| MODEL_SCAN_STARTED
| MODEL_SCAN_COMPLETED
| MODEL_SCAN_FAILED
| MODEL_LOAD_REQUESTED
| MODEL_LOAD_JOINED
| MODEL_LOADING
| MODEL_LOADED
| MODEL_LOAD_FAILED
| MODEL_USAGE_ACQUIRED
| MODEL_USAGE_RELEASED
| MODEL_DRAIN_REQUESTED
| MODEL_DRAINING
| MODEL_UNLOAD_BLOCKED
| MODEL_UNLOADING
| MODEL_UNLOADED
| MODEL_UNLOAD_FAILED
| AUDIO_CHUNK
| AUDIO_TRANSCRIPTION_STARTED
| AUDIO_TRANSCRIPTION_COMPLETED
| AUDIO_TRANSCRIPTION_FAILED
| AUDIO_SPEECH_STARTED
| AUDIO_SPEECH_COMPLETED
| AUDIO_SPEECH_FAILED
| DOCUMENT_PARSE_STARTED
| DOCUMENT_PARSE_COMPLETED
| DOCUMENT_PARSE_FAILED
| DOCUMENT_RENDER_STARTED
| DOCUMENT_RENDER_COMPLETED
| DOCUMENT_RENDER_FAILED
| DOCUMENT_TRANSFORM_STARTED
| DOCUMENT_TRANSFORM_COMPLETED
| DOCUMENT_TRANSFORM_FAILED
| CLUSTER_TOKEN_ISSUED
| CLUSTER_WORKER_ENROLLED
| CLUSTER_WORKER_HEARTBEAT
| CLUSTER_PLAN_UPDATED
| CLUSTER_PIPELINE_STAGE_COMPLETED
| CLUSTER_PIPELINE_COMPLETED
| CLUSTER_WORKER_RECOVERED
| AUTOTUNE_COMPLETED
| TOKEN_DELTA
| REASONING_DELTA
| SPECULATION_STARTED
| SPECULATION_ACCEPTED
| TOOL_PENDING
| TOOL_STARTED
| TOOL_FINISHED
| TOOL_FAILED.
#[global] Instance event_type_eq_dec : EqDecision event_type.
Proof. solve_decision. Defined.

Definition event_type_value (t : event_type) : string :=
  match t with
  | SYSTEM_READY => "system.ready"
  | EVENTS_RESUMED => "events.resumed"
  | OPERATION_PROGRESS => "operation.progress"
  | REQUEST_ACCEPTED => "request.accepted"
  | REQUEST_QUEUED => "request.queued"
  | REQUEST_FAILED => "request.failed"
  | REQUEST_COMPLETED => "request.completed"
  | PREFILL_STARTED => "prefill.started"
  | MODEL_SCAN_STARTED => "model.scan.started"
  | MODEL_SCAN_COMPLETED => "model.scan.completed"
  | MODEL_SCAN_FAILED => "model.scan.failed"
  | MODEL_LOAD_REQUESTED => "model.load.requested"
  | MODEL_LOAD_JOINED => "model.load.joined"
  | MODEL_LOADING => "model.loading"
  | MODEL_LOADED => "model.loaded"
  | MODEL_LOAD_FAILED => "model.load.failed"
  | MODEL_USAGE_ACQUIRED => "model.usage.acquired"
  | MODEL_USAGE_RELEASED => "model.usage.released"
  | MODEL_DRAIN_REQUESTED => "model.drain.requested"
  | MODEL_DRAINING => "model.draining"
  | MODEL_UNLOAD_BLOCKED => "model.unload.blocked"
  | MODEL_UNLOADING => "model.unloading"
  | MODEL_UNLOADED => "model.unloaded"
  | MODEL_UNLOAD_FAILED => "model.unload.failed"
  | AUDIO_CHUNK => "audio.chunk"
  | AUDIO_TRANSCRIPTION_STARTED => "audio.transcription.started"
  | AUDIO_TRANSCRIPTION_COMPLETED => "audio.transcription.completed"
  | AUDIO_TRANSCRIPTION_FAILED => "audio.transcription.failed"
  | AUDIO_SPEECH_STARTED => "audio.speech.started"
  | AUDIO_SPEECH_COMPLETED => "audio.speech.completed"
  | AUDIO_SPEECH_FAILED => "audio.speech.failed"
  | DOCUMENT_PARSE_STARTED => "document.parse.started"
  | DOCUMENT_PARSE_COMPLETED => "document.parse.completed"
  | DOCUMENT_PARSE_FAILED => "document.parse.failed"
  | DOCUMENT_RENDER_STARTED => "document.render.started"
  | DOCUMENT_RENDER_COMPLETED => "document.render.completed"
  | DOCUMENT_RENDER_FAILED => "document.render.failed"
  | DOCUMENT_TRANSFORM_STARTED => "document.transform.started"
  | DOCUMENT_TRANSFORM_COMPLETED => "document.transform.completed"
  | DOCUMENT_TRANSFORM_FAILED => "document.transform.failed"
  | CLUSTER_TOKEN_ISSUED => "cluster.token.issued"
  | CLUSTER_WORKER_ENROLLED => "cluster.worker.enrolled"
  | CLUSTER_WORKER_HEARTBEAT => "cluster.worker.heartbeat"
  | CLUSTER_PLAN_UPDATED => "cluster.plan.updated"
  | CLUSTER_PIPELINE_STAGE_COMPLETED => "cluster.pipeline.stage.completed"
  | CLUSTER_PIPELINE_COMPLETED => "cluster.pipeline.completed"
  | CLUSTER_WORKER_RECOVERED => "cluster.worker.recovered"
  | AUTOTUNE_COMPLETED => "autotune.completed"
  | TOKEN_DELTA => "token.delta"
  | REASONING_DELTA => "reasoning.delta"
  | SPECULATION_STARTED => "speculation.started"
  | SPECULATION_ACCEPTED => "speculation.accepted"
  | TOOL_PENDING => "tool.pending"
  | TOOL_STARTED => "tool.started"
  | TOOL_FINISHED => "tool.finished"
  | TOOL_FAILED => "tool.failed"
  end.

Definition all_event_types : list event_type :=
  [ SYSTEM_READY; EVENTS_RESUMED; OPERATION_PROGRESS; REQUEST_ACCEPTED; REQUEST_QUEUED;
    REQUEST_FAILED; REQUEST_COMPLETED; PREFILL_STARTED; MODEL_SCAN_STARTED; MODEL_SCAN_COMPLETED;
    MODEL_SCAN_FAILED; MODEL_LOAD_REQUESTED; MODEL_LOAD_JOINED; MODEL_LOADING; MODEL_LOADED;
    MODEL_LOAD_FAILED; MODEL_USAGE_ACQUIRED; MODEL_USAGE_RELEASED; MODEL_DRAIN_REQUESTED;
    MODEL_DRAINING; MODEL_UNLOAD_BLOCKED; MODEL_UNLOADING; MODEL_UNLOADED; MODEL_UNLOAD_FAILED;
    AUDIO_CHUNK; AUDIO_TRANSCRIPTION_STARTED; AUDIO_TRANSCRIPTION_COMPLETED;
    AUDIO_TRANSCRIPTION_FAILED; AUDIO_SPEECH_STARTED; AUDIO_SPEECH_COMPLETED; AUDIO_SPEECH_FAILED;
    DOCUMENT_PARSE_STARTED; DOCUMENT_PARSE_COMPLETED; DOCUMENT_PARSE_FAILED;
    DOCUMENT_RENDER_STARTED; DOCUMENT_RENDER_COMPLETED; DOCUMENT_RENDER_FAILED;
    DOCUMENT_TRANSFORM_STARTED; DOCUMENT_TRANSFORM_COMPLETED; DOCUMENT_TRANSFORM_FAILED;
    CLUSTER_TOKEN_ISSUED; CLUSTER_WORKER_ENROLLED; CLUSTER_WORKER_HEARTBEAT; CLUSTER_PLAN_UPDATED;
    CLUSTER_PIPELINE_STAGE_COMPLETED; CLUSTER_PIPELINE_COMPLETED; CLUSTER_WORKER_RECOVERED;
    AUTOTUNE_COMPLETED; TOKEN_DELTA; REASONING_DELTA; SPECULATION_STARTED; SPECULATION_ACCEPTED;
    TOOL_PENDING; TOOL_STARTED; TOOL_FINISHED; TOOL_FAILED ].

(** ** Events *)

Record stream_event := {
  ev_id : string;
  ev_cursor : option string;
  ev_type : event_type;
  ev_scope : event_scope;
  ev_created_at : Z;
  ev_payload : list (string * json);
  ev_request_id : option string;
  ev_correlation_id : option string;
  ev_model_id : option string;
  ev_runtime : option string;
  ev_capability : option string;
  ev_operation : option string;
  ev_stage : option string;
  ev_status : option string
}.

#[global] Instance stream_event_eta : Eta stream_event := fun e =>
  Build_stream_event (ev_id e) (ev_cursor e) (ev_type e) (ev_scope e) (ev_created_at e)
    (ev_payload e) (ev_request_id e) (ev_correlation_id e) (ev_model_id e) (ev_runtime e)
    (ev_capability e) (ev_operation e) (ev_stage e) (ev_status e).

(** ** Inference *)

Definition payload_string (payload : list (string * json)) (key : string) : option string :=
  match dget key payload with
  | Some (JStr value) => if (value =? "")%string then None else Some value
  | _ => None
  end.

Definition capability_from_operation (operation : string) : option string :=
  if (operation =? "text.generation")%string then Some "chat"
  else if ((operation =? "embeddings") || (operation =? "rerank"))%string then Some operation
  else if (operation =? "audio.transcription")%string then Some "audio_transcription"
  else if (operation =? "audio.speech")%string then Some "audio_speech"
  else if String.prefix "document." operation then Some "documents"
  else if (operation =? "tool.execute")%string then Some "tool"
  else None.

Definition operation_from_capability (capability : option string) : option string :=
  match capability with
  | None => None
  | Some c =>
      if ((c =? "chat") || (c =? "streaming"))%string then Some "text.generation"
      else if ((c =? "embeddings") || (c =? "rerank"))%string then Some c
      else if (c =? "audio_transcription")%string then Some "audio.transcription"
      else if (c =? "audio_speech")%string then Some "audio.speech"
      else if (c =? "documents")%string then Some "document.operation"
      else if (c =? "tool")%string then Some "tool.execute"
      else None
  end.

Definition infer_event_capability (event_type : event_type) (payload : list (string * json))
    : option string :=
  match payload_string payload "operation" with
  | Some operation => capability_from_operation operation
  | None =>
      match event_type with
      | PREFILL_STARTED | TOKEN_DELTA | REASONING_DELTA | SPECULATION_STARTED |
        SPECULATION_ACCEPTED => Some "chat"
      | AUDIO_CHUNK | AUDIO_TRANSCRIPTION_STARTED | AUDIO_TRANSCRIPTION_COMPLETED |
        AUDIO_TRANSCRIPTION_FAILED => Some "audio_transcription"
      | AUDIO_SPEECH_STARTED | AUDIO_SPEECH_COMPLETED | AUDIO_SPEECH_FAILED => Some "audio_speech"
      | DOCUMENT_PARSE_STARTED | DOCUMENT_PARSE_COMPLETED | DOCUMENT_PARSE_FAILED |
        DOCUMENT_RENDER_STARTED | DOCUMENT_RENDER_COMPLETED | DOCUMENT_RENDER_FAILED |
        DOCUMENT_TRANSFORM_STARTED | DOCUMENT_TRANSFORM_COMPLETED |
        DOCUMENT_TRANSFORM_FAILED => Some "documents"
      | TOOL_PENDING | TOOL_STARTED | TOOL_FINISHED | TOOL_FAILED => Some "tool"
      | _ => None
      end
  end.

Definition infer_event_operation (event_type : event_type) (capability : option string)
    : option string :=
  match event_type with
  | DOCUMENT_PARSE_STARTED | DOCUMENT_PARSE_COMPLETED |
    DOCUMENT_PARSE_FAILED => Some "document.parse"
  | DOCUMENT_RENDER_STARTED | DOCUMENT_RENDER_COMPLETED |
    DOCUMENT_RENDER_FAILED => Some "document.render"
  | DOCUMENT_TRANSFORM_STARTED | DOCUMENT_TRANSFORM_COMPLETED |
    DOCUMENT_TRANSFORM_FAILED => Some "document.transform"
  | AUDIO_CHUNK | AUDIO_TRANSCRIPTION_STARTED | AUDIO_TRANSCRIPTION_COMPLETED |
    AUDIO_TRANSCRIPTION_FAILED => Some "audio.transcription"
  | AUDIO_SPEECH_STARTED | AUDIO_SPEECH_COMPLETED | AUDIO_SPEECH_FAILED => Some "audio.speech"
  | PREFILL_STARTED | TOKEN_DELTA | REASONING_DELTA | SPECULATION_STARTED |
    SPECULATION_ACCEPTED => Some "text.generation"
  | TOOL_PENDING | TOOL_STARTED | TOOL_FINISHED | TOOL_FAILED => Some "tool.execute"
  | _ => operation_from_capability capability
  end.

Definition infer_event_status (event_type : event_type) : option string :=
  match event_type with
  | SYSTEM_READY => Some "ready"
  | OPERATION_PROGRESS => Some "in_progress"
  | REQUEST_ACCEPTED => Some "accepted"
  | REQUEST_QUEUED => Some "queued"
  | REQUEST_FAILED => Some "failed"
  | REQUEST_COMPLETED => Some "completed"
  | MODEL_LOAD_REQUESTED | MODEL_DRAIN_REQUESTED => Some "requested"
  | MODEL_LOAD_JOINED => Some "joined"
  | MODEL_USAGE_ACQUIRED => Some "acquired"
  | MODEL_USAGE_RELEASED => Some "released"
  | MODEL_DRAINING => Some "draining"
  | MODEL_UNLOAD_BLOCKED => Some "blocked"
  | MODEL_UNLOADING => Some "started"
  | MODEL_UNLOADED => Some "completed"
  | PREFILL_STARTED => Some "prefill_started"
  | SPECULATION_STARTED => Some "started"
  | SPECULATION_ACCEPTED => Some "completed"
  | MODEL_SCAN_STARTED | MODEL_LOADING => Some "started"
  | MODEL_SCAN_COMPLETED | MODEL_LOADED | AUDIO_TRANSCRIPTION_COMPLETED |
    AUDIO_SPEECH_COMPLETED | DOCUMENT_PARSE_COMPLETED | DOCUMENT_RENDER_COMPLETED |
    DOCUMENT_TRANSFORM_COMPLETED | AUTOTUNE_COMPLETED | TOOL_FINISHED => Some "completed"
  | MODEL_SCAN_FAILED | MODEL_LOAD_FAILED | MODEL_UNLOAD_FAILED | AUDIO_TRANSCRIPTION_FAILED |
    AUDIO_SPEECH_FAILED | DOCUMENT_PARSE_FAILED | DOCUMENT_RENDER_FAILED |
    DOCUMENT_TRANSFORM_FAILED | TOOL_FAILED => Some "failed"
  | AUDIO_TRANSCRIPTION_STARTED | AUDIO_SPEECH_STARTED | DOCUMENT_PARSE_STARTED |
    DOCUMENT_RENDER_STARTED | DOCUMENT_TRANSFORM_STARTED | TOOL_STARTED |
    TOOL_PENDING => Some "started"
  | TOKEN_DELTA | REASONING_DELTA | AUDIO_CHUNK => Some "streaming"
  | _ => None
  end.

(** ** Construction: [_populate_common_fields] *)

Definition setdefault (key : string) (value : json) (payload : list (string * json))
    : list (string * json) :=
  if dmem key payload then payload else payload ++ [(key, value)].

(** The eight [if x is not None: payload.setdefault(...)] of the validator. *)
Definition fill_payload (payload : list (string * json)) (fields : list (string * option string))
    : list (string * json) :=
  foldl (fun p '(key, value) =>
           match value with
           | Some s => setdefault key (JStr s) p
           | None => p
           end) payload fields.

Definition common_fields (e : stream_event) : list (string * option string) :=
  [ ("request_id", ev_request_id e); ("correlation_id", ev_correlation_id e);
    ("model_id", ev_model_id e); ("runtime", ev_runtime e);
    ("capability", ev_capability e); ("operation", ev_operation e);
    ("stage", ev_stage e); ("status", ev_status e) ].

Definition populate_common_fields (current_correlation_id : option string) (e : stream_event)
    : stream_event :=
  let payload := ev_payload e in
  let capability :=
    or_else (or_else (ev_capability e) (payload_string payload "capability"))
            (infer_event_capability (ev_type e) payload) in
  let e := e
    <| ev_request_id := or_else (ev_request_id e) (payload_string payload "request_id") |>
    <| ev_correlation_id :=
         or_else (or_else (ev_correlation_id e) (payload_string payload "correlation_id"))
                 current_correlation_id |>
    <| ev_model_id := or_else (ev_model_id e) (payload_string payload "model_id") |>
    <| ev_runtime := or_else (ev_runtime e) (payload_string payload "runtime") |>
    <| ev_capability := capability |>
    <| ev_operation :=
         or_else (or_else (ev_operation e) (payload_string payload "operation"))
                 (infer_event_operation (ev_type e) capability) |>
    <| ev_stage := or_else (ev_stage e) (payload_string payload "stage") |>
    <| ev_status :=
         or_else (or_else (ev_status e) (payload_string payload "status"))
                 (infer_event_status (ev_type e)) |> in
  e <| ev_payload := fill_payload payload (common_fields e) |>.

(** The server-sent-events frame. *)
Definition newline : string := String (Ascii.ascii_of_nat 10) EmptyString.

Definition to_event_stream (model_dump_json : stream_event -> string) (e : stream_event) : string :=
  let id_line := match ev_cursor e with
                 | Some c => "id: " +:+ c +:+ newline
                 | None => ""
                 end in
  id_line +:+ "event: " +:+ event_type_value (ev_type e) +:+ newline
    +:+ "data: " +:+ model_dump_json e +:+ newline +:+ newline.

(** ** The payload after construction *)

Section payload.
Context (p : list (string * json)).

Lemma setdefault_get k k' v :
    dget k (setdefault k' v p)
    = match dget k p with Some w => Some w | None => if decide (k = k') then Some v else None end.
  Proof.
    unfold setdefault, dmem. destruct (dget k' p) as [w|] eqn:Hk'.
    - case_decide as Heq; [subst; by rewrite Hk'|by destruct (dget k p)].
    - rewrite <- dset_new by (by apply dget_None). case_decide as Heq.
      + subst. by rewrite dget_dset_eq, Hk'.
      + rewrite dget_dset_ne by done. by destruct (dget k p).
  Qed.

Lemma setdefault_present k v : dmem k p = true -> setdefault k v p = p.
  Proof. unfold setdefault. by intros ->. Qed.
End payload.

Lemma fill_payload_cons p k a fields :
  fill_payload p ((k, a) :: fields)
  = fill_payload (match a with Some s => setdefault k (JStr s) p | None => p end) fields.
Proof. done. Qed.

Lemma fill_payload_keeps fields p k w :
  dget k p = Some w -> dget k (fill_payload p fields) = Some w.
Proof.
  revert p. induction fields as [|[k' [s|]] fields IH]; intros p Hp; [done| |];
    rewrite fill_payload_cons; apply IH; [|done].
  by rewrite setdefault_get, Hp.
Qed.

Lemma fill_payload_adds fields p k s :
  (k, Some s) ∈ fields -> dmem k (fill_payload p fields) = true.
Proof.
  revert p. induction fields as [|[k' a] fields IH]; intros p Hin; [by apply not_elem_of_nil in Hin|].
  rewrite fill_payload_cons. apply elem_of_cons in Hin as [[= <- <-]|Hin]; [|by apply IH].
  unfold dmem. destruct (dget k (setdefault k (JStr s) p)) as [w|] eqn:Hw.
  - by rewrite (fill_payload_keeps _ _ _ _ Hw).
  - rewrite setdefault_get, decide_True in Hw by done. by destruct (dget k p).
Qed.

Lemma fill_payload_misses fields p k :
  dget k p = None -> (forall s, (k, Some s) ∉ fields) -> dget k (fill_payload p fields) = None.
Proof.
  revert p. induction fields as [|[k' a] fields IH]; intros p Hp Hn; [done|].
  rewrite fill_payload_cons. apply IH.
  - destruct a as [s|]; [|done]. rewrite setdefault_get, Hp, decide_False; [done|].
    intros <-. apply (Hn s). by left.
  - intros s Hs. apply (Hn s). by right.
Qed.

Lemma fill_payload_id fields p :
  (forall k s, (k, Some s) ∈ fields -> dmem k p = true) -> fill_payload p fields = p.
Proof.
  induction fields as [|[k a] fields IH]; intros H; [done|].
  rewrite fill_payload_cons. destruct a as [s|].
  - rewrite setdefault_present by (apply (H k s); by left). apply IH. intros. eapply H. by right.
  - apply IH. intros. eapply H. by right.
Qed.

Lemma payload_string_truthy p k : payload_string p k = None \/ truthy (payload_string p k) = true.
Proof.
  unfold payload_string. destruct (dget k p) as [[]|]; auto.
  destruct (s =? "")%string eqn:E; [by left|right]. simpl. by rewrite E.
Qed.

Lemma payload_string_same p p' k : dget k p = dget k p' -> payload_string p k = payload_string p' k.
Proof. unfold payload_string. by intros ->. Qed.

Definition settled (a : option string) : Prop := a = None \/ truthy a = true.

Lemma or_else_settled a b : settled b -> settled (or_else a b).
Proof. unfold or_else, settled. destruct (truthy a) eqn:E; auto. Qed.

Lemma or_else_falsy_inv a b :
  truthy (or_else a b) = false -> truthy a = false /\ truthy b = false.
Proof. unfold or_else. destruct (truthy a) eqn:E; [congruence|auto]. Qed.

(** Completing a settled attribute again with nothing new changes nothing. *)
Lemma or_else_stable a b : settled a -> (a = None -> b = None) -> or_else a b = a.
Proof. unfold or_else. intros [-> | ->]; [|done]. intros H. by rewrite H. Qed.

Lemma settled_infer_status t : settled (infer_event_status t).
Proof. destruct t; first [by left | by right]. Qed.

Lemma settled_capability_from_operation o : settled (capability_from_operation o).
Proof.
  unfold capability_from_operation. repeat case_if; try (by right); try (by left).
  right. simpl. destruct o; [by rewrite orb_true_iff in *; naive_solver|done].
Qed.

Lemma settled_infer_capability t p : settled (infer_event_capability t p).
Proof.
  unfold infer_event_capability. destruct (payload_string p "operation").
  - apply settled_capability_from_operation.
  - destruct t; first [by left | by right].
Qed.

Lemma settled_operation_from_capability c : settled (operation_from_capability c).
Proof.
  unfold operation_from_capability. destruct c as [c|]; [|by left].
  repeat case_if; try (by right); try (by left).
  right. simpl. destruct c; [by rewrite orb_true_iff in *; naive_solver|done].
Qed.

Lemma settled_infer_operation t c : settled (infer_event_operation t c).
Proof.
  unfold infer_event_operation. destruct t; try (by right);
    apply settled_operation_from_capability.
Qed.

(** An attribute is settled when it is absent or a non-empty string; every
    attribute of a populated event is. *)
Lemma settle_one a x y :
  a = or_else x y -> settled y -> settled a /\ (a = None -> y = None).
Proof.
  intros -> Hy. split; [by apply or_else_settled|].
  intros Ho. destruct (or_else_falsy_inv x y) as [_ Hf]; [by rewrite Ho|].
  destruct Hy; [done|congruence].
Qed.

Lemma settle_two a x y z :
  a = or_else (or_else x y) z -> settled y -> settled z ->
  settled a /\ (a = None -> truthy x = false /\ y = None /\ z = None).
Proof.
  intros Ha Hy Hz. destruct (settle_one _ _ _ Ha Hz) as [Hs Hz'].
  split; [done|]. intros Hn. split_and!; [| |auto].
  - rewrite Hn in Ha. symmetry in Ha. destruct (or_else_falsy_inv (or_else x y) z) as [Hxy _]; [by rewrite Ha|].
    by apply or_else_falsy_inv in Hxy as [? _].
  - rewrite Hn in Ha. symmetry in Ha. destruct (or_else_falsy_inv (or_else x y) z) as [Hxy _]; [by rewrite Ha|].
    apply or_else_falsy_inv in Hxy as [_ Hf]. destruct Hy; [done|congruence].
Qed.

(** What [populate_common_fields] computes, attribute by attribute. *)
Record populated (corr : option string) (e e' : stream_event) : Prop := {
  pop_same : (ev_id e', ev_cursor e', ev_type e', ev_scope e', ev_created_at e')
             = (ev_id e, ev_cursor e, ev_type e, ev_scope e, ev_created_at e);
  pop_request_id : ev_request_id e' = or_else (ev_request_id e) (payload_string (ev_payload e) "request_id");
  pop_correlation_id :
    ev_correlation_id e'
    = or_else (or_else (ev_correlation_id e) (payload_string (ev_payload e) "correlation_id")) corr;
  pop_model_id : ev_model_id e' = or_else (ev_model_id e) (payload_string (ev_payload e) "model_id");
  pop_runtime : ev_runtime e' = or_else (ev_runtime e) (payload_string (ev_payload e) "runtime");
  pop_capability :
    ev_capability e'
    = or_else (or_else (ev_capability e) (payload_string (ev_payload e) "capability"))
              (infer_event_capability (ev_type e) (ev_payload e));
  pop_operation :
    ev_operation e'
    = or_else (or_else (ev_operation e) (payload_string (ev_payload e) "operation"))
              (infer_event_operation (ev_type e) (ev_capability e'));
  pop_stage : ev_stage e' = or_else (ev_stage e) (payload_string (ev_payload e) "stage");
  pop_status :
    ev_status e' = or_else (or_else (ev_status e) (payload_string (ev_payload e) "status"))
                           (infer_event_status (ev_type e));
  pop_payload : ev_payload e' = fill_payload (ev_payload e) (common_fields e')
}.

Lemma populate_populated corr e : populated corr e (populate_common_fields corr e).
Proof. by constructor. Qed.

Lemma payload_string_settled p k : settled (payload_string p k).
Proof. unfold settled. destruct (payload_string_truthy p k); auto. Qed.

(** A string the payload did not have and that no attribute adds is still absent. *)
Lemma still_absent p fields k :
  payload_string p k = None -> (forall s, (k, Some s) ∉ fields) ->
  payload_string (fill_payload p fields) k = None.
Proof.
  intros Hnone Hmiss. destruct (dget k p) as [w|] eqn:Hk.
  - rewrite <- Hnone. apply payload_string_same. rewrite Hk. by apply fill_payload_keeps.
  - unfold payload_string. by rewrite fill_payload_misses.
Qed.

Ltac field_absent :=
  intros ? Hin; repeat (apply elem_of_cons in Hin as [Hin|Hin]; [simplify_eq; congruence|]);
  by apply not_elem_of_nil in Hin.

(** The four attributes that come from the payload only. *)
Ltac again_from_payload H1 H2 pop :=
  let Hs := fresh "Hs" in let Hn := fresh "Hn" in let Ha := fresh "Ha" in
  destruct (settle_one _ _ _ (pop _ _ _ H1)) as [Hs Hn]; [apply payload_string_settled|];
  rewrite (pop _ _ _ H2), (pop_payload _ _ _ H1); apply or_else_stable; [done|];
  intros Ha; apply still_absent; [auto|field_absent].

Section again.
Context (corr corr' : option string) (e e' e'' : stream_event).
Context (Hcorr : settled corr) (Hcorr' : corr' = corr \/ corr' = None).
Context (H1 : populated corr e e') (H2 : populated corr' e' e'').
Context (Hop : truthy (ev_operation e) = false \/ truthy (ev_capability e') = true).

Lemma type_same : ev_type e' = ev_type e.
  Proof. pose proof (pop_same _ _ _ H1). congruence. Qed.

Lemma request_id_again : ev_request_id e'' = ev_request_id e'.
  Proof. again_from_payload H1 H2 pop_request_id. Qed.

Lemma model_id_again : ev_model_id e'' = ev_model_id e'.
  Proof. again_from_payload H1 H2 pop_model_id. Qed.

Lemma runtime_again : ev_runtime e'' = ev_runtime e'.
  Proof. again_from_payload H1 H2 pop_runtime. Qed.

Lemma stage_again : ev_stage e'' = ev_stage e'.
  Proof. again_from_payload H1 H2 pop_stage. Qed.

Lemma status_again : ev_status e'' = ev_status e'.
  Proof.
    destruct (settle_two _ _ _ _ (pop_status _ _ _ H1)) as [Hs Hn];
      [apply payload_string_settled|apply settled_infer_status|].
    rewrite (pop_status _ _ _ H2), (pop_payload _ _ _ H1), type_same.
    rewrite (or_else_stable (ev_status e')); [apply or_else_stable; [done|tauto]|done|].
    intros Ha. apply still_absent; [tauto|field_absent].
  Qed.

Lemma correlation_id_again : ev_correlation_id e'' = ev_correlation_id e'.
  Proof.
    destruct (settle_two _ _ _ _ (pop_correlation_id _ _ _ H1)) as [Hs Hn];
      [apply payload_string_settled|done|].
    rewrite (pop_correlation_id _ _ _ H2), (pop_payload _ _ _ H1).
    rewrite (or_else_stable (ev_correlation_id e'));
      [apply or_else_stable; [done|destruct Hcorr' as [-> | ->]; tauto]|done|].
    intros Ha. apply still_absent; [tauto|field_absent].
  Qed.

Lemma operation_again_absent : ev_capability e' = None ->
    infer_event_capability (ev_type e) (ev_payload e') = None.
  Proof.
    intros Hcap. destruct (settle_two _ _ _ _ (pop_capability _ _ _ H1)) as [_ Hn];
      [apply payload_string_settled|apply settled_infer_capability|].
    destruct (Hn Hcap) as (_ & _ & Hinf). rewrite (pop_payload _ _ _ H1).
    destruct Hop as [Hop'|Hop']; [|by rewrite Hcap in Hop'].
    unfold infer_event_capability in *.
    destruct (payload_string (ev_payload e) "operation") as [o|] eqn:Hps.
    - rewrite (payload_string_same _ (ev_payload e)), Hps; [done|].
      destruct (dget "operation" (ev_payload e)) as [w|] eqn:Hk; [by apply fill_payload_keeps|].
      unfold payload_string in Hps. by rewrite Hk in Hps.
    - assert (Hop'' : ev_operation e' = None).
      { rewrite (pop_operation _ _ _ H1), Hps, Hcap, (or_else_falsy (ev_operation e)) by done.
        unfold or_else. simpl. by destruct (ev_type e). }
      rewrite still_absent; [done|done|field_absent].
  Qed.

Lemma capability_again : ev_capability e'' = ev_capability e'.
  Proof.
    destruct (settle_two _ _ _ _ (pop_capability _ _ _ H1)) as [Hs Hn];
      [apply payload_string_settled|apply settled_infer_capability|].
    rewrite (pop_capability _ _ _ H2), type_same.
    rewrite (or_else_stable (ev_capability e'));
      [apply or_else_stable; [done|apply operation_again_absent]|done|].
    rewrite (pop_payload _ _ _ H1). intros Ha. apply still_absent; [tauto|field_absent].
  Qed.

Lemma operation_again : ev_operation e'' = ev_operation e'.
  Proof.
    destruct (settle_two _ _ _ _ (pop_operation _ _ _ H1)) as [Hs Hn];
      [apply payload_string_settled|apply settled_infer_operation|].
    rewrite (pop_operation _ _ _ H2), (pop_payload _ _ _ H1), type_same, capability_again.
    rewrite (or_else_stable (ev_operation e')); [apply or_else_stable; [done|tauto]|done|].
    intros Ha. apply still_absent; [tauto|field_absent].
  Qed.

Lemma common_fields_again : common_fields e'' = common_fields e'.
  Proof.
    unfold common_fields.
    by rewrite request_id_again, correlation_id_again, model_id_again, runtime_again,
      capability_again, operation_again, stage_again, status_again.
  Qed.

Lemma payload_again : ev_payload e'' = ev_payload e'.
  Proof.
    rewrite (pop_payload _ _ _ H2), common_fields_again. apply fill_payload_id.
    intros k s Hin. rewrite (pop_payload _ _ _ H1). by eapply fill_payload_adds.
  Qed.
End again.

Lemma stream_event_ext e1 e2 :
  (ev_id e1, ev_cursor e1, ev_type e1, ev_scope e1, ev_created_at e1)
  = (ev_id e2, ev_cursor e2, ev_type e2, ev_scope e2, ev_created_at e2) ->
  ev_payload e1 = ev_payload e2 -> common_fields e1 = common_fields e2 -> e1 = e2.
Proof.
  destruct e1, e2. unfold common_fields. simpl. intros H1 H2 H3.
  injection H1. injection H3. intros. by subst.
Qed.

(** Completing an event is idempotent: an event whose missing attributes
    were filled in from its payload, its type and the ambient correlation
    identifier is left unchanged by the validator when it is read back, in the
    same context or by a client that has none.  The one exception the code has
    is an event built with an explicit [operation] attribute and no capability
    to be found: its capability is only inferred on the second reading. *)
Theorem populate_idempotent corr corr' e :
  settled corr -> corr' = corr \/ corr' = None ->
  truthy (ev_operation e) = false
    \/ truthy (ev_capability (populate_common_fields corr e)) = true ->
  populate_common_fields corr' (populate_common_fields corr e) = populate_common_fields corr e.
Proof.
  intros Hcorr Hcorr' Hop.
  pose proof (populate_populated corr e) as H1.
  pose proof (populate_populated corr' (populate_common_fields corr e)) as H2.
  apply stream_event_ext.
  - apply (pop_same _ _ _ H2).
  - by eapply payload_again.
  - by eapply common_fields_again.
Qed.

(** A tool event with an identifier in its payload, read back by a client. *)
Definition sample_event : stream_event :=
  Build_stream_event "e1" None TOOL_FINISHED REQUEST 0 [("request_id", JStr "r1"); ("n", JInt 3)]
    None None (Some "m") None None None None None.

Lemma populate_idempotent_witness :
  ev_status (populate_common_fields (Some "corr") sample_event) = Some "completed" /\
  populate_common_fields None (populate_common_fields (Some "corr") sample_event)
  = populate_common_fields (Some "corr") sample_event.
Proof.
  split; [reflexivity|].
  apply (populate_idempotent (Some "corr") None sample_event);
    [by right|by right|by left].
Defined.
