(* ===== verification/EventBus.v ===== *)
(** The in-process event bus: src/src/lewlm/events/bus.py, with the filters of
    src/src/lewlm/events/filters.py.

    The bus is a record; the queues of its subscriptions are objects of a store
    indexed by subscription identifier, since a consumer keeps its queue after
    it unsubscribes.  Publishing runs on the loop thread and the queues are
    unbounded, so [await queue.put] never suspends and every operation is one
    atomic step.  The epoch and the subscription identifiers ([uuid4]) are
    arguments.  Cursors are ASCII strings. *)

From S2P Require Import Prelude PyString Json EventSchema.

(** ** Filters *)

Record event_filter := {
  types : list event_type;
  scopes : list event_scope;
  request_ids : list string;
  model_ids : list string;
  excluded_types : list event_type
}.

Definition no_filter : event_filter := Build_event_filter [] [] [] [] [].

(** [value in ids] where [value] may be [None]: no identifier set holds [None]. *)
Definition opt_member (x : option string) (s : list string) : bool :=
  match x with Some v => member v s | None => false end.

Definition is_empty (f : event_filter) : bool :=
  negb (nonempty (types f) || nonempty (scopes f) || nonempty (request_ids f)
        || nonempty (model_ids f) || nonempty (excluded_types f)).

Definition matches (f : event_filter) (e : stream_event) : bool :=
  if nonempty (types f) && negb (member (ev_type e) (types f)) then false
  else if member (ev_type e) (excluded_types f) then false
  else if nonempty (scopes f) && negb (member (ev_scope e) (scopes f)) then false
  else if nonempty (request_ids f) && negb (opt_member (ev_request_id e) (request_ids f)) then false
  else if nonempty (model_ids f) && negb (opt_member (ev_model_id e) (model_ids f)) then false
  else true.

Definition admits (f : event_filter) (e : stream_event) : bool := is_empty f || matches f e.

(** ** Cursors *)

Inductive bus_error :=
| InvalidRequestError (message : string) (cursor : string) (latest : option string)
| ValueError.

Definition py_int (s : string) : result bus_error N :=
  match int_of_digits s with Some n => Ok n | None => Err ValueError end.

Definition colon : Ascii.ascii := Ascii.ascii_of_nat 58.

Definition parse_cursor (value : string) : result bus_error (string * N) :=
  let '(epoch, separator, sequence_text) := partition colon (strip value) in
  if negb separator || (epoch =? "")%string || negb (isdigit sequence_text)
  then Err (InvalidRequestError "Event cursor is not one this server issued." value None)
  else let? n := py_int sequence_text in Ok (epoch, n).

(** ** State *)

Record subscriber := { sub_queue : string; sub_filter : event_filter }.

(** An [asyncio.Queue]: what it holds, and (history) what was taken from it. *)
Record queue := { q_taken : list stream_event; q_items : list stream_event }.

Definition empty_queue : queue := Build_queue [] [].

#[global] Instance queue_eta : Eta queue := fun q => Build_queue (q_taken q) (q_items q).

(** The attributes of [EventBus], then the objects it shares with the rest of
    the process: the queues, the callbacks waiting on each event loop and the
    loops that are closed.  [w_published] records the stamped events (history). *)
Record bus := {
  b_subscribers : list (string * subscriber);
  b_loop : option nat;
  b_epoch : string;
  b_sequence : N;
  b_replay_buffer_size : nat;
  b_buffer : list (N * stream_event);
  w_queues : gmap string queue;
  w_callbacks : list (nat * stream_event);
  w_closed_loops : gset nat;
  w_published : list stream_event
}.

#[global] Instance bus_eta : Eta bus := fun b =>
  Build_bus (b_subscribers b) (b_loop b) (b_epoch b) (b_sequence b) (b_replay_buffer_size b)
    (b_buffer b) (w_queues b) (w_callbacks b) (w_closed_loops b) (w_published b).

Definition init_bus (epoch : string) (replay_buffer_size : Z) : bus :=
  Build_bus [] None epoch 0 (Z.to_nat (Z.max 0 replay_buffer_size)) [] ∅ [] ∅ [].

(** ** Operations *)

Definition loop_is_closed (b : bus) (loop : nat) : bool := bool_decide (loop ∈ w_closed_loops b).

Definition attach_loop (loop : nat) (b : bus) : bus :=
  b <| b_loop := if loop_is_closed b loop then None else Some loop |>.

(** [self._loop is None or self._loop.is_closed()]. *)
Definition loop_unusable (b : bus) : bool :=
  match b_loop b with None => true | Some l => loop_is_closed b l end.

Definition ensure_loop (running : nat) (b : bus) : bus :=
  if loop_unusable b then b <| b_loop := Some running |> else b.

Definition cursor_of (epoch : string) (sequence : N) : string :=
  epoch +:+ ":" +:+ str_of_N sequence.

Definition latest_cursor (b : bus) : option string :=
  if (b_sequence b =? 0)%N then None else Some (cursor_of (b_epoch b) (b_sequence b)).

(** [deque.append] with a [maxlen]. *)
Definition deque_append {A} (maxlen : nat) (x : A) (d : list A) : list A :=
  let d := d ++ [x] in drop (length d - maxlen) d.

Definition stamp (e : stream_event) (b : bus) : bus * stream_event :=
  let sequence := (b_sequence b + 1)%N in
  let stamped := e <| ev_cursor := Some (cursor_of (b_epoch b) sequence) |> in
  (b <| b_sequence := sequence |>
     <| b_buffer := deque_append (b_replay_buffer_size b) (sequence, stamped) (b_buffer b) |>
     <| w_published := w_published b ++ [stamped] |>, stamped).

Definition queue_put (e : stream_event) (q : queue) : queue := q <| q_items := q_items q ++ [e] |>.

Definition matching_subscribers (b : bus) (e : stream_event) : list subscriber :=
  List.filter (fun s => admits (sub_filter s) e) (map snd (b_subscribers b)).

Definition put_all (e : stream_event) (subs : list subscriber) (qs : gmap string queue)
    : gmap string queue :=
  foldl (fun qs s => alter (queue_put e) (sub_queue s) qs) qs subs.

Definition publish_nowait (e : stream_event) (b : bus) : bus :=
  let '(b, stamped) := stamp e b in
  b <| w_queues := put_all stamped (matching_subscribers b stamped) (w_queues b) |>.

Definition publish (running : nat) (e : stream_event) (b : bus) : bus :=
  publish_nowait e (ensure_loop running b).

(** [call_soon_threadsafe] raises [RuntimeError] when the loop was closed after
    the check: [closed_meanwhile]. *)
Definition publish_threadsafe (closed_meanwhile : bool) (e : stream_event) (b : bus) : bus :=
  match b_loop b with
  | None => b
  | Some l =>
      if loop_is_closed b l then b
      else if closed_meanwhile
           then b <| b_loop := None |> <| w_closed_loops := {[l]} ∪ w_closed_loops b |>
                  <| w_callbacks := List.filter (fun c => negb (bool_decide (c.1 = l))) (w_callbacks b) |>
           else b <| w_callbacks := w_callbacks b ++ [(l, e)] |>
  end.

(** The event loop runs the oldest callback it was given. *)
Definition run_callback (b : bus) : bus :=
  match w_callbacks b with
  | [] => b
  | (_, e) :: rest => publish_nowait e (b <| w_callbacks := rest |>)
  end.

(** Closing an event loop drops the callbacks it has not run. *)
Definition close_loop (loop : nat) (b : bus) : bus :=
  b <| w_closed_loops := {[loop]} ∪ w_closed_loops b |>
    <| w_callbacks := List.filter (fun c => negb (bool_decide (c.1 = loop))) (w_callbacks b) |>.

(** The [events.resumed] marker, validated like every event. *)
Definition resumed_marker (ctx : option string * string * Z) (b : bus) (after : string)
    (replayed : nat) (lost : option N) : stream_event :=
  let '(correlation_id, event_id, now) := ctx in
  populate_common_fields correlation_id
    (Build_stream_event event_id None EVENTS_RESUMED SYSTEM now
       [("after", JStr after); ("replayed", JInt (Z.of_nat replayed));
        ("lost", match lost with Some n => JInt (Z.of_N n) | None => JNull end);
        ("latest", match latest_cursor b with Some c => JStr c | None => JNull end);
        ("retained", JInt (Z.of_nat (length (b_buffer b))));
        ("replay_buffer_size", JInt (Z.of_nat (b_replay_buffer_size b)))]
       None None None None None None None None).

(** What a resumed queue starts with: the marker and the replayed events. *)
Definition replay_into (ctx : option string * string * Z) (f : event_filter) (after : string) (b : bus)
    : result bus_error (list stream_event) :=
  let? (epoch, sequence) := parse_cursor after in
  if negb (epoch =? b_epoch b)%string then Ok [resumed_marker ctx b after 0 None]
  else if (b_sequence b <? sequence)%N
  then Err (InvalidRequestError "Event cursor is ahead of this stream." after (latest_cursor b))
  else
    let oldest_retained := match b_buffer b with
                           | (n, _) :: _ => n
                           | [] => (b_sequence b + 1)%N
                           end in
    (* max(0, oldest_retained - sequence - 1): subtraction of [N] stops at 0 *)
    let lost := (oldest_retained - sequence - 1)%N in
    let replayed := map snd (List.filter (fun r => (sequence <? r.1)%N && admits f r.2) (b_buffer b)) in
    Ok (resumed_marker ctx b after (length replayed) (Some lost) :: replayed).

Definition with_queue (i : string) (q : queue) (b : bus) : bus :=
  b <| w_queues := <[i := q]> (w_queues b) |>.

Definition add_subscriber (i : string) (f : event_filter) (b : bus) : bus :=
  b <| b_subscribers := dset i (Build_subscriber i f) (b_subscribers b) |>.

(** [subscribe]; [subscription_id] is the [uuid4] drawn for it. *)
Definition subscribe (running : nat) (subscription_id : string) (ctx : option string * string * Z)
    (f : option event_filter) (after : option string) (b : bus) : bus * result bus_error unit :=
  let b := ensure_loop running b in
  let resolved_filter := match f with Some f => f | None => no_filter end in
  let replay := match after with
                | Some c => replay_into ctx resolved_filter c b
                | None => Ok []
                end in
  match replay with
  | Err error => (b, Err error)
  | Ok events =>
      (add_subscriber subscription_id resolved_filter
         (with_queue subscription_id (Build_queue [] events) b), Ok tt)
  end.

Definition unsubscribe (subscription_id : string) (b : bus) : bus :=
  b <| b_subscribers := ddel subscription_id (b_subscribers b) |>.

(** [EventSubscription.get]: waits (no step) while the queue is empty. *)
Definition get (subscription_id : string) (b : bus) : option (stream_event * bus) :=
  match w_queues b !! subscription_id with
  | Some q =>
      match q_items q with
      | e :: rest =>
          Some (e, with_queue subscription_id (Build_queue (q_taken q ++ [e]) rest) b)
      | [] => None
      end
  | None => None
  end.

Definition subscriber_count (b : bus) : nat := length (b_subscribers b).

(** ** Histories *)

Inductive bus_event :=
| AttachLoop (loop : nat)
| CloseLoop (loop : nat)
| Subscribe (running : nat) (subscription_id : string) (ctx : option string * string * Z)
    (f : option event_filter) (after : option string)
| Unsubscribe (subscription_id : string)
| Publish (running : nat) (e : stream_event)
| PublishThreadsafe (closed_meanwhile : bool) (e : stream_event)
| RunCallback
| Get (subscription_id : string).

Definition step (b : bus) (ev : bus_event) : bus :=
  match ev with
  | AttachLoop l => attach_loop l b
  | CloseLoop l => close_loop l b
  | Subscribe r i ctx f a => fst (subscribe r i ctx f a b)
  | Unsubscribe i => unsubscribe i b
  | Publish r e => publish r e b
  | PublishThreadsafe c e => publish_threadsafe c e b
  | RunCallback => run_callback b
  | Get i => match get i b with Some (_, b') => b' | None => b end
  end.

Definition run (b : bus) (evs : list bus_event) : bus := foldl step b evs.

(** Everything a subscription received: taken from its queue or still in it. *)
Definition received (b : bus) (subscription_id : string) : list stream_event :=
  match w_queues b !! subscription_id with
  | Some q => q_taken q ++ q_items q
  | None => []
  end.

(** The event leaves the subscription [i] registered and its queue in place. *)
Definition spares (i : string) (ev : bus_event) : bool :=
  match ev with
  | Subscribe _ j _ _ _ | Unsubscribe j => negb (bool_decide (i = j))
  | _ => true
  end.

(** ** Cursor text *)

Lemma py_int_str_of_N n :
  (String.length (str_of_N n) <= int_max_str_digits)%nat -> py_int (str_of_N n) = Ok n.
Proof. intros Hlen. unfold py_int. by rewrite int_of_str_of_N. Qed.

(** An epoch is eight hexadecimal digits: neither whitespace nor a colon. *)
Definition hex_digit (c : Ascii.ascii) : bool :=
  let n := Ascii.nat_of_ascii c in (is_digit c || (97 <=? n) && (n <=? 102))%nat.

Definition epoch_ok (epoch : string) : bool :=
  negb (epoch =? "")%string && all_chars hex_digit epoch.

Lemma hex_digit_plain c :
  hex_digit c = true -> is_space c = false /\ bool_decide (c = colon) = false.
Proof. destruct c as [[] [] [] [] [] [] [] []]; vm_compute; intros; try done. Qed.

Lemma digit_plain c : is_digit c = true -> is_space c = false.
Proof. destruct c as [[] [] [] [] [] [] [] []]; vm_compute; intros; try done. Qed.

Lemma cursor_of_eq epoch n : cursor_of epoch n = epoch +:+ String colon (str_of_N n).
Proof. done. Qed.

(** The partition of a cursor into its epoch and the text of its sequence. *)
Lemma partition_cursor epoch n :
  epoch_ok epoch = true ->
  partition colon (strip (cursor_of epoch n)) = (epoch, true, str_of_N n).
Proof.
  intros He. unfold epoch_ok in He. apply andb_true_iff in He as [_ Hh].
  rewrite cursor_of_eq, strip_id; [apply partition_app|].
  - revert Hh. apply all_chars_impl. intros c Hc. by destruct (hex_digit_plain c Hc) as [_ ->].
  - rewrite all_chars_app, all_chars_cons, !andb_true_iff. split_and!; [| done |].
    + revert Hh. apply all_chars_impl. intros c Hc. by destruct (hex_digit_plain c Hc) as [-> _].
    + eapply all_chars_impl, string_of_uint_digits. intros c Hc. by rewrite digit_plain.
Qed.

Lemma length_cursor_of epoch n :
  String.length (cursor_of epoch n) = String.length epoch + S (String.length (str_of_N n)).
Proof.
  rewrite cursor_of_eq. induction epoch as [|c epoch IH]; [done|]. simpl. by rewrite IH.
Qed.

Lemma parse_cursor_of epoch n :
  epoch_ok epoch = true ->
  (String.length (cursor_of epoch n) <= int_max_str_digits)%nat ->
  parse_cursor (cursor_of epoch n) = Ok (epoch, n).
Proof.
  intros He Hlen. unfold parse_cursor. rewrite partition_cursor, str_of_N_digits by done.
  unfold epoch_ok in He. apply andb_true_iff in He as [He _]. apply negb_true_iff in He.
  rewrite He. simpl. rewrite py_int_str_of_N; [done|]. rewrite length_cursor_of in Hlen. lia.
Qed.

(** ** Invariant *)

Definition numbered (l : list stream_event) : list (N * stream_event) :=
  imap (fun i e => (N.of_nat (S i), e)) l.

Record bus_ok (b : bus) : Prop := {
  ok_sequence : b_sequence b = N.of_nat (length (w_published b));
  ok_cursor : forall k e, w_published b !! k = Some e ->
    ev_cursor e = Some (cursor_of (b_epoch b) (N.of_nat (S k)));
  ok_buffer : b_buffer b
    = drop (length (w_published b) - b_replay_buffer_size b) (numbered (w_published b));
  ok_keys : NoDup (dkeys (b_subscribers b));
  ok_queue : forall i s, dget i (b_subscribers b) = Some s ->
    sub_queue s = i /\ is_Some (w_queues b !! i)
}.

Lemma length_numbered l : length (numbered l) = length l.
Proof. apply length_imap. Qed.

Lemma numbered_snoc l e :
  numbered (l ++ [e]) = numbered l ++ [(N.of_nat (S (length l)), e)].
Proof. unfold numbered. rewrite imap_app. simpl. by rewrite Nat.add_0_r. Qed.

Lemma deque_append_drop {A} size (l : list A) x :
  deque_append size x (drop (length l - size) l) = drop (S (length l) - size) (l ++ [x]).
Proof.
  unfold deque_append. rewrite <- (drop_app_le l [x]) by lia. rewrite drop_drop.
  f_equal. rewrite length_drop, length_app. simpl. lia.
Qed.

Lemma stamp_ok e b : bus_ok b -> bus_ok (stamp e b).1.
Proof.
  intros H. unfold stamp. cbn [fst]. constructor; cbn -[cursor_of N.of_nat numbered deque_append].
  - rewrite (ok_sequence b H), length_app. simpl. lia.
  - intros k e' Hk. apply lookup_app_Some in Hk as [Hk|[Hlen Hk]]; [by apply (ok_cursor b H)|].
    apply list_lookup_singleton_Some in Hk as [Hk <-]. simpl. do 2 f_equal.
    rewrite (ok_sequence b H). lia.
  - rewrite (ok_buffer b H), numbered_snoc, (ok_sequence b H), length_app.
    replace (N.of_nat (length (w_published b)) + 1)%N with (N.of_nat (S (length (w_published b)))) by lia.
    match goal with |- deque_append ?m ?x _ = _ =>
      pose proof (deque_append_drop m (numbered (w_published b)) x) as Hd end.
    rewrite length_numbered in Hd. rewrite Hd. f_equal. simpl. lia.
  - apply (ok_keys b H).
  - apply (ok_queue b H).
Qed.

(** ** Delivery *)

Lemma put_all_lookup e subs qs i :
  NoDup (map sub_queue subs) ->
  put_all e subs qs !! i
  = if bool_decide (i ∈ map sub_queue subs) then queue_put e <$> qs !! i else qs !! i.
Proof.
  revert qs. induction subs as [|s subs IH]; intros qs Hnd; [done|].
  simpl in Hnd. apply NoDup_cons in Hnd as [Hn Hnd].
  change (put_all e (s :: subs) qs) with (put_all e subs (alter (queue_put e) (sub_queue s) qs)).
  rewrite IH by done. simpl. destruct (decide (i = sub_queue s)) as [->|Hne].
  - rewrite bool_decide_eq_false_2 by done. rewrite bool_decide_eq_true_2 by (by left).
    apply lookup_alter_eq.
  - rewrite lookup_alter_ne by done.
    destruct (decide (i ∈ map sub_queue subs)).
    + rewrite !bool_decide_eq_true_2; [done|by right|done].
    + rewrite !bool_decide_eq_false_2; [done| |done].
      intros [?|?]%elem_of_cons; done.
Qed.

Lemma put_all_is_Some e subs qs i : is_Some (put_all e subs qs !! i) <-> is_Some (qs !! i).
Proof.
  revert qs. induction subs as [|s subs IH]; intros qs; [done|].
  change (put_all e (s :: subs) qs) with (put_all e subs (alter (queue_put e) (sub_queue s) qs)).
  rewrite IH. apply lookup_alter_is_Some.
Qed.

(** Each matching subscriber has its own queue. *)
Lemma matching_queues b e :
  bus_ok b ->
  map sub_queue (matching_subscribers b e)
  = dkeys (List.filter (fun ks => admits (sub_filter ks.2) e) (b_subscribers b)).
Proof.
  intros H. unfold matching_subscribers, dkeys. pose proof (ok_keys b H) as Hnd.
  assert (Hq : forall i s, (i, s) ∈ b_subscribers b -> sub_queue s = i).
  { intros i s Hin. apply (ok_queue b H). by apply dget_elem. }
  clear Hnd. induction (b_subscribers b) as [|[i s] l IH]; [done|].
  assert (Hi : sub_queue s = i) by (apply Hq; by left). simpl.
  assert (IH' := IH ltac:(intros j t Ht; apply Hq; by right)).
  destruct (admits (sub_filter s) e); simpl; [by rewrite Hi, IH'|done].
Qed.

Lemma NoDup_keys_filter {V} (p : string * V -> bool) (d : list (string * V)) :
  NoDup (dkeys d) -> NoDup (dkeys (List.filter p d)).
Proof.
  induction d as [|[k v] d IH]; simpl; intros Hnd; [done|].
  apply NoDup_cons in Hnd as [Hn Hnd]. destruct (p (k, v)); [|auto]. simpl.
  apply NoDup_cons. split; [|auto]. intros Hin. apply Hn.
  apply list_elem_of_fmap in Hin as ([k' v'] & -> & Hin). apply list_elem_of_fmap.
  exists (k', v'). split; [done|]. apply list_elem_of_In, filter_In in Hin as [Hin _].
  by apply list_elem_of_In.
Qed.

Lemma key_filter {V} (p : string * V -> bool) (d : list (string * V)) i v :
  NoDup (dkeys d) -> dget i d = Some v -> (i ∈ dkeys (List.filter p d) <-> p (i, v) = true).
Proof.
  intros Hnd Hi. split.
  - intros Hin. apply list_elem_of_fmap in Hin as ([k' v'] & -> & Hin).
    apply list_elem_of_In, filter_In in Hin as [Hin Hp]. apply list_elem_of_In in Hin. simpl in *.
    rewrite (dget_elem _ _ _ Hnd Hin) in Hi. by simplify_eq.
  - intros Hp. apply list_elem_of_fmap. exists (i, v). split; [done|].
    apply list_elem_of_In, filter_In. split; [|done]. by apply list_elem_of_In, dget_Some_elem.
Qed.

Lemma publish_nowait_ok e b : bus_ok b -> bus_ok (publish_nowait e b).
Proof.
  intros H. pose proof (stamp_ok e b H) as Hs. unfold publish_nowait.
  destruct (stamp e b) as [b' st]. simpl in Hs. destruct Hs as [H1 H2 H3 H4 H5].
  constructor; try done. intros i s Hi. destruct (H5 i s Hi) as [? Hq]. split; [done|].
  by apply put_all_is_Some.
Qed.

(** What a step does to a registered subscription [i] with filter [f]. *)
Record follows (i : string) (f : event_filter) (b b' : bus) : Prop := {
  fo_epoch : b_epoch b' = b_epoch b;
  fo_size : b_replay_buffer_size b' = b_replay_buffer_size b;
  fo_registered : dget i (b_subscribers b') = Some (Build_subscriber i f);
  fo_received : exists new,
    w_published b' = w_published b ++ new /\
    received b' i = received b i ++ List.filter (admits f) new
}.

Lemma follows_quiet i f b b' :
  b_epoch b' = b_epoch b -> b_replay_buffer_size b' = b_replay_buffer_size b ->
  dget i (b_subscribers b') = Some (Build_subscriber i f) ->
  w_published b' = w_published b -> received b' i = received b i -> follows i f b b'.
Proof.
  intros ? ? ? Hp Hr. split; try done. exists []. by rewrite !app_nil_r.
Qed.

Lemma follows_trans i f b1 b2 b3 : follows i f b1 b2 -> follows i f b2 b3 -> follows i f b1 b3.
Proof.
  intros [E1 S1 _ (n1 & P1 & R1)] [E2 S2 G2 (n2 & P2 & R2)].
  split; [congruence|congruence|done|]. exists (n1 ++ n2).
  by rewrite P2, R2, P1, R1, List.filter_app, !app_assoc.
Qed.

Lemma received_publish e b i f :
  bus_ok b -> dget i (b_subscribers b) = Some (Build_subscriber i f) ->
  follows i f b (publish_nowait e b).
Proof.
  intros H Hi. destruct (ok_queue b H _ _ Hi) as [_ [q Hq]].
  unfold publish_nowait. destruct (stamp e b) as [b1 st] eqn:Hst.
  unfold stamp in Hst. apply (inj2 pair) in Hst as [<- Hst]. split; try done.
  exists [st]. split; [by rewrite <- Hst|].
  unfold received. cbn -[cursor_of matching_subscribers].
  match goal with |- context [matching_subscribers ?b' st] =>
    change (matching_subscribers b' st) with (matching_subscribers b st) end.
  rewrite put_all_lookup by (rewrite matching_queues by done; apply NoDup_keys_filter, (ok_keys b H)).
  rewrite matching_queues by done.
  pose proof (key_filter (fun ks => admits (sub_filter ks.2) st) _ _ _ (ok_keys b H) Hi) as Hk.
  simpl in Hk. rewrite Hq. simpl. destruct (admits f st) eqn:Ha.
  - rewrite bool_decide_eq_true_2 by (by apply Hk). simpl. by rewrite app_assoc.
  - rewrite bool_decide_eq_false_2 by (rewrite Hk; congruence). by rewrite app_nil_r.
Qed.

Lemma ensure_loop_cases r b : ensure_loop r b = b \/ ensure_loop r b = b <| b_loop := Some r |>.
Proof. unfold ensure_loop. destruct (loop_unusable b); auto. Qed.

(** An operation that touches neither events, subscriptions nor queues. *)
Record same_events (b b' : bus) : Prop := {
  se_epoch : b_epoch b' = b_epoch b;
  se_size : b_replay_buffer_size b' = b_replay_buffer_size b;
  se_sequence : b_sequence b' = b_sequence b;
  se_buffer : b_buffer b' = b_buffer b;
  se_published : w_published b' = w_published b;
  se_subscribers : b_subscribers b' = b_subscribers b;
  se_queues : w_queues b' = w_queues b
}.

Lemma same_events_ok b b' : same_events b b' -> bus_ok b -> bus_ok b'.
Proof.
  intros [E1 E2 E3 E4 E5 E6 E7] [H1 H2 H3 H4 H5].
  constructor; rewrite ?E1, ?E2, ?E3, ?E4, ?E5, ?E6, ?E7; done.
Qed.

Lemma same_events_follows i f b b' :
  same_events b b' -> dget i (b_subscribers b) = Some (Build_subscriber i f) -> follows i f b b'.
Proof.
  intros [E1 E2 E3 E4 E5 E6 E7] Hi. apply follows_quiet; try done; [by rewrite E6|].
  unfold received. by rewrite E7.
Qed.

Lemma same_ensure_loop r b : same_events b (ensure_loop r b).
Proof. destruct (ensure_loop_cases r b) as [-> | ->]; done. Qed.

Lemma same_attach_loop l b : same_events b (attach_loop l b).
Proof. done. Qed.

Lemma same_publish_threadsafe c e b : same_events b (publish_threadsafe c e b).
Proof.
  unfold publish_threadsafe. destruct (b_loop b) as [l|]; [|done].
  destruct (loop_is_closed b l); [done|]. by destruct c.
Qed.

Lemma publish_follows e i f b b1 :
  same_events b b1 -> bus_ok b -> dget i (b_subscribers b) = Some (Build_subscriber i f) ->
  follows i f b (publish_nowait e b1).
Proof.
  intros Hs H Hi. apply (follows_trans _ _ _ b1); [by apply same_events_follows|].
  apply received_publish; [by eapply same_events_ok|]. by rewrite (se_subscribers _ _ Hs).
Qed.

Lemma with_queue_received i q b j :
  received (with_queue i q b) j = if decide (j = i) then q_taken q ++ q_items q else received b j.
Proof.
  unfold received, with_queue. cbn. case_decide; subst; [by rewrite lookup_insert_eq|].
  by rewrite lookup_insert_ne.
Qed.

Lemma with_queue_is_Some i q b j :
  is_Some (w_queues b !! j) -> is_Some (w_queues (with_queue i q b) !! j).
Proof.
  intros Hj. unfold with_queue. cbn. destruct (decide (j = i)) as [->|].
  - by rewrite lookup_insert_eq.
  - by rewrite lookup_insert_ne.
Qed.

Lemma with_queue_ok i q b : bus_ok b -> bus_ok (with_queue i q b).
Proof.
  intros [H1 H2 H3 H4 H5]. constructor; try done. intros j s Hj.
  destruct (H5 j s Hj). split; [done|by apply with_queue_is_Some].
Qed.

Lemma add_subscriber_ok i f b :
  is_Some (w_queues b !! i) -> bus_ok b -> bus_ok (add_subscriber i f b).
Proof.
  intros Hi [H1 H2 H3 H4 H5]. unfold add_subscriber. constructor; cbn; try done.
  - by apply NoDup_dset.
  - intros j s Hj. destruct (decide (j = i)) as [->|Hne].
    + rewrite dget_dset_eq in Hj. by simplify_eq.
    + rewrite dget_dset_ne in Hj by done. auto.
Qed.

Lemma subscribe_ok r i ctx f after b :
  bus_ok b -> bus_ok (fst (subscribe r i ctx f after b)).
Proof.
  intros H. pose proof (same_events_ok _ _ (same_ensure_loop r b) H) as H'.
  unfold subscribe. destruct (match after with Some c => _ | None => _ end) as [evs|]; [|done].
  apply add_subscriber_ok; [|by apply with_queue_ok].
  unfold with_queue. cbn. by rewrite lookup_insert_eq.
Qed.

Lemma subscribe_spares r j ctx g after i f b :
  i <> j -> dget i (b_subscribers b) = Some (Build_subscriber i f) ->
  follows i f b (fst (subscribe r j ctx g after b)).
Proof.
  intros Hne Hi. apply (follows_trans _ _ _ (ensure_loop r b));
    [by apply same_events_follows, Hi; apply same_ensure_loop|].
  rewrite <- (se_subscribers _ _ (same_ensure_loop r b)) in Hi.
  unfold subscribe. destruct (match after with Some c => _ | None => _ end) as [evs|];
    [|by apply follows_quiet].
  apply follows_quiet; try done.
  - unfold add_subscriber. cbn. by rewrite dget_dset_ne.
  - change (received _ i) with (received (with_queue j (Build_queue [] evs) (ensure_loop r b)) i) at 1.
    by rewrite with_queue_received, decide_False.
Qed.

Lemma get_inv i b e b' :
  get i b = Some (e, b') ->
  exists q rest, w_queues b !! i = Some q /\ q_items q = e :: rest
    /\ b' = with_queue i (Build_queue (q_taken q ++ [e]) rest) b.
Proof.
  unfold get. destruct (w_queues b !! i) as [q|] eqn:Hq; [|done].
  destruct (q_items q) as [|x l] eqn:Hl; [done|]. intros [= <- <-]. by exists q, l.
Qed.

Lemma get_follows j i f b e b' :
  get j b = Some (e, b') -> dget i (b_subscribers b) = Some (Build_subscriber i f) ->
  follows i f b b'.
Proof.
  intros (q & rest & Hq & Hl & ->)%get_inv Hi. apply follows_quiet; try done.
  rewrite with_queue_received. case_decide; [|done]. subst. unfold received.
  rewrite Hq, Hl. simpl. by rewrite <- app_assoc.
Qed.

Lemma step_ok b ev : bus_ok b -> bus_ok (step b ev).
Proof.
  intros H. destruct ev; simpl.
  - by apply (same_events_ok b).
  - by apply (same_events_ok b).
  - by apply subscribe_ok.
  - destruct H as [H1 H2 H3 H4 H5]. constructor; try done; [by apply NoDup_ddel|].
    intros j s Hj. apply H5. change (b_subscribers _) with (ddel subscription_id (b_subscribers b)) in Hj.
    destruct (decide (j = subscription_id)) as [->|Hne].
    + by rewrite dget_ddel_eq in Hj.
    + by rewrite dget_ddel_ne in Hj.
  - apply publish_nowait_ok. eapply same_events_ok; [apply same_ensure_loop|done].
  - eapply same_events_ok; [apply same_publish_threadsafe|done].
  - unfold run_callback. destruct (w_callbacks b) as [|[l e] cs]; [done|].
    apply publish_nowait_ok. by apply (same_events_ok b).
  - destruct (get subscription_id b) as [[e b']|] eqn:Hg; [|done].
    apply get_inv in Hg as (q & rest & _ & _ & ->). by apply with_queue_ok.
Qed.

Lemma step_follows i f b ev :
  bus_ok b -> spares i ev = true -> dget i (b_subscribers b) = Some (Build_subscriber i f) ->
  follows i f b (step b ev).
Proof.
  intros H Hs Hi. destruct ev; simpl in *.
  - by apply same_events_follows.
  - by apply same_events_follows.
  - apply subscribe_spares; [|done]. by apply negb_true_iff, bool_decide_eq_false in Hs.
  - apply negb_true_iff, bool_decide_eq_false in Hs. apply follows_quiet; try done.
    change (b_subscribers _) with (ddel subscription_id (b_subscribers b)). by rewrite dget_ddel_ne.
  - apply publish_follows; [apply same_ensure_loop|done..].
  - apply same_events_follows; [apply same_publish_threadsafe|done].
  - unfold run_callback. destruct (w_callbacks b) as [|[l e] cs].
    + by apply same_events_follows.
    + by apply publish_follows.
  - destruct (get subscription_id b) as [[e b']|] eqn:Hg.
    + by eapply get_follows.
    + by apply same_events_follows.
Qed.

Lemma run_ok evs b : bus_ok b -> bus_ok (run b evs).
Proof. revert b. induction evs as [|ev evs IH]; intros b H; [done|]. apply IH, step_ok, H. Qed.

Lemma run_follows i f evs b :
  bus_ok b -> forallb (spares i) evs = true ->
  dget i (b_subscribers b) = Some (Build_subscriber i f) -> follows i f b (run b evs).
Proof.
  revert b. induction evs as [|ev evs IH]; intros b H Hs Hi; [by apply same_events_follows|].
  simpl in Hs. apply andb_true_iff in Hs as [Hev Hs].
  pose proof (step_follows i f b ev H Hev Hi) as Hf.
  eapply follows_trans; [exact Hf|]. apply IH; [by apply step_ok|done|apply (fo_registered _ _ _ _ Hf)].
Qed.

Lemma init_bus_ok epoch size : bus_ok (init_bus epoch size).
Proof. constructor; try done; simpl; first [by rewrite drop_nil | constructor]. Qed.

(** ** Replay *)

Lemma drop_imap {A B} (g : nat -> A -> B) d (l : list A) :
  drop d (imap g l) = imap (fun i => g (d + i)) (drop d l).
Proof.
  revert g l. induction d as [|d IH]; intros g l; [by rewrite !drop_0|].
  destruct l as [|x l]; [done|]. simpl. by rewrite IH.
Qed.

(** The retained events after sequence [s], read from the numbering. *)
Lemma filter_numbered_from (p : stream_event -> bool) s m l :
  map snd (List.filter (fun r => (N.of_nat s <? r.1)%N && p r.2)
             (imap (fun i e => (N.of_nat (S (m + i)), e)) l))
  = List.filter p (drop (s - m) l).
Proof.
  revert m. induction l as [|e l IH]; intros m; [by rewrite drop_nil|].
  rewrite imap_cons.
  assert (Hext : imap ((fun i e => (N.of_nat (S (m + i)), e)) ∘ S) l
                 = imap (fun i e => (N.of_nat (S (S m + i)), e)) l).
  { apply imap_ext. intros i x _. simpl. do 2 f_equal. lia. }
  rewrite Hext. clear Hext. specialize (IH (S m)).
  set (g := fun r : N * stream_event => (N.of_nat s <? r.1)%N && p r.2) in *.
  assert (Hg : g (N.of_nat (S (m + 0)), e) = (N.of_nat s <? N.of_nat (S (m + 0)))%N && p e) by done.
  clearbody g. cbn [List.filter]. rewrite Hg. clear Hg.
  destruct (N.ltb_spec (N.of_nat s) (N.of_nat (S (m + 0)))) as [Hlt|Hge]; cbn [andb].
  - replace (s - m)%nat with 0%nat by lia. replace (s - S m)%nat with 0%nat in IH by lia.
    rewrite !drop_0 in *. cbn [List.filter]. destruct (p e); cbn [map]; by rewrite IH.
  - rewrite IH. replace (s - m)%nat with (S (s - S m)) by lia. done.
Qed.

Lemma filter_numbered (p : stream_event -> bool) s d l :
  map snd (List.filter (fun r => (N.of_nat s <? r.1)%N && p r.2) (drop d (numbered l)))
  = List.filter p (drop (Nat.max s d) l).
Proof.
  unfold numbered. rewrite drop_imap, filter_numbered_from, drop_drop. f_equal. f_equal. lia.
Qed.

Lemma oldest_retained_eq b :
  bus_ok b ->
  match b_buffer b with (n, _) :: _ => n | [] => (b_sequence b + 1)%N end
  = if decide (b_replay_buffer_size b = 0%nat) then N.of_nat (S (length (w_published b)))
    else N.of_nat (S (length (w_published b) - b_replay_buffer_size b)).
Proof.
  intros H. rewrite (ok_buffer b H), (ok_sequence b H). unfold numbered. rewrite drop_imap.
  destruct (drop _ (w_published b)) as [|e l] eqn:Hd.
  - assert (length (w_published b) - (length (w_published b) - b_replay_buffer_size b) = 0)%nat
      by (rewrite <- length_drop, Hd; done).
    simpl. case_decide; [lia|]. f_equal. lia.
  - assert (length (w_published b) - (length (w_published b) - b_replay_buffer_size b) <> 0)%nat
      by (rewrite <- length_drop, Hd; done).
    rewrite imap_cons. case_decide; [lia|]. f_equal. lia.
Qed.

(** Resuming after sequence [s] of this epoch. *)
Lemma replay_into_eq ctx f c s b :
  bus_ok b -> parse_cursor c = Ok (b_epoch b, N.of_nat s) -> (s <= length (w_published b))%nat ->
  let first := (length (w_published b) - b_replay_buffer_size b)%nat in
  let replayed := List.filter (admits f) (drop (Nat.max s first) (w_published b)) in
  replay_into ctx f c b
  = Ok (resumed_marker ctx b c (length replayed) (Some (N.of_nat (first - s))) :: replayed).
Proof.
  intros H Hc Hs first replayed. unfold replay_into. rewrite Hc. cbn [rbind].
  rewrite String.eqb_refl. cbn [negb].
  destruct (N.ltb_spec (b_sequence b) (N.of_nat s)) as [Hlt|_];
    [rewrite (ok_sequence b H) in Hlt; lia|].
  rewrite (oldest_retained_eq b H), (ok_buffer b H), filter_numbered.
  fold first. fold replayed. do 4 f_equal. unfold first. case_decide; lia.
Qed.

Lemma run_const epoch size evs :
  b_epoch (run (init_bus epoch size) evs) = epoch
  /\ b_replay_buffer_size (run (init_bus epoch size) evs) = Z.to_nat (Z.max 0 size).
Proof.
  set (b := init_bus epoch size).
  assert (H : forall b, b_epoch (run b evs) = b_epoch b
                        /\ b_replay_buffer_size (run b evs) = b_replay_buffer_size b); [|apply (H b)].
  clear b. induction evs as [|ev evs IH]; intros b; [done|].
  destruct (IH (step b ev)) as [E S]. simpl. change (foldl step (step b ev) evs) with (run (step b ev) evs).
  rewrite E, S. clear.
  assert (Hpub : forall e b, b_epoch (publish_nowait e b) = b_epoch b
            /\ b_replay_buffer_size (publish_nowait e b) = b_replay_buffer_size b) by done.
  assert (Hsame : forall b', same_events b b' ->
            b_epoch b' = b_epoch b /\ b_replay_buffer_size b' = b_replay_buffer_size b)
    by (by intros b' []).
  destruct ev; simpl; try done.
  - destruct (Hsame _ (same_ensure_loop running b)) as [E S]. unfold subscribe.
    by destruct (match after with Some c => _ | None => _ end).
  - unfold publish. destruct (Hsame _ (same_ensure_loop running b)) as [E S].
    destruct (Hpub e (ensure_loop running b)). by split; etrans.
  - apply Hsame, same_publish_threadsafe.
  - unfold run_callback. destruct (w_callbacks b) as [|[l e] cs]; [done|].
    done.
  - destruct (get subscription_id b) as [[e b']|] eqn:Hg; [|done].
    by apply get_inv in Hg as (q & rest & _ & _ & ->).
Qed.

(** A successful subscription starts from the replayed events and follows the bus. *)
Lemma subscribe_follows r i ctx f after b events :
  bus_ok b ->
  match after with Some c => replay_into ctx f c (ensure_loop r b) | None => Ok [] end = Ok events ->
  let b' := fst (subscribe r i ctx (Some f) after b) in
  bus_ok b' /\ snd (subscribe r i ctx (Some f) after b) = Ok tt
  /\ dget i (b_subscribers b') = Some (Build_subscriber i f)
  /\ received b' i = events /\ w_published b' = w_published b.
Proof.
  intros H Hev b'. split; [by apply subscribe_ok|].
  unfold b', subscribe. rewrite Hev. split; [done|]. cbn [fst]. split_and!.
  - unfold add_subscriber. cbn. apply dget_dset_eq.
  - change (received _ i) with (received (with_queue i (Build_queue [] events) (ensure_loop r b)) i) at 1.
    by rewrite with_queue_received, decide_True.
  - apply (se_published _ _ (same_ensure_loop r b)).
Qed.

Lemma marker_payload ctx b c n lost :
  let m := resumed_marker ctx b c n lost in
  ev_type m = EVENTS_RESUMED /\ ev_cursor m = None
  /\ dget "replayed" (ev_payload m) = Some (JInt (Z.of_nat n))
  /\ dget "lost" (ev_payload m)
     = Some (match lost with Some k => JInt (Z.of_N k) | None => JNull end).
Proof. destruct ctx as [[corr id] now]. intros m. split_and!; [done|done|by apply fill_payload_keeps..]. Qed.

(** C40. Resuming is exactly once: a subscriber that reconnects with the cursor of
    the last event it saw, the [k]-th ever published, receives one
    [events.resumed] marker and then, in order and without repetition, every
    later event its filter admits — replayed or live, whatever else happens on
    the bus — except those already pushed out of the replay buffer; the marker
    reports how many were replayed and exactly how many were lost. *)
Theorem resume_exactly_once epoch size h1 h2 r i ctx f k e c :
  epoch_ok epoch = true ->
  w_published (run (init_bus epoch size) h1) !! k = Some e -> ev_cursor e = Some c ->
  (String.length c <= int_max_str_digits)%nat -> forallb (spares i) h2 = true ->
  let b := run (init_bus epoch size) h1 in
  let b' := run (fst (subscribe r i ctx (Some f) (Some c) b)) h2 in
  let first := (length (w_published b) - Z.to_nat (Z.max 0 size))%nat in
  snd (subscribe r i ctx (Some f) (Some c) b) = Ok tt /\
  exists marker,
    received b' i
    = marker :: List.filter (admits f) (drop (Nat.max (S k) first) (w_published b')) /\
    ev_type marker = EVENTS_RESUMED /\ ev_cursor marker = None /\
    dget "lost" (ev_payload marker) = Some (JInt (Z.of_nat (first - S k))) /\
    dget "replayed" (ev_payload marker)
    = Some (JInt (countb (admits f) (drop (Nat.max (S k) first) (w_published b)))).
Proof.
  intros Hep Hk Hc Hlen Hh2 b b' first.
  destruct (run_const epoch size h1) as [He Hsz]. fold b in Hk, He, Hsz.
  assert (Hok : bus_ok b) by apply run_ok, init_bus_ok.
  rewrite (ok_cursor b Hok k e Hk), He in Hc. apply (inj Some) in Hc as <-.
  pose proof (lookup_lt_Some _ _ _ Hk) as Hlt.
  pose proof (same_ensure_loop r b) as Hsame.
  pose proof (replay_into_eq ctx f (cursor_of epoch (N.of_nat (S k))) (S k) (ensure_loop r b)
                (same_events_ok _ _ Hsame Hok)) as Hre.
  rewrite (se_epoch _ _ Hsame), (se_published _ _ Hsame), (se_size _ _ Hsame), He, Hsz in Hre.
  specialize (Hre (parse_cursor_of _ _ Hep Hlen) Hlt). fold first in Hre. cbv zeta in Hre.
  destruct (subscribe_follows r i ctx f (Some (cursor_of epoch (N.of_nat (S k)))) b _ Hok Hre)
    as (Hok' & Hres & Hreg & Hrec & Hpub).
  split; [done|]. destruct (fo_received _ _ _ _ (run_follows i f h2 _ Hok' Hh2 Hreg)) as (new & Hn & Hr).
  fold b' in Hn, Hr. rewrite Hrec in Hr. rewrite Hpub in Hn.
  eexists. split_and!.
  - rewrite Hr, Hn. cbn [app]. f_equal. rewrite drop_app_le by lia. by rewrite List.filter_app.
  - apply marker_payload.
  - apply marker_payload.
  - destruct (marker_payload ctx (ensure_loop r b) (cursor_of epoch (N.of_nat (S k)))
      (length (List.filter (admits f) (drop (Nat.max (S k) first) (w_published b))))
      (Some (N.of_nat (first - S k)))) as (_ & _ & _ & ->). do 2 f_equal. lia.
  - apply marker_payload.
Qed.

(** Where a subscription cannot resume, the bus says so.  Without a cursor
    it receives exactly the admitted events published after it.  With a cursor
    of another server lifetime the stream starts with a marker whose [lost] is
    null, then the same.  A cursor ahead of the stream is refused with
    [InvalidRequestError], and nothing is registered. *)
Theorem subscribe_without_resuming epoch size h1 h2 r i ctx f other n :
  epoch_ok epoch = true -> epoch_ok other = true -> other <> epoch ->
  (String.length (cursor_of other n) <= int_max_str_digits)%nat ->
  (String.length (cursor_of epoch n) <= int_max_str_digits)%nat ->
  forallb (spares i) h2 = true ->
  let b := run (init_bus epoch size) h1 in
  let live b' := List.filter (admits f) (drop (length (w_published b)) (w_published b')) in
  (let b' := run (fst (subscribe r i ctx (Some f) None b)) h2 in received b' i = live b') /\
  (let b' := run (fst (subscribe r i ctx (Some f) (Some (cursor_of other n)) b)) h2 in
   exists marker, received b' i = marker :: live b' /\ ev_type marker = EVENTS_RESUMED
     /\ dget "lost" (ev_payload marker) = Some JNull) /\
  ((N.of_nat (length (w_published b)) < n)%N ->
   snd (subscribe r i ctx (Some f) (Some (cursor_of epoch n)) b)
   = Err (InvalidRequestError "Event cursor is ahead of this stream." (cursor_of epoch n)
            (latest_cursor b)) /\
   same_events b (fst (subscribe r i ctx (Some f) (Some (cursor_of epoch n)) b))).
Proof.
  intros Hep Hot Hne Hl1 Hl2 Hh2 b live.
  assert (Hok : bus_ok b) by apply run_ok, init_bus_ok.
  destruct (run_const epoch size h1) as [He _]. fold b in He.
  pose proof (same_ensure_loop r b) as Hsame.
  assert (Hlive : forall after events,
    match after with Some c => replay_into ctx f c (ensure_loop r b) | None => Ok [] end = Ok events ->
    let b' := run (fst (subscribe r i ctx (Some f) after b)) h2 in received b' i = events ++ live b').
  { intros after events Hev b'.
    destruct (subscribe_follows r i ctx f after b events Hok Hev) as (Hok' & _ & Hreg & Hrec & Hpub).
    destruct (fo_received _ _ _ _ (run_follows i f h2 _ Hok' Hh2 Hreg)) as (new & Hn & Hr).
    fold b' in Hn, Hr. rewrite Hrec in Hr. unfold live. rewrite Hr, Hn, Hpub. by rewrite drop_app_length. }
  split_and!.
  - by apply (Hlive None []).
  - intros b'. exists (resumed_marker ctx (ensure_loop r b) (cursor_of other n) 0 None).
    split_and!; [|apply marker_payload..].
    apply (Hlive (Some (cursor_of other n)) [_]). unfold replay_into.
    rewrite (parse_cursor_of other n Hot Hl1). cbn [rbind].
    rewrite (se_epoch _ _ Hsame), He. apply String.eqb_neq in Hne. by rewrite Hne.
  - intros Hn. unfold subscribe, replay_into.
    rewrite (parse_cursor_of epoch n Hep Hl2). cbn [rbind].
    rewrite (se_epoch _ _ Hsame), He, String.eqb_refl. cbn [negb].
    rewrite (se_sequence _ _ Hsame), (ok_sequence b Hok).
    destruct (N.ltb_spec (N.of_nat (length (w_published b))) n); [|lia].
    split; [|exact Hsame]. cbn. unfold latest_cursor. by rewrite (se_epoch _ _ Hsame), (se_sequence _ _ Hsame).
Qed.

(** [_parse_cursor] is meant to refuse "anything that is not" a cursor with
    [InvalidRequestError], but a cursor whose sequence has more than 4300 digits
    passes [isdigit] and makes [int] raise [ValueError]. *)
Theorem long_cursor_is_an_unhandled_error :
  let digits := String.concat "" (repeat "7" (S int_max_str_digits)) in
  isdigit digits = true /\
  snd (subscribe 0 "s1" (None, "e", 0%Z) None (Some ("0123abcd:" +:+ digits)) (init_bus "0123abcd" 8))
  = Err ValueError.
Proof. vm_compute. split; reflexivity. Qed.

(** ** Concrete histories *)

Definition plain_event (id : string) (t : event_type) (request : string) : stream_event :=
  populate_common_fields None
    (Build_stream_event id None t REQUEST 0 [] (Some request) None None None None None None None).

(** Three events before the client disconnects, three while it is away, on a
    bus that retains two; one more is published live after it came back. *)
Definition before_reconnect : list bus_event :=
  [ Publish 0 (plain_event "a" REQUEST_ACCEPTED "r1"); Publish 0 (plain_event "b" TOKEN_DELTA "r1");
    Publish 0 (plain_event "c" TOKEN_DELTA "r1"); Publish 0 (plain_event "d" TOKEN_DELTA "r2");
    PublishThreadsafe false (plain_event "e" TOKEN_DELTA "r1"); RunCallback ].

Definition after_reconnect : list bus_event :=
  [ Get "s1"; Publish 0 (plain_event "f" TOKEN_DELTA "r2"); Publish 0 (plain_event "g" TOKEN_DELTA "r1") ].

Definition only_r1 : event_filter := Build_event_filter [] [] ["r1"] [] [].

Example reconnect_replays :
  let b := run (init_bus "0123abcd" 2) before_reconnect in
  let b' := run (fst (subscribe 0 "s1" (None, "m", 0%Z) (Some only_r1) (Some "0123abcd:2") b)) after_reconnect in
  map ev_id (received b' "s1") = ["m"; "e"; "g"]
  /\ (ev_payload <$> head (received b' "s1"))
     = Some [("after", JStr "0123abcd:2"); ("replayed", JInt 1); ("lost", JInt 1);
             ("latest", JStr "0123abcd:5"); ("retained", JInt 2); ("replay_buffer_size", JInt 2)].
Proof. vm_compute. split; reflexivity. Qed.

Lemma resume_exactly_once_witness :
  exists marker,
    received (run (fst (subscribe 0 "s1" (None, "m", 0%Z) (Some only_r1) (Some "0123abcd:2")
                          (run (init_bus "0123abcd" 2) before_reconnect))) after_reconnect) "s1"
    = marker :: List.filter (admits only_r1)
                  (drop 3 (w_published
                     (run (fst (subscribe 0 "s1" (None, "m", 0%Z) (Some only_r1) (Some "0123abcd:2")
                                  (run (init_bus "0123abcd" 2) before_reconnect))) after_reconnect))).
Proof.
  destruct (w_published (run (init_bus "0123abcd" 2) before_reconnect) !! 1%nat) as [e|] eqn:He;
    [|by vm_compute in He].
  destruct (resume_exactly_once "0123abcd" 2 before_reconnect after_reconnect 0 "s1" (None, "m", 0%Z)
              only_r1 1 e "0123abcd:2") as (_ & marker & Hr & _).
  - reflexivity.
  - exact He.
  - vm_compute in He. by apply (inj Some) in He as <-.
  - vm_compute. lia.
  - reflexivity.
  - exists marker. exact Hr.
Defined.

Lemma subscribe_without_resuming_witness :
  received (run (fst (subscribe 0 "s1" (None, "m", 0%Z) (Some only_r1) None
                        (run (init_bus "0123abcd" 2) before_reconnect))) after_reconnect) "s1"
  = List.filter (admits only_r1)
      (drop 5 (w_published (run (fst (subscribe 0 "s1" (None, "m", 0%Z) (Some only_r1) None
                        (run (init_bus "0123abcd" 2) before_reconnect))) after_reconnect))).
Proof.
  destruct (subscribe_without_resuming "0123abcd" 2 before_reconnect after_reconnect 0 "s1"
              (None, "m", 0%Z) only_r1 "ffff0000" 9) as (H & _);
    [reflexivity|reflexivity|discriminate|vm_compute; lia|vm_compute; lia|reflexivity|].
  exact H.
Defined.
