(* ===== verification/StructuredOutput.v ===== *)
(** Structured output: src/src/lewlm/structured_output.py.

    The JSON-schema validator runs on model output, so its callers rely on it
    returning.  Schemas and values are [json] values; the mutually recursive
    [_validate_*] functions take the recursive call as an argument and are tied
    by [validate_node], whose fuel is the depth of the call stack.  A result is
    the list of issues, or the Python exception that escapes.

    Messages are lists of parts, so that the [repr] of a value needs no model.
    [re.compile] is the parameter [re_compile]: [None] for a pattern Python
    cannot parse, else the test [compiled.search(text) is not None]. *)

From stdpp Require Import pretty.
From S2P Require Import Prelude PyFloat PyString Json.

(** ** Issues *)

Inductive segment := Key (k : string) | Index (i : nat).

#[global] Instance segment_eq_dec : EqDecision segment.
Proof. solve_decision. Defined.

(** A part of a message: text, [f"{value}"] or [f"{value!r}"]. *)
Inductive msg_part := Text (s : string) | Str (v : json) | Repr (v : json).

Record issue := {
  code : string;
  message : list msg_part;
  path_of : list segment
}.

Inductive py_error := OutOfFuel | OverflowError | ValueError.

Definition issues_or_error : Type := result py_error (list issue).

(** [for x in l: issues.extend(f(x))]. *)
Fixpoint extend_all {A} (f : A -> issues_or_error) (l : list A) : issues_or_error :=
  match l with
  | [] => Ok []
  | x :: l' =>
      let? issues := f x in
      let? rest := extend_all f l' in
      Ok (issues ++ rest)
  end.

(** [[f(x) for x in l]]. *)
Fixpoint map_all {A} (f : A -> issues_or_error) (l : list A) : result py_error (list (list issue)) :=
  match l with
  | [] => Ok []
  | x :: l' =>
      let? issues := f x in
      let? rest := map_all f l' in
      Ok (issues :: rest)
  end.

(** ** Types of JSON values *)

Definition is_number (v : json) : bool :=
  match v with JInt _ | JFloat _ => true | _ => false end.

Definition matches_json_type (value : json) (expected_type : string) : bool :=
  if (expected_type =? "object")%string then match value with JObj _ => true | _ => false end
  else if (expected_type =? "array")%string then match value with JArr _ => true | _ => false end
  else if (expected_type =? "string")%string then match value with JStr _ => true | _ => false end
  else if (expected_type =? "integer")%string then match value with JInt _ => true | _ => false end
  else if (expected_type =? "number")%string then is_number value
  else if (expected_type =? "boolean")%string then match value with JBool _ => true | _ => false end
  else if (expected_type =? "null")%string then match value with JNull => true | _ => false end
  else true.

Definition json_type_name (value : json) : string :=
  match value with
  | JBool _ => "boolean"
  | JInt _ => "integer"
  | JFloat _ => "number"
  | JStr _ => "string"
  | JArr _ => "array"
  | JObj _ => "object"
  | JNull => "null"
  end.

Definition expected_json_types (value : option json) : list string :=
  match value with
  | Some (JStr s) => [s]
  | Some (JArr items) => omap (fun item => match item with JStr s => Some s | _ => None end) items
  | _ => []
  end.

Definition describe_types (expected_types : list string) : string :=
  match expected_types with
  | [t] => t
  | _ => String.concat " or " expected_types
  end.

(** ** Numbers: Python compares integers and floats exactly *)

Definition num_compare (a b : json) : option comparison :=
  match a, b with
  | JInt x, JInt y => Some (Z.compare x y)
  | JInt x, JFloat y => int_float_compare x y
  | JFloat x, JInt y => CompOpp <$> int_float_compare y x
  | JFloat x, JFloat y => SFcompare x y
  | _, _ => None
  end.

Definition num_lt (a b : json) : bool := match num_compare a b with Some Lt => true | _ => false end.
Definition num_le (a b : json) : bool :=
  match num_compare a b with Some Lt | Some Eq => true | _ => false end.
Definition num_eq (a b : json) : bool := match num_compare a b with Some Eq => true | _ => false end.

(** [a / b]: a conversion or a quotient of integers too large for a float
    raises [OverflowError]. *)
Definition to_float (a : json) : result py_error f64 :=
  match a with
  | JInt n => let x := f_of_Z n in if f_is_finite x then Ok x else Err OverflowError
  | JFloat x => Ok x
  | _ => Err ValueError
  end.

Definition num_div (a b : json) : result py_error f64 :=
  match a, b with
  | JInt x, JInt y => let q := int_truediv x y in if f_is_finite q then Ok q else Err OverflowError
  | _, _ => let? x := to_float a in let? y := to_float b in Ok (fdiv x y)
  end.

(** [round(x)]: [OverflowError] for an infinity, [ValueError] for a NaN. *)
Definition py_round (x : f64) : result py_error Z :=
  match f_round_int x with
  | Some n => Ok n
  | None => match x with S754_nan => Err ValueError | _ => Err OverflowError end
  end.

(** The float literal [1e-9]. *)
Definition float_1e_9 : f64 := int_truediv 1 1000000000.

(** ** Equality of JSON values *)

Definition is_bool (v : json) : bool := match v with JBool _ => true | _ => false end.

(** [left.keys() == right.keys()]. *)
Definition same_keys (l r : list (string * json)) : bool :=
  forallb (fun m => dmem m.1 r) l && forallb (fun m => dmem m.1 l) r.

(** [left == right] on values that are neither lists nor dictionaries, and not
    one of them a boolean. *)
Definition scalar_equal (left right : json) : bool :=
  match left, right with
  | JNull, JNull => true
  | JBool a, JBool b => Bool.eqb a b
  | JStr a, JStr b => (a =? b)%string
  | (JInt _ | JFloat _), (JInt _ | JFloat _) => num_eq left right
  | _, _ => false
  end.

Fixpoint json_equal (left right : json) {struct left} : bool :=
  if negb (Bool.eqb (is_bool left) (is_bool right)) then false
  else
    match left, right with
    | JObj l, JObj r =>
        same_keys l r
        && (fix all (l : list (string * json)) : bool :=
              match l with
              | [] => true
              | (key, a) :: l' =>
                  match dget key r with Some b => json_equal a b | None => false end && all l'
              end) l
    | JArr l, JArr r =>
        (length l =? length r)%nat
        && (fix all (l r : list json) {struct l} : bool :=
              match l, r with
              | a :: l', b :: r' => json_equal a b && all l' r'
              | _, _ => true
              end) l r
    | JArr _, _ | JObj _, _ | _, JArr _ | _, JObj _ => false
    | _, _ => scalar_equal left right
    end.

(** ** References *)

Definition slash : Ascii.ascii := Ascii.ascii_of_nat 47.
Definition tilde : Ascii.ascii := Ascii.ascii_of_nat 126.

Definition decode_token (raw_token : string) : string :=
  let token := replace2 tilde (Ascii.ascii_of_nat 48) tilde
                 (replace2 tilde (Ascii.ascii_of_nat 49) slash raw_token) in
  unquote token.

(** One step of the pointer into [node]. *)
Definition resolve_token (node : json) (token : string) : option json :=
  match node with
  | JObj members => dget token members
  | JArr items =>
      match int_of_string token with
      | Some index =>
          if ((index <? 0) || (Z.of_nat (length items) <=? index))%Z then None
          else items !! Z.to_nat index
      | None => None
      end
  | _ => None
  end.

Fixpoint resolve_tokens (node : json) (tokens : list string) : option json :=
  match tokens with
  | [] => Some node
  | raw_token :: rest =>
      match resolve_token node (decode_token raw_token) with
      | Some node' => resolve_tokens node' rest
      | None => None
      end
  end.

Definition resolve_reference (reference : string) (root : json) : option json :=
  match strip_prefix "#" reference with
  | None => None
  | Some EmptyString => Some root
  | Some pointer =>
      match strip_prefix "/" pointer with
      | None => None
      | Some rest => resolve_tokens root (split slash rest)
      end
  end.

Definition MAX_REF_DEPTH : nat := 64.

(** ** Composition issues *)

Definition render_segment (s : segment) : string :=
  match s with
  | Index i => "[" +:+ pretty (Z.of_nat i) +:+ "]"
  | Key k => "." +:+ k
  end.

Definition render_path (segments : list segment) : string :=
  lstrip_char (Ascii.ascii_of_nat 46) (String.concat "" (map render_segment segments)).

Definition render_issue (relative_to : list segment) (i : issue) : list msg_part :=
  let location := render_path (drop (length relative_to) (path_of i)) in
  if (location =? "")%string then message i
  else message i ++ [Text (" (at `" +:+ location +:+ "`)")].

(** [sep.join(parts)] on messages. *)
Fixpoint join_messages (sep : string) (ms : list (list msg_part)) : list msg_part :=
  match ms with
  | [] => []
  | [m] => m
  | m :: ms' => m ++ [Text sep] ++ join_messages sep ms'
  end.

Definition describe_branch_issues (issues : list issue) (relative_to : list segment) : list msg_part :=
  join_messages "; " (map (render_issue relative_to) issues).

(** [min(range(len(l)), key=lambda index: len(l[index]))]: the first index of a
    shortest list. *)
Fixpoint closest_from (i : nat) (best : nat * list issue) (l : list (list issue)) : nat * list issue :=
  match l with
  | [] => best
  | b :: l' => closest_from (S i) (if (length b <? length best.2)%nat then (i, b) else best) l'
  end.

Definition branch_mismatch (cd : string) (branch_issues : list (list issue)) (path : list segment)
    (requirement : string) : issue :=
  let detail :=
    match branch_issues with
    | [b] => describe_branch_issues b path
    | b :: rest =>
        let '(closest, issues) := closest_from 1 (0%nat, b) rest in
        [Text (pretty (Z.of_nat (length branch_issues)) +:+ " branches were tried; the closest (branch "
               +:+ pretty (Z.of_nat closest) +:+ ") reported: ")]
        ++ describe_branch_issues issues path
    | [] => []
    end in
  Build_issue cd ([Text ("Expected " +:+ requirement +:+ " branch to match. ")] ++ detail) path.

(** ** The validator *)

Definition list_keyword (schema : list (string * json)) (key : string) : option (list json) :=
  match dget key schema with Some (JArr l) => Some l | _ => None end.

Definition object_keyword (schema : list (string * json)) (key : string) : list (string * json) :=
  match dget key schema with Some (JObj m) => m | _ => [] end.

(** [isinstance(x, int) and not isinstance(x, bool)]. *)
Definition int_keyword (schema : list (string * json)) (key : string) : option Z :=
  match dget key schema with Some (JInt n) => Some n | _ => None end.

(** [schema.get(key)] where the code tests [is not None]. *)
Definition schema_keyword (schema : list (string * json)) (key : string) : option json :=
  match dget key schema with Some JNull | None => None | Some s => Some s end.

Definition number_keyword (schema : list (string * json)) (key : string) : option json :=
  match dget key schema with Some v => if is_number v then Some v else None | None => None end.

(** [if condition: issues.append(issue)]. *)
Definition issue_if (condition : bool) (i : issue) : list issue := if condition then [i] else [].

Definition bound_issue (bound : option Z) (violated : Z -> bool) (cd : string) (prefix suffix : string)
    (path : list segment) : list issue :=
  match bound with
  | Some n => issue_if (violated n) (Build_issue cd [Text (prefix +:+ pretty n +:+ suffix)] path)
  | None => []
  end.

Definition number_issue (bound : option json) (violated : json -> bool) (cd prefix : string)
    (path : list segment) : list issue :=
  match bound with
  | Some n => issue_if (violated n) (Build_issue cd [Text prefix; Str n; Text "."] path)
  | None => []
  end.

Definition validate_multiple_of (schema : list (string * json)) (value : json) (path : list segment)
    : issues_or_error :=
  match number_keyword schema "multipleOf" with
  | Some multiple_of =>
      if num_lt (JInt 0) multiple_of then
        let? quotient := num_div value multiple_of in
        let? nearest := py_round quotient in
        Ok (issue_if (fltb float_1e_9 (f_abs (fsub quotient (f_of_Z nearest))))
              (Build_issue "multiple_of" [Text "Expected a multiple of "; Str multiple_of; Text "."] path))
      else Ok []
  | None => Ok []
  end.

Definition validate_number (schema : list (string * json)) (value : json) (path : list segment)
    : issues_or_error :=
  let issues :=
    number_issue (number_keyword schema "minimum") (fun n => num_lt value n) "minimum"
      "Expected value >= " path
    ++ number_issue (number_keyword schema "maximum") (fun n => num_lt n value) "maximum"
      "Expected value <= " path
    ++ number_issue (number_keyword schema "exclusiveMinimum") (fun n => num_le value n)
      "exclusive_minimum" "Expected value > " path
    ++ number_issue (number_keyword schema "exclusiveMaximum") (fun n => num_le n value)
      "exclusive_maximum" "Expected value < " path in
  let? multiple := validate_multiple_of schema value path in
  Ok (issues ++ multiple).

(** [uniqueItems]: [seen] holds the items met so far, in reverse. *)
Fixpoint unique_items (path : list segment) (index : nat) (seen : list json) (items : list json)
    : list issue :=
  match items with
  | [] => []
  | item :: rest =>
      if existsb (json_equal item) seen
      then Build_issue "unique_items" [Text "Expected every item to be unique."] (path ++ [Index index])
           :: unique_items path (S index) seen rest
      else unique_items path (S index) (item :: seen) rest
  end.

Definition missing_key (value : list (string * json)) (key : json) : option string :=
  match key with
  | JStr k => if dmem k value then None else Some k
  | _ => None
  end.

Definition required_issues (schema value : list (string * json)) (path : list segment) : list issue :=
  match list_keyword schema "required" with
  | Some required =>
      map (fun key => Build_issue "required_property"
                        [Text ("Missing required property `" +:+ key +:+ "`.")] (path ++ [Key key]))
        (omap (missing_key value) required)
  | None => []
  end.

Definition dependent_required_issues (schema value : list (string * json)) (path : list segment)
    : list issue :=
  List.concat (map (fun '(trigger, dependents) =>
    match dmem trigger value, dependents with
    | true, JArr keys =>
        map (fun key => Build_issue "dependent_required_property"
                          [Text ("Property `" +:+ key +:+ "` is required when `" +:+ trigger
                                 +:+ "` is present.")] (path ++ [Key key]))
          (omap (missing_key value) keys)
    | _, _ => []
    end) (object_keyword schema "dependentRequired")).

Section validator.
  (** [re.compile] and [Pattern.search]. *)
Context (re_compile : string -> option (string -> bool)).

Definition validate_string (schema : list (string * json)) (value : string) (path : list segment)
    : list issue :=
  let n := Z.of_nat (String.length value) in
  bound_issue (int_keyword schema "minLength") (fun m => (n <? m)%Z) "min_length"
    "Expected string length >= " "." path
  ++ bound_issue (int_keyword schema "maxLength") (fun m => (m <? n)%Z) "max_length"
    "Expected string length <= " "." path
  ++ match dget "pattern" schema with
     | Some (JStr pattern) =>
         match re_compile pattern with
         | Some search =>
             issue_if (negb (search value))
               (Build_issue "pattern_mismatch"
                  [Text ("Expected a string matching `" +:+ pattern +:+ "`.")] path)
         | None => []
         end
     | _ => []
     end.

(** The keys of [value] that a pattern of [patternProperties] matches. *)
Definition matched_by (pattern_properties value : list (string * json)) (key : string) : bool :=
  existsb (fun '(pattern, _) => match re_compile pattern with
                                | Some search => search key
                                | None => false
                                end) pattern_properties.

Section node.
  (** The recursive call [_validate_node(schema, value, path, root, ref_depth)]. *)
Context (validate : json -> json -> list segment -> nat -> issues_or_error).
Context (root : json).

Definition validate_reference (schema : list (string * json)) (value : json) (path : list segment)
    (ref_depth : nat) : issues_or_error :=
  match dget "$ref" schema with
  | Some (JStr reference) =>
      if (MAX_REF_DEPTH <=? ref_depth)%nat then
        Ok [Build_issue "schema_recursion"
              [Text ("Stopped resolving `$ref` after 64 hops without consuming any of the "
                     +:+ "value; the schema references itself unconditionally.")] path]
      else
        match resolve_reference reference root with
        | None =>
            Ok [Build_issue "unresolvable_ref"
                  [Text ("Cannot resolve `$ref` `" +:+ reference +:+ "`; LewLM validates against "
                         +:+ "the submitted schema document only and does not fetch external references.")]
                  path]
        | Some target => validate target value path (S ref_depth)
        end
  | _ => Ok []
  end.

Definition validate_all_of (schema : list (string * json)) (value : json) (path : list segment)
    (ref_depth : nat) : issues_or_error :=
  match list_keyword schema "allOf" with
  | Some all_of => extend_all (fun s => validate s value path ref_depth) all_of
  | None => Ok []
  end.

Definition validate_any_of (schema : list (string * json)) (value : json) (path : list segment)
    (ref_depth : nat) : issues_or_error :=
  match list_keyword schema "anyOf" with
  | Some (s :: ss) =>
      let? branch_issues := map_all (fun s => validate s value path ref_depth) (s :: ss) in
      Ok (issue_if (forallb nonempty branch_issues)
            (branch_mismatch "any_of_mismatch" branch_issues path "at least one"))
  | _ => Ok []
  end.

(** The indices of the branches without issues. *)
Fixpoint matched_branches (index : nat) (branch_issues : list (list issue)) : list nat :=
  match branch_issues with
  | [] => []
  | b :: rest => if nonempty b then matched_branches (S index) rest
                 else index :: matched_branches (S index) rest
  end.

Definition validate_one_of (schema : list (string * json)) (value : json) (path : list segment)
    (ref_depth : nat) : issues_or_error :=
  match list_keyword schema "oneOf" with
  | Some (s :: ss) =>
      let? branch_issues := map_all (fun s => validate s value path ref_depth) (s :: ss) in
      Ok (match matched_branches 0 branch_issues with
          | [] => [branch_mismatch "one_of_mismatch" branch_issues path "exactly one"]
          | [_] => []
          | matched =>
              [Build_issue "one_of_ambiguous"
                 [Text ("Expected exactly one `oneOf` branch to match, but branches "
                        +:+ String.concat ", " (map (fun i => pretty (Z.of_nat i)) matched)
                        +:+ " all matched.")] path]
          end)
  | _ => Ok []
  end.

Definition validate_not (schema : list (string * json)) (value : json) (path : list segment)
    (ref_depth : nat) : issues_or_error :=
  match dget "not" schema with
  | Some s =>
      let? negated := validate s value path ref_depth in
      Ok (issue_if (negb (nonempty negated))
            (Build_issue "not_mismatch" [Text "Value matched a schema declared under `not`."] path))
  | None => Ok []
  end.

Definition validate_composition (schema : list (string * json)) (value : json) (path : list segment)
    (ref_depth : nat) : issues_or_error :=
  let? all_of := validate_all_of schema value path ref_depth in
  let? any_of := validate_any_of schema value path ref_depth in
  let? one_of := validate_one_of schema value path ref_depth in
  let? negated := validate_not schema value path ref_depth in
  Ok (all_of ++ any_of ++ one_of ++ negated).

(** The member [m] of the value against the schema [s]: a key consumes part of
    the value, so the reference depth restarts at 0. *)
Definition validate_member (path : list segment) (s : json) (m : string * json) : issues_or_error :=
  validate s m.2 (path ++ [Key m.1]) 0.

Definition validate_properties (schema value : list (string * json)) (path : list segment)
    : issues_or_error :=
  extend_all (fun '(key, property_schema) =>
    match dget key value with
    | Some v => validate_member path property_schema (key, v)
    | None => Ok []
    end) (object_keyword schema "properties").

Definition validate_pattern_properties (schema value : list (string * json)) (path : list segment)
    : issues_or_error :=
  extend_all (fun '(pattern, property_schema) =>
    match re_compile pattern with
    | None => Ok []
    | Some search =>
        extend_all (validate_member path property_schema) (List.filter (fun m => search m.1) value)
    end) (object_keyword schema "patternProperties").

Definition validate_property_names (schema value : list (string * json)) (path : list segment)
    : issues_or_error :=
  match schema_keyword schema "propertyNames" with
  | Some names => extend_all (fun m => validate names (JStr m.1) (path ++ [Key m.1]) 0) value
  | None => Ok []
  end.

Definition extra_members (schema value : list (string * json)) : list (string * json) :=
  List.filter (fun m => negb (dmem m.1 (object_keyword schema "properties"))
                        && negb (matched_by (object_keyword schema "patternProperties") value m.1)) value.

Definition validate_additional (schema value : list (string * json)) (path : list segment)
    : issues_or_error :=
  match dget "additionalProperties" schema with
  | None | Some (JBool true) => Ok []
  | Some (JBool false) =>
      Ok (map (fun m => Build_issue "additional_property"
                          [Text ("Unexpected property `" +:+ m.1 +:+ "`.")] (path ++ [Key m.1]))
            (extra_members schema value))
  | Some s => extend_all (validate_member path s) (extra_members schema value)
  end.

Definition validate_object (schema value : list (string * json)) (path : list segment)
    : issues_or_error :=
  let n := Z.of_nat (length value) in
  let? properties := validate_properties schema value path in
  let? patterns := validate_pattern_properties schema value path in
  let? names := validate_property_names schema value path in
  let? additional := validate_additional schema value path in
  Ok (required_issues schema value path
      ++ dependent_required_issues schema value path
      ++ bound_issue (int_keyword schema "minProperties") (fun m => (n <? m)%Z) "min_properties"
           "Expected at least " " propert(y/ies)." path
      ++ bound_issue (int_keyword schema "maxProperties") (fun m => (m <? n)%Z) "max_properties"
           "Expected at most " " propert(y/ies)." path
      ++ properties ++ patterns ++ names ++ additional).

(** [enumerate(items)] from index [first]. *)
Definition enumerate_from (first : nat) (items : list json) : list (nat * json) :=
  imap (fun i item => ((first + i)%nat, item)) items.

Definition validate_item (path : list segment) (s : json) (item : nat * json) : issues_or_error :=
  validate s item.2 (path ++ [Index item.1]) 0.

Definition validate_prefix_items (schema : list (string * json)) (value : list json)
    (path : list segment) : issues_or_error :=
  match list_keyword schema "prefixItems" with
  | Some prefix_items =>
      extend_all (fun '(s, item) => validate_item path s item)
        (zip prefix_items (enumerate_from 0 value))
  | None => Ok []
  end.

Definition validate_items (schema : list (string * json)) (value : list json)
    (path : list segment) : issues_or_error :=
  let prefix_count := match list_keyword schema "prefixItems" with Some l => length l | None => 0%nat end in
  match schema_keyword schema "items" with
  | Some s => extend_all (validate_item path s) (enumerate_from prefix_count (drop prefix_count value))
  | None => Ok []
  end.

Definition validate_contains (schema : list (string * json)) (value : list json)
    (path : list segment) : issues_or_error :=
  match schema_keyword schema "contains" with
  | Some contains =>
      let? results := map_all (validate_item path contains) (enumerate_from 0 value) in
      let match_count := countb (fun issues => negb (nonempty issues)) results in
      let min_contains := match int_keyword schema "minContains" with Some n => n | None => 1%Z end in
      Ok (issue_if (match_count <? min_contains)%Z
            (Build_issue "contains"
               [Text ("Expected at least " +:+ pretty min_contains +:+ " item(s) matching `contains`, found "
                      +:+ pretty match_count +:+ ".")] path)
          ++ match int_keyword schema "maxContains" with
             | Some max_contains =>
                 issue_if (max_contains <? match_count)%Z
                   (Build_issue "max_contains"
                      [Text ("Expected at most " +:+ pretty max_contains
                             +:+ " item(s) matching `contains`, found " +:+ pretty match_count +:+ ".")] path)
             | None => []
             end)
  | None => Ok []
  end.

Definition validate_array (schema : list (string * json)) (value : list json) (path : list segment)
    : issues_or_error :=
  let n := Z.of_nat (length value) in
  let? prefix := validate_prefix_items schema value path in
  let? items := validate_items schema value path in
  let? contains := validate_contains schema value path in
  Ok (bound_issue (int_keyword schema "minItems") (fun m => (n <? m)%Z) "min_items"
        "Expected at least " " item(s)." path
      ++ bound_issue (int_keyword schema "maxItems") (fun m => (m <? n)%Z) "max_items"
        "Expected at most " " item(s)." path
      ++ match dget "uniqueItems" schema with
         | Some (JBool true) => unique_items path 0 [] value
         | _ => []
         end
      ++ prefix ++ items ++ contains).

Definition const_issues (schema : list (string * json)) (value : json) (path : list segment) : list issue :=
  match dget "const" schema with
  | Some c => issue_if (negb (json_equal value c))
                (Build_issue "const_mismatch" [Text "Expected constant value "; Repr c; Text "."] path)
  | None => []
  end.

Definition enum_issues (schema : list (string * json)) (value : json) (path : list segment) : list issue :=
  match list_keyword schema "enum" with
  | Some l => issue_if (negb (existsb (json_equal value) l))
                (Build_issue "enum_mismatch" [Text "Expected one of "; Repr (JArr l); Text "."] path)
  | None => []
  end.

(** The body of [_validate_node] for a schema that is a dictionary. *)
Definition validate_dict (schema : list (string * json)) (value : json) (path : list segment)
    (ref_depth : nat) : issues_or_error :=
  let? reference := validate_reference schema value path ref_depth in
  let issues := reference ++ const_issues schema value path ++ enum_issues schema value path in
  let expected_types := expected_json_types (dget "type" schema) in
  if nonempty expected_types && negb (existsb (matches_json_type value) expected_types) then
    Ok (issues
        ++ [Build_issue "type_mismatch"
              [Text ("Expected " +:+ describe_types expected_types +:+ ", but received "
                     +:+ json_type_name value +:+ ".")] path])
  else
    let? composition := validate_composition schema value path ref_depth in
    let? specific :=
      match value with
      | JObj members => validate_object schema members path
      | JArr items => validate_array schema items path
      | JStr s => Ok (validate_string schema s path)
      | JInt _ | JFloat _ => validate_number schema value path
      | JNull | JBool _ => Ok []
      end in
    Ok (issues ++ composition ++ specific).

Definition validate_body (schema value : json) (path : list segment) (ref_depth : nat)
    : issues_or_error :=
  match schema with
  | JBool true => Ok []
  | JBool false =>
      Ok [Build_issue "schema_forbids_value"
            [Text "The schema forbids any value at this location."] path]
  | JObj members => validate_dict members value path ref_depth
  | _ => Ok []
  end.
End node.

Fixpoint validate_node (fuel : nat) (root schema value : json) (path : list segment)
    (ref_depth : nat) : issues_or_error :=
  match fuel with
  | O => Err OutOfFuel
  | S fuel' => validate_body (validate_node fuel' root) root schema value path ref_depth
  end.
End validator.

(** ** Depth of values and schemas *)

Definition max_list (l : list nat) : nat := foldr Nat.max 0%nat l.

Fixpoint jdepth (j : json) : nat :=
  match j with
  | JArr items => S (max_list (map jdepth items))
  | JObj members => S (max_list (map (fun m => jdepth m.2) members))
  | _ => 0
  end.

Lemma max_list_le x l : x ∈ l -> (x <= max_list l)%nat.
Proof.
  induction l as [|y l IH]; [by intros ?%not_elem_of_nil|].
  intros [->|H]%elem_of_cons; simpl; [lia|]. apply IH in H. lia.
Qed.

Lemma jdepth_item x items : x ∈ items -> (jdepth x < jdepth (JArr items))%nat.
Proof.
  intros H. simpl. apply Nat.lt_succ_r, max_list_le. by apply (list_elem_of_fmap_2 jdepth).
Qed.

Lemma jdepth_member m members : m ∈ members -> (jdepth m.2 < jdepth (JObj members))%nat.
Proof.
  intros H. simpl. apply Nat.lt_succ_r, max_list_le.
  by apply (list_elem_of_fmap_2 (fun m : string * json => jdepth m.2)).
Qed.

Lemma jdepth_dget k v members : dget k members = Some v -> (jdepth v < jdepth (JObj members))%nat.
Proof. intros H%dget_Some_elem. by apply (jdepth_member (k, v)). Qed.

Lemma jdepth_list_keyword k l x schema :
  list_keyword schema k = Some l -> x ∈ l -> (jdepth x < jdepth (JObj schema))%nat.
Proof.
  unfold list_keyword. destruct (dget k schema) as [[]|] eqn:Hk; try done.
  intros Hl Hx. simplify_eq. apply jdepth_item in Hx. apply jdepth_dget in Hk. lia.
Qed.

Lemma jdepth_object_keyword k m schema :
  m ∈ object_keyword schema k -> (jdepth m.2 < jdepth (JObj schema))%nat.
Proof.
  unfold object_keyword. destruct (dget k schema) as [[]|] eqn:Hk; try by intros ?%not_elem_of_nil.
  intros Hx. apply jdepth_member in Hx. apply jdepth_dget in Hk. lia.
Qed.

Lemma jdepth_schema_keyword k s schema :
  schema_keyword schema k = Some s -> (jdepth s < jdepth (JObj schema))%nat.
Proof.
  unfold schema_keyword. destruct (dget k schema) as [[]|] eqn:Hk; try done;
    intros H; simplify_eq; by apply jdepth_dget in Hk.
Qed.

Lemma resolve_token_depth node t n : resolve_token node t = Some n -> (jdepth n < jdepth node)%nat.
Proof.
  unfold resolve_token. destruct node as [| | | | |items|members]; try done.
  - destruct (int_of_string t) as [i|]; [|done]. case_if; [done|].
    intros H%list_elem_of_lookup_2. by apply jdepth_item.
  - apply jdepth_dget.
Qed.

Lemma resolve_tokens_depth tokens node n :
  resolve_tokens node tokens = Some n -> (jdepth n <= jdepth node)%nat.
Proof.
  revert node. induction tokens as [|t ts IH]; intros node; simpl; [intros; by simplify_eq|].
  destruct (resolve_token node (decode_token t)) as [n'|] eqn:Ht; [|done].
  intros H%IH. apply resolve_token_depth in Ht. lia.
Qed.

Lemma resolve_reference_depth r root t :
  resolve_reference r root = Some t -> (jdepth t <= jdepth root)%nat.
Proof.
  unfold resolve_reference. destruct (strip_prefix "#" r) as [[|c p]|]; try done.
  - intros; by simplify_eq.
  - destruct (strip_prefix "/" (String c p)); [|done]. apply resolve_tokens_depth.
Qed.

(** ** Termination

    A call consumes part of the value, or follows one more reference (at most
    64 before it consumes part of the value), or moves to a smaller schema. *)

Definition call_measure (root schema value : json) (ref_depth : nat) : nat :=
  (jdepth value * (66 * S (jdepth root)) + (MAX_REF_DEPTH - ref_depth) * S (jdepth root)
   + jdepth schema)%nat.

(** The depth of the call stack that is always enough. *)
Definition enough_fuel (root value : json) : nat :=
  S (S (jdepth value) * (66 * S (jdepth root)))%nat.

(** The two results agree and are not for lack of fuel. *)
Definition agrees {A} (r r' : result py_error A) : Prop := r = r' /\ r <> Err OutOfFuel.

Lemma agrees_ok {A} (x : A) : agrees (Ok x) (Ok x).
Proof. done. Qed.

Lemma agrees_self {A} (r : result py_error A) : r <> Err OutOfFuel -> agrees r r.
Proof. done. Qed.

Lemma agrees_bind {A B} (r r' : result py_error A) (k k' : A -> result py_error B) :
  agrees r r' -> (forall x, agrees (k x) (k' x)) -> agrees (rbind r k) (rbind r' k').
Proof.
  intros [<- Hr] Hk. destruct r as [x|e]; [apply Hk|]. split; [done|]. simpl. congruence.
Qed.

Lemma agrees_extend_all {A} (f f' : A -> issues_or_error) l :
  (forall x, x ∈ l -> agrees (f x) (f' x)) -> agrees (extend_all f l) (extend_all f' l).
Proof.
  induction l as [|x l IH]; intros H; [done|]. simpl.
  apply agrees_bind; [apply H; by left|]. intros issues.
  apply agrees_bind; [apply IH; intros y Hy; apply H; by right|done].
Qed.

Lemma agrees_map_all {A} (f f' : A -> issues_or_error) l :
  (forall x, x ∈ l -> agrees (f x) (f' x)) -> agrees (map_all f l) (map_all f' l).
Proof.
  induction l as [|x l IH]; intros H; [done|]. simpl.
  apply agrees_bind; [apply H; by left|]. intros issues.
  apply agrees_bind; [apply IH; intros y Hy; apply H; by right|done].
Qed.

Lemma agrees_validate_number schema value path :
  agrees (validate_number schema value path) (validate_number schema value path).
Proof.
  apply agrees_bind; [|done]. apply agrees_self. unfold validate_multiple_of.
  destruct (number_keyword schema "multipleOf") as [m|]; [|done]. case_if; [|done].
  assert (Hdiv : num_div value m <> Err OutOfFuel).
  { unfold num_div, to_float. destruct value, m; simpl; repeat case_if; done. }
  destruct (num_div value m) as [q|[]]; simpl; try done.
  unfold py_round. destruct (f_round_int q); [done|]. by destruct q.
Qed.

Create HintDb agrees.
#[export] Hint Resolve agrees_ok agrees_bind agrees_validate_number : agrees.

Section bounded_calls.
Context (re_compile : string -> option (string -> bool)).
Context (V V' : json -> json -> list segment -> nat -> issues_or_error).
Context (root : json) (n : nat).
Context (HV : forall s v p rd, (jdepth s <= jdepth root)%nat -> (call_measure root s v rd < n)%nat ->
                agrees (V s v p rd) (V' s v p rd)).

Section of_a_node.
Context (s : list (string * json)) (v : json) (rd : nat).
Context (Hs : (jdepth (JObj s) <= jdepth root)%nat).
Context (Hm : (call_measure root (JObj s) v rd <= n)%nat).

Lemma agrees_subschema x p :
    (jdepth x < jdepth (JObj s))%nat -> agrees (V x v p rd) (V' x v p rd).
  Proof. intros Hx. apply HV; [lia|]. unfold call_measure in *. lia. Qed.

Lemma agrees_target t p :
    (jdepth t <= jdepth root)%nat -> (rd < MAX_REF_DEPTH)%nat -> agrees (V t v p (S rd)) (V' t v p (S rd)).
  Proof.
    intros Ht Hrd. apply HV; [done|]. unfold call_measure in *.
    replace (MAX_REF_DEPTH - rd)%nat with (S (MAX_REF_DEPTH - S rd)) in Hm by lia.
    rewrite (Nat.mul_succ_l (MAX_REF_DEPTH - S rd)) in Hm. lia.
  Qed.

Lemma agrees_part x w p :
    (jdepth x < jdepth (JObj s))%nat -> (jdepth w < jdepth v)%nat -> agrees (V x w p 0) (V' x w p 0).
  Proof.
    intros Hx Hw. apply HV; [lia|]. unfold call_measure in *.
    pose proof (Nat.mul_le_mono_r (S (jdepth w)) (jdepth v) (66 * S (jdepth root)) Hw) as Hmul.
    rewrite Nat.mul_succ_l in Hmul.
    set (used := ((MAX_REF_DEPTH - rd) * S (jdepth root))%nat) in *. clearbody used.
    change (MAX_REF_DEPTH - 0)%nat with 64%nat. lia.
  Qed.

Lemma agrees_reference p :
    agrees (validate_reference V root s v p rd) (validate_reference V' root s v p rd).
  Proof.
    unfold validate_reference. destruct (dget "$ref" s) as [[]|]; try done.
    destruct (Nat.leb_spec MAX_REF_DEPTH rd); [done|].
    destruct (resolve_reference s0 root) as [t|] eqn:Ht; [|done].
    apply agrees_target; [by eapply resolve_reference_depth|done].
  Qed.

Lemma agrees_all_of p : agrees (validate_all_of V s v p rd) (validate_all_of V' s v p rd).
  Proof.
    unfold validate_all_of. destruct (list_keyword s "allOf") as [l|] eqn:Hl; [|done].
    apply agrees_extend_all. intros x Hx. apply agrees_subschema. by eapply jdepth_list_keyword.
  Qed.

Lemma agrees_branches k l p :
    list_keyword s k = Some l ->
    agrees (map_all (fun x => V x v p rd) l) (map_all (fun x => V' x v p rd) l).
  Proof.
    intros Hl. apply agrees_map_all. intros x Hx. apply agrees_subschema.
    by eapply jdepth_list_keyword.
  Qed.

Lemma agrees_composition p :
    agrees (validate_composition V s v p rd) (validate_composition V' s v p rd).
  Proof.
    unfold validate_composition. apply agrees_bind; [apply agrees_all_of|intros ?r].
    apply agrees_bind; [|intros ?r; apply agrees_bind; [|intros ?r; apply agrees_bind; [|done]]].
    - unfold validate_any_of. destruct (list_keyword s "anyOf") as [[|y l]|] eqn:Hl; try done.
      apply agrees_bind; [|done]. by eapply agrees_branches.
    - unfold validate_one_of. destruct (list_keyword s "oneOf") as [[|y l]|] eqn:Hl; try done.
      apply agrees_bind; [|done]. by eapply agrees_branches.
    - unfold validate_not. destruct (dget "not" s) as [y|] eqn:Hy; [|done].
      apply agrees_bind; [|done]. apply agrees_subschema. by eapply jdepth_dget.
  Qed.

Lemma agrees_members x p members :
    (jdepth x < jdepth (JObj s))%nat ->
    (forall m, m ∈ members -> (jdepth m.2 < jdepth v)%nat) ->
    agrees (extend_all (validate_member V p x) members) (extend_all (validate_member V' p x) members).
  Proof.
    intros Hx Hin. apply agrees_extend_all. intros m Hmem. apply agrees_part; [done|auto].
  Qed.
End of_a_node.

Lemma agrees_object s members p rd :
    (jdepth (JObj s) <= jdepth root)%nat -> (call_measure root (JObj s) (JObj members) rd <= n)%nat ->
    agrees (validate_object re_compile V s members p) (validate_object re_compile V' s members p).
  Proof.
    intros Hs Hm. unfold validate_object.
    apply agrees_bind; [|intros ?r; apply agrees_bind; [|intros ?r; apply agrees_bind;
      [|intros ?r; apply agrees_bind; [|done]]]].
    - apply agrees_extend_all. intros [k x] Hx. destruct (dget k members) as [w|] eqn:Hw; [|done].
      eapply agrees_part; [exact Hs|exact Hm|by apply jdepth_object_keyword in Hx|by eapply jdepth_dget].
    - apply agrees_extend_all. intros [pat x] Hx. destruct (re_compile pat) as [search|]; [|done].
      eapply agrees_members; [exact Hs|exact Hm|by apply jdepth_object_keyword in Hx|].
      intros m Hmem. apply jdepth_member. apply list_elem_of_In, filter_In in Hmem as [Hmem _].
      by apply list_elem_of_In.
    - unfold validate_property_names. destruct (schema_keyword s "propertyNames") as [x|] eqn:Hx; [|done].
      apply agrees_extend_all. intros m _.
      eapply agrees_part; [exact Hs|exact Hm|by eapply jdepth_schema_keyword|simpl; lia].
    - unfold validate_additional. destruct (dget "additionalProperties" s) as [x|] eqn:Hx; [|done].
      assert (agrees (extend_all (validate_member V p x) (extra_members re_compile s members))
                     (extend_all (validate_member V' p x) (extra_members re_compile s members))).
      { eapply agrees_members; [exact Hs|exact Hm|by eapply jdepth_dget|].
        intros m Hmem. apply jdepth_member. apply list_elem_of_In, filter_In in Hmem as [Hmem _].
        by apply list_elem_of_In. }
      destruct x as [|[]| | | | |]; done.
  Qed.

Lemma elem_enumerate_from first items m : m ∈ enumerate_from first items -> m.2 ∈ items.
  Proof.
    unfold enumerate_from. intros (i & y & -> & Hi)%elem_of_lookup_imap. simpl.
    by eapply list_elem_of_lookup_2.
  Qed.

Lemma agrees_array s items p rd :
    (jdepth (JObj s) <= jdepth root)%nat -> (call_measure root (JObj s) (JArr items) rd <= n)%nat ->
    agrees (validate_array V s items p) (validate_array V' s items p).
  Proof.
    intros Hs Hm. unfold validate_array.
    apply agrees_bind; [|intros ?r; apply agrees_bind; [|intros ?r; apply agrees_bind; [|done]]].
    - unfold validate_prefix_items. destruct (list_keyword s "prefixItems") as [l|] eqn:Hl; [|done].
      apply agrees_extend_all. intros [x item] Hx.
      pose proof (elem_of_zip_l _ _ _ _ Hx) as Hxl. pose proof (elem_of_zip_r _ _ _ _ Hx) as Hitem.
      eapply agrees_part; [exact Hs|exact Hm|by eapply jdepth_list_keyword|].
      by apply jdepth_item, (elem_enumerate_from 0).
    - unfold validate_items. destruct (schema_keyword s "items") as [x|] eqn:Hx; [|done].
      apply agrees_extend_all. intros item Hitem%elem_enumerate_from.
      eapply agrees_part; [exact Hs|exact Hm|by eapply jdepth_schema_keyword|].
      apply jdepth_item. by eapply subseteq_drop.
    - unfold validate_contains. destruct (schema_keyword s "contains") as [x|] eqn:Hx; [|done].
      apply agrees_bind; [|done]. apply agrees_map_all. intros item Hitem%elem_enumerate_from.
      eapply agrees_part; [exact Hs|exact Hm|by eapply jdepth_schema_keyword|by apply jdepth_item].
  Qed.

Lemma agrees_body schema value p rd :
    (jdepth schema <= jdepth root)%nat -> (call_measure root schema value rd <= n)%nat ->
    agrees (validate_body re_compile V root schema value p rd)
           (validate_body re_compile V' root schema value p rd).
  Proof.
    intros Hs Hm. destruct schema as [|[]| | | | |s]; try done. simpl.
    unfold validate_dict. apply agrees_bind; [by apply agrees_reference|intros ?r].
    case_if; [done|]. apply agrees_bind; [by apply agrees_composition|intros ?r].
    apply agrees_bind; [|done]. destruct value as [| | | | |items|members]; try done.
    - apply agrees_validate_number.
    - apply agrees_validate_number.
    - by eapply agrees_array.
    - by eapply agrees_object.
  Qed.
End bounded_calls.

Lemma agrees_node re_compile root f f' schema value p rd :
  (jdepth schema <= jdepth root)%nat ->
  (call_measure root schema value rd < f)%nat -> (call_measure root schema value rd < f')%nat ->
  agrees (validate_node re_compile f root schema value p rd)
         (validate_node re_compile f' root schema value p rd).
Proof.
  revert f' schema value p rd. induction f as [|f IH]; intros f' schema value p rd Hs Hf Hf'; [lia|].
  destruct f' as [|f']; [lia|]. simpl.
  apply agrees_body with (n := Nat.min f f'); [|done|lia].
  intros s' v' p' rd' Hs' Hlt. apply IH; [done|lia|lia].
Qed.

(** [validate_value_against_json_schema]: the schema is its own [$ref] root. *)
Definition validate_value_against_json_schema (re_compile : string -> option (string -> bool))
    (schema value : json) : issues_or_error :=
  validate_node re_compile (enough_fuel schema value) schema schema value [] 0.

(** ** Requests and results *)

Inductive output_format := FText | FJsonSchema | FGrammar.

Inductive structured_output_request :=
| JSONSchemaResponseFormat (schema_payload : list (string * json)) (name : option string) (strict : bool)
| GrammarResponseFormat (grammar syntax : string) (name : option string) (strict : bool).

Inductive validation_state := Not_requested | Valid | Invalid | Unavailable.
Inductive validator_kind := No_validator | Json_parse_only | Full_json_schema | Grammar_validator.

(** An issue's message in [sv_issues] and the summary [sv_message]. *)
Record structured_output_validation := {
  sv_state : validation_state;
  sv_validator : validator_kind;
  sv_message : option string;
  sv_issues : list issue
}.

Inductive enforcement_evidence := Decoder | Upstream_native | Prompt.
Inductive enforcement := Prompt_guided | Decode_time.

Record runtime_status := {
  rs_runtime : option string;
  rs_mode : output_format;
  rs_enforcement : enforcement;
  rs_decoder_enforced : bool;
  rs_fallback_used : bool;
  rs_fallback_reason : option string;
  rs_enforcement_evidence : option enforcement_evidence;
  rs_grammar_relaxations : list string
}.

Record structured_output_result := {
  sr_contract : structured_output_request;
  sr_status : runtime_status;
  sr_enforcement_evidence : enforcement_evidence;
  sr_parsed_output : option json;
  sr_validation : structured_output_validation
}.

Definition build_structured_output_request (format : output_format)
    (schema : option (list (string * json))) (grammar syntax name : option string)
    (strict : option bool) : option structured_output_request :=
  let strict := match strict with None => true | Some b => b end in
  match format with
  | FText => None
  | FJsonSchema =>
      Some (JSONSchemaResponseFormat (match schema with Some s => s | None => [] end) name strict)
  | FGrammar =>
      Some (GrammarResponseFormat (match grammar with Some g => g | None => "" end)
              (match or_else syntax (Some "ebnf") with Some x => x | None => "ebnf" end) name strict)
  end.

Definition PROMPT_GUIDED_FALLBACK_REASON : string :=
  "LewLM recorded the structured-output contract, but this path still relies on "
  +:+ "prompt-guided fallback rather than decode-time constrained decoding.".

(** [_runtime_status] for a status object or [None]; a dictionary is turned into
    a status by pydantic before it gets here. *)
Definition runtime_status_of (payload : option runtime_status) (format : output_format) : runtime_status :=
  match payload with
  | Some status => status
  | None => Build_runtime_status None format Prompt_guided false true
              (Some PROMPT_GUIDED_FALLBACK_REASON) None []
  end.

Definition enforcement_evidence_of (status : runtime_status) : enforcement_evidence :=
  match rs_enforcement_evidence status with
  | Some evidence => evidence
  | None => if rs_decoder_enforced status then Decoder else Prompt
  end.

Section analysis.
Context (re_compile : string -> option (string -> bool)).
  (** [json.loads]: a value, or the message, line and column of the error. *)
Context (json_loads : string -> json + (string * Z * Z)).

Definition analyze_json_schema_output (output_text : string) (schema : list (string * json))
    (decoder_enforced : bool) : result py_error (option json * structured_output_validation) :=
  let stripped := strip output_text in
  if (stripped =? "")%string then
    Ok (None, Build_structured_output_validation Invalid Json_parse_only
          (Some "Model output was empty for a requested json_schema contract.")
          [Build_issue "invalid_json"
             [Text "Expected a JSON value, but the model returned an empty response."] []])
  else
    match json_loads stripped with
    | inr (msg, lineno, colno) =>
        Ok (None, Build_structured_output_validation Invalid Json_parse_only
              (Some "Model output was not valid JSON for the requested json_schema contract.")
              [Build_issue "invalid_json"
                 [Text (msg +:+ " at line " +:+ pretty lineno +:+ ", column " +:+ pretty colno +:+ ".")] []])
    | inl parsed =>
        let? issues := validate_value_against_json_schema re_compile (JObj schema) parsed in
        Ok (Some parsed,
            if nonempty issues then
              Build_structured_output_validation Invalid Full_json_schema
                (Some "Parsed JSON did not conform to the requested JSON schema.") issues
            else
              Build_structured_output_validation Valid Full_json_schema
                (Some (if decoder_enforced
                       then "LewLM enforced the requested JSON schema at decode time on the selected runtime path."
                       else "LewLM validated the parsed JSON against the requested JSON schema after generation."))
                [])
    end.

Definition grammar_validation (status : runtime_status) : structured_output_validation :=
  if rs_decoder_enforced status then
    Build_structured_output_validation Valid Grammar_validator
      (Some "LewLM enforced the requested grammar at decode time on the selected runtime path.") []
  else
    Build_structured_output_validation Unavailable Grammar_validator
      (Some ("LewLM recorded the requested grammar contract, but this path does not yet "
             +:+ "provide decode-time or post-generation grammar validation.")) [].

Definition analyze_structured_output (format : output_format) (output_text : string)
    (schema : option (list (string * json))) (grammar syntax name : option string)
    (strict : option bool) (payload : option runtime_status)
    : result py_error (option structured_output_result) :=
  match build_structured_output_request format schema grammar syntax name strict with
  | None => Ok None
  | Some contract =>
      let status := runtime_status_of payload format in
      match contract with
      | JSONSchemaResponseFormat schema_payload _ _ =>
          let? (parsed_output, validation) :=
            analyze_json_schema_output output_text schema_payload (rs_decoder_enforced status) in
          Ok (Some (Build_structured_output_result contract status (enforcement_evidence_of status)
                      parsed_output validation))
      | GrammarResponseFormat _ _ _ _ =>
          Ok (Some (Build_structured_output_result contract status (enforcement_evidence_of status)
                      None (grammar_validation status)))
      end
  end.
End analysis.

(** ** Reference semantics

    What a conforming value is, keyword by keyword, without issues, paths or an
    order of evaluation.  [conforms] is a relation on schema, value and number
    of references followed; its fuel bounds the nesting of the definition. *)

Section semantics.
Context (re_compile : string -> option (string -> bool)).

Definition conforms_string (s : list (string * json)) (v : string) : Prop :=
    (forall n, int_keyword s "minLength" = Some n -> (n <= Z.of_nat (String.length v))%Z) /\
    (forall n, int_keyword s "maxLength" = Some n -> (Z.of_nat (String.length v) <= n)%Z) /\
    (forall pat search, dget "pattern" s = Some (JStr pat) -> re_compile pat = Some search ->
       search v = true).

Definition conforms_number (s : list (string * json)) (v : json) : Prop :=
    (forall n, number_keyword s "minimum" = Some n -> num_lt v n = false) /\
    (forall n, number_keyword s "maximum" = Some n -> num_lt n v = false) /\
    (forall n, number_keyword s "exclusiveMinimum" = Some n -> num_le v n = false) /\
    (forall n, number_keyword s "exclusiveMaximum" = Some n -> num_le n v = false) /\
    (forall n, number_keyword s "multipleOf" = Some n -> num_lt (JInt 0) n = true ->
       exists q k, num_div v n = Ok q /\ py_round q = Ok k
         /\ fltb float_1e_9 (f_abs (fsub q (f_of_Z k))) = false).

  (** A member that neither [properties] nor [patternProperties] speaks of. *)
Definition extra (s : list (string * json)) (k : string) : Prop :=
    dmem k (object_keyword s "properties") = false /\
    forall pat x search, (pat, x) ∈ object_keyword s "patternProperties" ->
      re_compile pat = Some search -> search k = false.

Section of_schema.
Context (conforms : json -> json -> nat -> Prop) (root : json).

Definition conforms_reference (s : list (string * json)) (v : json) (rd : nat) : Prop :=
    forall r, dget "$ref" s = Some (JStr r) ->
      (rd < MAX_REF_DEPTH)%nat /\
      exists target, resolve_reference r root = Some target /\ conforms target v (S rd).

Definition conforms_composition (s : list (string * json)) (v : json) (rd : nat) : Prop :=
    (forall l, list_keyword s "allOf" = Some l -> forall x, x ∈ l -> conforms x v rd) /\
    (forall l, list_keyword s "anyOf" = Some l -> l <> [] -> exists x, x ∈ l /\ conforms x v rd) /\
    (forall l, list_keyword s "oneOf" = Some l -> l <> [] ->
       exists i x, l !! i = Some x /\ conforms x v rd
         /\ forall j y, l !! j = Some y -> conforms y v rd -> j = i) /\
    (forall x, dget "not" s = Some x -> ~ conforms x v rd).

Definition conforms_object (s m : list (string * json)) : Prop :=
    (forall l k, list_keyword s "required" = Some l -> JStr k ∈ l -> dmem k m = true) /\
    (forall trigger l k, (trigger, JArr l) ∈ object_keyword s "dependentRequired" ->
       dmem trigger m = true -> JStr k ∈ l -> dmem k m = true) /\
    (forall n, int_keyword s "minProperties" = Some n -> (n <= Z.of_nat (length m))%Z) /\
    (forall n, int_keyword s "maxProperties" = Some n -> (Z.of_nat (length m) <= n)%Z) /\
    (forall k x w, (k, x) ∈ object_keyword s "properties" -> dget k m = Some w -> conforms x w 0) /\
    (forall pat x search k w, (pat, x) ∈ object_keyword s "patternProperties" ->
       re_compile pat = Some search -> (k, w) ∈ m -> search k = true -> conforms x w 0) /\
    (forall x k w, schema_keyword s "propertyNames" = Some x -> (k, w) ∈ m -> conforms x (JStr k) 0) /\
    (forall x k w, dget "additionalProperties" s = Some x -> x <> JBool true ->
       (k, w) ∈ m -> extra s k -> x <> JBool false /\ conforms x w 0).

Definition conforms_array (s : list (string * json)) (items : list json) : Prop :=
    (forall n, int_keyword s "minItems" = Some n -> (n <= Z.of_nat (length items))%Z) /\
    (forall n, int_keyword s "maxItems" = Some n -> (Z.of_nat (length items) <= n)%Z) /\
    (dget "uniqueItems" s = Some (JBool true) ->
       forall i j a b, (i < j)%nat -> items !! i = Some a -> items !! j = Some b -> json_equal b a = false) /\
    (forall l i x w, list_keyword s "prefixItems" = Some l -> l !! i = Some x -> items !! i = Some w ->
       conforms x w 0) /\
    (forall x i w, schema_keyword s "items" = Some x ->
       (forall l, list_keyword s "prefixItems" = Some l -> (length l <= i)%nat) ->
       items !! i = Some w -> conforms x w 0) /\
    (forall x, schema_keyword s "contains" = Some x ->
       exists selected : list bool,
         Forall2 (fun w b => b = true <-> conforms x w 0) items selected /\
         (match int_keyword s "minContains" with Some n => n | None => 1 end <= countb id selected)%Z /\
         (forall n, int_keyword s "maxContains" = Some n -> (countb id selected <= n)%Z)).

Definition conforms_dict (s : list (string * json)) (v : json) (rd : nat) : Prop :=
    conforms_reference s v rd /\
    (forall c, dget "const" s = Some c -> json_equal v c = true) /\
    (forall l, list_keyword s "enum" = Some l -> exists c, c ∈ l /\ json_equal v c = true) /\
    (expected_json_types (dget "type" s) <> [] ->
       exists t, t ∈ expected_json_types (dget "type" s) /\ matches_json_type v t = true) /\
    conforms_composition s v rd /\
    match v with
    | JObj m => conforms_object s m
    | JArr items => conforms_array s items
    | JStr t => conforms_string s t
    | JInt _ | JFloat _ => conforms_number s v
    | JNull | JBool _ => True
    end.

Definition conforms_body (schema value : json) (rd : nat) : Prop :=
    match schema with
    | JBool false => False
    | JObj s => conforms_dict s value rd
    | _ => True
    end.
End of_schema.

Fixpoint conforms (fuel : nat) (root schema value : json) (rd : nat) : Prop :=
    match fuel with
    | O => False
    | S fuel' => conforms_body (conforms fuel' root) root schema value rd
    end.
End semantics.

(** ** Verdicts *)

(** A result without exception has no issue exactly when [P] holds. *)
Definition verdict (r : issues_or_error) (P : Prop) : Prop :=
  forall issues, r = Ok issues -> (issues = [] <-> P).

Lemma app_nil_iff {A} (l1 l2 : list A) P Q :
  (l1 = [] <-> P) -> (l2 = [] <-> Q) -> (l1 ++ l2 = [] <-> P /\ Q).
Proof. intros <- <-. split; [intros H; by apply app_eq_nil|by intros [-> ->]]. Qed.

Lemma issue_if_nil b i : issue_if b i = [] <-> b = false.
Proof. by destruct b. Qed.

Lemma verdict_extend_all {A} (f : A -> issues_or_error) (P : A -> Prop) l :
  (forall x, x ∈ l -> verdict (f x) (P x)) -> verdict (extend_all f l) (forall x, x ∈ l -> P x).
Proof.
  induction l as [|x l IH]; intros H issues Hok; simpl in Hok.
  - ok_inv. split; [|done]. intros _ x Hx. by apply not_elem_of_nil in Hx.
  - ok_inv. rewrite (app_nil_iff r r0 (P x) (forall y, y ∈ l -> P y)).
    + split; [intros [Hx Hl] y [->|Hy]%elem_of_cons; auto|].
      intros Hall. split; [apply Hall; by left|intros y Hy; apply Hall; by right].
    + apply (H x); [by left|done].
    + apply IH; [|done]. intros y Hy. apply H. by right.
Qed.

Lemma extend_all_nil {A} (f : A -> issues_or_error) (P : A -> Prop) l issues :
  extend_all f l = Ok issues -> (forall x, x ∈ l -> verdict (f x) (P x)) ->
  (issues = [] <-> forall x, x ∈ l -> P x).
Proof. intros Hok H. by apply (verdict_extend_all f P l H). Qed.

Lemma map_all_Ok {A} (f : A -> issues_or_error) l rs :
  map_all f l = Ok rs -> Forall2 (fun x r => f x = Ok r) l rs.
Proof.
  revert rs. induction l as [|x l IH]; intros rs H; simpl in H; ok_inv; [constructor|].
  constructor; [done|auto].
Qed.

Lemma bound_issue_nil bound violated cd pre suf p :
  bound_issue bound violated cd pre suf p = [] <-> forall n, bound = Some n -> violated n = false.
Proof.
  unfold bound_issue. destruct bound as [n|]; [|done]. rewrite issue_if_nil.
  split; [intros H m Hm; by simplify_eq|auto].
Qed.

Lemma number_issue_nil bound violated cd pre p :
  number_issue bound violated cd pre p = [] <-> forall n, bound = Some n -> violated n = false.
Proof.
  unfold number_issue. destruct bound as [n|]; [|done]. rewrite issue_if_nil.
  split; [intros H m Hm; by simplify_eq|auto].
Qed.

Lemma min_bound_iff (bound : option Z) k :
  (forall n, bound = Some n -> (k <? n)%Z = false) <-> (forall n, bound = Some n -> (n <= k)%Z).
Proof. split; intros H n Hn; specialize (H n Hn); lia. Qed.

Lemma max_bound_iff (bound : option Z) k :
  (forall n, bound = Some n -> (n <? k)%Z = false) <-> (forall n, bound = Some n -> (k <= n)%Z).
Proof. split; intros H n Hn; specialize (H n Hn); lia. Qed.

Lemma verdict_number s v p : verdict (validate_number s v p) (conforms_number s v).
Proof.
  intros issues Hok. unfold validate_number in Hok. ok_inv.
  unfold conforms_number. rewrite <- !app_assoc.
  repeat (apply app_nil_iff; [apply number_issue_nil|]).
  unfold validate_multiple_of in Hr. destruct (number_keyword s "multipleOf") as [m|]; [|by ok_inv].
  destruct (num_lt (JInt 0) m) eqn:Hpos; ok_inv.
  - rewrite issue_if_nil. split; [intros Hf n Hn _; simplify_eq; eauto|].
    intros H. destruct (H m eq_refl Hpos) as (q & k & Hq & Hk & Hf). congruence.
  - split; [|done]. intros _ n Hn Hlt. simplify_eq. congruence.
Qed.

Lemma conforms_string_iff re_compile s v p :
  validate_string re_compile s v p = [] <-> conforms_string re_compile s v.
Proof.
  unfold validate_string, conforms_string. apply app_nil_iff; [by rewrite bound_issue_nil, min_bound_iff|].
  apply app_nil_iff; [by rewrite bound_issue_nil, max_bound_iff|].
  destruct (dget "pattern" s) as [[]|]; try done.
  destruct (re_compile s0) as [search|] eqn:Hs.
  - rewrite issue_if_nil, negb_false_iff. split; [|intros H; by apply (H s0)].
    intros H pat search' ? ?. simplify_eq. congruence.
  - split; [|done]. intros _ pat search ? ?. simplify_eq.
Qed.

(** [seen] accumulates exactly the items met while there is no issue. *)
Lemma unique_items_nil p items : forall i seen,
  unique_items p i seen items = [] <->
  (forall a b, a ∈ seen -> b ∈ items -> json_equal b a = false) /\
  (forall i j a b, (i < j)%nat -> items !! i = Some a -> items !! j = Some b -> json_equal b a = false).
Proof.
  induction items as [|x items IH]; intros i seen; simpl.
  { split; [|done]. intros _. split; [intros a b _ Hb; by apply not_elem_of_nil in Hb|done]. }
  destruct (existsb (json_equal x) seen) eqn:Hx.
  - split; [done|]. intros [Hseen _]. apply existsb_exists in Hx as (a & Ha & Heq).
    apply list_elem_of_In in Ha. rewrite (Hseen a x Ha) in Heq; [done|by left].
  - rewrite IH. split.
    + intros [Hseen Hpairs]. split.
      * intros a b Ha [->|Hb]%elem_of_cons; [|apply Hseen; [by right|done]].
        destruct (json_equal x a) eqn:Hxa; [|done]. assert (existsb (json_equal x) seen = true); [|congruence].
        apply existsb_exists. exists a. split; [by apply list_elem_of_In|done].
      * intros [|i'] [|j'] a b Hij Ha Hb; simpl in *; try lia; [|apply (Hpairs i' j'); [lia|done..]].
        simplify_eq. apply Hseen; [by left|by eapply list_elem_of_lookup_2].
    + intros [Hseen Hpairs]. split.
      * intros a b [->|Ha]%elem_of_cons Hb; [|apply Hseen; [done|by right]].
        apply list_elem_of_lookup_1 in Hb as [j Hj]. apply (Hpairs 0%nat (S j)); [lia|done..].
      * intros i' j' a b Hij Ha Hb. apply (Hpairs (S i') (S j')); [lia|done..].
Qed.

Lemma missing_keys_nil m l :
  omap (missing_key m) l = [] <-> forall k, JStr k ∈ l -> dmem k m = true.
Proof.
  induction l as [|x l IH]; simpl; [split; [intros _ k Hk; by apply not_elem_of_nil in Hk|done]|].
  destruct x as [| | | |k| |]; simpl;
    try (rewrite IH; split; [intros H k [Heq|Hk]%elem_of_cons; [done|auto]
                            |intros H k Hk; apply H; by right]).
  destruct (dmem k m) eqn:Hk.
  - rewrite IH. split; [|intros H k' Hk'; apply H; by right].
    intros H k' [Heq|Hk']%elem_of_cons; [by simplify_eq|auto].
  - split; [done|]. intros H. rewrite (H k) in Hk; [done|by left].
Qed.

Lemma map_nil_iff {A B} (f : A -> B) l : map f l = [] <-> l = [].
Proof. by destruct l. Qed.

Lemma required_nil s m p :
  required_issues s m p = [] <->
  forall l k, list_keyword s "required" = Some l -> JStr k ∈ l -> dmem k m = true.
Proof.
  unfold required_issues. destruct (list_keyword s "required") as [l|]; [|done].
  rewrite map_nil_iff, missing_keys_nil. split; [intros; by simplify_eq; auto|eauto].
Qed.

Lemma concat_nil_iff {A} (ls : list (list A)) : List.concat ls = [] <-> forall l, l ∈ ls -> l = [].
Proof.
  induction ls as [|l ls IH]; simpl; [split; [intros _ l Hl; by apply not_elem_of_nil in Hl|done]|].
  rewrite (app_nil_iff l _ (l = []) (forall l', l' ∈ ls -> l' = [])); [|done|apply IH]. split.
  - intros [-> H] l' [->|Hl']%elem_of_cons; auto.
  - intros H. split; [apply H; by left|intros l' Hl'; apply H; by right].
Qed.

Lemma dependent_required_nil s m p :
  dependent_required_issues s m p = [] <->
  forall trigger l k, (trigger, JArr l) ∈ object_keyword s "dependentRequired" ->
    dmem trigger m = true -> JStr k ∈ l -> dmem k m = true.
Proof.
  unfold dependent_required_issues. rewrite concat_nil_iff. split.
  - intros H trigger l k Hin Ht Hk.
    specialize (H _ (list_elem_of_fmap_2 _ _ _ Hin)). simpl in H. rewrite Ht in H.
    rewrite map_nil_iff, missing_keys_nil in H. auto.
  - intros H issues Hi. apply list_elem_of_fmap in Hi as ([trigger deps] & -> & Hin).
    destruct (dmem trigger m) eqn:Ht; [|done]. destruct deps as [| | | | |l|]; try done.
    rewrite map_nil_iff, missing_keys_nil. intros k Hk. by eapply H.
Qed.

Lemma forallb_nonempty_false {A} (ls : list (list A)) :
  forallb nonempty ls = false <-> exists l, l ∈ ls /\ l = [].
Proof.
  induction ls as [|l ls IH]; simpl; [split; [done|intros (l & Hl & _); by apply not_elem_of_nil in Hl]|].
  destruct l as [|x l]; simpl; [split; [exists []; split; [by left|done]|done]|].
  rewrite IH. split; intros (l' & Hl' & ->); exists []; (split; [|done]).
  - by right.
  - by apply elem_of_cons in Hl' as [?|].
Qed.

Section verdicts.
Context (re_compile : string -> option (string -> bool)).
Context (V : json -> json -> list segment -> nat -> issues_or_error).
Context (C : json -> json -> nat -> Prop) (root : json).
Context (HVC : forall s v p rd, verdict (V s v p rd) (C s v rd)).

Lemma verdict_reference s v p rd :
    verdict (validate_reference V root s v p rd) (conforms_reference C root s v rd).
  Proof.
    intros issues Hok. unfold validate_reference in Hok. unfold conforms_reference.
    destruct (dget "$ref" s) as [[| | | |r| |]|]; ok_inv; try (split; intros; done).
    destruct (Nat.leb_spec MAX_REF_DEPTH rd).
    { ok_inv. split; [done|]. intros H'. destruct (H' r eq_refl). lia. }
    destruct (resolve_reference r root) as [t|] eqn:Ht.
    - rewrite (HVC _ _ _ _ _ Hok). split.
      + intros HC r' ?. simplify_eq. split; [lia|eauto].
      + intros H'. destruct (H' r eq_refl) as (_ & t' & Ht' & HC). congruence.
    - ok_inv. split; [done|]. intros H'. destruct (H' r eq_refl) as (_ & t' & Ht' & _). congruence.
  Qed.

  (** The branches of [anyOf] and [oneOf]. *)
Lemma branch_verdicts l v p rd rs :
    map_all (fun x => V x v p rd) l = Ok rs ->
    Forall2 (fun x r => r = [] <-> C x v rd) l rs.
  Proof.
    intros H%map_all_Ok. eapply Forall2_impl; [exact H|]. intros x r Hr. exact (HVC _ _ _ _ _ Hr).
  Qed.

Lemma verdict_any_of s v p rd :
    verdict (validate_any_of V s v p rd)
      (forall l, list_keyword s "anyOf" = Some l -> l <> [] -> exists x, x ∈ l /\ C x v rd).
  Proof.
    intros issues Hok. unfold validate_any_of in Hok.
    destruct (list_keyword s "anyOf") as [[|x l]|]; [ok_inv; split; [intros _ l' Hl' Hne; by injection Hl' as <-|done]
      | |by ok_inv].
    ok_inv. apply branch_verdicts in Hr. rewrite issue_if_nil, forallb_nonempty_false. split.
    - intros (b & Hb & ->) l' ? _. simplify_eq. apply list_elem_of_lookup_1 in Hb as [i Hi].
      destruct (Forall2_lookup_r _ _ _ _ _ Hr Hi) as (y & Hy & HC).
      exists y. split; [by eapply list_elem_of_lookup_2|by apply HC].
    - intros H. destruct (H (x :: l) eq_refl ltac:(done)) as (y & Hy & HC).
      apply list_elem_of_lookup_1 in Hy as [i Hi].
      destruct (Forall2_lookup_l _ _ _ _ _ Hr Hi) as (b & Hb & Hiff).
      exists b. split; [by eapply list_elem_of_lookup_2|by apply Hiff].
  Qed.

Lemma elem_matched i j rs :
    j ∈ matched_branches i rs <-> exists k, (j = i + k)%nat /\ rs !! k = Some [].
  Proof.
    revert i. induction rs as [|r rs IH]; intros i; simpl.
    - split; [intros H; by apply not_elem_of_nil in H|by intros (k & _ & ?)].
    - destruct r as [|a r]; simpl.
      + rewrite elem_of_cons, IH. split.
        * intros [->|(k & -> & Hk)]; [exists 0%nat; split; [lia|done]|exists (S k); split; [lia|done]].
        * intros ([|k] & -> & Hk); [left; lia|right; exists k; split; [lia|done]].
      + rewrite IH. split.
        * intros (k & -> & Hk). exists (S k). split; [lia|done].
        * intros ([|k] & -> & Hk); [done|exists k; split; [lia|done]].
  Qed.

Lemma NoDup_matched i rs : NoDup (matched_branches i rs).
  Proof.
    revert i. induction rs as [|r rs IH]; intros i; simpl; [constructor|].
    destruct r; simpl; [|auto]. apply NoDup_cons. split; [|auto].
    intros (k & ? & _)%elem_matched. lia.
  Qed.

Lemma verdict_one_of s v p rd :
    verdict (validate_one_of V s v p rd)
      (forall l, list_keyword s "oneOf" = Some l -> l <> [] ->
         exists i x, l !! i = Some x /\ C x v rd /\ forall j y, l !! j = Some y -> C y v rd -> j = i).
  Proof.
    intros issues Hok. unfold validate_one_of in Hok.
    destruct (list_keyword s "oneOf") as [[|x l]|]; [ok_inv; split; [intros _ l' Hl' Hne; by injection Hl' as <-|done]
      | |by ok_inv].
    ok_inv. apply branch_verdicts in Hr. set (l' := x :: l) in *.
    assert (Hmatch : forall j, j ∈ matched_branches 0 r <-> exists y, l' !! j = Some y /\ C y v rd).
    { intros j. rewrite elem_matched. split.
      - intros (k & -> & Hk). destruct (Forall2_lookup_r _ _ _ _ _ Hr Hk) as (y & Hy & HC).
        exists y. split; [done|by apply HC].
      - intros (y & Hy & HC). destruct (Forall2_lookup_l _ _ _ _ _ Hr Hy) as (b & Hb & Hiff).
        exists j. split; [done|]. rewrite Hb. f_equal. by apply Hiff. }
    pose proof (NoDup_matched 0 r) as Hnd.
    destruct (matched_branches 0 r) as [|i [|i2 rest]].
    - split; [done|]. intros H. destruct (H l' eq_refl ltac:(done)) as (i & y & Hy & HC & _).
      exfalso. apply (not_elem_of_nil i), Hmatch. eauto.
    - split; [|done]. intros _ l'' ? _. simplify_eq.
      destruct (proj1 (Hmatch i) ltac:(by left)) as (y & Hy & HC). exists i, y. split_and!; [done..|].
      intros j z Hz HCz. assert (j ∈ [i]) as Hj by (apply Hmatch; eauto).
      by apply list_elem_of_singleton in Hj.
    - split; [done|]. intros H. destruct (H l' eq_refl ltac:(done)) as (i0 & y & Hy & HC & Huniq).
      destruct (proj1 (Hmatch i) ltac:(by left)) as (y1 & Hy1 & HC1).
      destruct (proj1 (Hmatch i2) ltac:(right; by left)) as (y2 & Hy2 & HC2).
      pose proof (Huniq _ _ Hy1 HC1). pose proof (Huniq _ _ Hy2 HC2). subst.
      apply NoDup_cons in Hnd as [Hn _]. exfalso. apply Hn. by left.
  Qed.

Lemma verdict_not s v p rd :
    verdict (validate_not V s v p rd) (forall x, dget "not" s = Some x -> ~ C x v rd).
  Proof.
    intros issues Hok. unfold validate_not in Hok. destruct (dget "not" s) as [x|]; [|by ok_inv].
    apply rbind_Ok in Hok as (negated & Hn & Hok). ok_inv. rewrite issue_if_nil, negb_false_iff.
    pose proof (HVC _ _ _ _ _ Hn) as Hx. split.
    - intros Hne y Hy HC. injection Hy as <-. apply Hx in HC. by subst.
    - intros H. destruct negated; [|done]. exfalso. apply (H x eq_refl). by apply Hx.
  Qed.

Lemma verdict_composition s v p rd :
    verdict (validate_composition V s v p rd) (conforms_composition C s v rd).
  Proof.
    intros issues Hok. unfold validate_composition in Hok. ok_inv. unfold conforms_composition.
    repeat (apply app_nil_iff).
    - unfold validate_all_of in Hr. destruct (list_keyword s "allOf") as [l|]; [|by ok_inv].
      rewrite (verdict_extend_all _ (fun x => C x v rd) l (fun x _ => HVC x v p rd) _ Hr).
      split; [intros H l' ?; by simplify_eq|eauto].
    - by apply (verdict_any_of s v p rd).
    - by apply (verdict_one_of s v p rd).
    - by apply (verdict_not s v p rd).
  Qed.

Lemma verdict_members x p m :
    verdict (extend_all (validate_member V p x) m) (forall e, e ∈ m -> C x e.2 0).
  Proof. apply verdict_extend_all. intros e _. apply HVC. Qed.

Lemma elem_filter {A} (f : A -> bool) x l : x ∈ List.filter f l <-> x ∈ l /\ f x = true.
  Proof. rewrite !list_elem_of_In. apply filter_In. Qed.

Lemma matched_by_false pp m k :
    matched_by re_compile pp m k = false <->
    forall pat x search, (pat, x) ∈ pp -> re_compile pat = Some search -> search k = false.
  Proof.
    unfold matched_by. split.
    - intros H pat x search Hin Hc. destruct (search k) eqn:Hk; [|done].
      rewrite <- H. symmetry. apply existsb_exists. exists (pat, x).
      split; [by apply list_elem_of_In|]. by rewrite Hc.
    - intros H. destruct (existsb _ pp) eqn:He; [|done].
      apply existsb_exists in He as ([pat x] & Hin & Hp). apply list_elem_of_In in Hin.
      destruct (re_compile pat) as [search|] eqn:Hc; [|done]. by rewrite (H pat x search) in Hp.
  Qed.

Lemma elem_extra s m e : e ∈ extra_members re_compile s m <-> e ∈ m /\ extra re_compile s e.1.
  Proof.
    unfold extra_members, extra. rewrite elem_filter, andb_true_iff, !negb_true_iff.
    by rewrite matched_by_false.
  Qed.

Lemma verdict_additional s m p :
    verdict (validate_additional re_compile V s m p)
      (forall x k w, dget "additionalProperties" s = Some x -> x <> JBool true ->
         (k, w) ∈ m -> extra re_compile s k -> x <> JBool false /\ C x w 0).
  Proof.
    intros issues Hok. unfold validate_additional in Hok.
    destruct (dget "additionalProperties" s) as [x|]; [|by ok_inv].
    destruct (decide (x = JBool true)) as [->|Ht]; [ok_inv; split; [|done]; intros; by simplify_eq|].
    destruct (decide (x = JBool false)) as [->|Hf].
    - ok_inv. rewrite map_nil_iff. split.
      + intros Hn x k w ? _ Hin Hex. exfalso. apply (not_elem_of_nil (k, w)). rewrite <- Hn.
        by apply elem_extra.
      + intros H. destruct (extra_members re_compile s m) as [|[k w] l] eqn:He; [done|].
        destruct (proj1 (elem_extra s m (k, w))) as [Hin Hex]; [rewrite He; by left|].
        by destruct (H (JBool false) k w eq_refl ltac:(done) Hin Hex).
    - assert (Hall : extend_all (validate_member V p x) (extra_members re_compile s m) = Ok issues)
        by (by destruct x as [|[]| | | | |]).
      rewrite (verdict_members _ _ _ _ Hall). split.
      + intros H y k w ? _ Hin Hex. simplify_eq. split; [done|]. apply (H (k, w)). by apply elem_extra.
      + intros H [k w] [Hin Hex]%elem_extra. by apply (H x k w).
  Qed.
Lemma verdict_properties s m p :
    verdict (validate_properties V s m p)
      (forall k x w, (k, x) ∈ object_keyword s "properties" -> dget k m = Some w -> C x w 0).
  Proof.
    intros issues Hok. unfold validate_properties in Hok.
    rewrite (extend_all_nil _ (fun kx => forall w, dget kx.1 m = Some w -> C kx.2 w 0) _ _ Hok).
    - split; [intros H k x w Hin; by apply (H (k, x))|intros H [k x] Hin w; by apply H].
    - intros [k x] _ iss Hi. destruct (dget k m) as [w|] eqn:Hw; simpl.
      + rewrite (HVC _ _ _ _ _ Hi). rewrite Hw. split; [intros ? ? [= <-]; done|auto].
      + ok_inv. by rewrite Hw.
  Qed.

Lemma verdict_pattern_properties s m p :
    verdict (validate_pattern_properties re_compile V s m p)
      (forall pat x search k w, (pat, x) ∈ object_keyword s "patternProperties" ->
         re_compile pat = Some search -> (k, w) ∈ m -> search k = true -> C x w 0).
  Proof.
    intros issues Hok. unfold validate_pattern_properties in Hok.
    rewrite (extend_all_nil _ (fun px => forall search k w, re_compile px.1 = Some search ->
               (k, w) ∈ m -> search k = true -> C px.2 w 0) _ _ Hok).
    - split; [intros H pat x search k w Hin; by apply (H (pat, x))|intros H [pat x] Hin search k w; by apply H].
    - intros [pat x] _ iss Hi. simpl. destruct (re_compile pat) as [search|].
      + rewrite (verdict_members _ _ _ _ Hi). split.
        * intros H search' k w [= <-] Hin Hs. apply (H (k, w)). by apply elem_filter.
        * intros H [k w] [Hin Hs]%elem_filter. by apply (H search k w).
      + ok_inv. done.
  Qed.

Lemma verdict_property_names s m p :
    verdict (validate_property_names V s m p)
      (forall x k w, schema_keyword s "propertyNames" = Some x -> (k, w) ∈ m -> C x (JStr k) 0).
  Proof.
    intros issues Hok. unfold validate_property_names in Hok.
    destruct (schema_keyword s "propertyNames") as [x|]; [|by ok_inv].
    rewrite (extend_all_nil _ (fun e => C x (JStr e.1) 0) _ _ Hok).
    - split; [intros H y k w [= <-] Hin; by apply (H (k, w))|intros H [k w] Hin; by eapply H].
    - intros e _. apply HVC.
  Qed.

Lemma verdict_object s m p :
    verdict (validate_object re_compile V s m p) (conforms_object re_compile C s m).
  Proof.
    intros issues Hok. unfold validate_object in Hok. ok_inv. unfold conforms_object.
    apply app_nil_iff; [apply required_nil|]. apply app_nil_iff; [apply dependent_required_nil|].
    apply app_nil_iff; [by rewrite bound_issue_nil, min_bound_iff|].
    apply app_nil_iff; [by rewrite bound_issue_nil, max_bound_iff|].
    apply app_nil_iff; [by apply (verdict_properties s m p)|].
    apply app_nil_iff; [by apply (verdict_pattern_properties s m p)|].
    apply app_nil_iff; [by apply (verdict_property_names s m p)|by apply (verdict_additional s m p)].
  Qed.

Lemma lookup_enumerate_from first items i w :
    enumerate_from first items !! i = Some w <-> exists x, items !! i = Some x /\ w = ((first + i)%nat, x).
  Proof.
    unfold enumerate_from. rewrite list_lookup_imap. destruct (items !! i) as [x|]; simpl;
      (split; [intros H; simplify_eq; eauto|intros (y & ? & ->); by simplify_eq]).
  Qed.

Lemma verdict_prefix_items s items p :
    verdict (validate_prefix_items V s items p)
      (forall l i x w, list_keyword s "prefixItems" = Some l -> l !! i = Some x -> items !! i = Some w ->
         C x w 0).
  Proof.
    intros issues Hok. unfold validate_prefix_items in Hok.
    destruct (list_keyword s "prefixItems") as [l|]; [|by ok_inv].
    rewrite (extend_all_nil _ (fun xi => C xi.1 xi.2.2 0) _ _ Hok).
    - split.
      + intros H l' i x w [= <-] Hx Hw. apply (H (x, (i, w))). apply list_elem_of_lookup. exists i.
        rewrite lookup_zip_with, Hx. simpl.
        rewrite (proj2 (lookup_enumerate_from 0 items i (i, w))); [done|eauto].
      + intros H [x [i w]] Hin. apply list_elem_of_lookup in Hin as [j Hj].
        rewrite lookup_zip_with in Hj. destruct (l !! j) as [x'|] eqn:Hx; [|done]. simpl in Hj.
        destruct (enumerate_from 0 items !! j) as [e|] eqn:He; [|done]. simpl in Hj. simplify_eq.
        apply lookup_enumerate_from in He as (w' & Hw & ?). simplify_eq. by eapply H.
    - intros [x e] _. apply HVC.
  Qed.

Lemma verdict_items s items p :
    verdict (validate_items V s items p)
      (forall x i w, schema_keyword s "items" = Some x ->
         (forall l, list_keyword s "prefixItems" = Some l -> (length l <= i)%nat) ->
         items !! i = Some w -> C x w 0).
  Proof.
    intros issues Hok. unfold validate_items in Hok.
    set (n := match list_keyword s "prefixItems" with Some l => length l | None => 0%nat end) in *.
    assert (Hn : forall i, (forall l, list_keyword s "prefixItems" = Some l -> (length l <= i)%nat) <-> (n <= i)%nat).
    { intros i. unfold n. destruct (list_keyword s "prefixItems") as [l|].
      - split; [auto|intros ? ? [= <-]; done].
      - split; [lia|done]. }
    destruct (schema_keyword s "items") as [x|]; [|by ok_inv].
    rewrite (extend_all_nil _ (fun e => C x e.2 0) _ _ Hok).
    - split.
      + intros H y i w [= <-] Hi%Hn Hw. apply (H (i, w)). apply list_elem_of_lookup. exists (i - n)%nat.
        apply lookup_enumerate_from. exists w. rewrite lookup_drop.
        replace (n + (i - n))%nat with i by lia. done.
      + intros H [i w] Hin. apply list_elem_of_lookup in Hin as [j Hj].
        apply lookup_enumerate_from in Hj as (w' & Hw & ?). simplify_eq. rewrite lookup_drop in Hw.
        eapply H; [done| |exact Hw]. apply Hn. lia.
    - intros e _. apply HVC.
  Qed.

Lemma verdict_contains s items p :
    verdict (validate_contains V s items p)
      (forall x, schema_keyword s "contains" = Some x ->
         exists selected : list bool,
           Forall2 (fun w b => b = true <-> C x w 0) items selected /\
           (match int_keyword s "minContains" with Some n => n | None => 1 end <= countb id selected)%Z /\
           (forall n, int_keyword s "maxContains" = Some n -> (countb id selected <= n)%Z)).
  Proof.
    intros issues Hok. unfold validate_contains in Hok.
    destruct (schema_keyword s "contains") as [x|]; [|by ok_inv].
    apply rbind_Ok in Hok as (results & Hres & Hok). apply map_all_Ok in Hres.
    set (sel := map (fun issues => negb (nonempty issues)) results).
    assert (Hcount : countb (fun iss => negb (nonempty iss)) results = countb id sel).
    { unfold sel. clear. induction results as [|r l IH]; [done|]. simpl. rewrite !countb_cons. by rewrite IH. }
    assert (Hsel : Forall2 (fun w b => b = true <-> C x w 0) items sel).
    { apply Forall2_same_length_lookup. split.
      - unfold sel. rewrite length_map, <- (Forall2_length _ _ _ Hres). unfold enumerate_from.
        by rewrite length_imap.
      - intros i w b Hw Hb. unfold sel in Hb. apply list_lookup_fmap_Some in Hb as (r & -> & Hr).
        destruct (Forall2_lookup_r _ _ _ _ _ Hres Hr) as (e & He & HV).
        apply lookup_enumerate_from in He as (w' & Hw' & ->). simplify_eq.
        rewrite <- (HVC _ _ _ _ _ HV). by destruct r. }
    assert (Huniq : forall sel', Forall2 (fun w b => b = true <-> C x w 0) items sel' -> sel' = sel).
    { intros sel' Hsel'. clear -Hsel Hsel'. revert sel' Hsel'.
      induction Hsel as [|w b l sel Hb Hl IH]; intros sel' Hsel'; inversion Hsel'; subst; [done|].
      f_equal; [|auto]. destruct b, y; try done; naive_solver. }
    rewrite Hcount in Hok. ok_inv.
    transitivity ((match int_keyword s "minContains" with Some n => n | None => 1 end <= countb id sel)%Z /\
                  (forall n, int_keyword s "maxContains" = Some n -> (countb id sel <= n)%Z)).
    - apply app_nil_iff; [rewrite issue_if_nil; lia|].
      destruct (int_keyword s "maxContains") as [n|]; [|done]. rewrite issue_if_nil.
      split; [intros ? ? [= <-]; lia|intros H; specialize (H n eq_refl); lia].
    - split; [intros H y [= <-]; by exists sel|].
      intros H. destruct (H x eq_refl) as (sel' & Hs' & H'). by rewrite (Huniq sel' Hs') in H'.
  Qed.

Lemma verdict_array s items p :
    verdict (validate_array V s items p) (conforms_array C s items).
  Proof.
    intros issues Hok. unfold validate_array in Hok. ok_inv. unfold conforms_array.
    apply app_nil_iff; [by rewrite bound_issue_nil, min_bound_iff|].
    apply app_nil_iff; [by rewrite bound_issue_nil, max_bound_iff|].
    apply app_nil_iff.
    { destruct (decide (dget "uniqueItems" s = Some (JBool true))) as [->|Hn].
      - rewrite unique_items_nil. split; [intros [_ H] _; done|intros H; split; [|by apply H]].
        intros a b Ha. by apply not_elem_of_nil in Ha.
      - split; [intros _ ?; done|intros _].
        destruct (dget "uniqueItems" s) as [[|[]| | | | |]|]; done. }
    apply app_nil_iff; [by apply (verdict_prefix_items s items p)|].
    apply app_nil_iff; [by apply (verdict_items s items p)|by apply (verdict_contains s items p)].
  Qed.

Lemma const_nil s v p :
    const_issues s v p = [] <-> forall c, dget "const" s = Some c -> json_equal v c = true.
  Proof.
    unfold const_issues. destruct (dget "const" s) as [c|]; [|done]. rewrite issue_if_nil, negb_false_iff.
    split; [intros ? ? [= <-]; done|auto].
  Qed.

Lemma enum_nil s v p :
    enum_issues s v p = [] <->
    forall l, list_keyword s "enum" = Some l -> exists c, c ∈ l /\ json_equal v c = true.
  Proof.
    unfold enum_issues. destruct (list_keyword s "enum") as [l|]; [|done].
    rewrite issue_if_nil, negb_false_iff. split.
    - intros (c & Hc & He)%existsb_exists l' [= <-]. exists c. by rewrite list_elem_of_In.
    - intros H. destruct (H l eq_refl) as (c & Hc & He). apply existsb_exists. exists c.
      by rewrite <- list_elem_of_In.
  Qed.

Lemma type_mismatch_iff s v :
    nonempty (expected_json_types (dget "type" s))
      && negb (existsb (matches_json_type v) (expected_json_types (dget "type" s))) = false <->
    (expected_json_types (dget "type" s) <> [] ->
       exists t, t ∈ expected_json_types (dget "type" s) /\ matches_json_type v t = true).
  Proof.
    destruct (expected_json_types (dget "type" s)) as [|t ts]; [done|]. cbn [nonempty andb].
    rewrite negb_false_iff, existsb_exists.
    split; [intros (u & Hu & Hm) _; exists u; by rewrite list_elem_of_In|].
    intros H. destruct (H ltac:(done)) as (u & Hu & Hm). exists u. by rewrite <- list_elem_of_In.
  Qed.

Lemma verdict_body schema v p rd :
    verdict (validate_body re_compile V root schema v p rd) (conforms_body re_compile C root schema v rd).
  Proof.
    intros issues Hok. destruct schema as [|[]| | | | |s]; simpl in *; ok_inv; try done.
    unfold validate_dict in Hok. apply rbind_Ok in Hok as (reference & Href & Hok).
    apply (verdict_reference s v p rd) in Href. unfold conforms_dict.
    rewrite <- (type_mismatch_iff s v).
    destruct (nonempty _ && negb _) eqn:Ht; ok_inv.
    - split; [by intros [_ [=]]%app_eq_nil|]. by intros (_ & _ & _ & ? & _).
    - apply (verdict_composition s v p rd) in Hr. rewrite <- !app_assoc.
      apply app_nil_iff; [done|]. apply app_nil_iff; [apply const_nil|].
      apply app_nil_iff; [apply enum_nil|]. transitivity (r = [] /\ r0 = []).
      + split; [apply app_eq_nil|by intros [-> ->]].
      + rewrite Hr. split; [intros [? Hs]; split; [done|split; [done|]]|intros (_ & ? & Hs); split; [done|]];
          revert Hs; destruct v as [| | | |t|items|m]; ok_inv; try done;
          first [ apply (verdict_number s _ p _ Hr0) | apply conforms_string_iff
                | apply (verdict_array s items p _ Hr0) | apply (verdict_object s m p _ Hr0) ].
  Qed.
End verdicts.

Lemma verdict_node re_compile root fuel schema v p rd :
  verdict (validate_node re_compile fuel root schema v p rd) (conforms re_compile fuel root schema v rd).
Proof.
  revert schema v p rd. induction fuel as [|fuel IH]; intros schema v p rd; [done|].
  by apply verdict_body.
Qed.

(** ** Properties *)

(** C34. Validation terminates on every schema, self-referential ones included,
    and every value: the validator never needs a call stack deeper than
    [enough_fuel], and with any deeper one it returns the same result. *)
Theorem validation_terminates re_compile schema value fuel :
  (enough_fuel schema value <= fuel)%nat ->
  validate_node re_compile fuel schema schema value [] 0
  = validate_value_against_json_schema re_compile schema value /\
  validate_value_against_json_schema re_compile schema value <> Err OutOfFuel.
Proof.
  intros Hf. assert (Hm : (call_measure schema schema value 0 < enough_fuel schema value)%nat).
  { unfold call_measure, enough_fuel. change (MAX_REF_DEPTH - 0)%nat with 64%nat. lia. }
  destruct (agrees_node re_compile schema fuel (enough_fuel schema value) schema value [] 0) as [He Hn];
    [done|lia|done|].
  split; [exact He|]. unfold validate_value_against_json_schema. by rewrite <- He.
Qed.

(** C33. The verdict is right: when the analysis of a json_schema contract returns,
    it says "valid" exactly when the output is a JSON text whose value conforms
    to the schema — every [$ref] resolved, every keyword satisfied, [not] and
    [oneOf] included — and then it hands that value back. *)
Theorem analysis_valid_iff_conforms re_compile json_loads text schema payload name strict res :
  analyze_structured_output re_compile json_loads FJsonSchema text (Some schema) None None name strict payload
  = Ok (Some res) ->
  sv_state (sr_validation res) = Valid <->
  exists value,
    strip text <> "" /\ json_loads (strip text) = inl value /\ sr_parsed_output res = Some value /\
    conforms re_compile (enough_fuel (JObj schema) value) (JObj schema) (JObj schema) value 0.
Proof.
  intros H. unfold analyze_structured_output in H. simpl in H.
  apply rbind_Ok in H as ([parsed validation] & Ha & H). injection H as <-. simpl.
  unfold analyze_json_schema_output in Ha.
  destruct (strip text =? "")%string eqn:Hstrip.
  { injection Ha as <- <-. split; [done|]. intros (v & Hne & _). by apply String.eqb_eq in Hstrip. }
  apply String.eqb_neq in Hstrip.
  destruct (json_loads (strip text)) as [value|[[msg l] c]] eqn:Hl.
  2: { injection Ha as <- <-. split; [done|]. by intros (v & _ & ? & _). }
  apply rbind_Ok in Ha as (issues & Hv & Ha). injection Ha as <- <-.
  pose proof (verdict_node _ _ _ _ _ _ _ _ Hv) as Hiff. split.
  - intros Hval. exists value. split_and!; [done..|]. apply Hiff. by destruct issues.
  - intros (v & _ & Hv' & _ & HC). injection Hv' as <-. apply Hiff in HC. by subst.
Qed.

(** A model that answers the JSON text [1e999] (or [Infinity]) crashes the
    analysis instead of being judged: the value is the float infinity, and
    [multipleOf] rounds its quotient, which raises [OverflowError]; a huge
    integer does the same. *)
Theorem multiple_of_can_crash_the_analysis re_compile :
  let schema := [("type", JStr "number"); ("multipleOf", JInt 2)] in
  let infinity (_ : string) : json + (string * Z * Z) := inl (JFloat (S754_infinity false)) in
  analyze_structured_output re_compile infinity FJsonSchema "1e999" (Some schema) None None None None None
  = Err OverflowError /\
  validate_value_against_json_schema re_compile (JObj schema) (JInt (10 ^ 400)) = Err OverflowError.
Proof. split; vm_compute; reflexivity. Qed.

(** ** Concrete schemas *)

(** A regular expression engine for plain substrings. *)
Fixpoint contains_text (needle s : string) : bool :=
  String.prefix needle s || match s with EmptyString => false | String _ s' => contains_text needle s' end.

Definition substring_re (pattern : string) : option (string -> bool) := Some (contains_text pattern).

(** A tree of labelled nodes: recursive through [#/$defs/node]. *)
Definition tree_schema : list (string * json) :=
  [("$ref", JStr "#/$defs/node");
   ("$defs", JObj [("node", JObj
      [("type", JStr "object"); ("required", JArr [JStr "label"]);
       ("properties", JObj [("label", JObj [("type", JStr "string"); ("minLength", JInt 1)]);
                            ("children", JObj [("type", JStr "array");
                               ("items", JObj [("$ref", JStr "#/$defs/node")])])]);
       ("additionalProperties", JBool false)])])].

Definition leaf (l : string) : json := JObj [("label", JStr l)].

Definition good_tree : json := JObj [("label", JStr "r"); ("children", JArr [leaf "a"; leaf "b"])].
Definition bad_tree : json := JObj [("label", JStr "r"); ("children", JArr [leaf "a"; leaf ""; JInt 3])].

Definition codes (r : issues_or_error) : result py_error (list (string * list segment)) :=
  let? issues := r in Ok (map (fun i => (code i, path_of i)) issues).

Example good_tree_valid :
  codes (validate_value_against_json_schema substring_re (JObj tree_schema) good_tree) = Ok [].
Proof. vm_compute. reflexivity. Qed.

Example bad_tree_invalid :
  codes (validate_value_against_json_schema substring_re (JObj tree_schema) bad_tree)
  = Ok [("min_length", [Key "children"; Index 1; Key "label"]); ("type_mismatch", [Key "children"; Index 2])].
Proof. vm_compute. reflexivity. Qed.

Example self_reference_reported :
  codes (validate_value_against_json_schema substring_re (JObj [("$ref", JStr "#")]) JNull)
  = Ok [("schema_recursion", [])].
Proof. vm_compute. reflexivity. Qed.

Lemma validation_terminates_witness :
  validate_node substring_re (enough_fuel (JObj tree_schema) good_tree) (JObj tree_schema)
    (JObj tree_schema) good_tree [] 0
  = validate_value_against_json_schema substring_re (JObj tree_schema) good_tree.
Proof. apply (validation_terminates substring_re (JObj tree_schema) good_tree). lia. Defined.

Definition tree_loads (_ : string) : json + (string * Z * Z) := inl good_tree.

Lemma analysis_valid_iff_conforms_witness :
  exists res,
    analyze_structured_output substring_re tree_loads FJsonSchema " {..} " (Some tree_schema)
      None None None None None = Ok (Some res) /\
    conforms substring_re (enough_fuel (JObj tree_schema) good_tree) (JObj tree_schema)
      (JObj tree_schema) good_tree 0.
Proof.
  destruct (analyze_structured_output substring_re tree_loads FJsonSchema " {..} " (Some tree_schema)
              None None None None None) as [[res|]|e] eqn:H.
  2, 3: exfalso; vm_compute in H; discriminate.
  exists res. split; [reflexivity|].
  destruct (analysis_valid_iff_conforms _ _ _ _ _ _ _ _ H) as [Hv _].
  assert (Hst : sv_state (sr_validation res) = Valid).
  { vm_compute in H. by injection H as <-. }
  destruct (Hv Hst) as (v & _ & Hl & _ & HC). by apply (inj inl) in Hl as <-.
Defined.
