(* ===== verification/Gguf.v ===== *)
(** The GGUF metadata reader of src/src/lewlm/registry/gguf_header.py.

    The file is its bytes, and the open handle is a position in them together
    with the sizes [read] was asked for, which the reader means to keep small
    whatever the file declares.  Reading code is a state monad over the handle
    that fails with [MalformedHeader], or with the interpreter's RecursionError:
    [frames] is how many nested calls of [_skip_value] its recursion limit
    admits.  OSError (the file cannot be opened or read) is left out. *)

From S2P Require Import Prelude PyBytes.

#[local] Open Scope N_scope.

(** ** Value types *)

Definition GGUF_MAGIC : bytes := bytes_of "GGUF".
Definition SUPPORTED_GGUF_VERSIONS : list N := [2; 3].

Definition ARCHITECTURE_KEY : pystr := pystr_of "general.architecture".
Definition CONTEXT_LENGTH_SUFFIX : pystr := pystr_of ".context_length".

Definition TYPE_UINT8 : N := 0.
Definition TYPE_INT8 : N := 1.
Definition TYPE_UINT16 : N := 2.
Definition TYPE_INT16 : N := 3.
Definition TYPE_UINT32 : N := 4.
Definition TYPE_INT32 : N := 5.
Definition TYPE_FLOAT32 : N := 6.
Definition TYPE_BOOL : N := 7.
Definition TYPE_STRING : N := 8.
Definition TYPE_ARRAY : N := 9.
Definition TYPE_UINT64 : N := 10.
Definition TYPE_INT64 : N := 11.
Definition TYPE_FLOAT64 : N := 12.

(** [struct] formats; only integers are ever unpacked. *)
Record int_format := { if_width : nat; if_signed : bool }.
Inductive format := IntFormat (f : int_format) | FloatFormat (width : nat) | BoolFormat.

Definition calcsize (f : format) : nat :=
  match f with IntFormat f => if_width f | FloatFormat w => w | BoolFormat => 1 end.

Definition UINT32 : int_format := Build_int_format 4 false.
Definition UINT64 : int_format := Build_int_format 8 false.

Definition SCALAR_FORMATS : list (N * format) :=
  [(TYPE_UINT8, IntFormat (Build_int_format 1 false)); (TYPE_INT8, IntFormat (Build_int_format 1 true));
   (TYPE_UINT16, IntFormat (Build_int_format 2 false)); (TYPE_INT16, IntFormat (Build_int_format 2 true));
   (TYPE_UINT32, IntFormat UINT32); (TYPE_INT32, IntFormat (Build_int_format 4 true));
   (TYPE_FLOAT32, FloatFormat 4); (TYPE_BOOL, BoolFormat);
   (TYPE_UINT64, IntFormat UINT64); (TYPE_INT64, IntFormat (Build_int_format 8 true));
   (TYPE_FLOAT64, FloatFormat 8)].

Definition INTEGER_TYPES : list N :=
  [TYPE_UINT8; TYPE_INT8; TYPE_UINT16; TYPE_INT16; TYPE_UINT32; TYPE_INT32; TYPE_UINT64; TYPE_INT64].

(** The format of a type of [_INTEGER_TYPES]. *)
Definition integer_format (t : N) : option int_format :=
  if bool_decide (t ∈ INTEGER_TYPES) then
    match dget t SCALAR_FORMATS with Some (IntFormat f) => Some f | _ => None end
  else None.

Definition MAX_KEY_BYTES : N := 1024.

(** [GGUFHeaderFacts]. *)
Record gguf_facts := { architecture : option pystr; context_length : option Z }.

Definition no_facts : gguf_facts := Build_gguf_facts None None.

(** ** The handle *)

Record handle := { h_file : bytes; h_pos : N; h_requests : list N }.

#[global] Instance handle_eta : Eta handle := fun h => Build_handle (h_file h) (h_pos h) (h_requests h).

Definition open_file (file : bytes) : handle := Build_handle file 0 [].

Definition size_of (file : bytes) : N := N.of_nat (length file).

Inductive gguf_error := MalformedHeader | RecursionError.

Definition reader (A : Type) : Type := handle -> result gguf_error A * handle.

Definition rret {A} (a : A) : reader A := fun h => (Ok a, h).

Definition rraise {A} (e : gguf_error) : reader A := fun h => (Err e, h).

Definition rseq {A B} (m : reader A) (k : A -> reader B) : reader B :=
  fun h => match m h with (Ok a, h') => k a h' | (Err e, h') => (Err e, h') end.

Notation "'let!' x := m 'in' k" := (rseq m (fun x => k))
  (at level 10, x pattern, m at level 200, k at level 200) : py_scope.

(** [handle.read(count)]. *)
Definition read (count : N) : reader bytes := fun h =>
  let payload := take (N.to_nat count) (drop (N.to_nat (h_pos h)) (h_file h)) in
  (Ok payload, h <| h_pos ::= fun p => p + size_of payload |> <| h_requests ::= fun l => l ++ [count] |>).

(** [handle.seek(count, 1)]. *)
Definition seek (count : N) : reader N := fun h =>
  (Ok (h_pos h + count), h <| h_pos := h_pos h + count |>).

(** [for _ in range(n)]. *)
Fixpoint repeat_times (n : nat) (m : reader unit) : reader unit :=
  match n with
  | O => rret tt
  | S n' => let! _ := m in repeat_times n' m
  end.

(** ** Reading *)

Definition read_exact (count : N) : reader bytes :=
  let! payload := read count in
  if size_of payload =? count then rret payload else rraise MalformedHeader.

Definition read_scalar (f : int_format) : reader Z :=
  let! payload := read_exact (N.of_nat (if_width f)) in
  rret (if if_signed f then le_signed payload else Z.of_N (le_value payload)).

Definition read_length (file_size : N) (max_bytes : option N) : reader N :=
  let! length := read_scalar UINT64 in
  let ceiling := match max_bytes with None => file_size | Some m => N.min file_size m end in
  if ((length <? 0) || (Z.of_N ceiling <? length))%Z then rraise MalformedHeader
  else rret (Z.to_N length).

Definition read_string (file_size : N) (max_bytes : option N) : reader pystr :=
  let! length := read_length file_size max_bytes in
  let! payload := read_exact length in
  rret (utf8_decode payload).

(** A negative count never reaches it: counts are natural numbers here. *)
Definition seek_forward (file_size : N) (count : N) : reader unit :=
  let! position := seek count in
  if file_size <? position then rraise MalformedHeader else rret tt.

Fixpoint skip_value (frames : nat) (file_size : N) (value_type : N) : reader unit :=
  match frames with
  | O => rraise RecursionError
  | S frames' =>
      if value_type =? TYPE_STRING then
        let! length := read_length file_size None in seek_forward file_size length
      else if value_type =? TYPE_ARRAY then
        let! element_type := read_scalar UINT32 in
        let element_type := Z.to_N element_type in
        let! count := read_length file_size None in
        if element_type =? TYPE_STRING then
          repeat_times (N.to_nat count)
            (let! length := read_length file_size None in seek_forward file_size length)
        else if element_type =? TYPE_ARRAY then
          repeat_times (N.to_nat count) (skip_value frames' file_size TYPE_ARRAY)
        else match dget element_type SCALAR_FORMATS with
             | None => rraise MalformedHeader
             | Some f => seek_forward file_size (count * N.of_nat (calcsize f))
             end
      else match dget value_type SCALAR_FORMATS with
           | None => rraise MalformedHeader
           | Some f => seek_forward file_size (N.of_nat (calcsize f))
           end
  end.

(** ** Facts *)

Record found := { fd_architecture : option pystr; fd_context_lengths : list (pystr * Z) }.

Definition own_key (architecture : pystr) : pystr := architecture ++ CONTEXT_LENGTH_SUFFIX.

(** Both facts are in hand: the loop breaks. *)
Definition complete (s : found) : bool :=
  match fd_architecture s with
  | Some a => dmem (own_key a) (fd_context_lengths s)
  | None => false
  end.

(** One iteration of the loop over the pairs. *)
Definition read_pair (frames : nat) (file_size : N) (s : found) : reader found :=
  let! key := read_string file_size (Some MAX_KEY_BYTES) in
  let! value_type := read_scalar UINT32 in
  let value_type := Z.to_N value_type in
  if bool_decide (key = ARCHITECTURE_KEY) && (value_type =? TYPE_STRING) then
    let! a := read_string file_size (Some MAX_KEY_BYTES) in
    rret (Build_found (Some a) (fd_context_lengths s))
  else
    match ends_with CONTEXT_LENGTH_SUFFIX key, integer_format value_type with
    | true, Some f =>
        let! n := read_scalar f in
        rret (Build_found (fd_architecture s) (dset key n (fd_context_lengths s)))
    | _, _ => let! _ := skip_value frames file_size value_type in rret s
    end.

Fixpoint read_pairs (n : nat) (frames : nat) (file_size : N) (s : found) : reader found :=
  match n with
  | O => rret s
  | S n' =>
      let! s := read_pair frames file_size s in
      if complete s then rret s else read_pairs n' frames file_size s
  end.

(** The two facts, from what the loop found. *)
Definition facts_found (s : found) : gguf_facts :=
  let own := match fd_architecture s with
             | Some [] | None => None
             | Some a => dget (own_key a) (fd_context_lengths s)
             end in
  let context_length := match own, fd_context_lengths s with
                        | None, [(_, n)] => Some n
                        | _, _ => own
                        end in
  Build_gguf_facts
    match fd_architecture s with Some [] => None | a => a end
    match context_length with Some n => if (0 <? n)%Z then Some n else None | None => None end.

Definition read_facts (frames : nat) (file_size : N) : reader gguf_facts :=
  let! magic := read_exact 4 in
  if negb (bool_decide (magic = GGUF_MAGIC)) then rret no_facts
  else
    let! version := read_scalar UINT32 in
    if negb (bool_decide (Z.to_N version ∈ SUPPORTED_GGUF_VERSIONS)) then rret no_facts
    else
      let! _ := read_scalar UINT64 in
      let! kv_count := read_scalar UINT64 in
      if (Z.of_N file_size <? kv_count * 16)%Z then rret no_facts
      else
        let! s := read_pairs (Z.to_nat kv_count) frames file_size (Build_found None []) in
        rret (facts_found s).

(** [read_gguf_header_facts]: what it returns or lets through, and the handle. *)
Definition read_gguf_header_facts (frames : nat) (file : bytes) : result gguf_error gguf_facts * handle :=
  match read_facts frames (size_of file) (open_file file) with
  | (Err MalformedHeader, h) => (Ok no_facts, h)
  | res => res
  end.

(** ** A writer, for the theorems and the examples *)

Inductive gvalue :=
| VScalar (t : N) (payload : bytes)
| VString (s : bytes)
| VScalars (t : N) (count : N) (payload : bytes)
| VStrings (l : list bytes)
| VArrays (l : list gvalue).

Definition put_string (s : bytes) : bytes := le_bytes 8 (size_of s) ++ s.

Definition type_of (v : gvalue) : N :=
  match v with VScalar t _ => t | VString _ => TYPE_STRING | _ => TYPE_ARRAY end.

Fixpoint put_value (v : gvalue) : bytes :=
  match v with
  | VScalar _ payload => payload
  | VString s => put_string s
  | VScalars t count payload => le_bytes 4 t ++ le_bytes 8 count ++ payload
  | VStrings l => le_bytes 4 TYPE_STRING ++ le_bytes 8 (N.of_nat (length l)) ++ concat (map put_string l)
  | VArrays l => le_bytes 4 TYPE_ARRAY ++ le_bytes 8 (N.of_nat (length l)) ++ concat (map put_value l)
  end.

Definition put_pair (kv : bytes * gvalue) : bytes :=
  put_string kv.1 ++ le_bytes 4 (type_of kv.2) ++ put_value kv.2.

Definition put_header (version tensors count : N) (kvs : list (bytes * gvalue)) : bytes :=
  GGUF_MAGIC ++ le_bytes 4 version ++ le_bytes 8 tensors ++ le_bytes 8 count ++ concat (map put_pair kvs).

Definition kv_string (key value : string) : bytes * gvalue := (bytes_of key, VString (bytes_of value)).
Definition kv_uint32 (key : string) (n : N) : bytes * gvalue :=
  (bytes_of key, VScalar TYPE_UINT32 (le_bytes 4 n)).

Definition facts_of_file (file : bytes) : option (option pystr * option Z) :=
  match read_gguf_header_facts 900 file with (Ok f, _) => Some (architecture f, context_length f) | _ => None end.

Example reads_architecture_and_context_length :
  facts_of_file (put_header 3 0 4 [kv_string "general.architecture" "gemma4"; kv_string "general.name" "Gemma 4 E4B";
    kv_uint32 "gemma4.block_count" 42; kv_uint32 "gemma4.context_length" 131072])
  = Some (Some (pystr_of "gemma4"), Some 131072%Z).
Proof. by vm_compute. Qed.

Example skips_arrays :
  facts_of_file (put_header 2 7 4 [(bytes_of "tokenizer.ggml.tokens", VStrings [bytes_of "alpha"; bytes_of "beta"]);
    (bytes_of "scores", VScalars TYPE_FLOAT32 3 (le_bytes 12 77));
    (bytes_of "nested", VArrays [VArrays []; VScalars TYPE_BOOL 1 (le_bytes 1 1)]);
    kv_uint32 "mystery.context_length" 4096])
  = Some (None, Some 4096%Z).
Proof. by vm_compute. Qed.

Example truncated_header_yields_no_facts :
  facts_of_file (take 40 (put_header 3 0 2 [kv_string "general.architecture" "llama";
    kv_uint32 "llama.context_length" 8192])) = Some (None, None).
Proof. by vm_compute. Qed.

(** ** Totality and bounds

    [safe c d m]: on a handle of a file of [fs] bytes, [m] keeps the position
    within the file, advances it by [d] at least when it succeeds, asks [read] for
    at most 1024 bytes at a time, and fails only with [MalformedHeader] if fewer
    than [c] bytes are left. *)

Section safety.
Context (fs : N).

Definition handle_ok (h : handle) : Prop :=
  size_of (h_file h) = fs /\ h_pos h <= fs /\ Forall (fun n => n <= MAX_KEY_BYTES) (h_requests h).

Definition bounded (h : handle) : Prop :=
  size_of (h_file h) = fs /\ Forall (fun n => n <= MAX_KEY_BYTES) (h_requests h).

Definition safe {A} (c d : N) (m : reader A) : Prop :=
  forall h, handle_ok h ->
    match m h with
    | (Ok _, h') => handle_ok h' /\ h_pos h + d <= h_pos h'
    | (Err e, h') => bounded h' /\ (fs < h_pos h + c -> e = MalformedHeader)
    end.

Lemma safe_ret {A} c (a : A) : safe c 0 (rret a).
Proof. intros h Hh. simpl. split; [done|lia]. Qed.

Lemma safe_malformed {A} c d : safe c d (@rraise A MalformedHeader).
Proof. intros h (?&?&?). done. Qed.

Lemma safe_seq {A B} c d1 d2 (m : reader A) (k : A -> reader B) :
  safe c d1 m -> (forall a, safe (c - d1) d2 (k a)) -> safe c (d1 + d2) (rseq m k).
Proof.
  intros Hm Hk h Hh. unfold rseq. specialize (Hm h Hh).
  destruct (m h) as [[a|e] h1]; [|done]. destruct Hm as [Hh1 Hp1]. specialize (Hk a h1 Hh1).
  destruct (k a h1) as [[b|e] h2].
  - destruct Hk as [Hh2 Hp2]. split; [done|lia].
  - destruct Hk as [Hb He]. split; [done|]. intros ?. apply He. lia.
Qed.

Lemma safe_weaken {A} c c' d d' (m : reader A) : safe c d m -> c' <= c -> d' <= d -> safe c' d' m.
Proof.
  intros Hm Hc Hd h Hh. specialize (Hm h Hh). destruct (m h) as [[a|e] h'].
  - destruct Hm. split; [done|lia].
  - destruct Hm as [Hb He]. split; [done|]. intros ?. apply He. lia.
Qed.

(** Sequencing when what is left of [c] and [d] is known. *)
Lemma safe_then {A B} c c' d d1 d2 (m : reader A) (k : A -> reader B) :
  safe c d1 m -> (forall a, safe c' d2 (k a)) -> c <= c' + d1 -> d <= d1 + d2 -> safe c d (rseq m k).
Proof.
  intros Hm Hk Hc Hd. eapply (safe_weaken c _ (d1 + d2)); [|lia|lia]. apply safe_seq; [done|].
  intros a. eapply (safe_weaken c' _ d2); [apply Hk|lia|lia].
Qed.

Lemma read_exact_safe c n : n <= MAX_KEY_BYTES -> safe c n (read_exact n).
Proof.
  intros Hn h (Hf & Hp & Hr). unfold read_exact, rseq, read. cbn.
  set (payload := take _ _). destruct (size_of payload =? n) eqn:He.
  - apply N.eqb_eq in He. split; [|cbn; lia]. split_and!; cbn; try done.
    + unfold size_of in *. subst payload. rewrite length_take, length_drop in *. lia.
    + apply Forall_app. by rewrite Forall_singleton.
  - cbn. split; [|done]. split; cbn; [done|]. apply Forall_app. by rewrite Forall_singleton.
Qed.

Lemma read_scalar_safe c f : N.of_nat (if_width f) <= MAX_KEY_BYTES -> safe c (N.of_nat (if_width f)) (read_scalar f).
Proof.
  intros Hw. unfold read_scalar. eapply (safe_then c c _ _ 0); [by apply read_exact_safe| |lia|lia].
  intros a. apply safe_ret.
Qed.

Lemma read_length_ok (h : handle) max :
  handle_ok h ->
  match read_length fs max h with
  | (Ok n, h') => handle_ok h' /\ h_pos h + 8 <= h_pos h' /\ n <= fs
                  /\ match max with Some m => n <= m | None => True end
  | (Err e, h') => bounded h' /\ e = MalformedHeader
  end.
Proof.
  intros Hh. unfold read_length, rseq. pose proof (read_scalar_safe (fs + 1) UINT64 ltac:(done) h Hh) as Hs.
  destruct (read_scalar UINT64 h) as [[z|e] h'].
  - destruct Hs as [Hh' Hp]. cbv zeta. destruct (_ || _)%Z eqn:Hb; cbn.
    + destruct Hh' as (?&?&?). done.
    + bool_prop. split_and!; [done|cbn in Hp; lia|destruct max; lia|destruct max; [lia|done]].
  - destruct Hs as [Hb He]. split; [done|]. apply He. lia.
Qed.

Lemma read_length_safe c max : safe c 8 (read_length fs max).
Proof.
  intros h Hh. pose proof (read_length_ok h max Hh) as H. destruct (read_length fs max h) as [[n|e] h'].
  - destruct H as (?&?&_). done.
  - destruct H. done.
Qed.

Lemma read_string_safe c : safe c 8 (read_string fs (Some MAX_KEY_BYTES)).
Proof.
  intros h Hh. unfold read_string, rseq. pose proof (read_length_ok h (Some MAX_KEY_BYTES) Hh) as H.
  destruct (read_length fs (Some MAX_KEY_BYTES) h) as [[n|e] h']; [|by destruct H].
  destruct H as (Hh' & Hp & _ & Hn). pose proof (read_exact_safe c n Hn h' Hh') as Hr.
  destruct (read_exact n h') as [[a|e] h2]; cbn.
  - destruct Hr. split; [done|lia].
  - destruct Hr as [? He]. split; [done|]. intros ?. apply He. lia.
Qed.

Lemma seek_forward_safe c n : safe c n (seek_forward fs n).
Proof.
  intros h (Hf & Hp & Hr). unfold seek_forward, rseq, seek. cbn. destruct (_ <? _) eqn:Hb; cbn.
  - split; [by split|done].
  - apply N.ltb_ge in Hb. split; [|lia]. split_and!; done.
Qed.

Lemma repeat_safe c n m : safe c 0 m -> safe c 0 (repeat_times n m).
Proof.
  intros Hm. induction n as [|n IH]; simpl; [apply safe_ret|].
  eapply (safe_then c c 0 0 0); [done|by intros _|lia|lia].
Qed.

(** Every nested call is made 12 bytes further into the file. *)
Lemma skip_value_safe frames t : safe (12 * N.of_nat frames) 0 (skip_value frames fs t).
Proof.
  revert t. induction frames as [|frames IH]; intros t.
  { intros h (Hf & Hp & Hr). cbn. split; [done|lia]. }
  assert (Hstr : forall c, safe c 0 (let! length := read_length fs None in seek_forward fs length)).
  { intros c. eapply (safe_then c c 0 8 0); [apply read_length_safe| |lia|lia].
    intros n. eapply safe_weaken; [apply (seek_forward_safe c)|lia|lia]. }
  cbn [skip_value]. destruct (t =? TYPE_STRING); [apply Hstr|]. destruct (t =? TYPE_ARRAY).
  - set (c := 12 * N.of_nat (S frames)).
    eapply (safe_then c (c - 4) 0 4 0); [by apply (read_scalar_safe c UINT32)| |lia|lia]. intros z. cbv zeta.
    eapply (safe_then _ (c - 12) 0 8 0); [apply read_length_safe| |lia|lia]. intros n.
    destruct (Z.to_N z =? TYPE_STRING); [apply repeat_safe, Hstr|].
    destruct (Z.to_N z =? TYPE_ARRAY).
    + apply repeat_safe. eapply safe_weaken; [apply IH|lia|lia].
    + destruct (dget (Z.to_N z) SCALAR_FORMATS); [|apply safe_malformed].
      eapply safe_weaken; [apply (seek_forward_safe (c - 12))|lia|lia].
  - destruct (dget t SCALAR_FORMATS); [|apply safe_malformed].
    eapply safe_weaken; [apply seek_forward_safe|reflexivity|lia].
Qed.

Lemma integer_format_width t f : integer_format t = Some f -> N.of_nat (if_width f) <= MAX_KEY_BYTES.
Proof.
  unfold integer_format. case_bool_decide as Ht; [|done]. revert f.
  repeat (apply elem_of_cons in Ht as [-> |Ht]; [by intros f [= <-]|]). by apply not_elem_of_nil in Ht.
Qed.

Lemma read_pair_safe frames s : safe (12 * N.of_nat frames) 0 (read_pair frames fs s).
Proof.
  unfold read_pair. set (c := 12 * N.of_nat frames).
  eapply (safe_then _ c 0 8 0); [apply read_string_safe| |lia|lia]. intros key.
  eapply (safe_then _ c 0 4 0); [by apply (read_scalar_safe c UINT32)| |lia|lia]. intros z. cbv zeta.
  destruct (_ && _).
  - eapply (safe_then _ c 0 8 0); [apply read_string_safe|intros a; apply safe_ret|lia|lia].
  - assert (Hskip : safe c 0 (let! _ := skip_value frames fs (Z.to_N z) in rret s)).
    { eapply (safe_then _ c 0 0 0); [apply skip_value_safe|intros _; apply safe_ret|lia|lia]. }
    destruct (ends_with CONTEXT_LENGTH_SUFFIX key); [|done].
    destruct (integer_format (Z.to_N z)) as [f|] eqn:Hf; [|done].
    eapply (safe_then _ c 0 (N.of_nat (if_width f)) 0);
      [by apply read_scalar_safe, (integer_format_width _ _ Hf)|intros n; apply safe_ret|lia|lia].
Qed.

Lemma read_pairs_safe n frames s : safe (12 * N.of_nat frames) 0 (read_pairs n frames fs s).
Proof.
  revert s. induction n as [|n IH]; intros s; simpl; [apply safe_ret|].
  eapply (safe_then _ (12 * N.of_nat frames) 0 0 0); [apply read_pair_safe| |lia|lia]. intros s'.
  destruct (complete s'); [apply safe_ret|apply IH].
Qed.

Lemma read_facts_safe frames : safe (12 * N.of_nat frames) 0 (read_facts frames fs).
Proof.
  unfold read_facts. set (c := 12 * N.of_nat frames).
  eapply (safe_then _ c 0 4 0); [by apply read_exact_safe| |lia|lia]. intros magic.
  destruct (negb _); [apply safe_ret|].
  eapply (safe_then _ c 0 4 0); [by apply (read_scalar_safe c UINT32)| |lia|lia]. intros version.
  destruct (negb _); [apply safe_ret|].
  eapply (safe_then _ c 0 8 0); [by apply (read_scalar_safe c UINT64)| |lia|lia]. intros _.
  eapply (safe_then _ c 0 8 0); [by apply (read_scalar_safe c UINT64)| |lia|lia]. intros count.
  destruct (_ <? _)%Z; [apply safe_ret|].
  eapply (safe_then _ c 0 0 0); [apply read_pairs_safe|intros s; apply safe_ret|lia|lia].
Qed.
End safety.

(** ** Round trip *)

Definition scalar_value (f : int_format) (payload : bytes) : Z :=
  if if_signed f then le_signed payload else Z.of_N (le_value payload).

(** Payloads have the size of their type; the elements of arrays of arrays are
    arrays. *)
Fixpoint wf_value (v : gvalue) : bool :=
  match v with
  | VScalar t payload =>
      match dget t SCALAR_FORMATS with Some f => (length payload =? calcsize f)%nat | None => false end
  | VScalars t count payload =>
      match dget t SCALAR_FORMATS with
      | Some f => size_of payload =? count * N.of_nat (calcsize f)
      | None => false
      end
  | VArrays l => forallb (fun v => wf_value v && (type_of v =? TYPE_ARRAY)) l
  | VString _ | VStrings _ => true
  end.

Fixpoint nesting (v : gvalue) : nat :=
  match v with
  | VArrays l => S (foldr Nat.max 0%nat (map nesting l))
  | _ => 1
  end.

Section gvalue_induction.
Context (P : gvalue -> Prop).
Context (Hscalar : forall t p, P (VScalar t p)) (Hstring : forall s, P (VString s))
  (Hscalars : forall t c p, P (VScalars t c p)) (Hstrings : forall l, P (VStrings l))
  (Harrays : forall l, Forall P l -> P (VArrays l)).

Fixpoint gvalue_nested_ind (v : gvalue) : P v :=
  match v with
  | VScalar t p => Hscalar t p
  | VString s => Hstring s
  | VScalars t c p => Hscalars t c p
  | VStrings l => Hstrings l
  | VArrays l =>
      Harrays l ((fix go (l : list gvalue) : Forall P l :=
        match l with
        | [] => List.Forall_nil P
        | v :: l' => @List.Forall_cons _ P v l' (gvalue_nested_ind v) (go l')
        end) l)
  end.
End gvalue_induction.

Lemma size_of_app b1 b2 : size_of (b1 ++ b2) = size_of b1 + size_of b2.
Proof. unfold size_of. rewrite length_app. lia. Qed.

Lemma size_of_le w n : size_of (le_bytes w n) = N.of_nat w.
Proof. unfold size_of. by rewrite length_le_bytes. Qed.

(** *** Values *)

Lemma size_concat_elem {A} (put : A -> bytes) l x : x ∈ l -> size_of (put x) <= size_of (concat (map put l)).
Proof.
  induction l as [|y l IH]; [by intros ?%not_elem_of_nil|]. simpl. rewrite size_of_app.
  intros [-> |H]%elem_of_cons; [lia|]. specialize (IH H). lia.
Qed.

Lemma size_concat_count {A} (put : A -> bytes) l k :
  (forall x, x ∈ l -> k <= size_of (put x)) -> k * N.of_nat (length l) <= size_of (concat (map put l)).
Proof.
  induction l as [|y l IH]; intros H; simpl; [lia|]. rewrite size_of_app.
  assert (k <= size_of (put y)) by (apply H; by left).
  assert (k * N.of_nat (length l) <= size_of (concat (map put l))) by (apply IH; intros; apply H; by right). lia.
Qed.

Lemma format_facts t f :
  dget t SCALAR_FORMATS = Some f ->
  (1 <= calcsize f <= 8)%nat /\ (t =? TYPE_STRING) = false /\ (t =? TYPE_ARRAY) = false /\ t < 13.
Proof.
  intros H%dget_Some_elem.
  repeat (apply elem_of_cons in H as [[= -> ->]|H]; [by vm_compute; split_and!; try lia|]).
  by apply not_elem_of_nil in H.
Qed.

Lemma size_put_array v : wf_value v = true -> type_of v = TYPE_ARRAY -> 12 <= size_of (put_value v).
Proof.
  destruct v as [t p| |t c p|l|l]; cbn [type_of put_value]; intros Hw Ht;
    rewrite ?size_of_app, ?size_of_le; try lia; [by subst t|done].
Qed.

Lemma size_of_put_string s : size_of (put_string s) = 8 + size_of s.
Proof. unfold put_string. by rewrite size_of_app, size_of_le. Qed.

(** *** What the reader takes from pairs *)

Definition pair_effect (s : found) (kv : bytes * gvalue) : found :=
  let key := utf8_decode kv.1 in
  match kv.2 with
  | VString a =>
      if bool_decide (key = ARCHITECTURE_KEY) then Build_found (Some (utf8_decode a)) (fd_context_lengths s) else s
  | VScalar t payload =>
      match ends_with CONTEXT_LENGTH_SUFFIX key, integer_format t with
      | true, Some f =>
          Build_found (fd_architecture s) (dset key (scalar_value f payload) (fd_context_lengths s))
      | _, _ => s
      end
  | _ => s
  end.

(** The pairs one after the other, up to the break. *)
Fixpoint scan (kvs : list (bytes * gvalue)) (s : found) : found :=
  match kvs with
  | [] => s
  | kv :: kvs' => let s := pair_effect s kv in if complete s then s else scan kvs' s
  end.

(** A key fits its limit, and so does the name of an architecture. *)
Definition wf_pair (frames : nat) (kv : bytes * gvalue) : bool :=
  (size_of kv.1 <=? MAX_KEY_BYTES) && wf_value kv.2 && (nesting kv.2 <=? frames)%nat
  && match kv.2 with
     | VString a => negb (bool_decide (utf8_decode kv.1 = ARCHITECTURE_KEY)) || (size_of a <=? MAX_KEY_BYTES)
     | _ => true
     end.

Lemma integer_format_dget t f : integer_format t = Some f -> dget t SCALAR_FORMATS = Some (IntFormat f).
Proof.
  unfold integer_format. case_bool_decide; [|done]. destruct (dget t SCALAR_FORMATS) as [[]|]; congruence.
Qed.

Lemma array_types : integer_format TYPE_ARRAY = None /\ integer_format TYPE_STRING = None.
Proof. by vm_compute. Qed.

Lemma size_of_put_pair kv :
  size_of (put_pair kv) = 8 + size_of kv.1 + 4 + size_of (put_value kv.2).
Proof. unfold put_pair. rewrite !size_of_app, size_of_put_string, size_of_le. lia. Qed.


Lemma type_of_small v : wf_value v = true -> type_of v < 2 ^ 32.
Proof.
  destruct v as [t p| |t c p|l|l]; simpl; try done. destruct (dget t SCALAR_FORMATS) as [f|] eqn:Hf; [|done].
  intros _. destruct (format_facts _ _ Hf) as (_ & _ & _ & Ht). lia.
Qed.

Section parsing.
Context (fs : N) (fs_small : fs < 2 ^ 64).

(** The bytes [bs] lie ahead of the handle. *)
Definition ahead (h : handle) (bs : bytes) : Prop :=
  size_of (h_file h) = fs /\ h_pos h <= fs
  /\ exists rest, drop (N.to_nat (h_pos h)) (h_file h) = bs ++ rest.

(** [m] reads exactly [bs] and returns [a]. *)
Definition parses {A} (m : reader A) (bs : bytes) (a : A) : Prop :=
  forall h, ahead h bs ->
    exists reqs, m h = (Ok a, Build_handle (h_file h) (h_pos h + size_of bs) reqs).

(** [m] ends in [res] whatever follows [bs]. *)
Definition ends {A} (m : reader A) (bs : bytes) (res : result gguf_error A) : Prop :=
  forall h, ahead h bs -> exists h', m h = (res, h').

Lemma ahead_size h bs : ahead h bs -> h_pos h + size_of bs <= fs.
Proof.
  intros (Hf & Hp & rest & Hd). unfold size_of in *.
  assert (length (drop (N.to_nat (h_pos h)) (h_file h)) = length (bs ++ rest)) as Hl by by rewrite Hd.
  rewrite length_drop, length_app in Hl. lia.
Qed.

Lemma ahead_app h b1 b2 reqs :
  ahead h (b1 ++ b2) ->
  ahead h b1 /\ ahead (Build_handle (h_file h) (h_pos h + size_of b1) reqs) b2.
Proof.
  intros H. pose proof (ahead_size _ _ H) as Hs. rewrite size_of_app in Hs. destruct H as (Hf & Hp & rest & Hd).
  split; (split; [done|split; [cbn; lia|]]); cbn.
  - exists (b2 ++ rest). by rewrite Hd, app_assoc.
  - exists rest. unfold size_of. rewrite N2Nat.inj_add, Nat2N.id, <- drop_drop, Hd, <- app_assoc.
    by rewrite drop_app_length.
Qed.

Lemma parses_ret {A} (a : A) : parses (rret a) [] a.
Proof. intros h _. exists (h_requests h). unfold rret. cbn. rewrite N.add_0_r. by destruct h. Qed.

Lemma parses_seq {A B} (m : reader A) (k : A -> reader B) b1 b2 a b :
  parses m b1 a -> parses (k a) b2 b -> parses (rseq m k) (b1 ++ b2) b.
Proof.
  intros Hm Hk h Hh. destruct (ahead_app _ _ _ [] Hh) as [H1 _]. destruct (Hm h H1) as [r1 E1].
  destruct (ahead_app _ _ _ r1 Hh) as [_ H2]. destruct (Hk _ H2) as [r2 E2].
  exists r2. unfold rseq. rewrite E1, E2. cbn. by rewrite size_of_app, N.add_assoc.
Qed.

Lemma ends_seq {A B} (m : reader A) (k : A -> reader B) b1 b2 a res :
  parses m b1 a -> ends (k a) b2 res -> ends (rseq m k) (b1 ++ b2) res.
Proof.
  intros Hm Hk h Hh. destruct (ahead_app _ _ _ [] Hh) as [H1 _]. destruct (Hm h H1) as [r1 E1].
  destruct (ahead_app _ _ _ r1 Hh) as [_ H2]. destruct (Hk _ H2) as [h2 E2].
  exists h2. unfold rseq. by rewrite E1, E2.
Qed.

Lemma ends_err {A B} (m : reader A) (k : A -> reader B) bs e :
  ends m bs (Err e) -> ends (rseq m k) bs (Err e).
Proof. intros Hm h Hh. destruct (Hm h Hh) as [h' E]. exists h'. unfold rseq. by rewrite E. Qed.

Lemma parses_ends {A} (m : reader A) bs a : parses m bs a -> ends m bs (Ok a).
Proof. intros Hm h Hh. destruct (Hm h Hh) as [r E]. by eexists. Qed.

Lemma ends_more {A} (m : reader A) b1 b2 res : ends m b1 res -> ends m (b1 ++ b2) res.
Proof. intros Hm h Hh. apply Hm. by destruct (ahead_app _ _ _ [] Hh). Qed.

Lemma read_exact_parses n bs : n = size_of bs -> parses (read_exact n) bs bs.
Proof.
  intros -> h (Hf & Hp & rest & Hd). unfold read_exact, rseq, read. cbn. rewrite Hd.
  assert (Ht : take (N.to_nat (size_of bs)) (bs ++ rest) = bs)
    by (unfold size_of; rewrite Nat2N.id; apply take_app_length).
  rewrite !Ht, N.eqb_refl. eexists. reflexivity.
Qed.

Lemma read_scalar_parses f bs : length bs = if_width f -> parses (read_scalar f) bs (scalar_value f bs).
Proof.
  intros Hl. unfold read_scalar. rewrite <- (app_nil_r bs) at 1.
  apply (parses_seq _ _ _ _ bs); [|apply parses_ret]. apply read_exact_parses. unfold size_of. by rewrite Hl.
Qed.

Lemma read_unsigned_parses w n :
  n < 256 ^ N.of_nat w -> parses (read_scalar (Build_int_format w false)) (le_bytes w n) (Z.of_N n).
Proof.
  intros Hn. pose proof (read_scalar_parses (Build_int_format w false) (le_bytes w n)) as H.
  unfold scalar_value in H. cbn in H. rewrite le_value_bytes in H by done. apply H, length_le_bytes.
Qed.

Lemma read_length_parses n max :
  n <= fs -> match max with Some m => n <= m | None => True end ->
  parses (read_length fs max) (le_bytes 8 n) n.
Proof.
  intros Hn Hm. unfold read_length. rewrite <- (app_nil_r (le_bytes 8 n)).
  apply (parses_seq _ _ _ _ (Z.of_N n)); [apply (read_unsigned_parses 8); change (256 ^ N.of_nat 8) with (2 ^ 64); lia|].
  cbv zeta. replace (_ || _)%Z with false.
  - rewrite N2Z.id. apply parses_ret.
  - symmetry. apply orb_false_iff. split; [lia|]. apply Z.ltb_ge. destruct max; lia.
Qed.

Lemma read_string_parses s m :
  size_of s <= fs -> size_of s <= m -> parses (read_string fs (Some m)) (put_string s) (utf8_decode s).
Proof.
  intros Hf Hm. unfold read_string, put_string.
  eapply parses_seq; [by apply read_length_parses|].
  rewrite <- (app_nil_r s) at 2. apply (parses_seq _ _ _ _ s); [by apply read_exact_parses|apply parses_ret].
Qed.

Lemma seek_forward_parses n bs : n = size_of bs -> parses (seek_forward fs n) bs tt.
Proof.
  intros -> h Hh. pose proof (ahead_size _ _ Hh) as Hs. unfold seek_forward, rseq, seek. cbn.
  replace (fs <? h_pos h + size_of bs) with false by (symmetry; apply N.ltb_ge; lia).
  eexists. reflexivity.
Qed.

Lemma skip_string_parses s :
  size_of s <= fs ->
  parses (let! length := read_length fs None in seek_forward fs length) (put_string s) tt.
Proof.
  intros Hs. unfold put_string. eapply parses_seq; [by apply read_length_parses|]. by apply seek_forward_parses.
Qed.

Lemma repeat_parses {A} (put : A -> bytes) (m : reader unit) (l : list A) :
  Forall (fun x => parses m (put x) tt) l -> parses (repeat_times (length l) m) (concat (map put l)) tt.
Proof.
  induction 1 as [|x l Hx Hl IH]; simpl; [apply parses_ret|]. by apply (parses_seq _ _ _ _ tt).
Qed.

Lemma skip_array_parses frames et count bs :
  et < 2 ^ 32 -> count <= fs ->
  parses (if et =? TYPE_STRING then
            repeat_times (N.to_nat count)
              (let! length := read_length fs None in seek_forward fs length)
          else if et =? TYPE_ARRAY then repeat_times (N.to_nat count) (skip_value frames fs TYPE_ARRAY)
          else match dget et SCALAR_FORMATS with
               | None => rraise MalformedHeader
               | Some f => seek_forward fs (count * N.of_nat (calcsize f))
               end) bs tt ->
  parses (skip_value (S frames) fs TYPE_ARRAY) (le_bytes 4 et ++ le_bytes 8 count ++ bs) tt.
Proof.
  intros He Hc H. cbn [skip_value]. change (TYPE_ARRAY =? TYPE_STRING) with false.
  rewrite (N.eqb_refl TYPE_ARRAY). cbv match.
  eapply parses_seq; [by apply (read_unsigned_parses 4)|]. cbv zeta. rewrite N2Z.id.
  eapply parses_seq; [by apply read_length_parses|]. exact H.
Qed.

Lemma skip_value_parses v frames :
  wf_value v = true -> (nesting v <= frames)%nat -> size_of (put_value v) <= fs ->
  parses (skip_value frames fs (type_of v)) (put_value v) tt.
Proof.
  revert frames. induction v as [t p|s|t c p|l|l IH] using gvalue_nested_ind; intros [|frames] Hw Hn Hs;
    try (simpl in Hn; lia); cbn [type_of put_value] in *.
  - simpl in Hw. destruct (dget t SCALAR_FORMATS) as [f|] eqn:Hf; [|done].
    destruct (format_facts _ _ Hf) as (_ & H1 & H2 & _). cbn [skip_value]. rewrite H1, H2, Hf.
    apply seek_forward_parses. apply Nat.eqb_eq in Hw. unfold size_of. by rewrite Hw.
  - cbn [skip_value]. rewrite N.eqb_refl. apply skip_string_parses. rewrite size_of_put_string in Hs. lia.
  - simpl in Hw. destruct (dget t SCALAR_FORMATS) as [f|] eqn:Hf; [|done]. apply N.eqb_eq in Hw.
    destruct (format_facts _ _ Hf) as (Hc & H1 & H2 & H3). rewrite !size_of_app, !size_of_le in Hs.
    apply skip_array_parses; [lia|nia|]. rewrite H1, H2, Hf. by apply seek_forward_parses.
  - rewrite !size_of_app, !size_of_le in Hs.
    pose proof (size_concat_count put_string l 1 ltac:(intros; rewrite size_of_put_string; lia)).
    apply skip_array_parses; [done|lia|]. rewrite N.eqb_refl, Nat2N.id. apply repeat_parses.
    apply List.Forall_forall. intros s Hin%list_elem_of_In. apply skip_string_parses.
    pose proof (size_concat_elem put_string l s Hin). rewrite size_of_put_string in *. lia.
  - rewrite !size_of_app, !size_of_le in Hs. simpl in Hw. rewrite forallb_forall in Hw.
    assert (Hel : forall v, v ∈ l -> wf_value v = true /\ type_of v = TYPE_ARRAY).
    { intros v Hv%list_elem_of_In. specialize (Hw v Hv). apply andb_true_iff in Hw as [? ?%N.eqb_eq]. done. }
    assert (1 * N.of_nat (length l) <= size_of (concat (map put_value l))).
    { apply size_concat_count. intros v Hv. destruct (Hel v Hv) as [H1 H2].
      pose proof (size_put_array v H1 H2). lia. }
    apply skip_array_parses; [done|lia|]. change (TYPE_ARRAY =? TYPE_STRING) with false.
    rewrite N.eqb_refl, Nat2N.id. cbv match. apply repeat_parses.
    apply List.Forall_forall. intros v Hin%list_elem_of_In. destruct (Hel v Hin) as [Hwv Htv].
    rewrite <- Htv. rewrite List.Forall_forall in IH. apply IH; [by apply list_elem_of_In|done| |].
    + cbn [nesting] in Hn. assert (nesting v <= foldr Nat.max 0%nat (map nesting l))%nat; [|lia].
      clear -Hin. induction l as [|w l IHl]; [by apply not_elem_of_nil in Hin|]. simpl.
      apply elem_of_cons in Hin as [-> |Hin]; [lia|]. specialize (IHl Hin). lia.
    + pose proof (size_concat_elem put_value l v Hin). lia.
Qed.
(** *** Pairs and the header *)

Lemma read_pair_parses frames s kv :
  wf_pair frames kv = true -> size_of (put_pair kv) <= fs ->
  parses (read_pair frames fs s) (put_pair kv) (pair_effect s kv).
Proof.
  destruct kv as [kb v]. unfold wf_pair. rewrite size_of_put_pair. simpl. intros Hw Hs.
  rewrite !andb_true_iff in Hw. destruct Hw as (((Hk & Hv) & Hn) & Ha).
  apply N.leb_le in Hk. apply Nat.leb_le in Hn.
  unfold read_pair, put_pair. eapply parses_seq; [apply read_string_parses; simpl; lia|].
  eapply parses_seq; [by apply (read_unsigned_parses 4), type_of_small|].
  cbv zeta. rewrite N2Z.id. unfold pair_effect. cbn [fst snd].
  assert (Hskip : parses (let! _ := skip_value frames fs (type_of v) in rret s) (put_value v) s).
  { rewrite <- (app_nil_r (put_value v)). apply (parses_seq _ _ _ _ tt); [|apply parses_ret].
    apply skip_value_parses; try done; lia. }
  destruct array_types as [Hta Hts]. destruct v as [t p|a|t c p|l|l]; cbn [type_of put_value] in *.
  - simpl in Hv. destruct (dget t SCALAR_FORMATS) as [f|] eqn:Hf; [|done].
    destruct (format_facts _ _ Hf) as (_ & -> & _). rewrite andb_false_r.
    destruct (ends_with CONTEXT_LENGTH_SUFFIX (utf8_decode kb)); [|done].
    destruct (integer_format t) as [i|] eqn:Hi; [|done].
    apply integer_format_dget in Hi. rewrite Hf in Hi. simplify_eq. apply Nat.eqb_eq in Hv.
    rewrite <- (app_nil_r p) at 1. eapply parses_seq; [by apply read_scalar_parses|apply parses_ret].
  - rewrite N.eqb_refl, andb_true_r. case_bool_decide as Hkey.
    + simpl in Ha. apply N.leb_le in Ha. rewrite size_of_put_string in Hs.
      rewrite <- (app_nil_r (put_string a)). eapply parses_seq; [|apply parses_ret].
      apply read_string_parses; lia.
    + rewrite Hts. by destruct (ends_with CONTEXT_LENGTH_SUFFIX (utf8_decode kb)).
  - change (TYPE_ARRAY =? TYPE_STRING) with false. rewrite andb_false_r, Hta.
    by destruct (ends_with CONTEXT_LENGTH_SUFFIX (utf8_decode kb)).
  - change (TYPE_ARRAY =? TYPE_STRING) with false. rewrite andb_false_r, Hta.
    by destruct (ends_with CONTEXT_LENGTH_SUFFIX (utf8_decode kb)).
  - change (TYPE_ARRAY =? TYPE_STRING) with false. rewrite andb_false_r, Hta.
    by destruct (ends_with CONTEXT_LENGTH_SUFFIX (utf8_decode kb)).
Qed.

Lemma read_pairs_ends frames n kvs s :
  forallb (wf_pair frames) kvs = true -> size_of (concat (map put_pair kvs)) <= fs ->
  complete s = false -> n = length kvs \/ (length kvs <= n)%nat /\ complete (scan kvs s) = true ->
  ends (read_pairs n frames fs s) (concat (map put_pair kvs)) (Ok (scan kvs s)).
Proof.
  revert n s. induction kvs as [|kv kvs IH]; intros n s Hw Hs Hc Hn; cbn [map concat length forallb scan] in *.
  - destruct n; [apply parses_ends, parses_ret|]. destruct Hn as [?|[_ ?]]; [done|congruence].
  - apply andb_true_iff in Hw as [Hkv Hw]. rewrite size_of_app in Hs.
    destruct n as [|n]; [exfalso; destruct Hn as [?|[? _]]; lia|]. cbn [read_pairs].
    eapply ends_seq; [apply read_pair_parses; [done|lia]|].
    destruct (complete (pair_effect s kv)) eqn:Hc'.
    + intros h _. by eexists.
    + apply IH; try done; [lia|]. destruct Hn as [Hn|[Hn ?]]; [left; lia|right; split; [lia|done]].
Qed.

Lemma read_facts_ends frames version tensors count kvs :
  version ∈ SUPPORTED_GGUF_VERSIONS -> tensors < 2 ^ 64 -> count * 16 <= fs ->
  forallb (wf_pair frames) kvs = true -> size_of (put_header version tensors count kvs) <= fs ->
  count = N.of_nat (length kvs)
    \/ N.of_nat (length kvs) <= count /\ complete (scan kvs (Build_found None [])) = true ->
  ends (read_facts frames fs) (put_header version tensors count kvs)
    (Ok (facts_found (scan kvs (Build_found None [])))).
Proof.
  intros Hv Ht Hc Hw Hs Hn. unfold put_header in *. rewrite !size_of_app, !size_of_le in Hs.
  unfold read_facts. eapply ends_seq; [by apply read_exact_parses|].
  rewrite bool_decide_eq_true_2 by done. simpl negb. cbv match.
  assert (Hvs : version < 2 ^ 32).
  { repeat (apply elem_of_cons in Hv as [-> |Hv]; [done|]). by apply not_elem_of_nil in Hv. }
  eapply ends_seq; [by apply (read_unsigned_parses 4)|]. rewrite N2Z.id.
  rewrite bool_decide_eq_true_2 by done. simpl negb. cbv match.
  eapply ends_seq; [by apply (read_unsigned_parses 8)|].
  eapply ends_seq; [apply (read_unsigned_parses 8); change (256 ^ N.of_nat 8) with (2 ^ 64); lia|].
  replace (Z.of_N fs <? Z.of_N count * 16)%Z with false by (symmetry; apply Z.ltb_ge; lia).
  rewrite <- (app_nil_r (concat (map put_pair kvs))).
  assert (Hends : ends (read_pairs (Z.to_nat (Z.of_N count)) frames fs (Build_found None []))
    (concat (map put_pair kvs)) (Ok (scan kvs (Build_found None [])))).
  { apply read_pairs_ends; [done|lia|done|]. destruct Hn as [?|[? ?]]; [left; lia|right; split; [lia|done]]. }
  intros h Hh. destruct (ends_more _ _ [] _ Hends h Hh) as [h' E]. exists h'. unfold rseq. by rewrite E.
Qed.
End parsing.

Lemma read_header_facts frames version tensors count kvs rest :
  let file := put_header version tensors count kvs ++ rest in
  size_of file < 2 ^ 64 -> version ∈ SUPPORTED_GGUF_VERSIONS -> tensors < 2 ^ 64 ->
  count * 16 <= size_of file -> forallb (wf_pair frames) kvs = true ->
  count = N.of_nat (length kvs)
    \/ N.of_nat (length kvs) <= count /\ complete (scan kvs (Build_found None [])) = true ->
  fst (read_gguf_header_facts frames file) = Ok (facts_found (scan kvs (Build_found None []))).
Proof.
  intros file Hf Hv Ht Hc Hw Hn. unfold read_gguf_header_facts.
  destruct (read_facts_ends (size_of file) Hf frames version tensors count kvs Hv Ht Hc Hw) with (h := open_file file)
    as [h' ->]; [subst file; rewrite size_of_app; lia|done| |done].
  split; [done|]. split; [simpl; lia|]. by exists rest.
Qed.

(** *** What a scan finds *)

(** The pairs of [kvs] name at most the architecture [a] and the length [n] of
    its own context. *)
Definition agrees (a : pystr) (n : Z) (kv : bytes * gvalue) : Prop :=
  (forall s, utf8_decode kv.1 = ARCHITECTURE_KEY -> kv.2 = VString s -> utf8_decode s = a)
  /\ (forall t p f, utf8_decode kv.1 = own_key a -> kv.2 = VScalar t p -> integer_format t = Some f ->
        scalar_value f p = n).

Definition partial (a : pystr) (n : Z) (s : found) : Prop :=
  (fd_architecture s = None \/ fd_architecture s = Some a)
  /\ (dget (own_key a) (fd_context_lengths s) = None \/ dget (own_key a) (fd_context_lengths s) = Some n).

Lemma pair_effect_partial a n kv s : agrees a n kv -> partial a n s -> partial a n (pair_effect s kv).
Proof.
  destruct kv as [kb v]. intros [Ha Hn] [Hs1 Hs2]. unfold pair_effect. cbn [fst snd] in *.
  destruct v as [t p|b| | |]; try done.
  - destruct (ends_with CONTEXT_LENGTH_SUFFIX (utf8_decode kb)); [|done].
    destruct (integer_format t) as [f|] eqn:Hf; [|done]. split; [done|]. cbn.
    destruct (decide (utf8_decode kb = own_key a)) as [He|He].
    + right. rewrite He, dget_dset_eq. f_equal. by apply (Hn t p f).
    + by rewrite dget_dset_ne.
  - case_bool_decide; [|done]. split; [|done]. right. cbn. f_equal. by apply Ha.
Qed.

(** What is found stays found. *)
Lemma pair_effect_keeps a n kv s :
  agrees a n kv -> partial a n s ->
  (fd_architecture s = Some a -> fd_architecture (pair_effect s kv) = Some a)
  /\ (dget (own_key a) (fd_context_lengths s) = Some n ->
      dget (own_key a) (fd_context_lengths (pair_effect s kv)) = Some n).
Proof.
  destruct kv as [kb v]. intros [Ha Hn] _. unfold pair_effect. cbn [fst snd] in *.
  destruct v as [t p|b| | |]; try done.
  - destruct (ends_with CONTEXT_LENGTH_SUFFIX (utf8_decode kb)); [|done].
    destruct (integer_format t) as [f|] eqn:Hf; [|done]. split; [done|]. cbn. intros Hs.
    destruct (decide (utf8_decode kb = own_key a)) as [He|He].
    + rewrite He, dget_dset_eq. f_equal. by apply (Hn t p f).
    + by rewrite dget_dset_ne.
  - case_bool_decide; [|done]. split; [|done]. intros _. cbn. f_equal. by apply Ha.
Qed.

Definition has_both (a : pystr) (n : Z) (s : found) : Prop :=
  fd_architecture s = Some a /\ dget (own_key a) (fd_context_lengths s) = Some n.

Lemma complete_both a n s : partial a n s -> complete s = true <-> has_both a n s.
Proof.
  intros [H1 H2]. unfold complete, has_both, dmem. split.
  - destruct H1 as [H1|H1]; rewrite H1; [done|]. destruct H2 as [H2|H2]; rewrite H2; done.
  - intros [-> ->]. done.
Qed.

Definition is_architecture (kv : bytes * gvalue) : Prop :=
  utf8_decode kv.1 = ARCHITECTURE_KEY /\ exists s, kv.2 = VString s.

Definition is_own_length (a : pystr) (kv : bytes * gvalue) : Prop :=
  utf8_decode kv.1 = own_key a /\ exists t p f, kv.2 = VScalar t p /\ integer_format t = Some f.

Lemma scan_finds a n kvs s :
  Forall (agrees a n) kvs -> partial a n s ->
  fd_architecture s = Some a \/ Exists is_architecture kvs ->
  dget (own_key a) (fd_context_lengths s) = Some n \/ Exists (is_own_length a) kvs ->
  has_both a n (scan kvs s).
Proof.
  revert s. induction kvs as [|kv kvs IH]; intros s Hag Hp Ha Hl; simpl.
  - split; [destruct Ha as [?|Ha%Exists_nil]|destruct Hl as [?|Hl%Exists_nil]]; done.
  - apply Forall_cons in Hag as [Hkv Hag].
    pose proof (pair_effect_partial _ _ _ _ Hkv Hp) as Hp'.
    destruct (pair_effect_keeps _ _ _ _ Hkv Hp) as [K1 K2].
    destruct (complete (pair_effect s kv)) eqn:Hc; [by apply (complete_both a n)|].
    apply IH; [done|done| |].
    + destruct Ha as [Ha|[[Hk [b Hb]]|Ha]%Exists_cons]; [auto| |auto]. left.
      unfold pair_effect. rewrite Hb, bool_decide_eq_true_2 by done. cbn. f_equal. by apply (proj1 Hkv).
    + destruct Hl as [Hl|[(Hk & t & p & f & Hv & Hf)|Hl]%Exists_cons]; [auto| |auto]. left.
      unfold pair_effect. rewrite Hv, Hk, (ends_with_app _ a : ends_with CONTEXT_LENGTH_SUFFIX (own_key a) = true), Hf. cbn. rewrite dget_dset_eq. f_equal.
      by apply (proj2 Hkv t p f).
Qed.

(** With distinct keys, the pairs agree on what they name. *)
Lemma distinct_agree kvs a ab n t p f kb kc :
  NoDup (map (fun kv => utf8_decode kv.1) kvs) ->
  (kb, VString ab) ∈ kvs -> utf8_decode kb = ARCHITECTURE_KEY -> utf8_decode ab = a ->
  (kc, VScalar t p) ∈ kvs -> utf8_decode kc = own_key a -> integer_format t = Some f -> scalar_value f p = n ->
  Forall (agrees a n) kvs.
Proof.
  intros Hnd H1 H2 H3 H4 H5 H6 H7.
  assert (Hsame : forall x y, x ∈ kvs -> y ∈ kvs -> utf8_decode x.1 = utf8_decode y.1 -> x = y).
  { clear -Hnd. induction kvs as [|z l IH]; intros x y Hx Hy He; [by apply not_elem_of_nil in Hx|].
    apply NoDup_cons in Hnd as [Hn Hnd].
    assert (Hin : forall w, w ∈ l -> utf8_decode w.1 = utf8_decode z.1 -> False).
    { intros w Hw Hwz. apply Hn. rewrite <- Hwz. by apply (list_elem_of_fmap_2 (fun kv => utf8_decode kv.1)). }
    apply elem_of_cons in Hx as [-> |Hx], Hy as [-> |Hy]; [done| | |auto]; exfalso; eauto. }
  apply Forall_forall. intros [k v] Hin. split; cbn.
  - intros s Hk ->. assert ((k, VString s) = (kb, VString ab)) as [= -> ->] by (apply Hsame; [done|done|by etrans; [exact Hk|symmetry]]).
    done.
  - intros t' p' f' Hk -> Hf'.
    assert ((k, VScalar t' p') = (kc, VScalar t p)) as [= -> -> ->] by (apply Hsame; [done|done|by etrans; [exact Hk|symmetry]]).
    congruence.
Qed.

(** *** What the facts look like *)

Definition facts_ok (f : gguf_facts) : Prop :=
  architecture f <> Some [] /\ forall n, context_length f = Some n -> (0 < n)%Z.

Lemma facts_found_ok fd : facts_ok (facts_found fd).
Proof.
  unfold facts_found. split; cbn.
  - by destruct (fd_architecture fd) as [[]|].
  - intros n. match goal with |- match ?o with Some _ => _ | None => None end = _ -> _ => destruct o as [m|] end; [|done].
    destruct (0 <? m)%Z eqn:Hm; [|done]. intros [= <-]. by apply Z.ltb_lt.
Qed.

Lemma rseq_Ok {A B} (m : reader A) (k : A -> reader B) h b h' :
  rseq m k h = (Ok b, h') -> exists a h1, k a h1 = (Ok b, h').
Proof. unfold rseq. destruct (m h) as [[a|e] h1]; [|done]. by exists a, h1. Qed.

Lemma read_facts_ok frames fs h facts h' : read_facts frames fs h = (Ok facts, h') -> facts_ok facts.
Proof.
  assert (Hnone : forall h, rret no_facts h = (Ok facts, h') -> facts_ok facts) by (intros ?; by intros [= <- <-]).
  unfold read_facts. intros (magic & h1 & H)%rseq_Ok. destruct (negb _); [by eapply Hnone|].
  apply rseq_Ok in H as (version & h2 & H). destruct (negb _); [by eapply Hnone|].
  apply rseq_Ok in H as (_ & h3 & H). apply rseq_Ok in H as (count & h4 & H).
  destruct (_ <? _)%Z; [by eapply Hnone|].
  apply rseq_Ok in H as (s & h5 & H). injection H as <- _. apply facts_found_ok.
Qed.

(** *** Nested arrays *)

Fixpoint nested (n : nat) : gvalue := VArrays match n with O => [] | S n' => [nested n'] end.

Lemma nested_wf n : wf_value (nested n) = true /\ type_of (nested n) = TYPE_ARRAY.
Proof. induction n as [|n [IH1 IH2]]; simpl; [done|]. by rewrite IH1, IH2. Qed.

Lemma size_of_nested n : size_of (put_value (nested n)) = 12 * N.of_nat (S n).
Proof.
  induction n as [|n IH]; [done|]. cbn [nested put_value map concat].
  rewrite !size_of_app, !size_of_le, IH. change (size_of []) with 0. lia.
Qed.

Section nesting.
Context (fs : N) (fs_small : fs < 2 ^ 64).

Lemma skip_nested_ends frames :
  1 <= fs -> ends fs (skip_value frames fs TYPE_ARRAY) (put_value (nested frames)) (Err RecursionError).
Proof.
  intros Hfs. induction frames as [|frames IH]; [intros h _; by exists h|].
  cbn [skip_value nested put_value map concat length]. change (TYPE_ARRAY =? TYPE_STRING) with false.
  rewrite (N.eqb_refl TYPE_ARRAY). cbv match.
  eapply ends_seq; [done|by apply (read_unsigned_parses fs fs_small 4)|]. cbv zeta. rewrite N2Z.id.
  eapply ends_seq; [done|by apply read_length_parses|]. change (TYPE_ARRAY =? TYPE_STRING) with false.
  rewrite (N.eqb_refl TYPE_ARRAY). cbv match. change (N.to_nat (N.of_nat 1)) with 1%nat. cbn [repeat_times].
  apply ends_err. rewrite app_nil_r. exact IH.
Qed.

Lemma deep_facts_end frames :
  size_of (put_header 3 0 1 [(bytes_of "k", nested frames)]) = fs ->
  ends fs (read_facts frames fs) (put_header 3 0 1 [(bytes_of "k", nested frames)]) (Err RecursionError).
Proof.
  unfold put_header. rewrite !size_of_app, !size_of_le. cbn [map concat]. intros Hfs.
  change (size_of GGUF_MAGIC) with 4 in Hfs.
  unfold read_facts. eapply ends_seq; [done|by apply read_exact_parses|].
  rewrite bool_decide_eq_true_2 by done. simpl negb. cbv match.
  eapply ends_seq; [done|by apply (read_unsigned_parses fs fs_small 4)|].
  rewrite bool_decide_eq_true_2 by (by left + by right; left). simpl negb. cbv match.
  eapply ends_seq; [done|by apply (read_unsigned_parses fs fs_small 8)|].
  eapply ends_seq; [done|by apply (read_unsigned_parses fs fs_small 8)|].
  replace (Z.of_N fs <? Z.of_N 1 * 16)%Z with false by (symmetry; apply Z.ltb_ge; lia).
  apply ends_err. change (Z.to_nat (Z.of_N 1)) with 1%nat. cbn [read_pairs]. apply ends_err.
  rewrite app_nil_r. unfold read_pair, put_pair. cbn [fst snd].
  eapply ends_seq; [done|apply read_string_parses; [done|change (size_of (bytes_of "k")) with 1; lia|done]|].
  eapply ends_seq; [done|by apply (read_unsigned_parses fs fs_small 4), type_of_small, nested_wf|].
  cbv zeta. rewrite N2Z.id, (proj2 (nested_wf frames)), andb_false_r, (proj1 array_types).
  change (ends_with CONTEXT_LENGTH_SUFFIX (utf8_decode (bytes_of "k"))) with false. cbv match.
  apply ends_err. apply skip_nested_ends; lia.
Qed.
End nesting.

(** ** Properties *)

(** C37. Round trip: a reader given a header that a GGUF writer produces returns the
    architecture and its context length exactly, when both are present: whatever the
    other pairs are (nested arrays included) and wherever the two stand among them, and
    even if the file is cut or corrupt after them.  The header is one within the reader's
    limits: of version 2 or 3, in a file of less than 2^64 bytes and of at least 16 bytes
    for each pair that the count announces, with fewer than 2^64 tensors, keys that differ
    once decoded, and pairs that are well formed ([wf_pair]: keys, and a name given as the
    architecture, of at most 1024 bytes, arrays nested no deeper than the interpreter's
    frames allow); the context length is a positive integer, the architecture not empty. *)
Theorem gguf_facts_recovered frames version tensors count kvs rest kb ab kc t p f :
  let file := put_header version tensors count kvs ++ rest in
  size_of file < 2 ^ 64 -> version ∈ SUPPORTED_GGUF_VERSIONS -> tensors < 2 ^ 64 ->
  N.of_nat (length kvs) <= count -> count * 16 <= size_of file ->
  forallb (wf_pair frames) kvs = true ->
  NoDup (map (fun kv => utf8_decode kv.1) kvs) ->
  (kb, VString ab) ∈ kvs -> utf8_decode kb = ARCHITECTURE_KEY -> utf8_decode ab <> [] ->
  (kc, VScalar t p) ∈ kvs -> utf8_decode kc = own_key (utf8_decode ab) ->
  integer_format t = Some f -> (0 < scalar_value f p)%Z ->
  fst (read_gguf_header_facts frames file)
  = Ok (Build_gguf_facts (Some (utf8_decode ab)) (Some (scalar_value f p))).
Proof.
  intros file Hsize Hv Ht Hn Hc Hw Hnd H1 H2 Hne H4 H5 H6 Hpos.
  set (a := utf8_decode ab) in *. set (n := scalar_value f p) in *.
  assert (Hag : Forall (agrees a n) kvs) by by eapply (distinct_agree kvs a ab n t p f kb kc).
  assert (Hboth : has_both a n (scan kvs (Build_found None []))).
  { apply scan_finds; [done|by split; left| |]; right; apply Exists_exists.
    - exists (kb, VString ab). split; [done|]. split; [done|]. by exists ab.
    - exists (kc, VScalar t p). split; [done|]. split; [done|]. by exists t, p, f. }
  unfold file. rewrite read_header_facts; try done.
  - destruct Hboth as [E1 E2]. unfold facts_found. rewrite E1, E2.
    destruct a as [|c a']; [done|]. by replace (0 <? n)%Z with true by (symmetry; by apply Z.ltb_lt).
  - right. split; [done|]. destruct Hboth as [E1 E2]. unfold complete, dmem. by rewrite E1, E2.
Qed.

(** The reader is total and frugal, whatever the bytes: if the interpreter
    admits one nested call per twelve bytes of the file, it returns facts (no
    exception escapes), it never asks for more than 1024 bytes at once, and a
    context length it returns is positive and an architecture not empty. *)
Theorem gguf_reader_total frames file :
  size_of file < 12 * N.of_nat frames ->
  exists facts h, read_gguf_header_facts frames file = (Ok facts, h)
    /\ Forall (fun n => n <= MAX_KEY_BYTES) (h_requests h)
    /\ architecture facts <> Some []
    /\ forall n, context_length facts = Some n -> (0 < n)%Z.
Proof.
  intros Hf. pose proof (read_facts_safe (size_of file) frames (open_file file)) as Hs.
  assert (Hh : handle_ok (size_of file) (open_file file)) by (split_and!; [done|simpl; lia|constructor]).
  specialize (Hs Hh). unfold read_gguf_header_facts. pose proof (read_facts_ok frames (size_of file)) as Hok.
  destruct (read_facts frames (size_of file) (open_file file)) as [[facts|e] h] eqn:E.
  - destruct Hs as [(_ & _ & Hr) _]. exists facts, h. destruct (Hok _ _ _ E). split_and!; done.
  - destruct Hs as [[_ Hr] He]. rewrite He by (simpl; lia). exists no_facts, h. split_and!; done.
Qed.

(** But the depth of nested arrays is not bounded by the reader: however deep
    the recursion limit, there is a file, well formed and with one pair, on which
    the interpreter's RecursionError escapes from the reader. *)
Theorem deep_arrays_escape_the_reader frames :
  N.of_nat frames < 2 ^ 32 ->
  exists v, wf_value v = true /\
    fst (read_gguf_header_facts frames (put_header 3 0 1 [(bytes_of "k", v)])) = Err RecursionError.
Proof.
  intros Hf. exists (nested frames). split; [apply nested_wf|].
  set (file := put_header _ _ _ _). unfold read_gguf_header_facts.
  destruct (deep_facts_end (size_of file)) with (frames := frames) (h := open_file file) as [h' E].
  - unfold file, put_header. rewrite !size_of_app, !size_of_le. cbn [map concat].
    rewrite size_of_app, size_of_put_pair. cbn [fst snd]. rewrite size_of_nested.
    change (size_of GGUF_MAGIC) with 4. change (size_of (bytes_of "k")) with 1. change (size_of []) with 0. lia.
  - done.
  - split; [done|]. split; [simpl; lia|]. exists []. by rewrite app_nil_r.
  - by rewrite E.
Qed.

(** ** Concrete files *)

Definition llama_pairs : list (bytes * gvalue) :=
  [(bytes_of "tokens", VArrays [VStrings [bytes_of "a"; bytes_of "b"]; VArrays []]);
   kv_uint32 "llama.context_length" 8192;
   kv_uint32 "clip.context_length" 77;
   kv_string "general.architecture" "llama"].

Lemma gguf_facts_recovered_witness :
  fst (read_gguf_header_facts 3 (put_header 2 291 5 llama_pairs ++ bytes_of "<garbage>"))
  = Ok (Build_gguf_facts (Some (pystr_of "llama")) (Some 8192%Z)).
Proof.
  apply (gguf_facts_recovered 3 2 291 5 llama_pairs (bytes_of "<garbage>")
    (bytes_of "general.architecture") (bytes_of "llama") (bytes_of "llama.context_length")
    TYPE_UINT32 (le_bytes 4 8192) UINT32); try (by vm_compute); try (by left).
  - apply (bool_decide_eq_true_1 _). by vm_compute.
  - by do 3 right; left.
  - by right; left.
Defined.

Lemma gguf_reader_total_witness :
  exists facts h, read_gguf_header_facts 20 (take 130 (put_header 3 0 4 llama_pairs)) = (Ok facts, h).
Proof.
  destruct (gguf_reader_total 20 (take 130 (put_header 3 0 4 llama_pairs))) as (facts & h & H & _);
    [by vm_compute|by exists facts, h].
Defined.

Lemma deep_arrays_escape_the_reader_witness :
  exists v, fst (read_gguf_header_facts 970 (put_header 3 0 1 [(bytes_of "k", v)])) = Err RecursionError.
Proof. destruct (deep_arrays_escape_the_reader 970 eq_refl) as (v & _ & H). by exists v. Defined.

(** The count of pairs is refused when 16 bytes per pair do not fit, but a pair
    can take 13: sixty pairs with short keys hide the facts of a sound file. *)
Definition short_pairs : list (bytes * gvalue) :=
  map (fun i => ([byte_of (65 + N.of_nat i)], VScalar TYPE_UINT8 [Byte.x01])) (seq 0 60).

Example short_pairs_are_refused :
  let kvs := kv_string "general.architecture" "llama" :: kv_uint32 "llama.context_length" 8192 :: short_pairs in
  facts_of_file (put_header 3 0 62 kvs) = Some (None, None)
  /\ facts_of_file (put_header 3 0 62 kvs ++ repeat Byte.x00 200) = Some (Some (pystr_of "llama"), Some 8192%Z).
Proof. by vm_compute. Qed.
