(* ===== verification/Citations.v ===== *)
(** Citation markers in model output: src/src/lewlm/core/citations.py.

    Model output arrives in pieces, and [CitationStreamProcessor] strips the
    markers [[cite:...]] it can resolve from the visible text while it arrives.
    Texts are code points (PyText.v); the processor is its buffer, the citations
    recorded so far and the identifiers seen. *)

From S2P Require Import Prelude PyBytes PyText.

(** ** Data *)

(** The fields of [IngestedDocumentSource] and [DocumentChunk] this file reads. *)
Record source := { src_source_id : pystr; src_source_label : pystr; src_media_type : option pystr }.

Record chunk := {
  ch_chunk_id : pystr; ch_text : pystr; ch_source_id : pystr; ch_section_id : pystr;
  ch_source_label : pystr; ch_section_label : pystr
}.

(** [CitationContextPackage]. *)
Record citation_context := { cc_sources : list source; cc_chunks : list chunk }.

Fixpoint no_duplicates (ids : list pystr) : bool :=
  match ids with
  | [] => true
  | x :: ids' => negb (existsb (fun y => bool_decide (x = y)) ids') && no_duplicates ids'
  end.

(** [_validate_identifiers]: the ValueError it raises, if any. *)
Definition validate_identifiers (ctx : citation_context) : result string citation_context :=
  if negb (no_duplicates (map src_source_id (cc_sources ctx))) then
    Err "citation_context.sources must not contain duplicate source_id values."
  else if negb (no_duplicates (map ch_chunk_id (cc_chunks ctx))) then
    Err "citation_context.chunks must not contain duplicate chunk_id values."
  else Ok ctx.

Definition has_entries (ctx : citation_context) : bool :=
  match cc_sources ctx, cc_chunks ctx with [], [] => false | _, _ => true end.

(** [GeneratedCitationReference]. *)
Record citation_reference := {
  reference_id : pystr; source_id : pystr; chunk_id : option pystr; section_id : option pystr;
  source_label : pystr; section_label : option pystr
}.

Definition CITATION_PREFIX : pystr := pystr_of "[[cite:".
Definition CITATION_SUFFIX : pystr := pystr_of "]]".

(** ** The message that teaches the model the markers *)

Definition newline : pystr := [10%N].

Definition source_line (s : source) : pystr :=
  pystr_of "- source_id=" ++ src_source_id s ++ pystr_of " | source_label=" ++ src_source_label s
  ++ match src_media_type s with
     | Some ((_ :: _) as m) => pystr_of " | media_type=" ++ m
     | _ => []
     end.

Definition chunk_lines (c : chunk) : list pystr :=
  [pystr_of "- chunk_id=" ++ ch_chunk_id c ++ pystr_of " | source_id=" ++ ch_source_id c
     ++ pystr_of " | section_id=" ++ ch_section_id c;
   pystr_of "  source_label=" ++ ch_source_label c;
   pystr_of "  section_label=" ++ ch_section_label c;
   pystr_of "  text=" ++ text_strip (ch_text c)].

Definition context_lines (ctx : citation_context) : list pystr :=
  [pystr_of "Citation context:";
   pystr_of "LewLM received reusable source and chunk packages from the caller.";
   pystr_of "When a statement relies on that grounded context, append citation markers in the exact form [[cite:<id>]].";
   pystr_of "Prefer chunk_id markers when a chunk is available. Use source_id only for broader source-level support.";
   pystr_of "Use only ids listed below. Do not invent ids.";
   pystr_of "LewLM strips valid markers from the final text and returns them separately as structured citations."]
  ++ match cc_sources ctx with
     | [] => []
     | _ => [[]; pystr_of "Available source ids:"] ++ map source_line (cc_sources ctx)
     end
  ++ match cc_chunks ctx with
     | [] =>
         [[]; pystr_of "No chunk text was supplied. Use source_id markers only when the conversation already includes grounded content from those sources."]
     | _ => [[]; pystr_of "Grounding chunk records:"] ++ concat (map chunk_lines (cc_chunks ctx))
     end.

Definition render_citation_context_message (ctx : option citation_context) : option pystr :=
  match ctx with
  | Some ctx => if has_entries ctx then Some (join newline (context_lines ctx)) else None
  | None => None
  end.

(** ** Resolving identifiers *)

(** [_CitationResolver]. *)
Record resolver := {
  by_chunk_id : list (pystr * citation_reference);
  by_section_id : list (pystr * citation_reference);
  by_source_id : list (pystr * citation_reference)
}.

(** [dict.setdefault]. *)
Definition dsetdefault (k : pystr) (v : citation_reference) (d : list (pystr * citation_reference)) :=
  if dmem k d then d else dset k v d.

Definition chunk_reference (c : chunk) : citation_reference :=
  Build_citation_reference (ch_chunk_id c) (ch_source_id c) (Some (ch_chunk_id c)) (Some (ch_section_id c))
    (ch_source_label c) (Some (ch_section_label c)).

Definition section_reference (c : chunk) : citation_reference :=
  Build_citation_reference (ch_section_id c) (ch_source_id c) None (Some (ch_section_id c))
    (ch_source_label c) (Some (ch_section_label c)).

Definition source_reference (id label : pystr) : citation_reference :=
  Build_citation_reference id id None None label None.

Definition add_chunk (r : resolver) (c : chunk) : resolver :=
  Build_resolver (dset (ch_chunk_id c) (chunk_reference c) (by_chunk_id r))
    (dsetdefault (ch_section_id c) (section_reference c) (by_section_id r))
    (dsetdefault (ch_source_id c) (source_reference (ch_source_id c) (ch_source_label c)) (by_source_id r)).

Definition add_source (r : resolver) (s : source) : resolver :=
  Build_resolver (by_chunk_id r) (by_section_id r)
    (dset (src_source_id s) (source_reference (src_source_id s) (src_source_label s)) (by_source_id r)).

Definition empty_resolver : resolver := Build_resolver [] [] [].

Definition make_resolver (ctx : option citation_context) : resolver :=
  match ctx with
  | Some ctx =>
      if has_entries ctx
      then foldl add_source (foldl add_chunk empty_resolver (cc_chunks ctx)) (cc_sources ctx)
      else empty_resolver
  | None => empty_resolver
  end.

Definition resolver_is_empty (r : resolver) : bool :=
  match by_chunk_id r, by_section_id r, by_source_id r with [], [], [] => true | _, _, _ => false end.

Definition resolve_token (r : resolver) (token : pystr) : option citation_reference :=
  match dget token (by_chunk_id r) with
  | Some x => Some x
  | None =>
      match dget token (by_section_id r) with
      | Some x => Some x
      | None => dget token (by_source_id r)
      end
  end.

Definition nonempty_text (s : pystr) : bool := match s with [] => false | _ => true end.

Definition token_separator (c : N) : bool := text_space c || (c =? 44)%N.

(** [re.split] on runs of separators differs from splitting at each of them by
    empty strings only, and those are dropped. *)
Definition split_marker_tokens (payload : pystr) : list pystr :=
  List.filter nonempty_text (split_on token_separator (text_strip payload)).

Definition is_unknown (r : resolver) (token : pystr) : bool :=
  match resolve_token r token with None => true | Some _ => false end.

(** The replacement of a marker and its references. *)
Definition transform_marker (r : resolver) (marker : pystr) : pystr * list citation_reference :=
  let payload := removesuffix CITATION_SUFFIX (removeprefix CITATION_PREFIX marker) in
  match split_marker_tokens payload with
  | [] => (marker, [])
  | tokens =>
      match omap (resolve_token r) tokens with
      | [] => (marker, [])
      | resolved =>
          match List.filter (is_unknown r) tokens with
          | [] => ([], resolved)
          | unknown => (CITATION_PREFIX ++ join (pystr_of ", ") unknown ++ CITATION_SUFFIX, resolved)
          end
      end
  end.

(** ** Streaming *)

(** [_trailing_prefix_length]: the loop over lengths counts down from [n]. *)
Fixpoint trailing_from (n : nat) (text prefix : pystr) : nat :=
  match n with
  | O => O
  | S n' => if starts_with (drop (length text - n) text) prefix then n else trailing_from n' text prefix
  end.

Definition trailing_prefix_length (text prefix : pystr) : nat :=
  trailing_from (Nat.min (length text) (length prefix - 1)) text prefix.

Record processor := {
  p_resolver : resolver;
  p_buffer : pystr;
  p_citations : list citation_reference;
  p_seen : list pystr
}.

#[global] Instance processor_eta : Eta processor := fun p =>
  Build_processor (p_resolver p) (p_buffer p) (p_citations p) (p_seen p).

Definition make_processor (ctx : option citation_context) : processor :=
  Build_processor (make_resolver ctx) [] [] [].

Definition record_reference (p : processor) (x : citation_reference) : processor :=
  if bool_decide (reference_id x ∈ p_seen p) then p
  else p <| p_seen ::= fun l => l ++ [reference_id x] |> <| p_citations ::= fun l => l ++ [x] |>.

Definition record_references (refs : list citation_reference) (p : processor) : processor :=
  foldl record_reference p refs.

(** One iteration of the loop of [consume]: what it emits, and whether the loop
    goes on. *)
Definition consume_once (p : processor) : list pystr * processor * bool :=
  let buffer := p_buffer p in
  match find CITATION_PREFIX buffer with
  | None =>
      let safe_length := (length buffer - trailing_prefix_length buffer CITATION_PREFIX)%nat in
      if (0 <? safe_length)%nat
      then ([take safe_length buffer], p <| p_buffer := drop safe_length buffer |>, false)
      else ([], p, false)
  | Some marker_start =>
      let before := if (0 <? marker_start)%nat then [take marker_start buffer] else [] in
      let buffer := if (0 <? marker_start)%nat then drop marker_start buffer else buffer in
      match find CITATION_SUFFIX buffer with
      | None => (before, p <| p_buffer := buffer |>, false)
      | Some marker_end =>
          let marker := take (marker_end + length CITATION_SUFFIX) buffer in
          let '(replacement, references) := transform_marker (p_resolver p) marker in
          (before ++ (if nonempty_text replacement then [replacement] else []),
           record_references references
             (p <| p_buffer := drop (marker_end + length CITATION_SUFFIX) buffer |>), true)
      end
  end.

(** [None] when the fuel runs out. *)
Fixpoint consume_loop (fuel : nat) (p : processor) : option (pystr * processor) :=
  match fuel with
  | O => None
  | S fuel' =>
      let '(emitted, p', again) := consume_once p in
      if again then
        match consume_loop fuel' p' with
        | Some (rest, p'') => Some (concat emitted ++ rest, p'')
        | None => None
        end
      else Some (concat emitted, p')
  end.

(** Every iteration but the last takes a marker out of the buffer. *)
Definition consume (text : pystr) (p : processor) : option (pystr * processor) :=
  if negb (nonempty_text text) || resolver_is_empty (p_resolver p) then Some (text, p)
  else let p := p <| p_buffer := p_buffer p ++ text |> in consume_loop (S (length (p_buffer p))) p.

Definition finalize (p : processor) : pystr * list citation_reference * processor :=
  (p_buffer p, p_citations p, p <| p_buffer := [] |>).

(** ** Cleaning the visible text *)

Definition is_blank (c : N) : bool := ((c =? 32) || (c =? 9))%N.
Definition is_punctuation (c : N) : bool := bool_decide (c ∈ pystr_of ",.;:!?").

(** The blanks of [s] run up to a punctuation mark. *)
Fixpoint blanks_then_punctuation (s : pystr) : bool :=
  match s with
  | [] => false
  | c :: s' => if is_blank c then blanks_then_punctuation s' else is_punctuation c
  end.

(** [_SPACE_BEFORE_PUNCTUATION_RE]: blanks before a punctuation mark go. *)
Fixpoint drop_space_before_punctuation (s : pystr) : pystr :=
  match s with
  | [] => []
  | c :: s' =>
      if is_blank c && blanks_then_punctuation s' then drop_space_before_punctuation s'
      else c :: drop_space_before_punctuation s'
  end.

(** [_MULTISPACE_RE]: two blanks or more become a space; [replaced] says that the
    current run has been. *)
Fixpoint collapse_blanks (replaced : bool) (s : pystr) : pystr :=
  match s with
  | [] => []
  | c :: s' =>
      if is_blank c then
        if replaced then collapse_blanks true s'
        else match s' with
             | d :: _ => if is_blank d then 32%N :: collapse_blanks true s' else c :: collapse_blanks false s'
             | [] => [c]
             end
      else c :: collapse_blanks false s'
  end.

(** [_MULTILINE_GAP_RE]: of the newlines of a run the first two stay; [kept] of
    the current run have been. *)
Fixpoint collapse_newlines (kept : nat) (s : pystr) : pystr :=
  match s with
  | [] => []
  | c :: s' =>
      if (c =? 10)%N then
        if (kept <? 2)%nat then c :: collapse_newlines (S kept) s' else collapse_newlines kept s'
      else c :: collapse_newlines 0 s'
  end.

Definition cleanup_citation_text (text : pystr) : pystr :=
  text_strip (collapse_newlines 0 (collapse_blanks false (drop_space_before_punctuation text))).

Definition resolve_generated_citations (text : pystr) (ctx : option citation_context)
    : option (pystr * list citation_reference) :=
  match consume text (make_processor ctx) with
  | Some (visible, p) =>
      let '(tail, citations, _) := finalize p in Some (cleanup_citation_text (visible ++ tail), citations)
  | None => None
  end.

(** A stream: the pieces one after the other, then [finalize]. *)
Fixpoint consume_all (pieces : list pystr) (p : processor) : option (pystr * processor) :=
  match pieces with
  | [] => Some ([], p)
  | text :: pieces' =>
      match consume text p with
      | Some (visible, p) =>
          match consume_all pieces' p with
          | Some (rest, p) => Some (visible ++ rest, p)
          | None => None
          end
      | None => None
      end
  end.

(** ** The loop *)

Definition extend (p : processor) (text : pystr) : processor := p <| p_buffer := p_buffer p ++ text |>.

Lemma record_references_set refs p b :
  record_references refs (p <| p_buffer := b |>) = (record_references refs p) <| p_buffer := b |>.
Proof.
  unfold record_references. revert p. induction refs as [|x refs IH]; intros p; [done|]. cbn [foldl].
  rewrite <- IH. f_equal. unfold record_reference. cbn. by case_bool_decide.
Qed.

Lemma record_references_extend refs p b :
  record_references refs (extend p b) = extend (record_references refs p) b.
Proof.
  unfold record_references. revert p. induction refs as [|x refs IH]; intros p; [done|]. simpl.
  rewrite <- IH. f_equal. unfold record_reference, extend. cbn. by case_bool_decide.
Qed.

Lemma record_references_buffer refs p :
  p_buffer (record_references refs p) = p_buffer p
  /\ p_resolver (record_references refs p) = p_resolver p.
Proof.
  unfold record_references. revert p. induction refs as [|x refs IH]; intros p; [done|]. simpl.
  destruct (IH (record_reference p x)) as [-> ->]. unfold record_reference. by case_bool_decide.
Qed.

(** An iteration that does not stop shortens the buffer. *)
Lemma consume_once_shorter p e p' :
  consume_once p = (e, p', true) -> (length (p_buffer p') < length (p_buffer p))%nat.
Proof.
  unfold consume_once. destruct (find CITATION_PREFIX (p_buffer p)) as [i|] eqn:Hi; [|by case_if].
  set (buffer := if (0 <? i)%nat then drop i (p_buffer p) else p_buffer p).
  destruct (find CITATION_SUFFIX buffer) as [j|] eqn:Hj; [|done].
  destruct (transform_marker _ _) as [rep refs]. intros [= _ <-].
  rewrite (proj1 (record_references_buffer _ _)). cbn. apply find_at in Hj as [_ Hj].
  rewrite length_drop. change (length CITATION_SUFFIX) with 2%nat in *.
  assert (length buffer <= length (p_buffer p))%nat; [|lia].
  subst buffer. destruct (0 <? i)%nat; [rewrite length_drop|]; lia.
Qed.

Lemma consume_once_resolver p e p' again :
  consume_once p = (e, p', again) -> p_resolver p' = p_resolver p.
Proof.
  unfold consume_once. destruct (find CITATION_PREFIX (p_buffer p)) as [i|].
  - destruct (find CITATION_SUFFIX _) as [j|]; [|by intros [= _ <- _]].
    destruct (transform_marker _ _) as [rep refs]. intros [= _ <- _].
    by rewrite (proj2 (record_references_buffer _ _)).
  - case_if; by intros [= _ <- _].
Qed.

Lemma consume_loop_mono n m p r : consume_loop n p = Some r -> (n <= m)%nat -> consume_loop m p = Some r.
Proof.
  revert m p r. induction n as [|n IH]; intros m p r H Hm; [done|]. destruct m as [|m]; [lia|].
  simpl in *. destruct (consume_once p) as [[e p'] again]. destruct again; [|done].
  destruct (consume_loop n p') as [[rest p'']|] eqn:Hl; [|done]. by rewrite (IH m p' _ Hl) by lia.
Qed.

Lemma consume_loop_total n p :
  (length (p_buffer p) < n)%nat ->
  exists e p', consume_loop n p = Some (e, p') /\ p_resolver p' = p_resolver p.
Proof.
  revert p. induction n as [|n IH]; intros p Hn; [lia|]. simpl.
  destruct (consume_once p) as [[e p'] again] eqn:Ho. pose proof (consume_once_resolver _ _ _ _ Ho) as Hr.
  destruct again; [|by eexists _, _].
  apply consume_once_shorter in Ho. destruct (IH p' ltac:(lia)) as (e2 & p2 & -> & Hr2).
  eexists _, _. split; [done|congruence].
Qed.

(** ** Trailing partial prefixes *)

Lemma trailing_from_spec n text prefix :
  let t := trailing_from n text prefix in
  (t <= n)%nat /\ starts_with (drop (length text - t) text) prefix = true
  /\ forall m, (t < m <= n)%nat -> starts_with (drop (length text - m) text) prefix = false.
Proof.
  cbv zeta. induction n as [|n IH]; cbn [trailing_from].
  - split_and!; [lia| |intros m Hm; lia]. by rewrite drop_ge by lia.
  - destruct (starts_with (drop (length text - S n) text) prefix) eqn:Hs.
    + split_and!; [lia|done|intros m Hm; lia].
    + destruct IH as (H1 & H2 & H3). split_and!; [lia|done|]. intros m Hm.
      destruct (decide (m = S n)) as [->|]; [done|]. apply H3. lia.
Qed.

Lemma trailing_spec text prefix : is_trailing (trailing_prefix_length text prefix) text prefix.
Proof.
  unfold trailing_prefix_length.
  destruct (trailing_from_spec (Nat.min (length text) (length prefix - 1)) text prefix) as (H1 & H2 & H3).
  split; [lia|lia|done|]. intros m Hm1 Hm2 Hs.
  destruct (decide (m <= trailing_from (Nat.min (length text) (length prefix - 1)) text prefix)%nat) as [|Hn]; [done|].
  rewrite H3 in Hs by lia. done.
Qed.

(** ** More text *)

(** An iteration that takes a marker takes the same one when more text follows. *)
Lemma consume_once_again p b e p' :
  consume_once p = (e, p', true) -> consume_once (extend p b) = (e, extend p' b, true).
Proof.
  unfold consume_once. cbn [p_buffer extend].
  destruct (find CITATION_PREFIX (p_buffer p)) as [i|] eqn:Hi; [|by case_if].
  change (p_buffer (extend p b)) with (p_buffer p ++ b). rewrite (find_more _ _ b _ Hi).
  apply find_at in Hi as [_ Hi].
  assert (Hbefore : (if (0 <? i)%nat then [take i (p_buffer p ++ b)] else [])
                    = (if (0 <? i)%nat then [take i (p_buffer p)] else [])) by (by rewrite take_app_le by lia).
  rewrite Hbefore.
  assert (Hbuf : (if (0 <? i)%nat then drop i (p_buffer p ++ b) else p_buffer p ++ b)
                 = (if (0 <? i)%nat then drop i (p_buffer p) else p_buffer p) ++ b)
    by (rewrite drop_app_le by lia; by destruct (0 <? i)%nat).
  rewrite Hbuf. set (buffer := if (0 <? i)%nat then drop i (p_buffer p) else p_buffer p).
  destruct (find CITATION_SUFFIX buffer) as [j|] eqn:Hj; [|done].
  rewrite (find_more _ _ b _ Hj). apply find_at in Hj as [_ Hj].
  rewrite take_app_le, drop_app_le by done. change (p_resolver (extend p b)) with (p_resolver p).
  destruct (transform_marker _ _) as [rep refs]. intros [= <- <-]. f_equal. f_equal.
  by rewrite <- record_references_extend.
Qed.

Lemma concat_take (n : nat) (s : pystr) : concat (if (0 <? n)%nat then [take n s] else []) = take n s.
Proof. destruct n; simpl; [by rewrite take_0|by rewrite app_nil_r]. Qed.

Lemma if_drop (n : nat) (s : pystr) : (if (0 <? n)%nat then drop n s else s) = drop n s.
Proof. by destruct n. Qed.

(** What an iteration that finds no prefix does, without its tests. *)
Lemma consume_once_no_prefix p :
  find CITATION_PREFIX (p_buffer p) = None ->
  let safe := (length (p_buffer p) - trailing_prefix_length (p_buffer p) CITATION_PREFIX)%nat in
  exists e, consume_once p = (e, p <| p_buffer := drop safe (p_buffer p) |>, false)
            /\ concat e = take safe (p_buffer p).
Proof.
  intros Hi safe. unfold consume_once. rewrite Hi. fold safe.
  destruct (0 <? safe)%nat eqn:Hs.
  - eexists. split; [done|]. simpl. by rewrite app_nil_r.
  - apply Nat.ltb_ge in Hs. replace safe with 0%nat by lia. exists [].
    rewrite drop_0, take_0. split; [|done]. by destruct p.
Qed.

(** What an iteration that finds a prefix at [i] does, without its tests. *)
Lemma consume_once_prefix p i :
  find CITATION_PREFIX (p_buffer p) = Some i ->
  let buffer := drop i (p_buffer p) in
  exists e, concat e = take i (p_buffer p) /\
  consume_once p =
    match find CITATION_SUFFIX buffer with
    | None => (e, p <| p_buffer := buffer |>, false)
    | Some j =>
        let '(rep, refs) := transform_marker (p_resolver p) (take (j + length CITATION_SUFFIX) buffer) in
        (e ++ (if nonempty_text rep then [rep] else []),
         record_references refs (p <| p_buffer := drop (j + length CITATION_SUFFIX) buffer |>), true)
    end.
Proof.
  intros Hi buffer. exists (if (0 <? i)%nat then [take i (p_buffer p)] else []). split; [apply concat_take|].
  unfold consume_once. rewrite Hi. by rewrite if_drop.
Qed.

(** An iteration that stops on a prefix without its suffix leaves the prefix. *)
Lemma consume_once_stop_marker p b i e p' :
  find CITATION_PREFIX (p_buffer p) = Some i -> consume_once p = (e, p', false) ->
  match consume_once (extend p' b) with
  | (e2, p2, again) => exists e3, consume_once (extend p b) = (e3, p2, again) /\ concat e3 = concat e ++ concat e2
  end.
Proof.
  intros Hi Ho. destruct (consume_once_prefix p i Hi) as (e0 & Hc0 & E0). rewrite Ho in E0.
  destruct (find CITATION_SUFFIX (drop i (p_buffer p))) as [j|]; [by destruct (transform_marker _ _)|].
  assert (e = e0 /\ p' = p <| p_buffer := drop i (p_buffer p) |>) as [-> ->] by by simplify_eq.
  set (q := drop i (p_buffer p) ++ b). set (p' := p <| p_buffer := drop i (p_buffer p) |>).
  destruct (find_at _ _ _ Hi) as [Hs Hlen].
  assert (Hz : find CITATION_PREFIX q = Some 0%nat).
  { pose proof (starts_with_more _ _ b Hs) as Hs'. fold q in Hs'. destruct q; cbn [find]; by rewrite Hs'. }
  destruct (consume_once_prefix (extend p' b) 0 Hz) as (e2 & Hc2 & ->).
  destruct (consume_once_prefix (extend p b) i (find_more _ _ b _ Hi)) as (e3 & Hc3 & E3).
  change (p_buffer (extend p b)) with (p_buffer p ++ b) in *. change (p_buffer (extend p' b)) with q in *.
  rewrite drop_app_le in E3 by lia. rewrite take_app_le in Hc3 by lia. fold q in E3. rewrite drop_0.
  rewrite take_0 in Hc2. destruct (find CITATION_SUFFIX q) as [k|].
  - change (p_resolver (extend p b)) with (p_resolver p) in E3.
    change (p_resolver (extend p' b)) with (p_resolver p).
    destruct (transform_marker _ _) as [rep refs]. eexists. split; [exact E3|].
    by rewrite !concat_app, Hc3, Hc2, Hc0.
  - eexists. split; [exact E3|]. by rewrite Hc3, Hc2, Hc0, app_nil_r.
Qed.

Lemma consume_once_stop_plain p b e p' :
  find CITATION_PREFIX (p_buffer p) = None -> consume_once p = (e, p', false) ->
  match consume_once (extend p' b) with
  | (e2, p2, again) => exists e3, consume_once (extend p b) = (e3, p2, again) /\ concat e3 = concat e ++ concat e2
  end.
Proof.
  intros Hn Ho. destruct (consume_once_no_prefix p Hn) as (e' & He' & Hcat). rewrite He' in Ho.
  set (safe := (length (p_buffer p) - trailing_prefix_length (p_buffer p) CITATION_PREFIX)%nat) in *.
  assert (e = e' /\ p' = p <| p_buffer := drop safe (p_buffer p) |>) as [-> ->] by by simplify_eq.
  set (q := drop safe (p_buffer p) ++ b). set (p' := p <| p_buffer := drop safe (p_buffer p) |>).
  assert (Hsafe : (safe <= length (p_buffer p))%nat) by (unfold safe; lia).
  assert (Hw : p_buffer p ++ b = take safe (p_buffer p) ++ q) by (unfold q; by rewrite app_assoc, take_drop).
  assert (Htl : length (take safe (p_buffer p)) = safe) by (rewrite length_take; lia).
  assert (Hfind : find CITATION_PREFIX (p_buffer p ++ b) = (Nat.add safe) <$> find CITATION_PREFIX q).
  { rewrite (find_skip CITATION_PREFIX _ safe).
    - unfold q. by rewrite drop_app_le.
    - intros i Hi. by apply (safe_part_no_start _ _ _ _ _ (trailing_spec _ _)).
    - rewrite length_app. lia. }
  assert (Hd : forall j, drop (safe + j) (p_buffer p ++ b) = drop j q).
  { intros j. rewrite Hw, drop_app_ge by lia. rewrite Htl. f_equal. lia. }
  assert (Ht : forall j, take (safe + j) (p_buffer p ++ b) = take safe (p_buffer p) ++ take j q).
  { intros j. rewrite Hw, take_app_ge by lia. rewrite Htl. do 2 f_equal. lia. }
  destruct (find CITATION_PREFIX q) as [j|] eqn:Hq.
  - destruct (consume_once_prefix (extend p' b) j Hq) as (e2 & Hc2 & ->).
    destruct (consume_once_prefix (extend p b) (safe + j) Hfind) as (e3 & Hc3 & E3).
    change (p_buffer (extend p b)) with (p_buffer p ++ b) in *. change (p_buffer (extend p' b)) with q in *.
    rewrite Hd in E3. rewrite Ht in Hc3. destruct (find CITATION_SUFFIX (drop j q)) as [k|].
    + change (p_resolver (extend p b)) with (p_resolver p) in E3.
      change (p_resolver (extend p' b)) with (p_resolver p).
      destruct (transform_marker _ _) as [rep refs]. eexists. split; [exact E3|].
      by rewrite !concat_app, Hc3, Hc2, Hcat, app_assoc.
    + eexists. split; [exact E3|]. by rewrite Hc3, Hc2, Hcat.
  - destruct (consume_once_no_prefix (extend p' b) Hq) as (e2 & -> & Hc2).
    destruct (consume_once_no_prefix (extend p b) Hfind) as (e3 & E3 & Hc3).
    change (p_buffer (extend p b)) with (p_buffer p ++ b) in *. change (p_buffer (extend p' b)) with q in *.
    assert (Htr : trailing_prefix_length (p_buffer p ++ b) CITATION_PREFIX = trailing_prefix_length q CITATION_PREFIX).
    { apply (trailing_unique _ _ q CITATION_PREFIX); [|apply trailing_spec].
      by apply (trailing_of_rest _ _ safe _ _ _ (trailing_spec (p_buffer p) _)), trailing_spec. }
    rewrite Htr in *. pose proof (tr_text _ _ _ (trailing_spec q CITATION_PREFIX)) as Hle.
    assert (Hlen : (length (p_buffer p ++ b) - trailing_prefix_length q CITATION_PREFIX
                    = safe + (length q - trailing_prefix_length q CITATION_PREFIX))%nat)
      by (rewrite Hw, length_app, Htl; lia).
    rewrite Hlen, Hd in E3. rewrite Hlen, Ht in Hc3. eexists. split; [exact E3|]. by rewrite Hc3, Hc2, Hcat.
Qed.

Lemma consume_loop_extend n p b e p1 m e2 p2 :
  consume_loop n p = Some (e, p1) -> consume_loop m (extend p1 b) = Some (e2, p2) ->
  consume_loop (n + m) (extend p b) = Some (e ++ e2, p2).
Proof.
  revert p e p1. induction n as [|n IH]; intros p e p1 H H2; [done|]. simpl in *.
  destruct (consume_once p) as [[e0 p0] again] eqn:Ho. destruct again.
  - rewrite (consume_once_again _ b _ _ Ho).
    destruct (consume_loop n p0) as [[rest q]|] eqn:Hl; [|done]. injection H as <- <-.
    by rewrite (IH _ _ _ Hl H2), app_assoc.
  - injection H as <- <-. destruct m as [|m]; [done|]. simpl in H2.
    assert (Hs : match consume_once (extend p0 b) with
      | (e2, p2, again) => exists e3, consume_once (extend p b) = (e3, p2, again)
          /\ concat e3 = concat e0 ++ concat e2 end).
    { destruct (find CITATION_PREFIX (p_buffer p)) as [i|] eqn:Hi;
        [by apply (consume_once_stop_marker p b i)|by apply consume_once_stop_plain]. }
    destruct (consume_once (extend p0 b)) as [[e1 q] again]. destruct Hs as (e3 & -> & Hcat). destruct again.
    + destruct (consume_loop m q) as [[rest q2]|] eqn:Hl; [|done]. injection H2 as <- <-.
      rewrite (consume_loop_mono m _ _ _ Hl) by lia. by rewrite Hcat, app_assoc.
    + injection H2 as <- <-. by rewrite Hcat.
Qed.

(** ** Pieces *)

Lemma consume_loop_det n m p r1 r2 :
  consume_loop n p = Some r1 -> consume_loop m p = Some r2 -> r1 = r2.
Proof.
  intros H1 H2. apply (consume_loop_mono n (Nat.max n m)) in H1; [|lia].
  apply (consume_loop_mono m (Nat.max n m)) in H2; [|lia]. congruence.
Qed.

Lemma consume_eq text p :
  nonempty_text text = true -> resolver_is_empty (p_resolver p) = false ->
  consume text p = consume_loop (S (length (p_buffer (extend p text)))) (extend p text).
Proof. intros H1 H2. unfold consume. by rewrite H1, H2. Qed.

Lemma consume_total text p : exists visible p', consume text p = Some (visible, p') /\ p_resolver p' = p_resolver p.
Proof.
  destruct (nonempty_text text) eqn:H1, (resolver_is_empty (p_resolver p)) eqn:H2;
    try (exists text, p; split; [unfold consume; by rewrite H1, H2|done]).
  rewrite consume_eq by done. apply (consume_loop_total _ (extend p text)). lia.
Qed.

Lemma extend_app p a b : extend (extend p a) b = extend p (a ++ b).
Proof. unfold extend. cbn. by rewrite app_assoc. Qed.

Lemma consume_app a b p visible p1 rest p2 :
  consume a p = Some (visible, p1) -> consume b p1 = Some (rest, p2) ->
  consume (a ++ b) p = Some (visible ++ rest, p2).
Proof.
  intros Ha Hb. destruct (consume_total a p) as (v & p' & Ha' & Hr1). rewrite Ha in Ha'.
  assert (p' = p1) as -> by congruence. clear Ha'.
  destruct (resolver_is_empty (p_resolver p)) eqn:Hr.
  { unfold consume in *. rewrite Hr, orb_true_r in *. simplify_eq. rewrite Hr, orb_true_r in Hb. by simplify_eq. }
  destruct a as [|x a]; [unfold consume in Ha; simpl in Ha; by simplify_eq|].
  destruct b as [|y b]; [unfold consume in Hb; simpl in Hb; simplify_eq; by rewrite !app_nil_r|].
  rewrite consume_eq in Ha, Hb by (done || by rewrite Hr1). rewrite consume_eq by done.
  pose proof (consume_loop_extend _ _ (y :: b) _ _ _ _ _ Ha Hb) as Hl. rewrite extend_app in Hl.
  destruct (consume_loop_total (S (length (p_buffer (extend p ((x :: a) ++ y :: b)))))
    (extend p ((x :: a) ++ y :: b))) as (e3 & p3 & H3 & _); [lia|].
  rewrite H3. f_equal. by apply (consume_loop_det _ _ _ _ _ H3 Hl).
Qed.

Lemma consume_all_concat pieces p : consume_all pieces p = consume (concat pieces) p.
Proof.
  revert p. induction pieces as [|text pieces IH]; intros p; [done|]. simpl.
  destruct (consume_total text p) as (v & p1 & E1 & _). rewrite E1, IH.
  destruct (consume_total (concat pieces) p1) as (r & p2 & E2 & _). rewrite E2. symmetry. by eapply consume_app.
Qed.

(** ** Documents

    A text is a sequence of plain parts, each followed by a marker, and a last
    part without markers. *)

Definition marker_of (payload : pystr) : pystr := CITATION_PREFIX ++ payload ++ CITATION_SUFFIX.

Fixpoint document (parts : list (pystr * pystr)) (last : pystr) : pystr :=
  match parts with
  | [] => last
  | (plain, payload) :: parts' => plain ++ marker_of payload ++ document parts' last
  end.

(** The marker is the first thing that looks like one, and ends where it ends. *)
Definition part_ok (part : pystr * pystr) : bool :=
  bool_decide (find CITATION_PREFIX (part.1 ++ CITATION_PREFIX) = Some (length part.1))
  && bool_decide (find CITATION_SUFFIX (marker_of part.2) = Some (length CITATION_PREFIX + length part.2)%nat).

(** The references of a payload, and what stays visible of its marker. *)
Definition references_of (r : resolver) (payload : pystr) : list citation_reference :=
  omap (resolve_token r) (split_marker_tokens payload).

Definition shown (r : resolver) (payload : pystr) : pystr :=
  let tokens := split_marker_tokens payload in
  if forallb (is_unknown r) tokens then marker_of payload
  else match List.filter (is_unknown r) tokens with
       | [] => []
       | unknown => marker_of (join (pystr_of ", ") unknown)
       end.

Fixpoint visible_document (r : resolver) (parts : list (pystr * pystr)) (last : pystr) : pystr :=
  match parts with
  | [] => last
  | (plain, payload) :: parts' => plain ++ shown r payload ++ visible_document r parts' last
  end.

(** The references whose identifier comes for the first time. *)
Fixpoint first_references (seen : list pystr) (refs : list citation_reference) : list citation_reference :=
  match refs with
  | [] => []
  | x :: refs' =>
      if bool_decide (reference_id x ∈ seen) then first_references seen refs'
      else x :: first_references (reference_id x :: seen) refs'
  end.

Lemma first_references_seen seen seen' refs :
  (forall x, x ∈ seen <-> x ∈ seen') -> first_references seen refs = first_references seen' refs.
Proof.
  revert seen seen'. induction refs as [|x refs IH]; intros seen seen' H; [done|]. simpl.
  rewrite (bool_decide_ext _ _ (H (reference_id x))). case_bool_decide; [by apply IH|].
  f_equal. apply IH. set_solver.
Qed.

Lemma first_references_fresh seen refs :
  NoDup (map reference_id (first_references seen refs))
  /\ forall x, x ∈ first_references seen refs -> reference_id x ∉ seen.
Proof.
  revert seen. induction refs as [|x refs IH]; intros seen; simpl; [split; [constructor|set_solver]|].
  case_bool_decide as Hx; [apply IH|]. destruct (IH (reference_id x :: seen)) as [H1 H2]. split.
  - simpl. constructor; [|done]. intros (y & Hy & Hin)%list_elem_of_fmap. specialize (H2 y Hin). set_solver.
  - intros y [-> |Hy]%elem_of_cons; [done|]. specialize (H2 y Hy). set_solver.
Qed.

Lemma record_references_spec refs p :
  p_citations (record_references refs p) = p_citations p ++ first_references (p_seen p) refs.
Proof.
  unfold record_references. revert p. induction refs as [|x refs IH]; intros p; simpl; [by rewrite app_nil_r|].
  rewrite IH. unfold record_reference. case_bool_decide; [done|]. cbn. rewrite <- app_assoc. simpl.
  do 2 f_equal. apply first_references_seen. set_solver.
Qed.

Lemma record_references_app l1 l2 p :
  record_references (l1 ++ l2) p = record_references l2 (record_references l1 p).
Proof. apply foldl_app. Qed.

Lemma unknown_all r tokens : forallb (is_unknown r) tokens = true <-> omap (resolve_token r) tokens = [].
Proof.
  induction tokens as [|t tokens IH]; simpl; [done|]. unfold is_unknown at 1.
  rewrite andb_true_iff, IH. destruct (resolve_token r t); [split; [by intros []|done]|tauto].
Qed.

Lemma transform_marker_of r payload : transform_marker r (marker_of payload) = (shown r payload, references_of r payload).
Proof.
  assert (Hp : removesuffix CITATION_SUFFIX (removeprefix CITATION_PREFIX (marker_of payload)) = payload).
  { unfold removeprefix, marker_of. rewrite starts_with_app, drop_app_length.
    unfold removesuffix. rewrite ends_with_app, length_app.
    replace (length payload + length CITATION_SUFFIX - length CITATION_SUFFIX)%nat with (length payload) by lia.
    apply take_app_length. }
  unfold transform_marker. rewrite Hp. unfold shown, references_of. cbv zeta.
  destruct (split_marker_tokens payload) as [|t tokens]; [done|].
  pose proof (unknown_all r (t :: tokens)) as Hu.
  destruct (forallb (is_unknown r) (t :: tokens)).
  - by rewrite (proj1 Hu eq_refl).
  - destruct (omap (resolve_token r) (t :: tokens)) as [|x refs]; [by specialize (proj2 Hu eq_refl)|].
    by destruct (List.filter (is_unknown r) (t :: tokens)).
Qed.

Lemma consume_once_part p plain payload parts last :
  part_ok (plain, payload) = true -> p_buffer p = document ((plain, payload) :: parts) last ->
  exists e, consume_once p =
    (e, record_references (references_of (p_resolver p) payload) (p <| p_buffer := document parts last |>), true)
    /\ concat e = plain ++ shown (p_resolver p) payload.
Proof.
  intros [Hf%bool_decide_eq_true Hs%bool_decide_eq_true]%andb_true_iff Hb. cbn [fst snd document] in *.
  assert (Hi : find CITATION_PREFIX (p_buffer p) = Some (length plain)).
  { rewrite Hb. unfold marker_of. rewrite <- !app_assoc, app_assoc. by apply find_more. }
  destruct (consume_once_prefix p _ Hi) as (e & He & ->). rewrite Hb in *.
  rewrite drop_app_length in *. rewrite take_app_length in He. rewrite (find_more _ _ _ _ Hs).
  assert (Hl : (length CITATION_PREFIX + length payload + length CITATION_SUFFIX)%nat = length (marker_of payload))
    by (unfold marker_of; rewrite !length_app; lia).
  rewrite Hl, take_app_length, drop_app_length, transform_marker_of. eexists. split; [done|].
  rewrite concat_app, He. f_equal. destruct (shown (p_resolver p) payload); [done|]. simpl. by rewrite app_nil_r.
Qed.

Lemma consume_document n parts last p :
  forallb part_ok parts = true -> find CITATION_PREFIX last = None ->
  p_buffer p = document parts last -> (length parts < n)%nat ->
  exists e p', consume_loop n p = Some (e, p')
    /\ e ++ p_buffer p' = visible_document (p_resolver p) parts last
    /\ p_citations p' = p_citations (record_references (concat (map (fun x => references_of (p_resolver p) x.2) parts)) p).
Proof.
  revert n p. induction parts as [|[plain payload] parts IH]; intros n p Hok Hlast Hb Hn;
    (destruct n as [|n]; [simpl in Hn; lia|]); cbn [consume_loop].
  - cbn [document visible_document] in *. rewrite <- Hb in Hlast.
    destruct (consume_once_no_prefix p Hlast) as (e & -> & He). eexists _, _. split; [done|].
    rewrite He. cbn. by rewrite take_drop.
  - cbn [forallb] in Hok. apply andb_true_iff in Hok as [Hpart Hok].
    destruct (consume_once_part p plain payload parts last Hpart Hb) as (e & -> & He).
    set (p1 := record_references _ _).
    assert (Hp1 : p_buffer p1 = document parts last /\ p_resolver p1 = p_resolver p).
    { subst p1. by destruct (record_references_buffer (references_of (p_resolver p) payload)
        (p <| p_buffer := document parts last |>)) as [-> ->]. }
    destruct Hp1 as [Hp1 Hr]. destruct (IH n p1 Hok Hlast Hp1 ltac:(simpl in Hn; lia)) as (e2 & p2 & -> & Hv & Hc).
    eexists _, _. split; [done|]. rewrite He, Hr in *. split.
    + cbn [visible_document]. by rewrite <- !app_assoc, Hv.
    + rewrite Hc. cbn [map concat]. rewrite record_references_app. subst p1.
      rewrite record_references_set. by rewrite record_references_set.
Qed.

(** ** Properties *)

(** C38. Chunk invariance: however the model output is cut into pieces, the visible
    text emitted in total, the text still buffered and the citations recorded are
    those of the whole output given at once; and processing always ends. *)
Theorem citation_chunking_invariant pieces p :
  exists visible p', consume_all pieces p = Some (visible, p') /\ consume (concat pieces) p = Some (visible, p').
Proof.
  rewrite consume_all_concat. destruct (consume_total (concat pieces) p) as (v & p' & E & _). by exists v, p'.
Qed.

(** Markers are stripped exactly.  When a citation context is given and the
    output, in whatever pieces it arrives, is a sequence of plain parts and
    markers: every plain part is shown unchanged and in order, a marker whose
    identifiers are all known disappears, one with no known identifier is shown
    as it was, one with some is shown with the unknown ones only; and the citations
    are the references of the known identifiers, in order of first appearance, each
    once. *)
Theorem citations_stripped_exactly ctx parts last pieces :
  let r := make_resolver ctx in
  resolver_is_empty r = false -> forallb part_ok parts = true -> find CITATION_PREFIX last = None ->
  concat pieces = document parts last ->
  exists visible p, consume_all pieces (make_processor ctx) = Some (visible, p)
    /\ let '(tail, citations, _) := finalize p in
       visible ++ tail = visible_document r parts last
       /\ citations = first_references [] (concat (map (fun x => references_of r x.2) parts))
       /\ NoDup (map reference_id citations).
Proof.
  intros r Hr Hok Hlast Hdoc. rewrite consume_all_concat, Hdoc.
  assert (Hnd : NoDup (map reference_id (first_references [] (concat (map (fun x => references_of r x.2) parts)))))
    by apply first_references_fresh.
  destruct (document parts last) as [|c text] eqn:Hd.
  - assert (parts = [] /\ last = []) as [-> ->].
    { destruct parts as [|[plain payload] parts]; [done|]. simpl in Hd. unfold marker_of in Hd.
      by apply app_eq_nil in Hd as [_ ?]. }
    by eexists _, _.
  - rewrite consume_eq by done. set (p := extend (make_processor ctx) (c :: text)).
    assert (Hlen : (length parts < S (length (p_buffer p)))%nat).
    { change (p_buffer p) with (c :: text). rewrite <- Hd. clear. induction parts as [|[plain payload] parts IH]; cbn [length document]; [lia|].
      unfold marker_of. rewrite !length_app. change (length CITATION_PREFIX) with 7%nat. lia. }
    destruct (consume_document (S (length (p_buffer p))) parts last p Hok Hlast (eq_sym Hd) Hlen)
      as (e & p' & -> & Hv & Hc).
    exists e, p'. split; [done|]. unfold finalize. split; [done|].
    rewrite record_references_spec in Hc. change (p_citations p) with (@nil citation_reference) in Hc.
    change (p_seen p) with (@nil pystr) in Hc. simpl app in Hc. by rewrite Hc.
Qed.

(** ** Concrete outputs *)

Definition two_sources : citation_context :=
  Build_citation_context [Build_source (pystr_of "s1") (pystr_of "Handbook") None]
    [Build_chunk (pystr_of "c1") (pystr_of "text") (pystr_of "s1") (pystr_of "sec1") (pystr_of "Handbook") (pystr_of "Intro");
     Build_chunk (pystr_of "c2") (pystr_of "more") (pystr_of "s2") (pystr_of "sec2") (pystr_of "Guide") (pystr_of "Use")].

Definition two_parts : list (pystr * pystr) :=
  [(pystr_of "[[[ A fact ", pystr_of "c1, x9"); (pystr_of " and [[cite ", pystr_of " c2 s2,c1 ");
   (pystr_of ". ", pystr_of "zz")].

Lemma citations_stripped_exactly_witness :
  exists visible p,
    consume_all [pystr_of "[[[ A fact [[ci"; pystr_of "te:c1, x9]"; pystr_of "] and [[cite [[cite: c2 s2,c1 ]]. [[cite:zz]] end["]
      (make_processor (Some two_sources)) = Some (visible, p)
    /\ visible ++ p_buffer p = pystr_of "[[[ A fact [[cite:x9]] and [[cite . [[cite:zz]] end["
    /\ map reference_id (p_citations p) = map pystr_of ["c1"; "c2"; "s2"].
Proof.
  destruct (citations_stripped_exactly (Some two_sources) two_parts (pystr_of " end[")
    [pystr_of "[[[ A fact [[ci"; pystr_of "te:c1, x9]"; pystr_of "] and [[cite [[cite: c2 s2,c1 ]]. [[cite:zz]] end["])
    as (visible & p & H1 & H2 & H3 & _); [by vm_compute|by vm_compute|by vm_compute|by vm_compute|].
  exists visible, p. split; [exact H1|]. split; [etrans; [exact H2|by vm_compute]|].
  rewrite H3. by vm_compute.
Defined.

Example cleanup_examples :
  map (fun s => cleanup_citation_text (pystr_of s)) ["  a  fact , stated   twice . "; "x ,y  z"]
  = map pystr_of ["a fact, stated twice."; "x,y z"].
Proof. by vm_compute. Qed.
