(* ===== verification/Reasoning.v ===== *)
(** Model-emitted reasoning: src/src/lewlm/core/reasoning.py.

    A model may wrap its reasoning in tags; [ReasoningStreamProcessor] separates
    it from the visible output while the output arrives in pieces.  Tags are
    searched for in the case-folded buffer.  [str.casefold] maps each character
    to one or more by a table of the Unicode standard, which is the parameter
    [fold]; a hypothesis says what it does on ASCII where a theorem needs it. *)

From S2P Require Import Prelude PyBytes PyText.

Inductive reasoning_visibility := HIDDEN | SUMMARIZED | RAW_MODEL_EMITTED.

#[global] Instance reasoning_visibility_eq_dec : EqDecision reasoning_visibility.
Proof. solve_decision. Defined.

(** [ReasoningOutput]. *)
Record reasoning_output := {
  ro_visibility : reasoning_visibility;
  ro_available : bool;
  ro_content : option pystr;
  ro_summary : option pystr
}.

Definition REASONING_TAGS : list (pystr * pystr) :=
  [(pystr_of "<think>", pystr_of "</think>"); (pystr_of "<reasoning>", pystr_of "</reasoning>");
   (pystr_of "<|channel>thought", pystr_of "<channel|>")].

(** [StreamReasoningDelta]. *)
Inductive delta := ContentDelta (s : pystr) | ReasoningDelta (s : pystr).

Record processor := {
  rp_visibility : reasoning_visibility;
  rp_buffer : pystr;
  rp_active_close_tag : option pystr;
  rp_output_parts : list pystr;
  rp_reasoning_parts : list pystr;
  rp_reasoning_detected : bool
}.

#[global] Instance processor_eta : Eta processor := fun p =>
  Build_processor (rp_visibility p) (rp_buffer p) (rp_active_close_tag p) (rp_output_parts p)
    (rp_reasoning_parts p) (rp_reasoning_detected p).

Definition make_processor (visibility : reasoning_visibility) : processor :=
  Build_processor visibility [] None [] [] false.

Definition output_text (p : processor) : pystr := concat (rp_output_parts p).

(** ** Whitespace *)

Definition nonempty_text (s : pystr) : bool := match s with [] => false | _ => true end.

(** [s.split()]: the runs of characters that are not whitespace. *)
Definition words (s : pystr) : list pystr := List.filter nonempty_text (split_on text_space s).

Definition space : pystr := pystr_of " ".

Definition text_rstrip (s : pystr) : pystr := rev (text_lstrip (rev s)).

(** The part of [s] before its last space, as [s.rsplit(" ", 1)[0]]. *)
Fixpoint before_last_space (s : pystr) : option pystr :=
  match s with
  | [] => None
  | c :: s' =>
      match before_last_space s' with
      | Some t => Some (c :: t)
      | None => if (c =? 32)%N then Some [] else None
      end
  end.

Definition summarize_reasoning_text (reasoning_text : pystr) (max_length : nat) : option pystr :=
  let normalized := join space (words reasoning_text) in
  if negb (nonempty_text normalized) then None
  else if (length normalized <=? max_length)%nat then Some normalized
  else
    let truncated := text_rstrip (take max_length normalized) in
    let truncated := match before_last_space truncated with Some t => t | None => truncated end in
    Some (truncated ++ pystr_of "...").

Definition MAX_SUMMARY : nat := 160.

Definition build_reasoning_output (visibility : reasoning_visibility) (reasoning_text : pystr)
    (reasoning_detected : bool) : reasoning_output :=
  let normalized := join space (words reasoning_text) in
  if negb reasoning_detected && negb (nonempty_text normalized)
  then Build_reasoning_output visibility false None None
  else match visibility with
       | HIDDEN => Build_reasoning_output visibility true None None
       | SUMMARIZED =>
           Build_reasoning_output visibility true None (summarize_reasoning_text normalized MAX_SUMMARY)
       | RAW_MODEL_EMITTED => Build_reasoning_output visibility true (Some normalized) None
       end.

(** [a or b] on optional texts. *)
Definition text_or (a b : option pystr) : option pystr :=
  match a with Some (_ :: _) => a | _ => b end.

Definition some_text (a : option pystr) : bool := match a with Some (_ :: _) => true | _ => false end.

Definition reasoning_available (r : option reasoning_output) : bool :=
  match r with Some r => ro_available r | None => false end.

Definition reasoning_exposed (r : option reasoning_output) : bool :=
  match r with
  | Some r => ro_available r && (some_text (ro_content r) || some_text (ro_summary r))
  | None => false
  end.

Definition apply_visibility_to_existing_reasoning (existing : reasoning_output)
    (visibility : reasoning_visibility) : reasoning_output :=
  if negb (ro_available existing) then Build_reasoning_output visibility false None None
  else match visibility with
       | HIDDEN => Build_reasoning_output visibility true None None
       | SUMMARIZED =>
           Build_reasoning_output visibility true None
             (text_or (ro_summary existing)
                (summarize_reasoning_text (default [] (text_or (ro_content existing) (Some []))) MAX_SUMMARY))
       | RAW_MODEL_EMITTED =>
           Build_reasoning_output visibility true (text_or (ro_content existing) (ro_summary existing)) None
       end.

(** ** Tags *)

Section casefold.
Context (fold : N -> pystr).

(** [s.casefold()]. *)
Definition casefold (s : pystr) : pystr := concat (map fold s).

(** The loop of [_find_open_tag], with the best match so far. *)
Fixpoint find_open_tag_from (tags : list (pystr * pystr)) (normalized : pystr)
    (best : option (nat * (pystr * pystr))) : option (nat * (pystr * pystr)) :=
  match tags with
  | [] => best
  | tag :: tags' =>
      find_open_tag_from tags' normalized
        (match find (casefold tag.1) normalized with
         | None => best
         | Some index =>
             match best with
             | None => Some (index, tag)
             | Some (i, _) => if (index <? i)%nat then Some (index, tag) else best
             end
         end)
  end.

Definition find_open_tag (buffer : pystr) : option (nat * (pystr * pystr)) :=
  find_open_tag_from REASONING_TAGS (casefold buffer) None.

(** The loop over sizes, counting down. *)
Fixpoint suffix_size (size : nat) (normalized tag_prefix : pystr) : nat :=
  match size with
  | O => O
  | S size' => if ends_with (take size tag_prefix) normalized then size else suffix_size size' normalized tag_prefix
  end.

Definition safe_suffix_length (buffer : pystr) (tags : list pystr) : nat :=
  let normalized := casefold buffer in
  foldl (fun max_length tag =>
    let tag_prefix := casefold tag in
    Nat.max max_length
      (suffix_size (Nat.min (length normalized) (length tag_prefix - 1)) normalized tag_prefix)) 0%nat tags.

(** ** Streaming *)

(** [_record_reasoning]: the deltas it emits, and the processor. *)
Definition record_reasoning (reasoning_text : pystr) (p : processor) : list delta * processor :=
  if nonempty_text reasoning_text then
    ((if bool_decide (rp_visibility p = RAW_MODEL_EMITTED) then [ReasoningDelta reasoning_text] else []),
     p <| rp_reasoning_parts ::= fun l => l ++ [reasoning_text] |>)
  else ([], p).

Definition emit_content (content : pystr) (p : processor) : list delta * processor :=
  if nonempty_text content then
    ([ContentDelta content], p <| rp_output_parts ::= fun l => l ++ [content] |>)
  else ([], p).

(** One iteration of the loop of [consume] on a buffer that is not empty: the
    deltas, the processor, and whether the loop goes on.  [buffer[:-n]] and
    [buffer[-n:]] are the parts before and after the last [n] characters. *)
Definition consume_once (p : processor) : list delta * processor * bool :=
  let buffer := rp_buffer p in
  match rp_active_close_tag p with
  | None =>
      match find_open_tag buffer with
      | None =>
          let safe := (length buffer - safe_suffix_length buffer (map fst REASONING_TAGS))%nat in
          (emit_content (take safe buffer) (p <| rp_buffer := drop safe buffer |>), false)
      | Some (tag_index, (open_tag, close_tag)) =>
          let '(deltas, p) := emit_content (take tag_index buffer) p in
          (deltas, p <| rp_reasoning_detected := true |>
                     <| rp_buffer := drop (tag_index + length open_tag) buffer |>
                     <| rp_active_close_tag := Some close_tag |>, true)
      end
  | Some close_tag =>
      match find (casefold close_tag) (casefold buffer) with
      | None =>
          let safe := (length buffer - safe_suffix_length buffer [close_tag])%nat in
          (record_reasoning (take safe buffer) (p <| rp_buffer := drop safe buffer |>), false)
      | Some close_index =>
          let '(deltas, p) := record_reasoning (take close_index buffer) p in
          (deltas, p <| rp_buffer := drop (close_index + length close_tag) buffer |>
                     <| rp_active_close_tag := None |>, true)
      end
  end.

(** [while self._buffer]; [None] when the fuel runs out. *)
Fixpoint consume_loop (fuel : nat) (p : processor) : option (list delta * processor) :=
  match fuel with
  | O => None
  | S fuel' =>
      if negb (nonempty_text (rp_buffer p)) then Some ([], p)
      else
        let '(deltas, p', again) := consume_once p in
        if again then
          match consume_loop fuel' p' with
          | Some (rest, p'') => Some (deltas ++ rest, p'')
          | None => None
          end
        else Some (deltas, p')
  end.

Definition consume (text : pystr) (p : processor) : option (list delta * processor) :=
  let p := p <| rp_buffer := rp_buffer p ++ text |> in
  consume_loop (S (length (rp_buffer p))) p.

Definition finalize (p : processor) : reasoning_output * processor :=
  let p :=
    if nonempty_text (rp_buffer p) then
      let p := match rp_active_close_tag p with
               | None => p <| rp_output_parts ::= fun l => l ++ [rp_buffer p] |>
               | Some _ => snd (record_reasoning (rp_buffer p) p)
               end in
      p <| rp_buffer := [] |> <| rp_active_close_tag := None |>
    else p in
  (build_reasoning_output (rp_visibility p) (concat (rp_reasoning_parts p)) (rp_reasoning_detected p), p).

Definition apply_reasoning_visibility (text : pystr) (visibility : reasoning_visibility)
    (existing : option reasoning_output) : option (pystr * reasoning_output) :=
  match existing with
  | Some ((Build_reasoning_output _ true _ _) as r) =>
      Some (text, apply_visibility_to_existing_reasoning r visibility)
  | _ =>
      match consume text (make_processor visibility) with
      | Some (_, p) => let '(reasoning, p) := finalize p in Some (output_text p, reasoning)
      | None => None
      end
  end.

(** A stream: the pieces one after the other. *)
Fixpoint consume_all (pieces : list pystr) (p : processor) : option (list delta * processor) :=
  match pieces with
  | [] => Some ([], p)
  | text :: pieces' =>
      match consume text p with
      | Some (deltas, p) =>
          match consume_all pieces' p with
          | Some (rest, p) => Some (deltas ++ rest, p)
          | None => None
          end
      | None => None
      end
  end.

(** ** Equivalent processors

    How the output is cut into parts depends on the pieces it arrived in; two
    processors are equivalent when their texts agree. *)

#[global] Instance processor_equiv : Equiv processor := fun p q =>
  rp_visibility p = rp_visibility q /\ rp_buffer p = rp_buffer q
  /\ rp_active_close_tag p = rp_active_close_tag q
  /\ concat (rp_output_parts p) = concat (rp_output_parts q)
  /\ concat (rp_reasoning_parts p) = concat (rp_reasoning_parts q)
  /\ rp_reasoning_detected p = rp_reasoning_detected q.

#[global] Instance processor_equivalence : Equivalence (≡@{processor}).
Proof.
  split.
  - intros p. by split_and!.
  - intros p q (?&?&?&?&?&?). by split_and!.
  - intros p q r (?&?&?&?&?&?) (?&?&?&?&?&?). split_and!; congruence.
Qed.

(** The visible and the reasoning text of a list of deltas. *)
Definition contents (ds : list delta) : pystr :=
  concat (map (fun d => match d with ContentDelta s => s | _ => [] end) ds).

Definition reasonings (ds : list delta) : pystr :=
  concat (map (fun d => match d with ReasoningDelta s => s | _ => [] end) ds).

Lemma contents_app d1 d2 : contents (d1 ++ d2) = contents d1 ++ contents d2.
Proof. unfold contents. by rewrite map_app, concat_app. Qed.

Lemma reasonings_app d1 d2 : reasonings (d1 ++ d2) = reasonings d1 ++ reasonings d2.
Proof. unfold reasonings. by rewrite map_app, concat_app. Qed.

#[local] Instance emit_content_proper s : Proper ((≡) ==> prod_relation (=) (≡)) (emit_content s).
Proof.
  intros p q (?&?&?&Ho&?&?). unfold emit_content. destruct (nonempty_text s); (split; [done|]); simpl.
  - split_and!; cbn; try done. by rewrite !concat_app, Ho.
  - by split_and!.
Qed.

#[local] Instance record_reasoning_proper s : Proper ((≡) ==> prod_relation (=) (≡)) (record_reasoning s).
Proof.
  intros p q (Hv&?&?&?&Ho&?). unfold record_reasoning. rewrite Hv.
  destruct (nonempty_text s); (split; [done|]); simpl.
  - split_and!; cbn; try done. by rewrite !concat_app, Ho.
  - by split_and!.
Qed.

Lemma set_buffer_equiv (p q : processor) b : p ≡ q -> p <| rp_buffer := b |> ≡ q <| rp_buffer := b |>.
Proof. intros (?&?&?&?&?&?). by split_and!. Qed.

#[local] Instance consume_once_proper : Proper ((≡) ==> prod_relation (prod_relation (=) (≡)) (=)) consume_once.
Proof.
  intros p q Hpq. pose proof Hpq as (Hv & Hb & Ha & Ho & Hr & Hd). unfold consume_once. rewrite Hb, Ha.
  destruct (rp_active_close_tag q) as [close|].
  - destruct (find (casefold close) (casefold (rp_buffer q))) as [i|].
    + destruct (record_reasoning_proper (take i (rp_buffer q)) p q Hpq) as [H1 H2].
      destruct (record_reasoning _ p) as [d1 p1], (record_reasoning _ q) as [d2 q1]. simpl in *. subst d2.
      destruct H2 as (?&?&?&?&?&?). split; [|done]. split; [done|]. by split_and!.
    + split; [|done]. apply record_reasoning_proper. by apply set_buffer_equiv.
  - destruct (find_open_tag (rp_buffer q)) as [[i [open close]]|].
    + destruct (emit_content_proper (take i (rp_buffer q)) p q Hpq) as [H1 H2].
      destruct (emit_content _ p) as [d1 p1], (emit_content _ q) as [d2 q1]. simpl in *. subst d2.
      destruct H2 as (?&?&?&?&?&?). split; [|done]. split; [done|]. by split_and!.
    + split; [|done]. apply emit_content_proper. by apply set_buffer_equiv.
Qed.

Lemma find_in_nothing sub : sub <> [] -> find sub [] = None.
Proof. by destruct sub. Qed.

(** Two results of the loop that agree up to the cutting of the texts. *)
Definition same_result (r1 r2 : list delta * processor) : Prop :=
  contents r1.1 = contents r2.1 /\ reasonings r1.1 = reasonings r2.1 /\ r1.2 ≡ r2.2.

#[local] Instance same_result_equivalence : Equivalence same_result.
Proof.
  split.
  - intros r. by split_and!.
  - intros r1 r2 (?&?&?). by split_and!.
  - intros r1 r2 r3 (?&?&?) (?&?&?). split_and!; etrans; done.
Qed.
(** ** Case folding that keeps positions *)

Definition one_to_one (s : pystr) : Prop := Forall (fun c => length (fold c) = 1%nat) s.

Lemma casefold_app a b : casefold (a ++ b) = casefold a ++ casefold b.
Proof. unfold casefold. by rewrite map_app, concat_app. Qed.

Lemma length_casefold s : one_to_one s -> length (casefold s) = length s.
Proof. induction 1 as [|c s Hc Hs IH]; [done|]. unfold casefold in *. simpl. rewrite length_app. lia. Qed.

Lemma casefold_drop n s : one_to_one s -> casefold (drop n s) = drop n (casefold s).
Proof.
  intros H. revert n. induction H as [|c s Hc Hs IH]; intros [|n]; try done.
  cbn [drop]. rewrite IH. unfold casefold. simpl. destruct (fold c) as [|d [|]]; done.
Qed.

Lemma one_to_one_app a b : one_to_one (a ++ b) <-> one_to_one a /\ one_to_one b.
Proof. apply Forall_app. Qed.

Lemma one_to_one_drop n s : one_to_one s -> one_to_one (drop n s).
Proof. apply Forall_drop. Qed.

(** ** Searching for several tags *)

(** Trailing parts by the code's loop. *)
Lemma suffix_size_trailing normalized tag_prefix :
  is_trailing (suffix_size (Nat.min (length normalized) (length tag_prefix - 1)) normalized tag_prefix)
    normalized tag_prefix.
Proof.
  assert (Hew : forall n, (n <= length normalized)%nat -> (n <= length tag_prefix - 1)%nat ->
    ends_with (take n tag_prefix) normalized = starts_with (drop (length normalized - n) normalized) tag_prefix).
  { intros n H1 H2. apply Bool.eq_iff_eq_true. unfold ends_with.
    assert (Hl : length (take n tag_prefix) = n) by (rewrite length_take; lia).
    rewrite Hl, andb_true_iff, bool_decide_eq_true, starts_with_spec, Nat.leb_le. split.
    - intros [He _]. exists (drop n tag_prefix). by rewrite <- He, take_drop.
    - intros [t Ht]. split; [|done]. rewrite Ht at 1. rewrite take_app_le by (rewrite length_drop; lia).
      rewrite take_ge; [done|]. rewrite length_drop. lia. }
  assert (Hspec : forall n, (n <= length normalized)%nat -> (n <= length tag_prefix - 1)%nat ->
    let t := suffix_size n normalized tag_prefix in
    (t <= n)%nat /\ starts_with (drop (length normalized - t) normalized) tag_prefix = true
    /\ forall m, (t < m <= n)%nat -> starts_with (drop (length normalized - m) normalized) tag_prefix = false).
  { intros n H1 H2. cbv zeta. induction n as [|n IH]; cbn [suffix_size].
    - split_and!; [lia| |intros m Hm; lia]. by rewrite drop_ge by lia.
    - rewrite Hew by lia.
      destruct (starts_with (drop (length normalized - S n) normalized) tag_prefix) eqn:Hs.
      + split_and!; [lia|done|intros m Hm; lia].
      + destruct IH as (A1 & A2 & A3); [lia|lia|]. split_and!; [lia|done|]. intros m Hm.
        destruct (decide (m = S n)) as [->|]; [done|]. apply A3. lia. }
  set (n := Nat.min (length normalized) (length tag_prefix - 1)).
  destruct (Hspec n ltac:(lia) ltac:(lia)) as (H1 & H2 & H3). cbv zeta in *.
  split; [lia|lia|done|]. intros m Hm1 Hm2 Hs.
  destruct (decide (m <= suffix_size n normalized tag_prefix)%nat) as [|Hn]; [done|].
  rewrite H3 in Hs by lia. done.
Qed.

Definition tag_trailing (normalized tag : pystr) : nat :=
  suffix_size (Nat.min (length normalized) (length (casefold tag) - 1)) normalized (casefold tag).

Lemma safe_suffix_length_eq buffer tags :
  safe_suffix_length buffer tags = foldl Nat.max 0%nat (map (tag_trailing (casefold buffer)) tags).
Proof.
  unfold safe_suffix_length. cbv zeta. match goal with |- foldl ?f _ _ = _ => set (g := f) end.
  generalize 0%nat. induction tags as [|t tags IH]; intros n; [done|]. apply IH.
Qed.

Lemma foldl_max_le (l : list nat) n :
  (n <= foldl Nat.max n l)%nat /\ forall x, x ∈ l -> (x <= foldl Nat.max n l)%nat.
Proof.
  revert n. induction l as [|y l IH]; intros n; simpl.
  - split; [done|]. by intros x ?%not_elem_of_nil.
  - destruct (IH (Nat.max n y)) as [H1 H2]. split; [lia|]. intros x [-> |Hx]%elem_of_cons; [lia|auto].
Qed.

Lemma foldl_max_bound (l : list nat) n m : (forall x, x ∈ l -> (x <= m)%nat) -> (n <= m)%nat -> (foldl Nat.max n l <= m)%nat.
Proof.
  revert n. induction l as [|y l IH]; intros n Hl Hn; simpl; [done|]. apply IH; [set_solver|].
  apply Nat.max_lub; [done|]. apply Hl. by left.
Qed.

Lemma tag_trailing_le buffer tags tag :
  tag ∈ tags -> (tag_trailing (casefold buffer) tag <= safe_suffix_length buffer tags)%nat.
Proof.
  intros H. rewrite safe_suffix_length_eq. apply foldl_max_le.
  by apply (list_elem_of_fmap_2 (tag_trailing (casefold buffer))).
Qed.

Lemma safe_suffix_le buffer tags : (safe_suffix_length buffer tags <= length (casefold buffer))%nat.
Proof.
  rewrite safe_suffix_length_eq. apply foldl_max_bound; [|lia].
  intros x (t & -> & _)%list_elem_of_fmap. apply (tr_text _ _ (casefold t)), suffix_size_trailing.
Qed.

(** No tag in the buffer: then nothing that comes later starts in its safe part,
    and the trailing part does not depend on it. *)
Lemma safe_part_later buffer more tags :
  (forall tag, tag ∈ tags -> find (casefold tag) (casefold buffer) = None) ->
  one_to_one (buffer ++ more) ->
  let k := (length buffer - safe_suffix_length buffer tags)%nat in
  (forall tag, tag ∈ tags ->
     find (casefold tag) (casefold (buffer ++ more)) = (Nat.add k) <$> find (casefold tag) (casefold (drop k buffer ++ more)))
  /\ safe_suffix_length (buffer ++ more) tags = safe_suffix_length (drop k buffer ++ more) tags.
Proof.
  intros Hnone Hone k. apply one_to_one_app in Hone as [H1 H2].
  assert (Hlen := length_casefold buffer H1).
  assert (Hq : casefold (drop k buffer ++ more) = drop k (casefold buffer) ++ casefold more)
    by (rewrite casefold_app, casefold_drop; done).
  assert (Hk : forall tag, tag ∈ tags -> (k <= length (casefold buffer) - tag_trailing (casefold buffer) tag)%nat).
  { intros tag Ht. pose proof (tag_trailing_le buffer tags tag Ht). lia. }
  split.
  - intros tag Ht. rewrite casefold_app, Hq. rewrite (find_skip _ _ k).
    + by rewrite drop_app_le by lia.
    + intros i Hi. eapply safe_part_no_start; [apply suffix_size_trailing|by apply Hnone|].
      specialize (Hk tag Ht). unfold tag_trailing in Hk. lia.
    + rewrite length_app. lia.
  - rewrite !safe_suffix_length_eq. f_equal. apply map_ext_in. intros tag Ht%list_elem_of_In.
    apply (trailing_unique _ _ (casefold (drop k buffer ++ more)) (casefold tag)); [|apply suffix_size_trailing].
    rewrite Hq, casefold_app. eapply trailing_of_rest; [apply suffix_size_trailing|by apply Hk|apply suffix_size_trailing].
Qed.
(** *** The earliest tag *)

Definition better (index : option nat) (tag : pystr * pystr) (best : option (nat * (pystr * pystr))) :=
  match index with
  | None => best
  | Some index =>
      match best with
      | None => Some (index, tag)
      | Some (i, _) => if (index <? i)%nat then Some (index, tag) else best
      end
  end.

Lemma find_open_tag_from_cons tag tags n best :
  find_open_tag_from (tag :: tags) n best = find_open_tag_from tags n (better (find (casefold tag.1) n) tag best).
Proof. done. Qed.

(** The result is one of the tags, found where it is, unless it is the best so far. *)
Lemma find_open_tag_from_In tags n best i tag :
  find_open_tag_from tags n best = Some (i, tag) ->
  best = Some (i, tag) \/ tag ∈ tags /\ find (casefold tag.1) n = Some i.
Proof.
  revert best. induction tags as [|t tags IH]; intros best H; [by left|].
  rewrite find_open_tag_from_cons in H. destruct (IH _ H) as [Hb|[? ?]]; [|right; split; [by right|done]].
  unfold better in Hb. destruct (find (casefold t.1) n) as [j|] eqn:Hf; [|by left].
  destruct best as [[b tb]|]; [destruct (j <? b)%nat|]; simplify_eq; try (by left); right; (split; [by left|done]).
Qed.

Lemma find_open_tag_from_None tags n best :
  find_open_tag_from tags n best = None -> best = None /\ forall tag, tag ∈ tags -> find (casefold tag.1) n = None.
Proof.
  revert best. induction tags as [|t tags IH]; intros best H; [split; [done|by intros tag ?%not_elem_of_nil]|].
  rewrite find_open_tag_from_cons in H. destruct (IH _ H) as [Hb Ht]. unfold better in Hb.
  destruct (find (casefold t.1) n) as [j|] eqn:Hf.
  - destruct best as [[b tb]|]; [destruct (j <? b)%nat|]; done.
  - split; [done|]. by intros tag [-> |Hin]%elem_of_cons; [|apply Ht].
Qed.

(** It is at or before the best so far and every occurrence. *)
Lemma find_open_tag_from_min tags n best i tag :
  find_open_tag_from tags n best = Some (i, tag) ->
  (forall b tb, best = Some (b, tb) -> (i <= b)%nat)
  /\ forall t j, t ∈ tags -> find (casefold t.1) n = Some j -> (i <= j)%nat.
Proof.
  revert best. induction tags as [|t tags IH]; intros best H.
  { simpl in H. split; [intros b tb Hb; rewrite H in Hb; by simplify_eq|by intros t j ?%not_elem_of_nil]. }
  rewrite find_open_tag_from_cons in H. destruct (IH _ H) as [H1 H2]. split.
  - intros b tb ->. unfold better in H1. destruct (find (casefold t.1) n) as [j|]; [|by eapply H1].
    destruct (j <? b)%nat eqn:Hj; [|by eapply H1]. apply Nat.ltb_lt in Hj. specialize (H1 _ _ eq_refl). lia.
  - intros t' j [-> |Hin]%elem_of_cons Hf; [|by eapply H2]. unfold better in H1. rewrite Hf in H1.
    destruct best as [[b tb]|]; [destruct (j <? b)%nat eqn:Hj|].
    + by eapply H1.
    + apply Nat.ltb_ge in Hj. specialize (H1 _ _ eq_refl). lia.
    + by eapply H1.
Qed.

(** Moving every occurrence moves the result. *)
Lemma find_open_tag_from_shift k tags w q best :
  (forall tag, tag ∈ tags -> find (casefold tag.1) w = (Nat.add k) <$> find (casefold tag.1) q) ->
  find_open_tag_from tags w (prod_map (Nat.add k) id <$> best)
  = prod_map (Nat.add k) id <$> find_open_tag_from tags q best.
Proof.
  revert best. induction tags as [|t tags IH]; intros best H; [done|].
  rewrite !find_open_tag_from_cons, <- IH by (intros tag Ht; apply H; by right). f_equal.
  rewrite (H t) by by left. unfold better. destruct (find (casefold t.1) q) as [j|]; [|done]. simpl.
  destruct best as [[b tb]|]; [|done]. simpl.
  destruct (j <? b)%nat eqn:Hj; [apply Nat.ltb_lt in Hj|apply Nat.ltb_ge in Hj].
  - by replace (k + j <? k + b)%nat with true by (symmetry; apply Nat.ltb_lt; lia).
  - by replace (k + j <? k + b)%nat with false by (symmetry; apply Nat.ltb_ge; lia).
Qed.

Definition late (i : nat) (best : option (nat * (pystr * pystr))) : Prop :=
  match best with Some (b, _) => (i < b)%nat | None => True end.

(** Later occurrences do not change the result. *)
Lemma find_open_tag_from_stable tags n n' best best' i tag :
  find_open_tag_from tags n best = Some (i, tag) ->
  (forall t, t ∈ tags -> find (casefold t.1) n' = find (casefold t.1) n
     \/ exists j, find (casefold t.1) n = None /\ find (casefold t.1) n' = Some j /\ (i < j)%nat) ->
  best' = best \/ late i best /\ late i best' ->
  find_open_tag_from tags n' best' = Some (i, tag).
Proof.
  revert best best'. induction tags as [|t tags IH]; intros best best' H Ht Hb.
  { simpl in *. subst best. destruct Hb as [->|[Hl _]]; [done|]. simpl in Hl. lia. }
  rewrite find_open_tag_from_cons in *. pose proof (find_open_tag_from_min _ _ _ _ _ H) as [Hmin _].
  eapply IH; [exact H|intros t' Ht'; apply Ht; by right|].
  destruct (Ht t) as [->|(j & -> & -> & Hj)]; [by left| |].
  - destruct (find (casefold t.1) n) as [j|]; [|done]. simpl in *.
    destruct Hb as [->|[H1 H2]]; [by left|].
    assert (Hij : (i < j)%nat \/ i = j \/ (j < i)%nat) by lia. unfold late in *.
    destruct Hij as [Hij|[->|Hij]].
    + right. split; [destruct best as [[b tb]|]|destruct best' as [[b tb]|]]; simpl; try lia;
        by destruct (j <? b)%nat.
    + left. destruct best as [[b tb]|], best' as [[b' tb']|]; try done;
        repeat match goal with |- context [(?x <? ?y)%nat] =>
          replace (x <? y)%nat with true by (symmetry; apply Nat.ltb_lt; lia) end; done.
    + exfalso. destruct best as [[b tb]|].
      * replace (j <? b)%nat with true in Hmin by (symmetry; apply Nat.ltb_lt; lia).
        specialize (Hmin _ _ eq_refl). lia.
      * specialize (Hmin _ _ eq_refl). lia.
  - simpl. destruct Hb as [->|[H1 H2]].
    + destruct best as [[b tb]|]; [|right; done].
      destruct (j <? b)%nat eqn:Hjb; [|by left]. apply Nat.ltb_lt in Hjb. right. simpl. lia.
    + right. split; [done|]. destruct best' as [[b tb]|]; [|done]. by destruct (j <? b)%nat.
Qed.
(** ** More text *)

Definition lower_ascii (c : N) : N := if ((65 <=? c) && (c <=? 90))%N then (c + 32)%N else c.

Context (fold_ascii : forall c, (c < 128)%N -> fold c = [lower_ascii c]).

Lemma casefold_lower s :
  forallb (fun c => (c <? 128)%N && (lower_ascii c =? c)%N) s = true -> casefold s = s.
Proof.
  induction s as [|c s IH]; [done|]. simpl. intros [Hc Hs]%andb_true_iff.
  apply andb_true_iff in Hc as [Hc Hl]. apply N.ltb_lt in Hc. apply N.eqb_eq in Hl.
  change (casefold (c :: s)) with (fold c ++ casefold s). rewrite IH, fold_ascii by done. by rewrite Hl.
Qed.

Lemma casefold_tags tag : tag ∈ REASONING_TAGS -> casefold tag.1 = tag.1 /\ casefold tag.2 = tag.2.
Proof.
  intros H. repeat (apply elem_of_cons in H as [-> |H]; [by split; apply casefold_lower|]).
  by apply not_elem_of_nil in H.
Qed.

(** No tag occurs inside another one. *)
Lemma tags_apart t t' :
  t ∈ REASONING_TAGS -> t' ∈ REASONING_TAGS -> t = t' \/ find t.1 t'.1 = None.
Proof.
  intros H H'. repeat (apply elem_of_cons in H as [-> |H]; [
    repeat (apply elem_of_cons in H' as [-> |H']; [first [by left|by right]|]); by apply not_elem_of_nil in H'|]).
  by apply not_elem_of_nil in H.
Qed.

Lemma find_open_tag_In buffer i tag :
  find_open_tag buffer = Some (i, tag) -> tag ∈ REASONING_TAGS /\ find tag.1 (casefold buffer) = Some i.
Proof.
  intros H. unfold find_open_tag in H. apply find_open_tag_from_In in H as [?|[Hin Hf]]; [done|].
  split; [done|]. by rewrite <- (proj1 (casefold_tags tag Hin)).
Qed.

(** The earliest tag stays the earliest when more text follows: one that would
    begin before it would contain it. *)
Lemma find_open_tag_more buffer more i tag :
  find_open_tag buffer = Some (i, tag) -> find_open_tag (buffer ++ more) = Some (i, tag).
Proof.
  intros H. destruct (find_open_tag_In _ _ _ H) as [Hin Hfi]. unfold find_open_tag in *.
  rewrite casefold_app. set (n := casefold buffer) in *.
  eapply find_open_tag_from_stable; [exact H| |by left]. intros t Ht.
  destruct (casefold_tags t Ht) as [Hct _]. rewrite Hct.
  destruct (find t.1 n) as [j|] eqn:Hf; [left; by apply find_more|].
  destruct (find t.1 (n ++ casefold more)) as [j|] eqn:Hj; [|by left]. right. exists j. split_and!; try done.
  destruct (decide (i < j)%nat) as [|Hn]; [done|]. exfalso.
  destruct (find_at _ _ _ Hj) as [Hs _]. destruct (find_at _ _ _ Hfi) as [Hs' Hl].
  rewrite drop_app_le in Hs by lia. destruct (starts_with_split _ _ _ Hs) as [Hst|[_ Hst]].
  - by rewrite (find_None _ _ j Hf) in Hst.
  - destruct (tags_apart tag t Hin Ht) as [->|Hap]; [congruence|].
    apply starts_with_spec in Hst as [u Hu].
    assert (Hd : starts_with tag.1 (drop (i - j) t.1) = true).
    { rewrite Hu. rewrite drop_app_le by (rewrite length_drop; lia). rewrite drop_drop.
      replace (j + (i - j))%nat with i by lia. by apply starts_with_more. }
    by rewrite (find_None _ _ _ Hap) in Hd.
Qed.

Definition extend (p : processor) (text : pystr) : processor := p <| rp_buffer := rp_buffer p ++ text |>.

(** A processor in a state the code can reach: its active tag is one of the tags
    and its buffer folds one to one. *)
Definition proc_ok (p : processor) : Prop :=
  one_to_one (rp_buffer p)
  /\ match rp_active_close_tag p with
     | Some close => exists tag, tag ∈ REASONING_TAGS /\ tag.2 = close
     | None => True
     end.

Lemma emit_content_fields s p :
  let '(ds, p') := emit_content s p in
  rp_buffer p' = rp_buffer p /\ rp_active_close_tag p' = rp_active_close_tag p
  /\ concat (rp_output_parts p') = concat (rp_output_parts p) ++ s
  /\ rp_reasoning_parts p' = rp_reasoning_parts p /\ rp_visibility p' = rp_visibility p
  /\ rp_reasoning_detected p' = rp_reasoning_detected p /\ contents ds = s /\ reasonings ds = [].
Proof.
  unfold emit_content. destruct s as [|c s]; cbn; [by rewrite !app_nil_r|].
  rewrite !concat_app. cbn. by rewrite !app_nil_r.
Qed.

Lemma record_reasoning_fields s p :
  let '(ds, p') := record_reasoning s p in
  rp_buffer p' = rp_buffer p /\ rp_active_close_tag p' = rp_active_close_tag p
  /\ rp_output_parts p' = rp_output_parts p
  /\ concat (rp_reasoning_parts p') = concat (rp_reasoning_parts p) ++ s /\ rp_visibility p' = rp_visibility p
  /\ rp_reasoning_detected p' = rp_reasoning_detected p /\ contents ds = []
  /\ reasonings ds = if bool_decide (rp_visibility p = RAW_MODEL_EMITTED) then s else [].
Proof.
  unfold record_reasoning. destruct s as [|c s]; cbn; [rewrite !app_nil_r; split_and!; try done; by case_bool_decide|].
  rewrite !concat_app. cbn. rewrite !app_nil_r. split_and!; try done; by case_bool_decide; cbn; rewrite ?app_nil_r.
Qed.

Lemma emit_content_extend s p b :
  emit_content s (extend p b) = ((emit_content s p).1, extend (emit_content s p).2 b).
Proof. by destruct s. Qed.

Lemma record_reasoning_extend s p b :
  record_reasoning s (extend p b) = ((record_reasoning s p).1, extend (record_reasoning s p).2 b).
Proof. by destruct s. Qed.

(** An iteration that finds a tag finds the same one when more text follows. *)
Lemma reasoning_consume_once_again p b ds p' :
  proc_ok p -> consume_once p = (ds, p', true) ->
  consume_once (extend p b) = (ds, extend p' b, true) /\ proc_ok p' 
  /\ (length (rp_buffer p') < length (rp_buffer p))%nat.
Proof.
  intros [Hone Hact]. unfold consume_once. change (rp_buffer (extend p b)) with (rp_buffer p ++ b).
  change (rp_active_close_tag (extend p b)) with (rp_active_close_tag p).
  destruct (rp_active_close_tag p) as [close|] eqn:Ha.
  - destruct (find (casefold close) (casefold (rp_buffer p))) as [i|] eqn:Hf.
    2: { by destruct (record_reasoning _ _). }
    destruct Hact as (tag & Hin & <-). rewrite casefold_app, (find_more _ _ (casefold b) _ Hf).
    destruct (find_at _ _ _ Hf) as [_ Hl]. rewrite (proj2 (casefold_tags tag Hin)), length_casefold in Hl by done.
    rewrite take_app_le, drop_app_le, record_reasoning_extend by lia.
    destruct (record_reasoning (take i (rp_buffer p)) p) as [d q] eqn:Hr. simpl. intros [= <- <-].
    split_and!; [done| |].
    + split; [cbn; by apply one_to_one_drop|done].
    + cbn. rewrite length_drop. assert (0 < length tag.2)%nat; [|lia].
      by repeat (apply elem_of_cons in Hin as [-> |Hin]; [simpl; lia|]); apply not_elem_of_nil in Hin.
  - destruct (find_open_tag (rp_buffer p)) as [[i [open close]]|] eqn:Hf.
    2: { by destruct (emit_content _ _). }
    rewrite (find_open_tag_more _ b _ _ Hf). destruct (find_open_tag_In _ _ _ Hf) as [Hin Hfi].
    destruct (find_at _ _ _ Hfi) as [_ Hl]. rewrite length_casefold in Hl by done. cbn [fst] in Hl.
    rewrite take_app_le, drop_app_le, emit_content_extend by lia.
    destruct (emit_content (take i (rp_buffer p)) p) as [d q] eqn:Hr. simpl. intros [= <- <-].
    split_and!; [done| |].
    + split; [cbn; by apply one_to_one_drop|]. cbn. by exists (open, close).
    + cbn. rewrite length_drop. assert (0 < length (open, close).1)%nat; [|simpl in *; lia].
      by repeat (apply elem_of_cons in Hin as [[= -> ->] |Hin]; [simpl; lia|]); apply not_elem_of_nil in Hin.
Qed.
(** *** Iterations, with the processor's updates outside the emission *)

Lemma emit_content_set s p x :
  emit_content s (p <| rp_buffer := x |>) = ((emit_content s p).1, (emit_content s p).2 <| rp_buffer := x |>).
Proof. by destruct s. Qed.

Lemma record_reasoning_set s p x :
  record_reasoning s (p <| rp_buffer := x |>)
  = ((record_reasoning s p).1, (record_reasoning s p).2 <| rp_buffer := x |>).
Proof. by destruct s. Qed.

Lemma consume_once_open p :
  rp_active_close_tag p = None ->
  let buffer := rp_buffer p in
  consume_once p =
    match find_open_tag buffer with
    | None =>
        let safe := (length buffer - safe_suffix_length buffer (map fst REASONING_TAGS))%nat in
        let r := emit_content (take safe buffer) p in (r.1, r.2 <| rp_buffer := drop safe buffer |>, false)
    | Some (i, tag) =>
        let r := emit_content (take i buffer) p in
        (r.1, r.2 <| rp_reasoning_detected := true |> <| rp_buffer := drop (i + length tag.1) buffer |>
                  <| rp_active_close_tag := Some tag.2 |>, true)
    end.
Proof.
  intros Ha buffer. unfold consume_once. rewrite Ha. fold buffer.
  destruct (find_open_tag buffer) as [[i [open close]]|].
  - by destruct (emit_content (take i buffer) p).
  - cbv zeta. by rewrite emit_content_set.
Qed.

Lemma consume_once_close p close :
  rp_active_close_tag p = Some close ->
  let buffer := rp_buffer p in
  consume_once p =
    match find (casefold close) (casefold buffer) with
    | None =>
        let safe := (length buffer - safe_suffix_length buffer [close])%nat in
        let r := record_reasoning (take safe buffer) p in (r.1, r.2 <| rp_buffer := drop safe buffer |>, false)
    | Some i =>
        let r := record_reasoning (take i buffer) p in
        (r.1, r.2 <| rp_buffer := drop (i + length close) buffer |> <| rp_active_close_tag := None |>, true)
    end.
Proof.
  intros Ha buffer. unfold consume_once. rewrite Ha. fold buffer.
  destruct (find (casefold close) (casefold buffer)) as [i|].
  - by destruct (record_reasoning (take i buffer) p).
  - cbv zeta. by rewrite record_reasoning_set.
Qed.

(** Emitting a text in two parts. *)
Lemma emit_content_split s t p :
  same_result (emit_content (s ++ t) p)
    ((emit_content s p).1 ++ (emit_content t (emit_content s p).2).1, (emit_content t (emit_content s p).2).2).
Proof.
  pose proof (emit_content_fields s p) as F1. pose proof (emit_content_fields t (emit_content s p).2) as F2.
  pose proof (emit_content_fields (s ++ t) p) as F3.
  destruct (emit_content s p) as [d1 q1]. simpl in F2. cbn [fst snd].
  destruct (emit_content t q1) as [d2 q2], (emit_content (s ++ t) p) as [d3 q3].
  destruct F1 as (?&?&O1&?&?&?&?&R1), F2 as (?&?&O2&?&?&?&?&R2), F3 as (?&?&O3&?&?&?&?&R3).
  unfold same_result. cbn [fst snd]. rewrite contents_app, reasonings_app.
  split; [congruence|]. split; [by rewrite R1, R2, R3|]. split_and!; try congruence. by rewrite O3, O2, O1, app_assoc.
Qed.

Lemma record_reasoning_split s t p :
  same_result (record_reasoning (s ++ t) p)
    ((record_reasoning s p).1 ++ (record_reasoning t (record_reasoning s p).2).1,
     (record_reasoning t (record_reasoning s p).2).2).
Proof.
  pose proof (record_reasoning_fields s p) as F1. pose proof (record_reasoning_fields t (record_reasoning s p).2) as F2.
  pose proof (record_reasoning_fields (s ++ t) p) as F3.
  destruct (record_reasoning s p) as [d1 q1]. simpl in F2. cbn [fst snd].
  destruct (record_reasoning t q1) as [d2 q2], (record_reasoning (s ++ t) p) as [d3 q3].
  destruct F1 as (?&?&?&O1&V1&?&C1&R1), F2 as (?&?&?&O2&V2&?&C2&R2), F3 as (?&?&?&O3&?&?&C3&R3).
  unfold same_result. cbn [fst snd]. rewrite contents_app, reasonings_app.
  split; [by rewrite C1, C2, C3|]. split; [rewrite R1, R2, R3, V1; by case_bool_decide|].
  split_and!; try congruence. by rewrite O3, O2, O1, app_assoc.
Qed.

(** Setting the same fields keeps results the same. *)
Lemma same_result_set (f : processor -> processor) d1 p1 d2 p2 :
  (forall p q, p ≡ q -> f p ≡ f q) -> same_result (d1, p1) (d2, p2) -> same_result (d1, f p1) (d2, f p2).
Proof. intros Hf (H1 & H2 & H3). split_and!; [done|done|]. by apply Hf. Qed.

Lemma set_open_equiv (p q : processor) b close :
  p ≡ q ->
  p <| rp_reasoning_detected := true |> <| rp_buffer := b |> <| rp_active_close_tag := Some close |>
  ≡ q <| rp_reasoning_detected := true |> <| rp_buffer := b |> <| rp_active_close_tag := Some close |>.
Proof. intros (?&?&?&?&?&?). by split_and!. Qed.

Lemma set_close_equiv (p q : processor) b :
  p ≡ q ->
  p <| rp_buffer := b |> <| rp_active_close_tag := None |> ≡ q <| rp_buffer := b |> <| rp_active_close_tag := None |>.
Proof. intros (?&?&?&?&?&?). by split_and!. Qed.

(** Where a stop leaves off: the rest of the buffer and more text is searched as
    the whole would be. *)
Lemma take_add k j (B b : pystr) :
  (k <= length B)%nat -> take (k + j) (B ++ b) = take k B ++ take j (drop k B ++ b)
                         /\ drop (k + j) (B ++ b) = drop j (drop k B ++ b).
Proof.
  intros Hk. assert (Hl : length (take k B) = k) by (rewrite length_take; lia).
  assert (Hw : B ++ b = take k B ++ (drop k B ++ b)) by (by rewrite app_assoc, take_drop).
  rewrite Hw at 1 2. rewrite take_app_ge, drop_app_ge by lia. rewrite Hl.
  by replace (k + j - k)%nat with j by lia.
Qed.

Lemma find_open_tag_None buffer :
  find_open_tag buffer = None ->
  forall tag, tag ∈ map fst REASONING_TAGS -> find (casefold tag) (casefold buffer) = None.
Proof. intros [_ H]%find_open_tag_from_None tag (t & -> & Ht)%list_elem_of_fmap. by apply H. Qed.

Lemma find_open_tag_shift k w q :
  (forall tag, tag ∈ map fst REASONING_TAGS ->
     find (casefold tag) (casefold w) = (Nat.add k) <$> find (casefold tag) (casefold q)) ->
  find_open_tag w = prod_map (Nat.add k) id <$> find_open_tag q.
Proof.
  intros H. apply (find_open_tag_from_shift k REASONING_TAGS (casefold w) (casefold q) None).
  intros tag Ht. apply H. by apply (list_elem_of_fmap_2 fst).
Qed.

Lemma consume_once_stop_open p b ds p' :
  proc_ok p -> one_to_one b -> rp_active_close_tag p = None -> consume_once p = (ds, p', false) ->
  match consume_once (extend p' b) with
  | (d2, p2, again) =>
      exists d3 p3, consume_once (extend p b) = (d3, p3, again) /\ same_result (d3, p3) (ds ++ d2, p2)
  end.
Proof.
  intros [Hone _] Hb Ha Ho. rewrite consume_once_open in Ho by done. cbv zeta in Ho.
  destruct (find_open_tag (rp_buffer p)) as [[i tag]|] eqn:Hf; [done|].
  destruct (safe_part_later (rp_buffer p) b (map fst REASONING_TAGS)) as [Hshift Hsafe];
    [by apply find_open_tag_None|by apply one_to_one_app|].
  set (k := (length (rp_buffer p) - safe_suffix_length (rp_buffer p) (map fst REASONING_TAGS))%nat) in *.
  set (q := drop k (rp_buffer p) ++ b) in *. set (s := take k (rp_buffer p)) in *.
  pose proof (emit_content_fields s p) as Hfields.
  assert (ds = (emit_content s p).1 /\ p' = (emit_content s p).2 <| rp_buffer := drop k (rp_buffer p) |>)
    as [-> ->] by by simplify_eq. clear Ho.
  set (p1 := (emit_content s p).2) in *.
  assert (Ha1 : rp_active_close_tag p1 = None).
  { subst p1. destruct (emit_content s p). simpl. destruct Hfields as (_&->&_). done. }
  change (extend (p1 <| rp_buffer := drop k (rp_buffer p) |>) b) with (p1 <| rp_buffer := q |>).
  change (extend p b) with (p <| rp_buffer := rp_buffer p ++ b |>).
  rewrite !consume_once_open by done. cbv zeta.
  change (rp_buffer (p1 <| rp_buffer := q |>)) with q.
  change (rp_buffer (p <| rp_buffer := rp_buffer p ++ b |>)) with (rp_buffer p ++ b).
  rewrite (find_open_tag_shift k (rp_buffer p ++ b) q Hshift).
  assert (Hk : (k <= length (rp_buffer p))%nat) by (unfold k; lia).
  destruct (find_open_tag q) as [[j tag]|]; simpl fmap; cbv match; rewrite !emit_content_set.
  - cbn [prod_map fst snd]. rewrite (proj1 (take_add k j (rp_buffer p) b Hk)).
    change (id tag) with tag. rewrite <- (Nat.add_assoc k j).
    rewrite (proj2 (take_add k (j + length tag.1) (rp_buffer p) b Hk)). fold s. fold q. fold p1.
    eexists _, _. split; [done|].
    exact (same_result_set _ _ _ _ _ (fun x y => set_open_equiv x y (drop (j + length tag.1) q) tag.2)
      (emit_content_split s (take j q) p)).
  - assert (Hlen : (length (rp_buffer p ++ b) - safe_suffix_length (rp_buffer p ++ b) (map fst REASONING_TAGS)
                    = k + (length q - safe_suffix_length q (map fst REASONING_TAGS)))%nat).
    { rewrite Hsafe. assert (length (rp_buffer p ++ b) = (k + length q)%nat)
        by (unfold q; rewrite !length_app, length_drop; lia).
      pose proof (safe_suffix_le q (map fst REASONING_TAGS)) as Hle.
      rewrite length_casefold in Hle; [lia|]. unfold q. apply one_to_one_app. split; [by apply one_to_one_drop|done]. }
    rewrite Hlen, (proj1 (take_add k _ (rp_buffer p) b Hk)), (proj2 (take_add k _ (rp_buffer p) b Hk)).
    fold s. fold q. fold p1. eexists _, _. split; [done|].
    exact (same_result_set _ _ _ _ _ (fun x y => set_buffer_equiv x y _) (emit_content_split s _ p)).
Qed.

Lemma consume_once_stop_close p b close ds p' :
  proc_ok p -> one_to_one b -> rp_active_close_tag p = Some close -> consume_once p = (ds, p', false) ->
  match consume_once (extend p' b) with
  | (d2, p2, again) =>
      exists d3 p3, consume_once (extend p b) = (d3, p3, again) /\ same_result (d3, p3) (ds ++ d2, p2)
  end.
Proof.
  intros [Hone _] Hb Ha Ho. rewrite (consume_once_close _ close) in Ho by done. cbv zeta in Ho.
  destruct (find (casefold close) (casefold (rp_buffer p))) as [i|] eqn:Hf; [done|].
  destruct (safe_part_later (rp_buffer p) b [close]) as [Hshift Hsafe];
    [by intros tag ->%list_elem_of_singleton|by apply one_to_one_app|].
  specialize (Hshift close ltac:(by left)).
  set (k := (length (rp_buffer p) - safe_suffix_length (rp_buffer p) [close])%nat) in *.
  set (q := drop k (rp_buffer p) ++ b) in *. set (s := take k (rp_buffer p)) in *.
  pose proof (record_reasoning_fields s p) as Hfields.
  assert (ds = (record_reasoning s p).1 /\ p' = (record_reasoning s p).2 <| rp_buffer := drop k (rp_buffer p) |>)
    as [-> ->] by by simplify_eq. clear Ho.
  set (p1 := (record_reasoning s p).2) in *.
  assert (Ha1 : rp_active_close_tag p1 = Some close).
  { subst p1. destruct (record_reasoning s p). simpl. destruct Hfields as (_&->&_). done. }
  change (extend (p1 <| rp_buffer := drop k (rp_buffer p) |>) b) with (p1 <| rp_buffer := q |>).
  change (extend p b) with (p <| rp_buffer := rp_buffer p ++ b |>).
  rewrite !(consume_once_close _ close) by done. cbv zeta.
  change (rp_buffer (p1 <| rp_buffer := q |>)) with q.
  change (rp_buffer (p <| rp_buffer := rp_buffer p ++ b |>)) with (rp_buffer p ++ b). rewrite Hshift.
  assert (Hk : (k <= length (rp_buffer p))%nat) by (unfold k; lia).
  destruct (find (casefold close) (casefold q)) as [j|]; simpl fmap; cbv match; rewrite !record_reasoning_set.
  - cbn [fst snd]. rewrite (proj1 (take_add k j (rp_buffer p) b Hk)). rewrite <- (Nat.add_assoc k j).
    rewrite (proj2 (take_add k (j + length close) (rp_buffer p) b Hk)). fold s. fold q. fold p1.
    eexists _, _. split; [done|].
    exact (same_result_set _ _ _ _ _ (fun x y => set_close_equiv x y (drop (j + length close) q))
      (record_reasoning_split s (take j q) p)).
  - assert (Hlen : (length (rp_buffer p ++ b) - safe_suffix_length (rp_buffer p ++ b) [close]
                    = k + (length q - safe_suffix_length q [close]))%nat).
    { rewrite Hsafe. assert (length (rp_buffer p ++ b) = (k + length q)%nat)
        by (unfold q; rewrite !length_app, length_drop; lia).
      pose proof (safe_suffix_le q [close]) as Hle.
      rewrite length_casefold in Hle; [lia|]. unfold q. apply one_to_one_app. split; [by apply one_to_one_drop|done]. }
    rewrite Hlen, (proj1 (take_add k _ (rp_buffer p) b Hk)), (proj2 (take_add k _ (rp_buffer p) b Hk)).
    fold s. fold q. fold p1. eexists _, _. split; [done|].
    exact (same_result_set _ _ _ _ _ (fun x y => set_buffer_equiv x y _) (record_reasoning_split s _ p)).
Qed.

Lemma consume_once_stop p b ds p' :
  proc_ok p -> one_to_one b -> consume_once p = (ds, p', false) ->
  match consume_once (extend p' b) with
  | (d2, p2, again) =>
      exists d3 p3, consume_once (extend p b) = (d3, p3, again) /\ same_result (d3, p3) (ds ++ d2, p2)
  end.
Proof.
  intros. destruct (rp_active_close_tag p) as [close|] eqn:Ha;
    [by eapply consume_once_stop_close|by apply consume_once_stop_open].
Qed.

Lemma proc_ok_extend p b : proc_ok p -> one_to_one b -> proc_ok (extend p b).
Proof. intros [H1 H2] Hb. split; [by apply one_to_one_app|done]. Qed.

Lemma stop_ok p ds p' : proc_ok p -> consume_once p = (ds, p', false) -> proc_ok p'.
Proof.
  intros [Hone Hact]. unfold proc_ok. destruct (rp_active_close_tag p) as [close|] eqn:Ha.
  - rewrite (consume_once_close _ close) by done. cbv zeta. destruct (find _ _); [done|].
    set (k := (_ - _)%nat). intros [= _ <-].
    pose proof (record_reasoning_fields (take k (rp_buffer p)) p) as Hf.
    destruct (record_reasoning _ p) as [d q]. destruct Hf as (_ & Hq & _). cbn. rewrite Hq, Ha.
    split; [by apply one_to_one_drop|done].
  - rewrite consume_once_open by done. cbv zeta. destruct (find_open_tag _) as [[]|]; [done|].
    set (k := (_ - _)%nat). intros [= _ <-].
    pose proof (emit_content_fields (take k (rp_buffer p)) p) as Hf.
    destruct (emit_content _ p) as [d q]. destruct Hf as (_ & Hq & _). cbn. rewrite Hq, Ha.
    split; [by apply one_to_one_drop|done].
Qed.

(** ** The loop *)

(** An empty buffer needs no test: the iteration does nothing. *)
Lemma consume_once_empty p : proc_ok p -> rp_buffer p = [] -> consume_once p = ([], p, false).
Proof.
  intros [_ Hact] Hb. assert (Hset : p <| rp_buffer := [] |> = p) by (destruct p; simpl in *; by subst).
  destruct (rp_active_close_tag p) as [close|] eqn:Ha.
  - destruct Hact as (tag & Hin & <-). rewrite (consume_once_close _ _ Ha), Hb, (proj2 (casefold_tags tag Hin)).
    cbv zeta. change (casefold []) with (@nil N). rewrite find_in_nothing.
    + rewrite take_nil, drop_nil. cbn [record_reasoning nonempty_text fst snd]. by rewrite Hset.
    + by repeat (apply elem_of_cons in Hin as [-> |Hin]; [done|]); apply not_elem_of_nil in Hin.
  - rewrite consume_once_open by done. rewrite Hb. cbv zeta.
    assert (Hn : find_open_tag [] = None).
    { destruct (find_open_tag []) as [[i tag]|] eqn:Hf; [|done]. exfalso.
      destruct (find_open_tag_In _ _ _ Hf) as [Hin Hfi]. change (casefold []) with (@nil N) in Hfi.
      rewrite find_in_nothing in Hfi; [done|].
      by repeat (apply elem_of_cons in Hin as [-> |Hin]; [done|]); apply not_elem_of_nil in Hin. }
    rewrite Hn, take_nil, drop_nil. cbn [emit_content nonempty_text fst snd]. by rewrite Hset.
Qed.

Lemma consume_loop_S n p :
  proc_ok p ->
  consume_loop (S n) p =
    let '(ds, p', again) := consume_once p in
    if again then
      match consume_loop n p' with Some (rest, p'') => Some (ds ++ rest, p'') | None => None end
    else Some (ds, p').
Proof.
  intros Hok. cbn [consume_loop]. destruct (rp_buffer p) eqn:Hb; [|done]. simpl.
  by rewrite consume_once_empty.
Qed.

Lemma reasoning_consume_loop_mono n m p r : proc_ok p -> consume_loop n p = Some r -> (n <= m)%nat -> consume_loop m p = Some r.
Proof.
  revert m p r. induction n as [|n IH]; intros m p r Hok H Hm; [done|]. destruct m as [|m]; [lia|].
  rewrite consume_loop_S in * by done. destruct (consume_once p) as [[e p'] again] eqn:Ho. destruct again; [|done].
  destruct (reasoning_consume_once_again p [] _ _ Hok Ho) as (_ & Hok' & _).
  destruct (consume_loop n p') as [[rest p'']|] eqn:Hl; [|done]. by rewrite (IH m p' _ Hok' Hl) by lia.
Qed.

Lemma reasoning_consume_loop_total n p :
  proc_ok p -> (length (rp_buffer p) < n)%nat -> exists ds p', consume_loop n p = Some (ds, p') /\ proc_ok p'.
Proof.
  revert p. induction n as [|n IH]; intros p Hok Hn; [lia|]. rewrite consume_loop_S by done.
  destruct (consume_once p) as [[e p'] again] eqn:Ho. destruct again.
  - destruct (reasoning_consume_once_again p [] _ _ Hok Ho) as (_ & Hok' & Hl).
    destruct (IH p' Hok' ltac:(lia)) as (ds & p2 & -> & H2). by eexists _, _.
  - eexists _, _. split; [done|]. by eapply stop_ok.
Qed.

Lemma consume_loop_proper n p q :
  p ≡ q -> match consume_loop n p, consume_loop n q with
           | Some (d1, p1), Some (d2, q1) => d1 = d2 /\ p1 ≡ q1
           | None, None => True
           | _, _ => False
           end.
Proof.
  revert p q. induction n as [|n IH]; intros p q H; [done|]. cbn [consume_loop].
  pose proof H as (_ & Hb & _). rewrite Hb. destruct (negb _); [done|].
  pose proof (consume_once_proper p q H) as Ho.
  destruct (consume_once p) as [[d1 p1] a1], (consume_once q) as [[d2 q1] a2].
  destruct Ho as [[Hd Hp] Ha]. simpl in *. subst. destruct a2; [|done].
  specialize (IH p1 q1 Hp). destruct (consume_loop n p1) as [[? ?]|], (consume_loop n q1) as [[? ?]|]; try done.
  destruct IH as [-> ?]. done.
Qed.

Lemma same_result_app d1 d2 r1 r2 :
  contents d1 = contents d2 -> reasonings d1 = reasonings d2 -> same_result r1 r2 ->
  same_result (d1 ++ r1.1, r1.2) (d2 ++ r2.1, r2.2).
Proof.
  intros Hc Hr (H1 & H2 & H3). unfold same_result. cbn [fst snd]. rewrite !contents_app, !reasonings_app.
  split_and!; [congruence|congruence|apply H3..].
Qed.

Lemma reasoning_consume_loop_extend n p b ds p1 m d2 p2 :
  proc_ok p -> one_to_one b ->
  consume_loop n p = Some (ds, p1) -> consume_loop m (extend p1 b) = Some (d2, p2) ->
  exists r, consume_loop (n + m) (extend p b) = Some r /\ same_result r (ds ++ d2, p2).
Proof.
  intros Hok Hb. revert p ds p1 Hok. induction n as [|n IH]; intros p ds p1 Hok H H2; [done|].
  rewrite consume_loop_S in H by done. change (S n + m)%nat with (S (n + m)).
  rewrite consume_loop_S by by apply proc_ok_extend.
  destruct (consume_once p) as [[e0 p0] again] eqn:Ho. destruct again.
  - destruct (reasoning_consume_once_again p b _ _ Hok Ho) as (-> & Hok' & _).
    destruct (consume_loop n p0) as [[rest q]|] eqn:Hl; [|done]. injection H as <- <-.
    destruct (IH _ _ _ Hok' Hl H2) as ([rd rp] & -> & Hs). eexists. split; [done|].
    rewrite <- app_assoc. by apply (same_result_app e0 e0 (rd, rp) (rest ++ d2, p2)).
  - injection H as <- <-. destruct m as [|m]; [done|].
    pose proof (stop_ok _ _ _ Hok Ho) as Hok0.
    rewrite consume_loop_S in H2 by by apply proc_ok_extend.
    pose proof (consume_once_stop p b _ _ Hok Hb Ho) as Hs.
    destruct (consume_once (extend p0 b)) as [[e1 q] again] eqn:Ho1. destruct Hs as (d3 & p3 & -> & Hs). destruct again.
    + destruct (reasoning_consume_once_again _ [] _ _ (proc_ok_extend _ _ Hok0 Hb) Ho1) as (_ & Hokq & _).
      destruct (consume_loop m q) as [[rest q2]|] eqn:Hl; [|done]. injection H2 as <- <-.
      apply (reasoning_consume_loop_mono _ (n + S m)) in Hl; [|done|lia].
      pose proof Hs as (Hc & Hr & Hpq). cbn [fst snd] in Hc, Hr, Hpq.
      pose proof (consume_loop_proper (n + S m) _ _ Hpq) as Hpr. rewrite Hl in Hpr.
      destruct (consume_loop (n + S m) p3) as [[d4 p4]|]; [|done]. destruct Hpr as [-> Hp4].
      eexists. split; [done|]. rewrite app_assoc.
      by apply (same_result_app d3 (e0 ++ e1) (rest, p4) (rest, q2)).
    + injection H2 as <- <-. by eexists.
Qed.

(** ** Pieces *)

Lemma reasoning_consume_total text p :
  proc_ok p -> one_to_one text -> exists ds p', consume text p = Some (ds, p') /\ proc_ok p'.
Proof. intros Hok Ht. apply reasoning_consume_loop_total; [by apply proc_ok_extend|lia]. Qed.

Lemma reasoning_consume_app a b p d1 p1 d2 p2 :
  proc_ok p -> one_to_one a -> one_to_one b ->
  consume a p = Some (d1, p1) -> consume b p1 = Some (d2, p2) ->
  exists r, consume (a ++ b) p = Some r /\ same_result r (d1 ++ d2, p2).
Proof.
  intros Hok Ha Hb H1 H2.
  assert (Hab : one_to_one (a ++ b)) by by apply one_to_one_app.
  destruct (reasoning_consume_loop_extend _ _ b _ _ _ _ _ (proc_ok_extend p a Hok Ha) Hb H1 H2) as (r & Hr & Hs).
  assert (He : extend (extend p a) b = extend p (a ++ b)) by (unfold extend; cbn; by rewrite app_assoc).
  rewrite He in Hr. destruct (reasoning_consume_total (a ++ b) p Hok Hab) as (d3 & p3 & H3 & _).
  exists (d3, p3). split; [done|]. pose proof (proc_ok_extend p _ Hok Hab) as Hok3.
  set (n := (_ + _)%nat) in Hr. unfold consume in H3.
  apply (reasoning_consume_loop_mono _ (Nat.max n (S (length (rp_buffer (extend p (a ++ b))))))) in Hr; [|done|lia].
  apply (reasoning_consume_loop_mono _ (Nat.max n (S (length (rp_buffer (extend p (a ++ b))))))) in H3; [|done|unfold extend; lia].
  change (p <| rp_buffer := rp_buffer p ++ a ++ b |>) with (extend p (a ++ b)) in H3. congruence.
Qed.

Lemma reasoning_consume_all_concat text pieces p :
  proc_ok p -> one_to_one (text ++ concat pieces) ->
  exists r1 r2, consume_all (text :: pieces) p = Some r1 /\ consume (text ++ concat pieces) p = Some r2
    /\ same_result r1 r2.
Proof.
  revert text p. induction pieces as [|u pieces IH]; intros text p Hok Hone.
  - simpl in *. rewrite app_nil_r in *. destruct (reasoning_consume_total text p Hok Hone) as (ds & p' & E & _).
    rewrite E. eexists _, _. split; [done|]. split; [done|]. by rewrite app_nil_r.
  - cbn [concat] in *. pose proof Hone as [Ht Hrest]%one_to_one_app.
    destruct (reasoning_consume_total text p Hok Ht) as (d1 & p1 & E1 & Hok1).
    destruct (IH u p1 Hok1 Hrest) as ([d2 p2] & [d3 p3] & E2 & E3 & Hs).
    destruct (reasoning_consume_app _ _ _ _ _ _ _ Hok Ht Hrest E1 E3) as (r & Er & Hr).
    exists (d1 ++ d2, p2), r. split_and!; [by cbn [consume_all] in *; rewrite E1, E2|done|].
    etrans; [|symmetry; exact Hr]. by apply (same_result_app d1 d1 (d2, p2) (d3, p3)).
Qed.

Lemma finalize_same p q :
  p ≡ q -> (finalize p).1 = (finalize q).1 /\ output_text (finalize p).2 = output_text (finalize q).2.
Proof.
  intros Hpq. pose proof Hpq as (Hv & Hb & Ha & Ho & Hr & Hd). unfold finalize, output_text. rewrite Hb, Ha.
  destruct (nonempty_text (rp_buffer q)); [|cbn; by rewrite Hv, Hr, Hd, Ho].
  destruct (rp_active_close_tag q).
  - destruct (record_reasoning_proper (rp_buffer q) p q Hpq) as [_ (V & _ & _ & O & R & D)].
    cbn [fst snd]. cbn. by rewrite V, R, D, O.
  - cbn. by rewrite Hv, Hr, Hd, !concat_app, Ho.
Qed.

(** ** Documents *)

(** A part of an output: plain text, an opening tag, reasoning, a closing tag. *)
Record part := { pt_plain : pystr; pt_open : pystr; pt_reasoning : pystr; pt_close : pystr }.

Definition part_text (x : part) : pystr := pt_plain x ++ pt_open x ++ pt_reasoning x ++ pt_close x.

(** The tags are the first ones, in any case, and go together. *)
Definition part_ok (x : part) : Prop :=
  exists tag, find_open_tag (pt_plain x ++ pt_open x) = Some (length (pt_plain x), tag)
    /\ length (pt_open x) = length tag.1 /\ length (pt_close x) = length tag.2
    /\ find tag.2 (casefold (pt_reasoning x ++ pt_close x)) = Some (length (pt_reasoning x)).

Definition document (parts : list part) (last : pystr) : pystr := concat (map part_text parts) ++ last.

Lemma consume_part x rest p :
  rp_active_close_tag p = None -> rp_buffer p = part_text x ++ rest -> part_ok x -> proc_ok p ->
  exists d1 p1 d2 p2, consume_once p = (d1, p1, true) /\ consume_once p1 = (d2, p2, true)
    /\ rp_buffer p2 = rest /\ rp_active_close_tag p2 = None /\ proc_ok p2
    /\ concat (rp_output_parts p2) = concat (rp_output_parts p) ++ pt_plain x
    /\ concat (rp_reasoning_parts p2) = concat (rp_reasoning_parts p) ++ pt_reasoning x
    /\ rp_reasoning_detected p2 = true /\ rp_visibility p2 = rp_visibility p.
Proof.
  intros Ha Hb (tag & Ht & Hlo & Hlc & Hf) Hok. unfold part_text in Hb. rewrite <- !app_assoc in Hb.
  destruct (find_open_tag_In _ _ _ Ht) as [Hin _].
  destruct (consume_once p) as [[d1 p1] a1] eqn:E1. pose proof E1 as E1'.
  rewrite consume_once_open in E1' by done. cbv zeta in E1'. rewrite Hb in E1'.
  rewrite (app_assoc (pt_plain x)), (find_open_tag_more _ _ _ _ Ht), <- app_assoc in E1'.
  rewrite take_app_length, <- Hlo in E1'.
  rewrite (app_assoc (pt_plain x)), <- length_app, drop_app_length in E1'.
  pose proof (emit_content_fields (pt_plain x) p) as F. destruct (emit_content (pt_plain x) p) as [e1 q1].
  destruct F as (F1 & F2 & F3 & F4 & F5 & F6 & _). cbn [fst snd] in E1'.
  assert (a1 = true) as -> by congruence.
  assert (p1 = q1 <| rp_reasoning_detected := true |> <| rp_buffer := pt_reasoning x ++ pt_close x ++ rest |>
    <| rp_active_close_tag := Some tag.2 |>) as Hp1 by congruence.
  destruct (reasoning_consume_once_again p [] _ _ Hok E1) as (_ & Hok1 & _).
  destruct (consume_once p1) as [[d2 p2] a2] eqn:E2. pose proof E2 as E2'.
  rewrite (consume_once_close p1 tag.2) in E2' by by rewrite Hp1. cbv zeta in E2'.
  rewrite (proj2 (casefold_tags tag Hin)) in E2'.
  assert (Hb1 : rp_buffer p1 = (pt_reasoning x ++ pt_close x) ++ rest) by (rewrite Hp1; cbn; by rewrite app_assoc).
  rewrite Hb1, casefold_app, (find_more _ _ (casefold rest) _ Hf), <- app_assoc, take_app_length, <- Hlc in E2'.
  rewrite app_assoc, <- length_app, drop_app_length in E2'.
  pose proof (record_reasoning_fields (pt_reasoning x) p1) as G.
  destruct (record_reasoning (pt_reasoning x) p1) as [e2 q2]. destruct G as (G1 & G2 & G3 & G4 & G5 & G6 & _).
  cbn [fst snd] in E2'. assert (a2 = true) as -> by congruence.
  assert (p2 = q2 <| rp_buffer := rest |> <| rp_active_close_tag := None |>) as Hp2 by congruence.
  destruct (reasoning_consume_once_again p1 [] _ _ Hok1 E2) as (_ & Hok2 & _).
  exists d1, p1, d2, p2. rewrite Hp2 in *. rewrite Hp1 in G3, G4, G5, G6. cbn in *.
  split_and!; try done; try congruence.
Qed.

Lemma consume_parts n parts last p :
  rp_active_close_tag p = None -> rp_buffer p = document parts last -> Forall part_ok parts -> proc_ok p ->
  find_open_tag last = None -> (length (rp_buffer p) < n)%nat ->
  exists ds p', consume_loop n p = Some (ds, p') /\ rp_active_close_tag p' = None
    /\ concat (rp_output_parts p') ++ rp_buffer p'
       = concat (rp_output_parts p) ++ concat (map pt_plain parts) ++ last
    /\ concat (rp_reasoning_parts p') = concat (rp_reasoning_parts p) ++ concat (map pt_reasoning parts)
    /\ rp_reasoning_detected p' = rp_reasoning_detected p || negb (bool_decide (parts = [])) /\ rp_visibility p' = rp_visibility p.
Proof.
  revert n p. induction parts as [|x parts IH]; intros n p Ha Hb Hok Hpok Hlast Hn; (destruct n as [|n]; [lia|]);
    rewrite consume_loop_S by done.
  - unfold document in Hb. simpl in Hb. subst last. rewrite consume_once_open by done. cbv zeta. rewrite Hlast.
    set (k := (_ - _)%nat). pose proof (emit_content_fields (take k (rp_buffer p)) p) as F.
    destruct (emit_content _ p) as [e q]. destruct F as (F1 & F2 & F3 & F4 & F5 & F6 & _).
    eexists _, _. split; [done|]. cbn. rewrite F2, F3, F4, F6, F5, <- app_assoc, take_drop, !app_nil_r, orb_false_r. done.
  - apply Forall_cons in Hok as [Hx Hok]. unfold document in Hb. cbn [map concat] in Hb. rewrite <- app_assoc in Hb.
    destruct (consume_part x _ p Ha Hb Hx Hpok) as (d1 & p1 & d2 & p2 & E1 & E2 & B2 & A2 & Hok2 & O2 & R2 & D2 & V2).
    rewrite E1. destruct (reasoning_consume_once_again p [] _ _ Hpok E1) as (_ & Hok1 & L1).
    destruct n as [|n]; [lia|]. rewrite consume_loop_S, E2 by done.
    destruct (reasoning_consume_once_again p1 [] _ _ Hok1 E2) as (_ & _ & L2).
    destruct (IH n p2 A2 B2 Hok Hok2 Hlast ltac:(lia)) as (ds & p' & -> & A & O & R & D & V).
    eexists _, _. split; [done|]. split; [done|]. rewrite O, O2, R, R2, D, D2, V, V2. cbn [map concat].
    rewrite <- !app_assoc. split_and!; try done. by destruct (rp_reasoning_detected p).
Qed.

(** ** Properties *)

(** C39. Chunk invariance: for an output whose characters fold to one character
    each, however it is cut into pieces, the content and the reasoning emitted in
    total, the final visible text and the structured reasoning are those of the
    whole output given at once; and processing always ends. *)
Theorem reasoning_chunking_invariant visibility text pieces :
  one_to_one (text ++ concat pieces) ->
  exists d1 p1 d2 p2,
    consume_all (text :: pieces) (make_processor visibility) = Some (d1, p1)
    /\ consume (text ++ concat pieces) (make_processor visibility) = Some (d2, p2)
    /\ contents d1 = contents d2 /\ reasonings d1 = reasonings d2
    /\ (finalize p1).1 = (finalize p2).1 /\ output_text (finalize p1).2 = output_text (finalize p2).2.
Proof.
  intros Hone. destruct (reasoning_consume_all_concat text pieces (make_processor visibility)) as ([d1 p1] & [d2 p2] & E1 & E2 & Hs);
    [by split; [constructor|]|done|].
  destruct Hs as (Hc & Hr & Hp). exists d1, p1, d2, p2. split_and!; try done; by apply finalize_same.
Qed.

(** Reasoning is separated exactly: of an output made of parts (plain text, an
    opening tag in any case, reasoning, its closing tag) and a last plain text,
    whatever the policy, the visible text is the plain texts in order and the
    reasoning reported is built from the reasoning texts in order. *)
Theorem reasoning_separated visibility parts last :
  one_to_one (document parts last) -> Forall part_ok parts -> find_open_tag last = None ->
  apply_reasoning_visibility (document parts last) visibility None
  = Some (concat (map pt_plain parts) ++ last,
          build_reasoning_output visibility (concat (map pt_reasoning parts)) (negb (bool_decide (parts = [])))).
Proof.
  intros Hone Hok Hlast. unfold apply_reasoning_visibility, consume.
  set (p := (make_processor visibility) <| rp_buffer := _ |>).
  assert (Hpok : proc_ok p) by by split.
  destruct (consume_parts (S (length (rp_buffer p))) parts last p eq_refl eq_refl Hok Hpok Hlast ltac:(lia))
    as (ds & p' & -> & A & O & R & D & V).
  unfold finalize, output_text. rewrite A. change (rp_reasoning_detected p) with false in D.
  change (rp_visibility p) with visibility in V. change (concat (rp_output_parts p)) with (@nil N) in O.
  change (concat (rp_reasoning_parts p)) with (@nil N) in R. simpl in O, R, D.
  destruct (rp_buffer p') as [|c b] eqn:Hb; cbn [nonempty_text]; cbn.
  - rewrite app_nil_r in O. by rewrite O, R, D, V.
  - rewrite concat_app. cbn. by rewrite app_nil_r, O, R, D, V.
Qed.

(** But a character that folds to two, such as the sharp s, moves the position
    at which tags are cut: with enough of them before a reasoning block, the whole
    block is shown to the user although the policy hides it, and the visible text
    after it is lost. *)
Theorem sharp_s_reveals_hidden_reasoning :
  fold 223 = [115; 115]%N ->
  let block := pystr_of "<think>secret</think>" in
  exists reasoning,
    apply_reasoning_visibility (repeat 223%N 21 ++ block ++ pystr_of "ok") HIDDEN None
    = Some (repeat 223%N 21 ++ block, reasoning).
Proof.
  intros Hs block. set (text := repeat 223%N 21 ++ block ++ pystr_of "ok").
  assert (Hfold : casefold text = repeat 115%N 42 ++ block ++ pystr_of "ok").
  { unfold text. rewrite casefold_app. f_equal; [|by apply casefold_lower].
    unfold casefold. cbn [map repeat]. by rewrite Hs. }
  assert (Hopen : find_open_tag text = Some (42%nat, (pystr_of "<think>", pystr_of "</think>"))).
  { unfold find_open_tag, REASONING_TAGS. rewrite Hfold. cbn [find_open_tag_from fst].
    rewrite !casefold_lower by done. by vm_compute. }
  unfold apply_reasoning_visibility, consume. set (p := (make_processor HIDDEN) <| rp_buffer := _ |>).
  assert (Hp : consume_once p = ([ContentDelta (repeat 223%N 21 ++ block)],
    Build_processor HIDDEN [] (Some (pystr_of "</think>")) [repeat 223%N 21 ++ block] [] true, true)).
  { unfold consume_once. change (rp_buffer p) with text. change (rp_active_close_tag p) with (@None pystr).
    rewrite Hopen. by vm_compute. }
  change (rp_buffer p) with text. change (length text) with 44%nat. cbn [consume_loop].
  change (negb (nonempty_text (rp_buffer p))) with false. rewrite Hp. eexists. reflexivity.
Qed.
End casefold.

(** ** Concrete outputs *)

(** A case folding that agrees with Unicode on ASCII and the sharp s. *)
Definition sample_fold (c : N) : pystr := if (c =? 223)%N then [115; 115]%N else [lower_ascii c].

Lemma sample_fold_ascii c : (c < 128)%N -> sample_fold c = [lower_ascii c].
Proof. intros Hc. unfold sample_fold. by replace (c =? 223)%N with false by (symmetry; apply N.eqb_neq; lia). Qed.

Lemma reasoning_chunking_invariant_witness :
  exists d1 p1, consume_all sample_fold [pystr_of "Hi <TH"; pystr_of "ink>let me s"; pystr_of "ee</thi"; pystr_of "nk> done <"]
      (make_processor RAW_MODEL_EMITTED) = Some (d1, p1)
    /\ contents d1 = pystr_of "Hi  done " /\ reasonings d1 = pystr_of "let me see".
Proof.
  destruct (reasoning_chunking_invariant sample_fold sample_fold_ascii RAW_MODEL_EMITTED (pystr_of "Hi <TH")
    [pystr_of "ink>let me s"; pystr_of "ee</thi"; pystr_of "nk> done <"]) as (d1 & p1 & d2 & p2 & E1 & E2 & H1 & H2 & _).
  - unfold one_to_one. apply (Forall_forall _ _). intros c Hc. unfold sample_fold.
    assert (Hb : forallb (fun c => negb (c =? 223)%N) (pystr_of "Hi <TH" ++ concat [pystr_of "ink>let me s"; pystr_of "ee</thi"; pystr_of "nk> done <"]) = true)
      by (by vm_compute).
    rewrite forallb_forall in Hb. apply list_elem_of_In, Hb in Hc. by destruct (c =? 223)%N.
  - exists d1, p1. split; [exact E1|]. rewrite H1, H2. revert E2. vm_compute. intros [= <- _]. split; reflexivity.
Defined.

Definition sample_parts : list part :=
  [Build_part (pystr_of "A ") (pystr_of "<Think>") (pystr_of "why <b> ") (pystr_of "</THINK>");
   Build_part (pystr_of "B<reason") (pystr_of "<reasoning>") (pystr_of "so") (pystr_of "</reasoning>")].

Lemma reasoning_separated_witness :
  apply_reasoning_visibility sample_fold (document sample_parts (pystr_of " end")) SUMMARIZED None
  = Some (pystr_of "A B<reason end", Build_reasoning_output SUMMARIZED true None (Some (pystr_of "why <b> so"))).
Proof.
  etrans; [apply (reasoning_separated sample_fold sample_fold_ascii SUMMARIZED sample_parts (pystr_of " end"))|].
  - unfold one_to_one. apply (Forall_forall _ _). intros c Hc. unfold sample_fold.
    assert (Hb : forallb (fun c => negb (c =? 223)%N) (document sample_parts (pystr_of " end")) = true) by (by vm_compute).
    rewrite forallb_forall in Hb. apply list_elem_of_In, Hb in Hc. by destruct (c =? 223)%N.
  - repeat constructor; [exists (pystr_of "<think>", pystr_of "</think>")|exists (pystr_of "<reasoning>", pystr_of "</reasoning>")];
      by vm_compute.
  - by vm_compute.
  - by vm_compute.
Defined.

Lemma sharp_s_reveals_hidden_reasoning_witness :
  exists reasoning,
    apply_reasoning_visibility sample_fold (repeat 223%N 21 ++ pystr_of "<think>secret</think>" ++ pystr_of "ok") HIDDEN None
    = Some (repeat 223%N 21 ++ pystr_of "<think>secret</think>", reasoning).
Proof. exact (sharp_s_reveals_hidden_reasoning sample_fold sample_fold_ascii eq_refl). Defined.

Example summary_examples :
  summarize_reasoning_text (pystr_of "  one two  three ") 9 = Some (pystr_of "one two...")
  /\ summarize_reasoning_text (pystr_of " a  b ") 160 = Some (pystr_of "a b")
  /\ summarize_reasoning_text (pystr_of "  ") 160 = None.
Proof. by vm_compute. Qed.
