(* ===== verification/Residency.v ===== *)
(** Model residency: [ModelResidencyManager] of src/src/lewlm/runtime/residency.py.

    Every operation touches one key of [self._records], and coroutines and load
    tasks belong to one key, so the manager is a map of cells: a cell is the
    record of a key (an object of a store, since coroutines keep the events of a
    record that may have left the dictionary), its load tasks and the coroutines
    that use it.  No section under [self._lock] awaits, and publishing never
    suspends (EventBus.v), so a coroutine runs without interruption from one of
    its real suspension points to the next: waiting for the shared load task,
    holding a lease, waiting for another lifecycle operation, waiting for usage
    to drain, and waiting for the backend.  Each such stretch is one step.
    [c_loaded] is what [runtime.is_model_loaded] reports. *)

From S2P Require Import Prelude Json EventSchema.

(** ** Data *)

Inductive residency_state := LOADING | READY | DRAINING | UNLOADING | FAILED.

#[global] Instance residency_state_eq_dec : EqDecision residency_state.
Proof. solve_decision. Defined.

Definition state_value (s : residency_state) : string :=
  match s with
  | LOADING => "loading" | READY => "ready" | DRAINING => "draining"
  | UNLOADING => "unloading" | FAILED => "failed"
  end.

(** [ModelResidencyKey]: runtime name and model identifier. *)
Definition residency_key : Type := string * string.

(** [_ResidencyRecord]; [r_idle] and [r_lifecycle] are its two [asyncio.Event]s. *)
Record residency_record := {
  r_state : residency_state;
  r_load_started_at : option Z;
  r_loaded_at : option Z;
  r_last_used_at : option Z;
  r_active : Z;
  r_pending_unload : bool;
  r_failure : option string;
  r_load_attempts : Z;
  r_joined : Z;
  r_pending : Z;
  r_operation_id : string;
  r_load_task : option nat;
  r_idle : bool;
  r_lifecycle : bool
}.

#[global] Instance residency_record_eta : Eta residency_record := fun r =>
  Build_residency_record (r_state r) (r_load_started_at r) (r_loaded_at r) (r_last_used_at r)
    (r_active r) (r_pending_unload r) (r_failure r) (r_load_attempts r) (r_joined r) (r_pending r)
    (r_operation_id r) (r_load_task r) (r_idle r) (r_lifecycle r).

Definition new_record (s : residency_state) (uuid : string) : residency_record :=
  Build_residency_record s None None None 0 false None 0 0 0 uuid None false false.

(** What a call carries: its request, application and client instance. *)
Record call_ctx := {
  cx_request_id : option string;
  cx_application_id : option string;
  cx_client_instance_id : option string;
  cx_capability : option string
}.

(** Why a caller waits for a load: [ensure_loaded] itself, [acquire] (which holds
    the pending count), or [warm] (an [ensure_loaded] followed by an [acquire]). *)
Inductive purpose := Ensure | Acquire | Warm.

#[global] Instance purpose_eq_dec : EqDecision purpose.
Proof. solve_decision. Defined.

Definition holds_pending (p : purpose) : bool := match p with Acquire => true | _ => false end.

Inductive outcome :=
| Resident (joined backend_operation : bool)
| Released
| Unloaded (joined backend_operation : bool)
| LifecycleConflict (message : string)
| RuntimeUnavailable (message : string) (failure : option string)
| Raised (message : string)
| Cancelled.

(** Where a coroutine is suspended, or how it ended.  The [woken] flags say that
    the future of [Event.wait] has been resolved. *)
Inductive pc :=
| AwaitLoad (p : purpose) (joined : bool) (task : nat) (cx : call_ctx)
| Leased (rid : nat) (cx : call_ctx)
| AwaitJoin (drain timed : bool) (rid : nat) (woken : bool) (cx : call_ctx)
| AwaitIdle (rid : nat) (woken joined : bool) (cx : call_ctx)
| AwaitUnload (rid : nat) (joined : bool) (cx : call_ctx)
| Finished (o : outcome).

(** A load task: not started, waiting for a load slot, in [runtime.load_model],
    or done with the exception it raised, if any. *)
Inductive load_phase := Created | WaitSlot | InBackend | LoadDone (error : option string).

Record load_task := {
  lt_rid : nat;
  lt_phase : load_phase;
  lt_cx : call_ctx
}.

#[global] Instance load_task_eta : Eta load_task := fun t =>
  Build_load_task (lt_rid t) (lt_phase t) (lt_cx t).

Record cell := {
  c_key : residency_key;
  c_runtime_instance_id : string;
  c_current : option nat;
  c_objects : gmap nat residency_record;
  c_next : nat;
  c_loads : gmap nat load_task;
  c_callers : gmap nat pc;
  c_loaded : bool;
  c_events : list (event_type * event_scope * list (string * json))
}.

#[global] Instance cell_eta : Eta cell := fun c =>
  Build_cell (c_key c) (c_runtime_instance_id c) (c_current c) (c_objects c) (c_next c) (c_loads c)
    (c_callers c) (c_loaded c) (c_events c).

Definition init_cell (runtime_instance_id : string) (k : residency_key) : cell :=
  Build_cell k runtime_instance_id None ∅ 0 ∅ ∅ false [].

(** ** Objects *)

(** [self._records.get(key)]. *)
Definition current (c : cell) : option (nat * residency_record) :=
  match c_current c with
  | Some rid => match c_objects c !! rid with Some r => Some (rid, r) | None => None end
  | None => None
  end.

Definition put_record (rid : nat) (r : residency_record) (c : cell) : cell :=
  c <| c_objects := <[rid := r]> (c_objects c) |>.

Definition set_caller (cid : nat) (p : pc) (c : cell) : cell :=
  c <| c_callers := <[cid := p]> (c_callers c) |>.

(** The record of the key, created in the dictionary when it has none. *)
Definition own_record (s : residency_state) (uuid : string) (c : cell)
    : cell * nat * residency_record :=
  match current c with
  | Some (rid, r) => (c, rid, r)
  | None =>
      let rid := c_next c in
      (put_record rid (new_record s uuid) (c <| c_next := S rid |> <| c_current := Some rid |>),
       rid, new_record s uuid)
  end.

(** [Event.set()] on an event of record [rid]: its waiters are resolved. *)
Definition wake_idle (rid : nat) (p : pc) : pc :=
  match p with
  | AwaitIdle rid' w j cx => AwaitIdle rid' (if decide (rid = rid') then true else w) j cx
  | _ => p
  end.

Definition wake_lifecycle (rid : nat) (p : pc) : pc :=
  match p with
  | AwaitJoin d t rid' w cx => AwaitJoin d t rid' (if decide (rid = rid') then true else w) cx
  | _ => p
  end.

Definition idle_set (rid : nat) (c : cell) : cell :=
  c <| c_objects := alter (fun r => r <| r_idle := true |>) rid (c_objects c) |>
    <| c_callers := wake_idle rid <$> c_callers c |>.

Definition lifecycle_set (rid : nat) (c : cell) : cell :=
  c <| c_objects := alter (fun r => r <| r_lifecycle := true |>) rid (c_objects c) |>
    <| c_callers := wake_lifecycle rid <$> c_callers c |>.

(** ** Events: [_publish] *)

Definition optional_field (key : string) (value : option string) : list (string * json) :=
  if truthy value then match value with Some s => [(key, JStr s)] | None => [] end else [].

(** Publishes about the record object [rid]. *)
Definition publish (t : event_type) (rid : nat) (cx : call_ctx)
    (operation_id : option string) (capability : option string) (c : cell) : cell :=
  match c_objects c !! rid with
  | None => c
  | Some r =>
      let payload :=
        [("runtime_instance_id", JStr (c_runtime_instance_id c)); ("model_id", JStr (c_key c).2);
         ("runtime", JStr (c_key c).1); ("state", JStr (state_value (r_state r)));
         ("active_usage_count", JInt (r_active r))]
        ++ optional_field "request_id" (cx_request_id cx)
        ++ optional_field "operation_id" operation_id
        ++ optional_field "capability" capability
        ++ (if bool_decide (capability = Some "model_lifecycle")
            then [("operation", JStr "model.lifecycle")] else [])
        ++ optional_field "application_id" (cx_application_id cx)
        ++ optional_field "client_instance_id" (cx_client_instance_id cx) in
      c <| c_events ::= fun l =>
             l ++ [(t, if truthy (cx_request_id cx) then REQUEST else SYSTEM, payload)] |>
  end.

(** Publishes with the operation identifier of the record's load. *)
Definition publish_use (t : event_type) (rid : nat) (cx : call_ctx) (c : cell) : cell :=
  publish t rid cx (r_operation_id <$> c_objects c !! rid) (cx_capability cx) c.

Definition publish_lifecycle (t : event_type) (rid : nat) (cx : call_ctx) (op : string) (c : cell) : cell :=
  publish t rid cx (Some op) (Some "model_lifecycle") c.

(** ** Leases *)

(** [pending_lease_count = max(0, pending_lease_count - 1)]. *)
Definition drop_pending (r : residency_record) : residency_record :=
  r <| r_pending := Z.max 0 (r_pending r - 1) |>.

(** The idle event is set when nothing uses or waits for the record. *)
Definition settle_idle (rid : nat) (c : cell) : cell :=
  match c_objects c !! rid with
  | Some r => if (r_pending r =? 0)%Z && (r_active r =? 0)%Z then idle_set rid c else c
  | None => c
  end.

Definition release_pending (c : cell) : cell :=
  match current c with
  | None => c
  | Some (rid, r) =>
      let c := put_record rid (drop_pending r) c in
      if bool_decide (r_state r = LOADING) then c else settle_idle rid c
  end.

(** The second locked section of [acquire], up to the [yield]. *)
Definition take_lease (now : Z) (cid : nat) (cx : call_ctx) (c : cell) : cell :=
  let conflict :=
    Finished (LifecycleConflict "The model stopped accepting usage before a lease could be acquired.") in
  match current c with
  | None => set_caller cid conflict c
  | Some (rid, r) =>
      if bool_decide (r_state r = READY) then
        let r := drop_pending r <| r_active := (r_active r + 1)%Z |> <| r_last_used_at := Some now |>
                                <| r_idle := false |> in
        set_caller cid (Leased rid cx) (publish_use MODEL_USAGE_ACQUIRED rid cx (put_record rid r c))
      else set_caller cid conflict (put_record rid (drop_pending r) c)
  end.

(** The [finally] of [acquire]; [rid0] is the record the lease was taken on. *)
Definition release_lease (now : Z) (cid rid0 : nat) (cx : call_ctx) (c : cell) : cell :=
  let '(c, rid) :=
    match current c with
    | None => (c, rid0)
    | Some (rid, r) =>
        let r := r <| r_active := Z.max 0 (r_active r - 1) |> <| r_last_used_at := Some now |> in
        (settle_idle rid (put_record rid r c), rid)
    end in
  set_caller cid (Finished Released) (publish_use MODEL_USAGE_RELEASED rid cx c).

(** ** Loading *)

(** What [ensure_loaded] decided under the lock. *)
Inductive ensure_result :=
| EnsureReady (c : cell)
| EnsureWait (joined : bool) (task : nat) (c : cell)
| EnsureError (o : outcome).

Definition begin_load (now : Z) (uuid : string) (task : nat) (cx : call_ctx) (c : cell) : cell :=
  let '(c, rid, r) := own_record LOADING uuid c in
  let r := r <| r_state := LOADING |> <| r_load_started_at := Some now |> <| r_loaded_at := None |>
             <| r_failure := None |> <| r_pending_unload := false |>
             <| r_load_attempts := (r_load_attempts r + 1)%Z |> <| r_operation_id := uuid |>
             <| r_idle := false |> <| r_load_task := Some task |>
             <| r_pending := (r_pending r + 1)%Z |> in
  put_record rid r c <| c_loads := <[task := Build_load_task rid Created cx]> (c_loads c) |>.

(** The backend already holds the model: residency tracking is adopted. *)
Definition adopt (now : Z) (uuid : string) (hold : bool) (c : cell) : cell :=
  let '(c, rid, r) := own_record READY uuid c in
  let r := r <| r_state := READY |>
             <| r_loaded_at := match r_loaded_at r with Some t => Some t | None => Some now end |>
             <| r_last_used_at := Some now |> <| r_failure := None |> in
  if hold then put_record rid (r <| r_pending := (r_pending r + 1)%Z |> <| r_idle := false |>) c
  else idle_set rid (put_record rid r c).

(** Neither ready nor loading: adopt what the backend holds, else load. *)
Definition adopt_or_load (now : Z) (uuid : string) (task : nat) (hold : bool) (cx : call_ctx) (c : cell)
    : ensure_result :=
  if c_loaded c then EnsureReady (adopt now uuid hold c)
  else EnsureWait false task (begin_load now uuid task cx c).

Definition ensure_locked (closing : bool) (now : Z) (uuid : string) (task : nat) (hold : bool)
    (cx : call_ctx) (c : cell) : ensure_result :=
  if closing then EnsureError (RuntimeUnavailable "The LewLM runtime is shutting down." None)
  else
    match current c with
    | None => adopt_or_load now uuid task hold cx c
    | Some (rid, r) =>
        match r_state r with
        | READY =>
            if c_loaded c then
              let r := r <| r_last_used_at := Some now |> in
              EnsureReady (put_record rid
                (if hold then r <| r_pending := (r_pending r + 1)%Z |> <| r_idle := false |> else r) c)
            else
              (* the backend unloaded directly: reconciled to FAILED, then reloaded *)
              let r := r <| r_state := FAILED |>
                         <| r_failure := Some "Backend no longer reports the model as loaded." |> in
              adopt_or_load now uuid task hold cx (put_record rid r c)
        | DRAINING | UNLOADING =>
            EnsureError
              (LifecycleConflict "The model is draining or unloading and cannot accept new use.")
        | LOADING =>
            match r_load_task r with
            | Some t =>
                EnsureWait true t
                  (put_record rid (r <| r_joined := (r_joined r + 1)%Z |>
                                     <| r_pending := (r_pending r + 1)%Z |>) c)
            | None => adopt_or_load now uuid task hold cx c
            end
        | FAILED => adopt_or_load now uuid task hold cx c
        end
    end.

(** The caller waits for the load it started or joined. *)
Definition await_load (cid : nat) (p : purpose) (joined : bool) (t : nat) (cx : call_ctx) (c : cell)
    : cell :=
  let c := match joined, c_current c with
           | true, Some rid => publish_use MODEL_LOAD_JOINED rid cx c
           | _, _ => c
           end in
  set_caller cid (AwaitLoad p joined t cx) c.

(** [acquire], up to its first suspension. *)
Definition start_acquire (closing : bool) (now : Z) (uuid : string) (task cid : nat) (cx : call_ctx)
    (c : cell) : cell :=
  match ensure_locked closing now uuid task true cx c with
  | EnsureError o => set_caller cid (Finished o) c
  | EnsureReady c => take_lease now cid cx c
  | EnsureWait joined t c => await_load cid Acquire joined t cx c
  end.

(** A caller whose [ensure_loaded] is over: [acquire] and [warm] go on; [warm]
    holds its lease while the backend warms. *)
Definition continue_ready (closing : bool) (now : Z) (uuid : string) (task cid : nat) (p : purpose)
    (joined backend_op : bool) (cx : call_ctx) (c : cell) : cell :=
  match p with
  | Ensure => set_caller cid (Finished (Resident joined backend_op)) c
  | Acquire => take_lease now cid cx c
  | Warm => start_acquire closing now uuid task cid cx c
  end.

Definition start_use (closing : bool) (now : Z) (uuid : string) (task cid : nat) (p : purpose)
    (cx : call_ctx) (c : cell) : cell :=
  match ensure_locked closing now uuid task (holds_pending p) cx c with
  | EnsureError o => set_caller cid (Finished o) c
  | EnsureReady c => continue_ready closing now uuid task cid p false false cx c
  | EnsureWait joined t c => await_load cid p joined t cx c
  end.

(** The waiter resumes after a load that succeeded. *)
Definition resume_loaded (closing : bool) (now : Z) (uuid : string) (task cid : nat) (p : purpose)
    (joined : bool) (cx : call_ctx) (c : cell) : cell :=
  let unavailable f := Finished (RuntimeUnavailable "The model could not be made resident." f) in
  match current c with
  | None => set_caller cid (unavailable (Some "Residency disappeared during loading.")) c
  | Some (rid, r) =>
      let dropped := settle_idle rid (put_record rid (drop_pending r) c) in
      if negb (bool_decide (r_state r = READY)) then set_caller cid (unavailable (r_failure r)) dropped
      else continue_ready closing now uuid task cid p joined (negb joined) cx
             (if holds_pending p then c else dropped)
  end.

Definition resume_wait (closing : bool) (now : Z) (uuid : string) (task cid : nat) (c : cell) : cell :=
  match c_callers c !! cid with
  | Some (AwaitLoad p joined t cx) =>
      match lt_phase <$> (c_loads c !! t) with
      | Some (LoadDone None) => resume_loaded closing now uuid task cid p joined cx c
      | Some (LoadDone (Some e)) => set_caller cid (Finished (Raised e)) (release_pending c)
      | _ => c
      end
  | _ => c
  end.

(** The waiter is cancelled; the shielded load goes on. *)
Definition cancel_wait (cid : nat) (c : cell) : cell :=
  match c_callers c !! cid with
  | Some (AwaitLoad _ _ _ _) => set_caller cid (Finished Cancelled) (release_pending c)
  | _ => c
  end.

Definition end_use (now : Z) (cid : nat) (c : cell) : cell :=
  match c_callers c !! cid with
  | Some (Leased rid cx) => release_lease now cid rid cx c
  | _ => c
  end.

Definition set_phase (t : nat) (task : load_task) (ph : load_phase) (c : cell) : cell :=
  c <| c_loads := <[t := task <| lt_phase := ph |>]> (c_loads c) |>.

(** [_perform_load] starts. *)
Definition load_started (t : nat) (c : cell) : cell :=
  match c_loads c !! t with
  | Some task =>
      match lt_phase task with
      | Created =>
          set_phase t task WaitSlot (publish_use MODEL_LOAD_REQUESTED (lt_rid task) (lt_cx task) c)
      | _ => c
      end
  | None => c
  end.

(** The load scheduler granted a slot. *)
Definition load_admitted (t : nat) (c : cell) : cell :=
  match c_loads c !! t with
  | Some task => match lt_phase task with WaitSlot => set_phase t task InBackend c | _ => c end
  | None => c
  end.

(** [runtime.load_model] returned. *)
Definition load_succeeded (now : Z) (t : nat) (c : cell) : cell :=
  match c_loads c !! t with
  | Some task =>
      match lt_phase task with
      | InBackend =>
          let c := set_phase t task (LoadDone None) (c <| c_loaded := true |>) in
          match current c with
          | Some (rid, r) =>
              let r := r <| r_state := READY |> <| r_loaded_at := Some now |>
                         <| r_last_used_at := Some now |> <| r_failure := None |>
                         <| r_load_task := None |> in
              let c := put_record rid r c in
              if (r_pending r =? 0)%Z then idle_set rid c else c
          | None => c
          end
      | _ => c
      end
  | None => c
  end.

(** The load task raised [e], while waiting for its slot or in the backend,
    which then holds the model or not ([loaded]). *)
Definition load_failed (e : string) (loaded : bool) (t : nat) (c : cell) : cell :=
  match c_loads c !! t with
  | Some task =>
      match lt_phase task with
      | WaitSlot | InBackend =>
          let c := set_phase t task (LoadDone (Some e)) (c <| c_loaded := loaded |>) in
          let c := match current c with
                   | Some (rid, r) =>
                       let r := r <| r_state := FAILED |> <| r_failure := Some e |>
                                  <| r_load_task := None |> in
                       idle_set rid (put_record rid r c)
                   | None => c
                   end in
          publish_use MODEL_LOAD_FAILED (lt_rid task) (lt_cx task) c
      | _ => c
      end
  | None => c
  end.

(** ** Unloading *)

(** From the UNLOADING state on: [runtime.unload_model] is awaited. *)
Definition call_backend_unload (cid : nat) (op : string) (joined : bool) (rid : nat)
    (r : residency_record) (cx : call_ctx) (c : cell) : cell :=
  let c := put_record rid (r <| r_state := UNLOADING |>) c in
  set_caller cid (AwaitUnload rid joined cx) (publish_lifecycle MODEL_UNLOADING rid cx op c).

(** A model the backend holds without a record gets one before it is unloaded. *)
Definition adopt_for_unload (now : Z) (op : string) (c : cell) : cell :=
  match current c with
  | Some _ => c
  | None =>
      if c_loaded c then
        let '(c, rid, r) := own_record READY op c in
        put_record rid (r <| r_loaded_at := Some now |> <| r_last_used_at := Some now |>
                          <| r_idle := true |>) c
      else c
  end.

(** The drain of [unload]: the state changes, and the caller waits for the idle
    event unless it is set.  With a timeout, [asyncio.wait_for] may suspend (it
    does in Python 3.11) even when the event is set. *)
Definition begin_drain (op : string) (cid : nat) (timed joined : bool) (rid : nat) (r : residency_record)
    (cx : call_ctx) (c : cell) : cell :=
  let r := r <| r_state := DRAINING |> <| r_pending_unload := true |> <| r_lifecycle := false |> in
  let c := put_record rid r c in
  let c := publish_lifecycle MODEL_DRAIN_REQUESTED rid cx op c in
  let c := publish_lifecycle MODEL_DRAINING rid cx op c in
  if r_idle r && negb timed then call_backend_unload cid op joined rid r cx c
  else set_caller cid (AwaitIdle rid (r_idle r) joined cx) c.

(** One iteration of the [while True] of [unload] and what follows it, up to the
    next suspension. *)
Definition unload_locked (now : Z) (op : string) (cid : nat) (drain timed joined : bool) (cx : call_ctx)
    (c : cell) : cell :=
  let c := adopt_for_unload now op c in
  match current c with
  | None => set_caller cid (Finished (Unloaded joined false)) c
  | Some (rid, r) =>
      match r_state r with
      | LOADING =>
          set_caller cid
            (Finished (LifecycleConflict "The model is still loading and cannot be unloaded yet.")) c
      | DRAINING | UNLOADING => set_caller cid (AwaitJoin drain timed rid (r_lifecycle r) cx) c
      | READY | FAILED =>
          if ((0 <? r_active r)%Z || (0 <? r_pending r)%Z) && negb drain then
            set_caller cid
              (Finished (LifecycleConflict
                 "The model is actively in use; request drain or retry after usage completes."))
              (publish_lifecycle MODEL_UNLOAD_BLOCKED rid cx op c)
          else if drain then begin_drain op cid timed joined rid r cx c
          else call_backend_unload cid op joined rid (r <| r_lifecycle := false |>) cx c
      end
  end.

(** [unload]: [timeout] in microseconds. *)
Definition start_unload (now : Z) (op : string) (cid : nat) (drain : bool) (timeout : option Z)
    (cx : call_ctx) (c : cell) : cell :=
  if drain && match timeout with Some t => (t <=? 0)%Z | None => false end
  then set_caller cid (Finished (Raised "timeout_seconds must be greater than zero when draining.")) c
  else unload_locked now op cid drain (bool_decide (is_Some timeout)) false cx c.

(** The operation that was joined is over: the loop runs again. *)
Definition resume_join (now : Z) (op : string) (cid : nat) (c : cell) : cell :=
  match c_callers c !! cid with
  | Some (AwaitJoin drain timed _ true cx) => unload_locked now op cid drain timed true cx c
  | _ => c
  end.

(** The joiner is cancelled. *)
Definition cancel_join (cid : nat) (c : cell) : cell :=
  match c_callers c !! cid with
  | Some (AwaitJoin _ _ _ _ _) => set_caller cid (Finished Cancelled) c
  | _ => c
  end.

(** The drain is cancelled or times out: the model is READY again. *)
Definition stop_drain (timed_out : bool) (cid : nat) (c : cell) : cell :=
  match c_callers c !! cid with
  | Some (AwaitIdle _ _ _ _) =>
      let c := match current c with
               | Some (rid, r) =>
                   if bool_decide (r_state r = DRAINING)
                   then lifecycle_set rid (put_record rid (r <| r_state := READY |>
                                                            <| r_pending_unload := false |>) c)
                   else c
               | None => c
               end in
      set_caller cid
        (Finished (if timed_out
                   then LifecycleConflict "Timed out waiting for active model usage to drain."
                   else Cancelled)) c
  | _ => c
  end.

(** The idle event was set: the drained model is unloaded. *)
Definition resume_drain (op : string) (cid : nat) (c : cell) : cell :=
  match c_callers c !! cid with
  | Some (AwaitIdle _ true joined cx) =>
      match current c with
      | None => set_caller cid (Finished (Unloaded false false)) c
      | Some (rid, r) => call_backend_unload cid op joined rid r cx c
      end
  | _ => c
  end.

(** [self._records.pop(key, None)]. *)
Definition pop_record (c : cell) : cell := c <| c_current := None |>.

(** [runtime.unload_model] returned; [performed] is the runtime's
    [lifecycle_backend_operation_performed]. *)
Definition unload_succeeded (op : string) (performed : bool) (cid : nat) (c : cell) : cell :=
  match c_callers c !! cid with
  | Some (AwaitUnload rid0 joined cx) =>
      let c := c <| c_loaded := false |> in
      let c := match current c with
               | Some (rid, _) => lifecycle_set rid (pop_record c)
               | None => c
               end in
      set_caller cid (Finished (Unloaded joined performed)) (publish_lifecycle MODEL_UNLOADED rid0 cx op c)
  | _ => c
  end.

(** It raised [e]: the backend holds the model or not ([loaded]). *)
Definition unload_failed (op e : string) (loaded : bool) (cid : nat) (c : cell) : cell :=
  match c_callers c !! cid with
  | Some (AwaitUnload rid0 _ cx) =>
      let c := c <| c_loaded := loaded |> in
      let c := match current c with
               | Some (rid, r) =>
                   lifecycle_set rid (put_record rid (r <| r_state := FAILED |> <| r_failure := Some e |>
                                                        <| r_pending_unload := false |>) c)
               | None => c
               end in
      set_caller cid (Finished (Raised e)) (publish_lifecycle MODEL_UNLOAD_FAILED rid0 cx op c)
  | _ => c
  end.

(** The caller was cancelled while the backend unloaded. *)
Definition unload_cancelled (loaded : bool) (cid : nat) (c : cell) : cell :=
  match c_callers c !! cid with
  | Some (AwaitUnload _ _ _) =>
      let c := c <| c_loaded := loaded |> in
      let c := match current c with
               | Some (rid, r) =>
                   if loaded
                   then lifecycle_set rid (put_record rid (r <| r_state := READY |>
                                                            <| r_pending_unload := false |>) c)
                   else pop_record (lifecycle_set rid c)
               | None => c
               end in
      set_caller cid (Finished Cancelled) c
  | _ => c
  end.

(** ** Steps of a cell *)

Inductive cell_event :=
| StartUse (now : Z) (uuid : string) (task cid : nat) (p : purpose) (cx : call_ctx)
| ResumeWait (now : Z) (uuid : string) (task cid : nat)
| CancelWait (cid : nat)
| EndUse (now : Z) (cid : nat)
| LoadStarted (t : nat)
| LoadAdmitted (t : nat)
| LoadSucceeded (now : Z) (t : nat)
| LoadFailed (e : string) (loaded : bool) (t : nat)
| StartUnload (now : Z) (op : string) (cid : nat) (drain : bool) (timeout : option Z) (cx : call_ctx)
| ResumeJoin (now : Z) (op : string) (cid : nat)
| CancelJoin (cid : nat)
| StopDrain (timed_out : bool) (cid : nat)
| ResumeDrain (op : string) (cid : nat)
| UnloadSucceeded (op : string) (performed : bool) (cid : nat)
| UnloadFailed (op e : string) (loaded : bool) (cid : nat)
| UnloadCancelled (loaded : bool) (cid : nat)
| BackendChange (loaded : bool).

Definition cell_step (closing : bool) (ev : cell_event) (c : cell) : cell :=
  match ev with
  | StartUse now uuid task cid p cx => start_use closing now uuid task cid p cx c
  | ResumeWait now uuid task cid => resume_wait closing now uuid task cid c
  | CancelWait cid => cancel_wait cid c
  | EndUse now cid => end_use now cid c
  | LoadStarted t => load_started t c
  | LoadAdmitted t => load_admitted t c
  | LoadSucceeded now t => load_succeeded now t c
  | LoadFailed e loaded t => load_failed e loaded t c
  | StartUnload now op cid drain timeout cx => start_unload now op cid drain timeout cx c
  | ResumeJoin now op cid => resume_join now op cid c
  | CancelJoin cid => cancel_join cid c
  | StopDrain timed_out cid => stop_drain timed_out cid c
  | ResumeDrain op cid => resume_drain op cid c
  | UnloadSucceeded op performed cid => unload_succeeded op performed cid c
  | UnloadFailed op e loaded cid => unload_failed op e loaded cid c
  | UnloadCancelled loaded cid => unload_cancelled loaded cid c
  | BackendChange loaded => c <| c_loaded := loaded |>
  end.

(** New callers and load tasks are new objects. *)
Definition fresh_ids (ev : cell_event) (c : cell) : Prop :=
  match ev with
  | StartUse _ _ task cid _ _ => c_loads c !! task = None /\ c_callers c !! cid = None
  | ResumeWait _ _ task _ => c_loads c !! task = None
  | StartUnload _ _ cid _ _ _ => c_callers c !! cid = None
  | _ => True
  end.

(** ** The manager *)

Record manager := {
  m_runtime_instance_id : string;
  m_cells : gmap residency_key cell;
  m_closing : bool
}.

#[global] Instance manager_eta : Eta manager := fun m =>
  Build_manager (m_runtime_instance_id m) (m_cells m) (m_closing m).

Definition init_manager (runtime_instance_id : string) : manager :=
  Build_manager runtime_instance_id ∅ false.

Definition cell_of (k : residency_key) (m : manager) : cell :=
  match m_cells m !! k with Some c => c | None => init_cell (m_runtime_instance_id m) k end.

(** A step on a key, or [shutdown], which closes the manager to new use before it
    drains every record. *)
Inductive manager_event := OnKey (k : residency_key) (ev : cell_event) | Shutdown.

Definition manager_step (ev : manager_event) (m : manager) : manager :=
  match ev with
  | OnKey k ev => m <| m_cells := <[k := cell_step (m_closing m) ev (cell_of k m)]> (m_cells m) |>
  | Shutdown => m <| m_closing := true |>
  end.

(** [_snapshot], [get_residency] and [list_residencies]. *)
Record residency_snapshot := {
  sn_key : residency_key;
  sn_state : residency_state;
  sn_load_started_at : option Z;
  sn_loaded_at : option Z;
  sn_last_used_at : option Z;
  sn_active : Z;
  sn_pending : Z;
  sn_pending_unload : bool;
  sn_failure : option string;
  sn_load_attempts : Z;
  sn_joined : Z
}.

Definition snapshot (k : residency_key) (r : residency_record) : residency_snapshot :=
  Build_residency_snapshot k (r_state r) (r_load_started_at r) (r_loaded_at r) (r_last_used_at r)
    (r_active r) (r_pending r) (r_pending_unload r) (r_failure r) (r_load_attempts r) (r_joined r).

Definition residencies (m : manager) : list (residency_key * residency_record) :=
  omap (fun '(k, c) => match current c with Some (_, r) => Some (k, r) | None => None end)
    (map_to_list (m_cells m)).

Definition key_ltb (a b : residency_key) : bool :=
  if decide (a.1 = b.1) then String.ltb a.2 b.2 else String.ltb a.1 b.1.

Fixpoint insert_sorted (s : residency_snapshot) (l : list residency_snapshot) : list residency_snapshot :=
  match l with
  | [] => [s]
  | x :: l' => if key_ltb (sn_key s) (sn_key x) then s :: l else x :: insert_sorted s l'
  end.

Definition list_residencies (m : manager) : list residency_snapshot :=
  foldr (fun '(k, r) l => insert_sorted (snapshot k r) l) [] (residencies m).

Definition get_residency (model_id : string) (runtime_name : option string) (m : manager)
    : option residency_snapshot :=
  head (List.filter (fun s => bool_decide ((sn_key s).2 = model_id)
                              && match runtime_name with
                                 | Some n => bool_decide ((sn_key s).1 = n)
                                 | None => true
                                 end) (list_residencies m)).

(** ** Who uses a cell *)

Definition is_leased (p : pc) : bool := match p with Leased _ _ => true | _ => false end.
Definition is_waiting (p : pc) : bool := match p with AwaitLoad _ _ _ _ => true | _ => false end.
Definition is_owner (p : pc) : bool :=
  match p with AwaitIdle _ _ _ _ | AwaitUnload _ _ _ => true | _ => false end.

(** The callers whose suspension point satisfies [f]. *)
Definition callers_where (f : pc -> bool) (callers : gmap nat pc) : gset nat :=
  dom (filter (fun kv => f kv.2 = true) callers).

Definition count_callers (f : pc -> bool) (callers : gmap nat pc) : Z :=
  Z.of_nat (size (callers_where f callers)).

(** Whether the caller [cid] is at such a point now. *)
Definition caller_is (f : pc -> bool) (callers : gmap nat pc) (cid : nat) : bool :=
  match callers !! cid with Some p => f p | None => false end.

Lemma elem_callers_where f callers cid :
  cid ∈ callers_where f callers <-> exists p, callers !! cid = Some p /\ f p = true.
Proof.
  unfold callers_where. rewrite elem_of_dom. split.
  - intros [p Hp]. apply map_lookup_filter_Some in Hp as [Hp Hf]. by exists p.
  - intros (p & Hp & Hf). exists p. by apply map_lookup_filter_Some.
Qed.

Lemma caller_is_elem f callers cid : caller_is f callers cid = true <-> cid ∈ callers_where f callers.
Proof.
  rewrite elem_callers_where. unfold caller_is. destruct (callers !! cid) as [p|]; [|naive_solver].
  naive_solver.
Qed.

Lemma count_callers_nonneg f callers : (0 <= count_callers f callers)%Z.
Proof. unfold count_callers. lia. Qed.

Lemma count_callers_pos f callers cid :
  caller_is f callers cid = true -> (1 <= count_callers f callers)%Z.
Proof. intros H%caller_is_elem%size_elem_pos. unfold count_callers. lia. Qed.

Lemma count_callers_zero f callers :
  count_callers f callers = 0%Z <-> forall cid p, callers !! cid = Some p -> f p = false.
Proof.
  split.
  - intros H cid p Hp. destruct (f p) eqn:Hf; [|done].
    assert (1 <= count_callers f callers)%Z; [|lia].
    apply (count_callers_pos f callers cid). unfold caller_is. by rewrite Hp.
  - intros H. unfold count_callers. rewrite (size_ext _ ∅); [by rewrite size_empty|].
    intros cid. rewrite elem_callers_where. split; [|set_solver].
    intros (p & Hp & Hf). rewrite (H _ _ Hp) in Hf. done.
Qed.

(** Moving one caller to another suspension point. *)
Lemma count_callers_insert f callers cid p :
  count_callers f (<[cid := p]> callers)
  = (count_callers f callers - Z.b2z (caller_is f callers cid) + Z.b2z (f p))%Z.
Proof.
  unfold count_callers.
  assert (Hdom : forall x, x ∈ callers_where f (<[cid := p]> callers) <->
                           (x = cid /\ f p = true) \/ (x <> cid /\ x ∈ callers_where f callers)).
  { intros x. rewrite !elem_callers_where. destruct (decide (x = cid)) as [->|Hne].
    - rewrite lookup_insert_eq. naive_solver.
    - rewrite lookup_insert_ne by done. naive_solver. }
  destruct (f p) eqn:Hp, (caller_is f callers cid) eqn:Hc; simpl.
  - rewrite (size_ext _ (callers_where f callers)); [lia|]. intros x. rewrite Hdom.
    apply caller_is_elem in Hc. destruct (decide (x = cid)) as [->|]; naive_solver.
  - rewrite (size_ext _ ({[cid]} ∪ callers_where f callers)); [rewrite size_insert_new; [lia|]|].
    + rewrite <- caller_is_elem. by rewrite Hc.
    + intros x. rewrite Hdom. destruct (decide (x = cid)); set_solver.
  - apply caller_is_elem in Hc as Hin. pose proof (size_remove_elem _ _ Hin).
    rewrite (size_ext _ (callers_where f callers ∖ {[cid]})); [lia|].
    intros x. rewrite Hdom. set_solver.
  - rewrite (size_ext _ (callers_where f callers)); [lia|]. intros x. rewrite Hdom.
    destruct (decide (x = cid)) as [->|]; [|naive_solver].
    split; [naive_solver|]. intros Hin%caller_is_elem. congruence.
Qed.

(** Resolving futures does not move callers. *)
Lemma count_callers_fmap f g callers :
  (forall p, f (g p) = f p) -> count_callers f (g <$> callers) = count_callers f callers.
Proof.
  intros Hg. unfold count_callers. f_equal. apply size_ext. intros x. rewrite !elem_callers_where.
  rewrite lookup_fmap. destruct (callers !! x) as [p|]; simpl; [|naive_solver].
  split; intros (q & [= <-] & Hf); [exists p|exists (g p)]; split; try done.
  - by rewrite <- (Hg p).
  - by rewrite (Hg p).
Qed.

Lemma caller_is_fmap f g callers cid :
  (forall p, f (g p) = f p) -> caller_is f (g <$> callers) cid = caller_is f callers cid.
Proof. intros Hg. unfold caller_is. rewrite lookup_fmap. by destruct (callers !! cid); simpl. Qed.

Lemma leased_wake_idle rid p : is_leased (wake_idle rid p) = is_leased p.
Proof. by destruct p. Qed.
Lemma leased_wake_lifecycle rid p : is_leased (wake_lifecycle rid p) = is_leased p.
Proof. by destruct p. Qed.
Lemma waiting_wake_idle rid p : is_waiting (wake_idle rid p) = is_waiting p.
Proof. by destruct p. Qed.
Lemma waiting_wake_lifecycle rid p : is_waiting (wake_lifecycle rid p) = is_waiting p.
Proof. by destruct p. Qed.

#[export] Hint Resolve leased_wake_idle leased_wake_lifecycle waiting_wake_idle
  waiting_wake_lifecycle : core.

(** No caller holds a lease or waits for the model. *)
Definition unattended (callers : gmap nat pc) : Prop :=
  count_callers is_leased callers = 0%Z /\ count_callers is_waiting callers = 0%Z.

Lemma unattended_insert callers cid p :
  unattended callers -> is_leased p = false -> is_waiting p = false -> unattended (<[cid := p]> callers).
Proof.
  intros [Hl Hw] Hpl Hpw. unfold unattended.
  pose proof (count_callers_nonneg is_leased (<[cid := p]> callers)) as H1.
  pose proof (count_callers_nonneg is_waiting (<[cid := p]> callers)) as H2.
  rewrite count_callers_insert, ?Hl, ?Hpl in H1. rewrite count_callers_insert, ?Hw, ?Hpw in H2.
  rewrite !count_callers_insert, Hl, Hw, Hpl, Hpw.
  destruct (caller_is is_leased callers cid), (caller_is is_waiting callers cid); simpl in *; lia.
Qed.

Lemma unattended_fmap g callers :
  (forall p, is_leased (g p) = is_leased p) -> (forall p, is_waiting (g p) = is_waiting p) ->
  unattended callers -> unattended (g <$> callers).
Proof. intros H1 H2. unfold unattended. by rewrite !count_callers_fmap. Qed.

Lemma attended callers cid :
  caller_is is_leased callers cid = true \/ caller_is is_waiting callers cid = true -> ~ unattended callers.
Proof. intros [H|H] [Hl Hw]; pose proof (count_callers_pos _ _ _ H); lia. Qed.

(** The backend keeps a model somebody uses: it does not drop on its own a READY
    model that a caller leases or waits for, and it still holds the model when a
    drain is given up that such a caller outlives.  It may drop at any time a model
    that nobody leases or waits for: the next use reconciles its record. *)
Definition backend_keeps (ev : cell_event) (c : cell) : Prop :=
  match ev with
  | BackendChange false =>
      forall rid r, current c = Some (rid, r) -> r_state r = READY -> unattended (c_callers c)
  | StopDrain _ _ => c_loaded c = true \/ unattended (c_callers c)
  | _ => True
  end.

(** ** Invariant *)

Definition live (ph : load_phase) : bool := match ph with LoadDone _ => false | _ => true end.

Definition transition (s : residency_state) : Prop := s = DRAINING \/ s = UNLOADING.

(** A caller of lifecycle operations and the record it waits on. *)
Definition pc_ok (rid : nat) (r : residency_record) (p : pc) : Prop :=
  match p with
  | AwaitIdle rid' w _ _ => rid' = rid /\ r_state r = DRAINING /\ w = r_idle r
  | AwaitUnload rid' _ _ => rid' = rid /\ r_state r = UNLOADING
  | AwaitJoin _ _ rid' w _ => w = true \/ (rid' = rid /\ transition (r_state r))
  | _ => True
  end.

Record owners_inv (callers : gmap nat pc) (rid : nat) (r : residency_record) : Prop := {
  ow_ok : forall cid p, callers !! cid = Some p -> pc_ok rid r p;
  ow_unique : forall cid1 cid2 p1 p2, callers !! cid1 = Some p1 -> callers !! cid2 = Some p2 ->
    is_owner p1 = true -> is_owner p2 = true -> cid1 = cid2;
  ow_exists : transition (r_state r) -> exists cid p, callers !! cid = Some p /\ is_owner p = true
}.

(** [slack] is the number of pending counts whose caller is not suspended yet:
    0 between steps. *)
Record rec_inv (slack : Z) (callers : gmap nat pc) (loads : gmap nat load_task) (loaded : bool)
    (rid : nat) (r : residency_record) : Prop := {
  ri_active : r_active r = count_callers is_leased callers;
  ri_unused : r_state r = LOADING \/ r_state r = UNLOADING \/ r_state r = FAILED -> r_active r = 0%Z;
  ri_idle : r_idle r = true -> r_active r = 0%Z;
  ri_pending : (0 <= r_pending r <= count_callers is_waiting callers + slack)%Z;
  ri_loading : r_state r = LOADING <-> is_Some (r_load_task r);
  ri_live : forall t, (exists task, loads !! t = Some task /\ live (lt_phase task) = true)
              <-> r_load_task r = Some t;
  ri_ready : r_state r = READY -> loaded = true \/ unattended callers;
  ri_rest : r_state r <> LOADING -> r_active r = 0%Z -> r_pending r = 0%Z -> r_idle r = true;
  ri_owners : owners_inv callers rid r
}.

(** No record: nobody uses, loads or unloads the model. *)
Record absent_inv (callers : gmap nat pc) (loads : gmap nat load_task) : Prop := {
  ai_leases : count_callers is_leased callers = 0%Z;
  ai_loads : forall t task, loads !! t = Some task -> live (lt_phase task) = false;
  ai_owners : forall cid p, callers !! cid = Some p -> is_owner p = false;
  ai_joiners : forall cid d t rid w cx, callers !! cid = Some (AwaitJoin d t rid w cx) -> w = true
}.

Definition cell_inv_with (slack : Z) (c : cell) : Prop :=
  match c_current c with
  | None => absent_inv (c_callers c) (c_loads c)
  | Some rid => exists r, c_objects c !! rid = Some r
                          /\ rec_inv slack (c_callers c) (c_loads c) (c_loaded c) rid r
  end.

Definition cell_inv : cell -> Prop := cell_inv_with 0.

Lemma current_Some c rid r :
  current c = Some (rid, r) <-> c_current c = Some rid /\ c_objects c !! rid = Some r.
Proof.
  unfold current. destruct (c_current c) as [rid'|]; [|naive_solver].
  destruct (c_objects c !! rid') eqn:H; naive_solver.
Qed.

Lemma inv_current s c rid r :
  cell_inv_with s c -> current c = Some (rid, r) ->
  rec_inv s (c_callers c) (c_loads c) (c_loaded c) rid r.
Proof.
  intros H [Hc Ho]%current_Some. unfold cell_inv_with in H. rewrite Hc in H.
  destruct H as (r' & Hr' & H). by simplify_eq.
Qed.

Lemma inv_absent s c :
  cell_inv_with s c -> current c = None -> c_current c = None /\ absent_inv (c_callers c) (c_loads c).
Proof.
  intros H Hn. unfold cell_inv_with, current in *. destruct (c_current c) as [rid|]; [|done].
  destruct H as (r & Hr & _). by rewrite Hr in Hn.
Qed.

Lemma inv_intro s c rid r :
  c_current c = Some rid -> c_objects c !! rid = Some r ->
  rec_inv s (c_callers c) (c_loads c) (c_loaded c) rid r -> cell_inv_with s c.
Proof. intros Hc Hr H. unfold cell_inv_with. rewrite Hc. by exists r. Qed.

Lemma inv_none s c : c_current c = None -> absent_inv (c_callers c) (c_loads c) -> cell_inv_with s c.
Proof. intros Hc H. unfold cell_inv_with. by rewrite Hc. Qed.

Lemma init_cell_inv i k : cell_inv (init_cell i k).
Proof.
  split; try done; intros; by rewrite lookup_empty in *.
Qed.

(** Publishing only appends to the events. *)
Lemma publish_eq t rid cx op cap c : exists l, publish t rid cx op cap c = c <| c_events := l |>.
Proof.
  unfold publish. destruct (c_objects c !! rid); [by eexists|].
  exists (c_events c). by destruct c.
Qed.

(** *** Owners *)

Definition no_owner_but (cid : nat) (callers : gmap nat pc) : Prop :=
  forall cid' p, callers !! cid' = Some p -> is_owner p = true -> cid' = cid.

Lemma owners_absent callers rid r :
  owners_inv callers rid r -> ~ transition (r_state r) ->
  forall cid p, callers !! cid = Some p -> is_owner p = false.
Proof.
  intros H Hn cid p Hp. pose proof (ow_ok _ _ _ H cid p Hp) as Hok.
  unfold transition in Hn. destruct p; simpl in *; try done; naive_solver.
Qed.

Lemma joiners_woken callers rid r :
  owners_inv callers rid r -> ~ transition (r_state r) ->
  forall cid d t rid' w cx, callers !! cid = Some (AwaitJoin d t rid' w cx) -> w = true.
Proof.
  intros H Hn cid d t rid' w cx Hp. pose proof (ow_ok _ _ _ H cid _ Hp) as Hok. simpl in Hok. naive_solver.
Qed.

Lemma owner_wake (w : bool) rid p : is_owner ((if w then wake_idle rid else id) p) = is_owner p.
Proof. destruct w; [by destruct p|done]. Qed.

(** Nothing changes for the owners: the state stays, and the idle event is set
    for its waiters when it is set in the record. *)
Lemma owners_wake callers rid r r' (w : bool) :
  owners_inv callers rid r -> r_state r' = r_state r ->
  (transition (r_state r) -> r_idle r' = r_idle r || w) ->
  owners_inv ((if w then wake_idle rid else id) <$> callers) rid r'.
Proof.
  intros H Hst Hidle. split.
  - intros cid' p Hp. rewrite lookup_fmap in Hp.
    destruct (callers !! cid') as [q|] eqn:Hq; [|done]. simpl in Hp. injection Hp as <-.
    pose proof (ow_ok _ _ _ H cid' q Hq) as Hok.
    destruct q; try (by destruct w); simpl in Hok.
    + destruct w; simpl; rewrite Hst; done.
    + destruct Hok as (-> & Hs & ->). specialize (Hidle (or_introl Hs)).
      destruct w; simpl; rewrite ?decide_True by done; rewrite Hst, Hidle;
        (split; [done|split; [done|]]); [by rewrite orb_true_r|by rewrite orb_false_r].
    + destruct Hok as [-> Hs]. destruct w; simpl; rewrite Hst; done.
  - intros cid1 cid2 p1 p2 H1 H2 Ho1 Ho2. rewrite lookup_fmap in H1, H2.
    destruct (callers !! cid1) as [q1|] eqn:Hq1; [|done].
    destruct (callers !! cid2) as [q2|] eqn:Hq2; [|done]. simpl in *. simplify_eq.
    rewrite owner_wake in Ho1, Ho2. by eapply (ow_unique _ _ _ H).
  - rewrite Hst. intros Ht. destruct (ow_exists _ _ _ H Ht) as (cid' & q & Hq & Ho).
    exists cid'. rewrite lookup_fmap, Hq. simpl. eexists. split; [done|]. by rewrite owner_wake.
Qed.

(** A caller that owns no transition moves. *)
Lemma owners_put callers rid r cid p1 :
  owners_inv callers rid r -> caller_is is_owner callers cid = false -> is_owner p1 = false ->
  pc_ok rid r p1 -> owners_inv (<[cid := p1]> callers) rid r.
Proof.
  intros H Hc Hp1 Hok1.
  assert (Hback : forall cid' p, <[cid:=p1]> callers !! cid' = Some p -> is_owner p = true ->
            callers !! cid' = Some p).
  { intros cid' p Hp Ho. destruct (decide (cid' = cid)) as [->|Hne].
    - rewrite lookup_insert_eq in Hp. simplify_eq. congruence.
    - by rewrite lookup_insert_ne in Hp. }
  split.
  - intros cid' p Hp. destruct (decide (cid' = cid)) as [->|Hne].
    + rewrite lookup_insert_eq in Hp. by simplify_eq.
    + rewrite lookup_insert_ne in Hp by done. by eapply (ow_ok _ _ _ H).
  - intros cid1 cid2 q1 q2 H1 H2 Ho1 Ho2. eapply (ow_unique _ _ _ H); eauto.
  - intros Ht. destruct (ow_exists _ _ _ H Ht) as (cid' & q & Hq & Ho). exists cid', q.
    split; [|done]. rewrite lookup_insert_ne; [done|]. intros <-.
    unfold caller_is in Hc. rewrite Hq in Hc. congruence.
Qed.

Lemma owners_keep callers rid r r' cid p1 (w : bool) :
  owners_inv callers rid r -> r_state r' = r_state r ->
  caller_is is_owner callers cid = false -> is_owner p1 = false -> pc_ok rid r' p1 ->
  (transition (r_state r) -> r_idle r' = r_idle r || w) ->
  owners_inv (<[cid := p1]> ((if w then wake_idle rid else id) <$> callers)) rid r'.
Proof.
  intros H Hst Hc Hp1 Hok1 Hidle. apply owners_put; [by eapply owners_wake| |done..].
  rewrite caller_is_fmap; [done|]. intros p. apply owner_wake.
Qed.

(** A record outside a transition has no owner, and its joiners are woken. *)
Lemma owners_none callers rid r :
  (forall cid p, callers !! cid = Some p -> is_owner p = false) ->
  (forall cid d t rid' w cx, callers !! cid = Some (AwaitJoin d t rid' w cx) -> w = true) ->
  ~ transition (r_state r) -> owners_inv callers rid r.
Proof.
  intros Ho Hj Hn. split; [|intros cid1 cid2 p1 p2 H1 _ Ho1; rewrite (Ho _ _ H1) in Ho1; done|done].
  intros cid p Hp. pose proof (Ho _ _ Hp). destruct p; try done. left. by eapply Hj.
Qed.

(** The only owner, [cid], is done: the record is in no transition. *)
Lemma owners_leave callers rid r' cid p1 :
  no_owner_but cid callers -> is_owner p1 = false -> pc_ok rid r' p1 -> ~ transition (r_state r') ->
  (forall cid' d t rid' w cx, callers !! cid' = Some (AwaitJoin d t rid' w cx) -> w = true) ->
  owners_inv (<[cid := p1]> callers) rid r'.
Proof.
  intros Hno Hp1 Hok1 Hn Hj.
  assert (Hnone : forall cid' p, <[cid:=p1]> callers !! cid' = Some p -> is_owner p = false).
  { intros cid' p Hp. destruct (decide (cid' = cid)) as [->|Hne].
    - rewrite lookup_insert_eq in Hp. by simplify_eq.
    - rewrite lookup_insert_ne in Hp by done. destruct (is_owner p) eqn:Ho; [|done].
      exfalso. eauto. }
  split; [|intros cid1 cid2 q1 q2 H1 _ Ho1; rewrite (Hnone _ _ H1) in Ho1; done|done].
  intros cid' p Hp. pose proof (Hnone _ _ Hp) as Hno'.
  destruct (decide (cid' = cid)) as [->|Hne]; [rewrite lookup_insert_eq in Hp; by simplify_eq|].
  rewrite lookup_insert_ne in Hp by done. destruct p; try done. left. by eapply Hj.
Qed.

(** [cid] becomes the only owner of the transition. *)
Lemma owners_enter callers rid r' cid p1 :
  no_owner_but cid callers -> is_owner p1 = true -> pc_ok rid r' p1 -> transition (r_state r') ->
  (forall cid' d t rid' w cx, callers !! cid' = Some (AwaitJoin d t rid' w cx) -> w = true \/ rid' = rid) ->
  owners_inv (<[cid := p1]> callers) rid r'.
Proof.
  intros Hno Hp1 Hok1 Ht Hj. split.
  - intros cid' p Hp. destruct (decide (cid' = cid)) as [->|Hne]; [rewrite lookup_insert_eq in Hp; by simplify_eq|].
    rewrite lookup_insert_ne in Hp by done.
    destruct p; try done; try (exfalso; apply Hne; by eapply Hno).
    simpl. destruct (Hj _ _ _ _ _ _ Hp); auto.
  - assert (Hback : forall cid' p, <[cid:=p1]> callers !! cid' = Some p -> is_owner p = true -> cid' = cid).
    { intros cid' p Hp Ho. destruct (decide (cid' = cid)) as [|Hne]; [done|].
      rewrite lookup_insert_ne in Hp by done. by eapply Hno. }
    intros cid1 cid2 q1 q2 H1 H2 Ho1 Ho2. rewrite (Hback _ _ H1 Ho1). symmetry. by eapply Hback.
  - intros _. exists cid, p1. by rewrite lookup_insert_eq.
Qed.

(** *** Moving a caller *)

Lemma set_caller_inv s cid p1 c :
  cell_inv_with s c ->
  caller_is is_owner (c_callers c) cid = false -> caller_is is_leased (c_callers c) cid = false ->
  is_owner p1 = false -> is_leased p1 = false ->
  (forall rid r, current c = Some (rid, r) -> pc_ok rid r p1) ->
  (current c = None -> forall d t rid w cx, p1 = AwaitJoin d t rid w cx -> w = true) ->
  (is_waiting p1 = true -> forall rid r, current c = Some (rid, r) -> r_state r <> READY) ->
  cell_inv_with (s + Z.b2z (caller_is is_waiting (c_callers c) cid) - Z.b2z (is_waiting p1))
    (set_caller cid p1 c).
Proof.
  intros H Ho Hl Hp1o Hp1l Hok Hnone Hready.
  destruct (current c) as [[rid r]|] eqn:Hc.
  - pose proof (inv_current _ _ _ _ H Hc) as [].
    apply current_Some in Hc as [Hc Hr].
    apply (inv_intro _ _ rid r); [done|done|]. split; try done.
    + cbn. rewrite count_callers_insert, Hl, Hp1l. simpl. lia.
    + cbn. rewrite count_callers_insert. lia.
    + intros Hst. destruct (ri_ready0 Hst) as [?|Hu]; [by left|right]. apply unattended_insert; [done..|].
      destruct (is_waiting p1); [|done]. by destruct (Hready eq_refl rid r eq_refl).
    + cbn. pose proof (owners_keep (c_callers c) rid r r cid p1 false) as Hk.
      rewrite map_fmap_id in Hk. apply Hk; try done; [by apply Hok|]. by rewrite orb_false_r.
  - destruct (inv_absent _ _ H Hc) as [Hn []].
    apply inv_none; [done|]. cbn. split; try done.
    + rewrite count_callers_insert, Hl, Hp1l. simpl. lia.
    + intros cid' p Hp. destruct (decide (cid' = cid)) as [->|Hne].
      * rewrite lookup_insert_eq in Hp. by simplify_eq.
      * rewrite lookup_insert_ne in Hp by done. eauto.
    + intros cid' d t rid w cx Hp. destruct (decide (cid' = cid)) as [->|Hne].
      * rewrite lookup_insert_eq in Hp. simplify_eq. by eapply Hnone.
      * rewrite lookup_insert_ne in Hp by done. eauto.
Qed.

Lemma set_caller_publish cid p1 t rid cx op cap c :
  exists l, set_caller cid p1 (publish t rid cx op cap c) = set_caller cid p1 c <| c_events := l |>.
Proof. destruct (publish_eq t rid cx op cap c) as [l ->]. by exists l. Qed.

(** *** Updating the record without changing its state *)

Definition mark (w : bool) (r : residency_record) : residency_record :=
  if w then r <| r_idle := true |> else r.

Definition rest_now (r : residency_record) : bool := (r_pending r =? 0)%Z && (r_active r =? 0)%Z.

(** [put_record] then, perhaps, [idle_set]. *)
Definition put_marked (w : bool) (rid : nat) (r : residency_record) (c : cell) : cell :=
  if w then idle_set rid (put_record rid r c) else put_record rid r c.

Lemma settle_put rid r c : settle_idle rid (put_record rid r c) = put_marked (rest_now r) rid r c.
Proof. unfold settle_idle, put_record. cbn. by rewrite lookup_insert_eq. Qed.

Lemma put_marked_fields w rid r c :
  c_current (put_marked w rid r c) = c_current c /\
  c_objects (put_marked w rid r c) !! rid = Some (mark w r) /\
  c_callers (put_marked w rid r c) = (if w then wake_idle rid else id) <$> c_callers c /\
  c_loads (put_marked w rid r c) = c_loads c /\ c_loaded (put_marked w rid r c) = c_loaded c.
Proof.
  destruct w; cbn; split_and!; try done.
  - by rewrite lookup_alter_eq, lookup_insert_eq.
  - by rewrite lookup_insert_eq.
  - by rewrite map_fmap_id.
Qed.

Lemma mark_fields w r :
  r_active (mark w r) = r_active r /\ r_pending (mark w r) = r_pending r
  /\ r_state (mark w r) = r_state r /\ r_load_task (mark w r) = r_load_task r
  /\ r_idle (mark w r) = r_idle r || w.
Proof. destruct w; cbn; by rewrite ?orb_true_r, ?orb_false_r. Qed.

(** The record [r] becomes [r'], in the same state, while the caller [cid]
    becomes [p1]. *)
Lemma update_inv s s' cid p1 w rid r r' c :
  cell_inv_with s c -> current c = Some (rid, r) ->
  caller_is is_owner (c_callers c) cid = false -> is_owner p1 = false -> pc_ok rid (mark w r') p1 ->
  r_state r' = r_state r -> r_load_task r' = r_load_task r ->
  (r_active r' = r_active r - Z.b2z (caller_is is_leased (c_callers c) cid) + Z.b2z (is_leased p1))%Z ->
  (0 <= r_pending r' <= count_callers is_waiting (c_callers c)
     - Z.b2z (caller_is is_waiting (c_callers c) cid) + Z.b2z (is_waiting p1) + s')%Z ->
  (r_state r = LOADING \/ r_state r = UNLOADING \/ r_state r = FAILED -> r_active r' = 0%Z) ->
  (r_idle r' || w = true -> r_active r' = 0%Z) ->
  (r_state r <> LOADING -> r_active r' = 0%Z -> r_pending r' = 0%Z -> r_idle r' || w = true) ->
  (transition (r_state r) -> r_idle r' || w = r_idle r || w) ->
  (is_leased p1 || is_waiting p1 = true -> c_loaded c = true) ->
  cell_inv_with s' (set_caller cid p1 (put_marked w rid r' c)).
Proof.
  intros H Hc Hno Hp1 Hok Hst Hlt Hact Hpend Hun Hidle Hrest Htr Hload.
  pose proof (inv_current _ _ _ _ H Hc) as [].
  apply current_Some in Hc as [Hc Hr].
  destruct (put_marked_fields w rid r' c) as (F1 & F2 & F3 & F4 & F5).
  destruct (mark_fields w r') as (M1 & M2 & M3 & M4 & M5).
  apply (inv_intro _ _ rid (mark w r')); [by rewrite <- Hc, <- F1|done|].
  unfold set_caller. cbn. rewrite F3, F4, F5.
  assert (Hg : forall (f : pc -> bool), (forall p, f (wake_idle rid p) = f p) ->
            forall p, f ((if w then wake_idle rid else id) p) = f p)
    by (intros f Hf p; destruct w; [apply Hf|done]).
  split; rewrite ?M1, ?M2, ?M3, ?M4, ?M5, ?Hst, ?Hlt; try done.
  - rewrite count_callers_insert, count_callers_fmap, caller_is_fmap by auto. lia.
  - rewrite count_callers_insert, count_callers_fmap, caller_is_fmap by auto. lia.
  - intros Hr'. destruct (is_leased p1 || is_waiting p1) eqn:Hatt; [left; by apply Hload|].
    apply orb_false_iff in Hatt as []. destruct (ri_ready0 Hr') as [?|Hu]; [by left|right].
    apply unattended_insert; [|done..]. apply unattended_fmap; auto.
  - apply (owners_keep _ rid r); try done; [by rewrite M3|]. intros Ht. by rewrite M5, Htr.
Qed.

Lemma publish_inv s t rid cx op cap c : cell_inv_with s c -> cell_inv_with s (publish t rid cx op cap c).
Proof. destruct (publish_eq t rid cx op cap c) as [l ->]. done. Qed.

Lemma set_caller_publish_inv s cid p1 t rid cx op cap c :
  cell_inv_with s (set_caller cid p1 c) -> cell_inv_with s (set_caller cid p1 (publish t rid cx op cap c)).
Proof. destruct (publish_eq t rid cx op cap c) as [l ->]. done. Qed.

Lemma slack_absent s s' c : current c = None -> cell_inv_with s c -> cell_inv_with s' c.
Proof. intros Hc H. destruct (inv_absent _ _ H Hc) as [Hn Ha]. by apply inv_none. Qed.

Lemma caller_is_at f c cid p : c_callers c !! cid = Some p -> caller_is f (c_callers c) cid = f p.
Proof. unfold caller_is. by intros ->. Qed.

Lemma caller_is_new f c cid : c_callers c !! cid = None -> caller_is f (c_callers c) cid = false.
Proof. unfold caller_is. by intros ->. Qed.

(** A caller that is not using the cell ends. *)
Lemma finish_inv s cid o c :
  cell_inv_with s c -> caller_is is_owner (c_callers c) cid = false ->
  caller_is is_leased (c_callers c) cid = false -> caller_is is_waiting (c_callers c) cid = false ->
  cell_inv_with s (set_caller cid (Finished o) c).
Proof.
  intros H Ho Hl Hw. pose proof (set_caller_inv s cid (Finished o) c H Ho Hl) as Hi.
  rewrite Hw in Hi. simpl in Hi. rewrite Z.add_0_r, Z.sub_0_r in Hi. by apply Hi.
Qed.

(** A waiter gives its pending count back and ends. *)
Lemma release_pending_inv cid o p j t cx c :
  cell_inv c -> c_callers c !! cid = Some (AwaitLoad p j t cx) ->
  cell_inv (set_caller cid (Finished o) (release_pending c)).
Proof.
  intros H Hcid. pose proof (caller_is_at is_waiting _ _ _ Hcid) as Hw.
  pose proof (caller_is_at is_owner _ _ _ Hcid) as Ho. pose proof (caller_is_at is_leased _ _ _ Hcid) as Hl.
  unfold release_pending. destruct (current c) as [[rid r]|] eqn:Hc.
  - pose proof (inv_current _ _ _ _ H Hc) as [].
    assert (Hpos := count_callers_pos _ _ _ Hw).
    set (w := if bool_decide (r_state r = LOADING) then false else rest_now (drop_pending r)).
    assert (Heq : (if bool_decide (r_state r = LOADING) then put_record rid (drop_pending r) c
                   else settle_idle rid (put_record rid (drop_pending r) c))
                  = put_marked w rid (drop_pending r) c).
    { unfold w. destruct (bool_decide (r_state r = LOADING)); [done|]. apply settle_put. }
    cbv zeta. rewrite Heq. eapply (update_inv 0 0); try done; rewrite ?Ho, ?Hl, ?Hw; cbn; try lia.
    + unfold w. case_bool_decide; rewrite ?orb_false_r; [done|].
      intros [Hi|Hr]%orb_true_iff; [auto|]. unfold rest_now in Hr. cbn in Hr. lia.
    + intros Hnl Ha Hp. unfold w. rewrite bool_decide_eq_false_2 by done.
      unfold rest_now. cbn. apply orb_true_iff. right. lia.
  - eapply slack_absent; [exact Hc|]. by apply (set_caller_inv 0 cid (Finished o) c H Ho Hl).
Qed.

(** The pending count held through [ensure_loaded] becomes the lease itself. *)
Lemma take_lease_inv s now cid cx c rid r :
  cell_inv_with s c -> current c = Some (rid, r) -> r_state r = READY ->
  caller_is is_owner (c_callers c) cid = false -> caller_is is_leased (c_callers c) cid = false ->
  s = (1 - Z.b2z (caller_is is_waiting (c_callers c) cid))%Z -> c_loaded c = true ->
  cell_inv (take_lease now cid cx c).
Proof.
  intros H Hc Hst Ho Hl Hs Hld. unfold take_lease. rewrite Hc, bool_decide_eq_true_2 by done.
  pose proof (inv_current _ _ _ _ H Hc) as [].
  apply set_caller_publish_inv.
  match goal with |- cell_inv_with _ (set_caller _ _ (put_record rid ?r' c)) =>
    change (put_record rid r' c) with (put_marked false rid r' c) end.
  pose proof (count_callers_nonneg is_waiting (c_callers c)).
  assert (caller_is is_waiting (c_callers c) cid = true -> 1 <= count_callers is_waiting (c_callers c))%Z
    by (intros Hw; by apply (count_callers_pos _ _ _ Hw)).
  pose proof (count_callers_nonneg is_leased (c_callers c)).
  eapply (update_inv s 0); try done; rewrite ?Ho, ?Hl, ?Hst; cbn; try lia; try done.
  - destruct (caller_is is_waiting (c_callers c) cid); simpl in *; lia.
  - intros [?|[?|?]]; done.
  - intros [?|?]; done.
Qed.

Lemma release_lease_inv now cid rid0 cx c :
  cell_inv c -> c_callers c !! cid = Some (Leased rid0 cx) -> cell_inv (release_lease now cid rid0 cx c).
Proof.
  intros H Hcid. pose proof (caller_is_at is_waiting _ _ _ Hcid) as Hw.
  pose proof (caller_is_at is_owner _ _ _ Hcid) as Ho. pose proof (caller_is_at is_leased _ _ _ Hcid) as Hl.
  unfold release_lease. destruct (current c) as [[rid r]|] eqn:Hc.
  - pose proof (inv_current _ _ _ _ H Hc) as [].
    assert (Hpos := count_callers_pos _ _ _ Hl).
    apply set_caller_publish_inv. rewrite settle_put.
    eapply (update_inv 0 0); try done; rewrite ?Ho, ?Hl, ?Hw; cbn; try lia.
    + intros Hu. specialize (ri_unused0 Hu). lia.
    + intros [Hi|Hr]%orb_true_iff; [specialize (ri_idle0 Hi); lia|].
      unfold rest_now in Hr. cbn in Hr. lia.
    + intros Hnl Ha Hp. apply orb_true_iff. right. unfold rest_now. cbn. lia.
  - destruct (inv_absent _ _ H Hc) as [_ []].
    exfalso. assert (Hpos := count_callers_pos _ _ _ Hl). lia.
Qed.

(** *** Updating the record without moving a caller *)

Lemma touch_inv s s' w rid r r' c :
  cell_inv_with s c -> current c = Some (rid, r) ->
  r_state r' = r_state r -> r_load_task r' = r_load_task r -> r_active r' = r_active r ->
  (0 <= r_pending r' <= count_callers is_waiting (c_callers c) + s')%Z ->
  (r_idle r' || w = true -> r_active r = 0%Z) ->
  (r_state r <> LOADING -> r_active r = 0%Z -> r_pending r' = 0%Z -> r_idle r' || w = true) ->
  (transition (r_state r) -> r_idle r' = r_idle r) ->
  cell_inv_with s' (put_marked w rid r' c).
Proof.
  intros H Hc Hst Hlt Hact Hpend Hidle Hrest Htr.
  pose proof (inv_current _ _ _ _ H Hc) as [].
  apply current_Some in Hc as [Hc Hr].
  destruct (put_marked_fields w rid r' c) as (F1 & F2 & F3 & F4 & F5).
  destruct (mark_fields w r') as (M1 & M2 & M3 & M4 & M5).
  apply (inv_intro _ _ rid (mark w r')); [by rewrite <- Hc, <- F1|done|].
  rewrite F3, F4, F5.
  assert (Hg : forall (f : pc -> bool), (forall p, f (wake_idle rid p) = f p) ->
            forall p, f ((if w then wake_idle rid else id) p) = f p)
    by (intros f Hf p; destruct w; [apply Hf|done]).
  split; rewrite ?M1, ?M2, ?M3, ?M4, ?M5, ?Hst, ?Hlt, ?Hact; try done.
  - by rewrite count_callers_fmap by auto.
  - by rewrite count_callers_fmap by auto.
  - intros Hr'. destruct (ri_ready0 Hr') as [?|Hu]; [by left|right]. apply unattended_fmap; auto.
  - apply (owners_wake _ rid r); [done|by rewrite M3|]. intros Ht. by rewrite M5, Htr.
Qed.

(** The backend dropped a READY model that nobody used: the record is FAILED. *)
Lemma lost_inv s rid r failure c :
  cell_inv_with s c -> current c = Some (rid, r) -> r_state r = READY -> c_loaded c = false ->
  cell_inv_with s (put_record rid (r <| r_state := FAILED |> <| r_failure := failure |>) c).
Proof.
  intros H Hc Hst Hld. pose proof (inv_current _ _ _ _ H Hc) as []. apply current_Some in Hc as [Hc Hr].
  destruct (ri_ready0 Hst) as [?|[Hz _]]; [congruence|].
  eapply inv_intro; [done|cbn; by rewrite lookup_insert_eq|]. split; cbn; try done.
  - congruence.
  - split; [done|]. intros Hlt%ri_loading0. congruence.
  - intros _. apply ri_rest0. congruence.
  - apply owners_none; [by eapply owners_absent; [|rewrite Hst; intros [|]]
      |by eapply joiners_woken; [|rewrite Hst; intros [|]]|by intros [|]].
Qed.

(** *** A record nobody uses *)

Record vacant (slack : Z) (callers : gmap nat pc) (loads : gmap nat load_task) (r : residency_record)
    : Prop := {
  va_active : r_active r = 0%Z;
  va_leases : count_callers is_leased callers = 0%Z;
  va_pending : (0 <= r_pending r)%Z /\ (r_pending r = 0%Z \/ (r_pending r <= count_callers is_waiting callers + slack)%Z);
  va_task : r_load_task r = None;
  va_loads : forall t task, loads !! t = Some task -> live (lt_phase task) = false;
  va_owners : forall cid p, callers !! cid = Some p -> is_owner p = false;
  va_joiners : forall cid d t rid w cx, callers !! cid = Some (AwaitJoin d t rid w cx) -> w = true
}.

Definition unused (c : cell) : Prop :=
  current c = None \/ exists rid r, current c = Some (rid, r) /\ r_state r = FAILED.

Lemma own_record_vacant s st uuid c :
  cell_inv_with s c -> unused c ->
  exists c0 rid r0, own_record st uuid c = (c0, rid, r0) /\ c_current c0 = Some rid
    /\ c_callers c0 = c_callers c /\ c_loads c0 = c_loads c /\ c_loaded c0 = c_loaded c
    /\ vacant s (c_callers c) (c_loads c) r0 /\ (current c = None -> r0 = new_record st uuid).
Proof.
  intros H Hu. unfold own_record. destruct (current c) as [[rid r]|] eqn:Hc.
  - destruct Hu as [?|(rid' & r' & ? & Hf)]; [congruence|]. rewrite Hc in *. simplify_eq.
    pose proof (inv_current _ _ _ _ H Hc) as []. apply current_Some in Hc as [Hc Hr].
    assert (Hn : ~ transition (r_state r')) by (rewrite Hf; intros [|]; done).
    assert (Htask : r_load_task r' = None).
    { destruct (r_load_task r') eqn:Ht; [|done]. exfalso. assert (r_state r' = LOADING); [|congruence].
      apply ri_loading0. by eexists. }
    exists c, rid', r'. split_and!; try done. split; try done.
    + apply ri_unused0. auto.
    + rewrite <- ri_active0. apply ri_unused0. auto.
    + lia.
    + intros t task Ht. destruct (live (lt_phase task)) eqn:Hl; [|done]. exfalso.
      assert (r_load_task r' = Some t) by (apply ri_live0; eauto). congruence.
    + by eapply owners_absent.
    + by eapply joiners_woken.
  - destruct (inv_absent _ _ H Hc) as [_ []]. eexists _, _, _. split_and!; try done.
    split; try done. cbn. lia.
Qed.

Lemma vacant_owners s callers loads r r' rid :
  vacant s callers loads r -> ~ transition (r_state r') -> owners_inv callers rid r'.
Proof. intros [] Hn. by apply owners_none. Qed.

Lemma begin_load_inv s now uuid task cx c :
  cell_inv_with s c -> unused c -> c_loads c !! task = None ->
  (0 <= count_callers is_waiting (c_callers c) + s)%Z ->
  cell_inv_with (s + 1) (begin_load now uuid task cx c)
  /\ c_callers (begin_load now uuid task cx c) = c_callers c
  /\ (forall rid r, current (begin_load now uuid task cx c) = Some (rid, r) -> r_state r = LOADING).
Proof.
  intros H Hu Ht Hcount. unfold begin_load.
  destruct (own_record_vacant s LOADING uuid c H Hu) as (c0 & rid & r0 & -> & Hcur & Hcal & Hl & Hb & Hv & _).
  split_and!; [|done|].
  2: { unfold current. cbn. rewrite Hcur, lookup_insert_eq. by intros ?? [= <- <-]. }
  eapply inv_intro; [done|cbn; by rewrite lookup_insert_eq|].
  cbn. rewrite Hcal, Hl. destruct Hv as [].
  split; cbn; try done; try lia.
  - intros t. split.
    + intros (task' & Hlk & Hlive). destruct (decide (t = task)) as [->|Hne]; [done|].
      rewrite lookup_insert_ne in Hlk by done. rewrite (va_loads0 _ _ Hlk) in Hlive. done.
    + intros [= <-]. eexists. by rewrite lookup_insert_eq.
  - apply owners_none; [done|done|]. cbn. by intros [|].
Qed.

Lemma adopt_inv s now uuid hold c :
  cell_inv_with s c -> unused c -> c_loaded c = true ->
  (0 <= count_callers is_waiting (c_callers c) + s)%Z ->
  let c' := adopt now uuid hold c in
  (cell_inv_with (s + Z.b2z hold) c' /\ c_loads c' = c_loads c /\ c_loaded c' = true)
  /\ (exists rid r, current c' = Some (rid, r) /\ r_state r = READY)
  /\ (forall f cid, (forall rid p, f (wake_idle rid p) = f p) ->
        caller_is f (c_callers c') cid = caller_is f (c_callers c) cid).
Proof.
  intros H Hu Hld Hcount. unfold adopt.
  destruct (own_record_vacant s READY uuid c H Hu) as (c0 & rid & r0 & -> & Hcur & Hcal & Hl & Hb & Hv & _).
  match goal with |- context [put_record rid (?r1 <| r_pending := _ |> <| r_idle := false |>) c0] =>
    set (r := r1) end.
  set (w := negb hold). set (r' := if hold then r <| r_pending := (r_pending r + 1)%Z |> <| r_idle := false |> else r).
  assert (Heq : (if hold then put_record rid (r <| r_pending := (r_pending r + 1)%Z |> <| r_idle := false |>) c0
                 else idle_set rid (put_record rid r c0)) = put_marked w rid r' c0) by (by destruct hold).
  cbv zeta. rewrite Heq.
  destruct (put_marked_fields w rid r' c0) as (F1 & F2 & F3 & F4 & F5).
  destruct (mark_fields w r') as (M1 & M2 & M3 & M4 & M5).
  assert (Hr' : r_active r' = r_active r0 /\ r_state r' = READY /\ r_load_task r' = r_load_task r0
                /\ r_pending r' = (r_pending r0 + Z.b2z hold)%Z /\ (hold = true -> r_idle r' = false))
    by (destruct hold; cbn; split_and!; try done; lia).
  destruct Hr' as (A1 & A2 & A3 & A4 & A5).
  assert (Hg : forall (f : pc -> bool), (forall p, f (wake_idle rid p) = f p) ->
            forall p, f ((if w then wake_idle rid else id) p) = f p)
    by (intros f Hf p; destruct w; [apply Hf|done]).
  split_and!.
  - apply (inv_intro _ _ rid (mark w r')); [by rewrite F1|done|]. rewrite F3, F4, F5, Hcal, Hl, Hb.
    destruct Hv as []. split; rewrite ?M1, ?M2, ?M3, ?M4, ?M5, ?A1, ?A2, ?A3, ?A4; try done; try lia.
    + rewrite count_callers_fmap by auto. lia.
    + rewrite count_callers_fmap by auto. destruct va_pending0 as [? [?|?]], hold; simpl; lia.
    + rewrite va_task0. split; [done|]. by intros [].
    + intros t. rewrite va_task0. split; [|done]. intros (task & Ht & Hlive).
      by rewrite (va_loads0 _ _ Ht) in Hlive.
    + by left.
    + intros _ _ Hp. destruct hold; simpl in *; [lia|]. unfold w. by rewrite orb_true_r.
    + apply (owners_wake _ rid r'); [|done|].
      * apply owners_none; [done|done|]. rewrite A2. by intros [|].
      * rewrite A2. by intros [|].
  - by rewrite F4, Hl.
  - by rewrite F5, Hb.
  - exists rid, (mark w r'). split; [apply current_Some; by rewrite F1|]. by rewrite M3.
  - intros f cid Hf. rewrite F3, caller_is_fmap, Hcal; [done|]. by apply Hg.
Qed.

(** *** Ensure, acquire, warm *)

Lemma not_loading_unused s c rid r :
  cell_inv_with s c -> current c = Some (rid, r) -> r_load_task r = None -> r_state r <> LOADING.
Proof.
  intros H Hc Ht Hl. pose proof (inv_current _ _ _ _ H Hc) as [].
  apply ri_loading0 in Hl as [t Hl]. congruence.
Qed.

Definition ensure_ok (s : Z) (hold : bool) (c : cell) (res : ensure_result) : Prop :=
  match res with
  | EnsureError _ => True
  | EnsureReady c' =>
      (cell_inv_with (s + Z.b2z hold) c' /\ c_loads c' = c_loads c /\ c_loaded c' = true)
      /\ (exists rid r, current c' = Some (rid, r) /\ r_state r = READY)
      /\ (forall f cid, (forall rid p, f (wake_idle rid p) = f p) ->
            caller_is f (c_callers c') cid = caller_is f (c_callers c) cid)
  | EnsureWait _ _ c' =>
      cell_inv_with (s + 1) c' /\ c_callers c' = c_callers c
      /\ (forall rid r, current c' = Some (rid, r) -> r_state r = LOADING)
  end.

Lemma adopt_or_load_ok s now uuid task hold cx c :
  cell_inv_with s c -> unused c -> c_loads c !! task = None ->
  (0 <= count_callers is_waiting (c_callers c) + s)%Z ->
  ensure_ok s hold c (adopt_or_load now uuid task hold cx c).
Proof.
  intros H Hu Ht Hcount. unfold adopt_or_load. destruct (c_loaded c) eqn:Hld.
  - by apply adopt_inv.
  - by apply begin_load_inv.
Qed.

Lemma ensure_locked_ok s closing now uuid task hold cx c :
  cell_inv_with s c -> c_loads c !! task = None ->
  (0 <= count_callers is_waiting (c_callers c) + s)%Z ->
  ensure_ok s hold c (ensure_locked closing now uuid task hold cx c).
Proof.
  intros H Ht Hcount. unfold ensure_locked. destruct closing; [done|].
  destruct (current c) as [[rid r]|] eqn:Hc; [|apply adopt_or_load_ok; auto; by left].
  pose proof (inv_current _ _ _ _ H Hc) as Hinv. pose proof Hinv as [].
  pose proof (count_callers_nonneg is_leased (c_callers c)).
  destruct (r_state r) eqn:Hst; try done.
  - destruct (r_load_task r) as [t|] eqn:Hlt.
    + split_and!; [|done|].
      2: { unfold current. cbn. apply current_Some in Hc as [-> _]. rewrite lookup_insert_eq. by intros ?? [= <- <-]. }
      apply (touch_inv s _ false rid r); try done; cbn; rewrite ?orb_false_r; try lia; try done.
    + exfalso. by apply (not_loading_unused _ _ _ _ H Hc Hlt).
  - destruct (c_loaded c) eqn:Hld.
    2: { match goal with |- ensure_ok _ _ _ (adopt_or_load _ _ _ _ _ ?c1) =>
           change (ensure_ok s hold c1 (adopt_or_load now uuid task hold cx c1)) end.
         apply adopt_or_load_ok; try done.
         - apply lost_inv; [done..|by rewrite Hst|done].
         - right. exists rid. eexists. rewrite current_Some. apply current_Some in Hc as [Hc _]. cbn.
           by rewrite lookup_insert_eq. }
    split_and!; try done.
    + destruct hold; apply (touch_inv s _ false rid r); try done; cbn; rewrite ?Hst, ?orb_false_r; try lia; try done.
      by intros [|].
    + exists rid. eexists. split; [apply current_Some; split; [by apply current_Some in Hc as [? _]|cbn; by rewrite lookup_insert_eq]|].
      by destruct hold.
  - apply adopt_or_load_ok; auto. right. eauto.
Qed.

(** A caller that waits takes up one unit of slack. *)
Lemma await_load_inv s cid p joined t cx c :
  cell_inv_with s c -> caller_is is_owner (c_callers c) cid = false ->
  caller_is is_leased (c_callers c) cid = false ->
  s = (1 - Z.b2z (caller_is is_waiting (c_callers c) cid))%Z ->
  (forall rid r, current c = Some (rid, r) -> r_state r = LOADING) ->
  cell_inv (await_load cid p joined t cx c).
Proof.
  intros H Ho Hl Hs Hst. unfold await_load.
  assert (Hgoal : cell_inv (set_caller cid (AwaitLoad p joined t cx) c)).
  { pose proof (set_caller_inv s cid (AwaitLoad p joined t cx) c H Ho Hl eq_refl eq_refl) as Hi.
    rewrite Hs in Hi. simpl in Hi. unfold cell_inv.
    replace 0%Z with (1 - Z.b2z (caller_is is_waiting (c_callers c) cid)
                      + Z.b2z (caller_is is_waiting (c_callers c) cid) - 1)%Z by lia.
    apply Hi; [done..|]. intros _ rid r Hc. rewrite (Hst _ _ Hc). done. }
  destruct joined; [|done]. destruct (c_current c); [|done]. by apply set_caller_publish_inv.
Qed.

Lemma finish_slack cid o c s :
  cell_inv_with s c -> caller_is is_owner (c_callers c) cid = false ->
  caller_is is_leased (c_callers c) cid = false ->
  s = (- Z.b2z (caller_is is_waiting (c_callers c) cid))%Z ->
  cell_inv (set_caller cid (Finished o) c).
Proof.
  intros H Ho Hl Hs. pose proof (set_caller_inv s cid (Finished o) c H Ho Hl eq_refl eq_refl) as Hi.
  simpl in Hi. unfold cell_inv. replace 0%Z with (s + Z.b2z (caller_is is_waiting (c_callers c) cid) - 0)%Z by lia.
  by apply Hi.
Qed.

Lemma slack_nonneg f callers cid : (0 <= count_callers f callers - Z.b2z (caller_is f callers cid))%Z.
Proof.
  pose proof (count_callers_nonneg f callers). destruct (caller_is f callers cid) eqn:Hw; simpl; [|lia].
  apply count_callers_pos in Hw. lia.
Qed.

Lemma owner_wake_idle rid p : is_owner (wake_idle rid p) = is_owner p.
Proof. by destruct p. Qed.

Lemma start_acquire_inv closing now uuid task cid cx c s :
  cell_inv_with s c -> c_loads c !! task = None ->
  caller_is is_owner (c_callers c) cid = false -> caller_is is_leased (c_callers c) cid = false ->
  s = (- Z.b2z (caller_is is_waiting (c_callers c) cid))%Z ->
  cell_inv (start_acquire closing now uuid task cid cx c).
Proof.
  intros H Ht Ho Hl Hs. pose proof (slack_nonneg is_waiting (c_callers c) cid) as Hnn.
  pose proof (ensure_locked_ok s closing now uuid task true cx c H Ht ltac:(lia)) as He.
  unfold start_acquire. destruct (ensure_locked closing now uuid task true cx c) as [c'|j t c'|o]; simpl in He.
  - destruct He as ((Hi & _ & Hld) & (rid & r & Hc & Hst) & Hf).
    apply (take_lease_inv (s + 1) _ _ _ _ rid r); try done; rewrite Hf; auto using owner_wake_idle. lia.
  - destruct He as (Hi & Hc & Hld). apply (await_load_inv (s + 1)); [done|by rewrite Hc..| |done]. rewrite Hc. lia.
  - by apply (finish_slack _ _ _ s).
Qed.

Lemma continue_ready_inv closing now uuid task cid p joined op cx c s rid r :
  cell_inv_with s c -> c_loads c !! task = None -> current c = Some (rid, r) -> r_state r = READY ->
  caller_is is_owner (c_callers c) cid = false -> caller_is is_leased (c_callers c) cid = false ->
  s = (Z.b2z (holds_pending p) - Z.b2z (caller_is is_waiting (c_callers c) cid))%Z -> c_loaded c = true ->
  cell_inv (continue_ready closing now uuid task cid p joined op cx c).
Proof.
  intros H Ht Hc Hst Ho Hl Hs Hld. destruct p; simpl in *.
  - apply (finish_slack _ _ _ s); done.
  - by apply (take_lease_inv s _ _ _ _ rid r).
  - by apply (start_acquire_inv _ _ _ _ _ _ _ s).
Qed.

Lemma start_use_inv closing now uuid task cid p cx c :
  cell_inv c -> c_loads c !! task = None -> c_callers c !! cid = None ->
  cell_inv (start_use closing now uuid task cid p cx c).
Proof.
  intros H Ht Hcid. pose proof (caller_is_new is_waiting _ _ Hcid) as Hw.
  pose proof (caller_is_new is_owner _ _ Hcid) as Ho. pose proof (caller_is_new is_leased _ _ Hcid) as Hl.
  pose proof (count_callers_nonneg is_waiting (c_callers c)).
  pose proof (ensure_locked_ok 0 closing now uuid task (holds_pending p) cx c H Ht ltac:(lia)) as He.
  unfold start_use. destruct (ensure_locked closing now uuid task (holds_pending p) cx c) as [c'|j t c'|o]; simpl in He.
  - destruct He as ((Hi & Hloads & Hld) & (rid & r & Hc & Hst) & Hf).
    apply (continue_ready_inv _ _ _ _ _ _ _ _ _ _ (Z.b2z (holds_pending p)) rid r); try done;
      rewrite ?Hf, ?Hloads; auto using owner_wake_idle. rewrite Hw. simpl. lia.
  - destruct He as (Hi & Hc & Hld). apply (await_load_inv 1); [done|by rewrite Hc..| |done]. by rewrite Hc, Hw.
  - apply (finish_slack _ _ _ 0); try done. by rewrite Hw.
Qed.

Lemma resume_loaded_inv closing now uuid task cid p joined t cx c :
  cell_inv c -> c_loads c !! task = None -> c_callers c !! cid = Some (AwaitLoad p joined t cx) ->
  cell_inv (resume_loaded closing now uuid task cid p joined cx c).
Proof.
  intros H Ht Hcid. pose proof (caller_is_at is_waiting _ _ _ Hcid) as Hw.
  pose proof (caller_is_at is_owner _ _ _ Hcid) as Ho. pose proof (caller_is_at is_leased _ _ _ Hcid) as Hl.
  unfold resume_loaded. destruct (current c) as [[rid r]|] eqn:Hc.
  2: { eapply slack_absent; [exact Hc|]. by apply (set_caller_inv 0 cid (Finished _) c H Ho Hl). }
  pose proof (inv_current _ _ _ _ H Hc) as []. assert (Hpos := count_callers_pos _ _ _ Hw).
  rewrite settle_put.
  destruct (put_marked_fields (rest_now (drop_pending r)) rid (drop_pending r) c) as (F1 & F2 & F3 & F4 & F5).
  assert (Hdropped : cell_inv_with (-1) (put_marked (rest_now (drop_pending r)) rid (drop_pending r) c)).
  { apply (touch_inv 0 _ _ rid r); try done; cbn; try lia.
    - intros [Hi|Hr]%orb_true_iff; [auto|]. unfold rest_now in Hr. cbn in Hr. lia.
    - intros Hnl Ha Hp. apply orb_true_iff. right. unfold rest_now. cbn. lia. }
  assert (Hf : forall f, (forall rid p, f (wake_idle rid p) = f p) ->
            caller_is f (c_callers (put_marked (rest_now (drop_pending r)) rid (drop_pending r) c)) cid
            = caller_is f (c_callers c) cid).
  { intros f Hf. rewrite F3, caller_is_fmap; [done|]. intros q. destruct (rest_now _); [apply Hf|done]. }
  case_bool_decide as Hst; simpl.
  - assert (Hld : c_loaded c = true).
    { destruct (ri_ready0 Hst) as [?|Hu]; [done|]. exfalso. apply (attended (c_callers c) cid); auto. }
    destruct (holds_pending p) eqn:Hp.
    + apply (continue_ready_inv _ _ _ _ _ _ _ _ _ _ 0 rid r); try done. by rewrite Hp, Hw.
    + apply (continue_ready_inv _ _ _ _ _ _ _ _ _ _ (-1) rid (mark (rest_now (drop_pending r)) (drop_pending r)));
        try done; rewrite ?Hf; auto using owner_wake_idle.
      * by rewrite F4.
      * apply current_Some. rewrite F1. split; [by apply current_Some in Hc as [? _]|done].
      * by destruct (rest_now _).
      * by rewrite Hp, Hw.
      * by rewrite F5.
  - apply (finish_slack _ _ _ (-1)); [done|rewrite Hf; auto using owner_wake_idle..|].
    rewrite Hf by auto. by rewrite Hw.
Qed.

Lemma resume_wait_inv closing now uuid task cid c :
  cell_inv c -> c_loads c !! task = None -> cell_inv (resume_wait closing now uuid task cid c).
Proof.
  intros H Ht. unfold resume_wait. destruct (c_callers c !! cid) as [[]|] eqn:Hcid; try done.
  destruct (lt_phase <$> c_loads c !! task0) as [[| | |[e|]]|]; try done.
  - by eapply release_pending_inv.
  - by eapply resume_loaded_inv.
Qed.

(** *** The load task *)

(** A live task is the load of the current record, which nobody uses. *)
Lemma live_task_record c t task :
  cell_inv c -> c_loads c !! t = Some task -> live (lt_phase task) = true ->
  exists rid r, current c = Some (rid, r) /\ r_state r = LOADING /\ r_load_task r = Some t.
Proof.
  intros H Ht Hl. destruct (current c) as [[rid r]|] eqn:Hc.
  - pose proof (inv_current _ _ _ _ H Hc) as []. exists rid, r. split; [done|].
    assert (r_load_task r = Some t) by (apply ri_live0; eauto).
    split; [|done]. apply ri_loading0. by eexists.
  - destruct (inv_absent _ _ H Hc) as [_ []]. rewrite (ai_loads0 _ _ Ht) in Hl. done.
Qed.

Lemma set_phase_live_inv c t task ph :
  cell_inv c -> c_loads c !! t = Some task -> live (lt_phase task) = true -> live ph = true ->
  cell_inv (set_phase t task ph c).
Proof.
  intros H Ht Hl Hph. destruct (live_task_record c t task H Ht Hl) as (rid & r & Hc & _ & _).
  pose proof (inv_current _ _ _ _ H Hc) as []. apply current_Some in Hc as [Hc Hr].
  apply (inv_intro _ _ rid r); [done|done|]. unfold set_phase. cbn. split; try done.
  intros t'. rewrite <- ri_live0. destruct (decide (t' = t)) as [->|Hne].
  - rewrite lookup_insert_eq. split; intros _; eexists; done.
  - by rewrite lookup_insert_ne.
Qed.

Lemma load_started_inv t c : cell_inv c -> cell_inv (load_started t c).
Proof.
  intros H. unfold load_started. destruct (c_loads c !! t) as [task|] eqn:Ht; [|done].
  destruct (lt_phase task) eqn:Hp; try done. unfold publish_use.
  destruct (publish_eq MODEL_LOAD_REQUESTED (lt_rid task) (lt_cx task)
    (r_operation_id <$> c_objects c !! lt_rid task) (cx_capability (lt_cx task)) c) as [l ->].
  apply (set_phase_live_inv (c <| c_events := l |>)); try done. by rewrite Hp.
Qed.

Lemma load_admitted_inv t c : cell_inv c -> cell_inv (load_admitted t c).
Proof.
  intros H. unfold load_admitted. destruct (c_loads c !! t) as [task|] eqn:Ht; [|done].
  destruct (lt_phase task) eqn:Hp; try done. apply set_phase_live_inv; try done. by rewrite Hp.
Qed.

(** The end of the load: the record leaves LOADING for READY or FAILED. *)
Lemma load_end_inv c t task e loaded w rid r r' :
  cell_inv c -> c_loads c !! t = Some task -> live (lt_phase task) = true -> current c = Some (rid, r) ->
  r_state r' = READY /\ loaded = true \/ r_state r' = FAILED ->
  r_load_task r' = None -> r_active r' = r_active r -> r_pending r' = r_pending r ->
  (r_pending r = 0%Z -> w = true) ->
  cell_inv (put_marked w rid r' (set_phase t task (LoadDone e) (c <| c_loaded := loaded |>))).
Proof.
  intros H Ht Hl Hc Hst Hlt Ha Hp Hw.
  destruct (live_task_record c t task H Ht Hl) as (rid' & r0 & Hc' & Hloading & Htask).
  rewrite Hc in Hc'. simplify_eq. pose proof (inv_current _ _ _ _ H Hc) as [].
  assert (Ha0 : r_active r0 = 0%Z) by auto. apply current_Some in Hc as [Hc Hr].
  set (c1 := set_phase t task (LoadDone e) (c <| c_loaded := loaded |>)).
  destruct (put_marked_fields w rid' r' c1) as (F1 & F2 & F3 & F4 & F5).
  destruct (mark_fields w r') as (M1 & M2 & M3 & M4 & M5).
  assert (Hg : forall (f : pc -> bool), (forall p, f (wake_idle rid' p) = f p) ->
            forall p, f ((if w then wake_idle rid' else id) p) = f p)
    by (intros f Hf p; destruct w; [apply Hf|done]).
  assert (Hnt : ~ transition (r_state r0)) by (rewrite Hloading; by intros [|]).
  apply (inv_intro _ _ rid' (mark w r')); [by rewrite F1|done|]. rewrite F3, F4, F5. subst c1. cbn.
  split; rewrite ?M1, ?M2, ?M3, ?M4, ?M5, ?Hlt, ?Ha, ?Hp; try done.
  - rewrite count_callers_fmap by auto. done.
  - rewrite count_callers_fmap by auto. done.
  - split; [intros Hx; destruct Hst as [[? _]|?]; congruence|by intros []].
  - intros t'. split; [|done]. intros (task' & Hlk & Hlive). exfalso.
    destruct (decide (t' = t)) as [->|Hne].
    + rewrite lookup_insert_eq in Hlk. by simplify_eq.
    + rewrite lookup_insert_ne in Hlk by done.
      assert (r_load_task r0 = Some t') by (apply ri_live0; eauto). congruence.
  - intros Hx. left. by destruct Hst as [[_ ?]|?]; [|congruence].
  - intros _ _ Hpz. rewrite (Hw Hpz). by rewrite orb_true_r.
  - assert (Hn' : ~ transition (r_state r')) by (intros [?|?]; destruct Hst as [[? _]|?]; congruence).
    apply (owners_wake _ rid' r'); [|done|done].
    apply owners_none; [by eapply owners_absent|by eapply joiners_woken|done].
Qed.

Lemma load_succeeded_inv now t c : cell_inv c -> cell_inv (load_succeeded now t c).
Proof.
  intros H. unfold load_succeeded. destruct (c_loads c !! t) as [task|] eqn:Ht; [|done].
  destruct (lt_phase task) eqn:Hp; try done.
  assert (Hl : live (lt_phase task) = true) by (by rewrite Hp).
  destruct (live_task_record c t task H Ht Hl) as (rid & r & Hc & _ & _). cbv zeta.
  change (current (set_phase t task (LoadDone None) (c <| c_loaded := true |>))) with (current c).
  rewrite Hc. match goal with |- cell_inv (if ?b then idle_set rid (put_record rid ?r' ?c1) else _) =>
    change (cell_inv (put_marked b rid r' c1)) end.
  eapply load_end_inv; try done; [by left|]. cbn. intros ->. done.
Qed.

Lemma load_failed_inv e loaded t c : cell_inv c -> cell_inv (load_failed e loaded t c).
Proof.
  intros H. unfold load_failed. destruct (c_loads c !! t) as [task|] eqn:Ht; [|done].
  assert (Hgoal : live (lt_phase task) = true ->
    cell_inv (publish_use MODEL_LOAD_FAILED (lt_rid task) (lt_cx task)
      (match current (set_phase t task (LoadDone (Some e)) (c <| c_loaded := loaded |>)) with
       | Some (rid, r) =>
           idle_set rid (put_record rid (r <| r_state := FAILED |> <| r_failure := Some e |>
                                          <| r_load_task := None |>)
             (set_phase t task (LoadDone (Some e)) (c <| c_loaded := loaded |>)))
       | None => set_phase t task (LoadDone (Some e)) (c <| c_loaded := loaded |>)
       end))).
  { intros Hl. destruct (live_task_record c t task H Ht Hl) as (rid & r & Hc & _ & _).
    change (current (set_phase t task (LoadDone (Some e)) (c <| c_loaded := loaded |>))) with (current c).
    rewrite Hc. apply publish_inv.
    match goal with |- cell_inv_with 0 (idle_set rid (put_record rid ?r' ?c1)) =>
      change (cell_inv (put_marked true rid r' c1)) end.
    eapply load_end_inv; try done. by right. }
  destruct (lt_phase task) eqn:Hp; try done; by apply Hgoal.
Qed.

(** *** Unloading *)

(** Who may start or go on with a transition: a new caller, a joiner, or the
    owner itself. *)
Record may_own (c : cell) (cid : nat) : Prop := {
  mo_owner : no_owner_but cid (c_callers c);
  mo_leased : caller_is is_leased (c_callers c) cid = false;
  mo_waiting : caller_is is_waiting (c_callers c) cid = false
}.

Lemma may_own_rest c rid r cid :
  rec_inv 0 (c_callers c) (c_loads c) (c_loaded c) rid r -> ~ transition (r_state r) ->
  caller_is is_leased (c_callers c) cid = false -> caller_is is_waiting (c_callers c) cid = false ->
  may_own c cid.
Proof.
  intros [] Hn Hl Hw. split; [|done|done]. intros cid' p Hp Ho.
  rewrite (owners_absent _ _ _ ri_owners0 Hn _ _ Hp) in Ho. done.
Qed.

Lemma may_own_owner c rid r cid p :
  rec_inv 0 (c_callers c) (c_loads c) (c_loaded c) rid r -> c_callers c !! cid = Some p ->
  is_owner p = true -> may_own c cid.
Proof.
  intros [] Hp Ho. split.
  - intros cid' p' Hp' Ho'. by eapply (ow_unique _ _ _ ri_owners0).
  - unfold caller_is. rewrite Hp. by destruct p.
  - unfold caller_is. rewrite Hp. by destruct p.
Qed.

Lemma old_joiners callers rid r cid d t rid' w cx :
  owners_inv callers rid r -> callers !! cid = Some (AwaitJoin d t rid' w cx) -> w = true \/ rid' = rid.
Proof. intros H Hp. pose proof (ow_ok _ _ _ H _ _ Hp) as Hok. simpl in Hok. naive_solver. Qed.

(** The record enters DRAINING or UNLOADING, owned by [cid]. *)
Lemma enter_inv c c1 cid p1 rid r r' :
  cell_inv c -> current c = Some (rid, r) -> r_state r <> LOADING -> may_own c cid ->
  c_current c1 = c_current c -> c_callers c1 = c_callers c -> c_loads c1 = c_loads c ->
  c_loaded c1 = c_loaded c -> c_objects c1 !! rid = Some r' ->
  r_active r' = r_active r -> r_pending r' = r_pending r -> r_load_task r' = r_load_task r ->
  r_idle r' = r_idle r -> is_owner p1 = true -> pc_ok rid r' p1 -> transition (r_state r') ->
  (r_state r' = UNLOADING -> r_active r = 0%Z) ->
  cell_inv (set_caller cid p1 c1).
Proof.
  intros H Hc Hnl [Hno Hl Hw] E1 E2 E3 E4 E5 Ha Hp Ht Hi Hp1 Hok Htr Hun.
  pose proof (inv_current _ _ _ _ H Hc) as []. apply current_Some in Hc as [Hc Hr].
  assert (Hp1l : is_leased p1 = false /\ is_waiting p1 = false) by (by destruct p1).
  destruct Hp1l as [Hp1l Hp1w].
  apply (inv_intro _ _ rid r'); [cbn; by rewrite E1|done|]. cbn. rewrite E2, E3, E4.
  split; rewrite ?Ha, ?Hp, ?Ht, ?Hi; try done.
  - rewrite count_callers_insert, Hl, Hp1l. simpl. lia.
  - intros [?|[?|?]]; [|auto|]; destruct Htr; congruence.
  - rewrite count_callers_insert, Hw, Hp1w. simpl. lia.
  - rewrite <- ri_loading0. split; [|done]. intros ?. destruct Htr; congruence.
  - intros ?. destruct Htr; congruence.
  - auto.
  - apply owners_enter; try done. intros. by eapply old_joiners.
Qed.

Lemma publish_objects t rid cx op cap c : c_objects (publish t rid cx op cap c) = c_objects c.
Proof. by destruct (publish_eq t rid cx op cap c) as [l ->]. Qed.

Lemma call_backend_unload_inv c c1 cid op joined rid r r' cx :
  cell_inv c -> current c = Some (rid, r) -> r_state r <> LOADING -> may_own c cid ->
  c_current c1 = c_current c -> c_callers c1 = c_callers c -> c_loads c1 = c_loads c ->
  c_loaded c1 = c_loaded c ->
  r_active r' = r_active r -> r_pending r' = r_pending r -> r_load_task r' = r_load_task r ->
  r_idle r' = r_idle r -> r_active r = 0%Z ->
  cell_inv (call_backend_unload cid op joined rid r' cx c1).
Proof.
  intros H Hc Hnl Hmo E1 E2 E3 E4 Ha Hp Ht Hi Hz. unfold call_backend_unload.
  apply set_caller_publish_inv.
  eapply (enter_inv c (put_record rid (r' <| r_state := UNLOADING |>) c1) _ _ rid r
            (r' <| r_state := UNLOADING |>)); try done.
  - cbn. by rewrite lookup_insert_eq.
  - by right.
Qed.

Lemma begin_drain_inv c cid op timed joined rid r cx :
  cell_inv c -> current c = Some (rid, r) -> r_state r <> LOADING -> may_own c cid ->
  cell_inv (begin_drain op cid timed joined rid r cx c).
Proof.
  intros H Hc Hnl Hmo. pose proof (inv_current _ _ _ _ H Hc) as []. unfold begin_drain.
  set (r' := r <| r_state := DRAINING |> <| r_pending_unload := true |> <| r_lifecycle := false |>).
  unfold publish_lifecycle.
  destruct (publish_eq MODEL_DRAIN_REQUESTED rid cx (Some op) (Some "model_lifecycle") (put_record rid r' c)) as [l1 ->].
  match goal with |- context [publish MODEL_DRAINING rid cx ?o ?cap ?c2] =>
    destruct (publish_eq MODEL_DRAINING rid cx o cap c2) as [l2 ->] end.
  destruct (r_idle r') eqn:Hi; simpl.
  - destruct timed; simpl.
    + eapply (enter_inv c _ _ _ rid r r'); try done; [cbn; by rewrite lookup_insert_eq|by left].
    + eapply (call_backend_unload_inv c); try done. by apply ri_idle0.
  - eapply (enter_inv c _ _ _ rid r r'); try done; [cbn; by rewrite lookup_insert_eq|by left].
Qed.

Lemma adopt_for_unload_inv now op c :
  cell_inv c ->
  cell_inv (adopt_for_unload now op c) /\ c_callers (adopt_for_unload now op c) = c_callers c.
Proof.
  intros H. unfold adopt_for_unload. destruct (current c) as [[rid r]|] eqn:Hc; [done|].
  destruct (c_loaded c) eqn:Hld; [|done].
  destruct (own_record_vacant 0 READY op c H (or_introl Hc)) as (c0 & rid & r0 & -> & Hcur & Hcal & Hl & Hb & [] & Hnew).
  specialize (Hnew Hc). subst r0. split; [|done].
  eapply inv_intro; [done|cbn; by rewrite lookup_insert_eq|]. cbn. rewrite Hcal, Hl, Hb.
  pose proof (count_callers_nonneg is_waiting (c_callers c)).
  split; cbn; try done; try lia.
  - intros t. split; [|done]. intros (task & Ht & Hlive). by rewrite (va_loads0 _ _ Ht) in Hlive.
  - by left.
  - apply owners_none; [done|done|]. by intros [|].
Qed.

Lemma unload_locked_inv now op cid drain timed joined cx c :
  cell_inv c -> caller_is is_leased (c_callers c) cid = false ->
  caller_is is_waiting (c_callers c) cid = false -> caller_is is_owner (c_callers c) cid = false ->
  cell_inv (unload_locked now op cid drain timed joined cx c).
Proof.
  intros H0 Hl0 Hw0 Ho0. unfold unload_locked.
  destruct (adopt_for_unload_inv now op c H0) as [H Hcal]. set (c1 := adopt_for_unload now op c) in *.
  assert (Hl : caller_is is_leased (c_callers c1) cid = false) by (by rewrite Hcal).
  assert (Hw : caller_is is_waiting (c_callers c1) cid = false) by (by rewrite Hcal).
  assert (Ho : caller_is is_owner (c_callers c1) cid = false) by (by rewrite Hcal).
  clearbody c1. clear Hcal H0 Hl0 Hw0 Ho0.
  destruct (current c1) as [[rid r]|] eqn:Hc; [|by apply finish_inv].
  pose proof (inv_current _ _ _ _ H Hc) as Hinv. pose proof Hinv as [].
  assert (Hjoin : transition (r_state r) -> cell_inv (set_caller cid (AwaitJoin drain timed rid (r_lifecycle r) cx) c1)).
  { intros Ht. pose proof (set_caller_inv 0 cid (AwaitJoin drain timed rid (r_lifecycle r) cx) c1 H Ho Hl eq_refl eq_refl) as Hs.
    rewrite Hw in Hs. apply Hs; [|intros; congruence|done].
    intros rid' r' Hc'. rewrite Hc in Hc'. simplify_eq. simpl. auto. }
  assert (Hidle : r_state r <> LOADING -> ~ transition (r_state r) ->
    cell_inv (if ((0 <? r_active r)%Z || (0 <? r_pending r)%Z) && negb drain
              then set_caller cid (Finished (LifecycleConflict
                     "The model is actively in use; request drain or retry after usage completes."))
                     (publish_lifecycle MODEL_UNLOAD_BLOCKED rid cx op c1)
              else if drain then begin_drain op cid timed joined rid r cx c1
              else call_backend_unload cid op joined rid (r <| r_lifecycle := false |>) cx c1)).
  { intros Hnl Hnt. assert (Hmo : may_own c1 cid) by (by eapply may_own_rest).
    pose proof (count_callers_nonneg is_leased (c_callers c1)).
    destruct (((0 <? r_active r)%Z || (0 <? r_pending r)%Z) && negb drain) eqn:Hb.
    - apply set_caller_publish_inv. by apply finish_inv.
    - destruct drain; [by apply begin_drain_inv|].
      eapply (call_backend_unload_inv c1); try done. rewrite andb_true_r in Hb. bool_lia. }
  destruct (r_state r) eqn:Hst.
  - by apply finish_inv.
  - apply Hidle; [done|by intros [|]].
  - apply Hjoin. by left.
  - apply Hjoin. by right.
  - apply Hidle; [done|by intros [|]].
Qed.

Lemma wake_lifecycle_joiners callers rid r cid d t rid' w cx :
  owners_inv callers rid r ->
  (wake_lifecycle rid <$> callers) !! cid = Some (AwaitJoin d t rid' w cx) -> w = true.
Proof.
  intros H Hp. rewrite lookup_fmap in Hp. destruct (callers !! cid) as [q|] eqn:Hq; [|done].
  simpl in Hp. injection Hp as Hp. destruct q; try done. simpl in Hp. injection Hp as <- <- <- <- <-.
  case_decide; [done|]. pose proof (ow_ok _ _ _ H _ _ Hq) as Hok. simpl in Hok. naive_solver.
Qed.

Lemma wake_lifecycle_owners callers rid cid :
  no_owner_but cid callers -> no_owner_but cid (wake_lifecycle rid <$> callers).
Proof.
  intros H cid' p Hp Ho. rewrite lookup_fmap in Hp. destruct (callers !! cid') as [q|] eqn:Hq; [|done].
  simpl in Hp. injection Hp as <-. apply (H cid' q Hq). by destruct q.
Qed.

(** The owner [cid] ends its transition: the record is READY or FAILED again. *)
Lemma leave_inv c cid p o loaded rid r r' :
  cell_inv c -> current c = Some (rid, r) -> c_callers c !! cid = Some p -> is_owner p = true ->
  r_active r' = r_active r -> r_pending r' = r_pending r -> r_load_task r' = r_load_task r ->
  r_idle r' = r_idle r ->
  (r_state r' = READY /\ (loaded = true \/ unattended (c_callers c)))
  \/ (r_state r' = FAILED /\ r_active r = 0%Z) ->
  cell_inv (set_caller cid (Finished o) (lifecycle_set rid (put_record rid r' (c <| c_loaded := loaded |>)))).
Proof.
  intros H Hc Hp Ho Ha Hpe Ht Hi Hst.
  pose proof (inv_current _ _ _ _ H Hc) as Hinv. destruct (may_own_owner _ _ _ _ _ Hinv Hp Ho) as [Hno Hl Hw].
  pose proof Hinv as []. apply current_Some in Hc as [Hc Hr].
  assert (Htr : transition (r_state r)).
  { pose proof (ow_ok _ _ _ ri_owners0 _ _ Hp) as Hok. unfold transition. destruct p; simpl in *; naive_solver. }
  assert (Hnl : r_state r <> LOADING) by (intros ?; destruct Htr; congruence).
  assert (Hntask : r_load_task r = None).
  { destruct (r_load_task r) eqn:Hlt; [|done]. exfalso. apply Hnl, ri_loading0. by eexists. }
  apply (inv_intro _ _ rid (r' <| r_lifecycle := true |>)).
  - done.
  - cbn. by rewrite lookup_alter_eq, lookup_insert_eq.
  - unfold set_caller. cbn. split; cbn; rewrite ?Ha, ?Hpe, ?Ht, ?Hi; try done.
    + rewrite count_callers_insert, count_callers_fmap, caller_is_fmap, Hl by auto. simpl. lia.
    + intros [?|[?|?]]; destruct Hst as [[? _]|[? ?]]; congruence.
    + rewrite count_callers_insert, count_callers_fmap, caller_is_fmap, Hw by auto. simpl. lia.
    + rewrite Hntask. split; [intros ?; destruct Hst as [[? _]|[? _]]; congruence|by intros []].
    + intros Hx. destruct Hst as [[_ [?|Hu]]|[? _]]; [by left|right|congruence].
      apply unattended_insert; [|done..]. by apply unattended_fmap; auto.
    + intros _. auto.
    + apply owners_leave; try done.
      * by apply wake_lifecycle_owners.
      * cbn. intros [?|?]; destruct Hst as [[? _]|[? _]]; congruence.
      * intros. by eapply wake_lifecycle_joiners.
Qed.

(** The owner [cid] ends its transition: the record is gone. *)
Lemma vanish_inv c cid p o loaded rid r :
  cell_inv c -> current c = Some (rid, r) -> c_callers c !! cid = Some p -> is_owner p = true ->
  r_state r = UNLOADING ->
  cell_inv (set_caller cid (Finished o) (lifecycle_set rid (pop_record (c <| c_loaded := loaded |>)))).
Proof.
  intros H Hc Hp Ho Hst.
  pose proof (inv_current _ _ _ _ H Hc) as Hinv. destruct (may_own_owner _ _ _ _ _ Hinv Hp Ho) as [Hno Hl Hw].
  pose proof Hinv as [].
  assert (Hntask : r_load_task r = None).
  { destruct (r_load_task r) eqn:Hlt; [|done]. exfalso. assert (r_state r = LOADING); [|congruence].
    apply ri_loading0. by eexists. }
  apply inv_none; [done|]. unfold set_caller. cbn. split.
  - rewrite count_callers_insert, count_callers_fmap, caller_is_fmap, Hl by auto. simpl.
    rewrite <- ri_active0, ri_unused0; [done|auto].
  - intros t task Ht. destruct (live (lt_phase task)) eqn:Hlive; [|done]. exfalso.
    assert (r_load_task r = Some t) by (apply ri_live0; eauto). congruence.
  - intros cid' q Hq. destruct (decide (cid' = cid)) as [->|Hne].
    + rewrite lookup_insert_eq in Hq. by simplify_eq.
    + rewrite lookup_insert_ne in Hq by done. destruct (is_owner q) eqn:Hoq; [|done]. exfalso. apply Hne.
      by eapply (wake_lifecycle_owners _ rid _ Hno).
  - intros cid' d t rid' w cx Hq. destruct (decide (cid' = cid)) as [->|Hne].
    + by rewrite lookup_insert_eq in Hq.
    + rewrite lookup_insert_ne in Hq by done. by eapply wake_lifecycle_joiners.
Qed.

(** An owner's transition is the current record's. *)
Lemma owner_record c cid p :
  cell_inv c -> c_callers c !! cid = Some p -> is_owner p = true ->
  exists rid r, current c = Some (rid, r) /\ pc_ok rid r p
    /\ rec_inv 0 (c_callers c) (c_loads c) (c_loaded c) rid r.
Proof.
  intros H Hp Ho. destruct (current c) as [[rid r]|] eqn:Hc.
  - pose proof (inv_current _ _ _ _ H Hc) as Hinv. exists rid, r. split_and!; try done.
    apply (ow_ok _ _ _ (ri_owners _ _ _ _ _ _ Hinv) _ _ Hp).
  - destruct (inv_absent _ _ H Hc) as [_ []]. rewrite (ai_owners0 _ _ Hp) in Ho. done.
Qed.

Lemma stop_drain_inv timed_out cid c :
  cell_inv c -> c_loaded c = true \/ unattended (c_callers c) -> cell_inv (stop_drain timed_out cid c).
Proof.
  intros H Hld. unfold stop_drain. destruct (c_callers c !! cid) as [p|] eqn:Hp; [|done].
  destruct p; try done. destruct (owner_record _ _ _ H Hp eq_refl) as (rid' & r & Hc & (-> & Hst & _) & _).
  rewrite Hc, bool_decide_eq_true_2 by done.
  pose proof (leave_inv c cid _ (if timed_out
                   then LifecycleConflict "Timed out waiting for active model usage to drain."
                   else Cancelled) (c_loaded c) rid' r
    (r <| r_state := READY |> <| r_pending_unload := false |>) H Hc Hp eq_refl) as Hl.
  unfold cell_inv, cell_inv_with in *. cbn in *. apply Hl; try done. by left.
Qed.

Lemma resume_drain_inv op cid c : cell_inv c -> cell_inv (resume_drain op cid c).
Proof.
  intros H. unfold resume_drain. destruct (c_callers c !! cid) as [p|] eqn:Hp; [|done].
  destruct p as [| | |rid w joined cx| |]; try done. destruct w; [|done].
  destruct (owner_record _ _ _ H Hp eq_refl) as (rid' & r & Hc & (-> & Hst & Hw) & Hinv).
  rewrite Hc. eapply (call_backend_unload_inv c); try done.
  - rewrite Hst. done.
  - by eapply may_own_owner.
  - by apply (ri_idle _ _ _ _ _ _ Hinv).
Qed.

Lemma unload_succeeded_inv op performed cid c : cell_inv c -> cell_inv (unload_succeeded op performed cid c).
Proof.
  intros H. unfold unload_succeeded. destruct (c_callers c !! cid) as [p|] eqn:Hp; [|done].
  destruct p as [| | | |rid joined cx|]; try done.
  destruct (owner_record _ _ _ H Hp eq_refl) as (rid' & r & Hc & (-> & Hst) & _).
  change (current (c <| c_loaded := false |>)) with (current c). rewrite Hc.
  apply set_caller_publish_inv. by eapply vanish_inv.
Qed.

Lemma unload_failed_inv op e loaded cid c : cell_inv c -> cell_inv (unload_failed op e loaded cid c).
Proof.
  intros H. unfold unload_failed. destruct (c_callers c !! cid) as [p|] eqn:Hp; [|done].
  destruct p as [| | | |rid joined cx|]; try done.
  destruct (owner_record _ _ _ H Hp eq_refl) as (rid' & r & Hc & (-> & Hst) & Hinv).
  change (current (c <| c_loaded := loaded |>)) with (current c). rewrite Hc.
  apply set_caller_publish_inv. eapply leave_inv; try done. right. split; [done|].
  apply (ri_unused _ _ _ _ _ _ Hinv). auto.
Qed.

Lemma unload_cancelled_inv loaded cid c : cell_inv c -> cell_inv (unload_cancelled loaded cid c).
Proof.
  intros H. unfold unload_cancelled. destruct (c_callers c !! cid) as [p|] eqn:Hp; [|done].
  destruct p as [| | | |rid joined cx|]; try done.
  destruct (owner_record _ _ _ H Hp eq_refl) as (rid' & r & Hc & (-> & Hst) & Hinv).
  change (current (c <| c_loaded := loaded |>)) with (current c). rewrite Hc.
  destruct loaded.
  - eapply leave_inv; try done. left. auto.
  - by apply (vanish_inv c cid _ Cancelled false rid' r H Hc Hp).
Qed.

Lemma cell_step_inv closing ev c :
  cell_inv c -> fresh_ids ev c -> backend_keeps ev c -> cell_inv (cell_step closing ev c).
Proof.
  intros H Hf Hb. destruct ev; simpl in *.
  - destruct Hf. by apply start_use_inv.
  - by apply resume_wait_inv.
  - unfold cancel_wait. destruct (c_callers c !! cid) as [[]|] eqn:Hp; try done.
    by eapply release_pending_inv.
  - unfold end_use. destruct (c_callers c !! cid) as [[]|] eqn:Hp; try done. by apply release_lease_inv.
  - by apply load_started_inv.
  - by apply load_admitted_inv.
  - by apply load_succeeded_inv.
  - by apply load_failed_inv.
  - unfold start_unload. pose proof (caller_is_new is_waiting _ _ Hf).
    pose proof (caller_is_new is_owner _ _ Hf). pose proof (caller_is_new is_leased _ _ Hf).
    destruct (drain && _); [by apply finish_inv|by apply unload_locked_inv].
  - unfold resume_join. destruct (c_callers c !! cid) as [[| |d t rid w cx| | |]|] eqn:Hp; try done.
    destruct w; [|done]. apply unload_locked_inv; [done|by rewrite (caller_is_at _ _ _ _ Hp)..].
  - unfold cancel_join. destruct (c_callers c !! cid) as [[| |d t rid w cx| | |]|] eqn:Hp; try done.
    apply finish_inv; [done|by rewrite (caller_is_at _ _ _ _ Hp)..].
  - by apply stop_drain_inv.
  - by apply resume_drain_inv.
  - by apply unload_succeeded_inv.
  - by apply unload_failed_inv.
  - by apply unload_cancelled_inv.
  - destruct (current c) as [[rid r]|] eqn:Hc.
    + pose proof (inv_current _ _ _ _ H Hc) as []. pose proof Hc as [Hc' Hr]%current_Some.
      eapply inv_intro; [done|done|]. split; try done. cbn. intros Hst.
      destruct loaded; [by left|right]. by apply (Hb rid r).
    + destruct (inv_absent _ _ H Hc) as [Hn Ha]. by apply inv_none.
Qed.

(** ** The lifecycle the manager implements *)

(** What the users of a model see: the state of its residency, if any, and how
    many leases are held. *)
Definition lifecycle : Type := option residency_state * Z.

(** What can happen to a model.  [LoseModel] is the reconciliation of a READY
    record whose model the backend dropped. *)
Inductive action :=
| BeginLoad | EndLoad | FailLoad | AdoptModel | LoseModel
| GrantLease | EndLease
| BeginDrain | AbandonDrain
| BeginUnload | EndUnload | FailUnload | AbandonUnload.

(** When an action is possible, and its effect: a lease is taken only in READY
    and kept in READY or DRAINING, a load starts only when the model is absent or
    FAILED, and nothing loads, reconciles or unloads a model while a lease of it is
    held. *)
Definition perform (a : action) (l : lifecycle) : option lifecycle :=
  match a, l with
  | BeginLoad, ((None | Some FAILED), 0%Z) => Some (Some LOADING, 0%Z)
  | EndLoad, (Some LOADING, 0%Z) => Some (Some READY, 0%Z)
  | FailLoad, (Some LOADING, 0%Z) => Some (Some FAILED, 0%Z)
  | AdoptModel, ((None | Some FAILED), 0%Z) => Some (Some READY, 0%Z)
  | LoseModel, (Some READY, 0%Z) => Some (Some FAILED, 0%Z)
  | GrantLease, (Some READY, n) => Some (Some READY, (n + 1)%Z)
  | EndLease, (Some ((READY | DRAINING) as s), n) =>
      if (0 <? n)%Z then Some (Some s, (n - 1)%Z) else None
  | BeginDrain, (Some (READY | FAILED), n) => Some (Some DRAINING, n)
  | AbandonDrain, (Some DRAINING, n) => Some (Some READY, n)
  | BeginUnload, (Some (READY | DRAINING | FAILED), 0%Z) => Some (Some UNLOADING, 0%Z)
  | EndUnload, (Some UNLOADING, 0%Z) => Some (None, 0%Z)
  | FailUnload, (Some UNLOADING, 0%Z) => Some (Some FAILED, 0%Z)
  | AbandonUnload, (Some UNLOADING, 0%Z) => Some (Some READY, 0%Z)
  | _, _ => None
  end.

(** The actions in order; [None] when one of them is not possible. *)
Fixpoint run_actions (acts : list action) (l : lifecycle) : option lifecycle :=
  match acts with
  | [] => Some l
  | a :: acts' => match perform a l with Some l' => run_actions acts' l' | None => None end
  end.

Definition state_of (c : cell) : option residency_state := (fun x => r_state x.2) <$> current c.

Definition lifecycle_of (c : cell) : lifecycle := (state_of c, count_callers is_leased (c_callers c)).

(** What a new use does, that takes a lease or only ensures residency. *)
Definition use_actions (closing lease : bool) (c : cell) : list action :=
  let leases := if lease then [GrantLease] else [] in
  if closing then []
  else
    match state_of c with
    | None | Some FAILED => if c_loaded c then AdoptModel :: leases else [BeginLoad]
    | Some READY => if c_loaded c then leases else [LoseModel; BeginLoad]
    | Some (LOADING | DRAINING | UNLOADING) => []
    end.

(** What an unload does that finds no lifecycle operation to join.  A drain goes
    on to the backend at once when the idle event is set and no timeout is given. *)
Definition unload_actions (drain timed : bool) (c : cell) : list action :=
  let go (idle busy : bool) :=
    if drain then BeginDrain :: (if idle && negb timed then [BeginUnload] else [])
    else if busy then [] else [BeginUnload] in
  match current c with
  | None => if c_loaded c then AdoptModel :: go true false else []
  | Some (_, r) =>
      match r_state r with
      | READY | FAILED =>
          go (r_idle r) ((0 <? count_callers is_leased (c_callers c))%Z || (0 <? r_pending r)%Z)
      | LOADING | DRAINING | UNLOADING => []
      end
  end.

(** What each step of a cell does to the model. *)
Definition actions (closing : bool) (ev : cell_event) (c : cell) : list action :=
  match ev with
  | StartUse _ _ _ _ p _ => use_actions closing (negb (bool_decide (p = Ensure))) c
  | ResumeWait _ _ _ cid =>
      match c_callers c !! cid with
      | Some (AwaitLoad p _ t _) =>
          match lt_phase <$> c_loads c !! t, state_of c, p with
          | Some (LoadDone None), Some READY, Acquire => [GrantLease]
          | Some (LoadDone None), Some READY, Warm => use_actions closing true c
          | _, _, _ => []
          end
      | _ => []
      end
  | EndUse _ cid => if caller_is is_leased (c_callers c) cid then [EndLease] else []
  | LoadSucceeded _ t => match lt_phase <$> c_loads c !! t with Some InBackend => [EndLoad] | _ => [] end
  | LoadFailed _ _ t =>
      match lt_phase <$> c_loads c !! t with Some (WaitSlot | InBackend) => [FailLoad] | _ => [] end
  | StartUnload _ _ _ drain timeout _ =>
      if drain && match timeout with Some t => (t <=? 0)%Z | None => false end then []
      else unload_actions drain (bool_decide (is_Some timeout)) c
  | ResumeJoin _ _ cid =>
      match c_callers c !! cid with
      | Some (AwaitJoin drain timed _ true _) => unload_actions drain timed c
      | _ => []
      end
  | StopDrain _ cid => match c_callers c !! cid with Some (AwaitIdle _ _ _ _) => [AbandonDrain] | _ => [] end
  | ResumeDrain _ cid => match c_callers c !! cid with Some (AwaitIdle _ true _ _) => [BeginUnload] | _ => [] end
  | UnloadSucceeded _ _ cid => match c_callers c !! cid with Some (AwaitUnload _ _ _) => [EndUnload] | _ => [] end
  | UnloadFailed _ _ _ cid => match c_callers c !! cid with Some (AwaitUnload _ _ _) => [FailUnload] | _ => [] end
  | UnloadCancelled loaded cid =>
      match c_callers c !! cid with
      | Some (AwaitUnload _ _ _) => [if loaded then AbandonUnload else EndUnload]
      | _ => []
      end
  | CancelWait _ | LoadStarted _ | LoadAdmitted _ | CancelJoin _ | BackendChange _ => []
  end.

(** What the record counts. *)
Definition counted (c : cell) : lifecycle :=
  match current c with Some (_, r) => (Some (r_state r), r_active r) | None => (None, 0%Z) end.

Lemma state_of_counted c : state_of c = (counted c).1.
Proof. unfold state_of, counted. by destruct (current c) as [[rid r]|]. Qed.

Lemma lifecycle_of_counted c : cell_inv c -> lifecycle_of c = counted c.
Proof.
  intros H. unfold lifecycle_of, state_of, counted. destruct (current c) as [[rid r]|] eqn:Hc; simpl.
  - by rewrite (ri_active _ _ _ _ _ _ (inv_current _ _ _ _ H Hc)).
  - by rewrite (ai_leases _ _ (proj2 (inv_absent _ _ H Hc))).
Qed.

(** *** What an operation does to the counted lifecycle *)

Lemma counted_set_caller cid p c : counted (set_caller cid p c) = counted c.
Proof. done. Qed.

Lemma counted_publish t rid cx op cap c : counted (publish t rid cx op cap c) = counted c.
Proof. by destruct (publish_eq t rid cx op cap c) as [l ->]. Qed.

Lemma counted_publish_use t rid cx c : counted (publish_use t rid cx c) = counted c.
Proof. apply counted_publish. Qed.

Lemma counted_publish_lifecycle t rid cx op c : counted (publish_lifecycle t rid cx op c) = counted c.
Proof. apply counted_publish. Qed.

Lemma counted_alter (f : residency_record -> residency_record) rid c c' :
  (forall r, r_state (f r) = r_state r /\ r_active (f r) = r_active r) ->
  c_current c' = c_current c -> c_objects c' = alter f rid (c_objects c) -> counted c' = counted c.
Proof.
  intros Hf E1 E2. unfold counted, current. rewrite E1, E2. destruct (c_current c) as [rid'|]; [|done].
  destruct (decide (rid' = rid)) as [->|Hne].
  - rewrite lookup_alter_eq. destruct (c_objects c !! rid) as [r|]; [|done]. simpl.
    by destruct (Hf r) as [-> ->].
  - by rewrite lookup_alter_ne.
Qed.

Lemma counted_idle_set rid c : counted (idle_set rid c) = counted c.
Proof. by apply (counted_alter (fun r => r <| r_idle := true |>) rid). Qed.

Lemma counted_lifecycle_set rid c : counted (lifecycle_set rid c) = counted c.
Proof. by apply (counted_alter (fun r => r <| r_lifecycle := true |>) rid). Qed.

Lemma counted_settle_idle rid c : counted (settle_idle rid c) = counted c.
Proof.
  unfold settle_idle. destruct (c_objects c !! rid); [|done]. case_match; [apply counted_idle_set|done].
Qed.

Lemma counted_put rid r c :
  c_current c = Some rid -> counted (put_record rid r c) = (Some (r_state r), r_active r).
Proof. intros Hc. unfold counted, current. cbn. by rewrite Hc, lookup_insert_eq. Qed.

Lemma counted_put_current rid r r0 c :
  current c = Some (rid, r0) -> counted (put_record rid r c) = (Some (r_state r), r_active r).
Proof. intros [Hc _]%current_Some. by apply counted_put. Qed.

Lemma counted_current rid r c : current c = Some (rid, r) -> counted c = (Some (r_state r), r_active r).
Proof. intros Hc. unfold counted. by rewrite Hc. Qed.

Lemma counted_absent c : current c = None -> counted c = (None, 0%Z).
Proof. intros Hc. unfold counted. by rewrite Hc. Qed.

#[export] Hint Rewrite counted_set_caller counted_publish counted_publish_use counted_publish_lifecycle
  counted_idle_set counted_lifecycle_set counted_settle_idle : counted.

(** The record facts the lifecycle rests on. *)
Record sound (c : cell) : Prop := {
  so_nonneg : (0 <= (counted c).2)%Z;
  so_unused : (counted c).1 <> Some READY -> (counted c).1 <> Some DRAINING -> (counted c).2 = 0%Z;
  so_lost : (counted c).1 = Some READY -> c_loaded c = false -> (counted c).2 = 0%Z;
  so_loading : forall rid r, current c = Some (rid, r) -> r_state r = LOADING -> is_Some (r_load_task r)
}.

Lemma sound_inv s c : cell_inv_with s c -> sound c.
Proof.
  intros H. destruct (current c) as [[rid r]|] eqn:Hc.
  - pose proof (inv_current _ _ _ _ H Hc) as []. pose proof (count_callers_nonneg is_leased (c_callers c)).
    split; rewrite ?(counted_current _ _ _ Hc); simpl.
    + lia.
    + intros Hr Hd. apply ri_unused0. destruct (r_state r); auto; congruence.
    + intros [= Hst] Hl. destruct (ri_ready0 Hst) as [?|[? _]]; congruence.
    + intros rid' r' Hc' Hst. rewrite Hc in Hc'. simplify_eq. by apply ri_loading0.
  - split; rewrite ?(counted_absent _ Hc); simpl; try done. intros. congruence.
Qed.

(** [c'] comes from [c] by these actions. *)
Definition does (acts : list action) (c c' : cell) : Prop :=
  run_actions acts (counted c) = Some (counted c').

Lemma does_same c c' : counted c' = counted c -> does [] c c'.
Proof. unfold does. by intros ->. Qed.

Lemma does_app acts1 acts2 c c1 c' : does acts1 c c1 -> does acts2 c1 c' -> does (acts1 ++ acts2) c c'.
Proof.
  unfold does. generalize (counted c). induction acts1 as [|a acts1 IH]; intros l H1 H2; simpl in *.
  - by simplify_eq.
  - destruct (perform a l); [|done]. by apply IH.
Qed.

Lemma does_eq acts c c1 c2 : does acts c c1 -> counted c2 = counted c1 -> does acts c c2.
Proof. unfold does. by intros H ->. Qed.

Lemma take_lease_does now cid cx c : state_of c = Some READY -> does [GrantLease] c (take_lease now cid cx c).
Proof.
  rewrite state_of_counted. intros Hst. unfold does, take_lease.
  destruct (current c) as [[rid r]|] eqn:Hc; [|by rewrite (counted_absent _ Hc) in Hst].
  rewrite (counted_current _ _ _ Hc) in *. injection Hst as Hst. rewrite bool_decide_eq_true_2 by done.
  autorewrite with counted. rewrite (counted_put_current _ _ _ _ Hc). cbn. by rewrite Hst.
Qed.

Lemma own_record_counted st uuid c :
  unused c -> sound c -> exists c0 rid r0, own_record st uuid c = (c0, rid, r0)
    /\ c_current c0 = Some rid /\ r_active r0 = 0%Z /\ c_loaded c0 = c_loaded c
    /\ exists s, counted c = (s, 0%Z) /\ (s = None \/ s = Some FAILED).
Proof.
  intros Hu []. unfold own_record. destruct (current c) as [[rid r]|] eqn:Hc.
  - destruct Hu as [?|(rid' & r' & ? & Hf)]; [congruence|]. rewrite Hc in *. simplify_eq.
    rewrite (counted_current _ _ _ Hc), Hf in *. simpl in *.
    assert (r_active r' = 0%Z) as Hz by by apply so_unused0.
    exists c, rid', r'. rewrite Hz. apply current_Some in Hc as [Hc _]. split_and!; try done. by eauto.
  - eexists _, _, _. rewrite (counted_absent _ Hc). split_and!; try done. eauto.
Qed.

(** The record is ready for a use of a model the backend holds. *)
Record usable (c : cell) : Prop := {
  us_sound : sound c;
  us_ready : state_of c = Some READY;
  us_loaded : c_loaded c = true
}.

Lemma adopt_or_load_does now uuid task hold cx c :
  unused c -> sound c ->
  match adopt_or_load now uuid task hold cx c with
  | EnsureReady c' => c_loaded c = true /\ does [AdoptModel] c c' /\ usable c'
  | EnsureWait _ _ c' => c_loaded c = false /\ does [BeginLoad] c c'
  | EnsureError _ => False
  end.
Proof.
  intros Hu Hs. unfold adopt_or_load, adopt, begin_load. destruct (c_loaded c) eqn:Hld.
  - destruct (own_record_counted READY uuid c Hu Hs) as (c0 & rid & r0 & -> & Hc & Hz & Hl & st & Hco & Hst).
    cbn beta iota zeta. match goal with |- _ /\ does _ _ ?c' /\ _ => set (c1 := c') end.
    assert (Hn : counted c1 = (Some READY, 0%Z)); [|assert (Hl1 : c_loaded c1 = c_loaded c0)].
    + subst c1. destruct hold; autorewrite with counted; rewrite counted_put by done; cbn; by rewrite Hz.
    + subst c1. by destruct hold.
    + clearbody c1. split; [done|split; [|split]].
      * unfold does. rewrite Hco, Hn. by destruct Hst as [->| ->].
      * split; rewrite ?Hn; try done. intros rid' r' Hc' Hr. rewrite (counted_current _ _ _ Hc') in Hn. congruence.
      * by rewrite state_of_counted, Hn.
      * congruence.
  - destruct (own_record_counted LOADING uuid c Hu Hs) as (c0 & rid & r0 & -> & Hc & Hz & Hl & st & Hco & Hst).
    cbn beta iota zeta. split; [done|]. unfold does. rewrite Hco. unfold counted, current. cbn.
    rewrite Hc, lookup_insert_eq. cbn. rewrite Hz. by destruct Hst as [->| ->].
Qed.

(** A record that keeps its state and its leases. *)
Lemma touch_does rid r r' c :
  current c = Some (rid, r) -> sound c -> r_state r' = r_state r -> r_active r' = r_active r ->
  r_load_task r' = r_load_task r ->
  counted (put_record rid r' c) = counted c /\ sound (put_record rid r' c).
Proof.
  intros Hc [] Hst Ha Ht. assert (Hn : counted (put_record rid r' c) = counted c).
  { by rewrite (counted_put_current _ _ _ _ Hc), (counted_current _ _ _ Hc), Hst, Ha. }
  split; [done|]. split; rewrite ?Hn; try done.
  intros rid' r1 Hc' Hl. pose proof (so_loading0 _ _ Hc) as Hlt. apply current_Some in Hc as [Hc _].
  unfold current in Hc'. cbn in Hc'. rewrite Hc, lookup_insert_eq in Hc'. simplify_eq.
  rewrite Ht. apply Hlt. congruence.
Qed.

(** The model of a READY record that the backend dropped is reconciled. *)
Lemma lose_does rid r failure c :
  current c = Some (rid, r) -> r_state r = READY -> c_loaded c = false -> sound c ->
  let c1 := put_record rid (r <| r_state := FAILED |> <| r_failure := failure |>) c in
  does [LoseModel] c c1 /\ sound c1 /\ unused c1.
Proof.
  intros Hc Hst Hld []. assert (Hz : r_active r = 0%Z).
  { rewrite (counted_current _ _ _ Hc), Hst in so_lost0. by apply so_lost0. }
  cbv zeta. set (r' := r <| r_state := FAILED |> <| r_failure := failure |>).
  assert (Hn : counted (put_record rid r' c) = (Some FAILED, 0%Z)).
  { rewrite (counted_put_current _ _ _ _ Hc). cbn. by rewrite Hz. }
  assert (Hc' : current (put_record rid r' c) = Some (rid, r')).
  { apply current_Some. apply current_Some in Hc as [Hc _]. split; [done|]. cbn. by rewrite lookup_insert_eq. }
  split_and!.
  - unfold does. by rewrite Hn, (counted_current _ _ _ Hc), Hst, Hz.
  - split; rewrite ?Hn; try done. intros rid1 r1 Hc1. rewrite Hc' in Hc1. by simplify_eq.
  - right. eauto.
Qed.

(** [ensure_loaded] under the lock; what is left to a lease comes after it. *)
Lemma ensure_locked_does closing now uuid task hold cx c :
  sound c ->
  match ensure_locked closing now uuid task hold cx c with
  | EnsureReady c' =>
      does (use_actions closing false c) c c' /\ usable c' /\ closing = false
      /\ use_actions closing true c = use_actions closing false c ++ [GrantLease]
  | EnsureWait _ _ c' => forall lease, does (use_actions closing lease c) c c'
  | EnsureError _ => forall lease, use_actions closing lease c = []
  end.
Proof.
  intros Hs. pose proof Hs as []. unfold ensure_locked. destruct closing; [done|].
  assert (Hun : unused c ->
    match adopt_or_load now uuid task hold cx c with
    | EnsureReady c' => does (use_actions false false c) c c' /\ usable c' /\ false = false
        /\ use_actions false true c = use_actions false false c ++ [GrantLease]
    | EnsureWait _ _ c' => forall lease, does (use_actions false lease c) c c'
    | EnsureError _ => forall lease, use_actions false lease c = []
    end).
  { intros Hu. assert (Hst : state_of c = None \/ state_of c = Some FAILED).
    { unfold state_of. destruct Hu as [->|(rid & r & -> & Hf)]; simpl; [by left|right]. by rewrite Hf. }
    pose proof (adopt_or_load_does now uuid task hold cx c Hu Hs) as Ha. unfold use_actions.
    destruct (adopt_or_load _ _ _ _ _ _); [destruct Ha as (-> & Ha)|destruct Ha as (-> & Ha)|done];
      destruct Hst as [->| ->]; naive_solver. }
  destruct (current c) as [[rid r]|] eqn:Hc; [|apply Hun; by left].
  assert (Hso : state_of c = Some (r_state r)) by (unfold state_of; by rewrite Hc).
  destruct (r_state r) eqn:Hst; try (by intros lease; unfold use_actions; rewrite Hso).
  - destruct (r_load_task r) eqn:Ht; [|exfalso; destruct (so_loading0 _ _ eq_refl Hst); congruence].
    intros lease. unfold use_actions. rewrite Hso. apply does_same. by eapply touch_does.
  - unfold use_actions. rewrite Hso. destruct (c_loaded c) eqn:Hld.
    + match goal with |- context [put_record rid ?r1 c] => set (r' := r1) end. destruct (touch_does rid r r' c) as [H1 H2]; try done; try by destruct hold.
      split; [by apply does_same|]. split; [|done]. split; [done| |done].
      by rewrite state_of_counted, H1, (counted_current _ _ _ Hc), <- Hst.
    + match goal with |- context [put_record rid (r <| r_state := FAILED |> <| r_failure := ?f |>) c] =>
        destruct (lose_does rid r f c Hc Hst Hld Hs) as (H1 & H2 & H3) end.
      pose proof (adopt_or_load_does now uuid task hold cx _ H3 H2) as Ha.
      destruct (adopt_or_load _ _ _ _ _ (put_record _ _ _)) as [c1|j t c1|o]; [|intros _|done]; destruct Ha as [Ha1 Ha2].
      * exfalso. cbn in Ha1. congruence.
      * by apply (does_app [LoseModel] [BeginLoad] _ _ _ H1).
  - apply Hun. right. eauto.
Qed.

Lemma await_load_counted cid p joined t cx c : counted (await_load cid p joined t cx c) = counted c.
Proof. unfold await_load. destruct joined, (c_current c); by autorewrite with counted. Qed.

Lemma start_acquire_does closing now uuid task cid cx c :
  sound c -> does (use_actions closing true c) c (start_acquire closing now uuid task cid cx c).
Proof.
  intros Hs. pose proof (ensure_locked_does closing now uuid task true cx c Hs) as He.
  unfold start_acquire. destruct (ensure_locked closing now uuid task true cx c) as [c'|j t c'|o].
  - destruct He as (H1 & [] & _ & ->). eapply does_app; [exact H1|]. by apply take_lease_does.
  - by eapply does_eq, await_load_counted.
  - rewrite He. by apply does_same.
Qed.

Lemma continue_ready_does closing now uuid task cid p joined op cx c :
  sound c -> state_of c = Some READY ->
  does (match p with Ensure => [] | Acquire => [GrantLease] | Warm => use_actions closing true c end) c
    (continue_ready closing now uuid task cid p joined op cx c).
Proof.
  intros Hs Hst. destruct p; simpl; [by apply does_same|by apply take_lease_does|by apply start_acquire_does].
Qed.

Lemma start_use_does closing now uuid task cid p cx c :
  sound c ->
  does (use_actions closing (negb (bool_decide (p = Ensure))) c) c
    (start_use closing now uuid task cid p cx c).
Proof.
  intros Hs. pose proof (ensure_locked_does closing now uuid task (holds_pending p) cx c Hs) as He.
  unfold start_use. destruct (ensure_locked closing now uuid task (holds_pending p) cx c) as [c'|j t c'|o].
  - destruct He as (H1 & [Hs' Hst Hl] & -> & Hu).
    pose proof (continue_ready_does false now uuid task cid p false false cx c' Hs' Hst) as H2.
    assert (Hp : use_actions false (negb (bool_decide (p = Ensure))) c
      = use_actions false false c ++ match p with Ensure => [] | Acquire => [GrantLease]
                                     | Warm => use_actions false true c' end).
    { destruct p; [by rewrite app_nil_r|done|]. change (negb (bool_decide (Warm = Ensure))) with true.
      rewrite Hu. f_equal. unfold use_actions. by rewrite Hst, Hl. }
    rewrite Hp. by eapply does_app.
  - by eapply does_eq, await_load_counted.
  - rewrite He. by apply does_same.
Qed.

Lemma settle_sound rid r r' c :
  current c = Some (rid, r) -> sound c -> r_state r' = r_state r -> r_active r' = r_active r ->
  r_load_task r' = r_load_task r ->
  counted (settle_idle rid (put_record rid r' c)) = counted c /\ sound (settle_idle rid (put_record rid r' c)).
Proof.
  intros Hc Hs H1 H2 H3. rewrite settle_put. destruct (rest_now r') eqn:Hr; simpl.
  - assert (Heq : idle_set rid (put_record rid r' c)
       = put_record rid (r' <| r_idle := true |>) c <| c_callers := wake_idle rid <$> c_callers c |>).
    { unfold idle_set, put_record. cbn. by rewrite alter_insert_eq. }
    rewrite Heq. destruct (touch_does rid r (r' <| r_idle := true |>) c) as [Hst []]; try done.
  - by eapply touch_does.
Qed.

Lemma release_pending_counted c : sound c -> counted (release_pending c) = counted c.
Proof.
  intros Hs. unfold release_pending. destruct (current c) as [[rid r]|] eqn:Hc; [|done].
  destruct (touch_does rid r (drop_pending r) c) as [H1 _]; try done.
  case_bool_decide; [exact H1|]. by rewrite counted_settle_idle.
Qed.

Lemma resume_wait_does closing now uuid task cid c :
  sound c -> does (actions closing (ResumeWait now uuid task cid) c) c (resume_wait closing now uuid task cid c).
Proof.
  intros Hs. unfold resume_wait. cbn [actions].
  destruct (c_callers c !! cid) as [[p j t cx| | | | |]|]; try by apply does_same.
  destruct (lt_phase <$> c_loads c !! t) as [[| | |[e|]]|]; try by apply does_same.
  - apply does_same. autorewrite with counted. by apply release_pending_counted.
  - unfold resume_loaded. destruct (current c) as [[rid r]|] eqn:Hc;
      [|unfold state_of; rewrite Hc; by apply does_same].
    assert (Hso : state_of c = Some (r_state r)) by (unfold state_of; by rewrite Hc). rewrite Hso.
    destruct (settle_sound rid r (drop_pending r) c) as [H1 H2]; try done.
    set (c1 := settle_idle rid (put_record rid (drop_pending r) c)) in *.
    case_bool_decide as Hr; cbn [negb].
    + rewrite Hr. rewrite Hr in Hso.
      assert (Hst1 : state_of c1 = Some READY) by (by rewrite state_of_counted, H1, <- state_of_counted).
      assert (Hl1 : c_loaded c1 = c_loaded c) by (subst c1; rewrite settle_put; by destruct (rest_now _)).
      assert (Hua : use_actions closing true c1 = use_actions closing true c)
        by (unfold use_actions; by rewrite Hst1, Hso, Hl1).
      destruct p; cbn [holds_pending].
      * apply (does_app [] [] _ c1); [by apply does_same|].
        by apply (continue_ready_does closing now uuid task cid Ensure).
      * by apply (continue_ready_does closing now uuid task cid Acquire).
      * apply (does_app [] (use_actions closing true c) _ c1); [by apply does_same|]. rewrite <- Hua.
        by apply (continue_ready_does closing now uuid task cid Warm).
    + destruct (r_state r); try done; by apply does_same.
Qed.

Lemma cancel_wait_does cid c : sound c -> does [] c (cancel_wait cid c).
Proof.
  intros Hs. unfold cancel_wait. destruct (c_callers c !! cid) as [[]|]; try by apply does_same.
  apply does_same. autorewrite with counted. by apply release_pending_counted.
Qed.

Lemma end_use_does now cid c : cell_inv c -> does (actions false (EndUse now cid) c) c (end_use now cid c).
Proof.
  intros H. unfold end_use. cbn [actions]. unfold caller_is.
  destruct (c_callers c !! cid) as [[]|] eqn:Hp; try by apply does_same.
  unfold release_lease. assert (Hl : caller_is is_leased (c_callers c) cid = true) by (unfold caller_is; by rewrite Hp).
  pose proof (count_callers_pos _ _ _ Hl). destruct (current c) as [[rid' r]|] eqn:Hc.
  - pose proof (inv_current _ _ _ _ H Hc) as [].
    unfold does. autorewrite with counted.
    rewrite (counted_put_current _ _ _ _ Hc), (counted_current _ _ _ Hc). cbn. rewrite Z.max_r by lia.
    assert (Hpos : (0 <? r_active r)%Z = true) by lia. rewrite Hpos.
    destruct (r_state r); try done; specialize (ri_unused0 ltac:(auto)); lia.
  - destruct (inv_absent _ _ H Hc) as [_ []]. lia.
Qed.

(** *** Loads and unloads *)

(** A live load task is the load of a record in LOADING, with no leases. *)
Lemma live_task_counted c t task :
  cell_inv c -> c_loads c !! t = Some task -> live (lt_phase task) = true ->
  exists rid r, current c = Some (rid, r) /\ r_active r = 0%Z /\ counted c = (Some LOADING, 0%Z).
Proof.
  intros H Ht Hl. destruct (live_task_record c t task H Ht Hl) as (rid & r & Hc & Hst & _).
  pose proof (inv_current _ _ _ _ H Hc) as []. exists rid, r.
  assert (Hz : r_active r = 0%Z) by auto. by rewrite (counted_current _ _ _ Hc), Hst, Hz.
Qed.

Lemma load_succeeded_does now t c :
  cell_inv c -> does (actions false (LoadSucceeded now t) c) c (load_succeeded now t c).
Proof.
  intros H. unfold load_succeeded. cbn [actions].
  destruct (c_loads c !! t) as [task|] eqn:Ht; [|by apply does_same].
  change (lt_phase <$> Some task) with (Some (lt_phase task)).
  destruct (lt_phase task) eqn:Hp; try by apply does_same.
  destruct (live_task_counted c t task H Ht ltac:(by rewrite Hp)) as (rid & r & Hc & Hz & Hco).
  cbv zeta. change (current (set_phase t task (LoadDone None) (c <| c_loaded := true |>))) with (current c).
  rewrite Hc. apply current_Some in Hc as [Hc _]. unfold does. rewrite Hco.
  case_match; autorewrite with counted; rewrite counted_put by done; cbn; by rewrite Hz.
Qed.

Lemma load_failed_does e loaded t c :
  cell_inv c -> does (actions false (LoadFailed e loaded t) c) c (load_failed e loaded t c).
Proof.
  intros H. unfold load_failed. cbn [actions].
  destruct (c_loads c !! t) as [task|] eqn:Ht; [|by apply does_same].
  change (lt_phase <$> Some task) with (Some (lt_phase task)).
  assert (Hg : live (lt_phase task) = true -> does [FailLoad] c
    (publish_use MODEL_LOAD_FAILED (lt_rid task) (lt_cx task)
      (match current (set_phase t task (LoadDone (Some e)) (c <| c_loaded := loaded |>)) with
       | Some (rid, r) =>
           idle_set rid (put_record rid (r <| r_state := FAILED |> <| r_failure := Some e |>
                                          <| r_load_task := None |>)
             (set_phase t task (LoadDone (Some e)) (c <| c_loaded := loaded |>)))
       | None => set_phase t task (LoadDone (Some e)) (c <| c_loaded := loaded |>)
       end))).
  { intros Hl. destruct (live_task_counted c t task H Ht Hl) as (rid & r & Hc & Hz & Hco).
    change (current (set_phase t task (LoadDone (Some e)) (c <| c_loaded := loaded |>))) with (current c).
    rewrite Hc. apply current_Some in Hc as [Hc _]. unfold does. rewrite Hco. autorewrite with counted.
    rewrite counted_put by done. cbn. by rewrite Hz. }
  destruct (lt_phase task) eqn:Hp; try (by apply does_same); by apply Hg.
Qed.

Lemma call_backend_unload_counted cid op joined rid r cx c :
  c_current c = Some rid -> counted (call_backend_unload cid op joined rid r cx c) = (Some UNLOADING, r_active r).
Proof.
  intros Hc. unfold call_backend_unload. autorewrite with counted. by rewrite counted_put.
Qed.

(** A model nobody leases is unloaded. *)
Lemma call_backend_unload_does cid op joined rid r r' cx c :
  current c = Some (rid, r) -> r_active r = 0%Z -> r_active r' = 0%Z ->
  r_state r <> LOADING -> r_state r <> UNLOADING ->
  does [BeginUnload] c (call_backend_unload cid op joined rid r' cx c).
Proof.
  intros Hc Hz Hz' Hl Hu. unfold does. rewrite (counted_current _ _ _ Hc), Hz.
  apply current_Some in Hc as [Hc _]. rewrite call_backend_unload_counted, Hz' by done.
  by destruct (r_state r).
Qed.

Lemma begin_drain_does op cid timed joined rid r cx c :
  current c = Some (rid, r) -> (r_idle r = true -> r_active r = 0%Z) ->
  r_state r = READY \/ r_state r = FAILED ->
  does (BeginDrain :: if r_idle r && negb timed then [BeginUnload] else []) c
    (begin_drain op cid timed joined rid r cx c).
Proof.
  intros Hc Hi Hst. unfold begin_drain, publish_lifecycle. cbn [r_idle].
  set (r' := r <| r_state := DRAINING |> <| r_pending_unload := true |> <| r_lifecycle := false |>).
  set (c1 := put_record rid r' c).
  assert (Hc1 : current c1 = Some (rid, r')).
  { apply current_Some. apply current_Some in Hc as [Hc _]. split; [done|]. cbn. by rewrite lookup_insert_eq. }
  assert (H1 : does [BeginDrain] c c1).
  { unfold does. rewrite (counted_current _ _ _ Hc), (counted_current _ _ _ Hc1). by destruct Hst as [-> | ->]. }
  apply (does_app [BeginDrain] _ _ c1); [exact H1|]. clear H1.
  destruct (publish_eq MODEL_DRAIN_REQUESTED rid cx (Some op) (Some "model_lifecycle") c1) as [l1 ->].
  match goal with |- context [publish MODEL_DRAINING rid cx ?o ?cap ?c2] =>
    destruct (publish_eq MODEL_DRAINING rid cx o cap c2) as [l2 ->] end.
  change (r_idle r') with (r_idle r). destruct (r_idle r && negb timed) eqn:Hid; [|by apply does_same].
  apply andb_true_iff in Hid as [Hid _].
  match goal with |- does _ _ (call_backend_unload _ _ _ _ _ _ ?c2) =>
    change (does [BeginUnload] c2 (call_backend_unload cid op joined rid r' cx c2)) end.
  apply (call_backend_unload_does cid op joined rid r' r'); try done; cbn; by rewrite Hi.
Qed.

(** The unload of a record no operation is under way on. *)
Lemma unload_locked_does now op cid drain timed joined cx c :
  cell_inv c -> does (unload_actions drain timed c) c (unload_locked now op cid drain timed joined cx c).
Proof.
  intros H0. unfold unload_locked.
  destruct (adopt_for_unload_inv now op c H0) as [H Hcal].
  assert (Hgo : forall c1 rid r, cell_inv c1 -> current c1 = Some (rid, r) ->
    r_state r = READY \/ r_state r = FAILED ->
    does (if drain then BeginDrain :: (if r_idle r && negb timed then [BeginUnload] else [])
          else if (0 <? count_callers is_leased (c_callers c1))%Z || (0 <? r_pending r)%Z then [] else [BeginUnload])
      c1
      (if ((0 <? r_active r)%Z || (0 <? r_pending r)%Z) && negb drain
       then set_caller cid (Finished (LifecycleConflict
              "The model is actively in use; request drain or retry after usage completes."))
              (publish_lifecycle MODEL_UNLOAD_BLOCKED rid cx op c1)
       else if drain then begin_drain op cid timed joined rid r cx c1
       else call_backend_unload cid op joined rid (r <| r_lifecycle := false |>) cx c1)).
  { intros c1 rid r H1 Hc Hst. pose proof (inv_current _ _ _ _ H1 Hc) as [].
    pose proof (count_callers_nonneg is_leased (c_callers c1)).
    destruct drain; [rewrite andb_false_r; by apply begin_drain_does|]. rewrite andb_true_r, <- ri_active0.
    destruct ((0 <? r_active r)%Z || (0 <? r_pending r)%Z) eqn:Hb.
    - apply does_same. by autorewrite with counted.
    - assert (r_active r = 0%Z) by bool_lia.
      eapply call_backend_unload_does; try done; destruct Hst; congruence. }
  unfold unload_actions. destruct (current c) as [[rid r]|] eqn:Hc.
  - unfold adopt_for_unload. rewrite Hc, Hc. destruct (r_state r) eqn:Hst; try (by apply does_same);
      by (apply Hgo; auto).
  - unfold adopt_for_unload, own_record in *. rewrite Hc in *. destruct (c_loaded c) eqn:Hl.
    2: { rewrite Hc. by apply does_same. }
    cbv iota beta in *. match goal with |- does _ _ (match current ?x with _ => _ end) => set (c1 := x) in * end.
    assert (Hc1 : exists r1, current c1 = Some (c_next c, r1) /\ r_state r1 = READY /\ r_active r1 = 0%Z
              /\ r_idle r1 = true /\ r_pending r1 = 0%Z).
    { eexists. rewrite current_Some. subst c1. cbn. by rewrite lookup_insert_eq. }
    destruct Hc1 as (r1 & Hc1 & Hst & Ha & Hi & Hp). rewrite Hc1, Hst.
    specialize (Hgo c1 _ r1 H Hc1 (or_introl Hst)).
    pose proof (inv_current _ _ _ _ H Hc1) as []. rewrite <- ri_active0, Ha, Hp, Hi in Hgo.
    apply (does_app [AdoptModel] _ _ c1); [|by rewrite Ha, Hp].
    unfold does. by rewrite (counted_absent _ Hc), (counted_current _ _ _ Hc1), Hst, Ha.
Qed.

(** What the owner of a transition does to the record it owns. *)
Lemma owner_counted c cid p :
  cell_inv c -> c_callers c !! cid = Some p -> is_owner p = true ->
  exists rid r, current c = Some (rid, r) /\ c_current c = Some rid /\ pc_ok rid r p
    /\ counted c = (Some (r_state r), r_active r) /\ (r_state r = UNLOADING -> r_active r = 0%Z)
    /\ (r_idle r = true -> r_active r = 0%Z).
Proof.
  intros H Hp Ho. destruct (owner_record c cid p H Hp Ho) as (rid & r & Hc & Hok & []).
  exists rid, r. rewrite (counted_current _ _ _ Hc). pose proof Hc as [Hc' _]%current_Some.
  split_and!; try done. auto.
Qed.

Lemma stop_drain_does timed_out cid c :
  cell_inv c -> does (actions false (StopDrain timed_out cid) c) c (stop_drain timed_out cid c).
Proof.
  intros H. unfold stop_drain. cbn [actions]. destruct (c_callers c !! cid) as [[]|] eqn:Hp; try by apply does_same.
  destruct (owner_counted _ _ _ H Hp eq_refl) as (rid' & r & Hc & Hcur & (-> & Hst & _) & Hco & _).
  rewrite Hc, bool_decide_eq_true_2 by done. unfold does. autorewrite with counted.
  by rewrite counted_put, Hco, Hst by done.
Qed.

Lemma resume_drain_does op cid c :
  cell_inv c -> does (actions false (ResumeDrain op cid) c) c (resume_drain op cid c).
Proof.
  intros H. unfold resume_drain. cbn [actions].
  destruct (c_callers c !! cid) as [[| | |rid w j cx| |]|] eqn:Hp; try by apply does_same.
  destruct w; [|by apply does_same].
  destruct (owner_counted _ _ _ H Hp eq_refl) as (rid' & r & Hc & Hcur & (-> & Hst & Hw) & _ & _ & Hi).
  rewrite Hc. eapply call_backend_unload_does; try done; auto; congruence.
Qed.

(** The backend's unload is over, one way or another. *)
Lemma unload_ended_does ev cid rid joined cx c :
  cell_inv c -> c_callers c !! cid = Some (AwaitUnload rid joined cx) ->
  match ev with
  | UnloadSucceeded _ _ cid' | UnloadFailed _ _ _ cid' | UnloadCancelled _ cid' => cid' = cid
  | _ => False
  end -> does (actions false ev c) c (cell_step false ev c).
Proof.
  intros H Hp Hev.
  destruct (owner_counted _ _ _ H Hp eq_refl) as (rid' & r & Hc & Hcur & (-> & Hst) & Hco & Hz & _).
  rewrite Hst, Hz in Hco by done. specialize (Hz Hst).
  assert (Hc' : forall l, current (c <| c_loaded := l |>) = Some (rid', r)) by done.
  unfold does. rewrite Hco. destruct ev; try done; subst; simpl.
  - unfold unload_succeeded. rewrite Hp, Hc'. cbv zeta. by autorewrite with counted.
  - unfold unload_failed. rewrite Hp, Hc'. cbv zeta. autorewrite with counted.
    rewrite counted_put by done. cbn. by rewrite Hz.
  - unfold unload_cancelled. rewrite Hp, Hc'. destruct loaded; cbv zeta; autorewrite with counted.
    + rewrite counted_put by done. cbn. by rewrite Hz.
    + done.
Qed.

Lemma cell_step_does closing ev c : cell_inv c -> does (actions closing ev c) c (cell_step closing ev c).
Proof.
  intros H. pose proof (sound_inv 0 c H) as Hs. destruct ev; simpl.
  - by apply start_use_does.
  - by apply (resume_wait_does closing now uuid task cid).
  - by apply cancel_wait_does.
  - by apply (end_use_does now cid).
  - unfold load_started. destruct (c_loads c !! t) as [task|]; [|by apply does_same].
    destruct (lt_phase task); try (by apply does_same). apply does_same. unfold publish_use.
    by destruct (publish_eq MODEL_LOAD_REQUESTED (lt_rid task) (lt_cx task)
      (r_operation_id <$> c_objects c !! lt_rid task) (cx_capability (lt_cx task)) c) as [l ->].
  - unfold load_admitted. destruct (c_loads c !! t) as [task|]; [|by apply does_same].
    by destruct (lt_phase task); apply does_same.
  - by apply (load_succeeded_does now).
  - by apply (load_failed_does e loaded).
  - unfold start_unload. destruct (drain && _); [by apply does_same|by apply unload_locked_does].
  - unfold resume_join. destruct (c_callers c !! cid) as [[| |d t rid w cx| | |]|] eqn:Hp; try by apply does_same.
    destruct w; [by apply unload_locked_does|by apply does_same].
  - unfold cancel_join. by destruct (c_callers c !! cid) as [[]|]; apply does_same.
  - by apply (stop_drain_does timed_out).
  - by apply (resume_drain_does op).
  - unfold unload_succeeded at 1. destruct (c_callers c !! cid) as [[]|] eqn:Hp; try by apply does_same.
    pose proof (unload_ended_does (UnloadSucceeded op performed cid) cid _ _ _ c H Hp eq_refl) as Hd.
    simpl in Hd. unfold unload_succeeded in Hd. by rewrite Hp in Hd.
  - unfold unload_failed at 1. destruct (c_callers c !! cid) as [[]|] eqn:Hp; try by apply does_same.
    pose proof (unload_ended_does (UnloadFailed op e loaded cid) cid _ _ _ c H Hp eq_refl) as Hd.
    simpl in Hd. unfold unload_failed in Hd. by rewrite Hp in Hd.
  - unfold unload_cancelled at 1. destruct (c_callers c !! cid) as [[]|] eqn:Hp; try by apply does_same.
    pose proof (unload_ended_does (UnloadCancelled loaded cid) cid _ _ _ c H Hp eq_refl) as Hd.
    simpl in Hd. unfold unload_cancelled in Hd. by rewrite Hp in Hd.
  - by apply does_same.
Qed.

(** ** The manager *)

(** A step with new objects for its caller and its load task, in a process where
    the backend keeps the models that are used. *)
Definition allowed (ev : manager_event) (m : manager) : Prop :=
  match ev with
  | OnKey k ev => fresh_ids ev (cell_of k m) /\ backend_keeps ev (cell_of k m)
  | Shutdown => True
  end.

Inductive manager_reachable (runtime_instance_id : string) : manager -> Prop :=
| mr_init : manager_reachable runtime_instance_id (init_manager runtime_instance_id)
| mr_step ev m : manager_reachable runtime_instance_id m -> allowed ev m ->
    manager_reachable runtime_instance_id (manager_step ev m).

Lemma cell_of_step k k' ev m :
  cell_of k (manager_step (OnKey k' ev) m)
  = if decide (k = k') then cell_step (m_closing m) ev (cell_of k m) else cell_of k m.
Proof.
  unfold manager_step, cell_of. cbn. case_decide as Hk; [subst; by rewrite lookup_insert_eq|].
  by rewrite lookup_insert_ne by congruence.
Qed.

Lemma reachable_cell_inv i m k : manager_reachable i m -> cell_inv (cell_of k m).
Proof.
  intros H. induction H as [|ev m H IH Ha].
  - apply init_cell_inv.
  - destruct ev as [k' ev|]; [|exact IH]. rewrite cell_of_step. case_decide; [subst|exact IH].
    destruct Ha. by apply cell_step_inv.
Qed.

(** What a step does to the model of [k]. *)
Definition manager_actions (ev : manager_event) (k : residency_key) (m : manager) : list action :=
  match ev with
  | OnKey k' ev => if decide (k = k') then actions (m_closing m) ev (cell_of k m) else []
  | Shutdown => []
  end.

(** An executable form of [allowed]. *)
Definition is_absent {A} (o : option A) : bool := match o with None => true | Some _ => false end.

Definition unattended_b (callers : gmap nat pc) : bool :=
  (count_callers is_leased callers =? 0)%Z && (count_callers is_waiting callers =? 0)%Z.

Lemma unattended_b_sound callers : unattended_b callers = true -> unattended callers.
Proof. unfold unattended_b, unattended. lia. Qed.

Definition allowed_b (ev : manager_event) (m : manager) : bool :=
  match ev with
  | Shutdown => true
  | OnKey k ev =>
      let c := cell_of k m in
      match ev with
      | StartUse _ _ task cid _ _ => is_absent (c_loads c !! task) && is_absent (c_callers c !! cid)
      | ResumeWait _ _ task _ => is_absent (c_loads c !! task)
      | StartUnload _ _ cid _ _ _ => is_absent (c_callers c !! cid)
      | BackendChange false =>
          match current c with
          | Some (_, r) => negb (bool_decide (r_state r = READY)) || unattended_b (c_callers c)
          | None => true
          end
      | StopDrain _ _ => c_loaded c || unattended_b (c_callers c)
      | _ => true
      end
  end.

Lemma is_absent_None {A} (o : option A) : is_absent o = true -> o = None.
Proof. by destruct o. Qed.

Lemma allowed_b_sound ev m : allowed_b ev m = true -> allowed ev m.
Proof.
  destruct ev as [k ev|]; [|done]. simpl. destruct ev; simpl; try done.
  - intros [H1 H2]%andb_true_iff. by split; [split; apply is_absent_None|].
  - intros H. split; [by apply is_absent_None|done].
  - intros H. split; [by apply is_absent_None|done].
  - intros [H|H]%orb_true_iff; split; auto using unattended_b_sound.
  - destruct loaded; [done|]. intros H. split; [done|]. intros rid r Hc Hst. rewrite Hc in H.
    rewrite bool_decide_eq_true_2 in H by done. by apply unattended_b_sound.
Qed.

Fixpoint run_manager (evs : list manager_event) (m : manager) : manager :=
  match evs with [] => m | ev :: evs' => run_manager evs' (manager_step ev m) end.

Fixpoint run_allowed (evs : list manager_event) (m : manager) : bool :=
  match evs with [] => true | ev :: evs' => allowed_b ev m && run_allowed evs' (manager_step ev m) end.

Lemma reachable_run i evs m :
  manager_reachable i m -> run_allowed evs m = true -> manager_reachable i (run_manager evs m).
Proof.
  revert m. induction evs as [|ev evs IH]; intros m H Hr; [done|]. simpl in *.
  apply andb_true_iff in Hr as [Ha Hr]. apply IH; [|done]. constructor; [done|]. by apply allowed_b_sound.
Qed.

(** ** Properties *)

(** C13. The residency manager refines the lifecycle specification.  The backend
    may lose models between steps, but not one that a caller leases or waits for
    ([backend_keeps]).  In every state reachable so, whatever step any coroutine,
    load task or backend takes, what the users of each model see (the state of its
    residency and how many of them hold a lease) changes by exactly the actions
    [manager_actions] lists for that step, and each of them is possible where it
    happens ([perform]).  So a lease is taken only in READY, a load starts only
    when the model is absent, FAILED or reconciled to FAILED, a model is loaded or
    unloaded only when no lease is held, an unload without drain leaves a model in
    use alone, a drain waits for the leases, and no step touches another model. *)
Theorem residency_refines_lifecycle i m ev k :
  manager_reachable i m -> allowed ev m ->
  run_actions (manager_actions ev k m) (lifecycle_of (cell_of k m))
  = Some (lifecycle_of (cell_of k (manager_step ev m))).
Proof.
  intros H Ha.
  rewrite (lifecycle_of_counted (cell_of k m)) by by eapply reachable_cell_inv.
  rewrite (lifecycle_of_counted (cell_of k (manager_step ev m)))
    by (eapply reachable_cell_inv; by apply (mr_step i)).
  destruct ev as [k' ev|]; [|done]. rewrite cell_of_step. simpl. case_decide; [|done].
  apply (cell_step_does (m_closing m) ev (cell_of k m)). by eapply reachable_cell_inv.
Qed.

(** C14. Leases protect the model, as long as the backend does not drop on its own
    a model that a caller leases or waits for, and still holds it when a drain is
    given up under such a caller ([backend_keeps]; [drain_unloads_under_a_lease]
    shows what happens otherwise).  In every state reachable so: while a caller holds
    a lease, the model is READY (and the backend holds it) or DRAINING, no load of
    it is in flight and no caller is unloading it; at most one caller drains or
    unloads it; and the count of active usages is the number of leases held. *)
Theorem residency_leases_protected i m k cid rid cx :
  manager_reachable i m ->
  c_callers (cell_of k m) !! cid = Some (Leased rid cx) ->
  let c := cell_of k m in
  (exists rid' r, current c = Some (rid', r) /\ r_active r = count_callers is_leased (c_callers c)
     /\ (r_state r = READY /\ c_loaded c = true \/ r_state r = DRAINING))
  /\ (forall t task, c_loads c !! t = Some task -> live (lt_phase task) = false)
  /\ (forall cid' rid' j cx', c_callers c !! cid' <> Some (AwaitUnload rid' j cx'))
  /\ (forall cid1 cid2 p1 p2, c_callers c !! cid1 = Some p1 -> c_callers c !! cid2 = Some p2 ->
        is_owner p1 = true -> is_owner p2 = true -> cid1 = cid2).
Proof.
  intros H Hcid. pose proof (reachable_cell_inv i m k H) as Hinv. cbv zeta. revert Hcid Hinv.
  generalize (cell_of k m). intros c Hcid Hinv.
  assert (Hpos : (1 <= count_callers is_leased (c_callers c))%Z)
    by (apply (count_callers_pos _ _ cid); unfold caller_is; by rewrite Hcid).
  destruct (current c) as [[rid' r]|] eqn:Hc;
    [|destruct (inv_absent _ _ Hinv Hc) as [_ []]; lia].
  pose proof (inv_current _ _ _ _ Hinv Hc) as [].
  assert (Hst : r_state r = READY \/ r_state r = DRAINING)
    by (destruct (r_state r); auto; specialize (ri_unused0 ltac:(auto)); lia).
  split_and!.
  - exists rid', r. split_and!; try done. destruct Hst as [Hst|]; [left|by right].
    destruct (ri_ready0 Hst) as [?|[? _]]; [done|lia].
  - intros t task Ht. destruct (live (lt_phase task)) eqn:Hl; [|done]. exfalso.
    assert (r_load_task r = Some t) as Hlt by (apply ri_live0; eauto).
    assert (r_state r = LOADING) by (apply ri_loading0; by eexists). destruct Hst; congruence.
  - intros cid' rid2 j cx' Hu. pose proof (ow_ok _ _ _ ri_owners0 _ _ Hu) as [_ Hun]. destruct Hst; congruence.
  - apply (ow_unique _ _ _ ri_owners0).
Qed.

(** C15. Nobody waits for nothing.  In every state reachable while the backend does
    not drop on its own a model that a caller leases or waits for: a drain that has not
    been woken is waiting for a caller that holds a lease or waits to take one
    (so once those end, it is woken and unloads); a caller that joined a lifecycle
    operation and has not been woken joined one that some caller still owns; and a
    record in LOADING has a load task in flight. *)
Theorem residency_waits_are_justified i m k :
  manager_reachable i m ->
  let c := cell_of k m in
  (forall cid rid j cx, c_callers c !! cid = Some (AwaitIdle rid false j cx) ->
     exists cid' p, c_callers c !! cid' = Some p /\ (is_leased p || is_waiting p) = true)
  /\ (forall cid d t rid cx, c_callers c !! cid = Some (AwaitJoin d t rid false cx) ->
        exists cid' p, c_callers c !! cid' = Some p /\ is_owner p = true
          /\ c_current c = Some rid)
  /\ (forall rid r, current c = Some (rid, r) -> r_state r = LOADING ->
        exists t task, c_loads c !! t = Some task /\ live (lt_phase task) = true).
Proof.
  intros H. pose proof (reachable_cell_inv i m k H) as Hinv. cbv zeta. revert Hinv.
  generalize (cell_of k m). intros c Hinv. split_and!.
  - intros cid rid j cx Hp.
    destruct (owner_record c cid _ Hinv Hp eq_refl) as (rid' & r & Hc & (-> & Hst & Hi) & []).
    assert (Hsome : (0 < count_callers is_leased (c_callers c) \/ 0 < count_callers is_waiting (c_callers c))%Z).
    { destruct (decide (r_active r = 0%Z)) as [Ha|]; [|pose proof (count_callers_nonneg is_leased (c_callers c)); lia].
      destruct (decide (r_pending r = 0%Z)) as [Hz|]; [|lia]. rewrite ri_rest0 in Hi; congruence. }
    assert (Hex : forall f, (0 < count_callers f (c_callers c))%Z ->
      exists cid' p, c_callers c !! cid' = Some p /\ f p = true).
    { intros f Hf. unfold count_callers in Hf.
      destruct (set_choose_or_empty (callers_where f (c_callers c))) as [[x Hx]|He].
      - exists x. by apply elem_callers_where.
      - apply leibniz_equiv in He. rewrite He, size_empty in Hf. lia. }
    destruct Hsome as [Hs|Hs]; destruct (Hex _ Hs) as (cid' & p & Hp' & Hf); exists cid', p;
      rewrite Hf, ?orb_true_r; done.
  - intros cid d t rid cx Hp. destruct (current c) as [[rid' r]|] eqn:Hc.
    + pose proof (inv_current _ _ _ _ Hinv Hc) as []. apply current_Some in Hc as [Hc _].
      pose proof (ow_ok _ _ _ ri_owners0 _ _ Hp) as [?|[-> Ht]]; [done|].
      destruct (ow_exists _ _ _ ri_owners0 Ht) as (cid' & p & ? & ?). eauto 6.
    + destruct (inv_absent _ _ Hinv Hc) as [_ []]. by specialize (ai_joiners0 _ _ _ _ _ _ Hp).
  - intros rid r Hc Hst. pose proof (inv_current _ _ _ _ Hinv Hc) as [].
    apply ri_loading0 in Hst as [t Ht]. apply ri_live0 in Ht as (task & ? & ?). eauto.
Qed.

(** ** Concrete runs *)

Definition plain_cx : call_ctx := Build_call_ctx (Some "req-1") None None (Some "chat").

Definition model_a : residency_key := ("llamacpp", "qwen-1.5b").

(** Two callers load the model together and one unload drains it. *)
Definition busy_run : list manager_event :=
  [OnKey model_a (StartUse 10 "op-1" 0 0 Acquire plain_cx);
   OnKey model_a (LoadStarted 0);
   OnKey model_a (StartUse 11 "op-2" 1 1 Acquire plain_cx);
   OnKey model_a (LoadAdmitted 0);
   OnKey model_a (LoadSucceeded 12 0);
   OnKey model_a (ResumeWait 13 "op-3" 2 0);
   OnKey model_a (StartUnload 14 "op-4" 2 true None plain_cx);
   OnKey model_a (StartUnload 15 "op-5" 3 false None plain_cx)].

Definition busy : manager := run_manager busy_run (init_manager "instance").

Lemma busy_reachable : manager_reachable "instance" busy.
Proof. apply reachable_run; [constructor|by vm_compute]. Defined.

(** The second waiter finds the model draining; the lease ends and the drain
    unloads; the joined unload finds the model gone. *)
Definition closing_run : list manager_event :=
  [OnKey model_a (ResumeWait 16 "op-6" 3 1);
   OnKey model_a (EndUse 17 0);
   OnKey model_a (ResumeDrain "op-4" 2);
   OnKey model_a (UnloadSucceeded "op-4" true 2);
   OnKey model_a (ResumeJoin 18 "op-5" 3)].

Example busy_then_unloaded :
  let c := cell_of model_a busy in
  let c' := cell_of model_a (run_manager closing_run busy) in
  lifecycle_of c = (Some DRAINING, 1%Z) /\ lifecycle_of c' = (None, 0%Z)
  /\ c_callers c' !! 1 = Some (Finished (RuntimeUnavailable "The model could not be made resident." None))
  /\ c_callers c' !! 2 = Some (Finished (Unloaded false true))
  /\ c_callers c' !! 3 = Some (Finished (Unloaded true false)).
Proof. by vm_compute. Qed.

(** The backend drops a model nobody uses; the next use reconciles and reloads it. *)
Definition idle_dropped : manager :=
  run_manager
    [OnKey model_a (StartUse 10 "op-1" 0 0 Ensure plain_cx);
     OnKey model_a (LoadStarted 0);
     OnKey model_a (LoadAdmitted 0);
     OnKey model_a (LoadSucceeded 12 0);
     OnKey model_a (ResumeWait 13 "op-2" 1 0);
     OnKey model_a (BackendChange false)] (init_manager "instance").

Lemma residency_refines_lifecycle_witness :
  run_actions [EndLease] (Some DRAINING, 1%Z) = Some (Some DRAINING, 0%Z)
  /\ run_actions [LoseModel; BeginLoad] (Some READY, 0%Z) = Some (Some LOADING, 0%Z).
Proof.
  split.
  - apply (residency_refines_lifecycle "instance" busy (OnKey model_a (EndUse 17 0)) model_a).
    + exact busy_reachable.
    + by apply allowed_b_sound.
  - apply (residency_refines_lifecycle "instance" idle_dropped
      (OnKey model_a (StartUse 20 "op-3" 1 1 Acquire plain_cx)) model_a).
    + apply reachable_run; [constructor|by vm_compute].
    + by apply allowed_b_sound.
Defined.

Lemma residency_leases_protected_witness :
  exists rid' r, current (cell_of model_a busy) = Some (rid', r) /\ r_active r = 1%Z.
Proof.
  destruct (residency_leases_protected "instance" busy model_a 0 0 plain_cx) as [(rid' & r & H1 & H2 & _) _].
  - exact busy_reachable.
  - by vm_compute.
  - exists rid', r. split; [exact H1|]. rewrite H2. by vm_compute.
Defined.

Lemma residency_waits_are_justified_witness :
  exists cid p, c_callers (cell_of model_a busy) !! cid = Some p /\ (is_leased p || is_waiting p) = true.
Proof.
  destruct (residency_waits_are_justified "instance" busy model_a busy_reachable) as [H _].
  apply (H 2 0 false plain_cx). by vm_compute.
Defined.

(** When the backend drops a leased model by itself, the next caller reloads it
    over the lease; if that caller is cancelled, the end of the load sets the idle
    event although the lease is held, and a drain then unloads under the lease. *)
Definition dropped_run : list manager_event :=
  [OnKey model_a (StartUse 10 "op-1" 0 0 Acquire plain_cx);
   OnKey model_a (LoadStarted 0);
   OnKey model_a (LoadAdmitted 0);
   OnKey model_a (LoadSucceeded 12 0);
   OnKey model_a (ResumeWait 13 "op-2" 1 0);
   OnKey model_a (BackendChange false);
   OnKey model_a (StartUse 14 "op-3" 1 1 Acquire plain_cx);
   OnKey model_a (CancelWait 1);
   OnKey model_a (LoadStarted 1);
   OnKey model_a (LoadAdmitted 1);
   OnKey model_a (LoadSucceeded 15 1);
   OnKey model_a (StartUnload 16 "op-4" 2 true None plain_cx)].

Example drain_unloads_under_a_lease :
  let c := cell_of model_a (run_manager dropped_run (init_manager "instance")) in
  c_callers c !! 0 = Some (Leased 0 plain_cx) /\ c_callers c !! 2 = Some (AwaitUnload 0 false plain_cx)
  /\ lifecycle_of c = (Some UNLOADING, 1%Z).
Proof. by vm_compute. Qed.

(** The listing is sorted by runtime and model and holds one entry per record. *)
Example list_residencies_sorted :
  let m := run_manager [OnKey ("b", "x") (BackendChange true); OnKey ("b", "x") (StartUse 1 "o" 0 0 Ensure plain_cx);
                        OnKey ("a", "z") (StartUse 2 "p" 0 0 Ensure plain_cx);
                        OnKey ("a", "y") (StartUse 3 "q" 0 0 Acquire plain_cx)] (init_manager "instance") in
  map (fun s => (sn_key s, sn_state s, sn_pending s)) (list_residencies m)
  = [(("a", "y"), LOADING, 1%Z); (("a", "z"), LOADING, 1%Z); (("b", "x"), READY, 0%Z)].
Proof. by vm_compute. Qed.
