(* ===== verification/Operations.v ===== *)
(** Lifecycle operations: [LifecycleOperationManager] of
    src/src/lewlm/runtime/operations.py.

    The manager owns one background task per drain operation.  Its sections under
    [self._lock] do not await and publishing never suspends (EventBus.v), so the
    suspension points are: a new task before its first instruction, the unload
    call inside [_run_drain], and the waits of [cancel], [shutdown] and
    [submit_drain_and_wait] for tasks.  Each stretch between them is one step.
    How the unload ends (Residency.v describes what it does) and whether writing
    the audit log fails are arguments of the steps. *)

From S2P Require Import Prelude PyFloat Json EventSchema Residency.

(** ** Data *)

Inductive operation_status := PENDING | RUNNING | SUCCEEDED | FAILED | CANCELLED.

#[global] Instance operation_status_eq_dec : EqDecision operation_status.
Proof. solve_decision. Defined.

Definition status_value (s : operation_status) : string :=
  match s with
  | PENDING => "pending" | RUNNING => "running" | SUCCEEDED => "succeeded"
  | FAILED => "failed" | CANCELLED => "cancelled"
  end.

(** [LifecycleOperationKind] has one member. *)
Inductive operation_kind := DRAIN_MODEL.

(** [ModelLifecycleResult] of runtime/residency.py. *)
Record lifecycle_result := {
  lr_operation_id : string;
  lr_runtime_instance_id : string;
  lr_model_id : string;
  lr_runtime : string;
  lr_previous_state : option residency_state;
  lr_current_state : option residency_state;
  lr_active_usage_count : Z;
  lr_backend_operation_performed : bool;
  lr_joined_existing_operation : bool;
  lr_reason : string
}.

Record operation_error := {
  oe_code : string;
  oe_message : string;
  oe_details : list (string * json)
}.

Record operation_record := {
  op_id : string;
  op_kind : operation_kind;
  op_status : operation_status;
  op_runtime_instance_id : string;
  op_model_id : string;
  op_runtime : option string;
  op_application_id : option string;
  op_client_instance_id : option string;
  op_idempotency_key : option string;
  op_replay : bool;
  op_timeout : f64;
  op_created_at : Z;
  op_started_at : option Z;
  op_completed_at : option Z;
  op_result : option lifecycle_result;
  op_error : option operation_error
}.

#[global] Instance operation_record_eta : Eta operation_record := fun r =>
  Build_operation_record (op_id r) (op_kind r) (op_status r) (op_runtime_instance_id r)
    (op_model_id r) (op_runtime r) (op_application_id r) (op_client_instance_id r)
    (op_idempotency_key r) (op_replay r) (op_timeout r) (op_created_at r) (op_started_at r)
    (op_completed_at r) (op_result r) (op_error r).

(** An exception, other than [CancelledError]: a [LewLMError] or any other, with
    its text and the name of its class. *)
Inductive exn :=
| LewLMError (code message : string) (details : list (string * json))
| OtherException (text class : string).

Definition key_error (key : string) : exn := OtherException ("'" ++ key ++ "'")%string "KeyError".

(** How a task ended, and where it is. *)
Inductive task_end := TaskReturned | TaskCancelled | TaskRaised (e : exn).
Inductive task_phase := Scheduled | Draining | Done (how : task_end).

(** The task of [_run_drain(operation_id)]; [dt_cancel] says that [cancel()] was
    called on it while it ran. *)
Record drain_task := {
  dt_operation : string;
  dt_phase : task_phase;
  dt_cancel : bool
}.

#[global] Instance drain_task_eta : Eta drain_task := fun t =>
  Build_drain_task (dt_operation t) (dt_phase t) (dt_cancel t).

Definition task_done (t : drain_task) : bool :=
  match dt_phase t with Done _ => true | _ => false end.

(** What a call of the manager ends with. *)
Inductive answer :=
| Returned (r : operation_record)
| ShutDown
| Raised (e : exn)
| CallCancelled.

(** A call that waits for tasks, or has ended. *)
Inductive call :=
| AwaitCancel (operation_id : string) (task : nat)
| AwaitShutdown (tasks : list nat)
| AwaitResult (operation_id : string) (task : nat)
| Ended (a : answer).

Record audit_entry := {
  au_outcome : string;
  au_actor : string;
  au_details : list (string * json)
}.

Record operations := {
  o_runtime_instance_id : string;
  o_records : gmap string operation_record;
  o_tasks : list (string * nat);
  o_idempotency : gmap (string * string) string;
  o_closing : bool;
  o_objects : gmap nat drain_task;
  o_calls : gmap nat call;
  o_events : list (event_type * event_scope * list (string * json));
  o_audits : list audit_entry
}.

#[global] Instance operations_eta : Eta operations := fun s =>
  Build_operations (o_runtime_instance_id s) (o_records s) (o_tasks s) (o_idempotency s)
    (o_closing s) (o_objects s) (o_calls s) (o_events s) (o_audits s).

Definition init_operations (runtime_instance_id : string) : operations :=
  Build_operations runtime_instance_id ∅ [] ∅ false ∅ ∅ [] [].

Definition put_operation (operation_id : string) (r : operation_record) (s : operations) : operations :=
  s <| o_records := <[operation_id := r]> (o_records s) |>.

Definition set_call (cid : nat) (c : call) (s : operations) : operations :=
  s <| o_calls := <[cid := c]> (o_calls s) |>.

Definition set_task_phase (tid : nat) (p : task_phase) (s : operations) : operations :=
  s <| o_objects := alter (fun t => t <| dt_phase := p |>) tid (o_objects s) |>.

(** [task.cancel()]: nothing happens to a task that is done. *)
Definition request_cancel (tid : nat) (s : operations) : operations :=
  s <| o_objects := alter (fun t => if task_done t then t else t <| dt_cancel := true |>) tid
                      (o_objects s) |>.

(** ** Publishing and auditing *)

Definition opt_str (s : option string) : json :=
  match s with Some s => JStr s | None => JNull end.

(** [model_dump(mode="json")]. *)
Definition dump_error (e : operation_error) : json :=
  JObj [("code", JStr (oe_code e)); ("message", JStr (oe_message e)); ("details", JObj (oe_details e))].

Definition operation_payload (r : operation_record) : list (string * json) :=
  [("operation", JStr "model.drain"); ("operation_id", JStr (op_id r));
   ("status", JStr (status_value (op_status r)));
   ("runtime_instance_id", JStr (op_runtime_instance_id r));
   ("model_id", JStr (op_model_id r)); ("runtime", opt_str (op_runtime r));
   ("application_id", opt_str (op_application_id r));
   ("client_instance_id", opt_str (op_client_instance_id r))]
  ++ match op_error r with Some e => [("error", dump_error e)] | None => [] end.

Definition publish_operation (r : operation_record) (s : operations) : operations :=
  s <| o_events ::= fun l => l ++ [(OPERATION_PROGRESS, SYSTEM, operation_payload r)] |>.

(** [_audit]; writing the log may raise [failure]. *)
Definition audit (r : operation_record) (outcome : string) (failure : option exn) (s : operations)
    : operations * option exn :=
  match failure with
  | Some e => (s, Some e)
  | None =>
      let entry :=
        Build_audit_entry outcome
          (match or_else (op_application_id r) (Some "api") with Some a => a | None => "api" end)
          [("operation_id", JStr (op_id r)); ("model_id", JStr (op_model_id r));
           ("runtime", opt_str (op_runtime r)); ("application_id", opt_str (op_application_id r));
           ("client_instance_id", opt_str (op_client_instance_id r));
           ("status", JStr (status_value (op_status r)));
           ("error", match op_error r with Some e => dump_error e | None => JNull end)] in
      (s <| o_audits ::= fun l => l ++ [entry] |>, None)
  end.

(** ** Submitting *)

Record drain_request := {
  dr_model_id : string;
  dr_timeout : f64;
  dr_application_id : option string;
  dr_client_instance_id : option string;
  dr_idempotency_key : option string
}.

(** The key of [self._idempotency], when the request has one. *)
Definition idempotency_of (q : drain_request) : option (string * string) :=
  match dr_idempotency_key q with
  | Some k => if truthy (Some k)
              then Some (match or_else (dr_application_id q) (Some "anonymous") with
                         | Some a => a | None => "anonymous" end, k)
              else None
  | None => None
  end.

Definition new_operation (uuid : string) (now : Z) (runtime : string) (q : drain_request)
    (s : operations) : operation_record :=
  Build_operation_record uuid DRAIN_MODEL PENDING (o_runtime_instance_id s) (dr_model_id q)
    (Some runtime) (dr_application_id q) (dr_client_instance_id q) (dr_idempotency_key q) false
    (dr_timeout q) now None None None None.

(** The key is bound to another operation than the one requested. *)
Definition binding_differs (q : drain_request) (existing : operation_record) : bool :=
  negb (op_model_id existing =? dr_model_id q)%string || negb (feqb (op_timeout existing) (dr_timeout q)).

Definition idempotency_conflict (q : drain_request) (existing_id : string) (existing : operation_record)
    : exn :=
  LewLMError "model_lifecycle_conflict"
    "The idempotency key is already bound to a different lifecycle operation."
    [("idempotency_key", opt_str (dr_idempotency_key q)); ("operation_id", JStr existing_id);
     ("existing_model_id", JStr (op_model_id existing)); ("existing_timeout_seconds", JFloat (op_timeout existing));
     ("requested_model_id", JStr (dr_model_id q)); ("requested_timeout_seconds", JFloat (dr_timeout q))].

(** The operation is recorded and its task created. *)
Definition create_operation (uuid : string) (now : Z) (tid : nat) (runtime : string) (q : drain_request)
    (s : operations) : operations * operation_record :=
  let r := new_operation uuid now runtime q s in
  let s1 := put_operation uuid r s in
  let s2 := match idempotency_of q with
            | Some b => s1 <| o_idempotency := <[b := uuid]> (o_idempotency s1) |>
            | None => s1
            end in
  let s3 := s2 <| o_objects := <[tid := Build_drain_task uuid Scheduled false]> (o_objects s2) |>
               <| o_tasks := dset uuid tid (o_tasks s2) |> in
  (publish_operation r s3, r).

(** [submit_drain]; [route] is what [route_lifecycle] answers: the runtime's name,
    or the exception it raises. *)
Definition submit_drain (uuid : string) (now : Z) (tid : nat) (route : result exn string)
    (q : drain_request) (s : operations) : operations * result exn operation_record :=
  if fleb (dr_timeout q) fzero
  then (s, Err (OtherException "timeout_seconds must be greater than zero." "ValueError"))
  else
    match route with
    | Err e => (s, Err e)
    | Ok runtime =>
        if o_closing s
        then (s, Err (LewLMError "runtime_unavailable" "The lifecycle operation manager is shutting down." []))
        else
          let create := let '(s', r) := create_operation uuid now tid runtime q s in (s', Ok r) in
          match idempotency_of q with
          | Some b =>
              match o_idempotency s !! b with
              | Some existing_id =>
                  match o_records s !! existing_id with
                  | None => (s, Err (key_error existing_id))
                  | Some existing =>
                      if binding_differs q existing
                      then (s, Err (idempotency_conflict q existing_id existing))
                      else (s, Ok (existing <| op_replay := true |>))
                  end
              | None => create
              end
          | None => create
          end
    end.

(** ** Reading *)

Definition not_found (operation_id : string) : exn :=
  LewLMError "job_not_found" "Lifecycle operation was not found." [("operation_id", JStr operation_id)].

Definition get_operation (operation_id : string) (s : operations) : result exn operation_record :=
  match o_records s !! operation_id with
  | None => Err (not_found operation_id)
  | Some r => Ok r
  end.

Definition answer_of (r : result exn operation_record) : answer :=
  match r with Ok r => Returned r | Err e => Raised e end.

(** ** Finishing *)

Definition terminal (s : operation_status) : bool :=
  match s with SUCCEEDED | FAILED | CANCELLED => true | _ => false end.

Definition active (s : operation_status) : bool :=
  match s with PENDING | RUNNING => true | _ => false end.

Definition finish (now : Z) (failure : option exn) (operation_id : string) (st : operation_status)
    (result : option lifecycle_result) (error : option operation_error) (s : operations)
    : operations * option exn :=
  match o_records s !! operation_id with
  | None => (s, Some (key_error operation_id))
  | Some r =>
      let r' := r <| op_status := st |> <| op_completed_at := Some now |> <| op_result := result |>
                  <| op_error := error |> in
      let s1 := put_operation operation_id r' s in
      let s2 := s1 <| o_tasks := ddel operation_id (o_tasks s1) |> in
      audit r' (status_value st) failure (publish_operation r' s2)
  end.

Definition finish_cancelled_if_active (now : Z) (failure : option exn) (operation_id : string)
    (s : operations) : operations * option exn :=
  match o_records s !! operation_id with
  | Some r => if active (op_status r) then finish now failure operation_id CANCELLED None None s
              else (s, None)
  | None => (s, None)
  end.

(** ** The task *)

Definition error_from_exception (e : exn) : operation_error :=
  match e with
  | LewLMError code message details => Build_operation_error code message details
  | OtherException text class =>
      Build_operation_error "lifecycle_operation_failed" (if (text =? "")%string then class else text) []
  end.

(** [_run_drain] up to the unload call.  A task cancelled before its first
    instruction runs none of it. *)
Definition task_starts (now : Z) (failure : option exn) (tid : nat) (s : operations) : operations :=
  match o_objects s !! tid with
  | Some (Build_drain_task operation_id Scheduled cancel) =>
      if cancel then set_task_phase tid (Done TaskCancelled) s
      else
        match o_records s !! operation_id with
        | None => set_task_phase tid (Done (TaskRaised (key_error operation_id))) s
        | Some r =>
            let r' := r <| op_status := RUNNING |> <| op_started_at := Some now |> in
            let '(s', raised) :=
              audit r' "running" failure (publish_operation r' (put_operation operation_id r' s)) in
            set_task_phase tid (match raised with
                                | Some e => Done (TaskRaised e)
                                | None => Draining
                                end) s'
        end
  | _ => s
  end.

(** How [unload_model_lifecycle] ended. *)
Inductive drain_end := DrainResult (r : lifecycle_result) | DrainRaised (e : exn) | DrainCancelled.

Definition task_ends (now : Z) (failure : option exn) (how : drain_end) (tid : nat) (s : operations)
    : operations :=
  match o_objects s !! tid with
  | Some (Build_drain_task operation_id Draining _) =>
      let '(s', raised) :=
        match how with
        | DrainCancelled => finish now failure operation_id CANCELLED None None s
        | DrainRaised e => finish now failure operation_id FAILED None (Some (error_from_exception e)) s
        | DrainResult r => finish now failure operation_id SUCCEEDED (Some r) None s
        end in
      set_task_phase tid
        (Done (match raised, how with
               | Some e, _ => TaskRaised e
               | None, DrainCancelled => TaskCancelled
               | None, _ => TaskReturned
               end)) s'
  | _ => s
  end.

(** ** Calls that wait *)

(** [submit_drain_and_wait], up to its wait. *)
Definition begin_wait (cid : nat) (operation_id : string) (s : operations) : operations :=
  match dget operation_id (o_tasks s) with
  | Some tid => set_call cid (AwaitResult operation_id tid) s
  | None => set_call cid (Ended (answer_of (get_operation operation_id s))) s
  end.

Definition begin_cancel (cid : nat) (operation_id : string) (s : operations) : operations :=
  match o_records s !! operation_id with
  | None => set_call cid (Ended (Raised (not_found operation_id))) s
  | Some r =>
      match dget operation_id (o_tasks s) with
      | None => set_call cid (Ended (Returned r)) s
      | Some tid =>
          if terminal (op_status r) then set_call cid (Ended (Returned r)) s
          else set_call cid (AwaitCancel operation_id tid) (request_cancel tid s)
      end
  end.

(** The last loop of [shutdown]: an exception ends it. *)
Fixpoint finish_all (now : Z) (failures : string -> option exn) (ops : list string) (s : operations)
    : operations * option exn :=
  match ops with
  | [] => (s, None)
  | operation_id :: ops' =>
      let '(s', raised) := finish_cancelled_if_active now (failures operation_id) operation_id s in
      match raised with
      | Some e => (s', Some e)
      | None => finish_all now failures ops' s'
      end
  end.

Definition end_shutdown (now : Z) (failures : string -> option exn) (cid : nat) (s : operations)
    : operations :=
  let '(s', raised) := finish_all now failures (dkeys (o_tasks s)) s in
  set_call cid (Ended (match raised with Some e => Raised e | None => ShutDown end)) s'.

Definition begin_shutdown (now : Z) (failures : string -> option exn) (cid : nat) (s : operations)
    : operations :=
  let s1 := s <| o_closing := true |> in
  let tasks := map snd (o_tasks s1) in
  let s2 := foldr request_cancel s1 tasks in
  match tasks with
  | [] => end_shutdown now failures cid s2
  | _ => set_call cid (AwaitShutdown tasks) s2
  end.

Definition is_task_done (s : operations) (tid : nat) : bool :=
  match o_objects s !! tid with Some t => task_done t | None => true end.

(** The tasks a call waits for are done: the rest of [cancel], [shutdown] or
    [submit_drain_and_wait] (where [asyncio.shield] reraises). *)
Definition resume_call (now : Z) (failures : string -> option exn) (cid : nat) (s : operations)
    : operations :=
  match o_calls s !! cid with
  | Some (AwaitCancel operation_id tid) =>
      if is_task_done s tid then
        let '(s', raised) := finish_cancelled_if_active now (failures operation_id) operation_id s in
        set_call cid (Ended (match raised with
                             | Some e => Raised e
                             | None => answer_of (get_operation operation_id s')
                             end)) s'
      else s
  | Some (AwaitShutdown tids) =>
      if forallb (is_task_done s) tids then end_shutdown now failures cid s else s
  | Some (AwaitResult operation_id tid) =>
      match dt_phase <$> o_objects s !! tid with
      | Some (Done TaskReturned) => set_call cid (Ended (answer_of (get_operation operation_id s))) s
      | Some (Done TaskCancelled) => set_call cid (Ended CallCancelled) s
      | Some (Done (TaskRaised e)) => set_call cid (Ended (Raised e)) s
      | _ => s
      end
  | _ => s
  end.

(** The caller of a waiting call is itself cancelled. *)
Definition abandon_call (cid : nat) (s : operations) : operations :=
  match o_calls s !! cid with
  | None | Some (Ended _) => s
  | Some _ => set_call cid (Ended CallCancelled) s
  end.

(** ** Steps *)

Inductive operation_event :=
| Submit (uuid : string) (now : Z) (tid : nat) (route : result exn string) (q : drain_request) (cid : nat)
| SubmitAndWait (uuid : string) (now : Z) (tid : nat) (route : result exn string) (q : drain_request) (cid : nat)
| GetRecord (operation_id : string) (cid : nat)
| Cancel (operation_id : string) (cid : nat)
| Shutdown (now : Z) (failures : string -> option exn) (cid : nat)
| TaskStarts (now : Z) (failure : option exn) (tid : nat)
| TaskEnds (now : Z) (failure : option exn) (how : drain_end) (tid : nat)
| ResumeCall (now : Z) (failures : string -> option exn) (cid : nat)
| AbandonCall (cid : nat).

Definition operation_step (ev : operation_event) (s : operations) : operations :=
  match ev with
  | Submit uuid now tid route q cid =>
      let '(s', r) := submit_drain uuid now tid route q s in set_call cid (Ended (answer_of r)) s'
  | SubmitAndWait uuid now tid route q cid =>
      let '(s', r) := submit_drain uuid now tid route q s in
      match r with
      | Ok r => begin_wait cid (op_id r) s'
      | Err e => set_call cid (Ended (Raised e)) s'
      end
  | GetRecord operation_id cid => set_call cid (Ended (answer_of (get_operation operation_id s))) s
  | Cancel operation_id cid => begin_cancel cid operation_id s
  | Shutdown now failures cid => begin_shutdown now failures cid s
  | TaskStarts now failure tid => task_starts now failure tid s
  | TaskEnds now failure how tid => task_ends now failure how tid s
  | ResumeCall now failures cid => resume_call now failures cid s
  | AbandonCall cid => abandon_call cid s
  end.

(** [uuid4] and new objects are fresh. *)
Definition fresh_event (ev : operation_event) (s : operations) : bool :=
  match ev with
  | Submit uuid _ tid _ _ cid | SubmitAndWait uuid _ tid _ _ cid =>
      is_absent (o_records s !! uuid) && is_absent (o_objects s !! tid) && is_absent (o_calls s !! cid)
  | GetRecord _ cid | Cancel _ cid | Shutdown _ _ cid => is_absent (o_calls s !! cid)
  | _ => true
  end.

(** States reached from [s] by any interleaving of calls and tasks. *)
Inductive runs_to (s : operations) : operations -> Prop :=
| runs_refl : runs_to s s
| runs_step s' ev : runs_to s s' -> fresh_event ev s' = true -> runs_to s (operation_step ev s').

Fixpoint run_operations (evs : list operation_event) (s : operations) : option operations :=
  match evs with
  | [] => Some s
  | ev :: evs' => if fresh_event ev s then run_operations evs' (operation_step ev s) else None
  end.

(** ** The life of an operation *)

(** The specification: an operation is created pending, may start, and is finished
    once; a record that is finished does not change. *)
Inductive lifecycle : option operation_record -> option operation_record -> Prop :=
| life_create r : op_status r = PENDING -> lifecycle None (Some r)
| life_start r now : op_status r = PENDING ->
    lifecycle (Some r) (Some (r <| op_status := RUNNING |> <| op_started_at := Some now |>))
| life_succeed r now res : op_status r = RUNNING ->
    lifecycle (Some r) (Some (r <| op_status := SUCCEEDED |> <| op_completed_at := Some now |>
                                <| op_result := Some res |> <| op_error := None |>))
| life_fail r now e : op_status r = RUNNING ->
    lifecycle (Some r) (Some (r <| op_status := FAILED |> <| op_completed_at := Some now |>
                                <| op_result := None |> <| op_error := Some e |>))
| life_cancel r now : active (op_status r) = true ->
    lifecycle (Some r) (Some (r <| op_status := CANCELLED |> <| op_completed_at := Some now |>
                                <| op_result := None |> <| op_error := None |>)).

(** What a record of each status holds. *)
Definition legal (r : operation_record) : Prop :=
  match op_status r with
  | PENDING => op_started_at r = None /\ op_completed_at r = None /\ op_result r = None /\ op_error r = None
  | RUNNING => is_Some (op_started_at r) /\ op_completed_at r = None /\ op_result r = None /\ op_error r = None
  | SUCCEEDED => is_Some (op_started_at r) /\ is_Some (op_completed_at r) /\ is_Some (op_result r)
                 /\ op_error r = None
  | FAILED => is_Some (op_started_at r) /\ is_Some (op_completed_at r) /\ op_result r = None
              /\ is_Some (op_error r)
  | CANCELLED => is_Some (op_completed_at r) /\ op_result r = None /\ op_error r = None
  end.

(** The statuses announced while a record came to be what it is. *)
Definition life (r : operation_record) : list operation_status :=
  [PENDING] ++ match op_started_at r with Some _ => [RUNNING] | None => [] end
  ++ if terminal (op_status r) then [op_status r] else [].

Definition status_of_value (v : string) : option operation_status :=
  if (v =? "pending")%string then Some PENDING
  else if (v =? "running")%string then Some RUNNING
  else if (v =? "succeeded")%string then Some SUCCEEDED
  else if (v =? "failed")%string then Some FAILED
  else if (v =? "cancelled")%string then Some CANCELLED
  else None.

(** What an event tells of the operation [operation_id], read off its payload. *)
Definition told (operation_id : string) (e : event_type * event_scope * list (string * json))
    : option operation_status :=
  match dget "operation_id" e.2, dget "status" e.2 with
  | Some (JStr i), Some (JStr v) => if (i =? operation_id)%string then status_of_value v else None
  | _, _ => None
  end.

Definition announced (operation_id : string) (s : operations) : list operation_status :=
  omap (told operation_id) (o_events s).

(** ** The invariant *)

Record op_inv (s : operations) : Prop := {
  oi_record : forall op r, o_records s !! op = Some r -> op_id r = op /\ legal r /\ op_replay r = false;
  oi_nodup : NoDup (dkeys (o_tasks s));
  oi_task : forall op tid, dget op (o_tasks s) = Some tid ->
    (exists r, o_records s !! op = Some r /\ active (op_status r) = true)
    /\ (exists t, o_objects s !! tid = Some t /\ dt_operation t = op);
  oi_active : forall op r, o_records s !! op = Some r -> active (op_status r) = true ->
    exists tid, dget op (o_tasks s) = Some tid;
  oi_object : forall tid t, o_objects s !! tid = Some t ->
    exists r, o_records s !! dt_operation t = Some r
      /\ match dt_phase t with
         | Scheduled => op_status r = PENDING
         | Draining => op_status r = RUNNING
         | Done _ => True
         end;
  oi_unique : forall tid1 tid2 t1 t2, o_objects s !! tid1 = Some t1 -> o_objects s !! tid2 = Some t2 ->
    dt_operation t1 = dt_operation t2 -> tid1 = tid2;
  oi_call : forall cid c, o_calls s !! cid = Some c ->
    match c with
    | AwaitCancel op tid => exists t, o_objects s !! tid = Some t /\ dt_operation t = op
                              /\ (dt_cancel t = true \/ task_done t = true)
    | AwaitResult op tid => exists t, o_objects s !! tid = Some t /\ dt_operation t = op
    | AwaitShutdown tids => o_closing s = true /\ forall op tid, dget op (o_tasks s) = Some tid -> tid ∈ tids
    | Ended _ => True
    end;
  oi_binding : forall b op, o_idempotency s !! b = Some op -> is_Some (o_records s !! op);
  oi_events : forall op, announced op s = match o_records s !! op with Some r => life r | None => [] end
}.

Lemma init_op_inv i : op_inv (init_operations i).
Proof. split; try done. constructor. Qed.

(** [o_audits] and [o_runtime_instance_id] do not matter. *)
Lemma op_inv_audits s l : op_inv s -> op_inv (s <| o_audits := l |>).
Proof. intros []. by split. Qed.

Lemma audit_changes r outcome failure s :
  (audit r outcome failure s).2 = failure
  /\ exists l, (audit r outcome failure s).1 = s <| o_audits := l |>.
Proof.
  unfold audit. destruct failure; simpl; (split; [done|]).
  - exists (o_audits s). by destruct s.
  - by eexists.
Qed.

Lemma told_payload op r sc ty :
  told op (ty, sc, operation_payload r) = if decide (op_id r = op) then Some (op_status r) else None.
Proof.
  unfold told, operation_payload. simpl.
  destruct (String.eqb_spec (op_id r) op); [rewrite decide_True by done|by rewrite decide_False].
  by destruct (op_status r).
Qed.

Lemma announced_publish op r s :
  announced op (publish_operation r s)
  = announced op s ++ if decide (op_id r = op) then [op_status r] else [].
Proof.
  unfold announced, publish_operation. simpl. rewrite omap_app. simpl. f_equal.
  rewrite told_payload. by case_decide.
Qed.

Lemma active_terminal st : active st = negb (terminal st).
Proof. by destruct st. Qed.

(** ** Preservation *)

(** A call is recorded; waiting for something needs a task that exists. *)
Lemma op_inv_set_call s cid c :
  op_inv s ->
  match c with
  | AwaitCancel op tid => exists t, o_objects s !! tid = Some t /\ dt_operation t = op
                            /\ (dt_cancel t = true \/ task_done t = true)
  | AwaitResult op tid => exists t, o_objects s !! tid = Some t /\ dt_operation t = op
  | AwaitShutdown tids => o_closing s = true /\ forall op tid, dget op (o_tasks s) = Some tid -> tid ∈ tids
  | Ended _ => True
  end ->
  op_inv (set_call cid c s).
Proof.
  intros [] Hc. split; try assumption. intros cid' c'. simpl. rewrite lookup_insert.
  case_decide; [by intros [= <-]|]. apply oi_call0.
Qed.

(** A task changes its phase, its operation's record fitting the new one; a
    task that was asked to stop does not go on from its end. *)
Lemma op_inv_phase s tid p :
  op_inv s ->
  (forall t r, o_objects s !! tid = Some t -> o_records s !! dt_operation t = Some r ->
     (exists how, p = Done how)
     \/ p = Draining /\ op_status r = RUNNING /\ dt_cancel t = false
        /\ forall cid op, o_calls s !! cid <> Some (AwaitCancel op tid)) ->
  op_inv (set_task_phase tid p s).
Proof.
  intros [] Hp.
  assert (Hlook : forall tid' t', o_objects (set_task_phase tid p s) !! tid' = Some t' ->
    exists t, o_objects s !! tid' = Some t
      /\ t' = if decide (tid = tid') then t <| dt_phase := p |> else t).
  { intros tid' t'. simpl. rewrite lookup_alter. case_decide; [subst|eauto].
    destruct (o_objects s !! tid') as [t|]; simpl; [|done]. intros [= <-]. eauto. }
  assert (Hback : forall tid' t, o_objects s !! tid' = Some t ->
    o_objects (set_task_phase tid p s) !! tid' = Some (if decide (tid = tid') then t <| dt_phase := p |> else t)).
  { intros tid' t Ht. simpl. rewrite lookup_alter. case_decide; subst; by rewrite Ht. }
  split; try assumption; simpl.
  - intros op tid' Ht. destruct (oi_task0 _ _ Ht) as [Hr (t & Hto & <-)]. split; [done|].
    eexists. split; [by apply Hback|]. by case_decide.
  - intros tid' t' (t & Ht & ->)%Hlook. destruct (oi_object0 _ _ Ht) as (r & Hr & Hph).
    case_decide; [subst; simpl|by eauto]. exists r. split; [done|].
    destruct (Hp _ _ Ht Hr) as [[how ->]|(-> & ? & _)]; done.
  - intros tid1 tid2 t1' t2' (t1 & H1 & ->)%Hlook (t2 & H2 & ->)%Hlook Heq.
    apply (oi_unique0 _ _ _ _ H1 H2). by repeat case_decide.
  - intros cid c Hc. pose proof (oi_call0 _ _ Hc) as Hok. destruct c as [op tid'| |op tid'|]; try done.
    + destruct Hok as (t & Ht & Ho & Hd). eexists. split; [by apply Hback|]. case_decide; [subst|done].
      split; [done|]. simpl. destruct (oi_object0 _ _ Ht) as (r & Hr & _).
      destruct (Hp _ _ Ht Hr) as [[how ->]|(_ & _ & _ & Hno)]; [by right|by apply Hno in Hc].
    + destruct Hok as (t & Ht & Ho). eexists. split; [by apply Hback|]. by case_decide.
Qed.

Lemma op_inv_request_cancel s tid : op_inv s -> op_inv (request_cancel tid s).
Proof.
  intros [].
  set (f := fun t : drain_task => if task_done t then t else t <| dt_cancel := true |>).
  assert (Hf : forall t, dt_operation (f t) = dt_operation t /\ dt_phase (f t) = dt_phase t
    /\ (dt_cancel t = true -> dt_cancel (f t) = true)) by (intros t; unfold f; by destruct (task_done t)).
  assert (Hlook : forall tid' t', o_objects (request_cancel tid s) !! tid' = Some t' ->
    exists t, o_objects s !! tid' = Some t /\ (t' = t \/ t' = f t)).
  { intros tid' t'. simpl. rewrite lookup_alter. case_decide; [subst|eauto].
    destruct (o_objects s !! tid') as [t|]; simpl; [|done]. intros [= <-]. eauto. }
  assert (Hback : forall tid' t, o_objects s !! tid' = Some t ->
    exists t', o_objects (request_cancel tid s) !! tid' = Some t' /\ (t' = t \/ t' = f t)).
  { intros tid' t Ht. simpl. rewrite lookup_alter. case_decide; [subst|by eauto]. rewrite Ht. simpl. eauto. }
  assert (Hop : forall t t', t' = t \/ t' = f t -> dt_operation t' = dt_operation t).
  { intros t t' [->| ->]; [done|apply Hf]. }
  split; try assumption; simpl.
  - intros op tid' Ht. destruct (oi_task0 _ _ Ht) as [Hr (t & Hto & <-)]. split; [done|].
    destruct (Hback _ _ Hto) as (t' & ? & ?). exists t'. split; [done|by apply Hop].
  - intros tid' t' (t & Ht & Heq)%Hlook. destruct (oi_object0 _ _ Ht) as (r & Hr & Hph).
    exists r. rewrite (Hop _ _ Heq). split; [done|]. destruct Heq as [->| ->]; [done|].
    by rewrite (proj1 (proj2 (Hf t))).
  - intros tid1 tid2 t1' t2' (t1 & H1 & He1)%Hlook (t2 & H2 & He2)%Hlook.
    rewrite (Hop _ _ He1), (Hop _ _ He2). by apply oi_unique0.
  - intros cid c Hc. pose proof (oi_call0 _ _ Hc) as Hok. destruct c as [op tid'| |op tid'|]; try done.
    + destruct Hok as (t & Ht & Ho & Hd). destruct (Hback _ _ Ht) as (t' & Ht' & Heq). exists t'.
      rewrite (Hop _ _ Heq). split_and!; try done. destruct Heq as [->| ->]; [done|].
      unfold task_done. destruct (Hf t) as (_ & -> & Hcan). destruct Hd; auto.
    + destruct Hok as (t & Ht & Ho). destruct (Hback _ _ Ht) as (t' & Ht' & Heq). exists t'.
      by rewrite (Hop _ _ Heq).
Qed.

(** An active operation moves to a new status, and its tasks are done (or about
    to change phase); finishing it takes it out of [self._tasks]. *)
Definition move_operation (op : string) (r' : operation_record) (s : operations) : operations :=
  let s1 := put_operation op r' s in
  publish_operation r' (if terminal (op_status r')
                        then s1 <| o_tasks := ddel op (o_tasks s1) |> else s1).

Lemma announced_move op op' r' s :
  announced op' (move_operation op r' s)
  = announced op' s ++ if decide (op_id r' = op') then [op_status r'] else [].
Proof. unfold move_operation. rewrite announced_publish. by destruct (terminal _). Qed.

Lemma op_inv_move s op r r' :
  op_inv s -> o_records s !! op = Some r -> active (op_status r) = true ->
  op_id r' = op -> legal r' -> op_replay r' = false -> life r' = life r ++ [op_status r'] ->
  (forall tid t, o_objects s !! tid = Some t -> dt_operation t = op -> task_done t = true) ->
  op_inv (move_operation op r' s).
Proof.
  intros [] Hr Hact Hid Hleg Hrep Hlife Hdone.
  assert (Hrec : o_records (move_operation op r' s) = <[op := r']> (o_records s))
    by (unfold move_operation; by destruct (terminal _)).
  assert (Htasks : forall op' tid, dget op' (o_tasks (move_operation op r' s)) = Some tid ->
    dget op' (o_tasks s) = Some tid /\ (op' = op -> active (op_status r') = true)).
  { intros op' tid. unfold move_operation. rewrite active_terminal. destruct (terminal _); simpl; [|done].
    destruct (decide (op' = op)) as [->|]; [by rewrite dget_ddel_eq|by rewrite dget_ddel_ne]. }
  assert (Hsame : o_objects (move_operation op r' s) = o_objects s
    /\ o_calls (move_operation op r' s) = o_calls s
    /\ o_closing (move_operation op r' s) = o_closing s
    /\ o_idempotency (move_operation op r' s) = o_idempotency s)
    by (unfold move_operation; by destruct (terminal _)).
  destruct Hsame as (Hobj & Hcalls & Hclosing & Hidem).
  split; rewrite ?Hrec, ?Hobj, ?Hcalls, ?Hclosing, ?Hidem; try done.
  - intros op' r0. rewrite lookup_insert. case_decide; [|eauto]. subst. by intros [= <-].
  - unfold move_operation. destruct (terminal _); simpl; [by apply NoDup_ddel|done].
  - intros op' tid (Ht & Ha)%Htasks. destruct (oi_task0 _ _ Ht) as [(r0 & ? & ?) ?]. split; [|done].
    rewrite lookup_insert. case_decide; [subst; eauto|eauto].
  - intros op' r0. rewrite lookup_insert. case_decide as Hop.
    + subst op'. intros [= <-] Ha. destruct (oi_active0 _ _ Hr Hact) as [tid Ht]. exists tid.
      unfold move_operation. rewrite active_terminal in Ha. destruct (terminal _); done.
    + intros H Ha. destruct (oi_active0 _ _ H Ha) as [tid Ht]. exists tid.
      unfold move_operation. destruct (terminal _); simpl; [by rewrite dget_ddel_ne|done].
  - intros tid t Ht. destruct (oi_object0 _ _ Ht) as (r0 & Hr0 & Hph). rewrite lookup_insert.
    case_decide as Hop; [|by eauto]. subst op. exists r'. split; [done|].
    pose proof (Hdone _ _ Ht (eq_sym Hop)) as Hd. unfold task_done in Hd. by destruct (dt_phase t).
  - intros cid c Hc. pose proof (oi_call0 _ _ Hc) as Hok. destruct c; try done.
    destruct Hok as [? Hin]. split; [done|]. intros op' tid (Ht & _)%Htasks. by eapply Hin.
  - intros b op' Hb. rewrite lookup_insert. case_decide; [done|by eapply oi_binding0].
  - intros op'. rewrite announced_move, oi_events0, lookup_insert, Hid.
    case_decide; [subst|by rewrite app_nil_r]. by rewrite Hr, Hlife.
Qed.

(** What every step does: it keeps the invariant, moves each record along its
    lifecycle, keeps what keys are bound to and the closing flag. *)
Record evolves (s s' : operations) : Prop := {
  ev_inv : op_inv s';
  ev_life : forall op, rtc lifecycle (o_records s !! op) (o_records s' !! op);
  ev_binding : forall b op, o_idempotency s !! b = Some op -> o_idempotency s' !! b = Some op;
  ev_closing : o_closing s = true -> o_closing s' = true;
  ev_closed : o_closing s = true -> forall op, o_records s !! op = None -> o_records s' !! op = None
}.

Lemma evolves_refl s : op_inv s -> evolves s s.
Proof. by split. Qed.

Lemma evolves_trans s1 s2 s3 : evolves s1 s2 -> evolves s2 s3 -> evolves s1 s3.
Proof. intros [] []. split; [done| |auto|auto|auto]. intros op. eapply rtc_trans; eauto. Qed.

(** The records, the keys and the closing flag stay. *)
Lemma evolves_same s s' :
  op_inv s' -> o_records s' = o_records s -> o_idempotency s' = o_idempotency s ->
  (o_closing s = true -> o_closing s' = true) -> evolves s s'.
Proof. intros Hinv Hr Hi Hc. split; [done|by rewrite Hr|by rewrite Hi|done|by rewrite Hr]. Qed.

Lemma evolves_set_call s s' cid c :
  evolves s s' -> op_inv (set_call cid c s') -> evolves s (set_call cid c s').
Proof. intros H Hinv. eapply evolves_trans; [exact H|]. by apply evolves_same. Qed.

Lemma evolves_ended s s' cid a : evolves s s' -> evolves s (set_call cid (Ended a) s').
Proof. intros H. apply evolves_set_call; [done|]. apply op_inv_set_call; [apply H|done]. Qed.

Lemma evolves_audits s s' l : evolves s s' -> evolves s (s' <| o_audits := l |>).
Proof. intros []. split; try assumption. by apply op_inv_audits. Qed.

Lemma evolves_move s op r r' :
  op_inv (move_operation op r' s) -> o_records s !! op = Some r -> lifecycle (Some r) (Some r') ->
  evolves s (move_operation op r' s).
Proof.
  intros Hinv Hr Hl.
  split; [done| | | |]; unfold move_operation; destruct (terminal _); simpl; try done;
    intros; rewrite lookup_insert; case_decide; subst; rewrite ?Hr;
    first [by apply rtc_once|done|congruence].
Qed.

(** The record that [_finish] leaves. *)
Definition finished (now : Z) (st : operation_status) (res : option lifecycle_result)
    (err : option operation_error) (r : operation_record) : operation_record :=
  r <| op_status := st |> <| op_completed_at := Some now |> <| op_result := res |> <| op_error := err |>.

Lemma finish_eq now failure op st res err r s :
  o_records s !! op = Some r -> terminal st = true ->
  (finish now failure op st res err s).2 = failure
  /\ exists l, (finish now failure op st res err s).1
       = (move_operation op (finished now st res err r) s) <| o_audits := l |>.
Proof.
  intros Hr Hst. unfold finish. rewrite Hr. unfold move_operation, finished. simpl. rewrite Hst.
  apply audit_changes.
Qed.

(** Finishing with a status that the record's own allows. *)
Definition finishes (r : operation_record) (st : operation_status) (res : option lifecycle_result)
    (err : option operation_error) : Prop :=
  match st with
  | SUCCEEDED => op_status r = RUNNING /\ is_Some res /\ err = None
  | FAILED => op_status r = RUNNING /\ res = None /\ is_Some err
  | CANCELLED => active (op_status r) = true /\ res = None /\ err = None
  | _ => False
  end.

Lemma finishes_lifecycle now r st res err :
  finishes r st res err -> lifecycle (Some r) (Some (finished now st res err r)).
Proof.
  destruct st; simpl; try done; intros (? & H1 & H2); subst.
  - destruct H1 as [x ->]. by constructor.
  - destruct H2 as [x ->]. by constructor.
  - by constructor.
Qed.

Lemma finishes_legal now r st res err :
  finishes r st res err -> legal r -> legal (finished now st res err r).
Proof.
  unfold legal, finished. destruct st; simpl; try done; intros (Hst & H1 & H2) Hl; subst.
  - rewrite Hst in Hl. naive_solver.
  - rewrite Hst in Hl. naive_solver.
  - split_and!; by try eexists.
Qed.

Lemma finish_evolves now failure op st res err r s :
  op_inv s -> o_records s !! op = Some r -> finishes r st res err ->
  (forall tid t, o_objects s !! tid = Some t -> dt_operation t = op -> task_done t = true) ->
  evolves s (finish now failure op st res err s).1
  /\ (finish now failure op st res err s).2 = failure.
Proof.
  intros Hinv Hr Hf Hdone.
  assert (Hst : terminal st = true) by by destruct st.
  assert (Hact : active (op_status r) = true) by (destruct st; simpl in Hf; try done; destruct Hf as [Hf _]; by rewrite ?Hf).
  destruct (finish_eq now failure op st res err r s Hr Hst) as [-> [l ->]]. split; [|done].
  apply evolves_audits. destruct (oi_record _ Hinv _ _ Hr) as (Hid & Hl & Hrep).
  eapply evolves_move; [|done|by apply finishes_lifecycle].
  eapply op_inv_move; try done; [by apply finishes_legal|].
  unfold life, finished. simpl. rewrite Hst. rewrite active_terminal in Hact.
  apply negb_true_iff in Hact. by rewrite Hact, app_nil_r.
Qed.

Lemma finish_cancelled_evolves now failure op s :
  op_inv s ->
  (forall tid t, o_objects s !! tid = Some t -> dt_operation t = op -> task_done t = true) ->
  let '(s', raised) := finish_cancelled_if_active now failure op s in
  evolves s s' /\ o_objects s' = o_objects s /\ o_tasks s' = ddel op (o_tasks s)
  /\ forall r, o_records s' !! op = Some r -> terminal (op_status r) = true.
Proof.
  intros Hinv Hdone. unfold finish_cancelled_if_active.
  assert (Hnone : forall r, o_records s !! op = r -> (forall x, r = Some x -> active (op_status x) = false) ->
    o_tasks s = ddel op (o_tasks s)).
  { intros r Hr Ha. symmetry. apply ddel_id, dget_None. destruct (dget op (o_tasks s)) as [tid|] eqn:Ht; [|done].
    destruct (oi_task _ Hinv _ _ Ht) as [(x & Hx & Hax) _]. rewrite Ha in Hax; congruence. }
  destruct (o_records s !! op) as [r|] eqn:Hr.
  - destruct (active (op_status r)) eqn:Ha.
    + destruct (finish_evolves now failure op CANCELLED None None r s Hinv Hr ltac:(done) Hdone) as [Hev _].
      destruct (finish_eq now failure op CANCELLED None None r s Hr eq_refl) as [_ [l Heq]].
      destruct (finish now failure op CANCELLED None None s) as [s' raised]. simpl in *. subst s'.
      split_and!; try done. intros r'. simpl. rewrite lookup_insert, decide_True by done. by intros [= <-].
    + split_and!; [by apply evolves_refl|done|apply (Hnone _ eq_refl); by intros x [= <-]|].
      rewrite Hr. intros r' [= <-]. rewrite active_terminal in Ha. by apply negb_false_iff in Ha.
  - split_and!; [by apply evolves_refl|done|by apply (Hnone _ eq_refl)|congruence].
Qed.

Definition settled (op : string) (s : operations) : Prop :=
  forall tid t, o_objects s !! tid = Some t -> dt_operation t = op -> task_done t = true.

Lemma settled_by_task s op tid t :
  op_inv s -> o_objects s !! tid = Some t -> dt_operation t = op -> task_done t = true -> settled op s.
Proof.
  intros Hinv Ht Hop Hd tid' t' Ht' Hop'.
  assert (tid' = tid) as -> by (eapply (oi_unique _ Hinv); [done..|congruence]). congruence.
Qed.

Lemma is_task_done_spec s tid t : o_objects s !! tid = Some t -> is_task_done s tid = task_done t.
Proof. unfold is_task_done. by intros ->. Qed.

Lemma finish_all_evolves now failures ops s :
  op_inv s -> (forall op, op ∈ ops -> settled op s) ->
  let '(s', raised) := finish_all now failures ops s in
  evolves s s' /\ o_objects s' = o_objects s
  /\ (raised = None -> forall op, dget op (o_tasks s') = if decide (op ∈ ops) then None else dget op (o_tasks s)).
Proof.
  revert s. induction ops as [|op ops IH]; intros s Hinv Hs; simpl.
  { split_and!; [by apply evolves_refl|done|]. intros _ op. done. }
  pose proof (finish_cancelled_evolves now (failures op) op s Hinv (Hs op ltac:(set_solver))) as H.
  destruct (finish_cancelled_if_active now (failures op) op s) as [s1 [e|]].
  - destruct H as (Hev & Ho & _). by split_and!.
  - destruct H as (Hev & Ho & Ht & _).
    assert (Hs1 : forall op', op' ∈ ops -> settled op' s1).
    { intros op' Hin. unfold settled. rewrite Ho. apply Hs. set_solver. }
    specialize (IH s1 (ev_inv _ _ Hev) Hs1). destruct (finish_all now failures ops s1) as [s2 raised].
    destruct IH as (Hev2 & Ho2 & Hd). split_and!; [by eapply evolves_trans|congruence|].
    intros Hr op'. rewrite (Hd Hr), Ht. destruct (decide (op' = op)) as [->|Hne].
    + rewrite dget_ddel_eq by apply (oi_nodup _ Hinv). rewrite (decide_True (P:=op ∈ op :: ops)) by set_solver.
      by case_decide.
    + rewrite dget_ddel_ne by done. repeat case_decide; set_solver.
Qed.

(** No active operation is left by a shutdown that ends. *)
Definition quiet (s : operations) : Prop :=
  forall op r, o_records s !! op = Some r -> terminal (op_status r) = true.

Lemma no_tasks_quiet s : op_inv s -> (forall op, dget op (o_tasks s) = None) -> quiet s.
Proof.
  intros Hinv Hno op r Hr. destruct (terminal (op_status r)) eqn:Ht; [done|exfalso].
  destruct (oi_active _ Hinv _ _ Hr) as [tid Hd]; [by rewrite active_terminal, Ht|].
  by rewrite Hno in Hd.
Qed.

Lemma end_shutdown_evolves now failures cid s :
  op_inv s -> (forall op tid, dget op (o_tasks s) = Some tid -> is_task_done s tid = true) ->
  let s' := end_shutdown now failures cid s in
  evolves s s' /\ (o_calls s' !! cid = Some (Ended ShutDown) -> quiet s').
Proof.
  intros Hinv Hd. unfold end_shutdown.
  assert (Hs : forall op, op ∈ dkeys (o_tasks s) -> settled op s).
  { intros op Hin. destruct (dget op (o_tasks s)) as [tid|] eqn:Ht; [|by apply dget_None in Ht].
    destruct (oi_task _ Hinv _ _ Ht) as [_ (t & Hto & Hop)].
    eapply settled_by_task; [done..|]. rewrite <- (is_task_done_spec _ _ _ Hto). by eapply Hd. }
  pose proof (finish_all_evolves now failures _ s Hinv Hs) as H.
  destruct (finish_all now failures (dkeys (o_tasks s)) s) as [s1 raised].
  destruct H as (Hev & _ & Ht). split; [by apply evolves_ended|].
  simpl. rewrite lookup_insert, decide_True by done. destruct raised; [done|]. intros _.
  change (quiet s1). apply no_tasks_quiet; [apply Hev|]. intros op. rewrite Ht by done.
  case_decide as Hin; [done|]. by apply dget_None.
Qed.

Lemma op_inv_request_all tids s :
  op_inv s -> op_inv (foldr request_cancel s tids)
  /\ o_records (foldr request_cancel s tids) = o_records s
  /\ o_tasks (foldr request_cancel s tids) = o_tasks s
  /\ o_idempotency (foldr request_cancel s tids) = o_idempotency s
  /\ o_closing (foldr request_cancel s tids) = o_closing s
  /\ o_calls (foldr request_cancel s tids) = o_calls s.
Proof.
  intros Hinv. induction tids as [|tid tids IH]; [done|].
  destruct IH as (? & ? & ? & ? & ? & ?). split_and!; try done. by apply op_inv_request_cancel.
Qed.

Lemma op_inv_close s : op_inv s -> op_inv (s <| o_closing := true |>).
Proof.
  intros []. split; try assumption. intros cid c Hc. pose proof (oi_call0 _ _ Hc) as H.
  destruct c; try done. by destruct H.
Qed.

Lemma dget_task_values {K V} `{EqDecision K} (d : list (K * V)) k v : dget k d = Some v -> v ∈ map snd d.
Proof. intros H%dget_Some_elem. apply (list_elem_of_fmap_2' snd d (k, v)); done. Qed.

Lemma begin_shutdown_evolves now failures cid s :
  op_inv s ->
  let s' := begin_shutdown now failures cid s in
  evolves s s' /\ o_closing s' = true /\ (o_calls s' !! cid = Some (Ended ShutDown) -> quiet s').
Proof.
  intros Hinv. unfold begin_shutdown. cbv zeta.
  set (s1 := s <| o_closing := true |>). set (s2 := foldr request_cancel s1 (map snd (o_tasks s1))).
  destruct (op_inv_request_all (map snd (o_tasks s1)) s1 (op_inv_close _ Hinv))
    as (Hinv2 & Hrec & Htasks & Hidem & Hclosing & _). fold s2 in Hinv2, Hrec, Htasks, Hidem, Hclosing.
  assert (Hev : evolves s s2) by (apply evolves_same; [done|by rewrite Hrec|by rewrite Hidem|by rewrite Hclosing]).
  destruct (map snd (o_tasks s1)) as [|tid tids] eqn:Hm.
  - assert (Hnil : o_tasks s2 = []) by (rewrite Htasks; by apply map_eq_nil in Hm).
    destruct (end_shutdown_evolves now failures cid s2 Hinv2) as [Hev2 Hq]; [by rewrite Hnil|].
    split_and!; [by eapply evolves_trans|by apply (ev_closing _ _ Hev2)|done].
  - split_and!; [|done|].
    + apply evolves_set_call; [done|]. apply op_inv_set_call; [done|]. split; [done|].
      intros op tid' Ht. rewrite <- Hm. rewrite Htasks in Ht. by apply dget_task_values in Ht.
    + simpl. by rewrite lookup_insert, decide_True by done.
Qed.

(** A task that changes phase is seen to change it before or after its record
    does. *)
Lemma evolves_phase s s' tid p :
  evolves s s' ->
  (forall t r, o_objects s' !! tid = Some t -> o_records s' !! dt_operation t = Some r ->
     (exists how, p = Done how)
     \/ p = Draining /\ op_status r = RUNNING /\ dt_cancel t = false
        /\ forall cid op, o_calls s' !! cid <> Some (AwaitCancel op tid)) ->
  evolves s (set_task_phase tid p s').
Proof.
  intros Hev Hp. eapply evolves_trans; [exact Hev|].
  apply evolves_same; [|done..]. apply op_inv_phase; [apply Hev|done].
Qed.

Lemma set_phase_twice tid p1 p2 s : set_task_phase tid p2 (set_task_phase tid p1 s) = set_task_phase tid p2 s.
Proof.
  unfold set_task_phase. destruct s. simpl. f_equal.
  apply map_eq. intros i. rewrite !lookup_alter. case_decide; [subst|done].
  rewrite decide_True by done.
  by destruct (o_objects0 !! i).
Qed.

Lemma set_phase_finish now failure op st res err tid p s :
  finish now failure op st res err (set_task_phase tid p s)
  = let '(s', raised) := finish now failure op st res err s in (set_task_phase tid p s', raised).
Proof.
  unfold finish. simpl. destruct (o_records s !! op); [|done]. unfold audit. by destruct failure.
Qed.

Lemma settled_after_phase s op tid t how :
  op_inv s -> o_objects s !! tid = Some t -> dt_operation t = op -> settled op (set_task_phase tid (Done how) s).
Proof.
  intros Hinv Ht Hop. eapply settled_by_task.
  - apply op_inv_phase; [done|]. left. by eexists.
  - simpl. rewrite lookup_alter, decide_True, Ht by done. done.
  - done.
  - done.
Qed.

Lemma task_ends_evolves now failure how tid s : op_inv s -> evolves s (task_ends now failure how tid s).
Proof.
  intros Hinv. unfold task_ends.
  destruct (o_objects s !! tid) as [[op [| |] cancel]|] eqn:Ht; try by apply evolves_refl.
  destruct (oi_object _ Hinv _ _ Ht) as (r & Hr & Hst). simpl in Hr, Hst.
  set (s0 := set_task_phase tid (Done TaskReturned) s).
  assert (Hev0 : evolves s s0) by (apply evolves_phase; [by apply evolves_refl|left; by eexists]).
  assert (Hall : forall st res err, finishes r st res err ->
    let '(s', raised) := finish now failure op st res err s in forall how', evolves s (set_task_phase tid (Done how') s')).
  { intros st res err Hf.
    destruct (finish_evolves now failure op st res err r s0 (ev_inv _ _ Hev0) Hr Hf) as [Hev _];
      [by eapply settled_after_phase|].
    unfold s0 in Hev. rewrite set_phase_finish in Hev.
    destruct (finish now failure op st res err s) as [s' raised]. simpl in Hev. intros how'.
    rewrite <- (set_phase_twice tid (Done TaskReturned)).
    apply evolves_phase; [by eapply evolves_trans|left; by eexists]. }
  destruct how as [res|e|].
  - specialize (Hall SUCCEEDED (Some res) None ltac:(by split_and!)).
    destruct (finish now failure op SUCCEEDED (Some res) None s) as [s' raised]. apply Hall.
  - specialize (Hall FAILED None (Some (error_from_exception e)) ltac:(by split_and!)).
    destruct (finish now failure op FAILED None (Some (error_from_exception e)) s) as [s' raised]. apply Hall.
  - specialize (Hall CANCELLED None None ltac:(simpl; by rewrite Hst)).
    destruct (finish now failure op CANCELLED None None s) as [s' raised]. apply Hall.
Qed.

Lemma task_starts_evolves now failure tid s : op_inv s -> evolves s (task_starts now failure tid s).
Proof.
  intros Hinv. unfold task_starts.
  destruct (o_objects s !! tid) as [[op [| |] cancel]|] eqn:Ht; try by apply evolves_refl.
  destruct (oi_object _ Hinv _ _ Ht) as (r & Hr & Hst). simpl in Hr, Hst.
  destruct cancel; [apply evolves_phase; [by apply evolves_refl|left; by eexists]|]. rewrite Hr.
  set (r' := r <| op_status := RUNNING |> <| op_started_at := Some now |>).
  set (s0 := set_task_phase tid (Done TaskReturned) s).
  assert (Hev0 : evolves s s0) by (apply evolves_phase; [by apply evolves_refl|left; by eexists]).
  destruct (oi_record _ Hinv _ _ Hr) as (Hid & Hl & Hrep).
  assert (Hl' : legal r /\ op_started_at r = None) by (unfold legal in *; rewrite Hst in *; naive_solver).
  assert (Hev : evolves s0 (move_operation op r' s0)).
  { eapply evolves_move; [|exact Hr|by constructor].
    eapply op_inv_move; [apply Hev0|exact Hr|by rewrite Hst|done| |done| |].
    - unfold legal in *. rewrite Hst in Hl. simpl. split; [by eexists|naive_solver].
    - unfold life, r'. simpl. destruct Hl' as [_ ->]. by rewrite Hst.
    - by eapply settled_after_phase. }
  assert (Hno : forall cid o, o_calls s !! cid <> Some (AwaitCancel o tid)).
  { intros cid o Hc. destruct (oi_call _ Hinv _ _ Hc) as (t & Ht' & _ & Hd). rewrite Ht in Ht'.
    simplify_eq. by destruct Hd. }
  assert (Heq : forall p l, set_task_phase tid p ((publish_operation r' (put_operation op r' s)) <| o_audits := l |>)
    = set_task_phase tid p ((move_operation op r' s0) <| o_audits := l |>)).
  { intros p l. symmetry. etrans; [|apply (set_phase_twice tid (Done TaskReturned))]. reflexivity. }
  destruct (audit_changes r' "running" failure (publish_operation r' (put_operation op r' s))) as [Hra [l Hl1]].
  destruct (audit r' "running" failure (publish_operation r' (put_operation op r' s))) as [s1 raised].
  cbn [fst snd] in Hra, Hl1. subst s1 raised. rewrite Heq.
  apply evolves_phase; [apply evolves_audits; by eapply evolves_trans|].
  intros t r0. simpl. rewrite lookup_alter, decide_True, Ht by done. intros [= <-]. simpl.
  rewrite lookup_insert, decide_True by done. intros [= <-]. destruct failure; [left; by eexists|right].
  by split_and!.
Qed.

(** The state that creating an operation leaves. *)
Lemma create_fields uuid now tid runtime q s :
  let '(s', r) := create_operation uuid now tid runtime q s in
  r = new_operation uuid now runtime q s
  /\ o_records s' = <[uuid := r]> (o_records s) /\ o_tasks s' = dset uuid tid (o_tasks s)
  /\ o_objects s' = <[tid := Build_drain_task uuid Scheduled false]> (o_objects s)
  /\ o_idempotency s' = match idempotency_of q with
                        | Some b => <[b := uuid]> (o_idempotency s)
                        | None => o_idempotency s
                        end
  /\ o_calls s' = o_calls s /\ o_closing s' = o_closing s
  /\ (forall op, announced op s' = announced op s ++ if decide (uuid = op) then [PENDING] else []).
Proof.
  unfold create_operation. split_and!; try (by destruct (idempotency_of q)).
  intros op. rewrite announced_publish. by destruct (idempotency_of q).
Qed.

Lemma create_evolves uuid now tid runtime q s :
  op_inv s -> o_closing s = false -> o_records s !! uuid = None -> o_objects s !! tid = None ->
  (forall b, idempotency_of q = Some b -> o_idempotency s !! b = None) ->
  evolves s (create_operation uuid now tid runtime q s).1.
Proof.
  intros Hinv Hopen Hu Ht Hb. pose proof (create_fields uuid now tid runtime q s) as H.
  destruct (create_operation uuid now tid runtime q s) as [s' r]. simpl.
  destruct H as (Hr & Hrec & Htasks & Hobj & Hidem & Hcalls & Hclosing & Hann).
  assert (Hno : forall op t, o_objects s !! op = Some t -> dt_operation t <> uuid).
  { intros op t Hto Heq. destruct (oi_object _ Hinv _ _ Hto) as (r0 & Hr0 & _). by rewrite Heq, Hu in Hr0. }
  assert (Hnt : dget uuid (o_tasks s) = None).
  { destruct (dget uuid (o_tasks s)) as [x|] eqn:Hx; [|done].
    destruct (oi_task _ Hinv _ _ Hx) as [(r0 & Hr0 & _) _]. by rewrite Hu in Hr0. }
  assert (Hold : forall x t, o_objects s !! x = Some t -> o_objects s' !! x = Some t).
  { intros x t Hx. rewrite Hobj, lookup_insert_ne; [done|]. intros ->. congruence. }
  destruct Hinv. split; [split| | | |]; rewrite ?Hrec, ?Htasks, ?Hcalls, ?Hclosing, ?Hidem.
  - intros op r0. rewrite lookup_insert. case_decide; [|eauto]. subst op. intros [= <-]. by rewrite Hr.
  - by apply NoDup_dset.
  - intros op x. destruct (decide (op = uuid)) as [->|Hne].
    + rewrite dget_dset_eq. intros [= <-]. rewrite Hobj, !lookup_insert, !decide_True by done.
      split; eexists; split; try done. by rewrite Hr.
    + rewrite dget_dset_ne, lookup_insert_ne by done. intros Hx.
      destruct (oi_task0 _ _ Hx) as [? (t & Hxt & ?)]. split; [done|]. eauto.
  - intros op r0. rewrite lookup_insert. case_decide as Hop.
    + subst op. intros _ _. exists tid. apply dget_dset_eq.
    + rewrite dget_dset_ne by done. apply oi_active0.
  - intros x t. rewrite Hobj, lookup_insert. case_decide as Hx.
    + intros [= <-]. simpl. exists r. rewrite lookup_insert, decide_True by done. by rewrite Hr.
    + intros Hxt. rewrite lookup_insert_ne by (intros Heq; by apply (Hno _ _ Hxt)). by apply oi_object0 in Hxt.
  - intros x1 x2 t1 t2. rewrite Hobj, !lookup_insert. repeat case_decide; subst; try done.
    + intros [= <-] H2 Heq. by destruct (Hno _ _ H2).
    + intros H1 [= <-] Heq. by destruct (Hno _ _ H1).
    + apply oi_unique0.
  - intros cid c Hc. pose proof (oi_call0 _ _ Hc) as Hok. destruct c as [op x|x|op x|]; try done.
    + destruct Hok as (t & Hx & ?). eauto.
    + destruct Hok. congruence.
    + destruct Hok as (t & Hx & ?). eauto.
  - intros b op Hbop. rewrite lookup_insert. case_decide; [done|].
    destruct (idempotency_of q) as [b'|]; [|by eapply oi_binding0].
    rewrite lookup_insert in Hbop. case_decide; [congruence|by eapply oi_binding0].
  - intros op. rewrite Hann, oi_events0, lookup_insert. case_decide; [subst op|by rewrite app_nil_r].
    by rewrite Hu, Hr.
  - intros op. rewrite lookup_insert. case_decide; [subst op|done]. rewrite Hu. apply rtc_once.
    constructor. by rewrite Hr.
  - intros b op Hbop. destruct (idempotency_of q) as [b'|] eqn:Hq; [|done].
    rewrite lookup_insert_ne; [done|]. intros ->. specialize (Hb _ eq_refl). congruence.
  - done.
  - congruence.
Qed.

(** Everything [submit_drain] can answer. *)
Lemma submit_cases uuid now tid route q s :
  let '(s', r) := submit_drain uuid now tid route q s in
  match r with
  | Err _ => s' = s
  | Ok r =>
      fleb (dr_timeout q) fzero = false /\ o_closing s = false
      /\ ((exists runtime, route = Ok runtime /\ (s', r) = create_operation uuid now tid runtime q s
           /\ forall b, idempotency_of q = Some b -> o_idempotency s !! b = None)
          \/ (s' = s /\ exists b op r0, idempotency_of q = Some b /\ o_idempotency s !! b = Some op
                /\ o_records s !! op = Some r0 /\ binding_differs q r0 = false
                /\ r = r0 <| op_replay := true |>))
  end.
Proof.
  unfold submit_drain. destruct (fleb (dr_timeout q) fzero); [done|]. destruct route as [runtime|e]; [|done].
  destruct (o_closing s); [done|]. destruct (idempotency_of q) as [b|] eqn:Hq.
  - destruct (o_idempotency s !! b) as [op|] eqn:Hb.
    + destruct (o_records s !! op) as [r0|] eqn:Hr; [|done]. destruct (binding_differs q r0) eqn:Hd; [done|].
      split_and!; try done. right. split; [done|]. by exists b, op, r0.
    + destruct (create_operation uuid now tid runtime q s) as [s' r] eqn:Hc. split_and!; try done.
      left. exists runtime. split_and!; try done. by intros b' [= <-].
  - destruct (create_operation uuid now tid runtime q s) as [s' r] eqn:Hc. split_and!; try done.
    left. by exists runtime.
Qed.

Lemma submit_evolves uuid now tid route q s :
  op_inv s -> o_records s !! uuid = None -> o_objects s !! tid = None ->
  evolves s (submit_drain uuid now tid route q s).1.
Proof.
  intros Hinv Hu Ht. pose proof (submit_cases uuid now tid route q s) as H.
  destruct (submit_drain uuid now tid route q s) as [s' [r|e]].
  - destruct H as (_ & Hopen & [(runtime & _ & Heq & Hb)|[-> _]]); [|by apply evolves_refl].
    change (evolves s s'). pose proof (create_evolves uuid now tid runtime q s Hinv Hopen Hu Ht Hb) as Hev.
    by rewrite <- Heq in Hev.
  - subst s'. by apply evolves_refl.
Qed.

Lemma begin_wait_evolves s s' cid op : evolves s s' -> evolves s (begin_wait cid op s').
Proof.
  intros Hev. unfold begin_wait. destruct (dget op (o_tasks s')) as [tid|] eqn:Ht; [|by apply evolves_ended].
  apply evolves_set_call; [done|]. apply op_inv_set_call; [apply Hev|].
  apply (oi_task _ (ev_inv _ _ Hev) _ _ Ht).
Qed.

Lemma begin_cancel_evolves s cid op : op_inv s -> evolves s (begin_cancel cid op s).
Proof.
  intros Hinv. pose proof (evolves_refl _ Hinv) as Hev. unfold begin_cancel.
  destruct (o_records s !! op) as [r|]; [|by apply evolves_ended].
  destruct (dget op (o_tasks s)) as [tid|] eqn:Ht; [|by apply evolves_ended].
  destruct (terminal (op_status r)); [by apply evolves_ended|].
  assert (Hev' : evolves s (request_cancel tid s)) by (apply evolves_same; [by apply op_inv_request_cancel|done..]).
  apply evolves_set_call; [done|]. apply op_inv_set_call; [apply Hev'|].
  destruct (oi_task _ Hinv _ _ Ht) as [_ (t & Hto & Hop)]. simpl. rewrite lookup_alter, decide_True, Hto by done.
  eexists. split; [done|]. unfold task_done. destruct (dt_phase t) eqn:Hp; simpl; rewrite ?Hp; auto.
Qed.

Lemma resume_call_evolves now failures cid s : op_inv s -> evolves s (resume_call now failures cid s).
Proof.
  intros Hinv. pose proof (evolves_refl _ Hinv) as Hev. unfold resume_call.
  destruct (o_calls s !! cid) as [[op tid|tids|op tid|a]|] eqn:Hc; try done.
  - destruct (is_task_done s tid) eqn:Hd; [|done].
    destruct (oi_call _ Hinv _ _ Hc) as (t & Ht & Hop & _). rewrite (is_task_done_spec _ _ _ Ht) in Hd.
    pose proof (finish_cancelled_evolves now (failures op) op s Hinv (settled_by_task _ _ _ _ Hinv Ht Hop Hd)) as H.
    destruct (finish_cancelled_if_active now (failures op) op s) as [s' raised]. apply evolves_ended, H.
  - destruct (forallb (is_task_done s) tids) eqn:Hd; [|done]. destruct (oi_call _ Hinv _ _ Hc) as [_ Hin].
    apply end_shutdown_evolves; [done|]. intros op tid Ht. rewrite forallb_forall in Hd.
    apply Hd, list_elem_of_In. by eapply Hin.
  - destruct (dt_phase <$> o_objects s !! tid) as [[| |[| |e]]|]; first [done|by apply evolves_ended].
Qed.

(** Every step of every call and task. *)
Lemma operation_step_evolves ev s : op_inv s -> fresh_event ev s = true -> evolves s (operation_step ev s).
Proof.
  intros Hinv Hf. pose proof (evolves_refl _ Hinv) as Hev.
  destruct ev as [uuid now tid route q cid|uuid now tid route q cid|op cid|op cid|now fs cid
                 |now f tid|now f how tid|now fs cid|cid]; cbn [operation_step].
  - cbn in Hf. bool_prop. apply is_absent_None in H, H0, H1.
    pose proof (submit_evolves uuid now tid route q s Hinv H H1) as Hs.
    destruct (submit_drain uuid now tid route q s) as [s' r]. by apply evolves_ended.
  - cbn in Hf. bool_prop. apply is_absent_None in H, H0, H1.
    pose proof (submit_evolves uuid now tid route q s Hinv H H1) as Hs.
    destruct (submit_drain uuid now tid route q s) as [s' [r|e]]; [by apply begin_wait_evolves|by apply evolves_ended].
  - by apply evolves_ended.
  - by apply begin_cancel_evolves.
  - by apply begin_shutdown_evolves.
  - by apply task_starts_evolves.
  - by apply task_ends_evolves.
  - by apply resume_call_evolves.
  - unfold abandon_call. destruct (o_calls s !! cid) as [[| | |]|]; first [done|by apply evolves_ended].
Qed.

Lemma runs_evolves s s' : op_inv s -> runs_to s s' -> evolves s s'.
Proof.
  intros Hinv H. induction H as [|s' ev H IH Hf]; [by apply evolves_refl|].
  eapply evolves_trans; [exact IH|]. apply operation_step_evolves; [apply IH|done].
Qed.

(** ** Consequences *)

Definition op_reachable (i : string) (s : operations) : Prop := runs_to (init_operations i) s.

Lemma op_reachable_inv i s : op_reachable i s -> op_inv s.
Proof. intros H. apply (runs_evolves (init_operations i)); [apply init_op_inv|done]. Qed.

Lemma runs_inv s s' : op_inv s -> runs_to s s' -> op_inv s'.
Proof. intros Hinv H. apply (runs_evolves _ _ Hinv H). Qed.

(** What an operation is, apart from its progress. *)
Definition identity (r : operation_record) :=
  (op_id r, op_runtime_instance_id r, op_model_id r, op_timeout r, op_idempotency_key r, op_created_at r).

Lemma lifecycle_some o1 o2 r1 :
  rtc lifecycle o1 o2 -> o1 = Some r1 ->
  exists r2, o2 = Some r2 /\ identity r2 = identity r1 /\ (terminal (op_status r1) = true -> r2 = r1).
Proof.
  intros H. revert r1. induction H as [o|o1 o2 o3 H12 H23 IH]; intros r1 ->; [by exists r1|].
  assert (exists r, o2 = Some r /\ identity r = identity r1 /\ terminal (op_status r1) = false)
    as (r & Hr & Hid & Ht).
  { inversion H12 as [|? ? Hs|? ? ? Hs|? ? ? Hs|? ? Ha]; subst; eexists; (split; [done|]); rewrite ?Hs;
      (split; [done|]); try done. rewrite active_terminal in Ha. by apply negb_true_iff. }
  destruct (IH r Hr) as (r3 & Hr3 & Hid3 & _). exists r3. split_and!; [done|congruence|congruence].
Qed.

Lemma quiet_forever s s' :
  op_inv s -> quiet s -> o_closing s = true -> runs_to s s' -> o_records s' = o_records s.
Proof.
  intros Hinv Hq Hc H. destruct (runs_evolves _ _ Hinv H) as [_ Hl _ _ Hn].
  apply map_eq. intros op. destruct (o_records s !! op) as [r|] eqn:Hr; [|by apply Hn].
  destruct (lifecycle_some _ _ _ (Hl op) Hr) as (r' & -> & _ & Heq). by rewrite Heq by eauto.
Qed.

(** An operation whose task died while it ran stays as it is while nobody cancels
    it or shuts the manager down. *)
Definition spares (op : string) (ev : operation_event) : bool :=
  match ev with
  | Cancel op' _ => negb (op' =? op)%string
  | Shutdown _ _ _ => false
  | _ => true
  end.

Inductive runs_sparing (op : string) (s : operations) : operations -> Prop :=
| sparing_refl : runs_sparing op s s
| sparing_step s' ev : runs_sparing op s s' -> fresh_event ev s' = true -> spares op ev = true ->
    runs_sparing op s (operation_step ev s').

Record stranded (op : string) (r : operation_record) (s : operations) : Prop := {
  st_inv : op_inv s;
  st_record : o_records s !! op = Some r;
  st_settled : settled op s;
  st_calls : forall cid c, o_calls s !! cid = Some c ->
    match c with AwaitCancel op' _ => op' <> op | AwaitShutdown _ => False | _ => True end
}.

Lemma stranded_set_call op r s cid c :
  stranded op r s -> op_inv (set_call cid c s) ->
  match c with AwaitCancel op' _ => op' <> op | AwaitShutdown _ => False | _ => True end ->
  stranded op r (set_call cid c s).
Proof.
  intros [] Hinv Hc. split; try done. intros cid' c'. simpl. rewrite lookup_insert.
  case_decide; [by intros [= <-]|apply st_calls0].
Qed.

(** Steps that leave the record, the calls and the end of the tasks of [op]. *)
Lemma stranded_keeps op r s s' :
  stranded op r s -> op_inv s' -> o_records s' !! op = Some r -> o_calls s' = o_calls s ->
  (forall tid t', o_objects s' !! tid = Some t' -> dt_operation t' = op ->
     exists t, o_objects s !! tid = Some t /\ dt_operation t = op /\ (task_done t = true -> task_done t' = true)) ->
  stranded op r s'.
Proof.
  intros [] Hinv Hr Hc Ho. split; [done|done| |by rewrite Hc].
  intros tid t' Ht' Hop. destruct (Ho _ _ Ht' Hop) as (t & Ht & Hopt & Hd). by eapply Hd, st_settled0.
Qed.

(** What the steps of a task leave alone. *)
Record touches_only (tid : nat) (op : string) (s s' : operations) : Prop := {
  to_record : forall op', op' <> op -> o_records s' !! op' = o_records s !! op';
  to_calls : o_calls s' = o_calls s;
  to_object : forall tid', tid' <> tid -> o_objects s' !! tid' = o_objects s !! tid';
  to_operation : forall t', o_objects s' !! tid = Some t' ->
    exists t, o_objects s !! tid = Some t /\ dt_operation t' = dt_operation t
}.

Lemma touches_phase tid op s s' p : touches_only tid op s s' -> touches_only tid op s (set_task_phase tid p s').
Proof.
  intros []. split; try assumption.
  - intros tid' Hne. simpl. rewrite lookup_alter_ne by done. by apply to_object0.
  - intros t'. simpl. rewrite lookup_alter, decide_True by done.
    destruct (o_objects s' !! tid) as [t|] eqn:Ht; simpl; [|done]. intros [= <-]. apply (to_operation0 t eq_refl).
Qed.

Lemma touches_same tid op s s' :
  (forall op', op' <> op -> o_records s' !! op' = o_records s !! op') ->
  o_calls s' = o_calls s -> o_objects s' = o_objects s -> touches_only tid op s s'.
Proof. intros Hr Hc Ho. split; try done; rewrite Ho; eauto. Qed.

Lemma finish_touches now failure op st res err tid s :
  touches_only tid op s (finish now failure op st res err s).1.
Proof.
  unfold finish. destruct (o_records s !! op) as [r|] eqn:Hr; [|by apply touches_same].
  unfold audit. destruct failure; apply touches_same; try done; intros op' Hne; simpl;
    by rewrite lookup_insert_ne.
Qed.

Lemma task_starts_touches now failure tid s t :
  o_objects s !! tid = Some t -> touches_only tid (dt_operation t) s (task_starts now failure tid s).
Proof.
  intros Ht. unfold task_starts. rewrite Ht. destruct t as [op [| |] cancel]; try by apply touches_same.
  destruct cancel; [apply touches_phase; by apply touches_same|].
  destruct (o_records s !! op) as [r|] eqn:Hr; [|apply touches_phase; by apply touches_same].
  unfold audit. destruct failure; apply touches_phase; apply touches_same; try done;
    intros op' Hne; simpl in *; by rewrite lookup_insert_ne.
Qed.

Lemma task_ends_touches now failure how tid s t :
  o_objects s !! tid = Some t -> touches_only tid (dt_operation t) s (task_ends now failure how tid s).
Proof.
  intros Ht. unfold task_ends. rewrite Ht. destruct t as [op [| |] cancel]; try by apply touches_same.
  destruct how;
    match goal with |- context [finish ?n ?f ?o ?st ?r ?e s] =>
      pose proof (finish_touches n f o st r e tid s) as Hf; destruct (finish n f o st r e s) as [s' raised]
    end; by apply touches_phase.
Qed.

Lemma task_idle now failure how tid s :
  (forall t, o_objects s !! tid = Some t -> task_done t = true) ->
  task_starts now failure tid s = s /\ task_ends now failure how tid s = s.
Proof.
  intros Hd. unfold task_starts, task_ends. destruct (o_objects s !! tid) as [[op [| |] c]|]; try done;
    by specialize (Hd _ eq_refl).
Qed.

Lemma stranded_touched op r s s' tid t :
  stranded op r s -> o_objects s !! tid = Some t -> dt_operation t <> op ->
  touches_only tid (dt_operation t) s s' -> op_inv s' -> stranded op r s'.
Proof.
  intros Hs Ht Hne [Hr Hc Ho Hop] Hinv. apply (stranded_keeps _ _ s); [done|done| |done|].
  - rewrite Hr by done. apply Hs.
  - intros tid' t' Ht' Hop'. destruct (decide (tid' = tid)) as [->|Hnt].
    + destruct (Hop _ Ht') as (t0 & Ht0 & Heq). congruence.
    + rewrite Ho in Ht' by done. by exists t'.
Qed.

Lemma stranded_create op r uuid now tid runtime q s :
  stranded op r s -> o_records s !! uuid = None -> op_inv (create_operation uuid now tid runtime q s).1 ->
  stranded op r (create_operation uuid now tid runtime q s).1.
Proof.
  intros Hs Hu Hinv. pose proof (create_fields uuid now tid runtime q s) as H.
  destruct (create_operation uuid now tid runtime q s) as [s' r']. simpl in *.
  destruct H as (_ & Hrec & _ & Hobj & _ & Hcalls & _).
  assert (uuid <> op) by (intros ->; rewrite (st_record _ _ _ Hs) in Hu; done).
  apply (stranded_keeps _ _ s); try done.
  - rewrite Hrec, lookup_insert_ne by done. apply Hs.
  - intros tid' t'. rewrite Hobj, lookup_insert. case_decide; [by intros [= <-]|]. intros. by exists t'.
Qed.

Lemma stranded_submit op r uuid now tid route q s :
  stranded op r s -> o_records s !! uuid = None -> o_objects s !! tid = None ->
  stranded op r (submit_drain uuid now tid route q s).1.
Proof.
  intros Hs Hu Ht. pose proof (submit_cases uuid now tid route q s) as H.
  pose proof (submit_evolves uuid now tid route q s (st_inv _ _ _ Hs) Hu Ht) as Hev.
  destruct (submit_drain uuid now tid route q s) as [s' [r'|e]]; [|by subst s'].
  destruct H as (_ & _ & [(runtime & _ & Heq & _)|[-> _]]); [|done].
  change (stranded op r s'). replace s' with (create_operation uuid now tid runtime q s).1 in * by by rewrite <- Heq.
  apply stranded_create; [done|done|apply Hev].
Qed.

Lemma stranded_finish_cancelled op op' r now failure s :
  stranded op r s -> settled op' s -> op' <> op ->
  stranded op r (finish_cancelled_if_active now failure op' s).1.
Proof.
  intros Hs Hd Hne. pose proof (finish_cancelled_evolves now failure op' s (st_inv _ _ _ Hs) Hd) as H.
  unfold finish_cancelled_if_active in *. destruct (o_records s !! op') as [r'|]; [|done].
  destruct (active (op_status r')); [|done].
  pose proof (finish_touches now failure op' CANCELLED None None 0 s) as Ht.
  destruct (finish now failure op' CANCELLED None None s) as [s' raised]. simpl in *.
  destruct H as (Hev & Ho & _). destruct Ht as [Hr Hc _ _].
  apply (stranded_keeps _ _ s); [done|apply Hev|rewrite Hr by done; apply Hs|done|].
  rewrite Ho. intros tid t ? ?. by exists t.
Qed.

Lemma stranded_ended op r s cid a : stranded op r s -> stranded op r (set_call cid (Ended a) s).
Proof. intros H. apply stranded_set_call; [done| |done]. by apply op_inv_set_call; [apply H|]. Qed.

Lemma stranded_begin_wait op r s cid op' : stranded op r s -> stranded op r (begin_wait cid op' s).
Proof.
  intros H. pose proof (begin_wait_evolves s s cid op' (evolves_refl _ (st_inv _ _ _ H))) as Hev.
  unfold begin_wait in *. destruct (dget op' (o_tasks s)); [|by apply stranded_ended].
  apply stranded_set_call; [done|apply Hev|done].
Qed.

Lemma stranded_begin_cancel op r s cid op' : op' <> op -> stranded op r s -> stranded op r (begin_cancel cid op' s).
Proof.
  intros Hne H. pose proof (begin_cancel_evolves s cid op' (st_inv _ _ _ H)) as Hev. unfold begin_cancel in *.
  destruct (o_records s !! op') as [r'|]; [|by apply stranded_ended].
  destruct (dget op' (o_tasks s)) as [tid|]; [|by apply stranded_ended].
  destruct (terminal (op_status r')); [by apply stranded_ended|].
  apply stranded_set_call; [|apply Hev|done].
  apply (stranded_keeps _ _ s); [done|by apply op_inv_request_cancel, H|apply H|done|].
  intros tid' t'. simpl. rewrite lookup_alter. case_decide; [subst|by exists t'].
  destruct (o_objects s !! tid') as [t|]; simpl; [|done]. intros [= <-] Hop. exists t.
  unfold task_done in *. by destruct (dt_phase t) eqn:Hp; simpl in *; rewrite ?Hp.
Qed.

Lemma stranded_task op r s tid (f : operations -> operations) :
  stranded op r s -> op_inv (f s) ->
  ((forall t, o_objects s !! tid = Some t -> task_done t = true) -> f s = s) ->
  (forall t, o_objects s !! tid = Some t -> touches_only tid (dt_operation t) s (f s)) ->
  stranded op r (f s).
Proof.
  intros Hs Hinv Hidle Htouch. destruct (o_objects s !! tid) as [t|] eqn:Ht; [|by rewrite Hidle].
  destruct (decide (dt_operation t = op)) as [Hop|Hne].
  - rewrite Hidle; [done|]. intros t' [= <-]. by eapply (st_settled _ _ _ Hs).
  - eapply stranded_touched; [done|exact Ht|done|by apply Htouch|done].
Qed.

Lemma stranded_resume op r now failures cid s :
  stranded op r s -> stranded op r (resume_call now failures cid s).
Proof.
  intros Hs. pose proof (st_inv _ _ _ Hs) as Hinv. unfold resume_call.
  destruct (o_calls s !! cid) as [[op' tid|tids|op' tid|a]|] eqn:Hc; try done.
  - pose proof (st_calls _ _ _ Hs _ _ Hc) as Hne. simpl in Hne.
    destruct (is_task_done s tid) eqn:Hd; [|done].
    destruct (oi_call _ Hinv _ _ Hc) as (t & Ht & Hop & _). rewrite (is_task_done_spec _ _ _ Ht) in Hd.
    pose proof (stranded_finish_cancelled op op' r now (failures op') s Hs
      (settled_by_task _ _ _ _ Hinv Ht Hop Hd) Hne) as H.
    destruct (finish_cancelled_if_active now (failures op') op' s) as [s' raised]. by apply stranded_ended.
  - by pose proof (st_calls _ _ _ Hs _ _ Hc).
  - destruct (dt_phase <$> o_objects s !! tid) as [[| |[| |e]]|]; first [done|by apply stranded_ended].
Qed.

Lemma stranded_step op r ev s :
  stranded op r s -> fresh_event ev s = true -> spares op ev = true -> stranded op r (operation_step ev s).
Proof.
  intros Hs Hf Hsp. pose proof (ev_inv _ _ (operation_step_evolves ev s (st_inv _ _ _ Hs) Hf)) as Hinv.
  destruct ev as [uuid now tid route q cid|uuid now tid route q cid|op' cid|op' cid|now fs cid
                 |now f tid|now f how tid|now fs cid|cid]; cbn [operation_step] in *.
  - cbn in Hf. bool_prop. apply is_absent_None in H, H0, H1.
    pose proof (stranded_submit op r uuid now tid route q s Hs H H1) as H'.
    destruct (submit_drain uuid now tid route q s) as [s' r']. by apply stranded_ended.
  - cbn in Hf. bool_prop. apply is_absent_None in H, H0, H1.
    pose proof (stranded_submit op r uuid now tid route q s Hs H H1) as H'.
    destruct (submit_drain uuid now tid route q s) as [s' [r'|e]]; [by apply stranded_begin_wait|by apply stranded_ended].
  - by apply stranded_ended.
  - cbn in Hsp. apply negb_true_iff, String.eqb_neq in Hsp. by apply stranded_begin_cancel.
  - done.
  - apply (stranded_task op r s tid); [done|done|intros H; apply (task_idle now f DrainCancelled tid s H)|intros; by apply task_starts_touches].
  - apply (stranded_task op r s tid); [done|done|intros H; apply (task_idle now f how tid s H)|intros; by apply task_ends_touches].
  - by apply stranded_resume.
  - unfold abandon_call in *. destruct (o_calls s !! cid) as [[| | |]|]; first [done|by apply stranded_ended].
Qed.

(** One step ends a task that was asked to stop, or runs the unload, or is done. *)
Lemma finish_keeps now failure op st res err s :
  o_objects (finish now failure op st res err s).1 = o_objects s
  /\ o_calls (finish now failure op st res err s).1 = o_calls s.
Proof. unfold finish. destruct (o_records s !! op); [|done]. unfold audit. by destruct failure. Qed.

Lemma task_settles now failure how tid s t :
  o_objects s !! tid = Some t -> dt_cancel t = true \/ task_done t = true \/ dt_phase t = Draining ->
  let s1 := task_ends now failure how tid (task_starts now failure tid s) in
  o_calls s1 = o_calls s
  /\ exists t1, o_objects s1 !! tid = Some t1 /\ task_done t1 = true.
Proof.
  intros Ht Hcd. cbv zeta. destruct t as [op [| |h] cancel].
  - destruct Hcd as [Hcan|[?|?]]; [|done..]. simpl in Hcan. subst cancel.
    assert (Hs : task_starts now failure tid s = set_task_phase tid (Done TaskCancelled) s)
      by (unfold task_starts; by rewrite Ht).
    assert (Hd : o_objects (set_task_phase tid (Done TaskCancelled) s) !! tid
      = Some (Build_drain_task op (Done TaskCancelled) true))
      by (simpl; by rewrite lookup_alter, decide_True, Ht).
    rewrite Hs. split; unfold task_ends; rewrite Hd; [done|by eexists].
  - assert (task_starts now failure tid s = s) as -> by (unfold task_starts; by rewrite Ht).
    split; [by apply (task_ends_touches now failure how tid s _ Ht)|]. unfold task_ends. rewrite Ht.
    destruct how; match goal with |- context [finish ?n ?f ?o ?st ?r ?e s] =>
      destruct (finish_keeps n f o st r e s) as [Hobj _]; destruct (finish n f o st r e s) as [s' raised] end;
      simpl in *; rewrite lookup_alter, decide_True, Hobj, Ht by done; by eexists.
  - destruct (task_idle now failure how tid s) as [-> ->]; [|by split; [done|eexists]].
    intros t' Ht'. rewrite Ht in Ht'. by injection Ht' as <-.
Qed.

(** An answered request with a key has bound the key to the operation it names. *)
Lemma bound_after_submit uuid now tid route q cid s r b :
  op_inv s ->
  let s' := operation_step (Submit uuid now tid route q cid) s in
  o_calls s' !! cid = Some (Ended (Returned r)) -> idempotency_of q = Some b ->
  exists r0, o_records s' !! op_id r = Some r0 /\ o_idempotency s' !! b = Some (op_id r)
    /\ identity r = identity r0.
Proof.
  intros Hinv s' Hcall Hq. subst s'. cbn [operation_step] in *.
  pose proof (submit_cases uuid now tid route q s) as H.
  destruct (submit_drain uuid now tid route q s) as [s1 [r1|e]]; simpl in Hcall;
    rewrite lookup_insert, decide_True in Hcall by done; [|done]. injection Hcall as ->.
  destruct H as (_ & _ & [(rt & _ & Heq & _)|[-> (b' & op & r0 & Hb & Hop & Hr & _ & Hrr)]]).
  - pose proof (create_fields uuid now tid rt q s) as Hc. rewrite <- Heq in Hc.
    destruct Hc as (Hr & Hrec & _ & _ & Hidem & _). exists r. simpl. rewrite Hrec, Hidem, Hq.
    replace (op_id r) with uuid by by rewrite Hr. by rewrite !lookup_insert, !decide_True.
  - rewrite Hq in Hb. injection Hb as <-. destruct (oi_record _ Hinv _ _ Hr) as (Hid & _).
    exists r0. assert (op_id r = op) as -> by (rewrite Hrr; exact Hid). split_and!; [done..|by rewrite Hrr].
Qed.

(** Only writing the audit log raises. *)
Lemma finish_cancelled_raises now failure op s :
  match (finish_cancelled_if_active now failure op s).2 with Some e => failure = Some e | None => True end.
Proof.
  unfold finish_cancelled_if_active, finish. destruct (o_records s !! op) as [r|]; [|done].
  destruct (active (op_status r)); [|done]. unfold audit. by destruct failure.
Qed.

Lemma end_shutdown_answer now failures cid s :
  (exists e op, failures op = Some e /\ o_calls (end_shutdown now failures cid s) !! cid = Some (Ended (Raised e)))
  \/ o_calls (end_shutdown now failures cid s) !! cid = Some (Ended ShutDown).
Proof.
  assert (H : forall ops s0, match (finish_all now failures ops s0).2 with
    | Some e => exists op, failures op = Some e | None => True end).
  { induction ops as [|op ops IH]; intros s0; simpl; [done|].
    pose proof (finish_cancelled_raises now (failures op) op s0) as Hr.
    destruct (finish_cancelled_if_active now (failures op) op s0) as [s1 [e|]]; [by exists op|apply IH]. }
  unfold end_shutdown. specialize (H (dkeys (o_tasks s)) s).
  destruct (finish_all now failures (dkeys (o_tasks s)) s) as [s1 [e|]]; simpl in *;
    rewrite lookup_insert, decide_True by done; [left|by right]. destruct H as [op Hop]. eauto.
Qed.

(** ** Properties *)

(** C16. Operations follow their lifecycle, and the event stream tells it.  Whatever
    calls, tasks and cancellations interleave: an operation that was recorded
    stays recorded as the same operation; its record only moves from pending to
    running to succeeded or failed, or from either to cancelled; once it is
    terminal it never changes; what its record holds fits its status; and the
    events published about it are exactly "pending", "running" if it started, and
    its one terminal status. *)
Theorem operations_follow_their_lifecycle i s s' op r :
  op_reachable i s -> runs_to s s' -> o_records s !! op = Some r ->
  exists r', o_records s' !! op = Some r' /\ rtc lifecycle (Some r) (Some r')
    /\ identity r' = identity r
    /\ (terminal (op_status r) = true -> r' = r)
    /\ legal r' /\ announced op s' = life r'.
Proof.
  intros Hreach Hrun Hr. pose proof (runs_evolves _ _ (op_reachable_inv _ _ Hreach) Hrun) as [Hinv Hl _ _ _].
  destruct (lifecycle_some _ _ _ (Hl op) Hr) as (r' & Hr' & Hid & Ht). exists r'.
  pose proof (Hl op) as Hlop. rewrite Hr, Hr' in Hlop. pose proof (oi_events _ Hinv op) as He. rewrite Hr' in He.
  destruct (oi_record _ Hinv _ _ Hr') as (_ & Hleg & _). by split_and!.
Qed.

(** C17. An idempotency key runs one operation.  Once a request with a key was
    answered with an operation, every later request of the same application with
    that key, however the operation went meanwhile, changes nothing: it is answered
    with that operation as it is then, marked as a replay, or, when it asks for
    another model or timeout, with a conflict. *)
Theorem idempotency_key_runs_once i s uuid now tid route q cid r s' b uuid' now' tid' runtime q' :
  op_reachable i s ->
  let ev := Submit uuid now tid route q cid in
  fresh_event ev s = true ->
  o_calls (operation_step ev s) !! cid = Some (Ended (Returned r)) ->
  runs_to (operation_step ev s) s' ->
  idempotency_of q = Some b -> idempotency_of q' = Some b ->
  fleb (dr_timeout q') fzero = false -> o_closing s' = false ->
  exists r', o_records s' !! op_id r = Some r'
    /\ submit_drain uuid' now' tid' (Ok runtime) q' s'
       = (s', if binding_differs q' r then Err (idempotency_conflict q' (op_id r) r')
              else Ok (r' <| op_replay := true |>)).
Proof.
  intros Hreach ev Hf Hcall Hrun Hq Hq' Ht Hopen. pose proof (op_reachable_inv _ _ Hreach) as Hinv.
  destruct (bound_after_submit uuid now tid route q cid s r b Hinv Hcall Hq) as (r0 & Hr0 & Hb & Hid).
  assert (Hinv1 : op_inv (operation_step ev s)) by by apply operation_step_evolves.
  destruct (runs_evolves _ _ Hinv1 Hrun) as [_ Hl Hbind _ _].
  destruct (lifecycle_some _ _ _ (Hl (op_id r)) Hr0) as (r' & Hr' & Hid' & _). exists r'. split; [done|].
  unfold submit_drain. rewrite Ht, Hopen, Hq', (Hbind _ _ Hb), Hr'.
  assert (op_model_id r' = op_model_id r /\ op_timeout r' = op_timeout r) as [Hm Hto]
    by (unfold identity in *; split; congruence).
  replace (binding_differs q' r') with (binding_differs q' r); [by destruct (binding_differs q' r)|].
  unfold binding_differs. by rewrite Hm, Hto.
Qed.

(** Cancelling settles an operation.  In every reachable state, a call of
    [cancel] that waits is answered after at most one more step of the operation's
    task, however that task ends: the operation is then terminal, and the answer
    is its record, unless writing the audit log raised. *)
Theorem cancel_settles i s cid op tid now failure how now' failures :
  op_reachable i s -> o_calls s !! cid = Some (AwaitCancel op tid) ->
  let s1 := task_ends now failure how tid (task_starts now failure tid s) in
  let s2 := resume_call now' failures cid s1 in
  exists r, o_records s2 !! op = Some r /\ terminal (op_status r) = true
    /\ (o_calls s2 !! cid = Some (Ended (Returned r))
        \/ exists e, failures op = Some e /\ o_calls s2 !! cid = Some (Ended (Raised e))).
Proof.
  intros Hreach Hc s1 s2. pose proof (op_reachable_inv _ _ Hreach) as Hinv.
  destruct (oi_call _ Hinv _ _ Hc) as (t & Ht & Hop & Hcd).
  assert (Hinv1 : op_inv s1) by (apply task_ends_evolves, task_starts_evolves; done).
  destruct (task_settles now failure how tid s t Ht) as (Hcalls & t1 & Ht1 & Hd); [tauto|].
  fold s1 in Hcalls, Ht1. unfold s2, resume_call. rewrite Hcalls, Hc, (is_task_done_spec _ _ _ Ht1), Hd.
  assert (Hop1 : dt_operation t1 = op).
  { pose proof (oi_call _ Hinv1 cid (AwaitCancel op tid)) as H. rewrite Hcalls in H.
    destruct (H Hc) as (t1' & Ht1' & <- & _). congruence. }
  pose proof (finish_cancelled_evolves now' (failures op) op s1 Hinv1 (settled_by_task _ _ _ _ Hinv1 Ht1 Hop1 Hd)) as H.
  pose proof (finish_cancelled_raises now' (failures op) op s1) as Hraise.
  destruct (oi_object _ Hinv1 _ _ Ht1) as (r1 & Hr1 & _). rewrite Hop1 in Hr1.
  destruct (finish_cancelled_if_active now' (failures op) op s1) as [s3 raised]. destruct H as (Hev & _ & _ & Hterm).
  destruct (lifecycle_some _ _ _ (ev_life _ _ Hev op) Hr1) as (r & Hr & _ & _).
  exists r. split_and!; [done|by apply Hterm|]. unfold get_operation. simpl.
  rewrite lookup_insert, decide_True, Hr by done. simpl in Hraise.
  destruct raised as [e|]; [right; exists e; by rewrite Hraise|by left].
Qed.

(** Shutdown is final.  In every reachable state, once the tasks a shutdown
    waits for are done, resuming it answers; unless writing the audit log raised,
    every operation is then terminal, and whatever happens afterwards, no record
    changes and no operation is ever created. *)
Theorem shutdown_is_final i s cid tids now failures :
  op_reachable i s -> o_calls s !! cid = Some (AwaitShutdown tids) ->
  Forall (fun tid => is_task_done s tid = true) tids ->
  let s1 := resume_call now failures cid s in
  (exists e op, failures op = Some e /\ o_calls s1 !! cid = Some (Ended (Raised e)))
  \/ o_calls s1 !! cid = Some (Ended ShutDown) /\ quiet s1
     /\ forall s2, runs_to s1 s2 -> o_records s2 = o_records s1.
Proof.
  intros Hreach Hc Hall s1. pose proof (op_reachable_inv _ _ Hreach) as Hinv.
  destruct (oi_call _ Hinv _ _ Hc) as [Hclosing Hin].
  assert (Heq : s1 = end_shutdown now failures cid s).
  { unfold s1, resume_call. rewrite Hc. replace (forallb (is_task_done s) tids) with true; [done|].
    symmetry. apply forallb_forall. intros tid Ht. rewrite Forall_forall in Hall. by apply Hall, list_elem_of_In. }
  destruct (end_shutdown_evolves now failures cid s Hinv) as [Hev Hq].
  { intros op tid Ht. rewrite Forall_forall in Hall. by eapply Hall, Hin. }
  rewrite <- Heq in Hev, Hq. destruct (end_shutdown_answer now failures cid s) as [(e & op & He & Ha)|Ha];
    rewrite <- Heq in Ha; [left; by exists e, op|right].
  split_and!; [done|by apply Hq|]. intros s2 Hrun.
  apply quiet_forever; [apply Hev|by apply Hq|by apply (ev_closing _ _ Hev)|done].
Qed.

(** A failing audit strands an operation.  When writing the audit record of the
    start of a drain raises, the task is over but the operation stays RUNNING: in
    whatever way everything goes on, it is never finished as long as nobody cancels
    it or shuts the manager down. *)
Theorem failed_audit_strands_the_operation i s tid op now e s' :
  op_reachable i s ->
  o_objects s !! tid = Some (Build_drain_task op Scheduled false) ->
  (forall cid tids, o_calls s !! cid <> Some (AwaitShutdown tids)) ->
  runs_sparing op (task_starts now (Some e) tid s) s' ->
  exists r, o_records s' !! op = Some r /\ op_status r = RUNNING
    /\ forall tid' t, o_objects s' !! tid' = Some t -> dt_operation t = op -> task_done t = true.
Proof.
  intros Hreach Ht Hno Hrun. pose proof (op_reachable_inv _ _ Hreach) as Hinv.
  destruct (oi_object _ Hinv _ _ Ht) as (r & Hr & Hst). simpl in Hr, Hst.
  pose proof (ev_inv _ _ (task_starts_evolves now (Some e) tid s Hinv)) as Hinv1.
  set (r' := r <| op_status := RUNNING |> <| op_started_at := Some now |>).
  assert (Hs : stranded op r' (task_starts now (Some e) tid s)).
  { pose proof (task_starts_touches now (Some e) tid s _ Ht) as [_ Hcalls _ _].
    assert (Heq : task_starts now (Some e) tid s = set_task_phase tid (Done (TaskRaised e))
      (publish_operation r' (put_operation op r' s))) by (unfold task_starts; by rewrite Ht, Hr).
    split; [done| | |].
    - rewrite Heq. simpl. by rewrite lookup_insert, decide_True.
    - refine (settled_by_task _ op tid (Build_drain_task op (Done (TaskRaised e)) false) Hinv1 _ eq_refl eq_refl).
      rewrite Heq. simpl. by rewrite lookup_alter, decide_True, Ht.
    - rewrite Hcalls. intros cid c Hcid. destruct c as [op' tid'|tids| |]; try done.
      + intros ->. destruct (oi_call _ Hinv _ _ Hcid) as (t & Ht' & Hop & Hd).
        assert (tid' = tid) as -> by by apply (oi_unique _ Hinv _ _ _ _ Ht' Ht).
        rewrite Ht in Ht'. injection Ht' as <-. by destruct Hd.
      + by apply Hno in Hcid. }
  assert (Hfinal : stranded op r' s') by (induction Hrun as [|s1 ev _ IH Hf Hsp]; [done|by apply stranded_step]).
  exists r'. destruct Hfinal. by split_and!.
Qed.

(** ** Concrete runs *)

Lemma runs_run s0 evs s s' : runs_to s0 s -> run_operations evs s = Some s' -> runs_to s0 s'.
Proof.
  revert s. induction evs as [|ev evs IH]; intros s H Hr; simpl in Hr; [by injection Hr as <-|].
  destruct (fresh_event ev s) eqn:Hf; [|done]. apply (IH (operation_step ev s)); [by constructor|done].
Qed.

Definition half_minute : f64 := f_of_Z 30.

Definition drain_model_a : drain_request :=
  Build_drain_request "qwen-1.5b" half_minute (Some "editor") None (Some "nightly").

Definition submit_a (uuid : string) (now : Z) (tid cid : nat) : operation_event :=
  Submit uuid now tid (Ok "llamacpp") drain_model_a cid.

Definition after (evs : list operation_event) : operations :=
  match run_operations evs (init_operations "instance") with
  | Some s => s
  | None => init_operations "instance"
  end.

Definition no_failure : string -> option exn := fun _ => None.

(** Two requests with one key, a cancellation while the drain runs. *)
Definition cancelled_run : list operation_event :=
  [submit_a "op-1" 1 0 0; TaskStarts 2 None 0; submit_a "op-2" 3 1 1; Cancel "op-1" 2].

(** The drain ended before the cancellation reached it. *)
Definition completed_run : list operation_event :=
  cancelled_run
  ++ [TaskEnds 4 None (DrainResult (Build_lifecycle_result "op-3" "instance" "qwen-1.5b" "llamacpp"
                                      (Some READY) None 0 true false "Model unloaded.")) 0;
      ResumeCall 5 no_failure 2].

Example cancel_answers_the_completed_operation :
  match o_calls (after completed_run) !! 2%nat with
  | Some (Ended (Returned r)) => op_status r = SUCCEEDED
  | _ => False
  end
  /\ announced "op-1" (after completed_run) = [PENDING; RUNNING; SUCCEEDED]
  /\ map au_outcome (o_audits (after completed_run)) = ["running"; "succeeded"].
Proof. by vm_compute. Qed.

(** [submit_drain_and_wait] does not return the record of an operation that someone
    else cancels: the cancellation reaches the waiting caller as its own. *)
Example synchronous_drain_is_cancelled_with_its_task :
  let s := after [SubmitAndWait "op-1" 1 0 (Ok "llamacpp") drain_model_a 0; TaskStarts 2 None 0;
                  Cancel "op-1" 1; TaskEnds 3 None DrainCancelled 0; ResumeCall 4 no_failure 0] in
  o_calls s !! 0%nat = Some (Ended CallCancelled)
  /\ op_status <$> o_records s !! "op-1" = Some CANCELLED.
Proof. by vm_compute. Qed.

Lemma run_operations_app l1 l2 s :
  run_operations (l1 ++ l2) s = match run_operations l1 s with Some s' => run_operations l2 s' | None => None end.
Proof.
  revert s. induction l1 as [|ev l1 IH]; intros s; [done|]. simpl. destruct (fresh_event ev s); [apply IH|done].
Qed.

Lemma after_run evs evs' :
  is_absent (run_operations (evs ++ evs') (init_operations "instance")) = false ->
  runs_to (after evs) (after (evs ++ evs')).
Proof.
  unfold after. rewrite run_operations_app.
  destruct (run_operations evs (init_operations "instance")) as [s|]; [|done].
  destruct (run_operations evs' s) as [s'|] eqn:Hr; [|done]. intros _. eapply runs_run; [constructor|done].
Qed.

Lemma after_reachable evs :
  is_absent (run_operations evs (init_operations "instance")) = false -> op_reachable "instance" (after evs).
Proof. apply (after_run []). Qed.

Lemma operations_follow_their_lifecycle_witness :
  exists r', o_records (after completed_run) !! "op-1" = Some r' /\ announced "op-1" (after completed_run) = life r'.
Proof.
  destruct (o_records (after cancelled_run) !! "op-1") as [r|] eqn:Hr; [|by vm_compute in Hr].
  destruct (operations_follow_their_lifecycle "instance" (after cancelled_run) (after completed_run) "op-1" r)
    as (r' & Hr' & _ & _ & _ & _ & Ha).
  - apply (after_reachable cancelled_run). by vm_compute.
  - apply (after_run cancelled_run). by vm_compute.
  - exact Hr.
  - exists r'. split; [exact Hr'|exact Ha].
Defined.

Lemma idempotency_key_runs_once_witness :
  exists r', o_records (after completed_run) !! "op-1" = Some r'
    /\ submit_drain "op-9" 9 9 (Ok "llamacpp") drain_model_a (after completed_run)
       = (after completed_run, Ok (r' <| op_replay := true |>)).
Proof.
  destruct (idempotency_key_runs_once "instance" (init_operations "instance") "op-1" 1 0 (Ok "llamacpp")
    drain_model_a 0 (new_operation "op-1" 1 "llamacpp" drain_model_a (init_operations "instance"))
    (after completed_run) ("editor", "nightly") "op-9" 9 9 "llamacpp" drain_model_a) as (r' & Hr' & Hs).
  - constructor.
  - by vm_compute.
  - by vm_compute.
  - apply (after_run [submit_a "op-1" 1 0 0]). by vm_compute.
  - by vm_compute.
  - by vm_compute.
  - by vm_compute.
  - by vm_compute.
  - exists r'. split; [exact Hr'|]. rewrite Hs. by vm_compute.
Defined.

Lemma cancel_settles_witness :
  exists s2 r, o_records s2 !! "op-1" = Some r /\ terminal (op_status r) = true.
Proof.
  destruct (cancel_settles "instance" (after cancelled_run) 2 "op-1" 0 4 None DrainCancelled 5 no_failure)
    as (r & Hr & Ht & _).
  - apply (after_reachable cancelled_run). by vm_compute.
  - by vm_compute.
  - eexists _, r. split; [exact Hr|exact Ht].
Defined.

Definition shutdown_run : list operation_event :=
  [submit_a "op-1" 1 0 0; TaskStarts 2 None 0; Shutdown 3 no_failure 1; TaskEnds 4 None DrainCancelled 0].

Lemma shutdown_is_final_witness :
  let s1 := resume_call 5 no_failure 1 (after shutdown_run) in
  o_calls s1 !! 1%nat = Some (Ended ShutDown) /\ quiet s1.
Proof.
  destruct (shutdown_is_final "instance" (after shutdown_run) 1 [0%nat] 5 no_failure) as [(e & op & H & _)|(H & Hq & _)].
  - apply (after_reachable shutdown_run). by vm_compute.
  - by vm_compute.
  - constructor; [by vm_compute|constructor].
  - discriminate H.
  - split; [exact H|exact Hq].
Defined.

(** The audit log cannot be written when the drain starts. *)
Definition disk_full : exn := OtherException "No space left on device" "OSError".

Lemma failed_audit_strands_the_operation_witness :
  let s := operation_step (ResumeCall 3 no_failure 0)
             (task_starts 2 (Some disk_full) 0 (after [submit_a "op-1" 1 0 0])) in
  exists r, o_records s !! "op-1" = Some r /\ op_status r = RUNNING.
Proof.
  cbv zeta.
  match goal with |- context [o_records ?s] =>
    destruct (failed_audit_strands_the_operation "instance" (after [submit_a "op-1" 1 0 0]) 0 "op-1" 2 disk_full s)
      as (r & Hr & Hst & _) end.
  - apply (after_reachable [submit_a "op-1" 1 0 0]). by vm_compute.
  - by vm_compute.
  - intros cid tids. destruct (decide (cid = 0%nat)) as [->|Hne]; [by vm_compute|].
    assert (Hc : o_calls (after [submit_a "op-1" 1 0 0]) = {[0%nat := Ended (Returned
      (new_operation "op-1" 1 "llamacpp" drain_model_a (init_operations "instance")))]}) by by vm_compute.
    rewrite Hc, lookup_singleton_ne by done. done.
  - apply sparing_step; [apply sparing_refl|by vm_compute|by vm_compute].
  - exists r. split; [exact Hr|exact Hst].
Defined.
