(* ===== verification/Coalescer.v ===== *)
(** Request coalescing: [InFlightRequestCoalescer] of
    src/src/lewlm/runtime/request_coalescer.py, and the requests that use it, as
    [rerank] of src/src/lewlm/core/multimodal.py does.

    The first request of a key claims a future and executes; identical requests
    that arrive meanwhile await the same future.  Futures are objects of a store.
    A request is suspended while it executes or while it awaits a future; the
    stretches between are single steps.  What the response cache answers and how
    the execution ends are arguments of the steps. *)

From S2P Require Import Prelude.

(** ** The coalescer *)

Inductive future_state (R E : Type) :=
| Pending
| Result (r : R)
| Exception (e : E)
| FutureCancelled.
Arguments Pending {R E}.
Arguments Result {R E} r.
Arguments Exception {R E} e.
Arguments FutureCancelled {R E}.

(** [q_futures] is the dictionary; [q_next] the next new object. *)
Record coalescer (R E : Type) := {
  q_futures : gmap string nat;
  q_store : gmap nat (future_state R E);
  q_next : nat
}.
Arguments Build_coalescer {R E} _ _ _.
Arguments q_futures {R E} _.
Arguments q_store {R E} _.
Arguments q_next {R E} _.

#[global] Instance coalescer_eta R E : Eta (coalescer R E) := fun q =>
  Build_coalescer (q_futures q) (q_store q) (q_next q).

(** How a request ended. *)
Inductive request_end (R E : Type) :=
| Answered (r : R)
| Failed (e : E)
| Cancelled.
Arguments Answered {R E} r.
Arguments Failed {R E} e.
Arguments Cancelled {R E}.

(** A request of [key] on the future [f]. *)
Inductive request (R E : Type) :=
| Executing (key : string) (f : nat)
| Awaiting (key : string) (f : nat)
| Ended (key : string) (f : nat) (how : request_end R E).
Arguments Executing {R E} key f.
Arguments Awaiting {R E} key f.
Arguments Ended {R E} key f how.

Record service (R E : Type) := {
  v_coalescer : coalescer R E;
  v_requests : gmap nat (request R E)
}.
Arguments Build_service {R E} _ _.
Arguments v_coalescer {R E} _.
Arguments v_requests {R E} _.

#[global] Instance service_eta R E : Eta (service R E) := fun s =>
  Build_service (v_coalescer s) (v_requests s).

Section coalescing.
Context {R E : Type}.
Implicit Types (q : coalescer R E) (s : service R E) (key : string).

Definition init_coalescer : coalescer R E := Build_coalescer ∅ ∅ 0.

Definition claim key q : coalescer R E * (bool * nat) :=
  match q_futures q !! key with
  | Some f => (q, (false, f))
  | None =>
      let f := q_next q in
      (q <| q_futures := <[key := f]> (q_futures q) |>
         <| q_store := <[f := Pending]> (q_store q) |> <| q_next := S f |>, (true, f))
  end.

(** [pop], then [set_result] or [set_exception] unless the future is done. *)
Definition settle (v : future_state R E) key q : coalescer R E :=
  match q_futures q !! key with
  | None => q
  | Some f =>
      let q' := q <| q_futures := delete key (q_futures q) |> in
      match q_store q !! f with
      | Some Pending => q' <| q_store := <[f := v]> (q_store q) |>
      | _ => q'
      end
  end.

Definition resolve key (r : R) q : coalescer R E := settle (Result r) key q.
Definition reject key (e : E) q : coalescer R E := settle (Exception e) key q.

(** ** Requests *)

Definition init_service : service R E := Build_service init_coalescer ∅.

Definition set_request (cid : nat) (p : request R E) s : service R E :=
  s <| v_requests := <[cid := p]> (v_requests s) |>.

Definition with_coalescer (g : coalescer R E -> coalescer R E) s : service R E :=
  s <| v_coalescer ::= g |>.

(** What awaiting a future that is done gives. *)
Definition future_end (v : future_state R E) : option (request_end R E) :=
  match v with
  | Pending => None
  | Result r => Some (Answered r)
  | Exception e => Some (Failed e)
  | FutureCancelled => Some Cancelled
  end.

(** [await shared_future], which does not suspend when the future is done. *)
Definition await_future (cid : nat) key (f : nat) s : service R E :=
  match q_store (v_coalescer s) !! f ≫= future_end with
  | Some how => set_request cid (Ended key f how) s
  | None => set_request cid (Awaiting key f) s
  end.

(** The request arrives; [cached] is the response cache's answer to the owner. *)
Definition begin_request (cid : nat) key (cached : result E (option R)) s : service R E :=
  let '(q, (is_owner, f)) := claim key (v_coalescer s) in
  let s := s <| v_coalescer := q |> in
  if is_owner then
    match cached with
    | Ok (Some r) => set_request cid (Ended key f (Answered r)) (with_coalescer (resolve key r) s)
    | Ok None => set_request cid (Executing key f) s
    | Err e => set_request cid (Ended key f (Failed e)) (with_coalescer (reject key e) s)
    end
  else await_future cid key f s.

(** The execution ends with a response or an exception. *)
Definition end_execution (cid : nat) (answer : result E R) s : service R E :=
  match v_requests s !! cid with
  | Some (Executing key f) =>
      match answer with
      | Ok r => set_request cid (Ended key f (Answered r)) (with_coalescer (resolve key r) s)
      | Err e => set_request cid (Ended key f (Failed e)) (with_coalescer (reject key e) s)
      end
  | _ => s
  end.

(** The future that the request awaits is done. *)
Definition resume_request (cid : nat) s : service R E :=
  match v_requests s !! cid with
  | Some (Awaiting key f) => await_future cid key f s
  | _ => s
  end.

(** The task of the request is cancelled.  [except Exception] does not catch
    [CancelledError]; a task that awaits a future cancels that future. *)
Definition cancel_request (cid : nat) s : service R E :=
  match v_requests s !! cid with
  | Some (Executing key f) => set_request cid (Ended key f Cancelled) s
  | Some (Awaiting key f) =>
      match q_store (v_coalescer s) !! f with
      | Some Pending =>
          with_coalescer (fun q => q <| q_store := <[f := FutureCancelled]> (q_store q) |>) s
      | _ => set_request cid (Ended key f Cancelled) s
      end
  | _ => s
  end.

(** ** Steps *)

Inductive request_event :=
| Begin (cid : nat) (key : string) (cached : result E (option R))
| EndExecution (cid : nat) (answer : result E R)
| Resume (cid : nat)
| CancelRequest (cid : nat).

Definition request_step (ev : request_event) s : service R E :=
  match ev with
  | Begin cid key cached => begin_request cid key cached s
  | EndExecution cid answer => end_execution cid answer s
  | Resume cid => resume_request cid s
  | CancelRequest cid => cancel_request cid s
  end.

(** A new request is a new coroutine. *)
Definition new_request (ev : request_event) s : Prop :=
  match ev with Begin cid _ _ => v_requests s !! cid = None | _ => True end.

Definition cancels (ev : request_event) : bool :=
  match ev with CancelRequest _ => true | _ => false end.

(** Runs from [s]; [calm] runs are those in which no request is cancelled. *)
Inductive service_runs (calm : bool) s : service R E -> Prop :=
| sruns_refl : service_runs calm s s
| sruns_step s' ev : service_runs calm s s' -> new_request ev s' -> calm && cancels ev = false ->
    service_runs calm s (request_step ev s').

(** ** Invariant *)

Definition request_key (p : request R E) : string :=
  match p with Executing k _ | Awaiting k _ | Ended k _ _ => k end.

Definition request_future (p : request R E) : nat :=
  match p with Executing _ f | Awaiting _ f | Ended _ f _ => f end.

(** A request that executes on [f], or was answered on it. *)
Definition owns (f : nat) (p : request R E) : bool :=
  match p with
  | Executing _ f' => bool_decide (f' = f)
  | Ended _ f' (Answered _) => bool_decide (f' = f)
  | _ => false
  end.

Definition unsettled (v : option (future_state R E)) : Prop := v = Some Pending \/ v = Some FutureCancelled.

Record service_inv s : Prop := {
  vi_future : forall key f, q_futures (v_coalescer s) !! key = Some f ->
    unsettled (q_store (v_coalescer s) !! f);
  vi_fresh : forall f, is_Some (q_store (v_coalescer s) !! f) -> f < q_next (v_coalescer s);
  vi_distinct : forall k1 k2 f, q_futures (v_coalescer s) !! k1 = Some f ->
    q_futures (v_coalescer s) !! k2 = Some f -> k1 = k2;
  vi_request : forall cid p, v_requests s !! cid = Some p ->
    is_Some (q_store (v_coalescer s) !! request_future p)
    /\ match p with
       | Executing key f => q_futures (v_coalescer s) !! key = Some f
       | Awaiting key f => q_store (v_coalescer s) !! f = Some Pending -> q_futures (v_coalescer s) !! key = Some f
       | Ended key f (Answered r) => q_store (v_coalescer s) !! f = Some (Result r)
                                     \/ q_store (v_coalescer s) !! f = Some FutureCancelled
       | Ended _ _ _ => True
       end;
  vi_single : forall f c1 c2 p1 p2, unsettled (q_store (v_coalescer s) !! f) ->
    v_requests s !! c1 = Some p1 -> v_requests s !! c2 = Some p2 ->
    owns f p1 = true -> owns f p2 = true -> c1 = c2;
  vi_key : forall cid p key, v_requests s !! cid = Some p ->
    q_futures (v_coalescer s) !! key = Some (request_future p) -> request_key p = key;
  vi_same_key : forall c1 c2 p1 p2, v_requests s !! c1 = Some p1 -> v_requests s !! c2 = Some p2 ->
    request_future p1 = request_future p2 -> request_key p1 = request_key p2
}.

Lemma init_service_inv : service_inv init_service.
Proof. split; simpl; intros *; rewrite ?lookup_empty; try done. Qed.

Lemma owns_future f p : owns f p = true -> request_future p = f.
Proof. destruct p as [| |? ? []]; simpl; try done; by intros ?%bool_decide_eq_true. Qed.

(** A new future is claimed for a key that has none. *)
Lemma claim_inv s key :
  service_inv s -> q_futures (v_coalescer s) !! key = None ->
  let '(q, (is_owner, f)) := claim key (v_coalescer s) in
  let s' := s <| v_coalescer := q |> in
  service_inv s' /\ is_owner = true /\ q_futures q !! key = Some f /\ q_store q !! f = Some Pending
  /\ (forall cid p, v_requests s !! cid = Some p -> request_future p <> f).
Proof.
  intros [] Hk. unfold claim. rewrite Hk. simpl. set (f := q_next (v_coalescer s)).
  assert (Hnew : q_store (v_coalescer s) !! f = None).
  { destruct (q_store (v_coalescer s) !! f) eqn:Hf; [|done].
    specialize (vi_fresh0 f ltac:(by eexists)). unfold f in vi_fresh0. lia. }
  assert (Hne : forall cid p, v_requests s !! cid = Some p -> request_future p <> f).
  { intros cid p Hp <-. destruct (vi_request0 _ _ Hp) as [[x Hx] _]. congruence. }
  split_and!; [|done|by rewrite lookup_insert, decide_True|by rewrite lookup_insert, decide_True|done].
  split; simpl.
  - intros k f'. rewrite !lookup_insert. repeat case_decide; subst; try done.
    + by left.
    + by intros [= <-].
    + by left.
    + intros Hf'. by apply vi_future0 in Hf'.
  - intros f'. rewrite lookup_insert. case_decide; [subst; intros _; unfold f; lia|].
    intros Hf'%vi_fresh0. lia.
  - intros k1 k2 f'. rewrite !lookup_insert. repeat case_decide; subst; try done.
    + intros [= <-] H2%vi_future0. rewrite Hnew in H2. by destruct H2.
    + intros H1 [= <-]. apply vi_future0 in H1. rewrite Hnew in H1. by destruct H1.
    + apply vi_distinct0.
  - intros cid p Hp. destruct (vi_request0 _ _ Hp) as [Hs Hm]. pose proof (Hne _ _ Hp) as Hpf.
    rewrite lookup_insert_ne by done. split; [done|].
    destruct p as [k f'|k f'|k f' [r|e|]]; simpl in Hpf; try done.
    + rewrite lookup_insert_ne; [done|]. intros ->. congruence.
    + rewrite lookup_insert_ne by done. intros Hpend. specialize (Hm Hpend).
      rewrite lookup_insert_ne; [done|]. intros ->. congruence.
    + by rewrite lookup_insert_ne.
  - intros f' c1 c2 p1 p2 Hu H1 H2 Ho1 Ho2. rewrite lookup_insert_ne in Hu; [by eapply vi_single0|].
    intros <-. by apply (Hne _ _ H1), owns_future.
  - intros cid p k Hp. rewrite lookup_insert. case_decide; [|by eapply vi_key0].
    intros [= Hf]. by destruct (Hne _ _ Hp).
  - apply vi_same_key0.
Qed.

Lemma set_request_inv s cid p :
  service_inv s ->
  is_Some (q_store (v_coalescer s) !! request_future p) ->
  match p with
  | Executing key f => q_futures (v_coalescer s) !! key = Some f
  | Awaiting key f => q_store (v_coalescer s) !! f = Some Pending -> q_futures (v_coalescer s) !! key = Some f
  | Ended key f (Answered r) => q_store (v_coalescer s) !! f = Some (Result r)
                                \/ q_store (v_coalescer s) !! f = Some FutureCancelled
  | Ended _ _ _ => True
  end ->
  (forall f c' p', unsettled (q_store (v_coalescer s) !! f) -> owns f p = true ->
     v_requests s !! c' = Some p' -> owns f p' = true -> c' = cid) ->
  (forall key, q_futures (v_coalescer s) !! key = Some (request_future p) -> request_key p = key) ->
  (forall c' p', v_requests s !! c' = Some p' -> request_future p = request_future p' ->
     request_key p = request_key p') ->
  service_inv (set_request cid p s).
Proof.
  intros [] Hs Hm Hown Hkey Hsame. split; try assumption.
  - intros cid' p'. simpl. rewrite lookup_insert. case_decide; [by intros [= <-]|apply vi_request0].
  - intros f c1 c2 p1 p2 Hu. simpl. rewrite !lookup_insert. repeat case_decide; subst; try done.
    + intros [= <-] H2 Ho1 Ho2. symmetry. by eapply Hown.
    + intros H1 [= <-] Ho1 Ho2. by eapply Hown.
    + by eapply vi_single0.
  - intros cid' p' k. simpl. rewrite lookup_insert. case_decide; [intros [= <-]; apply Hkey|by eapply vi_key0].
  - intros c1 c2 p1 p2. simpl. rewrite !lookup_insert. repeat case_decide; subst.
    + congruence.
    + intros [= <-]. apply Hsame.
    + intros H1 [= <-] Heq. symmetry. by eapply Hsame.
    + apply vi_same_key0.
Qed.

(** The owner's future is settled and popped, and the owner ends. *)
Definition ends_with (v : future_state R E) (how : request_end R E) : Prop :=
  match v, how with
  | Result r, Answered r' => r = r'
  | Exception e, Failed e' => e = e'
  | _, _ => False
  end.

Lemma finish_request_inv s cid key f v how :
  service_inv s -> q_futures (v_coalescer s) !! key = Some f -> ends_with v how ->
  (forall c' p', v_requests s !! c' = Some p' -> owns f p' = true -> c' = cid) ->
  service_inv (set_request cid (Ended key f how) (with_coalescer (settle v key) s)).
Proof.
  intros Hinv Hk Hend Hown. destruct Hinv. pose proof (vi_future0 _ _ Hk) as Hf.
  set (v' := match q_store (v_coalescer s) !! f with Some Pending => v | _ => FutureCancelled end).
  assert (Hq : q_futures (settle v key (v_coalescer s)) = delete key (q_futures (v_coalescer s))
    /\ q_next (settle v key (v_coalescer s)) = q_next (v_coalescer s)
    /\ forall f', q_store (settle v key (v_coalescer s)) !! f'
         = if decide (f = f') then Some v' else q_store (v_coalescer s) !! f').
  { unfold settle, v'. rewrite Hk. destruct Hf as [Hf|Hf]; rewrite Hf; simpl; split_and!; try done; intros f'.
    - by rewrite lookup_insert.
    - case_decide; [by subst|done]. }
  destruct Hq as (Hq1 & Hq2 & Hq3).
  assert (Hv : v' <> Pending) by (unfold v'; destruct Hf as [-> | ->]; [by destruct v|done]).
  split; simpl; rewrite ?Hq1, ?Hq2.
  - intros k f'. rewrite lookup_delete_Some. intros [Hne Hf']. rewrite Hq3. case_decide; [|by eapply vi_future0].
    subst f'. by destruct (Hne (vi_distinct0 _ _ _ Hk Hf')).
  - intros f'. rewrite Hq3. case_decide; [|apply vi_fresh0]. subst f'. intros _. apply vi_fresh0.
    destruct Hf as [-> | ->]; by eexists.
  - intros k1 k2 f' [_ H1]%lookup_delete_Some [_ H2]%lookup_delete_Some. by eapply vi_distinct0.
  - intros c p. rewrite lookup_insert, Hq3. case_decide as Hc.
    + intros [= <-]. simpl. rewrite decide_True by done. split; [by eexists|].
      destruct how as [r|e|]; try done. destruct v; try done. simpl in Hend. subst. rewrite Hq3, decide_True by done. unfold v'.
      destruct Hf as [-> | ->]; auto.
    + intros Hp. destruct (vi_request0 _ _ Hp) as [Hs Hm]. split; [case_decide; [by eexists|done]|].
      destruct p as [k f'|k f'|k f' [r|e|]]; try done; simpl in *.
      * rewrite lookup_delete_ne; [done|]. intros ->. destruct (Hc (eq_sym (Hown _ _ Hp ltac:(simpl; apply bool_decide_eq_true; congruence)))).
      * rewrite Hq3. case_decide; [by intros [= Hx]|]. intros Hpend. rewrite lookup_delete_ne; [auto|].
        intros ->. specialize (Hm Hpend). congruence.
      * rewrite Hq3. case_decide; [subst f'|done].
        by destruct (Hc (eq_sym (Hown _ _ Hp ltac:(simpl; by apply bool_decide_eq_true)))).
  - intros f' c1 c2 p1 p2 Hu Hp1 Hp2 Ho1 Ho2. rewrite lookup_insert in Hp1, Hp2. rewrite Hq3 in Hu.
    destruct (decide (f = f')) as [<-|Hne].
    + assert (Hc : forall c p, (if decide (cid = c) then Some (Ended key f how) else v_requests s !! c) = Some p ->
        owns f p = true -> c = cid) by (intros c p; destruct (decide (cid = c)); [done|by eauto]).
      by rewrite (Hc _ _ Hp1 Ho1), (Hc _ _ Hp2 Ho2).
    + assert (Hmine : owns f' (Ended key f how) = false)
        by (destruct how; simpl; try done; by apply bool_decide_eq_false).
      destruct (decide (cid = c1)) as [|Hc1]; [congruence|]. destruct (decide (cid = c2)) as [|Hc2]; [congruence|].
      by eapply vi_single0.
  - intros c p k. rewrite lookup_insert, lookup_delete_Some. intros Hp [Hne Hk'].
    case_decide; [|by eapply vi_key0]. injection Hp as <-. simpl in *. by eapply vi_distinct0.
  - intros c1 c2 p1 p2. rewrite !lookup_insert. repeat case_decide; subst.
    + congruence.
    + intros [= <-] H2 Heq. simpl in *. symmetry. eapply vi_key0; [done|]. by rewrite <- Heq.
    + intros H1 [= <-] Heq. simpl in *. eapply vi_key0; [done|]. by rewrite Heq.
    + apply vi_same_key0.
Qed.

(** ** Preservation *)

Lemma await_inv s cid key f :
  service_inv s -> is_Some (q_store (v_coalescer s) !! f) ->
  (q_store (v_coalescer s) !! f = Some Pending -> q_futures (v_coalescer s) !! key = Some f) ->
  (forall k, q_futures (v_coalescer s) !! k = Some f -> key = k) ->
  (forall c' p', v_requests s !! c' = Some p' -> f = request_future p' -> key = request_key p') ->
  service_inv (await_future cid key f s).
Proof.
  intros Hinv Hf Hp Hk Hs. unfold await_future. destruct Hf as [v Hv]. rewrite Hv in *. simpl.
  destruct v; simpl; apply set_request_inv; simpl; rewrite ?Hv; try done; try (by eexists); try (by left).
  intros f' c' p' Hu Ho. apply bool_decide_eq_true in Ho. subst f'. rewrite Hv in Hu. by destruct Hu.
Qed.

Lemma cancel_future_inv s f :
  service_inv s -> q_store (v_coalescer s) !! f = Some Pending ->
  service_inv (with_coalescer (fun q => q <| q_store := <[f := FutureCancelled]> (q_store q) |>) s).
Proof.
  intros [] Hf. split; simpl.
  - intros k f' Hk. rewrite lookup_insert. case_decide; [by right|by eapply vi_future0].
  - intros f'. rewrite lookup_insert. case_decide; [subst|apply vi_fresh0]. intros _. apply vi_fresh0. by eexists.
  - done.
  - intros cid p Hp. destruct (vi_request0 _ _ Hp) as [Hs Hm]. split.
    { rewrite lookup_insert. case_decide; [by eexists|done]. }
    destruct p as [k f'|k f'|k f' [r|e|]]; try done; rewrite lookup_insert; case_decide; auto; done.
  - intros f' c1 c2 p1 p2 Hu H1 H2. rewrite lookup_insert in Hu.
    eapply vi_single0; [|done..]. case_decide; [subst; by left|done].
  - done.
  - done.
Qed.

Lemma cancelled_inv s cid p :
  service_inv s -> v_requests s !! cid = Some p ->
  service_inv (set_request cid (Ended (request_key p) (request_future p) Cancelled) s).
Proof.
  intros Hinv Hp. apply set_request_inv; try done.
  - apply (vi_request _ Hinv _ _ Hp).
  - intros k Hk. by apply (vi_key _ Hinv _ _ _ Hp).
  - intros c' p' Hp' Heq. by apply (vi_same_key _ Hinv _ _ _ _ Hp Hp').
Qed.

Lemma request_step_inv s ev : service_inv s -> new_request ev s -> service_inv (request_step ev s).
Proof.
  intros Hinv Hnew. destruct ev as [cid key cached|cid answer|cid|cid]; simpl in *.
  - unfold begin_request. destruct (q_futures (v_coalescer s) !! key) as [f|] eqn:Hk.
    + unfold claim. rewrite Hk. simpl.
      replace {| v_coalescer := v_coalescer s; v_requests := v_requests s |} with s by by destruct s.
      pose proof (vi_future _ Hinv _ _ Hk) as Hu. apply await_inv; [done| |done| |].
      * destruct Hu as [-> | ->]; by eexists.
      * intros k Hk'. by eapply (vi_distinct _ Hinv).
      * intros c' p' Hp' ->. symmetry. by eapply (vi_key _ Hinv).
    + pose proof (claim_inv s key Hinv Hk) as Hc. destruct (claim key (v_coalescer s)) as [q [o f]].
      destruct Hc as (Hinv' & -> & Hf & Hst & Hne).
      assert (Hno : forall c' p', v_requests s !! c' = Some p' -> owns f p' = true -> c' = cid).
      { intros c' p' Hp Ho. by destruct (Hne _ _ Hp (owns_future _ _ Ho)). }
      destruct cached as [[r|]|e]; [by apply finish_request_inv| |by apply finish_request_inv].
      apply set_request_inv; [done|by eexists|done| | |].
      * intros f' c' p' _ Ho. apply bool_decide_eq_true in Ho. subst f'. apply Hno.
      * intros k Hk'. by eapply (vi_distinct _ Hinv').
      * intros c' p' Hp' Heq. by destruct (Hne _ _ Hp').
  - unfold end_execution. destruct (v_requests s !! cid) as [[key f| |]|] eqn:Hp; try done.
    destruct (vi_request _ Hinv _ _ Hp) as [_ Hk]. pose proof (vi_future _ Hinv _ _ Hk) as Hu.
    assert (Hown : forall c' p', v_requests s !! c' = Some p' -> owns f p' = true -> c' = cid).
    { intros c' p' Hp' Ho. eapply (vi_single _ Hinv f); [done..|simpl; by apply bool_decide_eq_true]. }
    destruct answer; by apply finish_request_inv.
  - unfold resume_request. destruct (v_requests s !! cid) as [[|key f|]|] eqn:Hp; try done.
    destruct (vi_request _ Hinv _ _ Hp) as [Hs Hm]. apply await_inv; [done..| |].
    + intros k Hk. by apply (vi_key _ Hinv _ _ _ Hp).
    + intros c' p' Hp' Heq. by apply (vi_same_key _ Hinv _ _ _ _ Hp Hp').
  - unfold cancel_request. destruct (v_requests s !! cid) as [[key f|key f|]|] eqn:Hp; try done.
    + by apply (cancelled_inv s cid (Executing key f)).
    + assert (Hend : service_inv (set_request cid (Ended key f Cancelled) s))
        by by apply (cancelled_inv s cid (Awaiting key f)).
      destruct (q_store (v_coalescer s) !! f) as [[]|] eqn:Hf; try done. by apply cancel_future_inv.
Qed.

Lemma service_runs_inv calm s s' : service_inv s -> service_runs calm s s' -> service_inv s'.
Proof. intros Hinv H. induction H as [|s' ev H IH Hn Hc]; [done|by apply request_step_inv]. Qed.

(** ** Runs without cancellation: every future in the dictionary has its owner. *)

Definition owned s : Prop :=
  forall key f, q_futures (v_coalescer s) !! key = Some f ->
    q_store (v_coalescer s) !! f = Some Pending
    /\ exists cid, v_requests s !! cid = Some (Executing key f).

Lemma owned_set_request s cid p :
  owned s -> (forall key f, v_requests s !! cid <> Some (Executing key f)) -> owned (set_request cid p s).
Proof.
  intros Ho Hno key f Hk. destruct (Ho _ _ Hk) as [Hp [c Hc]]. split; [done|]. exists c. simpl.
  rewrite lookup_insert_ne; [done|]. intros ->. by apply Hno in Hc.
Qed.

Lemma owned_await s cid key f :
  owned s -> (forall k f, v_requests s !! cid <> Some (Executing k f)) -> owned (await_future cid key f s).
Proof.
  intros Ho Hno. unfold await_future. destruct (_ ≫= future_end); by apply owned_set_request.
Qed.

Lemma settle_store v key q k f :
  q_futures q !! k = Some f -> k <> key -> (forall k', q_futures q !! k' = Some f -> k' = k) ->
  q_futures (settle v key q) !! k = Some f /\ q_store (settle v key q) !! f = q_store q !! f.
Proof.
  intros Hk Hne Hd. unfold settle. destruct (q_futures q !! key) as [f'|] eqn:Hf'; [|done].
  assert (f' <> f) by (intros ->; by apply Hd in Hf').
  destruct (q_store q !! f') as [[]|]; simpl; by rewrite ?lookup_insert_ne, lookup_delete_ne.
Qed.

Lemma settle_futures v key q : q_futures (settle v key q) = delete key (q_futures q).
Proof.
  unfold settle. destruct (q_futures q !! key) as [f|] eqn:Hk; [|by rewrite delete_id].
  by destruct (q_store q !! f) as [[]|].
Qed.

Lemma owned_finish s cid key f v how :
  service_inv s -> q_futures (v_coalescer s) !! key = Some f ->
  (forall k f', k <> key -> q_futures (v_coalescer s) !! k = Some f' ->
     q_store (v_coalescer s) !! f' = Some Pending /\ exists c, c <> cid /\ v_requests s !! c = Some (Executing k f')) ->
  owned (set_request cid (Ended key f how) (with_coalescer (settle v key) s)).
Proof.
  intros Hinv Hk Ho k f'. simpl. rewrite settle_futures, lookup_delete_Some. intros [Hne Hk'].
  destruct (settle_store v key (v_coalescer s) k f' Hk' (not_eq_sym Hne)) as [_ Hst].
  { intros k' H'. by apply (vi_distinct _ Hinv _ _ _ H' Hk'). }
  destruct (Ho _ _ (not_eq_sym Hne) Hk') as [Hp (c & Hc & Hx)].
  rewrite Hst. split; [done|]. exists c. by rewrite lookup_insert_ne.
Qed.

Lemma request_step_owned s ev :
  service_inv s -> owned s -> new_request ev s -> cancels ev = false -> owned (request_step ev s).
Proof.
  intros Hinv Ho Hnew Hcalm. destruct ev as [cid key cached|cid answer|cid|cid]; simpl in *; [| | |done].
  - unfold begin_request. destruct (q_futures (v_coalescer s) !! key) as [f|] eqn:Hk.
    + unfold claim. rewrite Hk. apply owned_await; [by destruct s|]. simpl. intros k f'. by rewrite Hnew.
    + pose proof (claim_inv s key Hinv Hk) as Hc. unfold claim in *. rewrite Hk in *. simpl in Hc.
      destruct Hc as (Hinv' & _ & Hf & Hst & Hne). set (f := q_next (v_coalescer s)) in *. cbv zeta. cbn iota.
      match type of Hinv' with service_inv ?x => set (s1 := x) in * end.
      assert (Hoth : forall k f', k <> key -> q_futures (v_coalescer s1) !! k = Some f' ->
        q_store (v_coalescer s1) !! f' = Some Pending
        /\ exists c, c <> cid /\ v_requests s1 !! c = Some (Executing k f')).
      { intros k f' Hkn Hk'. simpl in *. rewrite lookup_insert_ne in Hk' by done.
        destruct (Ho _ _ Hk') as [Hp [c Hc]]. rewrite lookup_insert_ne.
        - split; [done|]. exists c. split; [congruence|done].
        - intros Heq. by destruct (Hne _ _ Hc). }
      destruct cached as [[r|]|e]; [by apply owned_finish| |by apply owned_finish].
      intros k f'. simpl. destruct (decide (k = key)) as [->|Hkn].
      * rewrite lookup_insert, decide_True by done. intros [= <-]. split; [done|]. exists cid.
        by rewrite lookup_insert, decide_True.
      * intros Hk'. destruct (Hoth _ _ Hkn Hk') as [Hp (c & Hcn & Hc)]. split; [done|]. exists c.
        by rewrite lookup_insert_ne.
  - unfold end_execution. destruct (v_requests s !! cid) as [[key f| |]|] eqn:Hp; try done.
    destruct (vi_request _ Hinv _ _ Hp) as [_ Hk].
    assert (Hoth : forall k f', k <> key -> q_futures (v_coalescer s) !! k = Some f' ->
      q_store (v_coalescer s) !! f' = Some Pending
      /\ exists c, c <> cid /\ v_requests s !! c = Some (Executing k f')).
    { intros k f' Hkn Hk'. destruct (Ho _ _ Hk') as [Hpd [c Hc]]. split; [done|]. exists c. split; [congruence|done]. }
    destruct answer; by apply owned_finish.
  - unfold resume_request. destruct (v_requests s !! cid) as [[|key f|]|] eqn:Hp; try done.
    apply owned_await; [done|]. intros k f'. by rewrite Hp.
Qed.

Lemma calm_owned s : service_runs true init_service s -> owned s.
Proof.
  intros H. remember init_service as s0 eqn:Hs0. induction H as [|s' ev H IH Hn Hc]; subst.
  - intros key f. simpl. by rewrite lookup_empty.
  - apply request_step_owned; [by eapply service_runs_inv; [apply init_service_inv|]|by apply IH|done|].
    by destruct (cancels ev).
Qed.

(** ** After the owner of a key was cancelled *)

(** The key stays bound to its future, which nobody will resolve; requests of the
    key that are new since [s0] await it or were cancelled with it. *)
Record blocked s0 key f s : Prop := {
  bl_inv : service_inv s;
  bl_bound : q_futures (v_coalescer s) !! key = Some f;
  bl_no_owner : forall cid k, v_requests s !! cid <> Some (Executing k f);
  bl_old : forall cid, is_Some (v_requests s0 !! cid) -> is_Some (v_requests s !! cid);
  bl_new : forall cid p, v_requests s0 !! cid = None -> v_requests s !! cid = Some p -> request_key p = key ->
    p = Awaiting key f \/ p = Ended key f Cancelled
}.

Lemma blocked_set_request s0 key f s cid p :
  blocked s0 key f s -> service_inv (set_request cid p s) ->
  (forall k, p <> Executing k f) ->
  (request_key p = key -> p = Awaiting key f \/ p = Ended key f Cancelled \/ is_Some (v_requests s0 !! cid)) ->
  blocked s0 key f (set_request cid p s).
Proof.
  intros [] Hinv Hno Hp. split; [done|done| | |]; simpl; intros c.
  - intros k. rewrite lookup_insert. case_decide; [|apply bl_no_owner0]. intros [= ->]. by eapply Hno.
  - intros Hc. rewrite lookup_insert. case_decide; [by eexists|by apply bl_old0].
  - intros p'. rewrite lookup_insert. case_decide; [|by apply bl_new0]. subst c. intros Hc [= <-] Hk.
    destruct (Hp Hk) as [?|[?|Hs]]; [by left|by right|]. rewrite Hc in Hs. by destruct Hs.
Qed.

Lemma blocked_finish s0 key f s cid k f' v how :
  blocked s0 key f s -> service_inv (set_request cid (Ended k f' how) (with_coalescer (settle v k) s)) ->
  k <> key -> blocked s0 key f (set_request cid (Ended k f' how) (with_coalescer (settle v k) s)).
Proof.
  intros [] Hinv Hk. split; [done| | | |]; simpl.
  - rewrite settle_futures. by rewrite lookup_delete_ne.
  - intros c k'. rewrite lookup_insert. case_decide; [done|apply bl_no_owner0].
  - intros c Hc. rewrite lookup_insert. case_decide; [by eexists|by apply bl_old0].
  - intros c p. rewrite lookup_insert. case_decide; [|by apply bl_new0]. by intros _ [= <-] Hkey.
Qed.

Lemma blocked_await s0 key f s cid f' k :
  blocked s0 key f s -> service_inv (await_future cid k f' s) ->
  (k = key -> f' = f \/ is_Some (v_requests s0 !! cid)) ->
  blocked s0 key f (await_future cid k f' s).
Proof.
  intros Hb Hinv Hk. unfold await_future in *.
  pose proof (vi_future _ (bl_inv _ _ _ _ Hb) _ _ (bl_bound _ _ _ _ Hb)) as Hu.
  destruct (q_store (v_coalescer s) !! f' ≫= future_end) as [how|] eqn:Hend.
  - apply blocked_set_request; [done|done|done|]. simpl. intros ->.
    destruct (Hk eq_refl) as [->|Hs]; [|by right; right]. right; left.
    destruct Hu as [Hu|Hu]; rewrite Hu in Hend; simpl in Hend; [done|by injection Hend as <-].
  - apply blocked_set_request; [done|done|done|]. simpl. intros ->.
    destruct (Hk eq_refl) as [->|Hs]; [by left|by right; right].
Qed.

Lemma blocked_step s0 key f s ev :
  blocked s0 key f s -> new_request ev s -> blocked s0 key f (request_step ev s).
Proof.
  intros Hb Hnew. pose proof (bl_inv _ _ _ _ Hb) as Hinv. pose proof (bl_bound _ _ _ _ Hb) as Hbound.
  pose proof (request_step_inv s ev Hinv Hnew) as Hinv'.
  destruct ev as [cid k cached|cid answer|cid|cid]; simpl in *.
  - unfold begin_request in *. destruct (q_futures (v_coalescer s) !! k) as [f'|] eqn:Hk.
    + unfold claim in *. rewrite Hk in *. simpl in *.
      replace {| v_coalescer := v_coalescer s; v_requests := v_requests s |} with s in * by by destruct s.
      apply blocked_await; [done|done|]. intros ->. left. congruence.
    + assert (k <> key) by congruence.
      pose proof (claim_inv s k Hinv Hk) as Hc. destruct (claim k (v_coalescer s)) as [q [o f']] eqn:Hcl.
      destruct Hc as (Hi & -> & Hf & Hst & Hne).
      assert (Hff : f' <> f).
      { intros ->. unfold claim in Hcl. rewrite Hk in Hcl. injection Hcl as <- <-. simpl in *.
        pose proof (vi_fresh _ Hinv (q_next (v_coalescer s))) as Hfr.
        destruct (vi_future _ Hinv _ _ Hbound) as [Hu|Hu]; rewrite Hu in Hfr; specialize (Hfr ltac:(by eexists)); lia. }
      assert (Hb1 : blocked s0 key f (s <| v_coalescer := q |>)).
      { destruct Hb. split; try done. simpl. unfold claim in Hcl. rewrite Hk in Hcl. injection Hcl as <- <-.
        simpl. by rewrite lookup_insert_ne. }
      destruct cached as [[r|]|e]; [by apply blocked_finish| |by apply blocked_finish].
      apply blocked_set_request; [done|done| |done]. intros k' [=]. congruence.
  - unfold end_execution in *. destruct (v_requests s !! cid) as [[k f'| |]|] eqn:Hp; try done.
    destruct (vi_request _ Hinv _ _ Hp) as [_ Hk].
    assert (k <> key).
    { intros ->. rewrite Hbound in Hk. injection Hk as <-. by apply (bl_no_owner _ _ _ _ Hb) in Hp. }
    destruct answer; by apply blocked_finish.
  - unfold resume_request in *. destruct (v_requests s !! cid) as [[|k f'|]|] eqn:Hp; try done.
    apply blocked_await; [done|done|]. intros ->.
    destruct (v_requests s0 !! cid) as [p|] eqn:Hp0; [right; by eexists|left].
    by destruct (bl_new _ _ _ _ Hb _ _ Hp0 Hp eq_refl) as [[= ->]|?].
  - assert (Hend : forall p, v_requests s !! cid = Some p -> (forall k, p <> Executing k f) ->
      blocked s0 key f (set_request cid (Ended (request_key p) (request_future p) Cancelled) s)).
    { intros p Hp Hno. apply blocked_set_request; [done|by apply cancelled_inv|done|]. simpl. intros Hk.
      destruct (v_requests s0 !! cid) as [p0|] eqn:Hp0; [by right; right; eexists|].
      destruct (bl_new _ _ _ _ Hb _ _ Hp0 Hp Hk) as [-> | ->]; simpl; auto. }
    unfold cancel_request in *. destruct (v_requests s !! cid) as [[k f'|k f'|]|] eqn:Hp; try done.
    + apply (Hend (Executing k f')); [done|]. intros k' [= -> ->]. by apply (bl_no_owner _ _ _ _ Hb) in Hp.
    + pose proof (Hend (Awaiting k f') eq_refl ltac:(done)) as Hc. simpl in Hc.
      destruct (q_store (v_coalescer s) !! f') as [[]|]; try done. destruct Hb. by split.
Qed.

(** ** Properties *)

(** C18. Identical requests share one execution and its answer.  In every
    interleaving of arrivals, executions, failures and cancellations: at most one
    request of a key executes at a time; requests on one future are requests of
    one key and are answered with one response; and while no request was
    cancelled, a request that awaits a pending future awaits one whose owner is
    executing. *)
Theorem coalesced_requests_share_one_execution calm s :
  service_runs calm init_service s ->
  (forall c1 c2 key f1 f2, v_requests s !! c1 = Some (Executing key f1) ->
     v_requests s !! c2 = Some (Executing key f2) -> c1 = c2)
  /\ (forall c1 c2 k1 k2 f r1 r2, v_requests s !! c1 = Some (Ended k1 f (Answered r1)) ->
       v_requests s !! c2 = Some (Ended k2 f (Answered r2)) -> k1 = k2 /\ r1 = r2)
  /\ (calm = true -> forall c key f, v_requests s !! c = Some (Awaiting key f) ->
       (exists v, q_store (v_coalescer s) !! f = Some v /\ is_Some (future_end v))
       \/ exists owner, v_requests s !! owner = Some (Executing key f)).
Proof.
  intros H. pose proof (service_runs_inv _ _ _ init_service_inv H) as Hinv. split_and!.
  - intros c1 c2 key f1 f2 H1 H2. destruct (vi_request _ Hinv _ _ H1) as [_ Hk1].
    destruct (vi_request _ Hinv _ _ H2) as [_ Hk2]. assert (f2 = f1) as -> by congruence.
    eapply (vi_single _ Hinv f1); [by eapply (vi_future _ Hinv)|done|done|..]; simpl; by apply bool_decide_eq_true.
  - intros c1 c2 k1 k2 f r1 r2 H1 H2. split; [by apply (vi_same_key _ Hinv _ _ _ _ H1 H2)|].
    destruct (vi_request _ Hinv _ _ H1) as [_ Hr1]. destruct (vi_request _ Hinv _ _ H2) as [_ Hr2].
    destruct (decide (c1 = c2)) as [->|Hne]; [congruence|].
    destruct Hr1 as [Hr1|Hr1]; [destruct Hr2; congruence|]. destruct Hne.
    eapply (vi_single _ Hinv f); [by right|done|done|..]; simpl; by apply bool_decide_eq_true.
  - intros -> c key f Hc. destruct (vi_request _ Hinv _ _ Hc) as [[v Hv] Hp].
    destruct v as [|r|e|]; [right|left; eexists; split; [done|by eexists]..].
    by apply (calm_owned s H), Hp.
Qed.

(** Cancelling the owner blocks its key for good.  When the request that
    executes for a key is cancelled, nothing resolves or removes its future: in
    every continuation, every new request of that key is bound to that future and
    is never answered, nor does it fail; it waits, or is cancelled in its turn. *)
Theorem cancelled_owner_blocks_the_key s s' key f owner :
  service_runs false init_service s ->
  v_requests s !! owner = Some (Executing key f) ->
  service_runs false (request_step (CancelRequest owner) s) s' ->
  q_futures (v_coalescer s') !! key = Some f
  /\ forall cid p, v_requests s !! cid = None -> v_requests s' !! cid = Some p -> request_key p = key ->
       p = Awaiting key f \/ p = Ended key f Cancelled.
Proof.
  intros H Hown Hrun. pose proof (service_runs_inv _ _ _ init_service_inv H) as Hinv.
  pose proof (request_step_inv s (CancelRequest owner) Hinv I) as Hinv1.
  destruct (vi_request _ Hinv _ _ Hown) as [_ Hk].
  assert (Hb : blocked s key f (request_step (CancelRequest owner) s)).
  { split; [done|..]; simpl; unfold cancel_request; rewrite Hown; simpl.
    - done.
    - intros c k. rewrite lookup_insert. case_decide as Hc; [done|]. intros Hx. apply Hc.
      eapply (vi_single _ Hinv f); [by eapply (vi_future _ Hinv)|done|done|..]; simpl; by apply bool_decide_eq_true.
    - intros c Hc. rewrite lookup_insert. case_decide; [by eexists|done].
    - intros c p Hc. rewrite lookup_insert. case_decide; [congruence|]. congruence. }
  assert (Hb' : blocked s key f s') by (induction Hrun as [|s1 ev _ IH Hn _]; [done|by apply blocked_step]).
  destruct Hb'. split; [done|]. intros cid p Hc Hp Hkey. by apply (bl_new0 cid).
Qed.
End coalescing.

(** ** Concrete runs *)

Definition step_allowed {R E} (calm : bool) (ev : @request_event R E) (s : service R E) : bool :=
  negb (calm && cancels ev)
  && match ev with
     | Begin cid _ _ => match v_requests s !! cid with Some _ => false | None => true end
     | _ => true
     end.

Fixpoint run_service {R E} (calm : bool) (evs : list (@request_event R E)) (s : service R E) : option (service R E) :=
  match evs with
  | [] => Some s
  | ev :: evs' => if step_allowed calm ev s then run_service calm evs' (request_step ev s) else None
  end.

Lemma run_service_runs {R E} calm evs (s0 s s' : service R E) :
  service_runs calm s0 s -> run_service calm evs s = Some s' -> service_runs calm s0 s'.
Proof.
  revert s. induction evs as [|ev evs IH]; intros s H Hr; simpl in Hr; [by injection Hr as <-|].
  destruct (step_allowed calm ev s) eqn:Ha; [|done]. apply (IH (request_step ev s)); [|done].
  unfold step_allowed in Ha. apply andb_true_iff in Ha as [Hc Hn]. apply negb_true_iff in Hc.
  constructor; [done| |done]. destruct ev; try done. simpl in *. by destruct (v_requests s !! cid).
Qed.

Definition after_events (calm : bool) (evs : list (@request_event nat string)) : service nat string :=
  match run_service calm evs init_service with Some s => s | None => init_service end.

Lemma after_events_runs calm evs :
  match run_service calm evs init_service with Some _ => true | None => false end = true ->
  service_runs calm init_service (after_events calm evs).
Proof.
  unfold after_events. destruct (run_service calm evs init_service) as [s|] eqn:Hr; [|done].
  intros _. by apply (run_service_runs calm evs _ init_service); [constructor|].
Qed.

(** Two identical requests and another one; the first executes for two. *)
Definition shared_events : list (@request_event nat string) :=
  [Begin 0 "rerank:q1" (Ok None); Begin 1 "rerank:q1" (Ok None); Begin 2 "rerank:q2" (Ok (Some 9));
   EndExecution 0 (Ok 7); Resume 1].

Example shared_execution :
  v_requests (after_events true shared_events) !! 0 = Some (Ended "rerank:q1" 0 (Answered 7))
  /\ v_requests (after_events true shared_events) !! 1 = Some (Ended "rerank:q1" 0 (Answered 7))
  /\ v_requests (after_events true shared_events) !! 2 = Some (Ended "rerank:q2" 1 (Answered 9)).
Proof. by vm_compute. Qed.

(** Cancelling one request that waits cancels the future of all the others. *)
Example one_cancelled_follower_cancels_all :
  let s := after_events false
    [Begin 0 "rerank:q1" (Ok None); Begin 1 "rerank:q1" (Ok None); Begin 2 "rerank:q1" (Ok None);
     CancelRequest 1; Resume 2; EndExecution 0 (Ok 7)] in
  v_requests s !! 0 = Some (Ended "rerank:q1" 0 (Answered 7))
  /\ v_requests s !! 2 = Some (Ended "rerank:q1" 0 Cancelled).
Proof. by vm_compute. Qed.

Lemma coalesced_requests_share_one_execution_witness :
  exists owner, v_requests (after_events true [Begin 0 "rerank:q1" (Ok None); Begin 1 "rerank:q1" (Ok None)]) !! owner
    = Some (Executing "rerank:q1" 0).
Proof.
  destruct (coalesced_requests_share_one_execution true
    (after_events true [Begin 0 "rerank:q1" (Ok None); Begin 1 "rerank:q1" (Ok None)])) as (_ & _ & H).
  - apply after_events_runs. by vm_compute.
  - destruct (H eq_refl 1 "rerank:q1" 0) as [(v & Hv & Hd)|Ho]; [by vm_compute| |exact Ho].
    vm_compute in Hv. injection Hv as <-. by destruct Hd.
Defined.

(** The owner is cancelled; a later request waits, and is not answered. *)
Lemma cancelled_owner_blocks_the_key_witness :
  q_futures (v_coalescer (after_events false
    [Begin 0 "rerank:q1" (Ok None); CancelRequest 0; Begin 1 "rerank:q1" (Ok (Some 3)); Resume 1])) !! "rerank:q1"
  = Some 0.
Proof.
  apply (cancelled_owner_blocks_the_key (after_events false [Begin 0 "rerank:q1" (Ok None)]) _ "rerank:q1" 0 0).
  - apply after_events_runs. by vm_compute.
  - by vm_compute.
  - apply (run_service_runs false [Begin 1 "rerank:q1" (Ok (Some 3)); Resume 1] _
      (request_step (CancelRequest 0) (after_events false [Begin 0 "rerank:q1" (Ok None)]))); [constructor|].
    by vm_compute.
Defined.
