(* ===== verification/NativeCalls.v ===== *)
(** Arguments of native tool calls: [_parse_gemma_native_arguments] and what it
    calls in src/src/lewlm/tool_calls.py, a recursive-descent parser for the
    object notation that some models emit, with bare keys and delimited strings.

    A position in the text is the rest of the text from there.  Python's recursion
    limit is the number of nested calls of [_parse_gemma_native_value] it admits.
    [json.loads] and [JSONDecoder.raw_decode] are parameters. *)

From S2P Require Import Prelude PyBytes PyText Json.

#[local] Open Scope N_scope.

(** ** Characters *)

Definition STRING_DELIMITER : pystr := [60; 124; 34; 124; 62].

Definition QUOTE : N := 34.
Definition COMMA : N := 44.
Definition COLON : N := 58.
Definition OPEN_BRACE : N := 123.
Definition CLOSE_BRACE : N := 125.
Definition OPEN_BRACKET : N := 91.
Definition CLOSE_BRACKET : N := 93.

Definition digit (c : N) : bool := (48 <=? c) && (c <=? 57).
Definition letter (c : N) : bool := ((65 <=? c) && (c <=? 90)) || ((97 <=? c) && (c <=? 122)).

(** The string of a text; the texts are ASCII. *)
Definition str_of (s : pystr) : string := String.string_of_list_ascii (map Ascii.ascii_of_N s).

(** The longest start of [s] whose characters satisfy [p], and the rest. *)
Fixpoint span (p : N -> bool) (s : pystr) : pystr * pystr :=
  match s with
  | [] => ([], [])
  | c :: s' => if p c then let '(a, b) := span p s' in (c :: a, b) else ([], s)
  end.

(** ** Tokens *)

(** An optional sign. *)
Definition sign_match (signs : N -> bool) (s : pystr) : pystr * pystr :=
  match s with
  | c :: t => if signs c then ([c], t) else ([], s)
  | [] => ([], s)
  end.

(** An optional part of a number: a mark, and digits after it. *)
Definition fraction_match (s : pystr) : pystr * pystr :=
  match s with
  | c :: t =>
      if c =? 46 then
        let '(ds, t') := span digit t in
        match ds with [] => ([], s) | _ => (c :: ds, t') end
      else ([], s)
  | [] => ([], s)
  end.

Definition exponent_match (s : pystr) : pystr * pystr :=
  match s with
  | c :: t =>
      if (c =? 101) || (c =? 69) then
        let '(sign, t1) := sign_match (fun d => (d =? 43) || (d =? 45)) t in
        let '(ds, t') := span digit t1 in
        match ds with [] => ([], s) | _ => (c :: sign ++ ds, t') end
      else ([], s)
  | [] => ([], s)
  end.

(** The first alternative of [_GEMMA_SCALAR_PATTERN]. *)
Definition number_match (s : pystr) : option (pystr * pystr) :=
  let '(sign, s1) := sign_match (fun c => c =? 45) s in
  let '(ds, s2) := span digit s1 in
  match ds with
  | [] => None
  | _ =>
      let '(fraction, s3) := fraction_match s2 in
      let '(exponent, s4) := exponent_match s3 in
      Some (sign ++ ds ++ fraction ++ exponent, s4)
  end.

(** [_GEMMA_BARE_KEY_PATTERN]. *)
Definition key_start (c : N) : bool := letter c || (c =? 95).
Definition key_char (c : N) : bool := letter c || digit c || (c =? 95) || (c =? 46) || (c =? 45).

Definition bare_key_match (s : pystr) : option (pystr * pystr) :=
  match s with
  | c :: t => if key_start c then let '(a, b) := span key_char t in Some (c :: a, b) else None
  | [] => None
  end.

(** [_GEMMA_SCALAR_LITERALS]. *)
Definition literals : list (pystr * json) :=
  [(pystr_of "true", JBool true); (pystr_of "false", JBool false); (pystr_of "null", JNull)].

Fixpoint literal_match (ls : list (pystr * json)) (s : pystr) : option (json * pystr) :=
  match ls with
  | [] => None
  | (l, v) :: ls' => if starts_with l s then Some (v, drop (length l) s) else literal_match ls' s
  end.

(** ** The parser *)

(** The texts of the errors, with the place they name; [RecursionError] is the one
    that is no [ValueError], and [Diverged] stands for a loop that runs for ever. *)
Inductive native_error :=
| UnterminatedString (at_ : pystr)
| InvalidQuoted (at_ : pystr) (message : string)
| UnexpectedValue (at_ : pystr)
| InvalidNumber (literal : pystr)
| ExpectedKey (at_ : pystr)
| ExpectedColon (key : string) (at_ : pystr)
| ExpectedCommaOr (closing : N) (at_ : pystr)
| TrailingText (at_ : pystr)
| RecursionError
| Diverged.

Definition value_error (e : native_error) : bool :=
  match e with RecursionError | Diverged => false | _ => true end.

(** What [json.loads] does: a value, a [JSONDecodeError], or another exception
    (which may be a [ValueError] too). *)
Inductive load_outcome :=
| Loaded (v : json)
| NotJson (message : string) (line column : Z)
| LoadRaised (is_value_error : bool).

(** What [raw_decode] does at a quote: a value and how many characters it took. *)
Inductive raw_outcome :=
| RawValue (v : json) (n : nat)
| RawError (message : string).

Section parser.
Context (json_loads : pystr -> load_outcome).
Context (raw_decode : pystr -> raw_outcome).
  (** [str(key)]. *)
Context (py_str : json -> string).

Definition parsed : Type := result native_error (json * pystr).

Definition parse_string (s : pystr) : parsed :=
  let t := drop (length STRING_DELIMITER) s in
  match find STRING_DELIMITER t with
  | None => Err (UnterminatedString s)
  | Some i => Ok (JStr (str_of (take i t)), drop (i + length STRING_DELIMITER) t)
  end.

Definition parse_quoted (s : pystr) : parsed :=
  match raw_decode s with
  | RawValue v n => Ok (v, drop n s)
  | RawError message => Err (InvalidQuoted s message)
  end.

Definition parse_scalar (s : pystr) : parsed :=
  match number_match s with
  | Some (literal, rest) =>
      match json_loads literal with
      | Loaded v => Ok (v, rest)
      | NotJson _ _ _ | LoadRaised true => Err (InvalidNumber literal)
      | LoadRaised false => Err RecursionError
      end
  | None =>
      match literal_match literals s with
      | Some r => Ok r
      | None => Err (UnexpectedValue s)
      end
  end.

Section containers.
  (** [_parse_gemma_native_value], called one level down. *)
Context (parse_value : pystr -> parsed).

Definition parse_key (s : pystr) : result native_error (string * pystr) :=
    let s := text_lstrip s in
    if starts_with STRING_DELIMITER s || starts_with [QUOTE] s then
      let? (key, rest) := parse_value s in
      Ok (py_str key, rest)
    else
      match bare_key_match s with
      | Some (key, rest) => Ok (str_of key, rest)
      | None => Err (ExpectedKey s)
      end.

  (** The loop of [_parse_gemma_native_container], for arrays and for objects; the
      fuel is a bound on its iterations. *)
Fixpoint parse_elements (fuel : nat) (items : list json) (s : pystr) : parsed :=
    match fuel with
    | O => Err Diverged
    | S fuel' =>
        let? (v, rest) := parse_value s in
        let items := items ++ [v] in
        let rest := text_lstrip rest in
        if starts_with [COMMA] rest then parse_elements fuel' items (text_lstrip (drop 1 rest))
        else if starts_with [CLOSE_BRACKET] rest then Ok (JArr items, drop 1 rest)
        else Err (ExpectedCommaOr CLOSE_BRACKET rest)
    end.

Fixpoint parse_members (fuel : nat) (items : list (string * json)) (s : pystr) : parsed :=
    match fuel with
    | O => Err Diverged
    | S fuel' =>
        let? (key, rest) := parse_key s in
        let rest := text_lstrip rest in
        if starts_with [COLON] rest then
          let? (v, rest) := parse_value (drop 1 rest) in
          let items := dset key v items in
          let rest := text_lstrip rest in
          if starts_with [COMMA] rest then parse_members fuel' items (text_lstrip (drop 1 rest))
          else if starts_with [CLOSE_BRACE] rest then Ok (JObj items, drop 1 rest)
          else Err (ExpectedCommaOr CLOSE_BRACE rest)
        else Err (ExpectedColon key rest)
    end.

Definition parse_container (keyed : bool) (s : pystr) : parsed :=
    let fuel := S (length s) in
    let s := text_lstrip s in
    if keyed then
      if starts_with [CLOSE_BRACE] s then Ok (JObj [], drop 1 s) else parse_members fuel [] s
    else
      if starts_with [CLOSE_BRACKET] s then Ok (JArr [], drop 1 s) else parse_elements fuel [] s.
End containers.

Fixpoint parse_value (limit : nat) (s : pystr) : parsed :=
  match limit with
  | O => Err RecursionError
  | S limit' =>
      let s := text_lstrip s in
      if starts_with STRING_DELIMITER s then parse_string s
      else if starts_with [QUOTE] s then parse_quoted s
      else if starts_with [OPEN_BRACE] s then parse_container (parse_value limit') true (drop 1 s)
      else if starts_with [OPEN_BRACKET] s then parse_container (parse_value limit') false (drop 1 s)
      else parse_scalar s
  end.

Definition parse_native_arguments (limit : nat) (text : pystr) : result native_error json :=
  let? (value, rest) := parse_value limit text in
  match text_lstrip rest with
  | [] => Ok value
  | rest => Err (TrailingText rest)
  end.

(** ** The notation

    What texts denote, as a grammar, independently of the parser. *)

Definition blank (w : pystr) : Prop := forallb text_space w = true.

Inductive native_key : string -> pystr -> Prop :=
| key_bare k : bare_key_match k = Some (k, []) -> native_key (str_of k) k
| key_delimited body :
    find STRING_DELIMITER (body ++ STRING_DELIMITER) = Some (length body) ->
    native_key (py_str (JStr (str_of body))) (STRING_DELIMITER ++ body ++ STRING_DELIMITER)
| key_quoted v t :
    starts_with [QUOTE] t = true -> raw_decode t = RawValue v (length t) -> native_key (py_str v) t.

(** [native v t]: the text [t] denotes [v].  A later member of an object replaces
    an earlier one with its key. *)
Inductive native : json -> pystr -> Prop :=
| native_delimited body :
    find STRING_DELIMITER (body ++ STRING_DELIMITER) = Some (length body) ->
    native (JStr (str_of body)) (STRING_DELIMITER ++ body ++ STRING_DELIMITER)
| native_quoted v t :
    starts_with [QUOTE] t = true -> raw_decode t = RawValue v (length t) -> native v t
| native_number v t : number_match t = Some (t, []) -> json_loads t = Loaded v -> native v t
| native_literal v l : (l, v) ∈ literals -> native v l
| native_empty_array w : blank w -> native (JArr []) ([OPEN_BRACKET] ++ w ++ [CLOSE_BRACKET])
| native_array es t : native_elements es t -> native (JArr es) ([OPEN_BRACKET] ++ t ++ [CLOSE_BRACKET])
| native_empty_object w : blank w -> native (JObj []) ([OPEN_BRACE] ++ w ++ [CLOSE_BRACE])
| native_object ms t :
    native_members ms t ->
    native (JObj (foldl (fun d m => dset m.1 m.2 d) [] ms)) ([OPEN_BRACE] ++ t ++ [CLOSE_BRACE])
with native_elements : list json -> pystr -> Prop :=
| elements_last v t w1 w2 : blank w1 -> blank w2 -> native v t -> native_elements [v] (w1 ++ t ++ w2)
| elements_more v t w1 w2 es ts :
    blank w1 -> blank w2 -> native v t -> native_elements es ts ->
    native_elements (v :: es) (w1 ++ t ++ w2 ++ [COMMA] ++ ts)
with native_members : list (string * json) -> pystr -> Prop :=
| members_last k kt v t w1 w2 w3 w4 :
    blank w1 -> blank w2 -> blank w3 -> blank w4 -> native_key k kt -> native v t ->
    native_members [(k, v)] (w1 ++ kt ++ w2 ++ [COLON] ++ w3 ++ t ++ w4)
| members_more k kt v t w1 w2 w3 w4 ms ts :
    blank w1 -> blank w2 -> blank w3 -> blank w4 -> native_key k kt -> native v t ->
    native_members ms ts ->
    native_members ((k, v) :: ms) (w1 ++ kt ++ w2 ++ [COLON] ++ w3 ++ t ++ w4 ++ [COMMA] ++ ts).

Scheme native_mut := Minimality for native Sort Prop
with native_elements_mut := Minimality for native_elements Sort Prop
with native_members_mut := Minimality for native_members Sort Prop.
Combined Scheme native_mutual_ind from native_mut, native_elements_mut, native_members_mut.

(** A whole text, whitespace around it allowed. *)
Definition native_text (v : json) (text : pystr) : Prop :=
  exists w1 t w2, text = w1 ++ t ++ w2 /\ blank w1 /\ blank w2 /\ native v t.
End parser.

(** ** Spans *)

(** [rest] does not begin with a character of [p]. *)
Definition ends_here (p : N -> bool) (rest : pystr) : bool :=
  match rest with [] => true | c :: _ => negb (p c) end.

Lemma span_app p s a b :
  span p s = (a, b) -> s = a ++ b /\ forallb p a = true /\ ends_here p b = true.
Proof.
  revert a b. induction s as [|c s IH]; intros a b; simpl; [by intros [= <- <-]|].
  destruct (p c) eqn:Hc.
  - destruct (span p s) as [a' b'] eqn:Hs. intros [= <- <-]. destruct (IH _ _ eq_refl) as (-> & Ha & Hb).
    split_and!; [done| |done]. simpl. by rewrite Hc.
  - intros [= <- <-]. split_and!; [done|done|]. simpl. by rewrite Hc.
Qed.

Lemma span_of p a b : forallb p a = true -> ends_here p b = true -> span p (a ++ b) = (a, b).
Proof.
  induction a as [|c a IH]; simpl.
  - destruct b as [|d b]; [done|]. simpl. by intros _ ->%negb_true_iff.
  - intros [Hc Ha]%andb_true_iff Hb. by rewrite Hc, IH.
Qed.

(** More text after a span that did not reach the end, or that cannot go on. *)
Lemma span_more p s a b rest :
  span p s = (a, b) -> (b = [] -> ends_here p rest = true) -> span p (s ++ rest) = (a, b ++ rest).
Proof.
  intros (-> & Ha & Hb)%span_app Hrest. rewrite <- app_assoc. apply span_of; [done|].
  destruct b; [by apply Hrest|done].
Qed.

(** ** Numbers *)

(** What can follow a number without being read as more of it. *)
Definition number_char (c : N) : bool := digit c || (c =? 46) || (c =? 101) || (c =? 69).

Lemma ends_digit rest : ends_here number_char rest = true -> ends_here digit rest = true.
Proof.
  destruct rest as [|c rest]; [done|]. simpl. unfold number_char. rewrite !negb_orb, !andb_true_iff. naive_solver.
Qed.

Lemma fraction_app s a b : fraction_match s = (a, b) -> s = a ++ b.
Proof.
  unfold fraction_match. destruct s as [|c t]; [by intros [= <- <-]|]. destruct (c =? 46); [|by intros [= <- <-]].
  destruct (span digit t) as [ds t'] eqn:Hs. apply span_app in Hs as (-> & _ & _).
  destruct ds; intros [= <- <-]; done.
Qed.

Lemma sign_app p s a b : sign_match p s = (a, b) -> s = a ++ b.
Proof. unfold sign_match. destruct s as [|c t]; [|destruct (p c)]; by intros [= <- <-]. Qed.

Lemma sign_more p s a b rest : sign_match p s = (a, b) -> s <> [] -> sign_match p (s ++ rest) = (a, b ++ rest).
Proof. unfold sign_match. destruct s as [|c t]; [done|]. simpl. destruct (p c); by intros [= <- <-]. Qed.

(** What follows the sign does not look like one. *)
Lemma sign_of p s a b d x : sign_match p s = (a, d :: b) -> p d = false -> sign_match p (a ++ d :: x) = (a, d :: x).
Proof.
  unfold sign_match. destruct s as [|c t]; [done|]. destruct (p c) eqn:Hc; intros Heq Hd; simplify_eq/=.
  - by rewrite Hc.
  - by rewrite Hd.
Qed.

Lemma exponent_app s a b : exponent_match s = (a, b) -> s = a ++ b.
Proof.
  unfold exponent_match. destruct s as [|c t]; [by intros [= <- <-]|].
  destruct ((c =? 101) || (c =? 69)); [|by intros [= <- <-]].
  destruct (sign_match _ t) as [sign t1] eqn:Hsign. apply sign_app in Hsign as ->.
  destruct (span digit t1) as [ds t'] eqn:Hs. apply span_app in Hs as (-> & _ & _).
  destruct ds; intros [= <- <-]; [done|]. simpl. by rewrite <- app_assoc.
Qed.

Lemma number_app s t rest : number_match s = Some (t, rest) -> s = t ++ rest /\ t <> [].
Proof.
  unfold number_match. destruct (sign_match _ s) as [sign s1] eqn:Hsign. apply sign_app in Hsign as ->.
  destruct (span digit s1) as [ds s2] eqn:Hd. apply span_app in Hd as (-> & _ & _). destruct ds as [|d ds]; [done|].
  destruct (fraction_match s2) as [f s3] eqn:Hf. apply fraction_app in Hf as ->.
  destruct (exponent_match s3) as [e s4] eqn:He. apply exponent_app in He as ->.
  intros [= <- <-]. rewrite <- app_assoc. simpl. rewrite <- !app_assoc. split; [done|]. by destruct sign.
Qed.

Lemma fraction_more s a b rest :
  fraction_match s = (a, b) -> starts_with [46] b = false -> ends_here number_char rest = true ->
  fraction_match (s ++ rest) = (a, b ++ rest).
Proof.
  intros Hf Hb Hr. unfold fraction_match in *. destruct s as [|c t].
  - injection Hf as <- <-. simpl. destruct rest as [|c rest]; [done|]. simpl in Hr.
    unfold number_char in Hr. rewrite !negb_orb, !andb_true_iff in Hr. destruct Hr as [[[_ ->%negb_true_iff] _] _]. done.
  - cbn -[span N.eqb] in *. destruct (c =? 46) eqn:Hc; [|by injection Hf as <- <-].
    destruct (span digit t) as [ds t'] eqn:Hs.
    rewrite (span_more _ _ _ _ rest Hs) by (intros _; by apply ends_digit).
    destruct ds as [|d ds]; injection Hf as <- <-; [|done].
    exfalso. cbn -[N.eqb] in Hb. by rewrite N.eqb_sym, Hc in Hb.
Qed.

Lemma exponent_more s a rest :
  exponent_match s = (a, []) -> ends_here number_char rest = true ->
  exponent_match (s ++ rest) = (a, rest) /\ starts_with [46] s = false.
Proof.
  intros He Hr. unfold exponent_match in *. destruct s as [|c t].
  - injection He as <-. split; [|done]. simpl. destruct rest as [|c rest]; [done|]. simpl in Hr.
    unfold number_char in Hr. rewrite !negb_orb, !andb_true_iff in Hr.
    destruct Hr as [[_ H1%negb_true_iff] H2%negb_true_iff]. by rewrite H1, H2.
  - cbn -[span N.eqb sign_match] in *. destruct ((c =? 101) || (c =? 69)) eqn:Hc; [|done].
    assert (Hdot : starts_with [46] (c :: t) = false).
    { simpl. rewrite andb_true_r. apply orb_true_iff in Hc as [->%N.eqb_eq | ->%N.eqb_eq]; done. }
    split; [|done]. destruct (sign_match _ t) as [sign t1] eqn:Hsign.
    destruct (span digit t1) as [ds t'] eqn:Hs. destruct ds as [|d ds]; [done|]. injection He as <- ->.
    assert (Ht : t <> []) by (intros ->; injection Hsign as <- <-; done).
    rewrite (sign_more _ _ _ _ rest Hsign Ht).
    by rewrite (span_more _ _ _ _ rest Hs) by (intros _; by apply ends_digit).
Qed.

Lemma number_more t rest :
  number_match t = Some (t, []) -> ends_here number_char rest = true -> number_match (t ++ rest) = Some (t, rest).
Proof.
  intros Hn Hr. destruct (number_app _ _ _ Hn) as [_ Hne]. revert Hn. unfold number_match.
  destruct (sign_match _ t) as [sign s1] eqn:Hsign. rewrite (sign_more _ _ _ _ rest Hsign Hne).
  destruct (span digit s1) as [ds s2] eqn:Hd.
  rewrite (span_more _ _ _ _ rest Hd) by (intros _; by apply ends_digit).
  destruct ds as [|d ds]; [done|].
  destruct (fraction_match s2) as [f s3] eqn:Hf. destruct (exponent_match s3) as [e s4] eqn:He.
  intros [= Heq ->]. destruct (exponent_more _ _ rest He Hr) as [He' Hdot].
  rewrite (fraction_more _ _ _ rest Hf Hdot Hr), He'. by rewrite <- Heq.
Qed.

(** Matching only what was matched. *)
Lemma span_fst p s a b : span p s = (a, b) -> span p a = (a, []).
Proof. intros (-> & Ha & _)%span_app. rewrite <- (app_nil_r a) at 1. by apply span_of. Qed.

Lemma fraction_fst s a b : fraction_match s = (a, b) -> fraction_match a = (a, []).
Proof.
  unfold fraction_match. destruct s as [|c t]; [by intros [= <- <-]|]. destruct (c =? 46) eqn:Hc; [|by intros [= <- <-]].
  destruct (span digit t) as [ds t'] eqn:Hs. apply span_fst in Hs.
  destruct ds as [|d ds]; intros [= <- <-]; [done|]. by rewrite Hc, Hs.
Qed.

Lemma digit_no_sign c : digit c = true -> ((c =? 43) || (c =? 45) = false) /\ (c =? 45) = false.
Proof. unfold digit. intros [H1%N.leb_le H2%N.leb_le]%andb_true_iff. rewrite orb_false_iff, !N.eqb_neq. lia. Qed.

Lemma exponent_fst s a b : exponent_match s = (a, b) -> exponent_match a = (a, []).
Proof.
  unfold exponent_match. destruct s as [|c t]; [by intros [= <- <-]|].
  destruct ((c =? 101) || (c =? 69)) eqn:Hc; [|by intros [= <- <-]].
  destruct (sign_match _ t) as [sign t1] eqn:Hsign. destruct (span digit t1) as [ds t'] eqn:Hs.
  destruct ds as [|d ds]; intros [= <- <-]; [done|]. rewrite Hc.
  pose proof (span_app _ _ _ _ Hs) as (Ht1 & Hall & _). rewrite Ht1 in Hsign. simpl in Hall, Hsign.
  apply andb_true_iff in Hall as [Hd _].
  rewrite (sign_of _ _ _ _ _ ds Hsign) by by apply digit_no_sign.
  by rewrite (span_fst _ _ _ _ Hs).
Qed.

Lemma head_of_fraction s a b : fraction_match s = (a, b) -> a = [] \/ exists t, a = 46 :: t.
Proof.
  unfold fraction_match. destruct s as [|c t]; [intros [= <- <-]; by left|].
  destruct (c =? 46) eqn:Hc; [|intros [= <- <-]; by left]. apply N.eqb_eq in Hc as ->.
  destruct (span digit t) as [[|d ds] t']; intros [= <- <-]; [by left|right; by eexists].
Qed.

Lemma head_of_exponent s a b : exponent_match s = (a, b) -> a = [] \/ exists c t, a = c :: t /\ (c = 101 \/ c = 69).
Proof.
  unfold exponent_match. destruct s as [|c t]; [intros [= <- <-]; by left|].
  destruct ((c =? 101) || (c =? 69)) eqn:Hc; [|intros [= <- <-]; by left].
  destruct (sign_match _ t) as [sign t1]. destruct (span digit t1) as [[|d ds] t']; intros [= <- <-]; [by left|].
  right. eexists _, _. split; [done|]. apply orb_true_iff in Hc as [->%N.eqb_eq| ->%N.eqb_eq]; auto.
Qed.

(** A matched number matches as a whole. *)
Lemma number_fst s t rest : number_match s = Some (t, rest) -> number_match t = Some (t, []).
Proof.
  unfold number_match. destruct (sign_match _ s) as [sign s1] eqn:Hsign.
  destruct (span digit s1) as [ds s2] eqn:Hd. destruct ds as [|d ds]; [done|].
  destruct (fraction_match s2) as [f s3] eqn:Hf. destruct (exponent_match s3) as [e s4] eqn:He.
  intros [= <- <-]. pose proof (span_app _ _ _ _ Hd) as (Hs1 & Hall & _). rewrite Hs1 in Hsign.
  assert (Hdig : digit d = true) by (simpl in Hall; by apply andb_true_iff in Hall as [? _]).
  simpl app in Hsign |- *. rewrite (sign_of _ _ _ _ _ (ds ++ f ++ e) Hsign) by by apply digit_no_sign.
  assert (Hfe : ends_here digit (f ++ e) = true /\ (f = [] -> starts_with [46] e = false)).
  { destruct (head_of_fraction _ _ _ Hf) as [->|[t ->]];
      destruct (head_of_exponent _ _ _ He) as [->|(c & t' & -> & [->| ->])]; done. }
  destruct Hfe as [Hfe Hdot].
  rewrite (span_of digit (d :: ds) (f ++ e) Hall Hfe : span digit (d :: ds ++ f ++ e) = _).
  assert (Hf' : fraction_match (f ++ e) = (f, e)).
  { destruct (head_of_fraction _ _ _ Hf) as [->|[t ->]].
    - specialize (Hdot eq_refl). unfold fraction_match. destruct e as [|c e]; [done|].
      cbn -[N.eqb span] in *. rewrite N.eqb_sym, andb_true_r in Hdot. by rewrite Hdot.
    - pose proof (fraction_fst _ _ _ Hf) as Hff. unfold fraction_match in *. cbn -[span] in *.
      destruct (span digit t) as [ds' t'] eqn:Hst.
      rewrite (span_more _ _ _ _ e Hst).
      + destruct ds' as [|x ds']; [done|]. injection Hff as -> ->. done.
      + intros _. destruct (head_of_exponent _ _ _ He) as [->|(c & t'' & -> & [->| ->])]; done. }
  rewrite Hf', (exponent_fst _ _ _ He). by rewrite ?app_nil_r.
Qed.

(** ** Whitespace *)

Lemma lstrip_split s : exists w, s = w ++ text_lstrip s /\ blank w /\ ends_here text_space (text_lstrip s) = true.
Proof.
  induction s as [|c s (w & Hs & Hw & He)]; [by exists []|]. cbn [text_lstrip]. destruct (text_space c) eqn:Hc.
  - exists (c :: w). split_and!; [by rewrite Hs at 1| |done]. unfold blank in *. simpl. by rewrite Hc.
  - exists []. split_and!; [done|done|]. simpl. by rewrite Hc.
Qed.

Lemma lstrip_blank w s : blank w -> text_lstrip (w ++ s) = text_lstrip s.
Proof.
  unfold blank. induction w as [|c w IH]; [done|]. simpl. intros [Hc Hw]%andb_true_iff. by rewrite Hc, IH.
Qed.

Lemma lstrip_id s : ends_here text_space s = true -> text_lstrip s = s.
Proof. destruct s as [|c s]; [done|]. simpl. by intros ->%negb_true_iff. Qed.

Lemma lstrip_twice s : text_lstrip (text_lstrip s) = text_lstrip s.
Proof. destruct (lstrip_split s) as (w & _ & _ & H). by apply lstrip_id. Qed.

Lemma length_lstrip s : (length (text_lstrip s) <= length s)%nat.
Proof. destruct (lstrip_split s) as (w & H & _). rewrite H at 2. rewrite length_app. lia. Qed.

Lemma blank_app w1 w2 : blank w1 -> blank w2 -> blank (w1 ++ w2).
Proof. unfold blank. intros H1 H2. by rewrite forallb_app, H1, H2. Qed.

Lemma starts_with_one c s : starts_with [c] s = true <-> exists t, s = c :: t.
Proof. rewrite starts_with_spec. simpl. done. Qed.

(** Whitespace, and then a mark. *)
Lemma lstrip_mark s c : starts_with [c] (text_lstrip s) = true ->
  exists w, s = w ++ c :: drop 1 (text_lstrip s) /\ blank w.
Proof.
  intros [t Ht]%starts_with_one. destruct (lstrip_split s) as (w & Hs & Hw & _). exists w.
  rewrite Ht in *. simpl. by rewrite drop_0.
Qed.

Lemma lstrip_at_mark w c s : blank w -> text_space c = false -> text_lstrip (w ++ c :: s) = c :: s.
Proof. intros Hw Hc. rewrite lstrip_blank by done. simpl. by rewrite Hc. Qed.

(** An occurrence found in a longer text is found when the text ends with it. *)
Lemma find_up_to sub u w :
  find sub (u ++ sub ++ w) = Some (length u) -> find sub (u ++ sub) = Some (length u).
Proof.
  intros H. destruct (find sub (u ++ sub)) as [j|] eqn:Hj.
  - apply (find_more _ _ w) in Hj. rewrite <- app_assoc, H in Hj. done.
  - pose proof (find_None _ _ (length u) Hj) as Hn. rewrite drop_app_length in Hn.
    pose proof (starts_with_app sub []) as Hs. rewrite app_nil_r in Hs. congruence.
Qed.

(** ** The parser reads the notation *)

Section correctness.
Context (json_loads : pystr -> load_outcome).
Context (raw_decode : pystr -> raw_outcome).
Context (py_str : json -> string).

  (** Decoding a string literal takes some characters, and looks at no others. *)
Definition decodes_literals : Prop :=
    forall s v n, starts_with [QUOTE] s = true ->
      raw_decode s = RawValue v n <-> (0 < n <= length s)%nat /\ raw_decode (take n s) = RawValue v n.

  (** A number is nested in nothing: what goes wrong with it is a [ValueError]. *)
Definition loads_numbers : Prop :=
    forall s t rest, number_match s = Some (t, rest) -> json_loads t <> LoadRaised false.

Context (Hraw : decodes_literals) (Hnum : loads_numbers).

Notation parse_value := (parse_value json_loads raw_decode py_str).
Notation native := (native json_loads raw_decode py_str).
Notation native_key := (native_key raw_decode py_str).
Notation native_elements := (native_elements json_loads raw_decode py_str).
Notation native_members := (native_members json_loads raw_decode py_str).

Definition starter (c : N) : bool :=
    (c =? 60) || (c =? QUOTE) || (c =? OPEN_BRACE) || (c =? OPEN_BRACKET) || (c =? 45) || digit c
    || (c =? 116) || (c =? 102) || (c =? 110).

Lemma number_head s t rest :
    number_match s = Some (t, rest) -> exists c t', t = c :: t' /\ (c = 45 \/ digit c = true).
Proof.
    intros Hn%number_fst. revert Hn. unfold number_match. unfold sign_match.
    destruct t as [|c t]; [done|]. destruct (c =? 45) eqn:Hc.
    - intros _. exists c, t. apply N.eqb_eq in Hc. auto.
    - destruct (span digit (c :: t)) as [[|d ds] s2] eqn:Hs; [done|]. intros _.
      apply span_app in Hs as (Heq & Hall & _). injection Heq as <- _. simpl in Hall.
      apply andb_true_iff in Hall as [Hd _]. eauto.
Qed.

Lemma native_head v t : native v t -> exists c t', t = c :: t' /\ starter c = true.
Proof.
    intros H. destruct H as [body _|v t Hq _|v t Hn _|v l Hl|w _|es t _|w _|ms t _]; try by eexists _, _.
    - apply starts_with_one in Hq as [t' ->]. by eexists _, _.
    - destruct (number_head _ _ _ Hn) as (c & t' & -> & Hc). exists c, t'. split; [done|]. unfold starter.
      destruct Hc as [-> | ->]; [done|]. by rewrite !orb_true_r.
    - unfold literals in Hl. repeat (apply elem_of_cons in Hl as [[= -> ->]|Hl]; [by eexists _, _|]).
      by apply not_elem_of_nil in Hl.
Qed.

Lemma starter_spec c : starter c = true ->
    text_space c = false /\ c <> CLOSE_BRACKET /\ c <> CLOSE_BRACE /\ c <> COMMA.
Proof.
    unfold starter, digit, text_space, QUOTE, OPEN_BRACE, OPEN_BRACKET, CLOSE_BRACKET, CLOSE_BRACE, COMMA.
    rewrite !orb_true_iff, !andb_true_iff, !N.eqb_eq, !N.leb_le.
    rewrite !orb_false_iff, !andb_false_iff, !N.eqb_neq, !N.leb_gt. lia.
Qed.

Lemma key_head k kt :
    native_key k kt -> exists c t', kt = c :: t' /\ text_space c = false /\ c <> CLOSE_BRACE.
Proof.
    intros [k' Hk|body _|v t Hq _]; [|by eexists _, _|].
    - unfold bare_key_match in Hk. destruct k' as [|c t]; [done|]. exists c, t. split; [done|].
      destruct (key_start c) eqn:Hc; [|done]. clear -Hc. revert Hc.
      unfold key_start, letter, text_space, CLOSE_BRACE. rewrite !orb_true_iff, !andb_true_iff, !N.eqb_eq, !N.leb_le.
      rewrite !orb_false_iff, !andb_false_iff, !N.eqb_neq, !N.leb_gt. lia.
    - apply starts_with_one in Hq as [t' ->]. by eexists _, _.
Qed.

  (** ** Strings *)

Lemma delimiter_not_quote s : starts_with [QUOTE] s = true -> starts_with STRING_DELIMITER s = false.
  Proof. by intros [t ->]%starts_with_one. Qed.

Lemma parse_value_delimited limit s :
    starts_with STRING_DELIMITER s = true -> parse_value (S limit) s = parse_string s.
Proof.
    intros H. pose proof H as [t Ht]%starts_with_spec. cbn [NativeCalls.parse_value].
    rewrite lstrip_id by by rewrite Ht. by rewrite H.
Qed.

Lemma parse_value_quoted limit s :
    starts_with [QUOTE] s = true -> parse_value (S limit) s = parse_quoted raw_decode s.
Proof.
    intros H. pose proof H as [t Ht]%starts_with_one. cbn [NativeCalls.parse_value].
    rewrite lstrip_id by by rewrite Ht. by rewrite (delimiter_not_quote _ H), H.
Qed.

  (** A delimited string, and the text after it. *)
Lemma parse_string_sound s v rest :
    starts_with STRING_DELIMITER s = true -> parse_string s = Ok (v, rest) ->
    exists body, v = JStr (str_of body) /\ s = (STRING_DELIMITER ++ body ++ STRING_DELIMITER) ++ rest
      /\ find STRING_DELIMITER (body ++ STRING_DELIMITER) = Some (length body).
Proof.
    intros [t ->]%starts_with_spec. unfold parse_string. rewrite drop_app_length.
    destruct (find STRING_DELIMITER t) as [i|] eqn:Hf; [|done]. intros [= <- <-]. exists (take i t).
    destruct (find_Some _ _ _ Hf) as (u & w & Ht & Hi). subst t.
    assert (Htake : take i (u ++ STRING_DELIMITER ++ w) = u) by (rewrite <- Hi; apply take_app_length).
    rewrite Htake. split_and!; [done| |].
    - rewrite <- drop_drop, <- Hi, drop_app_length.
      change (drop 5 (STRING_DELIMITER ++ w)) with (drop (length STRING_DELIMITER) (STRING_DELIMITER ++ w)). rewrite drop_app_length. by rewrite <- !app_assoc.
    - subst i. by apply (find_up_to _ _ w).
Qed.

Lemma parse_quoted_sound s v rest :
    starts_with [QUOTE] s = true -> parse_quoted raw_decode s = Ok (v, rest) ->
    exists t, s = t ++ rest /\ starts_with [QUOTE] t = true /\ raw_decode t = RawValue v (length t).
Proof.
    intros Hq. unfold parse_quoted. destruct (raw_decode s) as [v' n|msg] eqn:Hr; [|done]. intros [= <- <-].
    apply Hraw in Hr as [Hn Hr]; [|done]. exists (take n s).
    rewrite take_drop, length_take, Nat.min_l by lia. split_and!; [done| |done].
    apply starts_with_one in Hq as [t ->]. destruct n; [lia|done].
Qed.

Lemma parse_scalar_sound s v rest :
    parse_scalar json_loads s = Ok (v, rest) -> exists t, s = t ++ rest /\ native v t.
Proof.
    unfold parse_scalar. destruct (number_match s) as [[t r]|] eqn:Hn.
    - destruct (json_loads t) as [v'| |[]] eqn:Hl; try done. intros [= <- <-]. exists t.
      destruct (number_app _ _ _ Hn) as [-> _]. split; [done|]. apply native_number; [by eapply number_fst|done].
    - assert (H : forall ls, (forall l v, (l, v) ∈ ls -> native v l) -> literal_match ls s = Some (v, rest) ->
        exists t, s = t ++ rest /\ native v t).
      { induction ls as [|[l v'] ls IH]; intros Hls; simpl; [done|]. destruct (starts_with l s) eqn:Hs.
        - intros [= <- <-]. apply starts_with_spec in Hs as [t ->]. exists l. rewrite drop_app_length.
          split; [done|]. apply Hls. by left.
        - apply IH. intros l0 v0 Hin. apply Hls. by right. }
      destruct (literal_match literals s) as [r|] eqn:Hl; [|done]. intros [= ->].
      apply (H literals); [|done]. intros l v' Hin. by apply native_literal.
Qed.

  (** ** What is parsed is in the notation *)

Definition reads (s : pystr) (v : json) (rest : pystr) : Prop :=
    exists w t, s = w ++ t ++ rest /\ blank w /\ native v t.

Lemma elements_blank w es t : blank w -> native_elements es t -> native_elements es (w ++ t).
Proof.
    intros Hw H. destruct H as [v t w1 w2 H1 H2 Hv|v t w1 w2 es ts H1 H2 Hv Hes];
      rewrite app_assoc; constructor; by try apply blank_app.
Qed.

Lemma members_blank w ms t : blank w -> native_members ms t -> native_members ms (w ++ t).
Proof.
    intros Hw H. destruct H; rewrite app_assoc; constructor; by try apply blank_app.
Qed.

Lemma elements_sound limit :
    (forall s v rest, parse_value limit s = Ok (v, rest) -> reads s v rest) ->
    forall fuel items s v rest, parse_elements (parse_value limit) fuel items s = Ok (v, rest) ->
    exists es t, v = JArr (items ++ es) /\ s = t ++ [CLOSE_BRACKET] ++ rest /\ native_elements es t.
Proof.
    intros IHv. induction fuel as [|fuel IH]; intros items s v rest; [done|]. cbn [parse_elements].
    destruct (parse_value limit s) as [[x r]|] eqn:Hx; [|done]. cbn [rbind].
    destruct (IHv _ _ _ Hx) as (w & t & -> & Hw & Ht).
    destruct (starts_with [COMMA] (text_lstrip r)) eqn:Hc.
    - destruct (lstrip_mark _ _ Hc) as (w2 & Hr & Hw2). set (r2 := drop 1 (text_lstrip r)) in *.
      intros H. destruct (IH _ _ _ _ H) as (es & ts & -> & Hts & Hes).
      destruct (lstrip_split r2) as (w3 & Hr2 & Hw3 & _).
      exists (x :: es), (w ++ t ++ w2 ++ [COMMA] ++ w3 ++ ts). split_and!.
      + by rewrite <- app_assoc.
      + rewrite Hr. rewrite Hr2 at 1. rewrite Hts. by rewrite <- !app_assoc.
      + constructor; [done..|]. by apply elements_blank.
    - destruct (starts_with [CLOSE_BRACKET] (text_lstrip r)) eqn:Hb; [|done]. intros [= <- <-].
      destruct (lstrip_mark _ _ Hb) as (w2 & Hr & Hw2). exists [x], (w ++ t ++ w2). split_and!.
      + done.
      + rewrite Hr at 1. by rewrite <- !app_assoc.
      + by constructor.
Qed.

Lemma key_sound limit s k rest :
    (forall s v rest, parse_value limit s = Ok (v, rest) -> reads s v rest) ->
    parse_key py_str (parse_value limit) s = Ok (k, rest) ->
    exists w kt, s = w ++ kt ++ rest /\ blank w /\ native_key k kt.
Proof.
    intros IHv H. unfold parse_key in H. destruct (lstrip_split s) as (w & Hs & Hw & _).
    set (s' := text_lstrip s) in *. clearbody s'. subst s. exists w. revert H.
    destruct (starts_with STRING_DELIMITER s') eqn:Hd; [|destruct (starts_with [QUOTE] s') eqn:Hq]; cbn [orb].
    - destruct limit as [|limit]; [done|]. rewrite parse_value_delimited by done.
      destruct (parse_string s') as [[v r]|] eqn:Hp; [|done]. intros [= <- <-].
      destruct (parse_string_sound _ _ _ Hd Hp) as (body & -> & -> & Hf).
      exists (STRING_DELIMITER ++ body ++ STRING_DELIMITER). split_and!; [done|done|by constructor].
    - destruct limit as [|limit]; [done|]. rewrite parse_value_quoted by done.
      destruct (parse_quoted raw_decode s') as [[v r]|] eqn:Hp; [|done]. intros [= <- <-].
      destruct (parse_quoted_sound _ _ _ Hq Hp) as (t & -> & Ht & Hr).
      exists t. split_and!; [done..|by constructor].
    - destruct (bare_key_match s') as [[k' r]|] eqn:Hk; [|done]. intros [= <- <-].
      exists k'. unfold bare_key_match in Hk. destruct s' as [|c s']; [done|].
      destruct (key_start c) eqn:Hc; [|done]. destruct (span key_char s') as [a b] eqn:Hsp.
      injection Hk as <- <-. pose proof (span_app _ _ _ _ Hsp) as (-> & _ & _).
      split_and!; [done..|]. constructor. unfold bare_key_match. by rewrite Hc, (span_fst _ _ _ _ Hsp).
Qed.

Lemma members_sound limit :
    (forall s v rest, parse_value limit s = Ok (v, rest) -> reads s v rest) ->
    forall fuel items s v rest, parse_members py_str (parse_value limit) fuel items s = Ok (v, rest) ->
    exists ms t, v = JObj (foldl (fun d m => dset m.1 m.2 d) items ms)
      /\ s = t ++ [CLOSE_BRACE] ++ rest /\ native_members ms t.
Proof.
    intros IHv. induction fuel as [|fuel IH]; intros items s v rest; [done|]. cbn [parse_members].
    destruct (parse_key py_str (parse_value limit) s) as [[k r0]|] eqn:Hk; [|done]. cbn [rbind].
    destruct (key_sound _ _ _ _ IHv Hk) as (w1 & kt & -> & Hw1 & Hkt).
    destruct (starts_with [COLON] (text_lstrip r0)) eqn:Hco; [|done].
    destruct (lstrip_mark _ _ Hco) as (w2 & Hr0 & Hw2). set (r1 := drop 1 (text_lstrip r0)) in *.
    destruct (parse_value limit r1) as [[x r]|] eqn:Hx; [|done]. cbn [rbind].
    destruct (IHv _ _ _ Hx) as (w3 & t & Hr1 & Hw3 & Ht).
    destruct (starts_with [COMMA] (text_lstrip r)) eqn:Hc.
    - destruct (lstrip_mark _ _ Hc) as (w4 & Hr & Hw4). set (r2 := drop 1 (text_lstrip r)) in *.
      intros H. destruct (IH _ _ _ _ H) as (ms & ts & -> & Hts & Hms).
      destruct (lstrip_split r2) as (w5 & Hr2 & Hw5 & _).
      exists ((k, x) :: ms), (w1 ++ kt ++ w2 ++ [COLON] ++ w3 ++ t ++ w4 ++ [COMMA] ++ w5 ++ ts). split_and!.
      + done.
      + rewrite Hr0, Hr1, Hr. rewrite Hr2 at 1. rewrite Hts. by rewrite <- !app_assoc.
      + constructor; [done..|]. by apply members_blank.
    - destruct (starts_with [CLOSE_BRACE] (text_lstrip r)) eqn:Hb; [|done]. intros [= <- <-].
      destruct (lstrip_mark _ _ Hb) as (w4 & Hr & Hw4).
      exists [(k, x)], (w1 ++ kt ++ w2 ++ [COLON] ++ w3 ++ t ++ w4). split_and!.
      + done.
      + rewrite Hr0, Hr1. rewrite Hr at 1. by rewrite <- !app_assoc.
      + by constructor.
Qed.

Lemma parse_value_sound limit s v rest : parse_value limit s = Ok (v, rest) -> reads s v rest.
Proof.
    revert s v rest. induction limit as [|limit IH]; intros s v rest; cbn [NativeCalls.parse_value]; [done|].
    destruct (lstrip_split s) as (w & Hs & Hw & _). set (s' := text_lstrip s) in *. clearbody s'. subst s.
    unfold reads. intros H. exists w.
    assert (Hgoal : exists t, s' = t ++ rest /\ native v t); [|destruct Hgoal as (t & -> & Ht); eauto].
    destruct (starts_with STRING_DELIMITER s') eqn:Hd.
    { destruct (parse_string_sound _ _ _ Hd H) as (body & -> & -> & Hf). eexists. split; [done|by constructor]. }
    destruct (starts_with [QUOTE] s') eqn:Hq.
    { destruct (parse_quoted_sound _ _ _ Hq H) as (t & -> & Ht & Hr). exists t. split; [done|by constructor]. }
    unfold parse_container in H.
    destruct (starts_with [OPEN_BRACE] s') eqn:Ho.
    { apply starts_with_one in Ho as [u ->]. cbn [drop] in H. rewrite drop_0 in H.
      destruct (starts_with [CLOSE_BRACE] (text_lstrip u)) eqn:Hc.
      - injection H as <- <-. destruct (lstrip_mark _ _ Hc) as (w' & Hu & Hw').
        exists ([OPEN_BRACE] ++ w' ++ [CLOSE_BRACE]). split; [|by constructor].
        rewrite Hu at 1. simpl. by rewrite <- app_assoc.
      - destruct (members_sound limit IH _ _ _ _ _ H) as (ms & t & -> & Hu & Hms).
        destruct (lstrip_split u) as (w' & Hu' & Hw' & _). rewrite Hu in Hu'.
        exists ([OPEN_BRACE] ++ (w' ++ t) ++ [CLOSE_BRACE]). rewrite Hu'.
        split; [by rewrite <- !app_assoc|]. apply native_object. by apply members_blank. }
    destruct (starts_with [OPEN_BRACKET] s') eqn:Ho'.
    { apply starts_with_one in Ho' as [u ->]. cbn [drop] in H. rewrite drop_0 in H.
      destruct (starts_with [CLOSE_BRACKET] (text_lstrip u)) eqn:Hc.
      - injection H as <- <-. destruct (lstrip_mark _ _ Hc) as (w' & Hu & Hw').
        exists ([OPEN_BRACKET] ++ w' ++ [CLOSE_BRACKET]). split; [|by constructor].
        rewrite Hu at 1. simpl. by rewrite <- app_assoc.
      - destruct (elements_sound limit IH _ _ _ _ _ H) as (es & t & -> & Hu & Hes).
        destruct (lstrip_split u) as (w' & Hu' & Hw' & _). rewrite Hu in Hu'.
        exists ([OPEN_BRACKET] ++ (w' ++ t) ++ [CLOSE_BRACKET]). rewrite Hu'.
        split; [by rewrite <- !app_assoc|]. apply native_array. by apply elements_blank. }
    by apply parse_scalar_sound.
Qed.

  (** ** What is in the notation is parsed *)

Lemma parse_value_lstrip limit s : parse_value limit (text_lstrip s) = parse_value limit s.
  Proof. destruct limit; [done|]. cbn [NativeCalls.parse_value]. by rewrite lstrip_twice. Qed.

Lemma parse_value_blank limit w s : blank w -> parse_value limit (w ++ s) = parse_value limit s.
  Proof. intros Hw. by rewrite <- parse_value_lstrip, lstrip_blank, parse_value_lstrip. Qed.

Lemma parse_elements_lstrip limit fuel items s :
    parse_elements (parse_value limit) fuel items (text_lstrip s) = parse_elements (parse_value limit) fuel items s.
  Proof. destruct fuel; [done|]. cbn [parse_elements]. by rewrite parse_value_lstrip. Qed.

Lemma parse_members_lstrip limit fuel items s :
    parse_members py_str (parse_value limit) fuel items (text_lstrip s)
    = parse_members py_str (parse_value limit) fuel items s.
  Proof. destruct fuel; [done|]. cbn [parse_members]. unfold parse_key. by rewrite lstrip_twice. Qed.

Lemma parse_string_complete body rest :
    find STRING_DELIMITER (body ++ STRING_DELIMITER) = Some (length body) ->
    parse_string ((STRING_DELIMITER ++ body ++ STRING_DELIMITER) ++ rest) = Ok (JStr (str_of body), rest).
Proof.
    intros Hf%(find_more _ _ rest). unfold parse_string. rewrite <- !app_assoc in *. rewrite drop_app_length, Hf.
    rewrite take_app_length, <- drop_drop, drop_app_length.
    change (drop (length STRING_DELIMITER) (STRING_DELIMITER ++ rest)) with rest. done.
Qed.

Lemma parse_quoted_complete v t rest :
    starts_with [QUOTE] t = true -> raw_decode t = RawValue v (length t) ->
    starts_with [QUOTE] (t ++ rest) = true /\ parse_quoted raw_decode (t ++ rest) = Ok (v, rest).
Proof.
    intros Hq Hr. assert (Hq' : starts_with [QUOTE] (t ++ rest) = true) by by apply starts_with_more.
    split; [done|]. unfold parse_quoted. replace (raw_decode (t ++ rest)) with (RawValue v (length t)).
    - by rewrite drop_app_length.
    - symmetry. apply Hraw; [done|]. rewrite take_app_length, length_app. split; [|done].
      apply starts_with_one in Hq as [u ->]. simpl. lia.
Qed.

Lemma key_complete limit w k kt rest :
    blank w -> native_key k kt -> ends_here key_char rest = true ->
    parse_key py_str (parse_value (S limit)) (w ++ kt ++ rest) = Ok (k, rest).
Proof.
    intros Hw Hk Hrest. destruct (key_head _ _ Hk) as (c & t' & Hkt & Hc & _).
    unfold parse_key. rewrite Hkt. simpl app. rewrite lstrip_at_mark by done.
    change (c :: t' ++ rest) with ((c :: t') ++ rest). rewrite <- Hkt. clear Hkt c t' Hc.
    destruct Hk as [k Hk|body Hf|v t Hq Hr].
    - unfold bare_key_match in *. destruct k as [|c k]; [done|]. destruct (key_start c) eqn:Hc; [|done].
      assert (Hne : starts_with STRING_DELIMITER ((c :: k) ++ rest) = false
        /\ starts_with [QUOTE] ((c :: k) ++ rest) = false).
      { split; apply not_true_is_false; intros [u [= ->]]%starts_with_spec; done. }
      destruct Hne as [-> ->]. cbn -[span key_start]. rewrite Hc.
      destruct (span key_char k) as [a b] eqn:Hs. injection Hk as <- ->.
      by rewrite (span_more _ _ _ _ rest Hs).
    - rewrite <- app_assoc. rewrite starts_with_app. cbn [orb].
      rewrite parse_value_delimited by apply starts_with_app.
      rewrite (app_assoc STRING_DELIMITER (body ++ STRING_DELIMITER)). by rewrite parse_string_complete.
    - destruct (parse_quoted_complete v t rest Hq Hr) as [Hq' Hp]. rewrite Hq', orb_true_r.
      rewrite parse_value_quoted by done. by rewrite Hp.
Qed.

  (** After a value: whitespace and a mark, which no token swallows. *)
Lemma ends_before_mark w c s :
    blank w -> c = COMMA \/ c = CLOSE_BRACKET \/ c = CLOSE_BRACE -> ends_here number_char (w ++ c :: s) = true.
Proof.
    intros Hw Hc. destruct w as [|d w]; [by destruct Hc as [->|[->| ->]]|].
    simpl. unfold blank in Hw. simpl in Hw. apply andb_true_iff in Hw as [Hd _]. revert Hd.
    unfold text_space, number_char, digit. rewrite negb_true_iff, !orb_true_iff, !andb_true_iff, !N.eqb_eq, !N.leb_le.
    rewrite !orb_false_iff, !andb_false_iff, !N.eqb_neq, !N.leb_gt. lia.
Qed.

Lemma key_ends_before_colon w s : blank w -> ends_here key_char (w ++ COLON :: s) = true.
Proof.
    intros Hw. destruct w as [|d w]; [done|].
    simpl. unfold blank in Hw. simpl in Hw. apply andb_true_iff in Hw as [Hd _]. revert Hd.
    unfold text_space, key_char, letter, digit.
    rewrite negb_true_iff, !orb_true_iff, !andb_true_iff, !N.eqb_eq, !N.leb_le.
    rewrite !orb_false_iff, !andb_false_iff, !N.eqb_neq, !N.leb_gt. lia.
Qed.

Lemma number_not_marked t rest c :
    number_match t = Some (t, []) -> starts_with [c] (t ++ rest) = true -> c = 45 \/ digit c = true.
Proof.
    intros Hn [u Hu]%starts_with_one. destruct (number_head _ _ _ Hn) as (d & t' & -> & Hd).
    simpl in Hu. by injection Hu as -> _.
Qed.

Lemma scalar_value limit s c t :
    s = c :: t -> text_space c = false ->
    c <> 60 -> c <> QUOTE -> c <> OPEN_BRACE -> c <> OPEN_BRACKET ->
    parse_value (S limit) s = parse_scalar json_loads s.
Proof.
    intros -> Hc H1 H2 H3 H4. cbn [NativeCalls.parse_value]. rewrite lstrip_id by by (simpl; rewrite Hc).
    assert (Hno : forall d p, c <> d -> starts_with (d :: p) (c :: t) = false).
    { intros d p Hd. simpl. rewrite (proj2 (N.eqb_neq d c)) by congruence. done. }
    unfold STRING_DELIMITER. by rewrite !Hno.
Qed.

Lemma number_value limit v t rest :
    number_match t = Some (t, []) -> json_loads t = Loaded v -> ends_here number_char rest = true ->
    parse_value (S limit) (t ++ rest) = Ok (v, rest).
Proof.
    intros Hn Hl Hr. destruct (number_head _ _ _ Hn) as (c & t' & Ht & Hc).
    assert (Hcc : text_space c = false /\ c <> 60 /\ c <> QUOTE /\ c <> OPEN_BRACE /\ c <> OPEN_BRACKET).
    { destruct Hc as [->|Hd]; [done|]. revert Hd. unfold digit, text_space, QUOTE, OPEN_BRACE, OPEN_BRACKET.
      rewrite !andb_true_iff, !N.leb_le, !orb_false_iff, !andb_false_iff, !N.eqb_neq, !N.leb_gt. lia. }
    destruct Hcc as (? & ? & ? & ? & ?).
    rewrite (scalar_value limit (t ++ rest) c (t' ++ rest)) by (try done; by rewrite Ht).
    unfold parse_scalar. by rewrite (number_more _ _ Hn Hr), Hl.
Qed.

Lemma literal_value limit v l rest : (l, v) ∈ literals -> parse_value (S limit) (l ++ rest) = Ok (v, rest).
Proof.
    unfold literals. intros Hl.
    repeat (apply elem_of_cons in Hl as [[= -> ->]|Hl];
      [simpl app; erewrite scalar_value by done; unfold parse_scalar; simpl; by rewrite ?drop_0|]).
    by apply not_elem_of_nil in Hl.
Qed.

Lemma container_value limit (keyed : bool) s rest :
    parse_value (S limit) (([if keyed then OPEN_BRACE else OPEN_BRACKET] ++ s) ++ rest)
    = parse_container py_str (parse_value limit) keyed (s ++ rest).
  Proof. destruct keyed; cbn -[parse_container text_lstrip app]; rewrite lstrip_id by done; simpl; by rewrite drop_0. Qed.

Lemma elements_head es t :
    native_elements es t -> exists w c t', t = w ++ c :: t' /\ blank w /\ text_space c = false /\ c <> CLOSE_BRACKET.
Proof.
    intros H. destruct H as [v t w1 w2 H1 _ Hv|v t w1 w2 es ts H1 _ Hv _];
      destruct (native_head _ _ Hv) as (c & t' & -> & (Hc & Hb & _)%starter_spec); by eexists w1, c, _.
Qed.

Lemma members_head ms t :
    native_members ms t -> exists w c t', t = w ++ c :: t' /\ blank w /\ text_space c = false /\ c <> CLOSE_BRACE.
Proof.
    intros H. destruct H as [k kt v t w1 w2 w3 w4 H1 _ _ _ Hk _|k kt v t w1 w2 w3 w4 ms ts H1 _ _ _ Hk _ _];
      destruct (key_head _ _ Hk) as (c & t' & -> & Hc & Hb); by eexists w1, c, _.
Qed.

  (** A container's text does not look like an empty container. *)
Lemma not_closed t s c d w t' :
    t = w ++ c :: t' -> blank w -> text_space c = false -> c <> d -> starts_with [d] (text_lstrip (t ++ s)) = false.
Proof.
    intros -> Hw Hc Hd. rewrite <- app_assoc. simpl app. rewrite lstrip_at_mark by done. simpl.
    by rewrite (proj2 (N.eqb_neq d c)) by congruence.
Qed.

  (** What follows an element or a member: a comma, or the end. *)
Lemma after_comma w s : blank w -> starts_with [COMMA] (text_lstrip (w ++ COMMA :: s)) = true
    /\ drop 1 (text_lstrip (w ++ COMMA :: s)) = s.
  Proof. intros Hw. by rewrite lstrip_at_mark. Qed.

Lemma after_colon w s : blank w -> starts_with [COLON] (text_lstrip (w ++ COLON :: s)) = true
    /\ drop 1 (text_lstrip (w ++ COLON :: s)) = s.
  Proof. intros Hw. by rewrite lstrip_at_mark. Qed.

Lemma after_last w c s : blank w -> c = CLOSE_BRACKET \/ c = CLOSE_BRACE ->
    starts_with [COMMA] (text_lstrip (w ++ c :: s)) = false /\ starts_with [c] (text_lstrip (w ++ c :: s)) = true
    /\ drop 1 (text_lstrip (w ++ c :: s)) = s.
  Proof. intros Hw Hc. by destruct Hc as [-> | ->]; rewrite lstrip_at_mark. Qed.

Lemma notation_parsed :
    (forall v t, native v t -> forall limit rest, (length t < limit)%nat -> ends_here number_char rest = true ->
       parse_value limit (t ++ rest) = Ok (v, rest))
    /\ (forall es t, native_elements es t -> forall limit fuel items rest,
         (length t < limit)%nat -> (length t < fuel)%nat ->
         parse_elements (parse_value limit) fuel items (t ++ CLOSE_BRACKET :: rest) = Ok (JArr (items ++ es), rest))
    /\ (forall ms t, native_members ms t -> forall limit fuel items rest,
         (length t < limit)%nat -> (length t < fuel)%nat ->
         parse_members py_str (parse_value limit) fuel items (t ++ CLOSE_BRACE :: rest)
         = Ok (JObj (foldl (fun d m => dset m.1 m.2 d) items ms), rest)).
Proof.
    apply native_mutual_ind.
    - intros body Hf limit rest Hl _. destruct limit as [|limit]; [lia|].
      rewrite parse_value_delimited by (rewrite <- !app_assoc; apply starts_with_app). by apply parse_string_complete.
    - intros v t Hq Hr limit rest Hl _. destruct limit as [|limit]; [lia|].
      destruct (parse_quoted_complete v t rest Hq Hr) as [Hq' Hp]. by rewrite parse_value_quoted.
    - intros v t Hn Hv limit rest Hl Hr. destruct limit as [|limit]; [lia|]. by apply number_value.
    - intros v l Hin limit rest Hl _. destruct limit as [|limit]; [lia|]. by apply literal_value.
    - intros w Hw limit rest Hl _. destruct limit as [|limit]; [lia|].
      rewrite (container_value limit false). unfold parse_container. rewrite <- app_assoc. simpl app.
      by rewrite lstrip_at_mark.
    - intros es t Hes IH limit rest Hl _. destruct limit as [|limit]; [lia|].
      simpl in Hl. rewrite length_app in Hl. simpl in Hl.
      rewrite (container_value limit false). unfold parse_container. rewrite <- app_assoc. simpl app.
      destruct (elements_head _ _ Hes) as (w & c & t' & Ht & Hw & Hc & Hd).
      rewrite (not_closed _ _ _ _ _ _ Ht Hw Hc Hd), parse_elements_lstrip.
      apply (IH limit _ [] rest); [lia|]. rewrite length_app. simpl. lia.
    - intros w Hw limit rest Hl _. destruct limit as [|limit]; [lia|].
      rewrite (container_value limit true). unfold parse_container. rewrite <- app_assoc. simpl app.
      by rewrite lstrip_at_mark.
    - intros ms t Hms IH limit rest Hl _. destruct limit as [|limit]; [lia|].
      simpl in Hl. rewrite length_app in Hl. simpl in Hl.
      rewrite (container_value limit true). unfold parse_container. rewrite <- app_assoc. simpl app.
      destruct (members_head _ _ Hms) as (w & c & t' & Ht & Hw & Hc & Hd).
      rewrite (not_closed _ _ _ _ _ _ Ht Hw Hc Hd), parse_members_lstrip.
      apply (IH limit _ [] rest); [lia|]. rewrite length_app. simpl. lia.
    - intros v t w1 w2 Hw1 Hw2 _ IHv limit fuel items rest Hl Hf. rewrite !length_app in *.
      destruct fuel as [|fuel]; [lia|]. cbn [parse_elements]. rewrite <- !app_assoc.
      rewrite parse_value_blank, IHv by (auto using ends_before_mark; lia). cbn [rbind].
      destruct (after_last w2 CLOSE_BRACKET rest Hw2 ltac:(auto)) as (-> & -> & ->). done.
    - intros v t w1 w2 es ts Hw1 Hw2 _ IHv _ IHes limit fuel items rest Hl Hf. rewrite !length_app in *. simpl in *.
      destruct fuel as [|fuel]; [lia|]. cbn [parse_elements]. rewrite <- !app_assoc. simpl app.
      rewrite parse_value_blank, IHv by (auto using ends_before_mark; lia). cbn [rbind].
      destruct (after_comma w2 (ts ++ CLOSE_BRACKET :: rest) Hw2) as (-> & ->).
      rewrite parse_elements_lstrip, IHes by lia. by rewrite <- app_assoc.
    - intros k kt v t w1 w2 w3 w4 Hw1 Hw2 Hw3 Hw4 Hk _ IHv limit fuel items rest Hl Hf.
      rewrite !length_app in *. simpl in *. rewrite ?length_app in *.
      destruct fuel as [|fuel]; [lia|]. destruct limit as [|limit]; [lia|].
      cbn [parse_members]. rewrite <- !app_assoc. simpl app. rewrite <- !app_assoc.
      rewrite (key_complete limit w1 k kt) by auto using key_ends_before_colon. cbn [rbind].
      match goal with |- context [w2 ++ COLON :: ?x] => destruct (after_colon w2 x Hw2) as (-> & ->) end.
      rewrite parse_value_blank, IHv by (auto using ends_before_mark; lia). cbn [rbind].
      destruct (after_last w4 CLOSE_BRACE rest Hw4 ltac:(auto)) as (-> & -> & ->). done.
    - intros k kt v t w1 w2 w3 w4 ms ts Hw1 Hw2 Hw3 Hw4 Hk _ IHv _ IHms limit fuel items rest Hl Hf.
      rewrite !length_app in *. simpl in *. rewrite ?length_app in *. simpl in *.
      destruct fuel as [|fuel]; [lia|]. destruct limit as [|limit]; [lia|].
      cbn [parse_members]. rewrite <- !app_assoc. simpl app. rewrite <- !app_assoc. simpl app.
      rewrite (key_complete limit w1 k kt) by auto using key_ends_before_colon. cbn [rbind].
      match goal with |- context [w2 ++ COLON :: ?x] => destruct (after_colon w2 x Hw2) as (-> & ->) end.
      rewrite parse_value_blank, IHv by (auto using ends_before_mark; lia). cbn [rbind].
      destruct (after_comma w4 (ts ++ CLOSE_BRACE :: rest) Hw4) as (-> & ->).
      rewrite parse_members_lstrip, IHms by lia. done.
Qed.
  (** ** What is not parsed raises a [ValueError] *)

Lemma shrinks limit s v rest : parse_value limit s = Ok (v, rest) -> (length rest < length s)%nat.
Proof.
    intros (w & t & -> & _ & Ht)%parse_value_sound. destruct (native_head _ _ Ht) as (c & t' & -> & _).
    rewrite !length_app. simpl. lia.
Qed.

Lemma key_shrinks limit s k rest :
    parse_key py_str (parse_value limit) s = Ok (k, rest) -> (length rest < length s)%nat.
Proof.
    intros H. destruct (key_sound limit s k rest (parse_value_sound limit) H) as (w & kt & -> & _ & Hk).
    destruct (key_head _ _ Hk) as (c & t' & -> & _). rewrite !length_app. simpl. lia.
Qed.

  (** After an item, a comma and whitespace, the text is shorter. *)
Lemma next_shorter r : (length (text_lstrip (drop 1 (text_lstrip r))) <= length r)%nat.
Proof.
    pose proof (length_lstrip (drop 1 (text_lstrip r))). pose proof (length_lstrip r).
    rewrite length_drop in *. lia.
Qed.

Lemma scalar_errors s e : parse_scalar json_loads s = Err e -> value_error e = true.
Proof.
    unfold parse_scalar. destruct (number_match s) as [[t r]|] eqn:Hn.
    - specialize (Hnum s t r Hn). destruct (json_loads t) as [v'| |[]]; naive_solver.
    - destruct (literal_match literals s); naive_solver.
Qed.

Lemma string_errors s e : parse_string s = Err e \/ parse_quoted raw_decode s = Err e -> value_error e = true.
Proof.
    unfold parse_string, parse_quoted.
    intros [H|H]; [destruct (find _ _)|destruct (raw_decode s)]; naive_solver.
Qed.

  (** What the calls one level down promise on texts shorter than [n]. *)
Definition errors_below (limit n : nat) : Prop :=
    forall s e, (length s < n)%nat -> parse_value limit s = Err e -> value_error e = true.

Lemma key_errors limit n s e :
    errors_below limit n -> (length s < n)%nat ->
    parse_key py_str (parse_value limit) s = Err e -> value_error e = true.
Proof.
    intros Hv Hl. unfold parse_key. pose proof (length_lstrip s).
    destruct (_ || _).
    - destruct (parse_value limit (text_lstrip s)) as [[v r]|e'] eqn:Hp; [done|]. intros [= <-].
      apply (Hv (text_lstrip s)); [lia|done].
    - destruct (bare_key_match _) as [[]|]; naive_solver.
Qed.

Lemma elements_errors limit n : errors_below limit n -> forall fuel items s e,
    (length s < n)%nat -> (length s < fuel)%nat ->
    parse_elements (parse_value limit) fuel items s = Err e -> value_error e = true.
Proof.
    intros Hv. induction fuel as [|fuel IH]; intros items s e Hn Hf; [lia|]. cbn [parse_elements].
    destruct (parse_value limit s) as [[x r]|e'] eqn:Hx; cbn [rbind]; [|intros [= <-]; by apply (Hv _ _ Hn Hx)].
    pose proof (shrinks _ _ _ _ Hx). pose proof (next_shorter r).
    destruct (starts_with [COMMA] (text_lstrip r)); [apply IH; lia|].
    destruct (starts_with [CLOSE_BRACKET] (text_lstrip r)); naive_solver.
Qed.

Lemma members_errors limit n : errors_below limit n -> forall fuel items s e,
    (length s < n)%nat -> (length s < fuel)%nat ->
    parse_members py_str (parse_value limit) fuel items s = Err e -> value_error e = true.
Proof.
    intros Hv. induction fuel as [|fuel IH]; intros items s e Hn Hf; [lia|]. cbn [parse_members].
    destruct (parse_key py_str (parse_value limit) s) as [[k r0]|e'] eqn:Hk; cbn [rbind];
      [|intros [= <-]; by apply (key_errors limit n s)].
    pose proof (key_shrinks _ _ _ _ Hk). pose proof (length_lstrip r0).
    destruct (starts_with [COLON] (text_lstrip r0)); [|naive_solver].
    assert (length (drop 1 (text_lstrip r0)) <= length r0)%nat by (rewrite length_drop; lia).
    destruct (parse_value limit (drop 1 (text_lstrip r0))) as [[x r]|e'] eqn:Hx; cbn [rbind];
      [|intros [= <-]; apply (Hv (drop 1 (text_lstrip r0))); [lia|done]].
    pose proof (shrinks _ _ _ _ Hx). pose proof (next_shorter r).
    destruct (starts_with [COMMA] (text_lstrip r)); [apply IH; lia|].
    destruct (starts_with [CLOSE_BRACE] (text_lstrip r)); naive_solver.
Qed.

Lemma container_errors limit keyed s e :
    errors_below limit (S (length s)) ->
    parse_container py_str (parse_value limit) keyed s = Err e -> value_error e = true.
Proof.
    intros Hv. unfold parse_container. pose proof (length_lstrip s).
    destruct keyed; destruct (starts_with _ _); try done; intros He;
      [apply (members_errors _ _ Hv _ _ _ _) in He|apply (elements_errors _ _ Hv _ _ _ _) in He]; done || lia.
Qed.

Lemma parse_value_errors limit : errors_below limit limit.
Proof.
    induction limit as [|limit IH]; intros s e Hl; [lia|]. cbn [NativeCalls.parse_value].
    pose proof (length_lstrip s) as Hs. set (s' := text_lstrip s) in *. clearbody s'.
    destruct (starts_with STRING_DELIMITER s'); [by intros; eapply string_errors; left|].
    destruct (starts_with [QUOTE] s'); [by intros; eapply string_errors; right|].
    assert (Hd : forall c, starts_with [c] s' = true -> errors_below limit (S (length (drop 1 s')))).
    { intros c [u ->]%starts_with_one t e' Ht. simpl in *. rewrite drop_0 in Ht. apply IH. lia. }
    destruct (starts_with [OPEN_BRACE] s') eqn:Ho; [by apply container_errors, (Hd OPEN_BRACE)|].
    destruct (starts_with [OPEN_BRACKET] s') eqn:Ho'; [by apply container_errors, (Hd OPEN_BRACKET)|].
    apply scalar_errors.
Qed.
End correctness.

(** ** The parser decides the notation *)

Lemma blank_ends w : blank w -> ends_here number_char w = true.
Proof.
  unfold blank, ends_here. destruct w as [|c w]; [done|]. simpl. intros [Hc _]%andb_true_iff. revert Hc.
  unfold text_space, number_char, digit. rewrite negb_true_iff, !orb_true_iff, !andb_true_iff, !N.eqb_eq, !N.leb_le.
  rewrite !orb_false_iff, !andb_false_iff, !N.eqb_neq, !N.leb_gt. lia.
Qed.

Lemma blank_lstrip w : text_lstrip w = [] <-> blank w.
Proof.
  split.
  - intros H. destruct (lstrip_split w) as (w' & Hw & Hb & _). rewrite H, app_nil_r in Hw. by subst.
  - intros H. rewrite <- (app_nil_r w). by rewrite lstrip_blank.
Qed.

(** A text that denotes a value is parsed to it. *)
Lemma native_text_parsed json_loads raw_decode py_str limit v text :
  decodes_literals raw_decode -> (length text < limit)%nat ->
  native_text json_loads raw_decode py_str v text ->
  parse_native_arguments json_loads raw_decode py_str limit text = Ok v.
Proof.
  intros Hraw Hl (w1 & t & w2 & -> & Hw1 & Hw2 & Ht). unfold parse_native_arguments.
  rewrite !length_app in Hl. rewrite parse_value_blank by done.
  rewrite (proj1 (notation_parsed _ _ _ Hraw) _ _ Ht) by (lia || by apply blank_ends). cbn [rbind].
  by rewrite (proj2 (blank_lstrip w2)).
Qed.

(** C35. The parser of native call arguments decides the notation: within Python's
    recursion limit it returns a value exactly for the texts that denote it in the
    grammar (so no text denotes two), never loops, and on every other text raises a
    [ValueError], the one exception its caller turns into an issue. *)
Theorem native_arguments_exact json_loads raw_decode py_str limit text :
  decodes_literals raw_decode -> loads_numbers json_loads -> (length text < limit)%nat ->
  (forall v, parse_native_arguments json_loads raw_decode py_str limit text = Ok v
     <-> native_text json_loads raw_decode py_str v text)
  /\ (forall e, parse_native_arguments json_loads raw_decode py_str limit text = Err e -> value_error e = true).
Proof.
  intros Hraw Hnum Hl. split; [intros v; split; [|by apply native_text_parsed]|]; unfold parse_native_arguments.
  - destruct (parse_value _ _ _ _ text) as [[v' rest]|] eqn:Hp; [|done]. cbn [rbind].
    destruct (text_lstrip rest) eqn:Hr; [|done]. intros [= ->].
    apply parse_value_sound in Hp as (w & t & -> & Hw & Ht); [|done]. apply blank_lstrip in Hr. by exists w, t, rest.
  - intros e. destruct (parse_value _ _ _ _ text) as [[v' rest]|e'] eqn:Hp; cbn [rbind].
    + destruct (text_lstrip rest); naive_solver.
    + intros [= <-]. by apply (parse_value_errors json_loads raw_decode py_str Hraw Hnum limit text).
Qed.

(** ** An instance *)

(** Decoders of plain literals: digits, and quotes around a text without escapes. *)
Definition digits_value (s : pystr) : Z := foldl (fun n c => 10 * n + (Z.of_N c - 48))%Z 0%Z s.
Definition plain_loads (s : pystr) : load_outcome :=
  if forallb digit s then Loaded (JInt (digits_value s)) else NotJson "Expecting value" 1 1.
Definition plain_decode (s : pystr) : raw_outcome :=
  match find [QUOTE] (drop 1 s) with
  | Some i => RawValue (JStr (str_of (take i (drop 1 s)))) (i + 2)
  | None => RawError "Unterminated string starting at"
  end.
Definition plain_str (v : json) : string := match v with JStr s => s | _ => "" end.

Lemma plain_decodes : decodes_literals plain_decode.
Proof.
  intros s v n [t ->]%starts_with_one. unfold plain_decode. cbn [drop]. rewrite drop_0. split.
  - destruct (find [QUOTE] t) as [i|] eqn:Hf; [|done]. intros [= <- <-].
    destruct (find_Some _ _ _ Hf) as (u & w & -> & <-).
    split; [cbn [length]; rewrite length_app; cbn; lia|].
    assert (Ht : take (length u + 2) (QUOTE :: u ++ [QUOTE] ++ w) = QUOTE :: u ++ [QUOTE]).
    { replace (length u + 2)%nat with (S (length (u ++ [QUOTE]))) by (rewrite length_app; cbn; lia).
      cbn [take]. by rewrite (app_assoc u), take_app_length. }
    rewrite Ht. cbn [drop]. rewrite drop_0, (find_up_to [QUOTE] u w Hf). by rewrite !take_app_length.
  - intros [[Hn0 Hn] Hf]. destruct n as [|n]; [lia|]. cbn [take drop] in Hf. rewrite drop_0 in Hf.
    destruct (find [QUOTE] (take n t)) as [i|] eqn:Hi; [|done]. injection Hf as <- Hn'.
    pose proof (find_at _ _ _ Hi) as [_ Hle]. rewrite length_take in Hle. cbn in Hle.
    apply (find_more _ _ (drop n t)) in Hi. rewrite take_drop in Hi. rewrite Hi.
    rewrite take_take. f_equal; [|lia]. by rewrite Nat.min_l by lia.
Qed.

Lemma plain_numbers : loads_numbers plain_loads.
Proof. intros s t rest _. unfold plain_loads. by destruct (forallb digit t). Qed.

Definition native_sample : pystr :=
  pystr_of "{city: <|" ++ [QUOTE] ++ pystr_of "|>Paris<|" ++ [QUOTE] ++ pystr_of "|>, days: [1, 20] ,"
  ++ [QUOTE] ++ pystr_of "x" ++ [QUOTE] ++ pystr_of ":true} ".

Lemma native_arguments_exact_witness :
  exists v, parse_native_arguments plain_loads plain_decode plain_str 100 native_sample = Ok v
    /\ native_text plain_loads plain_decode plain_str v native_sample
    /\ v = JObj [("city", JStr "Paris"); ("days", JArr [JInt 1; JInt 20]); ("x", JBool true)].
Proof.
  eexists. split; [by vm_compute|]. split; [|done].
  destruct (native_arguments_exact plain_loads plain_decode plain_str 100 native_sample) as [H _];
    [apply plain_decodes|apply plain_numbers|vm_compute; lia|]. apply H. by vm_compute.
Defined.

(** Text after the value, a missing colon, and brackets nested past the limit. *)
Example native_errors :
  map (parse_native_arguments plain_loads plain_decode plain_str 4)
    [pystr_of "{} x"; pystr_of "{a 1}"; pystr_of "["; pystr_of "[[[[[]]]]]"]
  = [Err (TrailingText (pystr_of "x")); Err (ExpectedColon "a" (pystr_of "1}")); Err (UnexpectedValue []);
     Err RecursionError].
Proof. by vm_compute. Qed.
