(* ===== verification/ToolCalls.v ===== *)
(** Tool calls: src/src/lewlm/tool_calls.py and src/src/lewlm/tool_call_contract.py,
    the extraction of calls from model output and the shape both halves agree on.

    Output is text as code points.  The two regular expressions are matchers that
    do what a backtracking engine does with them: every part of them but the lazy
    one is followed by a character it cannot take.  [finditer] is [find_iter].

    [json.loads], [json.dumps] and [raw_decode] are parameters, like the recursion
    limit of NativeCalls.  An exception that [parse_tool_calls] lets through is an
    [Err]. *)

From stdpp Require Import pretty.
From S2P Require Import Prelude PyFloat PyString PyBytes PyText Json StructuredOutput NativeCalls.

(** ** The contract *)

Definition TOOL_CALL_SINGLE_KEY : string := "tool_call".
Definition TOOL_CALL_BATCH_KEY : string := "tool_calls".
Definition TOOL_CALL_NAME_KEY : string := "name".
Definition ARGUMENTS_KEY : string := "arguments".
Definition ARGUMENT_KEYS : list string := [ARGUMENTS_KEY; "input"].
Definition TOOL_CALL_MARKER_KEYS : list string :=
  [TOOL_CALL_SINGLE_KEY; TOOL_CALL_BATCH_KEY; TOOL_CALL_NAME_KEY].

Definition ticked (s : string) : string := "`" +:+ s +:+ "`".
Definition quoted (s : string) : string :=
  String (Ascii.ascii_of_N QUOTE) s +:+ String (Ascii.ascii_of_N QUOTE) EmptyString.

Definition UNRECOGNIZED_SHAPE_MESSAGE : string :=
  "Candidate JSON must be an object with a " +:+ ticked TOOL_CALL_SINGLE_KEY +:+ ", "
  +:+ ticked TOOL_CALL_BATCH_KEY +:+ ", or " +:+ ticked TOOL_CALL_NAME_KEY +:+ " shape.".

Definition tool_call_example (tool_name : string) : string :=
  "{" +:+ quoted TOOL_CALL_NAME_KEY +:+ ": " +:+ quoted tool_name +:+ ", "
  +:+ quoted ARGUMENTS_KEY +:+ ": {...}}".

Definition tool_call_invocation_instructions : string :=
  let call_shape := tool_call_example "<tool name>" in
  String.concat (String (Ascii.ascii_of_nat 10) EmptyString)
    ["To call a tool, reply with a JSON object in one of these shapes and nothing else:";
     "  " +:+ call_shape;
     "  {" +:+ quoted TOOL_CALL_SINGLE_KEY +:+ ": " +:+ call_shape +:+ "}";
     "  {" +:+ quoted TOOL_CALL_BATCH_KEY +:+ ": [" +:+ call_shape
       +:+ "]}  (one entry per call, to request several at once)";
     "The " +:+ ticked TOOL_CALL_NAME_KEY +:+ " field is required and must match a declared tool exactly. "
       +:+ "A reply containing only arguments is not a tool call and will not be executed.";
     ticked ARGUMENTS_KEY +:+ " must be a JSON object satisfying that tool's input_schema "
       +:+ "(" +:+ ticked "input" +:+ " is accepted as an alias).";
     "Emit the object on its own or inside a ```json fenced block.";
     "If no tool applies, answer normally and do not emit a tool-call object."].

(** ** Data *)

(** [PromptToolDefinition]. *)
Record tool_definition := {
  t_name : string;
  t_description : option string;
  t_input_schema : list (string * json)
}.

Record parsed_tool_call := { call_id : string; call_name : string; call_arguments : list (string * json) }.

Inductive issue_code :=
| Invalid_json | Unrecognized_shape | Missing_name | Unknown_tool | Arguments_not_object | Schema_violation.

(** Why a candidate could not be decoded; both are rendered into the message. *)
Inductive decode_error :=
| NotValidJson (message : string) (line column : Z)
| UnparseableArguments (name : string) (e : native_error).

(** Messages are lists of parts, as in StructuredOutput. *)
Inductive issue_message := DecodeMessage (e : decode_error) | PartsMessage (parts : list msg_part).

Record parse_issue := { is_code : issue_code; is_message : issue_message; is_candidate_index : nat }.

Inductive parse_status := No_tool_calls | Parsed | Partial | Failed.

Record parse_result := {
  status : parse_status;
  tool_calls : list parsed_tool_call;
  issues : list parse_issue;
  remaining_text : pystr;
  parallel : bool
}.

(** The exceptions that [parse_tool_calls] does not turn into issues. *)
Inductive call_error :=
| NativeRaised (e : native_error)
| LoadsRaised (is_value_error : bool)
| ValidatorRaised (e : py_error).

(** ** Regular expressions *)

Section find_iter.
Context {A : Type}.
  (** A match at the start of a text: its groups, and how many characters it takes. *)
Context (match_at : pystr -> option (A * nat)).

  (** The matches from position [pos] on, with their spans; the first [skip]
      characters belong to the match before. *)
Fixpoint find_iter (pos skip : nat) (s : pystr) : list (A * (nat * nat)) :=
    match s with
    | [] => []
    | c :: s' =>
        match skip with
        | S skip' => find_iter (S pos) skip' s'
        | O =>
            match match_at s with
            | Some (a, n) => (a, (pos, (pos + n)%nat)) :: find_iter (S pos) (n - 1) s'
            | None => find_iter (S pos) 0 s'
            end
        end
    end.
End find_iter.

Definition FENCE : pystr := Eval vm_compute in pystr_of "```".

Definition language_char (c : N) : bool := letter c || digit c || (c =? 95)%N || (c =? 45)%N.
Definition blank_char (c : N) : bool := (c =? 32)%N || (c =? 9)%N.

Definition newline_match (s : pystr) : option pystr :=
  match s with
  | 10%N :: t => Some t
  | 13%N :: 10%N :: t => Some t
  | _ => None
  end.

(** [_JSON_FENCE_PATTERN]: language and body. *)
Definition fence_match (s : pystr) : option ((pystr * pystr) * nat) :=
  if starts_with FENCE s then
    let '(language, s1) := span language_char (drop (length FENCE) s) in
    let '(_, s2) := span blank_char s1 in
    match newline_match s2 with
    | None => None
    | Some t =>
        match find FENCE t with
        | None => None
        | Some i => Some ((language, take i t), length s - length (drop (i + length FENCE) t))%nat
        end
    end
  else None.

Definition NATIVE_OPEN : pystr := Eval vm_compute in pystr_of "<|tool_call>".
Definition NATIVE_CLOSE : pystr := Eval vm_compute in pystr_of "<tool_call|>".
Definition CALL : pystr := Eval vm_compute in pystr_of "call:".

Definition name_char (c : N) : bool := negb (text_space c || (c =? OPEN_BRACE)%N || (c =? 60)%N).

(** [.*?\}], and the end of the call: the text up to the first brace that the
    closing mark follows, whitespace between them allowed. *)
Fixpoint arguments_match (s : pystr) : option (pystr * pystr) :=
  match s with
  | [] => None
  | c :: s' =>
      if (c =? CLOSE_BRACE)%N && starts_with NATIVE_CLOSE (text_lstrip s') then
        Some ([c], drop (length NATIVE_CLOSE) (text_lstrip s'))
      else
        match arguments_match s' with
        | Some (body, rest) => Some (c :: body, rest)
        | None => None
        end
  end.

(** [_GEMMA_NATIVE_CALL_PATTERN]: name and arguments. *)
Definition native_match (s : pystr) : option ((pystr * pystr) * nat) :=
  if starts_with NATIVE_OPEN s then
    let s1 := text_lstrip (drop (length NATIVE_OPEN) s) in
    if starts_with CALL s1 then
      let '(name, s2) := span name_char (drop (length CALL) s1) in
      let s3 := text_lstrip s2 in
      if nonempty name && starts_with [OPEN_BRACE] s3 then
        match arguments_match (drop 1 s3) with
        | Some (body, rest) => Some ((name, OPEN_BRACE :: body), length s - length rest)%nat
        | None => None
        end
      else None
    else None
  else None.

(** ** Spans *)

Definition span_leb (a b : nat * nat) : bool :=
  (a.1 <? b.1)%nat || ((a.1 =? b.1)%nat && (a.2 <=? b.2)%nat).

Fixpoint insert_span (a : nat * nat) (l : list (nat * nat)) : list (nat * nat) :=
  match l with
  | [] => [a]
  | b :: l' => if span_leb a b then a :: l else b :: insert_span a l'
  end.

(** [text[i:j]]. *)
Definition slice (text : pystr) (i j : nat) : pystr := take (j - i) (drop i text).

Fixpoint pieces (text : pystr) (cursor : nat) (spans : list (nat * nat)) : list pystr :=
  match spans with
  | [] => [drop cursor text]
  | (start, end_) :: spans' => slice text cursor start :: pieces text end_ spans'
  end.

Definition remove_spans (text : pystr) (spans : list (nat * nat)) : pystr :=
  match spans with
  | [] => text
  | _ => concat (pieces text 0 (foldr insert_span [] spans))
  end.

(** ** Candidates *)

(** [f'"{marker}"' in text]. *)
Definition mentions_marker (text : pystr) (marker : string) : bool :=
  match find (pystr_of (quoted marker)) text with Some _ => true | None => false end.

Definition looks_like_tool_call_json (text : pystr) : bool :=
  starts_with [OPEN_BRACE] text && ends_with [CLOSE_BRACE] text
  && existsb (mentions_marker text) TOOL_CALL_MARKER_KEYS.

(** [casefold] of a language: it is ASCII. *)
Definition fold_char (c : N) : N := if ((65 <=? c) && (c <=? 90))%N then (c + 32)%N else c.

(** The loop of [_extract_candidates]: bodies of fences, with the spans consumed. *)
Fixpoint json_fences (matches : list ((pystr * pystr) * (nat * nat))) : list (pystr * (nat * nat)) :=
  match matches with
  | [] => []
  | ((language, body), sp) :: matches' =>
      let language := map fold_char language in
      let body := text_strip body in
      let is_json := bool_decide (language = pystr_of "json") in
      if nonempty language && negb is_json then json_fences matches'
      else if negb is_json && negb (looks_like_tool_call_json body) then json_fences matches'
      else (body, sp) :: json_fences matches'
  end.

Definition extract_candidates (output_text : pystr) : list pystr * pystr :=
  let found := json_fences (find_iter fence_match 0 0 output_text) in
  let remaining := text_strip (remove_spans output_text (map snd found)) in
  let stripped := text_strip output_text in
  match found with
  | [] => if looks_like_tool_call_json stripped then ([stripped], []) else ([], remaining)
  | _ => (map fst found, remaining)
  end.

(** ** Shapes *)

Definition is_object (v : json) : bool := match v with JObj _ => true | _ => false end.

(** [_normalize_candidate_shape]: the call objects, or the shape issue. *)
Definition normalize_candidate_shape (payload : json) : list (list (string * json)) + string :=
  match payload with
  | JObj members =>
      match dget TOOL_CALL_BATCH_KEY members with
      | Some (JArr (call :: calls)) =>
          if existsb (fun item => negb (is_object item)) (call :: calls) then
            inr (ticked TOOL_CALL_BATCH_KEY +:+ " entries must all be objects.")
          else inl (omap (fun item => match item with JObj c => Some c | _ => None end) (call :: calls))
      | Some _ => inr (ticked TOOL_CALL_BATCH_KEY +:+ " must be a non-empty array of tool-call objects.")
      | None =>
          match dget TOOL_CALL_SINGLE_KEY members with
          | Some (JObj call) => inl [call]
          | Some _ => inr (ticked TOOL_CALL_SINGLE_KEY +:+ " must be an object.")
          | None =>
              if dmem TOOL_CALL_NAME_KEY members then inl [members] else inr UNRECOGNIZED_SHAPE_MESSAGE
          end
      end
  | _ => inr UNRECOGNIZED_SHAPE_MESSAGE
  end.

(** [{tool.name: tool for tool in tools}]. *)
Definition tool_index (tools : list tool_definition) : list (string * tool_definition) :=
  foldl (fun d t => dset (t_name t) t d) [] tools.

Fixpoint insert_name (a : string) (l : list string) : list string :=
  match l with
  | [] => [a]
  | b :: l' => if String.leb a b then a :: l else b :: insert_name a l'
  end.

Definition declared_names (index : list (string * tool_definition)) : string :=
  let names := String.concat ", " (foldr insert_name [] (dkeys index)) in
  if (names =? "")%string then "none" else names.

(** The first of the keys that is there; [{}] if none is. *)
Fixpoint first_argument (keys : list string) (payload : list (string * json)) : json :=
  match keys with
  | [] => JObj []
  | k :: keys' => match dget k payload with Some v => v | None => first_argument keys' payload end
  end.

(** The identifier the model gave, or the number of the call. *)
Definition call_identifier (payload : list (string * json)) (call_number : nat) : string :=
  let numbered := "call_" +:+ pretty (Z.of_nat call_number) in
  match dget "id" payload with
  | Some (JStr id) => if (id =? "")%string then numbered else id
  | _ => numbered
  end.

(** [str(part)]. *)
Definition str_of_segment (s : segment) : string :=
  match s with Key k => k | Index i => pretty (Z.of_nat i) end.

Definition describe_schema_issue (i : StructuredOutput.issue) : list msg_part :=
  let path := String.concat "/" (map str_of_segment (path_of i)) in
  Text ((if (path =? "")%string then "<root>" else path) +:+ ": ") :: message i.

Section parser.
Context (re_compile : string -> option (string -> bool)).
Context (json_loads : pystr -> load_outcome).
Context (raw_decode : pystr -> raw_outcome).
Context (py_str : json -> string).
  (** The nested calls Python's recursion limit leaves to the native parser. *)
Context (limit : nat).

Definition decoded : Type := json + decode_error.

Definition decode_json_candidate (text : pystr) : result call_error decoded :=
    match json_loads text with
    | Loaded v => Ok (inl v)
    | NotJson message line column => Ok (inr (NotValidJson message line column))
    | LoadRaised is_value_error => Err (LoadsRaised is_value_error)
    end.

  (** The loop of [_extract_gemma_native_candidates]. *)
Fixpoint decode_native (matches : list ((pystr * pystr) * (nat * nat))) : result call_error (list decoded) :=
    match matches with
    | [] => Ok []
    | ((name, arguments), _) :: matches' =>
        let? d :=
          match parse_native_arguments json_loads raw_decode py_str limit arguments with
          | Ok v => Ok (inl (JObj [(TOOL_CALL_NAME_KEY, JStr (str_of name)); (ARGUMENTS_KEY, v)]))
          | Err e => if value_error e then Ok (inr (UnparseableArguments (str_of name) e)) else Err (NativeRaised e)
          end in
        let? ds := decode_native matches' in
        Ok (d :: ds)
    end.

Definition extract_native_candidates (output_text : pystr) : result call_error (list decoded * pystr) :=
    let matches := find_iter native_match 0 0 output_text in
    let? candidates := decode_native matches in
    Ok (candidates, remove_spans output_text (map snd matches)).

Fixpoint decode_all (texts : list pystr) : result call_error (list decoded) :=
    match texts with
    | [] => Ok []
    | text :: texts' =>
        let? d := decode_json_candidate text in
        let? ds := decode_all texts' in
        Ok (d :: ds)
    end.

Definition call_issue (code : issue_code) (parts : list msg_part) (candidate_index : nat) : parse_issue :=
    {| is_code := code; is_message := PartsMessage parts; is_candidate_index := candidate_index |}.

Definition validate_call_payload (payload : list (string * json))
      (index : list (string * tool_definition)) (candidate_index call_number : nat)
      : result call_error (parsed_tool_call + parse_issue) :=
    match dget TOOL_CALL_NAME_KEY payload with
    | Some (JStr name) =>
        if (strip name =? "")%string then
          Ok (inr (call_issue Missing_name
            [Text ("Tool call is missing a non-empty string " +:+ ticked TOOL_CALL_NAME_KEY +:+ ".")] candidate_index))
        else
          match dget name index with
          | None =>
              Ok (inr (call_issue Unknown_tool
                [Text ("Tool " +:+ ticked name +:+ " is not declared for this request (declared tools: "
                   +:+ declared_names index +:+ ").")] candidate_index))
          | Some tool =>
              match first_argument ARGUMENT_KEYS payload with
              | JObj arguments =>
                  let? schema_issues :=
                    match t_input_schema tool with
                    | [] => Ok []
                    | schema =>
                        match validate_value_against_json_schema re_compile (JObj schema) (JObj arguments) with
                        | Ok l => Ok l
                        | Err e => Err (ValidatorRaised e)
                        end
                    end in
                  match schema_issues with
                  | [] =>
                      Ok (inl {| call_id := call_identifier payload call_number;
                                 call_name := name; call_arguments := arguments |})
                  | _ =>
                      Ok (inr (call_issue Schema_violation
                        (Text ("Tool " +:+ ticked name +:+ " arguments failed input-schema validation: ")
                          :: join_messages "; " (map describe_schema_issue schema_issues)) candidate_index))
                  end
              | _ =>
                  Ok (inr (call_issue Arguments_not_object
                    [Text ("Tool " +:+ ticked name +:+ " arguments must be a JSON object.")] candidate_index))
              end
          end
    | _ =>
        Ok (inr (call_issue Missing_name
          [Text ("Tool call is missing a non-empty string " +:+ ticked TOOL_CALL_NAME_KEY +:+ ".")] candidate_index))
    end.

  (** What the loops of [parse_tool_calls] have collected: calls and issues. *)
Definition collected : Type := list parsed_tool_call * list parse_issue.

Fixpoint validate_calls (index : list (string * tool_definition)) (candidate_index : nat)
      (payloads : list (list (string * json))) (acc : collected) : result call_error collected :=
    match payloads with
    | [] => Ok acc
    | payload :: payloads' =>
        let? outcome := validate_call_payload payload index candidate_index (S (length acc.1)) in
        validate_calls index candidate_index payloads'
          (match outcome with
           | inl call => (acc.1 ++ [call], acc.2)
           | inr i => (acc.1, acc.2 ++ [i])
           end)
    end.

Fixpoint parse_candidates (index : list (string * tool_definition)) (candidate_index : nat)
      (candidates : list decoded) (acc : collected) : result call_error collected :=
    match candidates with
    | [] => Ok acc
    | candidate :: candidates' =>
        let? acc :=
          match candidate with
          | inr e =>
              Ok (acc.1, acc.2 ++ [ {| is_code := Invalid_json; is_message := DecodeMessage e;
                                      is_candidate_index := candidate_index |} ])
          | inl payload =>
              match normalize_candidate_shape payload with
              | inr m => Ok (acc.1, acc.2 ++ [call_issue Unrecognized_shape [Text m] candidate_index])
              | inl payloads => validate_calls index candidate_index payloads acc
              end
          end in
        parse_candidates index (S candidate_index) candidates' acc
    end.

  (** The result for the decoded candidates. *)
Definition result_of (tools : list tool_definition) (output_text remaining : pystr) (candidates : list decoded)
      : result call_error parse_result :=
    match candidates with
    | [] =>
        Ok {| status := No_tool_calls; tool_calls := []; issues := []; remaining_text := output_text;
              parallel := false |}
    | _ =>
        let? acc := parse_candidates (tool_index tools) 0 candidates ([], []) in
        let '(calls, found) := acc in
        Ok {| status := if nonempty calls then if nonempty found then Partial else Parsed else Failed;
              tool_calls := calls; issues := found; remaining_text := remaining;
              parallel := (1 <? length calls)%nat |}
    end.

Definition parse_tool_calls (output_text : pystr) (tools : list tool_definition) : result call_error parse_result :=
    let? native := extract_native_candidates output_text in
    let '(native_candidates, text_without_native) := native in
    let '(json_candidates, remaining) := extract_candidates text_without_native in
    let? json_decoded := decode_all json_candidates in
    result_of tools output_text remaining (native_candidates ++ json_decoded).
End parser.

(** ** Calls of earlier turns *)

Inductive contract_error := AttributeError | DecodeRaised (is_value_error : bool).

Section contract.
Context (json_loads : pystr -> load_outcome).
  (** [json.dumps] with the separators of the contract. *)
Context (json_dumps : json -> pystr).

Definition decoded_arguments (arguments : json) : result contract_error json :=
    match arguments with
    | JStr s =>
        match json_loads (pystr_of s) with
        | Loaded v => Ok v
        | NotJson _ _ _ => Ok arguments
        | LoadRaised is_value_error => Err (DecodeRaised is_value_error)
        end
    | _ => Ok arguments
    end.

  (** [call.get(key)], with [None] for a missing one. *)
Definition get_or_none (key : string) (d : list (string * json)) : json := default JNull (dget key d).

  (** [call.get("function") or {}], on which [.get] is called. *)
Definition function_of (call : list (string * json)) : result contract_error (list (string * json)) :=
    let function := get_or_none "function" call in
    if json_truthy function then
      match function with JObj f => Ok f | _ => Err AttributeError end
    else Ok [].

Definition rendered_call (call : list (string * json)) : result contract_error json :=
    let? function := function_of call in
    let? arguments := decoded_arguments (default (JStr "{}") (dget "arguments" function)) in
    Ok (JObj [("id", get_or_none "id" call); (TOOL_CALL_NAME_KEY, get_or_none "name" function);
              (ARGUMENTS_KEY, arguments)]).

Definition structured_call (call : list (string * json)) : result contract_error json :=
    let? function := function_of call in
    let? arguments := decoded_arguments (default (JStr "{}") (dget "arguments" function)) in
    let type := get_or_none "type" call in
    Ok (JObj [("id", get_or_none "id" call); ("type", if json_truthy type then type else JStr "function");
              ("function", JObj [("name", get_or_none "name" function); ("arguments", arguments)])]).

Fixpoint map_calls (f : list (string * json) -> result contract_error json) (calls : list (list (string * json)))
      : result contract_error (list json) :=
    match calls with
    | [] => Ok []
    | call :: calls' =>
        let? v := f call in
        let? vs := map_calls f calls' in
        Ok (v :: vs)
    end.

Definition render_prior_tool_calls (calls : list (list (string * json))) : result contract_error pystr :=
    let? rendered := map_calls rendered_call calls in
    Ok (json_dumps (JObj [(TOOL_CALL_BATCH_KEY, JArr rendered)])).

Definition template_tool_calls (calls : list (list (string * json))) : result contract_error (list json) :=
    map_calls structured_call calls.
End contract.

(** ** Matches and what is outside them *)

Section find_iter_lemmas.
Context {A : Type} (match_at : pystr -> option (A * nat)).

  (** A match takes at least one character, and no more than there are. *)
Definition matches_characters : Prop :=
    forall s a n, match_at s = Some (a, n) -> (0 < n <= length s)%nat.

Lemma find_iter_skip pos skip s :
    find_iter match_at pos skip s = find_iter match_at (pos + skip) 0 (drop skip s).
Proof.
    revert pos skip. induction s as [|c s IH]; intros pos skip; [by rewrite drop_nil|].
    destruct skip as [|skip]; [by rewrite Nat.add_0_r, drop_0|].
    simpl. rewrite IH. by replace (S pos + skip)%nat with (pos + S skip)%nat by lia.
Qed.

Lemma find_iter_match pos s a n :
    matches_characters -> match_at s = Some (a, n) ->
    find_iter match_at pos 0 s = (a, (pos, (pos + n)%nat)) :: find_iter match_at (pos + n) 0 (drop n s).
Proof.
    intros Hm Hs. pose proof (Hm _ _ _ Hs) as Hn. destruct s as [|c s]; [simpl in Hn; lia|].
    cbn [find_iter]. rewrite Hs, find_iter_skip. f_equal. destruct n as [|n]; [lia|].
    simpl. by rewrite Nat.sub_0_r, Nat.add_succ_r.
Qed.

  (** Nothing matches in the first part. *)
Lemma find_iter_plain pos p s :
    (forall i, (i < length p)%nat -> match_at (drop i (p ++ s)) = None) ->
    find_iter match_at pos 0 (p ++ s) = find_iter match_at (pos + length p) 0 s.
Proof.
    revert pos. induction p as [|c p IH]; intros pos H; simpl; [by rewrite Nat.add_0_r|].
    rewrite (H 0%nat ltac:(simpl; lia) : match_at (c :: p ++ s) = None), IH.
    - by rewrite Nat.add_succ_r.
    - intros i Hi. apply (H (S i)). simpl. lia.
Qed.

Lemma find_iter_none s :
    (forall i, (i < length s)%nat -> match_at (drop i s) = None) -> forall pos, find_iter match_at pos 0 s = [].
Proof.
    intros H pos. rewrite <- (app_nil_r s), find_iter_plain; [done|]. by rewrite app_nil_r.
Qed.

  (** The characters that no match takes, without positions or spans. *)
Fixpoint outside (skip : nat) (s : pystr) : pystr :=
    match s with
    | [] => []
    | c :: s' =>
        match skip with
        | S skip' => outside skip' s'
        | O => match match_at s with
               | Some (_, n) => outside (n - 1) s'
               | None => c :: outside 0 s'
               end
        end
    end.

Lemma find_iter_after pos skip s m :
    m ∈ find_iter match_at pos skip s -> (pos + skip <= m.2.1)%nat.
Proof.
    revert pos skip. induction s as [|c s IH]; intros pos skip; [by intros ?%not_elem_of_nil|].
    destruct skip as [|skip]; cbn [find_iter].
    - destruct (match_at (c :: s)) as [[a n]|].
      + intros [->|H%IH]%elem_of_cons; simpl in *; lia.
      + intros H%IH. lia.
    - intros H%IH. lia.
Qed.

Lemma insert_span_first a l : (forall b, b ∈ l -> (a.1 < b.1)%nat) -> insert_span a l = a :: l.
Proof.
    destruct l as [|b l]; intros H; [done|]. cbn [insert_span]. unfold span_leb.
    by rewrite (proj2 (Nat.ltb_lt _ _) (H b ltac:(by left))).
Qed.

  (** The matches of a pattern from left to right, where [pick] takes what it wants of
      them, and the text that is left when what was picked is cut out. *)
Inductive scan {B} (pick : A -> option B) : pystr -> list B -> pystr -> Prop :=
| scan_end : scan pick [] [] []
| scan_pick s a n b found kept :
    match_at s = Some (a, n) -> pick a = Some b -> scan pick (drop n s) found kept ->
    scan pick s (b :: found) kept
| scan_leave s a n found kept :
    match_at s = Some (a, n) -> pick a = None -> scan pick (drop n s) found kept ->
    scan pick s found (take n s ++ kept)
| scan_char c s found kept :
    match_at (c :: s) = None -> scan pick s found kept -> scan pick (c :: s) found (c :: kept).

  (** What is picked of the matches, with the spans. *)
Definition picked {B} (pick : A -> option B) (ms : list (A * (nat * nat))) : list (B * (nat * nat)) :=
    omap (fun m => match pick m.1 with Some b => Some (b, m.2) | None => None end) ms.

Lemma picked_cons {B} (pick : A -> option B) a sp ms :
    picked pick ((a, sp) :: ms)
    = match pick a with Some b => (b, sp) :: picked pick ms | None => picked pick ms end.
Proof. unfold picked. cbn. by destruct (pick a). Qed.

Lemma elem_of_picked {B} (pick : A -> option B) ms b sp :
    (b, sp) ∈ picked pick ms -> exists a, (a, sp) ∈ ms /\ pick a = Some b.
Proof.
    intros ([a sp'] & Hin & Hp)%list_elem_of_omap. simpl in Hp.
    destruct (pick a) as [b'|] eqn:Ha; [|done]. injection Hp as -> ->. eauto.
Qed.

  (** The spans come sorted. *)
Lemma spans_sorted {B} (pick : A -> option B) pos s :
    matches_characters ->
    let spans := map snd (picked pick (find_iter match_at pos 0 s)) in foldr insert_span [] spans = spans.
Proof.
    intros Hm. cbv zeta. remember (length s) as k eqn:Hk. assert (Hle : (length s <= k)%nat) by lia. clear Hk.
    revert pos s Hle. induction k as [|k IH]; intros pos [|c s] Hle; simpl in Hle; try done; [lia|].
    destruct (match_at (c :: s)) as [[a n]|] eqn:Hs.
    - pose proof (Hm _ _ _ Hs) as Hn. rewrite (find_iter_match _ _ _ _ Hm Hs).
      assert (Hd : (length (drop n (c :: s)) <= k)%nat) by (rewrite length_drop; simpl in *; lia).
      rewrite picked_cons. destruct (pick a) as [b|]; [|by apply IH].
      cbn [map foldr snd]. rewrite (IH (pos + n)%nat _ Hd). apply insert_span_first.
      intros sp [[b' sp'] [-> Hin]]%list_elem_of_fmap. apply elem_of_picked in Hin as (a' & Hin%find_iter_after & _).
      simpl in *. lia.
    - cbn [find_iter]. rewrite Hs. apply IH. lia.
Qed.

Lemma slice_nil text i j : (j <= i)%nat -> slice text i j = [].
Proof. intros H. unfold slice. by replace (j - i)%nat with 0%nat by lia. Qed.

Lemma slice_more text cursor pos n s :
    drop pos text = s -> (cursor <= pos)%nat ->
    slice text cursor (pos + n) = slice text cursor pos ++ take n s.
Proof.
    intros <- Hc. unfold slice. replace (pos + n - cursor)%nat with (pos - cursor + n)%nat by lia.
    rewrite <- (take_take_drop _ (pos - cursor) n). f_equal. rewrite drop_drop.
    by replace (cursor + (pos - cursor))%nat with pos by lia.
Qed.

Lemma pieces_scan {B} (pick : A -> option B) text s pos cursor :
    matches_characters -> drop pos text = s -> (cursor <= pos <= length text)%nat ->
    let found := picked pick (find_iter match_at pos 0 s) in
    exists kept, scan pick s (map fst found) kept
      /\ concat (pieces text cursor (map snd found)) = slice text cursor pos ++ kept.
Proof.
    intros Hm. cbv zeta. remember (length s) as k eqn:Hk. assert (Hle : (length s <= k)%nat) by lia. clear Hk.
    revert s pos cursor Hle. induction k as [|k IH]; intros [|c s] pos cursor Hle Ht Hp; simpl in Hle; [|lia| |].
    1,2: exists []; split; [constructor|]; simpl; rewrite !app_nil_r; unfold slice;
      apply (f_equal length) in Ht; rewrite length_drop in Ht; simpl in Ht;
      rewrite take_ge by (rewrite length_drop; lia); done.
    assert (Hl : length (drop pos text) = S (length s)) by (by rewrite Ht). rewrite length_drop in Hl.
    assert (Hnext : forall n, drop (pos + n) text = drop n (c :: s)) by (intros n; by rewrite <- drop_drop, Ht).
    destruct (match_at (c :: s)) as [[a n]|] eqn:Hs.
    - pose proof (Hm _ _ _ Hs) as Hn. simpl in Hn. rewrite (find_iter_match _ _ _ _ Hm Hs).
      assert (Hd : (length (drop n (c :: s)) <= k)%nat) by (rewrite length_drop; simpl; lia).
      rewrite picked_cons. destruct (pick a) as [b|] eqn:Ha.
      + destruct (IH (drop n (c :: s)) (pos + n)%nat (pos + n)%nat Hd) as (kept & Hk & He); [done|lia|].
        exists kept. split; [by eapply scan_pick|]. cbn [map fst snd pieces concat]. f_equal.
        by rewrite slice_nil in He by lia.
      + destruct (IH (drop n (c :: s)) (pos + n)%nat cursor Hd) as (kept & Hk & He); [done|lia|].
        exists (take n (c :: s) ++ kept). split; [by eapply scan_leave|].
        by rewrite app_assoc, <- (slice_more _ _ _ _ (c :: s)) by (done || lia).
    - destruct (IH s (pos + 1)%nat cursor) as (kept & Hk & He); [lia|by rewrite Hnext|lia|].
      exists (c :: kept). cbn [find_iter]. rewrite Hs, <- Nat.add_1_r.
      split; [by apply scan_char|]. rewrite He.
      rewrite (slice_more _ _ _ _ (c :: s)) by (done || lia). by rewrite <- app_assoc.
Qed.

  (** [_remove_spans] of what was picked, on the text that was scanned. *)
Lemma remove_spans_scan {B} (pick : A -> option B) text :
    matches_characters ->
    let found := picked pick (find_iter match_at 0 0 text) in
    scan pick text (map fst found) (remove_spans text (map snd found)).
Proof.
    intros Hm. cbv zeta. destruct (pieces_scan pick text text 0 0 Hm (drop_0 _) ltac:(lia)) as (kept & Hk & He).
    rewrite slice_nil in He by lia. cbn [app] in He. pose proof (spans_sorted pick 0 text Hm) as Hsort. simpl in Hsort.
    unfold remove_spans. destruct (map snd _) as [|sp sps] eqn:Hf.
    - cbn [pieces concat] in He. rewrite app_nil_r, drop_0 in He. by subst kept.
    - rewrite Hsort, He. done.
Qed.

Lemma outside_skip skip s : outside skip s = outside 0 (drop skip s).
Proof.
    revert skip. induction s as [|c s IH]; intros skip; [by rewrite drop_nil|].
    destruct skip as [|skip]; [by rewrite drop_0|]. apply IH.
Qed.

Lemma outside_match s a n : matches_characters -> match_at s = Some (a, n) -> outside 0 s = outside 0 (drop n s).
Proof.
    intros Hm Hs. pose proof (Hm _ _ _ Hs) as Hn. destruct s as [|c s]; [simpl in Hn; lia|].
    cbn [outside]. rewrite Hs, outside_skip. destruct n as [|n]; [lia|]. simpl. by rewrite Nat.sub_0_r.
Qed.

Lemma outside_plain p s :
    (forall i, (i < length p)%nat -> match_at (drop i (p ++ s)) = None) -> outside 0 (p ++ s) = p ++ outside 0 s.
Proof.
    induction p as [|c p IH]; intros H; [done|]. cbn [app outside].
    rewrite (H 0%nat ltac:(simpl; lia) : match_at (c :: p ++ s) = None), IH; [done|].
    intros i Hi. apply (H (S i)). simpl. lia.
Qed.

  (** [_remove_spans] keeps exactly the characters outside the matches. *)
Lemma scan_outside s found kept : matches_characters -> scan Some s found kept -> kept = outside 0 s.
Proof.
    intros Hm. induction 1 as [|s a n b found kept Hs Hb _ IH|s a n found kept Hs Hb _ IH|c s found kept Hs _ IH]; try done.
    - by rewrite (outside_match _ _ _ Hm Hs).
    - cbn [outside]. by rewrite Hs, IH.
Qed.

Lemma picked_all ms : picked Some ms = ms.
Proof. induction ms as [|[a sp] ms IH]; [done|]. by rewrite picked_cons, IH. Qed.

Lemma remove_spans_outside text :
    matches_characters -> remove_spans text (map snd (find_iter match_at 0 0 text)) = outside 0 text.
Proof.
    intros Hm. pose proof (remove_spans_scan Some text Hm) as H. cbv zeta in H. rewrite picked_all in H.
    by eapply scan_outside.
Qed.
End find_iter_lemmas.

(** ** Native calls in a text *)

Lemma arguments_match_app s body rest :
  arguments_match s = Some (body, rest) -> (length rest < length s)%nat.
Proof.
  revert body. induction s as [|c s IH]; intros body; [done|]. cbn [arguments_match].
  destruct ((c =? CLOSE_BRACE)%N && starts_with NATIVE_CLOSE (text_lstrip s)) eqn:Hc.
  - intros [= <- <-]. rewrite length_drop. pose proof (length_lstrip s). simpl. lia.
  - destruct (arguments_match s) as [[b r]|]; [|done]. intros [= <- <-]. specialize (IH _ eq_refl). simpl. lia.
Qed.

Lemma span_length p s : (length (span p s).2 <= length s)%nat.
Proof.
  destruct (span p s) as [a b] eqn:H. apply span_app in H as (-> & _). rewrite length_app. simpl. lia.
Qed.

Lemma native_matches : matches_characters native_match.
Proof.
  intros s a n. unfold native_match. destruct (starts_with NATIVE_OPEN s) eqn:Ho; [|done].
  set (s1 := text_lstrip (drop (length NATIVE_OPEN) s)).
  assert (H1 : (length s1 < length s)%nat).
  { apply starts_with_spec in Ho as [t ->]. unfold s1. rewrite drop_app_length.
    pose proof (length_lstrip t). rewrite length_app. simpl. lia. }
  destruct (starts_with CALL s1); [|done].
  pose proof (span_length name_char (drop (length CALL) s1)) as Hs. rewrite length_drop in Hs.
  destruct (span name_char (drop (length CALL) s1)) as [name s2]. simpl in Hs.
  destruct (nonempty name && _); [|done].
  destruct (arguments_match (drop 1 (text_lstrip s2))) as [[body rest]|] eqn:Ha; [|done].
  intros [= <- <-]. apply arguments_match_app in Ha. rewrite length_drop in Ha. pose proof (length_lstrip s2). lia.
Qed.

Lemma native_match_open s : starts_with NATIVE_OPEN s = false -> native_match s = None.
Proof. unfold native_match. by intros ->. Qed.

(** A native call as a model writes it. *)
Record spelled_call := {
  sc_name : pystr;
  sc_arguments : pystr;
  sc_gaps : pystr * pystr * pystr;
  sc_value : list (string * json)
}.

Definition spelled_text (c : spelled_call) : pystr :=
  NATIVE_OPEN ++ c.(sc_gaps).1.1 ++ CALL ++ sc_name c ++ c.(sc_gaps).1.2 ++ sc_arguments c
  ++ c.(sc_gaps).2 ++ NATIVE_CLOSE.

(** Whitespace where it may stand, a name, and braces that denote the arguments
    and do not contain the closing mark. *)
Record well_spelled json_loads raw_decode py_str (c : spelled_call) : Prop := {
  ws_gaps : blank c.(sc_gaps).1.1 /\ blank c.(sc_gaps).1.2 /\ blank c.(sc_gaps).2;
  ws_name : sc_name c <> [] /\ forallb name_char (sc_name c) = true;
  ws_braces : starts_with [OPEN_BRACE] (sc_arguments c) = true;
  ws_denotes : native json_loads raw_decode py_str (JObj (sc_value c)) (sc_arguments c);
  ws_closing : find NATIVE_CLOSE (sc_arguments c) = None
}.

Lemma braces_end json_loads raw_decode py_str v t :
  native json_loads raw_decode py_str v t -> starts_with [OPEN_BRACE] t = true ->
  exists b, t = OPEN_BRACE :: b ++ [CLOSE_BRACE].
Proof.
  intros H [u Hu]%starts_with_one.
  destruct H as [body _|v t Hq _|v t Hn _|v l Hl|w _|es t _|w _|ms t _]; try done.
  - apply starts_with_one in Hq as [x ->]. done.
  - destruct (number_head _ _ _ Hn) as (c & t' & -> & Hc). injection Hu as -> _. by destruct Hc.
  - subst l. unfold literals in Hl.
    repeat (apply elem_of_cons in Hl as [Hl|Hl]; [vm_compute in Hl; congruence|]). by apply not_elem_of_nil in Hl.
  - by exists w.
  - by exists t.
Qed.

Lemma lstrip_keeps b c x : text_space c = false ->
  exists b', text_lstrip (b ++ c :: x) = b' ++ c :: x /\ exists w, b = w ++ b'.
Proof.
  intros Hc. induction b as [|d b (b' & IH & w & ->)]; cbn [app text_lstrip].
  - rewrite Hc. exists []. split; [done|by exists []].
  - destruct (text_space d); [exists b'; split; [done|by exists (d :: w)]|]. exists (d :: w ++ b'). split; [done|by exists []].
Qed.

(** A brace inside the arguments does not end them. *)
Lemma no_early_close d b x :
  find NATIVE_CLOSE (d :: b ++ [CLOSE_BRACE]) = None ->
  starts_with NATIVE_CLOSE (text_lstrip (b ++ CLOSE_BRACE :: x)) = false.
Proof.
  intros Hf. destruct (lstrip_keeps b CLOSE_BRACE x) as (b' & -> & w & ->); [done|].
  apply not_true_is_false. intros Hs. change (CLOSE_BRACE :: x) with ([CLOSE_BRACE] ++ x) in Hs.
  rewrite app_assoc in Hs. apply starts_with_split in Hs as [Hs|[_ Hs]].
  - pose proof (find_None _ _ (length (d :: w)) Hf) as Hn.
    replace (d :: (w ++ b') ++ [CLOSE_BRACE]) with ((d :: w) ++ b' ++ [CLOSE_BRACE]) in Hn
      by (simpl; by rewrite <- app_assoc). rewrite drop_app_length in Hn. congruence.
  - apply starts_with_spec in Hs as [u Hu].
    assert (Hin : CLOSE_BRACE ∈ NATIVE_CLOSE) by (rewrite Hu; set_solver).
    apply (bool_decide_eq_true_2 _) in Hin. by vm_compute in Hin.
Qed.

Lemma arguments_match_end b w rest :
  blank w -> find NATIVE_CLOSE (b ++ [CLOSE_BRACE]) = None ->
  arguments_match (b ++ CLOSE_BRACE :: w ++ NATIVE_CLOSE ++ rest) = Some (b ++ [CLOSE_BRACE], rest).
Proof.
  intros Hw. induction b as [|c b IH]; intros Hf.
  - cbn [app arguments_match]. rewrite N.eqb_refl, lstrip_blank by done.
    rewrite lstrip_id by done. rewrite starts_with_app. cbn [andb]. by rewrite drop_app_length.
  - cbn [app arguments_match] in *. rewrite (no_early_close c b) by done. rewrite andb_false_r, IH; [done|].
    cbn [find] in Hf. destruct (starts_with NATIVE_CLOSE _); [done|]. by apply fmap_None in Hf.
Qed.

Lemma native_match_spelled json_loads raw_decode py_str c rest :
  well_spelled json_loads raw_decode py_str c ->
  native_match (spelled_text c ++ rest) = Some ((sc_name c, sc_arguments c), length (spelled_text c)).
Proof.
  intros [(G1 & G2 & G3) [Hne Hname] Hb Hd Hc]. destruct (braces_end _ _ _ _ _ Hd Hb) as [b Ha].
  destruct c as [name args [[w1 w2] w3] v]. unfold spelled_text in *.
  cbn [sc_name sc_arguments sc_gaps sc_value fst snd] in *. subst args.
  unfold native_match. rewrite <- !app_assoc, starts_with_app, drop_app_length.
  rewrite lstrip_blank, lstrip_id, starts_with_app, drop_app_length by done.
  assert (He : ends_here name_char (w2 ++ OPEN_BRACE :: (b ++ [CLOSE_BRACE]) ++ w3 ++ NATIVE_CLOSE ++ rest) = true).
  { destruct w2 as [|d w2]; [done|]. unfold blank in G2. simpl in G2. apply andb_true_iff in G2 as [G2 _].
    simpl. unfold name_char. by rewrite G2. }
  cbn [app] in He |- *. rewrite (span_of name_char name _ Hname He).
  rewrite lstrip_at_mark by done. destruct name as [|d name]; [done|].
  cbn [nonempty andb starts_with]. rewrite N.eqb_refl. cbn [andb drop]. rewrite drop_0, <- app_assoc. cbn [app].
  assert (Hc' : find NATIVE_CLOSE (b ++ [CLOSE_BRACE]) = None).
  { cbn [find] in Hc. destruct (starts_with NATIVE_CLOSE _); [done|]. by apply fmap_None in Hc. }
  rewrite arguments_match_end by done. do 2 f_equal.
  repeat (rewrite ?length_app; cbn [length]). lia.
Qed.

(** No later part of the opening mark looks like its start. *)
Lemma open_has_no_border k : (0 < k)%nat -> starts_with [60%N] (drop k NATIVE_OPEN) = false.
Proof. intros Hk. destruct k as [|k]; [lia|]. do 11 (destruct k as [|k]; [done|]). by rewrite drop_ge by (simpl; lia). Qed.

(** No call starts in a part without the opening mark, whatever comes after it. *)
Lemma no_call_in_plain p s i :
  find NATIVE_OPEN p = None -> s = [] \/ starts_with NATIVE_OPEN s = true -> (i < length p)%nat ->
  native_match (drop i (p ++ s)) = None.
Proof.
  intros Hf Hs Hi. apply native_match_open. apply not_true_is_false. intros Ho.
  rewrite drop_app_le in Ho by lia. pose proof (find_None _ _ i Hf) as Hn.
  pose proof (starts_with_split _ _ _ Ho) as [H|[Hl H]]; [congruence|].
  apply starts_with_spec in H as [u Hu], Ho as [t Ht]. set (q := drop i p) in *.
  assert (Hq : (0 < length q)%nat) by (unfold q; rewrite length_drop; lia).
  rewrite Hu, <- app_assoc in Ht. apply app_inv_head in Ht. pose proof (open_has_no_border (length q) Hq) as Hb.
  rewrite Hu, drop_app_length in Hb. rewrite Hu, length_app in Hl.
  destruct u as [|c u]; [simpl in Hl; lia|]. destruct Hs as [->|Hs]; [done|]. subst s.
  apply starts_with_spec in Hs as [t' Ht']. injection Ht' as -> _. done.
Qed.

(** Text with calls in it: a plain part, and then calls each followed by another. *)
Definition output_of (p : pystr) (calls : list (spelled_call * pystr)) : pystr :=
  p ++ concat (map (fun cp => spelled_text cp.1 ++ cp.2) calls).

(** What a spelled call decodes to. *)
Definition spelled_payload (c : spelled_call) : list (string * json) :=
  [(TOOL_CALL_NAME_KEY, JStr (str_of (sc_name c))); (ARGUMENTS_KEY, JObj (sc_value c))].

Section native_extraction.
Context (json_loads : pystr -> load_outcome) (raw_decode : pystr -> raw_outcome) (py_str : json -> string).
Context (limit : nat) (Hraw : decodes_literals raw_decode).

Definition readable (c : spelled_call) : Prop :=
    well_spelled json_loads raw_decode py_str c /\ (length (sc_arguments c) < limit)%nat.

Lemma decode_native_spelled matches (cs : list spelled_call) :
    map fst matches = map (fun c => (sc_name c, sc_arguments c)) cs -> Forall readable cs ->
    decode_native json_loads raw_decode py_str limit matches = Ok (map (fun c => inl (JObj (spelled_payload c))) cs).
Proof.
    revert matches. induction cs as [|c cs IH]; intros [|[[name args] sp] ms] Hm Hr; try done.
    injection Hm as -> -> Hm. apply Forall_cons in Hr as [[Hc Hl] Hr]. cbn [decode_native map].
    rewrite (native_text_parsed json_loads raw_decode py_str limit (JObj (sc_value c)) (sc_arguments c)).
    - cbn [rbind]. by rewrite (IH ms).
    - done.
    - done.
    - exists [], (sc_arguments c), []. rewrite app_nil_r. split_and!; [done..|apply Hc].
Qed.

Lemma output_start calls :
    map (fun cp => spelled_text cp.1 ++ cp.2) calls = [] \/
    starts_with NATIVE_OPEN (concat (map (fun cp => spelled_text cp.1 ++ cp.2) calls)) = true.
Proof.
    destruct calls as [|[c p] calls]; [by left|right]. cbn [map concat fst snd]. unfold spelled_text.
    rewrite <- !app_assoc. apply starts_with_app.
Qed.

Lemma find_in_output p calls :
    find NATIVE_OPEN p = None ->
    Forall (fun cp => well_spelled json_loads raw_decode py_str cp.1 /\ find NATIVE_OPEN cp.2 = None) calls ->
    forall pos, map fst (find_iter native_match pos 0 (output_of p calls))
      = map (fun c => (sc_name c, sc_arguments c)) (map fst calls)
      /\ outside native_match 0 (output_of p calls) = p ++ concat (map snd calls).
Proof.
    revert p. induction calls as [|[c q] calls IH]; intros p Hp Hw pos; unfold output_of.
    - cbn [map concat]. rewrite !app_nil_r. split.
      + rewrite find_iter_none; [done|]. intros i Hi. rewrite <- (app_nil_r p). apply no_call_in_plain; auto.
      + rewrite <- (app_nil_r p) at 1. rewrite outside_plain; [by rewrite app_nil_r|].
        intros i Hi. apply no_call_in_plain; auto.
    - apply Forall_cons in Hw as [[Hc Hq] Hw]. simpl in Hc, Hq.
      assert (Hplain : forall i, (i < length p)%nat ->
        native_match (drop i (p ++ concat (map (fun cp => spelled_text cp.1 ++ cp.2) ((c, q) :: calls)))) = None).
      { intros i Hi. apply no_call_in_plain; [done| |done]. destruct (output_start ((c, q) :: calls)) as [|H]; [done|by right]. }
      rewrite find_iter_plain, outside_plain by done. cbn [map concat fst snd]. rewrite <- app_assoc.
      pose proof (native_match_spelled _ _ _ c (output_of q calls) Hc) as Hm. unfold output_of in *.
      rewrite (find_iter_match _ _ _ _ _ native_matches Hm), (outside_match _ _ _ _ native_matches Hm), drop_app_length.
      destruct (IH q Hq Hw (pos + length p + length (spelled_text c))%nat) as [H1 H2]. cbn [map fst].
      rewrite H1, H2. done.
Qed.

(** Extraction finds the calls, in order, and leaves the plain parts. *)
Lemma extract_spelled p calls :
    find NATIVE_OPEN p = None -> Forall (fun cp => readable cp.1 /\ find NATIVE_OPEN cp.2 = None) calls ->
    extract_native_candidates json_loads raw_decode py_str limit (output_of p calls)
    = Ok (map (fun c => inl (JObj (spelled_payload c))) (map fst calls), p ++ concat (map snd calls)).
Proof.
    intros Hp Hr. destruct (find_in_output p calls Hp) with (pos := 0%nat) as [H1 H2].
    { eapply Forall_impl; [exact Hr|]. intros cp [[? _] ?]. done. }
    unfold extract_native_candidates. rewrite (decode_native_spelled _ (map fst calls)); [|done|].
    - cbn [rbind]. rewrite remove_spans_outside by apply native_matches. by rewrite H2.
    - apply Forall_fmap. eapply Forall_impl; [exact Hr|]. by intros cp [? _].
Qed.
End native_extraction.

(** ** Calls that are accepted *)

Record accepted_call := {
  ac_payload : list (string * json);
  ac_name : string;
  ac_arguments : list (string * json)
}.

(** The call that is reported for the [n]-th one. *)
Definition reported (n : nat) (a : accepted_call) : parsed_tool_call :=
  {| call_id := call_identifier (ac_payload a) n; call_name := ac_name a; call_arguments := ac_arguments a |}.

Fixpoint numbered (n : nat) (l : list accepted_call) : list parsed_tool_call :=
  match l with
  | [] => []
  | a :: l' => reported (S n) a :: numbered (S n) l'
  end.

Lemma numbered_app n l l' : numbered n (l ++ l') = numbered n l ++ numbered (n + length l) l'.
Proof.
  revert n. induction l as [|a l IH]; intros n; simpl; [by rewrite Nat.add_0_r|].
  by rewrite IH, Nat.add_succ_r.
Qed.

Lemma length_numbered_calls n l : length (numbered n l) = length l.
Proof. revert n. induction l as [|a l IH]; intros n; simpl; [done|by rewrite IH]. Qed.

Section acceptance.
Context (re_compile : string -> option (string -> bool)) (tools : list tool_definition).

  (** A declared tool whose schema the arguments satisfy. *)
Definition accepts (name : string) (arguments : list (string * json)) : Prop :=
    strip name <> "" /\
    exists tool, dget name (tool_index tools) = Some tool /\
      (t_input_schema tool = [] \/
       validate_value_against_json_schema re_compile (JObj (t_input_schema tool)) (JObj arguments) = Ok []).

Definition is_accepted (a : accepted_call) : Prop :=
    dget TOOL_CALL_NAME_KEY (ac_payload a) = Some (JStr (ac_name a)) /\
    first_argument ARGUMENT_KEYS (ac_payload a) = JObj (ac_arguments a) /\ accepts (ac_name a) (ac_arguments a).

Lemma validate_accepted a index n :
    is_accepted a ->
    validate_call_payload re_compile (ac_payload a) (tool_index tools) index n = Ok (inl (reported n a)).
Proof.
    intros (Hn & Ha & Hs & tool & Ht & Hv). unfold validate_call_payload. rewrite Hn, Ha, Ht.
    rewrite (proj2 (String.eqb_neq _ _) Hs).
    destruct (t_input_schema tool) as [|x schema] eqn:Hschema; [done|].
    destruct Hv as [Hv|Hv]; [done|]. by rewrite Hv.
Qed.

Lemma validate_calls_accepted index l acc :
    Forall is_accepted l ->
    validate_calls re_compile (tool_index tools) index (map ac_payload l) acc
    = Ok (acc.1 ++ numbered (length acc.1) l, acc.2).
Proof.
    revert acc. induction l as [|a l IH]; intros acc Hl; cbn [map validate_calls numbered].
    - rewrite app_nil_r. by destruct acc.
    - apply Forall_cons in Hl as [Ha Hl]. rewrite validate_accepted by done. cbn [rbind].
      rewrite IH by done. cbn [fst snd]. rewrite length_app, <- app_assoc. simpl. by rewrite Nat.add_1_r.
Qed.

  (** A decoded candidate that holds these calls. *)
Definition holds_calls (d : decoded) (group : list accepted_call) : Prop :=
    exists payload, d = inl payload /\ normalize_candidate_shape payload = inl (map ac_payload group).

Lemma parse_candidates_accepted index ds groups acc :
    Forall2 holds_calls ds groups -> Forall is_accepted (concat groups) ->
    parse_candidates re_compile (tool_index tools) index ds acc
    = Ok (acc.1 ++ numbered (length acc.1) (concat groups), acc.2).
Proof.
    intros H. revert index acc. induction H as [|d g ds gs (payload & -> & Hn) _ IH]; intros index acc Hg.
    - cbn. rewrite app_nil_r. by destruct acc.
    - cbn [concat] in *. apply Forall_app in Hg as [Hg Hgs]. cbn [parse_candidates]. rewrite Hn.
      rewrite validate_calls_accepted by done. cbn [rbind]. rewrite IH by done. cbn [fst snd].
      rewrite length_app, length_numbered_calls, numbered_app. by rewrite app_assoc.
Qed.

  (** Candidates that hold accepted calls are reported as these calls. *)
Lemma result_accepted output_text remaining ds groups :
    Forall2 holds_calls ds groups -> Forall is_accepted (concat groups) -> concat groups <> [] ->
    result_of re_compile tools output_text remaining ds
    = Ok {| status := Parsed; tool_calls := numbered 0 (concat groups); issues := [];
            remaining_text := remaining; parallel := (1 <? length (concat groups))%nat |}.
Proof.
    intros Hd Ha Hne. unfold result_of. rewrite (parse_candidates_accepted 0 ds groups) by done.
    destruct Hd as [|d g ds gs]; [done|]. cbn [rbind fst snd length app]. rewrite length_numbered_calls.
    by destruct (concat (g :: gs)).
Qed.
End acceptance.

Lemma fence_at s : starts_with FENCE s = false -> fence_match s = None.
Proof. unfold fence_match. by intros ->. Qed.

Lemma extract_candidates_none text :
  (forall i, (i < length text)%nat -> fence_match (drop i text) = None) ->
  looks_like_tool_call_json (text_strip text) = false ->
  extract_candidates text = ([], text_strip text).
Proof. intros Hf Hl. unfold extract_candidates. rewrite find_iter_none by done. cbn. by rewrite Hl. Qed.

(** ** What a result holds *)

#[local] Open Scope nat_scope.

Lemma fence_matches : matches_characters fence_match.
Proof.
  intros s a n. unfold fence_match. destruct (starts_with FENCE s) eqn:Ho; [|done].
  apply starts_with_spec in Ho as [s0 ->]. rewrite drop_app_length.
  pose proof (span_length language_char s0) as H1. destruct (span language_char s0) as [language s1].
  pose proof (span_length blank_char s1) as H2. destruct (span blank_char s1) as [blanks s2]. simpl in H1, H2.
  destruct (newline_match s2) as [t|] eqn:Hn; [|done]. destruct (find FENCE t) as [i|]; [|done]. intros [= <- <-].
  assert (Ht : length t <= length s2).
  { revert Hn. clear. unfold newline_match. destruct s2 as [|[|p] s2]; [done..|].
    intros Hr. repeat (destruct p as [p|p|]; try done); simpl in Hr; [|injection Hr as <-; simpl; lia].
    destruct s2 as [|[|q] s2]; [done..|]. repeat (destruct q as [q|q|]; try done).
    injection Hr as <-. simpl. lia. }
  rewrite length_app, length_drop. change (length FENCE) with 3. lia.
Qed.

(** What a fence holds that is a candidate: its text without the space around it,
    when it is marked as JSON, or is not marked and looks like a call. *)
Definition json_block (fence : pystr * pystr) : option pystr :=
  let language := map fold_char fence.1 in
  let body := text_strip fence.2 in
  if bool_decide (language = pystr_of "json") || (bool_decide (language = []) && looks_like_tool_call_json body)
  then Some body else None.

Lemma json_fences_picked ms : json_fences ms = picked json_block ms.
Proof.
  induction ms as [|[[language body] sp] ms IH]; [done|]. rewrite picked_cons, <- IH. cbn [json_fences].
  unfold json_block. cbn [fst snd]. destruct (map fold_char language) as [|c l]; [by destruct (looks_like_tool_call_json _)|].
  cbn [nonempty andb]. by destruct (bool_decide (c :: l = pystr_of "json")).
Qed.

(** The candidates a text holds, and the text that remains: the native calls are cut
    out first; then come the blocks of JSON, and without any of them the rest of
    the text itself, if it looks like a call. *)
Inductive extracted (text : pystr) : list (pystr * pystr) -> list pystr -> pystr -> Prop :=
| extracted_blocks natives rest blocks kept :
    scan native_match Some text natives rest -> scan fence_match json_block rest blocks kept ->
    blocks <> [] -> extracted text natives blocks (text_strip kept)
| extracted_bare natives rest :
    scan native_match Some text natives rest -> scan fence_match json_block rest [] rest ->
    looks_like_tool_call_json (text_strip rest) = true -> extracted text natives [text_strip rest] []
| extracted_none natives rest :
    scan native_match Some text natives rest -> scan fence_match json_block rest [] rest ->
    looks_like_tool_call_json (text_strip rest) = false -> extracted text natives [] (text_strip rest).

Lemma text_extracted text :
  let natives := find_iter native_match 0 0 text in
  let rest := remove_spans text (map snd natives) in
  extracted text (map fst natives) (extract_candidates rest).1 (extract_candidates rest).2.
Proof.
  cbv zeta. pose proof (remove_spans_scan _ Some text native_matches) as Hn. cbv zeta in Hn. rewrite picked_all in Hn.
  set (rest := remove_spans text _) in *. clearbody rest.
  pose proof (remove_spans_scan _ json_block rest fence_matches) as Hj. cbv zeta in Hj.
  unfold extract_candidates. rewrite json_fences_picked.
  destruct (picked json_block (find_iter fence_match 0 0 rest)) as [|b bs].
  - cbn [map remove_spans] in *. destruct (looks_like_tool_call_json (text_strip rest)) eqn:Hl.
    + by apply (extracted_bare text _ rest).
    + by apply (extracted_none text _ rest).
  - by eapply extracted_blocks.
Qed.

(** The call objects of a JSON value in one of the shapes of the contract. *)
Inductive holds : json -> list (list (string * json)) -> Prop :=
| holds_batch members calls :
    dget "tool_calls" members = Some (JArr (map JObj calls)) -> calls <> [] -> holds (JObj members) calls
| holds_single members call :
    dget "tool_calls" members = None -> dget "tool_call" members = Some (JObj call) ->
    holds (JObj members) [call]
| holds_bare members name :
    dget "tool_calls" members = None -> dget "tool_call" members = None ->
    dget "name" members = Some name -> holds (JObj members) [members].

Lemma all_objects items :
  existsb (fun item => negb (is_object item)) items = false ->
  items = map JObj (omap (fun item => match item with JObj c => Some c | _ => None end) items).
Proof.
  induction items as [|v items IH]; [done|]. cbn [existsb]. intros [Hv H]%orb_false_iff.
  destruct v; try done. cbn. f_equal. by apply IH.
Qed.

Lemma objects_are_objects calls : existsb (fun item => negb (is_object item)) (map JObj calls) = false.
Proof. by induction calls. Qed.

Lemma normalize_spec payload :
  match normalize_candidate_shape payload with
  | inl payloads => holds payload payloads
  | inr _ => forall payloads, ~ holds payload payloads
  end.
Proof.
  unfold normalize_candidate_shape. change TOOL_CALL_BATCH_KEY with "tool_calls". change TOOL_CALL_SINGLE_KEY with "tool_call".
  change TOOL_CALL_NAME_KEY with "name". destruct payload as [| | | | | |members]; try (intros ? H; by inversion H).
  destruct (dget "tool_calls" members) as [v|] eqn:Hb.
  - assert (Hnot : (forall calls, calls <> [] -> v <> JArr (map JObj calls)) -> forall ps, ~ holds (JObj members) ps).
    { intros Hv ps H. inversion H; try congruence. eapply Hv; [done|]. congruence. }
    destruct v as [| | | | |[|call calls]|]; try (apply Hnot; by intros [] ? [=]).
    destruct (existsb _ _) eqn:He.
    + apply Hnot. intros ps _ [= Heq]. rewrite Heq in He. by rewrite objects_are_objects in He.
    + apply holds_batch; [by rewrite <- all_objects|]. by destruct call.
  - destruct (dget "tool_call" members) as [v|] eqn:Hs.
    + destruct v; try (by constructor 2); intros ps H; inversion H; congruence.
    + destruct (dmem "name" members) eqn:Hn.
      * unfold dmem in Hn. destruct (dget "name" members) as [name|] eqn:Hg; [|done]. by eapply holds_bare.
      * unfold dmem in Hn. intros ps H. inversion H as [| |? ? ? ? Hg]; try congruence. by rewrite Hg in Hn.
Qed.

Lemma validator_has_fuel re_compile schema value :
  validate_value_against_json_schema re_compile schema value <> Err OutOfFuel.
Proof.
  assert (Hm : (call_measure schema schema value 0 < enough_fuel schema value)%nat).
  { unfold call_measure, enough_fuel. change (MAX_REF_DEPTH - 0)%nat with 64%nat. lia. }
  by apply (agrees_node re_compile schema (enough_fuel schema value) (enough_fuel schema value) schema value [] 0).
Qed.

(** What the candidates are to be reported as, each with the number of its
    candidate: a call object to judge, or why there is none. *)
Definition slot : Type := nat * (issue_code + list (string * json)).

Inductive slots : nat -> list decoded -> list slot -> Prop :=
| slots_nil i : slots i [] []
| slots_undecoded i e ds l : slots (S i) ds l -> slots i (inr e :: ds) ((i, inl Invalid_json) :: l)
| slots_shapeless i v ds l :
    (forall payloads, ~ holds v payloads) -> slots (S i) ds l ->
    slots i (inl v :: ds) ((i, inl Unrecognized_shape) :: l)
| slots_calls i v payloads ds l :
    holds v payloads -> slots (S i) ds l ->
    slots i (inl v :: ds) (map (fun payload => (i, inr payload)) payloads ++ l).

Lemma slots_empty i ds l : slots i ds l -> (l = [] <-> ds = []).
Proof.
  intros H. destruct H as [|i e ds l _|i v ds l _ _|i v payloads ds l Hh _]; try done.
  split; [|done]. intros [Hp _]%app_eq_nil. apply map_eq_nil in Hp. subst. by inversion Hh.
Qed.

Section results.
Context (re_compile : string -> option (string -> bool)) (tools : list tool_definition).

  (** The tool a name stands for: the last one declared with it. *)
Definition declared (name : string) (tool : tool_definition) : Prop :=
    exists before after, tools = before ++ tool :: after /\ t_name tool = name
      /\ Forall (fun t => t_name t <> name) after.

Lemma index_declared name :
    match dget name (tool_index tools) with
    | Some tool => declared name tool
    | None => Forall (fun t => t_name t <> name) tools
    end.
Proof.
    unfold tool_index, declared. induction tools as [|t ts IH] using rev_ind; [constructor|].
    rewrite foldl_app. cbn [foldl]. destruct (decide (name = t_name t)) as [->|Hne].
    - rewrite dget_dset_eq. exists ts, []. by split_and!.
    - rewrite dget_dset_ne by done. destruct (dget name _) as [tool|].
      + destruct IH as (before & after & -> & Hn & Ha). exists before, (after ++ [t]). rewrite <- app_assoc.
        split_and!; [done..|]. apply Forall_app. split; [done|]. by apply Forall_singleton.
      + apply Forall_app. split; [done|]. by apply Forall_singleton.
Qed.

  (** The arguments conform to the schema of the tool, if it has one, under the
      reference semantics. *)
Definition fits (tool : tool_definition) (arguments : list (string * json)) : Prop :=
    t_input_schema tool <> [] ->
    let schema := JObj (t_input_schema tool) in let value := JObj arguments in
    conforms re_compile (enough_fuel schema value) schema schema value 0.

Definition names (payload : list (string * json)) (name : string) : Prop :=
    dget "name" payload = Some (JStr name) /\ strip name <> "".

Definition argument_of (payload : list (string * json)) : json :=
    match dget "arguments" payload with
    | Some v => v
    | None => match dget "input" payload with Some v => v | None => JObj [] end
    end.

  (** The verdict on a call object: its name and arguments, or what is wrong. *)
Inductive judged (payload : list (string * json)) : issue_code + (string * list (string * json)) -> Prop :=
| judged_nameless : (forall name, ~ names payload name) -> judged payload (inl Missing_name)
| judged_unknown name :
    names payload name -> Forall (fun t => t_name t <> name) tools -> judged payload (inl Unknown_tool)
| judged_no_object name tool :
    names payload name -> declared name tool -> is_object (argument_of payload) = false ->
    judged payload (inl Arguments_not_object)
| judged_violation name tool arguments :
    names payload name -> declared name tool -> argument_of payload = JObj arguments ->
    ~ fits tool arguments -> judged payload (inl Schema_violation)
| judged_call name tool arguments :
    names payload name -> declared name tool -> argument_of payload = JObj arguments ->
    fits tool arguments -> judged payload (inr (name, arguments)).

  (** Every slot in order is one call, numbered among the calls, or one issue with
      the code of what is wrong and the number of the candidate. *)
Inductive outcomes : list slot -> nat -> list parsed_tool_call -> list parse_issue -> Prop :=
| outcomes_nil n : outcomes [] n [] []
| outcomes_call i payload name arguments l n calls found :
    judged payload (inr (name, arguments)) -> outcomes l (S n) calls found ->
    outcomes ((i, inr payload) :: l) n
      ({| call_id := call_identifier payload (S n); call_name := name; call_arguments := arguments |} :: calls) found
| outcomes_refused i payload issue l n calls found :
    judged payload (inl (is_code issue)) -> is_candidate_index issue = i -> outcomes l n calls found ->
    outcomes ((i, inr payload) :: l) n calls (issue :: found)
| outcomes_no_call i issue l n calls found :
    is_candidate_index issue = i -> outcomes l n calls found ->
    outcomes ((i, inl (is_code issue)) :: l) n calls (issue :: found).

Lemma outcomes_app l1 l2 n c1 f1 c2 f2 :
    outcomes l1 n c1 f1 -> outcomes l2 (n + length c1) c2 f2 -> outcomes (l1 ++ l2) n (c1 ++ c2) (f1 ++ f2).
Proof.
    induction 1 as [n|i payload name arguments l n calls found Hj _ IH|i payload issue l n calls found Hj Hi _ IH
      |i issue l n calls found Hi _ IH]; simpl; intros H2.
    - by rewrite Nat.add_0_r in H2.
    - constructor; [done|]. apply IH. by replace (S n + length calls) with (n + S (length calls)) by lia.
    - constructor; auto.
    - constructor; auto.
Qed.

Lemma outcomes_length l n calls found : outcomes l n calls found -> length calls + length found = length l.
Proof. induction 1; simpl; lia. Qed.

Definition validator_raised (e : call_error) : Prop :=
    exists err tool arguments, e = ValidatorRaised err /\ err <> OutOfFuel /\ tool ∈ tools /\
      validate_value_against_json_schema re_compile (JObj (t_input_schema tool)) (JObj arguments) = Err err.

Lemma validate_call_judged payload index n :
    match validate_call_payload re_compile payload (tool_index tools) index n with
    | Ok (inl call) => exists name arguments, judged payload (inr (name, arguments)) /\
        call = {| call_id := call_identifier payload n; call_name := name; call_arguments := arguments |}
    | Ok (inr i) => judged payload (inl (is_code i)) /\ is_candidate_index i = index
    | Err e => validator_raised e
    end.
Proof.
    unfold validate_call_payload. change TOOL_CALL_NAME_KEY with "name". assert (Hno : (forall name,
      dget "name" payload = Some (JStr name) -> strip name = "") -> judged payload (inl Missing_name))
      by (intros H; constructor; by intros name [Hn%H ?]).
    destruct (dget "name" payload) as [[| | | |name| |]|] eqn:Hn; try (split; [by apply Hno|done]).
    destruct (strip name =? "")%string eqn:Hs.
    { apply String.eqb_eq in Hs. split; [|done]. apply Hno. by intros ? [= <-]. }
    apply String.eqb_neq in Hs. clear Hno. assert (Hname : names payload name) by (split; done).
    pose proof (index_declared name) as Hd. destruct (dget name (tool_index tools)) as [tool|];
      [|split; [by eapply judged_unknown|done]].
    change (first_argument ARGUMENT_KEYS payload) with (argument_of payload).
    assert (Hnot : is_object (argument_of payload) = false -> judged payload (inl Arguments_not_object))
      by (intros H; by eapply judged_no_object).
    destruct (argument_of payload) as [| | | | | |arguments] eqn:Ha; try (split; [by apply Hnot|done]). clear Hnot.
    destruct (t_input_schema tool) as [|x schema] eqn:Hschema; cbn [rbind].
    { exists name, arguments. split; [|done]. eapply judged_call; try done. }
    rewrite <- Hschema. pose proof (validator_has_fuel re_compile (JObj (t_input_schema tool)) (JObj arguments)) as Hf.
    destruct (validate_value_against_json_schema _ _ _) as [found|err] eqn:Hv; cbn [rbind].
    - pose proof (verdict_node _ _ _ _ _ _ _ _ Hv) as Hiff. destruct found as [|i found].
      + exists name, arguments. split; [|done]. eapply judged_call; try done. intros _. by apply Hiff.
      + split; [|done]. eapply judged_violation; try done. intros Hfits.
        assert (i :: found = []); [|done]. apply Hiff, Hfits. congruence.
    - exists err, tool, arguments. split_and!; [done|congruence| |done].
      destruct Hd as (before & after & -> & _). set_solver.
Qed.

Lemma validate_calls_outcomes index payloads acc :
    match validate_calls re_compile (tool_index tools) index payloads acc with
    | Ok acc' => exists calls found, acc' = (acc.1 ++ calls, acc.2 ++ found)
        /\ outcomes (map (fun payload => (index, inr payload)) payloads) (length acc.1) calls found
    | Err e => validator_raised e
    end.
Proof.
    revert acc. induction payloads as [|payload payloads IH]; intros acc; cbn [validate_calls map].
    - exists [], []. rewrite !app_nil_r. split; [by destruct acc|constructor].
    - pose proof (validate_call_judged payload index (S (length acc.1))) as Hj.
      destruct (validate_call_payload _ _ _ _ _) as [[call|i]|]; cbn [rbind]; [| |done].
      + destruct Hj as (name & arguments & Hj & Hcall). specialize (IH (acc.1 ++ [call], acc.2)).
        destruct (validate_calls _ _ _ _ _) as [acc'|]; [|done]. destruct IH as (calls & found & -> & IH).
        cbn [fst snd] in *. exists (call :: calls), found. rewrite <- app_assoc. split; [done|]. rewrite Hcall.
        constructor; [done|]. by rewrite length_app, Nat.add_comm in IH.
      + destruct Hj as [Hj Hi]. specialize (IH (acc.1, acc.2 ++ [i])).
        destruct (validate_calls _ _ _ _ _) as [acc'|]; [|done]. destruct IH as (calls & found & -> & IH).
        cbn [fst snd] in *. exists calls, (i :: found). rewrite <- app_assoc. split; [done|]. by constructor.
Qed.

Lemma parse_candidates_outcomes index ds acc :
    match parse_candidates re_compile (tool_index tools) index ds acc with
    | Ok acc' => exists l calls found, slots index ds l /\ acc' = (acc.1 ++ calls, acc.2 ++ found)
        /\ outcomes l (length acc.1) calls found
    | Err e => validator_raised e
    end.
Proof.
    revert index acc. induction ds as [|d ds IH]; intros index acc; cbn [parse_candidates].
    - exists [], [], []. rewrite !app_nil_r. split_and!; [constructor|by destruct acc|constructor].
    - assert (Hissue : forall issue, is_candidate_index issue = index ->
        (forall l, slots (S index) ds l -> slots index (d :: ds) ((index, inl (is_code issue)) :: l)) ->
        match parse_candidates re_compile (tool_index tools) (S index) ds (acc.1, acc.2 ++ [issue]) with
        | Ok acc' => exists l calls found, slots index (d :: ds) l /\ acc' = (acc.1 ++ calls, acc.2 ++ found)
            /\ outcomes l (length acc.1) calls found
        | Err e => validator_raised e
        end).
      { intros issue Hi Hl. specialize (IH (S index) (acc.1, acc.2 ++ [issue])).
        destruct (parse_candidates _ _ _ _ _) as [acc'|]; [|done]. destruct IH as (l & calls & found & Hs & -> & Ho).
        cbn [fst snd] in *. exists ((index, inl (is_code issue)) :: l), calls, (issue :: found). rewrite <- app_assoc.
        split_and!; [by apply Hl|done|by constructor]. }
      destruct d as [payload|e]; cbn [rbind]; [|apply Hissue; [done|intros l; by constructor]].
      pose proof (normalize_spec payload) as Hn. destruct (normalize_candidate_shape payload) as [payloads|m];
        cbn [rbind]; [|apply Hissue; [done|intros l; by constructor]]. clear Hissue.
      pose proof (validate_calls_outcomes index payloads acc) as Hv.
      destruct (validate_calls _ _ _ _ _) as [acc1|]; cbn [rbind]; [|done]. destruct Hv as (c1 & f1 & -> & Ho1).
      specialize (IH (S index) (acc.1 ++ c1, acc.2 ++ f1)).
      destruct (parse_candidates _ _ _ _ _) as [acc'|]; [|done]. destruct IH as (l & calls & found & Hs & -> & Ho).
      cbn [fst snd] in *. eexists _, (c1 ++ calls), (f1 ++ found). rewrite <- !app_assoc.
      split_and!; [by constructor|done|]. rewrite length_app in Ho. by apply outcomes_app.
Qed.
End results.

Section decoding.
Context (json_loads : pystr -> load_outcome) (raw_decode : pystr -> raw_outcome) (py_str : json -> string).
Context (limit : nat).

  (** What a native call and a text of JSON decode to. *)
Definition native_decoded (call : pystr * pystr) (d : decoded) : Prop :=
    match parse_native_arguments json_loads raw_decode py_str limit call.2 with
    | Ok v => d = inl (JObj [("name", JStr (str_of call.1)); ("arguments", v)])
    | Err e => value_error e = true /\ d = inr (UnparseableArguments (str_of call.1) e)
    end.

Definition json_decoded (text : pystr) (d : decoded) : Prop :=
    match json_loads text with
    | Loaded v => d = inl v
    | NotJson message line column => d = inr (NotValidJson message line column)
    | LoadRaised _ => False
    end.

Definition native_raised (calls : list (pystr * pystr)) (e : native_error) : Prop :=
    value_error e = false /\
    exists call, call ∈ calls /\ parse_native_arguments json_loads raw_decode py_str limit call.2 = Err e.

Lemma decode_native_spec matches :
    match decode_native json_loads raw_decode py_str limit matches with
    | Ok ds => Forall2 native_decoded (map fst matches) ds
    | Err e => exists err, e = NativeRaised err /\ native_raised (map fst matches) err
    end.
Proof.
    induction matches as [|[[name arguments] sp] ms IH]; [constructor|]. cbn [decode_native map fst].
    assert (Hmore : forall d, native_decoded (name, arguments) d ->
      match (let? ds := decode_native json_loads raw_decode py_str limit ms in Ok (d :: ds)) with
      | Ok ds => Forall2 native_decoded ((name, arguments) :: map fst ms) ds
      | Err e => exists err, e = NativeRaised err /\ native_raised ((name, arguments) :: map fst ms) err
      end).
    { intros d Hd. destruct (decode_native _ _ _ _ _) as [ds|e]; cbn [rbind]; [by constructor|].
      destruct IH as (err & -> & Hv & call & Hin & He). exists err. split; [done|]. split; [done|].
      exists call. split; [by right|done]. }
    unfold native_decoded in Hmore at 1. cbn [fst snd] in Hmore.
    destruct (parse_native_arguments _ _ _ _ _) as [v|e] eqn:Hp; cbn [rbind]; [by apply Hmore|].
    destruct (value_error e) eqn:Hv; cbn [rbind]; [by apply Hmore|].
    exists e. split; [done|]. split; [done|]. exists (name, arguments). split; [by left|done].
Qed.

Lemma decode_all_spec texts :
    match decode_all json_loads texts with
    | Ok ds => Forall2 json_decoded texts ds
    | Err e => exists b text, e = LoadsRaised b /\ text ∈ texts /\ json_loads text = LoadRaised b
    end.
Proof.
    induction texts as [|text texts IH]; [constructor|]. cbn [decode_all]. unfold decode_json_candidate.
    destruct (json_loads text) as [v|message line column|b] eqn:Hl; cbn [rbind].
    3: { exists b, text. split_and!; [done|by left|done]. }
    1,2: destruct (decode_all _ _) as [ds|e]; cbn [rbind];
      [constructor; [unfold json_decoded; by rewrite Hl|done]
      |destruct IH as (b & t & -> & Hin & Ht); exists b, t; split_and!; [done|by right|done]].
Qed.
End decoding.

(** ** Rendered calls *)

(** A text in a fenced block. *)
Definition fenced (t : pystr) : pystr := FENCE ++ pystr_of "json" ++ [10%N] ++ t ++ [10%N] ++ FENCE.

Lemma newline_needed s : 10%N ∉ s -> fence_match s = None.
Proof.
  intros Hn. unfold fence_match. destruct (starts_with FENCE s) eqn:Ho; [|done].
  apply starts_with_spec in Ho as [t ->]. rewrite drop_app_length.
  destruct (span language_char t) as [language s1] eqn:H1. apply span_app in H1 as (-> & _).
  destruct (span blank_char s1) as [blanks s2] eqn:H2. apply span_app in H2 as (-> & _).
  destruct (newline_match s2) as [r|] eqn:Hr; [|done]. exfalso. apply Hn.
  rewrite !elem_of_app. right. right. right. revert Hr. unfold newline_match. clear.
  destruct s2 as [|[|p] s2]; [done..|].
  intros Hr. repeat (destruct p as [p|p|]; try done); simpl in Hr; [|by left].
  destruct s2 as [|[|q] s2]; [done..|]. repeat (destruct q as [q|q|]; try done). right. by left.
Qed.

(** The fence that closes a block is the first one after its text. *)
Lemma closing_fence t : find FENCE t = None -> find FENCE (t ++ 10%N :: FENCE) = Some (S (length t)).
Proof.
  intros Hf. rewrite (find_skip _ _ (S (length t))).
  - replace (drop (S (length t)) (t ++ 10%N :: FENCE)) with FENCE; [cbn; by rewrite Nat.add_0_r|].
    rewrite (cons_middle 10%N t FENCE), app_assoc. replace (S (length t)) with (length (t ++ [10%N])).
    + by rewrite drop_app_length.
    + rewrite length_app. simpl. lia.
  - intros i Hi. apply not_true_is_false. intros Hs. rewrite drop_app_le in Hs by lia.
    pose proof (starts_with_split _ _ _ Hs) as [H|[Hl H]].
    + by rewrite (find_None _ _ i Hf) in H.
    + apply starts_with_spec in H as [u Hu], Hs as [x Hx]. set (q := drop i t) in *.
      rewrite Hu, <- app_assoc in Hx. apply app_inv_head in Hx.
      destruct u as [|c u]; [apply (f_equal length) in Hu; rewrite app_nil_r in Hu; lia|].
      injection Hx as <- _. assert (Hin : 10%N ∈ FENCE) by (rewrite Hu; set_solver).
      apply (bool_decide_eq_true_2 _) in Hin. by vm_compute in Hin.
  - rewrite length_app. simpl. lia.
Qed.

Lemma fence_match_fenced t :
  find FENCE t = None ->
  fence_match (fenced t) = Some ((pystr_of "json", t ++ [10%N]), length (fenced t)).
Proof.
  intros Hf. unfold fence_match, fenced. rewrite starts_with_app, drop_app_length.
  rewrite (span_of language_char (pystr_of "json") ([10%N] ++ t ++ [10%N] ++ FENCE)) by done.
  change ([10%N] ++ t ++ [10%N] ++ FENCE) with (10%N :: t ++ 10%N :: FENCE).
  cbn [span blank_char N.eqb Pos.eqb orb newline_match]. rewrite closing_fence by done.
  rewrite (cons_middle 10%N t FENCE), app_assoc.
  replace (S (length t)) with (length (t ++ [10%N])) by (rewrite length_app; simpl; lia).
  rewrite take_app_length, drop_ge; [|rewrite !length_app; simpl; lia]. by rewrite Nat.sub_0_r.
Qed.

Lemma strip_braces b w : blank w -> text_strip (OPEN_BRACE :: b ++ [CLOSE_BRACE] ++ w) = OPEN_BRACE :: b ++ [CLOSE_BRACE].
Proof.
  intros Hw. unfold text_strip. rewrite (lstrip_id (OPEN_BRACE :: _)) by done.
  cbn [rev]. rewrite !rev_app_distr, <- !app_assoc.
  rewrite lstrip_blank; [|unfold blank in *; rewrite forallb_forall in *; intros x Hx; by apply Hw, in_rev].
  rewrite lstrip_id by done. rewrite !rev_app_distr, rev_involutive. done.
Qed.

Lemma mentions_spec u marker v : mentions_marker (u ++ pystr_of (quoted marker) ++ v) marker = true.
Proof.
  unfold mentions_marker. destruct (find _ _) eqn:Hf; [done|].
  pose proof (find_None _ _ (length u) Hf) as Hn. rewrite drop_app_length, starts_with_app in Hn. done.
Qed.

Section rendering.
Context (json_loads : pystr -> load_outcome) (json_dumps : json -> pystr).

(** What dumping a batch of calls and loading the text again is relied on for: one
    line of text between braces, with the key in quotes, that loads to the same. *)
Record writes_batch (v : json) : Prop := {
  wr_loads : json_loads (json_dumps v) = Loaded v;
  wr_one_line : 10%N ∉ json_dumps v;
  wr_shape : exists b,
    json_dumps v = OPEN_BRACE :: (pystr_of (quoted TOOL_CALL_BATCH_KEY) ++ b) ++ [CLOSE_BRACE]
}.

Lemma batch_looks_right v :
  writes_batch v -> text_strip (json_dumps v) = json_dumps v
    /\ text_strip (json_dumps v ++ [10%N]) = json_dumps v /\ looks_like_tool_call_json (json_dumps v) = true.
Proof.
  intros [_ _ [b ->]]. split_and!.
  - rewrite <- (app_nil_r [CLOSE_BRACE]) at 1. by apply strip_braces.
  - set (x := pystr_of _ ++ b). clearbody x. rewrite <- app_comm_cons, <- app_assoc. by apply strip_braces.
  - unfold looks_like_tool_call_json. rewrite !andb_true_iff. split_and!; [done| |].
    + rewrite app_comm_cons. apply ends_with_app.
    + cbn [existsb TOOL_CALL_MARKER_KEYS].
      pose proof (mentions_spec [OPEN_BRACE] TOOL_CALL_BATCH_KEY (b ++ [CLOSE_BRACE])) as H.
      rewrite <- app_assoc. change (OPEN_BRACE :: pystr_of (quoted TOOL_CALL_BATCH_KEY) ++ b ++ [CLOSE_BRACE])
        with ([OPEN_BRACE] ++ pystr_of (quoted TOOL_CALL_BATCH_KEY) ++ b ++ [CLOSE_BRACE]).
      unfold TOOL_CALL_MARKER_KEYS. cbn [existsb]. rewrite H. by rewrite orb_true_r.
Qed.

(** The batch is the one candidate, bare or fenced. *)
Lemma batch_extracted v text :
  writes_batch v -> find FENCE (json_dumps v) = None ->
  text = json_dumps v \/ text = fenced (json_dumps v) ->
  extract_candidates text = ([json_dumps v], []).
Proof.
  intros Hw Hf Ht. destruct (batch_looks_right v Hw) as (Hs & Hsn & Hl).
  destruct Ht as [-> | ->]; unfold extract_candidates.
  - rewrite find_iter_none; [by cbn [json_fences map]; rewrite Hs, Hl|].
    intros i _. apply newline_needed. intros Hin. destruct Hw as [_ Hn _]. apply Hn.
    rewrite <- (take_drop i (json_dumps v)). apply elem_of_app. by right.
  - pose proof (fence_match_fenced _ Hf) as Hm. set (t := json_dumps v) in *.
    assert (Hfm : find_iter fence_match 0 0 (fenced t) = [((pystr_of "json", t ++ [10%N]), (0, length (fenced t)))]).
    { unfold fenced in *. set (s := pystr_of "json" ++ _) in *. clearbody s. cbn [app] in *. cbn [find_iter].
      change (FENCE ++ s) with (96%N :: [96%N; 96%N] ++ s) in *. cbn [find_iter]. rewrite Hm, find_iter_skip.
      by rewrite drop_ge by (simpl; lia). }
    rewrite Hfm. cbn [json_fences]. rewrite Hsn.
    assert (Hj : map fold_char (pystr_of "json") = pystr_of "json") by done. rewrite Hj, bool_decide_true by done.
    cbn [negb andb map fst snd]. rewrite andb_false_r. cbn [map fst snd]. f_equal.
    unfold remove_spans. cbn. unfold slice. simpl. rewrite drop_ge by lia. done.
Qed.
End rendering.

(** An OpenAI entry of an earlier turn, and the call it stands for: arguments are an
    object, or a text that decodes to one. *)
Record prior_entry (json_loads : pystr -> load_outcome) (entry : list (string * json)) (m : parsed_tool_call)
    : Prop := {
  pe_id : dget "id" entry = Some (JStr (call_id m)) /\ call_id m <> "";
  pe_function : exists function a,
    dget "function" entry = Some (JObj function) /\ dget "name" function = Some (JStr (call_name m)) /\
    dget "arguments" function = Some a /\
    (a = JObj (call_arguments m) \/
     exists s, a = JStr s /\ json_loads (pystr_of s) = Loaded (JObj (call_arguments m)))
}.

Definition made_payload (m : parsed_tool_call) : list (string * json) :=
  [("id", JStr (call_id m)); (TOOL_CALL_NAME_KEY, JStr (call_name m)); (ARGUMENTS_KEY, JObj (call_arguments m))].

Definition batch_of (made : list parsed_tool_call) : json :=
  JObj [(TOOL_CALL_BATCH_KEY, JArr (map (fun m => JObj (made_payload m)) made))].

Definition as_accepted (m : parsed_tool_call) : accepted_call :=
  {| ac_payload := made_payload m; ac_name := call_name m; ac_arguments := call_arguments m |}.

Lemma rendered_entry json_loads entry m :
  prior_entry json_loads entry m -> rendered_call json_loads entry = Ok (JObj (made_payload m)).
Proof.
  intros [[Hid _] (function & a & Hf & Hn & Ha & Hargs)]. unfold rendered_call, function_of, get_or_none.
  rewrite Hid, Hf. assert (Ht : json_truthy (JObj function) = true) by (by destruct function).
  unfold id. cbn [from_option]. rewrite Ht. cbn [rbind]. rewrite Hn, Ha. cbn [from_option].
  destruct Hargs as [-> | (s & -> & Hs)]; cbn [decoded_arguments]; [done|]. by rewrite Hs.
Qed.

Lemma rendered_entries json_loads calls made :
  Forall2 (prior_entry json_loads) calls made ->
  map_calls (rendered_call json_loads) calls = Ok (map (fun m => JObj (made_payload m)) made).
Proof.
  induction 1 as [|entry m calls made Hm _ IH]; [done|]. cbn [map_calls map].
  rewrite (rendered_entry _ _ _ Hm). cbn [rbind]. by rewrite IH.
Qed.

Lemma batch_holds made : made <> [] -> holds_calls (inl (batch_of made)) (map as_accepted made).
Proof.
  intros Hne. eexists. split; [done|]. unfold batch_of. cbn [normalize_candidate_shape].
  unfold dget. simpl. destruct made as [|m made]; [done|]. cbn [map].
  assert (Ho : existsb (fun item => negb (is_object item)) (map (fun m => JObj (made_payload m)) made) = false)
    by (clear; by induction made).
  rewrite Ho. simpl. do 2 f_equal. clear. induction made as [|m made IH]; [done|]. simpl. by rewrite IH.
Qed.

Lemma made_identifier m n : call_id m <> "" -> reported n (as_accepted m) = m.
Proof.
  intros Hid. unfold reported, call_identifier, as_accepted, made_payload. cbn.
  unfold dget. simpl. rewrite (proj2 (String.eqb_neq _ _) Hid). by destruct m.
Qed.

Lemma numbered_made n made :
  Forall (fun m => call_id m <> "") made -> numbered n (map as_accepted made) = made.
Proof.
  intros H. revert n. induction H as [|m made Hm _ IH]; intros n; [done|]. cbn [map numbered].
  by rewrite made_identifier, IH.
Qed.

Lemma made_accepted re_compile tools m :
  accepts re_compile tools (call_name m) (call_arguments m) -> is_accepted re_compile tools (as_accepted m).
Proof. intros H. split_and!; [done..|exact H]. Qed.

Lemma no_native_calls json_loads raw_decode py_str limit text :
  find NATIVE_OPEN text = None ->
  extract_native_candidates json_loads raw_decode py_str limit text = Ok ([], text).
Proof.
  intros Hf. unfold extract_native_candidates. rewrite find_iter_none; [done|].
  intros i Hi. rewrite <- (app_nil_r text). apply no_call_in_plain; auto.
Qed.

Definition spelled_accepted (c : spelled_call) : accepted_call :=
  {| ac_payload := spelled_payload c; ac_name := str_of (sc_name c); ac_arguments := sc_value c |}.

Lemma concat_singletons {A B} (f : A -> B) (l : list A) : concat (map (fun x => [f x]) l) = map f l.
Proof. induction l as [|x l IH]; [done|]. simpl. by rewrite IH. Qed.

(** Native calls have no identifiers of their own: they are numbered. *)
Lemma numbered_spelled (calls : list (spelled_call * pystr)) :
  numbered 0 (map (fun cp => spelled_accepted cp.1) calls)
  = imap (fun i cp => {| call_id := "call_" +:+ pretty (Z.of_nat (S i));
                         call_name := str_of (sc_name cp.1); call_arguments := sc_value cp.1 |}) calls.
Proof.
  assert (H : forall n, numbered n (map (fun cp : spelled_call * pystr => spelled_accepted cp.1) calls)
    = imap (fun i cp => {| call_id := "call_" +:+ pretty (Z.of_nat (S (n + i)));
                           call_name := str_of (sc_name cp.1); call_arguments := sc_value cp.1 |}) calls);
    [|apply H].
  induction calls as [|cp l IH]; intros n; [done|]. cbn [map numbered imap].
  rewrite Nat.add_0_r, IH. f_equal. apply imap_ext. intros i x _. simpl. by rewrite Nat.add_succ_r.
Qed.

(** ** Properties *)

(** Native calls are parsed: of plain text with native calls in it, each a
    declared name and arguments that denote an object its tool's schema accepts,
    the result reports exactly these calls, in order and numbered, without issues,
    and the text that remains is the plain text.  Whitespace may stand wherever
    the notation allows it. *)
Theorem native_calls_are_parsed re_compile json_loads raw_decode py_str limit tools p calls :
  decodes_literals raw_decode -> calls <> [] ->
  find NATIVE_OPEN p = None ->
  Forall (fun cp => readable json_loads raw_decode py_str limit cp.1 /\ find NATIVE_OPEN cp.2 = None
                    /\ accepts re_compile tools (str_of (sc_name cp.1)) (sc_value cp.1)) calls ->
  find FENCE (p ++ concat (map snd calls)) = None ->
  looks_like_tool_call_json (text_strip (p ++ concat (map snd calls))) = false ->
  parse_tool_calls re_compile json_loads raw_decode py_str limit (output_of p calls) tools
  = Ok {| status := Parsed;
          tool_calls := imap (fun i cp => {| call_id := "call_" +:+ pretty (Z.of_nat (S i));
                                             call_name := str_of (sc_name cp.1);
                                             call_arguments := sc_value cp.1 |}) calls;
          issues := [];
          remaining_text := text_strip (p ++ concat (map snd calls));
          parallel := 1 <? length calls |}.
Proof.
  intros Hraw Hne Hp Hcalls Hfence Hlooks. unfold parse_tool_calls.
  rewrite (extract_spelled _ _ _ _ Hraw) by (done || (eapply Forall_impl; [exact Hcalls|]; naive_solver)).
  cbn [rbind]. rewrite extract_candidates_none; [|intros i _; by apply fence_at, find_None|done].
  cbn [decode_all rbind]. rewrite app_nil_r.
  rewrite (result_accepted re_compile tools _ _ _ (map (fun cp => [spelled_accepted cp.1]) calls)).
  - rewrite concat_singletons, numbered_spelled, length_map. done.
  - rewrite map_map. clear. induction calls as [|cp calls IH]; [constructor|]. constructor; [|done].
    eexists. by split.
  - rewrite concat_singletons. apply Forall_fmap. eapply Forall_impl; [exact Hcalls|].
    intros cp (_ & _ & Ha). by split_and!.
  - rewrite concat_singletons. by destruct calls.
Qed.

(** Both halves of the contract agree: the calls of an earlier turn, rendered by
    [render_prior_tool_calls] for the model to see, are what [parse_tool_calls]
    reads when the model writes the same text back, bare or in a fenced block: the
    same identifiers, names and arguments in order, no issue, nothing remaining.
    The text must not contain the opening mark of native calls. *)
Theorem prior_calls_round_trip re_compile json_loads json_dumps raw_decode py_str limit tools calls made text :
  Forall2 (prior_entry json_loads) calls made -> made <> [] ->
  Forall (fun m => accepts re_compile tools (call_name m) (call_arguments m)) made ->
  writes_batch json_loads json_dumps (batch_of made) ->
  find FENCE (json_dumps (batch_of made)) = None ->
  render_prior_tool_calls json_loads json_dumps calls = Ok (json_dumps (batch_of made)) /\
  (text = json_dumps (batch_of made) \/ text = fenced (json_dumps (batch_of made)) ->
   find NATIVE_OPEN text = None ->
   parse_tool_calls re_compile json_loads raw_decode py_str limit text tools
   = Ok {| status := Parsed; tool_calls := made; issues := []; remaining_text := [];
           parallel := 1 <? length made |}).
Proof.
  intros Hc Hne Ha Hw Hf. split.
  { unfold render_prior_tool_calls. by rewrite (rendered_entries _ _ _ Hc). }
  intros Ht Ho. unfold parse_tool_calls. rewrite no_native_calls by done. cbn [rbind].
  rewrite (batch_extracted json_loads json_dumps (batch_of made)) by done.
  cbn [decode_all]. unfold decode_json_candidate. rewrite (wr_loads _ _ _ Hw). cbn [rbind app].
  rewrite (result_accepted re_compile tools _ _ _ [map as_accepted made]); cbn [concat]; rewrite ?app_nil_r.
  - rewrite numbered_made, length_map; [done|].
    clear -Hc. induction Hc as [|entry m ? ? Hm]; constructor; [apply Hm|done].
  - constructor; [by apply batch_holds|constructor].
  - apply Forall_fmap. eapply Forall_impl; [exact Ha|]. intros m. apply made_accepted.
  - by destruct made.
Qed.

(** C36. Results are complete and right: the candidates are those of the text
    ([extracted]: every native call, then every JSON block, or else the rest of
    the text when it looks like a call), all of them and in order; each is decoded,
    and every call object it holds, in any shape of the contract and every entry of
    a batch, becomes one call or one issue, in order.  It is a call exactly when
    its name is not blank and declared and its arguments are an object that
    conforms to the tool's schema under the reference semantics; otherwise the
    issue has the code of what is wrong and the number of the candidate.  Status,
    parallel flag and remaining text say what there is.  Nothing is raised but what
    [json.loads] raises that is no [JSONDecodeError], what the arguments of a native
    call raise that is no [ValueError], and what the schema validator raises. *)
Theorem tool_calls_validated re_compile json_loads raw_decode py_str limit tools text :
  exists natives texts remaining, extracted text natives texts remaining /\
  match parse_tool_calls re_compile json_loads raw_decode py_str limit text tools with
  | Ok r =>
      exists native_candidates json_candidates l,
        Forall2 (native_decoded json_loads raw_decode py_str limit) natives native_candidates /\
        Forall2 (json_decoded json_loads) texts json_candidates /\
        slots 0 (native_candidates ++ json_candidates) l /\
        outcomes re_compile tools l 0 (tool_calls r) (issues r) /\
        (l = [] -> remaining_text r = text) /\ (l <> [] -> remaining_text r = remaining) /\
        (status r = No_tool_calls <-> l = []) /\
        (status r = Parsed <-> tool_calls r <> [] /\ issues r = []) /\
        (status r = Partial <-> tool_calls r <> [] /\ issues r <> []) /\
        (status r = Failed <-> tool_calls r = [] /\ issues r <> []) /\
        parallel r = (1 <? length (tool_calls r))
  | Err (LoadsRaised b) => exists t, t ∈ texts /\ json_loads t = LoadRaised b
  | Err (NativeRaised e) => native_raised json_loads raw_decode py_str limit natives e
  | Err e => validator_raised re_compile tools e
  end.
Proof.
  eexists _, _, _. split; [apply text_extracted|]. unfold parse_tool_calls, extract_native_candidates.
  pose proof (decode_native_spec json_loads raw_decode py_str limit (find_iter native_match 0 0 text)) as Hn.
  destruct (decode_native _ _ _ _ _) as [natives|e]; cbn [rbind]; [|by destruct Hn as (err & -> & ?)].
  destruct (extract_candidates (remove_spans text _)) as [texts remaining]. cbn [fst snd].
  pose proof (decode_all_spec json_loads texts) as Ht.
  destruct (decode_all _ _) as [ds|e]; cbn [rbind]; [|destruct Ht as (b & t & -> & ?); by exists t].
  unfold result_of. pose proof (parse_candidates_outcomes re_compile tools 0 (natives ++ ds) ([], [])) as Hp.
  destruct (natives ++ ds) as [|d l] eqn:Hl.
  - exists natives, ds, []. rewrite Hl. cbn. split_and!; try done; try naive_solver; constructor.
  - rewrite <- Hl in *. destruct (parse_candidates _ _ _ _ _) as [acc|e]; cbn [rbind].
    2: { destruct Hp as (err & tool & arguments & -> & H). by exists err, tool, arguments. }
    destruct Hp as (sl & calls & found & Hs & -> & Ho). cbn [fst snd app length] in *.
    exists natives, ds, sl. pose proof (slots_empty _ _ _ Hs) as He. pose proof (outcomes_length _ _ _ _ _ _ Ho) as Hlen.
    assert (Hsl : sl <> []) by (rewrite He, Hl; done).
    cbn [status tool_calls issues parallel remaining_text].
    split_and!; try done; destruct calls, found, sl; simpl in *; try lia; naive_solver.
Qed.

(** A native call is executed wherever it stands: text that a model merely
    quotes, for instance in a string argument of a JSON call, is reported as the
    first call, although the candidate it was quoted in is a call by itself (from
    which it is then cut out). *)
Theorem quoted_call_is_executed re_compile json_loads raw_decode py_str limit tools before c after r :
  decodes_literals raw_decode -> find NATIVE_OPEN before = None ->
  readable json_loads raw_decode py_str limit c ->
  accepts re_compile tools (str_of (sc_name c)) (sc_value c) ->
  parse_tool_calls re_compile json_loads raw_decode py_str limit (before ++ spelled_text c ++ after) tools = Ok r ->
  hd_error (tool_calls r) = Some {| call_id := "call_1"; call_name := str_of (sc_name c); call_arguments := sc_value c |}.
Proof.
  intros Hraw Hb [Hc Hlen] Ha H. unfold parse_tool_calls, extract_native_candidates in H.
  assert (Hplain : forall i, i < length before -> native_match (drop i (before ++ spelled_text c ++ after)) = None).
  { intros i Hi. apply no_call_in_plain; [done| |done]. right. unfold spelled_text. rewrite <- !app_assoc.
    apply starts_with_app. }
  rewrite (find_iter_plain _ _ _ _ Hplain) in H.
  rewrite (find_iter_match _ _ _ _ _ native_matches (native_match_spelled _ _ _ c after Hc)) in H.
  cbn [decode_native] in H.
  rewrite (native_text_parsed json_loads raw_decode py_str limit (JObj (sc_value c)) (sc_arguments c)) in H; [|done|done|].
  2: { exists [], (sc_arguments c), []. rewrite app_nil_r. split_and!; [done..|apply Hc]. }
  cbn [rbind] in H. destruct (decode_native _ _ _ _ _) as [more|]; [|done]. cbn [rbind] in H.
  destruct (extract_candidates _) as [texts remaining]. apply rbind_Ok in H as (ds & _ & H).
  cbn [app result_of] in H. apply rbind_Ok in H as ([calls found] & Hp & H). injection H as <-. cbn [tool_calls].
  cbn [parse_candidates] in Hp. apply rbind_Ok in Hp as (acc & Hacc & Hp).
  change (normalize_candidate_shape (JObj [(TOOL_CALL_NAME_KEY, JStr (str_of (sc_name c))); (ARGUMENTS_KEY, JObj (sc_value c))]))
    with (inl [spelled_payload c] : list (list (string * json)) + string) in Hacc.
  pose proof (validate_calls_accepted re_compile tools 0 [ {| ac_payload := spelled_payload c;
    ac_name := str_of (sc_name c); ac_arguments := sc_value c |} ] ([], [])) as Hv.
  cbn [map ac_payload] in Hv. cbv beta iota in Hacc. rewrite Hv in Hacc by (apply Forall_singleton; by split_and!). injection Hacc as <-.
  match type of Hp with parse_candidates _ ?index 1 ?rest ?acc = _ =>
    pose proof (parse_candidates_outcomes re_compile tools 1 rest acc) as Ho end.
  rewrite Hp in Ho. by destruct Ho as (l & cs & fs & _ & [= -> _] & _).
Qed.

(** ** Instances *)

(** What the parser of arguments accepts is well spelled. *)
Lemma readable_by_parsing json_loads raw_decode py_str limit c :
  decodes_literals raw_decode ->
  parse_value json_loads raw_decode py_str limit (sc_arguments c) = Ok (JObj (sc_value c), []) ->
  blank (sc_gaps c).1.1 /\ blank (sc_gaps c).1.2 /\ blank (sc_gaps c).2 ->
  nonempty (sc_name c) && forallb name_char (sc_name c) && starts_with [OPEN_BRACE] (sc_arguments c) = true ->
  find NATIVE_CLOSE (sc_arguments c) = None -> length (sc_arguments c) < limit ->
  readable json_loads raw_decode py_str limit c.
Proof.
  intros Hraw Hp Hg [[Hn Hf]%andb_true_iff Hb]%andb_true_iff Hc Hl. split; [|done]. split; try done.
  - split; [|done]. by destruct (sc_name c).
  - apply parse_value_sound in Hp as (w & t & Ht & Hw & Hd); [|done]. rewrite app_nil_r in Ht.
    destruct w as [|d w]; [by rewrite Ht|]. exfalso. rewrite Ht in Hb. apply starts_with_one in Hb as [u Hu].
    injection Hu as -> _. done.
Qed.

(** Dumping without escapes, and loading what one of some values was dumped to. *)
Fixpoint plain_dumps (v : json) : pystr :=
  match v with
  | JStr s => pystr_of (quoted s)
  | JInt n => pystr_of (pretty n)
  | JArr items => pystr_of "[" ++ join [COMMA] (map plain_dumps items) ++ pystr_of "]"
  | JObj members =>
      [OPEN_BRACE] ++ join [COMMA] (map (fun m => pystr_of (quoted m.1) ++ [COLON] ++ plain_dumps m.2) members)
      ++ [CLOSE_BRACE]
  | _ => pystr_of "null"
  end.

Fixpoint loads_one_of (vs : list json) (t : pystr) : load_outcome :=
  match vs with
  | [] => plain_loads t
  | v :: vs' => if bool_decide (plain_dumps v = t) then Loaded v else loads_one_of vs' t
  end.

Definition weather_schema : list (string * json) :=
  [("type", JStr "object"); ("required", JArr [JStr "city"]);
   ("properties", JObj [("city", JObj [("type", JStr "string")]); ("days", JObj [("minimum", JInt 1)])])].

Definition sample_tools : list tool_definition :=
  [ {| t_name := "weather"; t_description := None; t_input_schema := weather_schema |};
    {| t_name := "ping"; t_description := Some "no arguments"; t_input_schema := [] |} ].

Definition weather_call : spelled_call :=
  {| sc_name := pystr_of "weather";
     sc_arguments := pystr_of "{city: <|" ++ [QUOTE] ++ pystr_of "|>Paris<|" ++ [QUOTE] ++ pystr_of "|>, days: 3}";
     sc_gaps := ([10%N], [32%N], []);
     sc_value := [("city", JStr "Paris"); ("days", JInt 3)] |}.

Definition ping_call : spelled_call :=
  {| sc_name := pystr_of "ping"; sc_arguments := pystr_of "{}"; sc_gaps := ([], [], [32%N]); sc_value := [] |}.

Lemma sample_readable :
  readable plain_loads plain_decode plain_str 100 weather_call /\
  readable plain_loads plain_decode plain_str 100 ping_call.
Proof.
  split; apply readable_by_parsing;
    [apply plain_decodes|by vm_compute|by vm_compute|by vm_compute|by vm_compute|vm_compute; lia
    |apply plain_decodes|by vm_compute|by vm_compute|by vm_compute|by vm_compute|vm_compute; lia].
Qed.

Lemma sample_accepts :
  accepts substring_re sample_tools "weather" [("city", JStr "Paris"); ("days", JInt 3)] /\
  accepts substring_re sample_tools "ping" [].
Proof.
  split; (split; [by vm_compute|]); eexists; (split; [by vm_compute|]); [right|left]; by vm_compute.
Qed.

Lemma native_calls_are_parsed_witness :
  exists r, parse_tool_calls substring_re plain_loads plain_decode plain_str 100
      (output_of (pystr_of "Checking. ") [(weather_call, pystr_of " and "); (ping_call, [])]) sample_tools = Ok r
    /\ map call_name (tool_calls r) = ["weather"; "ping"] /\ map call_id (tool_calls r) = ["call_1"; "call_2"]
    /\ remaining_text r = pystr_of "Checking.  and".
Proof.
  destruct sample_accepts as [H1 H2], sample_readable as [R1 R2].
  eexists. split; [apply (native_calls_are_parsed substring_re plain_loads plain_decode plain_str 100 sample_tools)|].
  - apply plain_decodes.
  - done.
  - by vm_compute.
  - apply Forall_cons. split; [|apply Forall_singleton]; (split; [done|]; split; [by vm_compute|done]).
  - by vm_compute.
  - by vm_compute.
  - split_and!; by vm_compute.
Defined.

(** The same two calls as OpenAI entries, one with its arguments as text. *)
Definition made_calls : list parsed_tool_call :=
  [ {| call_id := "a1"; call_name := "weather"; call_arguments := [("city", JStr "Paris"); ("days", JInt 3)] |};
    {| call_id := "a2"; call_name := "ping"; call_arguments := [] |} ].

Definition made_entries : list (list (string * json)) :=
  [ [("id", JStr "a1"); ("type", JStr "function");
     ("function", JObj [("name", JStr "weather"); ("arguments", JObj [("city", JStr "Paris"); ("days", JInt 3)])])];
    [("id", JStr "a2"); ("function", JObj [("name", JStr "ping"); ("arguments", JStr "{}")])] ].

Definition batch_loads : pystr -> load_outcome := loads_one_of [batch_of made_calls; JObj []].

Lemma made_entries_spec : Forall2 (prior_entry batch_loads) made_entries made_calls.
Proof.
  repeat apply Forall2_cons_2; [| |apply Forall2_nil_2]; (split; [done|]); do 2 eexists;
    (split; [reflexivity|]; split; [reflexivity|]; split; [reflexivity|]).
  - by left.
  - right. exists "{}". split; [done|by vm_compute].
Qed.

Lemma prior_calls_round_trip_witness :
  exists t, render_prior_tool_calls batch_loads plain_dumps made_entries = Ok t /\
    parse_tool_calls substring_re batch_loads plain_decode plain_str 100 (fenced t) sample_tools
    = Ok {| status := Parsed; tool_calls := made_calls; issues := []; remaining_text := []; parallel := true |}.
Proof.
  destruct sample_accepts as [H1 H2].
  destruct (prior_calls_round_trip substring_re batch_loads plain_dumps plain_decode plain_str 100 sample_tools
    made_entries made_calls (fenced (plain_dumps (batch_of made_calls)))) as [Hr Hp].
  - apply made_entries_spec.
  - done.
  - apply Forall_cons. split; [done|]. by apply Forall_singleton.
  - split; [by vm_compute| |].
    + intros Hin. apply (bool_decide_eq_true_2 _) in Hin. by vm_compute in Hin.
    + exists (drop (length (pystr_of (quoted TOOL_CALL_BATCH_KEY)) + 1)
        (take (length (plain_dumps (batch_of made_calls)) - 1) (plain_dumps (batch_of made_calls)))). by vm_compute.
  - by vm_compute.
  - eexists. split; [exact Hr|]. apply Hp; [by right|by vm_compute].
Defined.

(** A JSON call whose argument quotes a native call. *)
Definition quoting : pystr * pystr :=
  (pystr_of "{" ++ pystr_of (quoted "name") ++ pystr_of ":" ++ pystr_of (quoted "weather") ++ pystr_of ","
     ++ pystr_of (quoted "input") ++ pystr_of ":{" ++ pystr_of (quoted "city") ++ pystr_of ":" ++ [QUOTE],
   [QUOTE] ++ pystr_of "}}").

Definition quoting_loads : pystr -> load_outcome :=
  loads_one_of [JObj [("name", JStr "weather"); ("input", JObj [("city", JStr "")])]].

Lemma quoted_call_is_executed_witness :
  exists r, parse_tool_calls substring_re quoting_loads plain_decode plain_str 100
      (quoting.1 ++ spelled_text ping_call ++ quoting.2) sample_tools = Ok r
    /\ hd_error (tool_calls r) = Some {| call_id := "call_1"; call_name := "ping"; call_arguments := [] |}
    /\ map call_arguments (tool_calls r) = [[]; [("city", JStr "")]] /\ parallel r = true.
Proof.
  eexists. split; [by vm_compute|]. split; [|split; by vm_compute].
  apply (quoted_call_is_executed substring_re quoting_loads plain_decode plain_str 100 sample_tools quoting.1
    ping_call quoting.2).
  - apply plain_decodes.
  - by vm_compute.
  - apply readable_by_parsing;
      [apply plain_decodes|by vm_compute|by vm_compute|by vm_compute|by vm_compute|vm_compute; lia].
  - apply sample_accepts.
  - by vm_compute.
Defined.

(** One call with arguments its schema refuses, one of a tool nobody declared. *)
Definition mixed_batch : json :=
  JObj [("tool_calls", JArr [JObj [("name", JStr "ping")];
                             JObj [("name", JStr "weather"); ("arguments", JObj [("days", JInt 0)])];
                             JObj [("name", JStr "shell"); ("input", JObj [])]])].

(** A native call, words, and a fenced batch: every candidate counts. *)
Definition mixed_text : pystr :=
  spelled_text ping_call ++ pystr_of " then " ++ fenced (plain_dumps mixed_batch).

Lemma tool_calls_validated_witness :
  exists natives texts r,
    parse_tool_calls substring_re (loads_one_of [mixed_batch]) plain_decode plain_str 100 mixed_text sample_tools = Ok r
    /\ extracted mixed_text natives texts (remaining_text r)
    /\ map (fun c => (call_id c, call_name c)) (tool_calls r) = [("call_1", "ping"); ("call_2", "ping")]
    /\ map (fun i => (is_code i, is_candidate_index i)) (issues r) = [(Schema_violation, 1); (Unknown_tool, 1)]
    /\ parallel r = (1 <? length (tool_calls r)).
Proof.
  destruct (tool_calls_validated substring_re (loads_one_of [mixed_batch]) plain_decode plain_str 100 sample_tools
    mixed_text) as (natives & texts & remaining & He & Hr).
  destruct (parse_tool_calls _ _ _ _ _ _ _) as [r|e] eqn:Hp; [|by vm_compute in Hp].
  destruct Hr as (ns & js & l & _ & _ & _ & _ & _ & Hrem & Hnone & _ & _ & _ & Hpar).
  assert (Hs : status r = Partial /\
    map (fun c => (call_id c, call_name c)) (tool_calls r) = [("call_1", "ping"); ("call_2", "ping")] /\
    map (fun i => (is_code i, is_candidate_index i)) (issues r) = [(Schema_violation, 1); (Unknown_tool, 1)])
    by (revert Hp; vm_compute; by intros [= <-]).
  destruct Hs as (Hs & Hc & Hi). exists natives, texts, r.
  rewrite Hrem by (intros Hl; apply Hnone in Hl; congruence). by split_and!.
Defined.

(** Digits beyond CPython's limit make [json.loads] raise a [ValueError] that is no
    [JSONDecodeError]; the native parser turns it into an issue, the JSON path not. *)
Example escaping_errors :
  let raising (t : pystr) := LoadRaised true in
  parse_tool_calls substring_re raising plain_decode plain_str 100 (plain_dumps mixed_batch) sample_tools
    = Err (LoadsRaised true) /\
  (exists r, parse_tool_calls substring_re raising plain_decode plain_str 100
     (pystr_of "<|tool_call>call:ping{n: 1}<tool_call|>") sample_tools = Ok r /\ status r = Failed) /\
  parse_tool_calls substring_re raising plain_decode plain_str 4
     (pystr_of "<|tool_call>call:ping{a: [[[[]]]]}<tool_call|>") sample_tools = Err (NativeRaised RecursionError).
Proof. split_and!; [by vm_compute| |by vm_compute]. eexists. split; by vm_compute. Qed.

(** Calls in every advertised shape, and text that is none. *)
Example shapes :
  map normalize_candidate_shape
    [JObj [("name", JStr "a")]; JObj [("tool_call", JObj [])]; JObj [("tool_calls", JArr [])]; JObj []; JNull]
  = [inl [[("name", JStr "a")]]; inl [[]];
     inr "`tool_calls` must be a non-empty array of tool-call objects.";
     inr UNRECOGNIZED_SHAPE_MESSAGE; inr UNRECOGNIZED_SHAPE_MESSAGE].
Proof. by vm_compute. Qed.
