(* ===== verification/Security.v ===== *)
(** The gates in front of the service: src/src/lewlm/security/http.py (request
    guards), security/authorization.py (lifecycle roles) and security/audit.py
    (what the audit log keeps).

    Header values and credentials are texts as code points.  A reading of
    [time.monotonic] is an exact number of nanoseconds, an argument of the limiter;
    the log is the list of its records.  [str.casefold] is a parameter. *)

From Stdlib Require Import Sorted.
From stdpp Require Import pretty.
From S2P Require Import Prelude PyString PyBytes PyText Json Sha256.

Open Scope Z_scope.

(** ** Settings and connections *)

Record settings := {
  st_api_key_required : bool;
  st_api_keys : list pystr;
  st_operator_keys : list pystr;
  st_administrator_keys : list pystr;
  st_tool_authorization_required : bool;
  st_request_max_bytes : Z;
  st_audit_log_enabled : bool
}.

(** What the guards read of a request or a WebSocket: header names are lower case. *)
Record connection := {
  c_path : pystr;
  c_method : pystr;
  c_headers : list (pystr * pystr);
  c_client : option pystr;
  c_body_length : Z
}.

Definition header (name : string) (c : connection) : option pystr := dget (pystr_of name) (c_headers c).

Inductive http_error :=
| RequestTooLarge (content_length : Z)
| UnsupportedMediaType (allowed : list pystr)
| RateLimited (key : pystr) (retry_after_seconds : Z)
| Unauthenticated.

Definition EXEMPT_API_KEY_PATHS : list pystr :=
  map pystr_of ["/v1/health"; "/v1/openapi.json"; "/v1/cluster/workers/enroll";
                "/v1/cluster/workers/heartbeat"; "/v1/cluster/worker/pipeline-stage"].

Definition EXEMPT_RATE_LIMIT_PATHS : list pystr :=
  map pystr_of ["/v1/health"; "/v1/openapi.json"; "/v1/cluster/workers/heartbeat";
                "/v1/cluster/worker/pipeline-stage"].

Definition JSON_ONLY : list pystr := [pystr_of "application/json"].
Definition JSON_OR_FORM : list pystr := map pystr_of ["application/json"; "multipart/form-data"].

Definition ALLOWED_BODY_MEDIA_TYPES : list (pystr * list pystr) :=
  map (fun '(p, types) => (pystr_of p, types))
    [("/v1/cluster/tokens", JSON_ONLY); ("/v1/cluster/workers/enroll", JSON_ONLY);
     ("/v1/cluster/workers/heartbeat", JSON_ONLY); ("/v1/cluster/worker/pipeline-stage", JSON_ONLY);
     ("/v1/cluster/plans", JSON_ONLY); ("/v1/audio/speech", JSON_ONLY);
     ("/v1/audio/transcriptions", JSON_OR_FORM); ("/v1/chat/completions", JSON_OR_FORM);
     ("/v1/documents/generate", JSON_ONLY); ("/v1/documents/ingest", JSON_ONLY);
     ("/v1/documents/transform", JSON_ONLY); ("/v1/embeddings", JSON_ONLY);
     ("/v1/models/convert", JSON_ONLY); ("/v1/models/scan", JSON_ONLY);
     ("/v1/rerank", JSON_ONLY); ("/v1/responses", JSON_OR_FORM)].

Definition WEBSOCKET_API_KEY_SUBPROTOCOL_PREFIX : pystr := pystr_of "lewlm.api-key.".

(** ** Credentials *)

(** Below code point 256, where header values are, only A to Z lower to ASCII letters. *)
Definition ascii_lower (c : N) : N := if ((65 <=? c) && (c <=? 90))%N then (c + 32)%N else c.

Definition bearer_token (authorization : pystr) : option pystr :=
  if starts_with (pystr_of "bearer ") (map ascii_lower authorization)
  then Some (text_strip (drop 7 authorization)) else None.

(** [_header_credential], and [request_api_credential] of authorization.py. *)
Definition header_credential (c : connection) : option pystr :=
  match header "x-api-key" c with
  | Some key => Some key
  | None => bearer_token (default [] (header "authorization" c))
  end.

(** The first entry of the list that carries a key. *)
Fixpoint subprotocol_key (entries : list pystr) : option pystr :=
  match entries with
  | [] => None
  | entry :: entries' =>
      let entry := text_strip entry in
      if starts_with WEBSOCKET_API_KEY_SUBPROTOCOL_PREFIX entry
      then Some (drop (length WEBSOCKET_API_KEY_SUBPROTOCOL_PREFIX) entry)
      else subprotocol_key entries'
  end.

Definition websocket_credential (c : connection) : option pystr :=
  match header_credential c with
  | Some key => Some key
  | None => subprotocol_key (split_on (fun x => (x =? 44)%N) (default [] (header "sec-websocket-protocol" c)))
  end.

(** [credential] is what the WebSocket guard found; [None] if the header is to be read. *)
Definition enforce_api_key (s : settings) (credential : option pystr) (c : connection) : result http_error () :=
  if negb (st_api_key_required s) || bool_decide (c_path c ∈ EXEMPT_API_KEY_PATHS) then Ok ()
  else
    let provided := match credential with Some key => Some key | None => header_credential c end in
    let valid := st_api_keys s ++ st_operator_keys s ++ st_administrator_keys s in
    match provided with
    | Some key => if bool_decide (key ∈ valid) then Ok () else Err Unauthenticated
    | None => Err Unauthenticated
    end.

(** ** Size and content type *)

(** [int(text)] of a header value. *)
Definition int_of_text (t : pystr) : option Z :=
  let t := text_strip t in
  if forallb (fun c => (c <? 128)%N) t
  then int_of_string (String.string_of_list_ascii (map Ascii.ascii_of_N t)) else None.

Definition has_body (c : connection) : bool :=
  bool_decide (c_method c ∈ map pystr_of ["POST"; "PUT"; "PATCH"]).

Definition enforce_request_size (s : settings) (c : connection) : result http_error () :=
  let check n := if st_request_max_bytes s <? n then Err (RequestTooLarge n) else Ok () in
  match header "content-length" c with
  | None => if has_body c then check (c_body_length c) else Ok ()
  | Some h => match int_of_text h with Some n => check n | None => Ok () end
  end.

Section casefold.
Context (casefold : pystr -> pystr).

Definition enforce_content_type (c : connection) : result http_error () :=
    if negb (has_body c) then Ok ()
    else match dget (c_path c) ALLOWED_BODY_MEDIA_TYPES with
         | None => Ok ()
         | Some allowed =>
             let content_type := default [] (header "content-type" c) in
             let media_type := casefold (text_strip (hd [] (split_on (fun x => (x =? 59)%N) content_type))) in
             if bool_decide (media_type ∈ allowed) then Ok () else Err (UnsupportedMediaType allowed)
         end.
End casefold.

(** ** The rate limiter *)

Record limiter_config := { max_requests : Z; window_ns : Z }.

Definition NS : Z := 1000000000.

(** [RequestRateLimiter.__init__]. *)
Definition limiter_of (requests seconds : Z) : limiter_config :=
  {| max_requests := Z.max 0 requests; window_ns := Z.max 1 seconds * NS |}.

Definition rate_limit_key (c : connection) : pystr :=
  match header_credential c with
  | Some (x :: key) => pystr_of "api:" ++ x :: key
  | _ => pystr_of "client:" ++ default (pystr_of "anonymous") (c_client c)
  end.

Definition buckets : Type := list (pystr * list Z).

(** Readings the window has left, from the front. *)
Fixpoint drop_old (cutoff : Z) (bucket : list Z) : list Z :=
  match bucket with
  | t :: bucket' => if t <=? cutoff then drop_old cutoff bucket' else bucket
  | [] => []
  end.

(** [RequestRateLimiter.enforce]; a bucket that is looked up exists from then on. *)
Definition enforce_rate (cfg : limiter_config) (c : connection) (now : Z) (bs : buckets)
    : result http_error () * buckets :=
  if (max_requests cfg <=? 0) || bool_decide (c_path c ∈ EXEMPT_RATE_LIMIT_PATHS) then (Ok (), bs)
  else
    let key := rate_limit_key c in
    let bucket := drop_old (now - window_ns cfg) (default [] (dget key bs)) in
    if max_requests cfg <=? Z.of_nat (length bucket) then
      let oldest := hd now bucket in
      (Err (RateLimited key (Z.max 1 ((window_ns cfg - (now - oldest)) ÷ NS))), dset key bucket bs)
    else (Ok (), dset key (bucket ++ [now]) bs).

(** [RequestGuard.enforce] and [enforce_websocket]. *)
Definition guard_request (casefold : pystr -> pystr) (s : settings) (cfg : limiter_config) (c : connection)
    (now : Z) (bs : buckets) : result http_error () * buckets :=
  match (let? _ := enforce_request_size s c in enforce_content_type casefold c) with
  | Err e => (Err e, bs)
  | Ok _ =>
      let '(r, bs) := enforce_rate cfg c now bs in
      ((let? _ := r in enforce_api_key s None c), bs)
  end.

Definition guard_websocket (s : settings) (cfg : limiter_config) (c : connection) (now : Z) (bs : buckets)
    : result http_error () * buckets :=
  let '(r, bs) := enforce_rate cfg c now bs in
  ((let? _ := r in enforce_api_key s (websocket_credential c) c), bs).

(** ** Redaction of the audit log *)

Definition SECRET_KEY_PARTS : list string :=
  ["api_key"; "authorization"; "cookie"; "password"; "passphrase"; "secret"; "token"].
Definition PATH_KEY_SUFFIXES : list string := ["_path"; "_paths"; "_root"; "_roots"; "_dir"; "_dirs"].
Definition TEXT_KEY_PARTS : list string := ["content"; "prompt"; "summary"].
Definition BLOB_KEY_PARTS : list string := ["audio_base64"; "content_base64"; "file_bytes"].

(** [part in text] and [text.endswith(part)] on ASCII strings. *)
Definition occurs (part text : string) : bool :=
  match find (pystr_of part) (pystr_of text) with Some _ => true | None => false end.
Definition ends (part text : string) : bool := ends_with (pystr_of part) (pystr_of text).

(** [key.casefold()] of an ASCII key. *)
Definition fold_key (key : string) : string :=
  String.string_of_list_ascii (map (fun c => Ascii.ascii_of_N (ascii_lower (Ascii.N_of_ascii c)))
    (String.list_ascii_of_string key)).

Definition is_secret_key (key : string) : bool := existsb (fun part => occurs part key) SECRET_KEY_PARTS.
Definition is_blob_key (key : string) : bool := existsb (fun part => occurs part key) BLOB_KEY_PARTS.
Definition is_path_key (key : string) : bool :=
  member key ["path"; "paths"; "roots"] || existsb (fun suffix => ends suffix key) PATH_KEY_SUFFIXES.
Definition is_text_key (key : string) : bool :=
  existsb (fun part => bool_decide (part = key) || ends ("_" +:+ part) key) TEXT_KEY_PARTS.

Definition slash : Ascii.ascii := Ascii.ascii_of_nat 47.
Definition backslash : Ascii.ascii := Ascii.ascii_of_nat 92.

(** On POSIX, [os.sep] is the slash and [os.altsep] is [None]. *)
Definition looks_like_path (value : string) : bool :=
  if (value =? "")%string || starts_with (pystr_of "enc::v1::") (pystr_of value) then false
  else
    occurs "/" value
    || ((2 <? String.length value)%nat
        && (String.substring 1 2 value =? ":" +:+ String backslash EmptyString)%string)
    || existsb (fun p => starts_with (pystr_of p) (pystr_of value)) ["./"; "../"; "~/"].

Definition newline : string := String (Ascii.ascii_of_nat 10) EmptyString.

Definition looks_like_large_text (value : string) : bool :=
  (120 <? String.length value)%nat || occurs newline value.

Definition short_digest (value : string) : string := String.substring 0 12 (hexdigest (encode_ascii value)).

Definition redacted_marker (kind value : string) : string :=
  "<redacted_" +:+ kind +:+ ":len=" +:+ pretty (Z.of_nat (String.length value)) +:+ ":sha256="
  +:+ short_digest value +:+ ">".

(** [value.rstrip("/\\")]. *)
Definition rstrip_separators (value : string) : string :=
  let is_separator c := bool_decide (c = slash \/ c = backslash) in
  let fix strip_front (s : list Ascii.ascii) :=
    match s with c :: s' => if is_separator c then strip_front s' else s | [] => [] end in
  String.string_of_list_ascii (rev (strip_front (rev (String.list_ascii_of_string value)))).

Definition redacted_path (value : string) : string :=
  let normalized := rstrip_separators value in
  let tail := if (normalized =? "")%string then "root"
              else List.last (split backslash (List.last (split slash normalized) "")) "" in
  "<path:" +:+ tail +:+ ":sha256=" +:+ short_digest value +:+ ">".

(** A string under a key, which is folded already. *)
Definition redact_string (key value : string) : string :=
  if is_secret_key key then redacted_marker "secret" value
  else if is_blob_key key then redacted_marker "blob" value
  else if is_path_key key || looks_like_path value then redacted_path value
  else if is_text_key key || looks_like_large_text value then redacted_marker "text" value
  else value.

(** [_redact_audit_value]; the members of a dictionary are judged by their own keys. *)
Fixpoint redact (key : string) (value : json) : json :=
  match value with
  | JObj members => JObj (map (fun m => (m.1, redact m.1 m.2)) members)
  | JArr items => JArr (map (redact key) items)
  | JStr s => JStr (redact_string (fold_key key) s)
  | _ => value
  end.

Record audit_record := {
  ar_timestamp : string;
  ar_action : string;
  ar_outcome : string;
  ar_actor : string;
  ar_details : json
}.

(** [AuditLogger.record]: the record that is appended, if any. *)
Definition record (s : settings) (timestamp action outcome actor : string) (details : list (string * json))
    : list audit_record :=
  if st_audit_log_enabled s then
    [ {| ar_timestamp := timestamp; ar_action := action; ar_outcome := outcome; ar_actor := actor;
         ar_details := redact "details" (JObj details) |} ]
  else [].

(** ** Authorization *)

Inductive tool_action :=
| Document_generate | Document_ingest | Document_transform | Model_conversion | Model_warm | Model_drain
| Model_unload | Model_residency_inspect | Runtime_diagnostics.

Definition action_value (a : tool_action) : string :=
  match a with
  | Document_generate => "document_generate"
  | Document_ingest => "document_ingest"
  | Document_transform => "document_transform"
  | Model_conversion => "model_conversion"
  | Model_warm => "model_warm"
  | Model_drain => "model_drain"
  | Model_unload => "model_unload"
  | Model_residency_inspect => "model_residency_inspect"
  | Runtime_diagnostics => "runtime_diagnostics"
  end.

Inductive lifecycle_role := Operator | Administrator.

#[export] Instance lifecycle_role_eq_dec : EqDecision lifecycle_role.
Proof. solve_decision. Defined.

Definition role_value (r : lifecycle_role) : string :=
  match r with Operator => "operator" | Administrator => "administrator" end.

Inductive lifecycle_capability :=
| Load_model | Drain_model | Unload_model | Force_unload_model | Inspect_residency | Run_disruptive_diagnostics.

Definition capability_value (c : lifecycle_capability) : string :=
  match c with
  | Load_model => "load_model"
  | Drain_model => "drain_model"
  | Unload_model => "unload_model"
  | Force_unload_model => "force_unload_model"
  | Inspect_residency => "inspect_residency"
  | Run_disruptive_diagnostics => "run_disruptive_diagnostics"
  end.

(** [_CAPABILITY_ROLE] and [_CAPABILITY_LEGACY_ACTION]. *)
Definition capability_role (c : lifecycle_capability) : lifecycle_role :=
  match c with
  | Load_model | Drain_model | Inspect_residency => Operator
  | Unload_model | Force_unload_model | Run_disruptive_diagnostics => Administrator
  end.

Definition capability_legacy_action (c : lifecycle_capability) : tool_action :=
  match c with
  | Load_model => Model_warm
  | Drain_model => Model_drain
  | Unload_model | Force_unload_model => Model_unload
  | Inspect_residency => Model_residency_inspect
  | Run_disruptive_diagnostics => Runtime_diagnostics
  end.

Record authorization_decision := {
  d_capability : lifecycle_capability;
  d_required_role : lifecycle_role;
  d_granted_role : option lifecycle_role;
  d_mode : string
}.

(** [ToolAuthorizationError], and the [TypeError] of [hmac.compare_digest]. *)
Inductive auth_error := Unauthorized (details : list (string * json)) | CompareTypeError.

(** [hmac.compare_digest] on strings accepts ASCII only. *)
Definition is_ascii (t : pystr) : bool := forallb (fun c => (c <? 128)%N) t.

Definition compare_digest (a b : pystr) : result auth_error bool :=
  if is_ascii a && is_ascii b then Ok (bool_decide (a = b)) else Err CompareTypeError.

(** [any(...)] over a generator: it stops at the first match. *)
Fixpoint any_matches (credential : pystr) (keys : list pystr) : result auth_error bool :=
  match keys with
  | [] => Ok false
  | k :: keys' =>
      let? b := compare_digest credential k in
      if b then Ok true else any_matches credential keys'
  end.

Definition role_for_credential (s : settings) (credential : option pystr) : result auth_error (option lifecycle_role) :=
  match credential with
  | None => Ok None
  | Some key =>
      let? administrator := any_matches key (st_administrator_keys s) in
      if administrator then Ok (Some Administrator)
      else
        let? operator := any_matches key (st_operator_keys s) in
        Ok (if operator then Some Operator else None)
  end.

Definition optional_string (o : option string) : json := match o with Some t => JStr t | None => JNull end.

(** [{**base, **details}]. *)
Definition merge_details (base details : list (string * json)) : list (string * json) :=
  foldl (fun d m => dset m.1 m.2 d) base details.

Section authorizer.
Context (casefold : pystr -> pystr).

  (** The actions a caller declares. *)
Definition declared_actions (authorizations : list pystr) : list pystr :=
    map (fun v => casefold (text_strip v))
      (List.filter (fun v => nonempty (text_strip v)) authorizations).

Fixpoint text_leb (a b : pystr) : bool :=
    match a, b with
    | [], _ => true
    | _ :: _, [] => false
    | x :: a', y :: b' => (x <? y)%N || ((x =? y)%N && text_leb a' b')
    end.

Fixpoint insert_text (a : pystr) (l : list pystr) : list pystr :=
    match l with
    | [] => [a]
    | b :: l' => if text_leb a b then a :: l else b :: insert_text a l'
    end.

  (** [sorted] of the set. *)
Definition sorted_set (l : list pystr) : list pystr := foldr insert_text [] (remove_dups l).

Definition ascii_of_text (t : pystr) : string := String.string_of_list_ascii (map Ascii.ascii_of_N t).

  (** [ToolAuthorizer.require]: the outcome and what was logged. *)
Definition require (s : settings) (timestamp : string) (action : tool_action) (authorizations : list pystr)
      (actor : string) (details : list (string * json)) : result auth_error () * list audit_record :=
    if negb (st_tool_authorization_required s) then (Ok (), [])
    else
      let allowed := declared_actions authorizations in
      let name := action_value action in
      let audit_details :=
        merge_details
          [("required_action", JStr name);
           ("authorized_actions", JArr (map (fun t => JStr (ascii_of_text t)) (sorted_set allowed)))] details in
      if bool_decide (pystr_of name ∈ allowed)
      then (Ok (), record s timestamp name "authorized" actor audit_details)
      else (Err (Unauthorized audit_details), record s timestamp name "denied" actor audit_details).

  (** The part of [require_lifecycle] before the audit: granted role, mode, verdict. *)
Definition judge_lifecycle (s : settings) (capability : lifecycle_capability) (credential : option pystr)
      (authorizations : list pystr) : result auth_error (option lifecycle_role * string * bool) :=
    let required := capability_role capability in
    if nonempty (st_operator_keys s) || nonempty (st_administrator_keys s) then
      let? granted := role_for_credential s credential in
      Ok (granted, "scoped_api_key",
          bool_decide (granted = Some Administrator) || bool_decide (granted = Some required))
    else if st_tool_authorization_required s then
      let declared := declared_actions authorizations in
      let granted :=
        if bool_decide (pystr_of "lifecycle_administrator" ∈ declared) then Some Administrator
        else if bool_decide (pystr_of "lifecycle_operator" ∈ declared) then Some Operator else None in
      let allowed :=
        bool_decide (pystr_of (action_value (capability_legacy_action capability)) ∈ declared)
        || bool_decide (granted = Some Administrator)
        || (bool_decide (granted = Some Operator) && bool_decide (required = Operator)) in
      Ok (granted, "legacy_explicit_action", allowed)
    else Ok (None, "open", true).

Definition require_lifecycle (s : settings) (timestamp : string) (capability : lifecycle_capability)
      (credential : option pystr) (authorizations : list pystr) (actor : string)
      (application_id client_instance_id : option string) (details : list (string * json))
      : result auth_error authorization_decision * list audit_record :=
    match judge_lifecycle s capability credential authorizations with
    | Err e => (Err e, [])
    | Ok (granted, mode, allowed) =>
        let required := capability_role capability in
        let audit_details :=
          merge_details
            [("lifecycle_capability", JStr (capability_value capability));
             ("required_role", JStr (role_value required));
             ("granted_role", optional_string (role_value <$> granted));
             ("authorization_mode", JStr mode);
             ("application_id", optional_string application_id);
             ("client_instance_id", optional_string client_instance_id)] details in
        let name := action_value (capability_legacy_action capability) in
        let logged := record s timestamp name (if allowed then "authorized" else "denied") actor audit_details in
        if allowed then
          (Ok {| d_capability := capability; d_required_role := required; d_granted_role := granted;
                 d_mode := mode |}, logged)
        else (Err (Unauthorized audit_details), logged)
    end.
End authorizer.

(** ** Roles *)

(** The search meets a pair that cannot be compared: it reaches a key, past keys that
    differ from the credential, and one of the two is not ASCII. *)
Definition incomparable (credential : pystr) (keys : list pystr) : Prop :=
  exists before k after, keys = before ++ k :: after /\ credential ∉ before
    /\ (is_ascii credential = false \/ is_ascii k = false).

Lemma incomparable_cons credential k keys :
  incomparable credential (k :: keys) <->
  is_ascii credential && is_ascii k = false \/ (credential <> k /\ incomparable credential keys).
Proof.
  rewrite andb_false_iff. split.
  - intros (before & x & after & Heq & Hn & Ha). destruct before as [|y before]; injection Heq as -> ->; [by left|].
    apply not_elem_of_cons in Hn as [Hne Hn]. right. split; [done|]. by exists before, x, after.
  - intros [Ha|[Hne (before & x & after & -> & Hn & Ha)]].
    + exists [], k, keys. split_and!; [done|apply not_elem_of_nil|done].
    + exists (k :: before), x, after. split_and!; [done|by apply not_elem_of_cons|done].
Qed.

Lemma incomparable_app credential l l' :
  incomparable credential (l ++ l') <->
  incomparable credential l \/ (credential ∉ l /\ incomparable credential l').
Proof.
  induction l as [|k l IH]; cbn [app].
  - split; [right; split; [apply not_elem_of_nil|done]|]. intros [(? & ? & ? & []%app_cons_not_nil & _)|[_ H]]; done.
  - rewrite !incomparable_cons, IH, not_elem_of_cons. tauto.
Qed.

(** The search finds the credential, or raises where it meets such a pair. *)
Lemma any_matches_spec key keys :
  match any_matches key keys with
  | Ok b => (b = true <-> key ∈ keys) /\ ~ incomparable key keys
  | Err e => e = CompareTypeError /\ incomparable key keys
  end.
Proof.
  induction keys as [|k keys IH]; cbn [any_matches].
  - split; [split; [done|by intros ?%not_elem_of_nil]|]. by intros (? & ? & ? & []%app_cons_not_nil & _).
  - unfold compare_digest. destruct (is_ascii key && is_ascii k) eqn:Ha; cbn [rbind].
    + destruct (decide (key = k)) as [->|Hne].
      * rewrite bool_decide_true by done. split; [split; [by left|done]|]. rewrite incomparable_cons, Ha. naive_solver.
      * rewrite bool_decide_false by done. destruct (any_matches key keys) as [b|e]; rewrite incomparable_cons, Ha.
        -- destruct IH as [-> Hn]. rewrite elem_of_cons. naive_solver.
        -- naive_solver.
    + split; [done|]. apply incomparable_cons. by left.
Qed.

Lemma role_spec s credential :
  let keys := st_administrator_keys s ++ st_operator_keys s in
  match role_for_credential s credential with
  | Ok role =>
      (role = Some Administrator <-> exists key, credential = Some key /\ key ∈ st_administrator_keys s)
      /\ (role = Some Operator <-> exists key, credential = Some key /\ key ∉ st_administrator_keys s
                                               /\ key ∈ st_operator_keys s)
      /\ ~ (exists key, credential = Some key /\ incomparable key keys)
  | Err e => e = CompareTypeError /\ exists key, credential = Some key /\ incomparable key keys
  end.
Proof.
  cbv zeta. unfold role_for_credential. destruct credential as [key|]; [|by split_and!; naive_solver].
  pose proof (any_matches_spec key (st_administrator_keys s)) as Ha.
  pose proof (any_matches_spec key (st_operator_keys s)) as Ho.
  pose proof (incomparable_app key (st_administrator_keys s) (st_operator_keys s)) as Happ.
  destruct (any_matches key (st_administrator_keys s)) as [[|]|e]; cbn [rbind].
  - split_and!; naive_solver.
  - destruct (any_matches key (st_operator_keys s)) as [[|]|e]; cbn [rbind]; split_and!; naive_solver.
  - naive_solver.
Qed.

(** ** The window *)

(** Requests in the order in which they take the lock, and the admitted ones with
    their keys. *)
Definition counted (c : connection) : bool := negb (bool_decide (c_path c ∈ EXEMPT_RATE_LIMIT_PATHS)).

Definition limiter_step (cfg : limiter_config) (st : buckets * list (pystr * Z)) (req : connection * Z)
    : buckets * list (pystr * Z) :=
  let '(bs, log) := st in
  match enforce_rate cfg req.1 req.2 bs with
  | (Ok _, bs) => (bs, if counted req.1 then log ++ [(rate_limit_key req.1, req.2)] else log)
  | (Err _, bs) => (bs, log)
  end.

Definition run_limiter (cfg : limiter_config) (reqs : list (connection * Z)) : buckets * list (pystr * Z) :=
  foldl (limiter_step cfg) ([], []) reqs.

(** The readings at which requests of a key were admitted. *)
Definition admitted (key : pystr) (log : list (pystr * Z)) : list Z :=
  omap (fun e => if decide (e.1 = key) then Some e.2 else None) log.

Definition in_window (cfg : limiter_config) (t u : Z) : bool := (t - window_ns cfg <? u) && (u <=? t).

Definition bucket_of (key : pystr) (bs : buckets) : list Z := default [] (dget key bs).

Lemma drop_old_split cutoff b : exists old, b = old ++ drop_old cutoff b /\ Forall (fun u => u <= cutoff) old.
Proof.
  induction b as [|u b (old & Hb & Ho)]; [by exists []|]. cbn [drop_old]. case_if.
  - exists (u :: old). split; [simpl; by f_equal|]. constructor; [lia|done].
  - by exists [].
Qed.

Lemma drop_old_recent cutoff b : StronglySorted Z.le b -> Forall (fun u => cutoff < u) (drop_old cutoff b).
Proof.
  intros H. induction H as [|u b _ IH Hu]; [constructor|]. cbn [drop_old]. case_if; [done|].
  constructor; [lia|]. eapply Forall_impl; [exact Hu|]. simpl. lia.
Qed.

Lemma admitted_snoc key log k u :
  admitted key (log ++ [(k, u)]) = admitted key log ++ (if decide (k = key) then [u] else []).
Proof. unfold admitted. rewrite omap_app. simpl. by case_decide. Qed.

(** What holds of a key after requests up to the reading [last]. *)
Record key_ok (cfg : limiter_config) (last : Z) (bucket served : list Z) : Prop := {
  ko_split : exists old, served = old ++ bucket /\ Forall (fun u => u <= last - window_ns cfg) old;
  ko_full : Z.of_nat (length bucket) <= max_requests cfg;
  ko_past : Forall (fun u => u <= last) served;
  ko_sorted : StronglySorted Z.le served;
  ko_window : forall t, countb (in_window cfg t) served <= max_requests cfg
}.

Lemma key_ok_init cfg last : 0 <= max_requests cfg -> key_ok cfg last [] [].
Proof. split; try done; [by exists []|constructor]. Qed.

Lemma key_ok_later cfg last now bucket served :
  last <= now -> key_ok cfg last bucket served -> key_ok cfg now (drop_old (now - window_ns cfg) bucket) served.
Proof.
  intros Hn [(old & Hs & Ho) Hf Hp Hsort Hw]. destruct (drop_old_split (now - window_ns cfg) bucket) as (o & Hb & Hd).
  split; [|rewrite Hb, length_app in Hf; lia| |done|done].
  - exists (old ++ o). split; [rewrite Hs, Hb at 1; by rewrite <- app_assoc|]. apply Forall_app. split; [|done].
    eapply Forall_impl; [exact Ho|]. simpl. lia.
  - eapply Forall_impl; [exact Hp|]. simpl. lia.
Qed.

(** No reading dropped from the bucket is in a window that ends now or later. *)
Lemma window_in_bucket cfg now t bucket served :
  key_ok cfg now bucket served -> now <= t -> countb (in_window cfg t) served <= Z.of_nat (length bucket).
Proof.
  intros [(old & -> & Ho) _ _ _ _] Ht. rewrite countb_app.
  assert (H0 : countb (in_window cfg t) old = 0).
  { induction Ho as [|u old Hu _ IH]; [done|]. rewrite countb_cons, IH.
    replace (in_window cfg t u) with false; [done|]. symmetry. unfold in_window. apply andb_false_iff. left. lia. }
  pose proof (countb_le_length (in_window cfg t) bucket). lia.
Qed.

Lemma StronglySorted_snoc (l : list Z) x :
  StronglySorted Z.le l -> Forall (fun u => u <= x) l -> StronglySorted Z.le (l ++ [x]).
Proof.
  intros H. induction H as [|u l _ IH Hu]; intros Hx; [repeat constructor|].
  apply Forall_cons in Hx as [Hux Hx]. simpl. constructor; [by apply IH|]. apply Forall_app. split; [done|].
  by apply Forall_singleton.
Qed.

Lemma key_ok_admit cfg now bucket served :
  key_ok cfg now bucket served -> Z.of_nat (length bucket) < max_requests cfg ->
  key_ok cfg now (bucket ++ [now]) (served ++ [now]).
Proof.
  intros H Hl. pose proof (window_in_bucket cfg now) as Hb. pose proof H as [(old & Hs & Ho) Hf Hp Hsort Hw]. split.
  - exists old. by rewrite Hs, <- app_assoc.
  - rewrite length_app. simpl. lia.
  - apply Forall_app. split; [done|]. by apply Forall_singleton.
  - by apply StronglySorted_snoc.
  - intros t. rewrite countb_app, countb_cons, countb_nil. destruct (decide (now <= t)) as [Ht|Ht].
    + specialize (Hb t bucket served H Ht). case_match; lia.
    + specialize (Hw t). replace (in_window cfg t now) with false; [lia|]. symmetry.
      unfold in_window. apply andb_false_iff. right. lia.
Qed.

(** The limiter after a run whose last reading is [last]. *)
Definition limiter_inv (cfg : limiter_config) (last : Z) (st : buckets * list (pystr * Z)) : Prop :=
  forall key, key_ok cfg last (bucket_of key st.1) (admitted key st.2).

Lemma key_ok_wait cfg last now bucket served :
  last <= now -> key_ok cfg last bucket served -> key_ok cfg now bucket served.
Proof.
  intros Hn [(old & Hs & Ho) Hf Hp Hsort Hw]. split; try done.
  - exists old. split; [done|]. eapply Forall_impl; [exact Ho|]. simpl. lia.
  - eapply Forall_impl; [exact Hp|]. simpl. lia.
Qed.

Lemma limiter_step_inv cfg last st req :
  0 < max_requests cfg -> last <= req.2 -> limiter_inv cfg last st ->
  limiter_inv cfg req.2 (limiter_step cfg st req).
Proof.
  destruct st as [bs log], req as [c now]. intros Hm Hn H. cbn [fst snd] in *.
  assert (Hwait : limiter_inv cfg now (bs, log)) by (intros k; by apply (key_ok_wait cfg last)).
  unfold limiter_step, enforce_rate, counted. cbn [fst snd].
  replace (max_requests cfg <=? 0) with false by lia. cbn [orb].
  case_bool_decide as Hpath; cbn [negb]; [done|].
  pose proof (key_ok_later cfg last now _ _ Hn (H (rate_limit_key c))) as Hk. cbn [fst snd] in Hk.
  unfold bucket_of in Hk at 1. set (b := drop_old _ _) in *.
  destruct (max_requests cfg <=? Z.of_nat (length b)) eqn:Hfull.
  - intros k. cbn [fst snd]. unfold bucket_of. destruct (decide (k = rate_limit_key c)) as [->|Hne].
    + by rewrite dget_dset_eq.
    + rewrite dget_dset_ne by done. apply Hwait.
  - intros k. cbn [fst snd]. rewrite admitted_snoc. unfold bucket_of.
    destruct (decide (k = rate_limit_key c)) as [->|Hne].
    + rewrite dget_dset_eq, decide_True by done. apply key_ok_admit; [done|lia].
    + rewrite dget_dset_ne, decide_False, app_nil_r by done. apply Hwait.
Qed.

Lemma run_limiter_inv cfg reqs st last :
  0 < max_requests cfg -> limiter_inv cfg last st -> StronglySorted Z.le (last :: map snd reqs) ->
  exists last', limiter_inv cfg last' (foldl (limiter_step cfg) st reqs) /\ Forall (fun r => r.2 <= last') reqs
    /\ last <= last' /\ forall now, Forall (fun r => r.2 <= now) reqs -> last <= now -> last' <= now.
Proof.
  intros Hm. revert st last. induction reqs as [|r reqs IH]; intros st last Hi Hs.
  - exists last. split_and!; [done|constructor|lia|auto].
  - cbn [map foldl] in *. apply StronglySorted_inv in Hs as [Hs Hl]. apply Forall_cons in Hl as [Hr _].
    destruct (IH (limiter_step cfg st r) r.2) as (last' & Hi' & Hf & Hle & Hmin); [by apply (limiter_step_inv cfg last)|done|].
    exists last'. split_and!; [done|by constructor|lia|].
    intros now [Hrn Hn]%Forall_cons _. by apply Hmin.
Qed.

Lemma run_limiter_now cfg reqs now :
  0 < max_requests cfg -> StronglySorted Z.le (map snd reqs ++ [now]) -> limiter_inv cfg now (run_limiter cfg reqs).
Proof.
  intros Hm Hs. destruct reqs as [|r reqs].
  - intros key. apply key_ok_init. lia.
  - assert (Hall : Forall (fun q => q.2 <= now) (r :: reqs) /\ StronglySorted Z.le (map snd (r :: reqs))).
    { clear Hm. induction (r :: reqs) as [|q l IH]; [split; constructor|]. cbn [map app] in Hs.
      apply StronglySorted_inv in Hs as [Hs Hf]. destruct (IH Hs) as [H1 H2]. apply Forall_app in Hf as [Hf Hn].
      apply Forall_cons in Hn as [Hn _]. split; constructor; done. }
    destruct Hall as [Hall Hsort]. unfold run_limiter.
    destruct (run_limiter_inv cfg (r :: reqs) ([], []) r.2 Hm) as (last' & Hi & _ & _ & Hmin).
    + intros key. apply key_ok_init. lia.
    + constructor; [done|]. cbn [map] in *. apply StronglySorted_inv in Hsort as [_ Hf]. by constructor.
    + intros key. apply (key_ok_wait cfg last'); [|apply Hi]. apply Hmin; [done|]. by apply Forall_cons in Hall as [].
Qed.

(** ** Properties *)

(** C19. Roles are enforced: with scoped lifecycle keys configured, the comparison of
    the credential with the keys raises [TypeError], and then nothing is audited,
    exactly when it reaches a pair that is not ASCII; in every other case an operation
    of the shared runtime is authorized exactly when the credential is an administrator
    key, or an operator key and the operation is an operator's, and, where the audit log
    is on, that decision is in it, once, as what it was.  What a caller declares in its
    request never matters. *)
Theorem lifecycle_needs_the_role casefold s timestamp capability credential authorizations actor app client details r log :
  st_operator_keys s ++ st_administrator_keys s <> [] ->
  require_lifecycle casefold s timestamp capability credential authorizations actor app client details = (r, log) ->
  (r = Err CompareTypeError <->
     exists key, credential = Some key /\ incomparable key (st_administrator_keys s ++ st_operator_keys s)) /\
  (r <> Err CompareTypeError ->
     (is_ok r = true <->
        exists key, credential = Some key /\
          (key ∈ st_administrator_keys s \/ capability_role capability = Operator /\ key ∈ st_operator_keys s))) /\
  (forall declared, require_lifecycle casefold s timestamp capability credential declared actor app client details = (r, log)) /\
  (r = Err CompareTypeError \/ st_audit_log_enabled s = false -> log = []) /\
  (r <> Err CompareTypeError -> st_audit_log_enabled s = true ->
     exists rec, log = [rec] /\ ar_outcome rec = (if is_ok r then "authorized" else "denied")%string
       /\ ar_actor rec = actor).
Proof.
  intros Hkeys. pose proof (role_spec s credential) as Hrole. cbv zeta in Hrole.
  assert (Hscoped : nonempty (st_operator_keys s) || nonempty (st_administrator_keys s) = true).
  { destruct (st_operator_keys s); [|done]. by destruct (st_administrator_keys s). }
  assert (Hj : forall declared, judge_lifecycle casefold s capability credential declared
    = (let? role := role_for_credential s credential in
       Ok (role, "scoped_api_key"%string,
           bool_decide (role = Some Administrator) || bool_decide (role = Some (capability_role capability))))).
  { intros declared. unfold judge_lifecycle. by rewrite Hscoped. }
  unfold require_lifecycle. setoid_rewrite Hj. destruct (role_for_credential s credential) as [role|e]; cbn [rbind].
  2: { destruct Hrole as [-> Hinc]. intros [= <- <-]. split_and!; naive_solver. }
  destruct Hrole as (Hadmin & Hop & Hcomp). intros H.
  assert (Hr : r <> Err CompareTypeError)
    by (intros ->; destruct (bool_decide _ || bool_decide _); injection H; done).
  split_and!.
  - naive_solver.
  - intros _. destruct (bool_decide (role = Some Administrator) || bool_decide (role = Some (capability_role capability))) eqn:Hb;
      injection H as <- _; cbn [is_ok].
    + split; [|done]. intros _. apply orb_true_iff in Hb as [Hb%bool_decide_eq_true|Hb%bool_decide_eq_true].
      * apply Hadmin in Hb. naive_solver.
      * destruct (capability_role capability).
        -- apply Hop in Hb as (key & ? & _ & ?). eauto 10.
        -- apply Hadmin in Hb. naive_solver.
    + split; [done|]. apply orb_false_iff in Hb as [Hb1%bool_decide_eq_false Hb2%bool_decide_eq_false].
      intros (key & Hk & [Hin|[Hrole Hin]]); exfalso.
      * apply Hb1, Hadmin. eauto.
      * apply Hb2. rewrite Hrole. apply Hop. exists key. split_and!; [done| |done]. intros Hin'. apply Hb1, Hadmin. eauto.
  - done.
  - intros [?|Hlog]; [done|]. unfold record in H. rewrite Hlog in H.
    destruct (bool_decide _ || bool_decide _); by injection H as _ <-.
  - intros _ Hlog. unfold record in H. rewrite Hlog in H.
    destruct (bool_decide _ || bool_decide _); injection H as <- <-; by eexists.
Qed.

(** C20. The rate limit is a sliding window, exactly: of requests that take the lock
    in the order of their clock readings, no window of [window_seconds] ever holds
    more than [max_requests] admitted ones of a key, wherever it ends; and a request
    is refused only when the window that ends with it holds that many, with a wait
    of at least a second. *)
Theorem rate_limit_window cfg reqs c now :
  0 < max_requests cfg -> StronglySorted Z.le (map snd reqs ++ [now]) ->
  let '(bs, log) := run_limiter cfg reqs in
  (forall key t, countb (in_window cfg t) (admitted key log) <= max_requests cfg) /\
  (forall e bs', enforce_rate cfg c now bs = (Err e, bs') ->
     countb (in_window cfg now) (admitted (rate_limit_key c) log) = max_requests cfg /\
     exists wait, e = RateLimited (rate_limit_key c) wait /\ 1 <= wait).
Proof.
  intros Hm Hs. pose proof (run_limiter_now cfg reqs now Hm Hs) as Hi.
  destruct (run_limiter cfg reqs) as [bs log]. split; [intros key t; apply (Hi key)|].
  intros e bs'. unfold enforce_rate. replace (max_requests cfg <=? 0) with false by lia. cbn [orb].
  destruct (bool_decide _); [done|]. destruct (max_requests cfg <=? Z.of_nat (length _)) eqn:Hfull; [|done].
  intros [= <- _]. split; [|eexists; split; [done|lia]].
  pose proof (key_ok_later cfg now now _ _ (Z.le_refl now) (Hi (rate_limit_key c))) as Hk. cbn [fst snd] in Hk.
  unfold bucket_of in Hk. set (b := drop_old _ _) in *.
  pose proof Hk as [(old & Hserved & _) _ Hpast Hsort Hw]. specialize (Hw now).
  assert (Hb : countb (in_window cfg now) b = Z.of_nat (length b)).
  { assert (Hr : Forall (fun u => now - window_ns cfg < u) b).
    { apply drop_old_recent. destruct (Hi (rate_limit_key c)) as [(o & Ho & _) _ _ Hso _]. cbn [fst snd] in *.
      unfold bucket_of in Ho. rewrite Ho in Hso. clear -Hso. induction o as [|x o IH]; [done|].
      apply IH. by apply StronglySorted_inv in Hso as []. }
    rewrite Hserved in Hpast. apply Forall_app in Hpast as [_ Hpast]. clear -Hr Hpast.
    induction b as [|u b IH]; [done|]. apply Forall_cons in Hr as [Hu Hr], Hpast as [Hv Hpast].
    rewrite countb_cons, IH by done. unfold in_window at 1.
    replace (now - window_ns cfg <? u) with true by lia. replace (u <=? now) with true by lia. simpl. lia. }
  rewrite Hserved, countb_app in *. pose proof (countb_nonneg (in_window cfg now) old). lia.
Qed.

(** A connection that claims a key. *)
Definition claiming (c : connection) (key : pystr) : connection :=
  {| c_path := c_path c; c_method := c_method c; c_headers := (pystr_of "x-api-key", key) :: c_headers c;
     c_client := c_client c; c_body_length := c_body_length c |}.

Lemma claimed_key c key : key <> [] -> rate_limit_key (claiming c key) = pystr_of "api:" ++ key.
Proof. intros Hk. unfold rate_limit_key, header_credential, header, claiming, dget. cbn. by destruct key. Qed.

(** A key that was never claimed is admitted, and has a bucket from then on. *)
Lemma fresh_key_admitted cfg c k t bs log :
  0 < max_requests cfg -> counted c = true -> k <> [] -> pystr_of "api:" ++ k ∉ dkeys bs ->
  limiter_step cfg (bs, log) (claiming c k, t)
  = (bs ++ [(pystr_of "api:" ++ k, [t])], log ++ [(pystr_of "api:" ++ k, t)]).
Proof.
  intros Hm Hc Hk Hnew. unfold limiter_step, enforce_rate. cbn [fst snd].
  change (counted (claiming c k)) with (counted c). rewrite Hc.
  unfold counted in Hc. apply negb_true_iff in Hc. cbn [c_path claiming]. rewrite Hc.
  rewrite (proj2 (Z.leb_gt _ _) Hm). cbn [orb].
  rewrite claimed_key by done. rewrite (proj2 (dget_None bs _) Hnew). cbn [from_option drop_old length].
  change (Z.of_nat 0) with 0. rewrite (proj2 (Z.leb_gt _ _) Hm). by rewrite dset_new.
Qed.

Lemma fresh_keys_admitted cfg c tries bs log :
  0 < max_requests cfg -> counted c = true -> NoDup (map fst tries) -> [] ∉ map fst tries ->
  (forall k, k ∈ map fst tries -> pystr_of "api:" ++ k ∉ dkeys bs) ->
  let st := foldl (limiter_step cfg) (bs, log) (map (fun t => (claiming c t.1, t.2)) tries) in
  length st.2 = (length log + length tries)%nat /\ length st.1 = (length bs + length tries)%nat.
Proof.
  intros Hm Hc. revert bs log. induction tries as [|[k t] tries IH]; intros bs log Hnd Hne Hfresh.
  { cbn. lia. }
  cbn [map fst snd foldl] in *. apply NoDup_cons in Hnd as [Hk Hnd]. apply not_elem_of_cons in Hne as [Hk0 Hne].
  rewrite fresh_key_admitted by (done || apply Hfresh; by left).
  destruct (IH (bs ++ [(pystr_of "api:" ++ k, [t])]) (log ++ [(pystr_of "api:" ++ k, t)]) Hnd Hne) as [H1 H2].
  - intros k' Hk'. unfold dkeys. rewrite map_app, not_elem_of_app. split; [apply Hfresh; by right|].
    cbn [map fst]. intros Heq%list_elem_of_singleton%app_inv_head. by subst.
  - rewrite H1, H2, !length_app. cbn [length]. lia.
Qed.

(** The limit does not hold against guessing: it is counted per claimed key and
    before the key is checked, so that one client that claims a different key each
    time is never refused by the limiter, at whatever pace, and each attempt leaves
    a bucket that nothing removes. *)
Theorem fresh_keys_evade_the_limit cfg c tries :
  0 < max_requests cfg -> counted c = true -> NoDup (map fst tries) -> [] ∉ map fst tries ->
  let '(bs, log) := run_limiter cfg (map (fun t => (claiming c t.1, t.2)) tries) in
  length log = length tries /\ length bs = length tries.
Proof.
  intros Hm Hc Hnd Hne.
  pose proof (fresh_keys_admitted cfg c tries [] [] Hm Hc Hnd Hne) as H. unfold run_limiter.
  destruct (foldl _ _ _) as [bs log]. cbn in H. apply H. intros k _. apply not_elem_of_nil.
Qed.

(** ** The audit log *)

(** The strings of a value with the keys they are judged by. *)
Fixpoint leaves (key : string) (value : json) : list (string * string) :=
  match value with
  | JObj members => concat (map (fun m => leaves m.1 m.2) members)
  | JArr items => concat (map (leaves key) items)
  | JStr s => [(fold_key key, s)]
  | _ => []
  end.

(** Every string is redacted by its own key, and nothing else changes. *)
Lemma redact_leaves key value :
  leaves key (redact key value) = map (fun l => (l.1, redact_string l.1 l.2)) (leaves key value).
Proof.
  revert key. induction value as [| | | | |items IH|members IH] using json_nested_ind; intros key; try done; cbn [redact leaves].
  - induction IH as [|x items Hx _ IHi]; [done|]. cbn [map concat]. by rewrite map_app, Hx, IHi.
  - induction IH as [|m members Hm _ IHm]; [done|]. cbn [map concat fst snd]. by rewrite map_app, Hm, IHm.
Qed.

(** A string that is kept is under no telling key, looks like no path, and is short. *)
Lemma kept_string key s :
  redact_string key s = s ->
  s = redacted_marker "secret" s \/ s = redacted_marker "blob" s \/ s = redacted_path s \/ s = redacted_marker "text" s \/
  (is_secret_key key = false /\ is_blob_key key = false /\ is_path_key key = false /\ looks_like_path s = false /\
   is_text_key key = false /\ (String.length s <= 120)%nat /\ occurs newline s = false).
Proof.
  unfold redact_string, looks_like_large_text.
  destruct (is_secret_key key); [auto|]. destruct (is_blob_key key); [auto|].
  destruct (is_path_key key || looks_like_path s) eqn:Hp; [auto|]. apply orb_false_iff in Hp as [-> ->].
  destruct (is_text_key key || _) eqn:Ht; [auto 10|]. apply orb_false_iff in Ht as [-> [Hl Hn]%orb_false_iff].
  intros _. do 4 right. split_and!; try done. apply Nat.ltb_ge in Hl. lia.
Qed.

(** A secret that stands one level deeper is judged by its own key only: under
    ["authorization"] or any other telling key, a dictionary is logged as it is. *)
Theorem nested_secrets_are_logged outer inner s :
  redact_string (fold_key inner) s = s -> redact outer (JObj [(inner, JStr s)]) = JObj [(inner, JStr s)].
Proof. intros H. cbn [redact map fst snd]. by rewrite H. Qed.

(** ** Instances *)

Definition local_settings : settings :=
  {| st_api_key_required := true; st_api_keys := [pystr_of "app"]; st_operator_keys := [pystr_of "op-key"];
     st_administrator_keys := [pystr_of "root-key"]; st_tool_authorization_required := true;
     st_request_max_bytes := 1000; st_audit_log_enabled := true |}.

Definition ascii_fold (t : pystr) : pystr := map ascii_lower t.

Definition call_with (authorization : string) : connection :=
  {| c_path := pystr_of "/v1/models/m/unload"; c_method := pystr_of "POST";
     c_headers := [(pystr_of "authorization", pystr_of authorization); (pystr_of "content-length", pystr_of " 12 ")];
     c_client := Some (pystr_of "127.0.0.1"); c_body_length := 12 |}.

Definition unload_as (authorization : string) (capability : lifecycle_capability) :=
  require_lifecycle ascii_fold local_settings "t0" capability (header_credential (call_with authorization))
    [pystr_of "lifecycle_administrator"] "api" None None [].

(** An operator may drain but not unload, whatever it declares; the guard lets it in.  The
    mode of the decision is redacted: its key contains ["authorization"]. *)
Example roles :
  fst (guard_request ascii_fold local_settings (limiter_of 2 60) (call_with "BEARER op-key ") 0 []) = Ok () /\
  fst (guard_request ascii_fold local_settings (limiter_of 2 60) (call_with "Bearer nobody") 0 []) = Err Unauthenticated /\
  map (fun c => is_ok (fst (unload_as "Bearer op-key" c))) [Drain_model; Unload_model] = [true; false] /\
  map (fun c => is_ok (fst (unload_as "bearer root-key" c))) [Drain_model; Unload_model] = [true; true] /\
  map (fun r => (ar_action r, ar_outcome r)) (snd (unload_as "Bearer op-key" Unload_model)) = [("model_unload", "denied")] /\
  is_ok (fst (require_lifecycle ascii_fold local_settings "t0" Load_model (Some [233%N]) [] "api" None None [])) = false /\
  snd (require_lifecycle ascii_fold local_settings "t0" Load_model (Some [233%N]) [] "api" None None []) = [].
Proof. split_and!; by vm_compute. Qed.

Example redactions :
  redact "details" (JObj [("authorization", JObj [("value", JStr "hunter2")]); ("path", JStr "/v1/x/"); ("n", JInt 3)])
  = JObj [("authorization", JObj [("value", JStr "hunter2")]);
          ("path", JStr ("<path:x:sha256=" +:+ short_digest "/v1/x/" +:+ ">")); ("n", JInt 3)] /\
  redact "details" (JObj [("authorization_mode", JStr "open")])
  = JObj [("authorization_mode", JStr ("<redacted_secret:len=4:sha256=" +:+ short_digest "open" +:+ ">"))].
Proof. split; by vm_compute. Qed.

Lemma lifecycle_needs_the_role_witness :
  is_ok (fst (unload_as "Bearer root-key" Unload_model)) = true /\
  exists key, header_credential (call_with "Bearer root-key") = Some key /\
    (key ∈ st_administrator_keys local_settings \/
     capability_role Unload_model = Operator /\ key ∈ st_operator_keys local_settings).
Proof.
  split; [by vm_compute|].
  destruct (unload_as "Bearer root-key" Unload_model) as [r log] eqn:H.
  destruct (lifecycle_needs_the_role ascii_fold local_settings "t0" Unload_model
    (header_credential (call_with "Bearer root-key")) [pystr_of "lifecycle_administrator"] "api" None None [] r log)
    as (_ & Hr & _); [done|exact H|].
  assert (Hok : is_ok r = true) by (change r with (fst (r, log)); rewrite <- H; by vm_compute).
  apply Hr; [|exact Hok]. intros ->. discriminate Hok.
Defined.

(** Two requests in a window of a minute, a third refused, one more a minute later. *)
Definition paced : list (connection * Z) :=
  map (fun t => (call_with "Bearer op-key", t * NS)) [0; 10; 20; 61].

Example paced_admitted :
  admitted (pystr_of "api:op-key") (snd (run_limiter (limiter_of 2 60) paced)) = [0; 10 * NS; 61 * NS].
Proof. by vm_compute. Qed.

Lemma rate_limit_window_witness :
  countb (in_window (limiter_of 2 60) (65 * NS))
    (admitted (pystr_of "api:op-key") (snd (run_limiter (limiter_of 2 60) paced))) <= 2.
Proof.
  assert (Hs : StronglySorted Z.le (map snd paced ++ [62 * NS])).
  { unfold paced, NS. repeat constructor; simpl; lia. }
  pose proof (rate_limit_window (limiter_of 2 60) paced (call_with "Bearer op-key") (62 * NS) ltac:(done) Hs) as H.
  destruct (run_limiter (limiter_of 2 60) paced) as [bs log]. apply H.
Defined.

Lemma fresh_keys_evade_the_limit_witness :
  let '(bs, log) := run_limiter (limiter_of 1 60)
    (map (fun t => (claiming (call_with "") t.1, t.2)) [(pystr_of "guess-1", 0); (pystr_of "guess-2", 0); (pystr_of "guess-3", 0)]) in
  length log = 3%nat /\ length bs = 3%nat.
Proof.
  apply (fresh_keys_evade_the_limit (limiter_of 1 60) (call_with "")
    [(pystr_of "guess-1", 0); (pystr_of "guess-2", 0); (pystr_of "guess-3", 0)]).
  - done.
  - by vm_compute.
  - apply (bool_decide_unpack _). by vm_compute.
  - apply (bool_decide_unpack _). by vm_compute.
Defined.
