(* ===== verification/Manifest.v ===== *)
(** The records that describe models: the enumerations and [ModelManifest] of
    src/src/lewlm/core/contracts.py, the identities of utils/model_identity.py, and
    the serving plans that runtime/experimental/architectures.py makes for models
    with experts or recurrent state.

    Strings are ASCII; a manifest's metadata is JSON, with finite numbers; sizes are
    within the range of floats.  The prose notes of a plan are left out. *)

From stdpp Require Import pretty.
From S2P Require Import Prelude PyFloat PyString Json.

Open Scope Z_scope.

(** ** Enumerations *)

Inductive modality := Text | Vision | Audio | Embedding | Rerank | Multimodal.
Inductive model_format :=
  FormatGguf | FormatMlx | FormatOnnxGenai | FormatHuggingface | FormatAudioFolder | FormatAdapterBundle
| FormatExl3 | FormatUnknown.
Inductive affinity :=
  MlxText | MlxVision | MlxAudio | LlamaCpp | OnnxGenai | ExternalAccelerator | ConversionAffinity | Experimental
| DistributedExperimental.
Inductive conversion_status := Runnable | RequiresConversion | NotSupported | UnknownStatus.
Inductive subtype := Transformer | SsmMamba | HybridSsm | Moe | HybridMoe | UnknownSubtype.
Inductive capability :=
  ChatCapability | Streaming | VisionCapability | AudioTranscription | AudioSpeech | Embeddings | RerankCapability
| ConversionCapability.
Inductive audio_role := TranscriptionRole | SpeechRole.
Inductive request_modality := TextOnly | ImageConditioned | FrameBundleVideo | AudioConditioned.
Inductive support_path := Packaged | Bridge.

#[export] Instance modality_eq_dec : EqDecision modality.
Proof. solve_decision. Defined.
#[export] Instance model_format_eq_dec : EqDecision model_format.
Proof. solve_decision. Defined.
#[export] Instance affinity_eq_dec : EqDecision affinity.
Proof. solve_decision. Defined.
#[export] Instance conversion_status_eq_dec : EqDecision conversion_status.
Proof. solve_decision. Defined.
#[export] Instance subtype_eq_dec : EqDecision subtype.
Proof. solve_decision. Defined.
#[export] Instance capability_eq_dec : EqDecision capability.
Proof. solve_decision. Defined.
#[export] Instance audio_role_eq_dec : EqDecision audio_role.
Proof. solve_decision. Defined.
#[export] Instance request_modality_eq_dec : EqDecision request_modality.
Proof. solve_decision. Defined.

Definition affinity_value (a : affinity) : string :=
  match a with
  | MlxText => "mlx_text" | MlxVision => "mlx_vision" | MlxAudio => "mlx_audio" | LlamaCpp => "llamacpp"
  | OnnxGenai => "onnx_genai" | ExternalAccelerator => "external_accelerator" | ConversionAffinity => "conversion"
  | Experimental => "experimental" | DistributedExperimental => "distributed_experimental"
  end.

Definition subtype_value (s : subtype) : string :=
  match s with
  | Transformer => "transformer" | SsmMamba => "ssm_mamba" | HybridSsm => "hybrid_ssm" | Moe => "moe"
  | HybridMoe => "hybrid_moe" | UnknownSubtype => "unknown"
  end.

Definition capability_value (c : capability) : string :=
  match c with
  | ChatCapability => "chat" | Streaming => "streaming" | VisionCapability => "vision"
  | AudioTranscription => "audio_transcription" | AudioSpeech => "audio_speech" | Embeddings => "embeddings"
  | RerankCapability => "rerank" | ConversionCapability => "conversion"
  end.

Definition request_modality_value (m : request_modality) : string :=
  match m with
  | TextOnly => "text_only" | ImageConditioned => "image_conditioned" | FrameBundleVideo => "frame_bundle_video"
  | AudioConditioned => "audio_conditioned"
  end.

(** [runtime_support_path_for_affinity]. *)
Definition support_path_for (a : affinity) : support_path :=
  if decide (a = ExternalAccelerator) then Bridge else Packaged.

(** ** Manifests *)

(** [ModelArtifactLayer]: the fields that are read here. *)
Inductive artifact_role := Standalone | SourceBundle | MultimodalRunnable | TextRunnable.

Record artifact_layer := {
  al_role : artifact_role;
  al_display_name : string;
  al_source_path : string;
  al_modality : list modality
}.

#[export] Instance artifact_role_eq_dec : EqDecision artifact_role.
Proof. solve_decision. Defined.

(** The fields of [ModelManifest] that are read here. *)
Record manifest := {
  mf_id : string;
  mf_display_name : string;
  mf_family : string;
  mf_quantization : option string;
  mf_fingerprint : string;
  mf_role : artifact_role;
  mf_lineage : list artifact_layer;
  mf_subtype : subtype;
  mf_modality : list modality;
  mf_audio_roles : list audio_role;
  mf_source_path : string;
  mf_format : model_format;
  mf_affinity : list affinity;
  mf_text_affinity : list affinity;
  mf_text_source : option string;
  mf_text_reason : option string;
  mf_memory : option Z;
  mf_context : option Z;
  mf_status : conversion_status;
  mf_metadata : list (string * json)
}.

(** [manifest.metadata.get(key)]. *)
Definition meta (key : string) (m : manifest) : json := default JNull (dget key (mf_metadata m)).

Definition any_modality (l : list modality) (m : manifest) : bool := existsb (fun x => member x (mf_modality m)) l.
Definition all_modalities (l : list modality) (m : manifest) : bool := forallb (fun x => member x (mf_modality m)) l.

(** [is_uri_source]. *)
Definition is_uri_source (source_path : string) : bool :=
  String.prefix "ollama://" source_path || String.prefix "external://" source_path.

(** [AUDIO_CAPABILITY_ROLES] and [manifest_supports_audio_capability]. *)
Definition audio_capability_role (c : capability) : option audio_role :=
  match c with AudioTranscription => Some TranscriptionRole | AudioSpeech => Some SpeechRole | _ => None end.

Definition manifest_supports_audio_capability (m : manifest) (c : capability) : bool :=
  match audio_capability_role c, mf_audio_roles m with
  | None, _ | _, [] => true
  | Some role, roles => member role roles
  end.

(** ** Serving plans *)

Inductive memory_mode := ModeOff | PartialLoad | ExpertStreaming.

Definition memory_mode_value (m : memory_mode) : string :=
  match m with ModeOff => "off" | PartialLoad => "partial_load" | ExpertStreaming => "expert_streaming" end.

(** The plan's dictionary: [None] for a key it does not have; [planning_only] is set. *)
Record serving_plan := {
  pl_subtype : string;
  pl_cache_handling : json;
  pl_mode : string;
  pl_full : option Z;
  pl_state_size : option Z;
  pl_state_kb_per_token : option f64;
  pl_experts : option Z;
  pl_active : option Z;
  pl_resident : option Z;
  pl_streamed : option Z;
  pl_planned : option Z;
  pl_savings : option Z;
  pl_swap : option Z;
  pl_expert_memory : option Z;
  pl_dense_memory : option Z
}.

Definition frontier_subtype (s : subtype) : bool := member s [SsmMamba; HybridSsm; Moe; HybridMoe].

(** [_coerce_int] of architectures.py: a boolean is no number there. *)
Definition coerce_int (v : json) : option Z :=
  match v with
  | JInt n => Some n
  | JFloat x => f_trunc x
  | JStr s => int_of_string s
  | _ => None
  end.

(** [_cache_state_handling]. *)
Definition cache_state_handling (s : subtype) : string :=
  match s with
  | SsmMamba => "selective_scan_state"
  | HybridSsm => "hybrid_attention_state"
  | Moe | HybridMoe => "expert_resident_window"
  | _ => "standard_transformer_kv"
  end.

(** [a or b] on integers. *)
Definition int_or (a : option Z) (b : Z) : Z := match a with Some n => if n =? 0 then b else n | None => b end.

(** [build_frontier_serving_plan] under a mode and a number of resident experts. *)
Definition build_frontier_serving_plan (mode : memory_mode) (resident_setting : Z) (m : manifest) : option serving_plan :=
  if negb (member Text (mf_modality m)) || negb (frontier_subtype (mf_subtype m)) then None
  else
    let s := mf_subtype m in
    let handling := meta "cache_state_handling" m in
    let handling := if json_truthy handling then handling else JStr (cache_state_handling s) in
    let plan mode state_size experts active :=
      {| pl_subtype := subtype_value s; pl_cache_handling := handling; pl_mode := mode; pl_full := mf_memory m;
         pl_state_size := state_size;
         pl_state_kb_per_token := option_map (fun n => f_round4 (int_truediv (n * 2) 1024)) state_size;
         pl_experts := experts; pl_active := active; pl_resident := None; pl_streamed := None; pl_planned := None;
         pl_savings := None; pl_swap := None; pl_expert_memory := None; pl_dense_memory := None |} in
    if member s [SsmMamba; HybridSsm] then
      Some (plan "state_cache_planning" (coerce_int (meta "state_size" m)) None None)
    else
      let active := Z.max (int_or (coerce_int (meta "active_expert_count" m)) 2) 1 in
      match coerce_int (meta "expert_count" m), mf_memory m with
      | Some experts, Some full =>
          let resident := match mode with ModeOff => experts | _ => Z.min (Z.max resident_setting active) experts end in
          let fraction := if decide (s = Moe) then int_truediv 65 100 else int_truediv 55 100 in
          let dense := default 0 (f_ceil (fmul (f_of_Z full) (fsub (f_of_Z 1) fraction))) in
          let expert_memory := Z.max (full - dense) 0 in
          let per_expert := Z.max 1 (default 0 (f_ceil (int_truediv expert_memory (Z.max experts 1)))) in
          let planned := match mode with ModeOff => full | _ => dense + per_expert * resident end in
          Some {| pl_subtype := subtype_value s; pl_cache_handling := handling; pl_mode := memory_mode_value mode;
                  pl_full := Some full; pl_state_size := None; pl_state_kb_per_token := None;
                  pl_experts := Some experts; pl_active := Some active; pl_resident := Some resident;
                  pl_streamed := Some (Z.max (experts - resident) 0); pl_planned := Some planned;
                  pl_savings := Some (Z.max (full - planned) 0);
                  pl_swap := Some (match mode with ModeOff => 0 | _ => per_expert * active end);
                  pl_expert_memory := Some expert_memory; pl_dense_memory := Some dense |}
      | experts, _ =>
          Some (plan (memory_mode_value mode) None experts (match experts with Some _ => Some active | None => None end))
      end.

Definition shown (n : option Z) : string := match n with Some z => pretty z | None => "unknown" end.

(** [frontier_plan_summary]; [py_str] is [str] of a JSON value. *)
Definition frontier_plan_summary (py_str : json -> string) (plan : option serving_plan) : option string :=
  match plan with
  | None => None
  | Some p =>
      Some
        (match pl_experts p with
         | Some experts =>
             if (pl_mode p =? "off")%string then
               "frontier `" +:+ pl_subtype p +:+ "` profile detected with " +:+ pretty experts +:+ " experts"
             else
               "frontier `" +:+ pl_subtype p +:+ "` plan " +:+ pl_mode p +:+ " "
               +:+ shown (match pl_planned p with Some n => Some n | None => pl_full p end) +:+ "/" +:+ shown (pl_full p)
               +:+ " MB with " +:+ shown (pl_resident p) +:+ "/" +:+ pretty experts +:+ " resident experts"
         | None => "frontier `" +:+ pl_subtype p +:+ "` cache handling `" +:+ py_str (pl_cache_handling p) +:+ "`"
         end)
  end.
