(* ===== verification/Routing.v ===== *)
(** Choosing a model and a runtime for a request: [RuntimeCatalog]'s selection of
    src/src/lewlm/runtime/catalog.py, [ModelRegistry.get_manifest] of
    registry/service.py, the measured preferences of routing/measured_preferences.py
    with runtime/support_strategy.py, and [ModelRouter] of routing/service.py.

    A runtime is a record of the answers its methods give while one request is
    routed, in which a method that a runtime need not have is optional; the registry
    is the list of its manifests.  Strings are ASCII.  The guidance prose of errors,
    the reports of evidence and the asynchronous calls into the residency manager
    (Residency) are left out. *)

From stdpp Require Import pretty.
From Stdlib Require Import Sorted.
From S2P Require Import Prelude PyFloat PyString Json PySort Manifest.

Open Scope Z_scope.

(** ** Strings of the language *)

(** [f"{x:.1f}"]. *)
Definition format_1f (x : f64) : string :=
  let sign := match x with S754_zero true | S754_finite true _ _ | S754_infinity true => "-" | _ => "" end in
  match f_fraction x with
  | Some (n, d) => let t := rne_div (Z.abs n * 10) d in sign +:+ pretty (t / 10) +:+ "." +:+ pretty (t mod 10)
  | None => match x with S754_nan => "nan" | _ => sign +:+ "inf" end
  end.

(** [PurePosixPath(s).name]. *)
Definition path_name (s : string) : string :=
  List.last (List.filter (fun p => negb ((p =? "") || (p =? "."))%string) (split (Ascii.ascii_of_nat 47) s)) "".

(** ** Finding a manifest *)

(** [_slugify_manifest_selector]. *)
Definition slugify (s : string) : string :=
  String.string_of_list_ascii
    (rev (drop_dashes (rev (drop_dashes (String.list_ascii_of_string (sub_other false (casefold s))))))).

(** [_resolve_unique]. *)
Definition resolve_unique (manifests : list manifest) (predicate : manifest -> bool) : option manifest :=
  match List.filter predicate manifests with [m] => Some m | _ => None end.

(** [_resolve_manifest_selector]. *)
Definition resolve_manifest_selector (manifests : list manifest) (selector : string) : option manifest :=
  let s := strip selector in
  if (s =? "")%string then None
  else
    let f := casefold s in
    let tries := [ (fun m => casefold (mf_display_name m) =? f)%string;
                   (fun m => casefold (path_name (mf_source_path m)) =? f)%string;
                   (fun m => slugify (mf_display_name m) =? f)%string;
                   (fun m => String.prefix f (casefold (mf_id m))) ] in
    foldr (fun p rest => match resolve_unique manifests p with Some m => Some m | None => rest end) None tries.

(** [get_manifest]: [None] stands for [ModelNotFoundError]. *)
Definition get_manifest (manifests : list manifest) (model_id : string) : option manifest :=
  match List.find (fun m => mf_id m =? model_id)%string manifests with
  | Some m => Some m
  | None => resolve_manifest_selector manifests model_id
  end.

(** ** Runtimes *)

Record candidate_report := { cr_available : bool; cr_supports : bool; cr_reason : option string }.
Record structured_status := { ss_decoder_enforced : bool; ss_fallback_used : bool }.
Record endpoint := { ep_id : string; ep_profile : string; ep_base_url : string }.
(** What [endpoint_snapshot] says of the endpoint's state. *)
Record endpoint_snapshot := { es_enabled : bool; es_inventory_state : string; es_inventory_error : option string }.

Record attachment := { at_type : string; at_source_path : option string; at_source_type : json; at_is_dir : bool }.
Record message := { ms_content : string; ms_attachments : list attachment }.

Record runtime := {
  rt_name : string;
  rt_affinity : affinity;
  rt_formats : list model_format;
  rt_modalities : list modality;
  rt_report : option (manifest -> candidate_report);
  rt_available : bool;
  rt_availability_reason : option string;
  rt_supports_manifest : manifest -> bool;
  rt_supports_capability : capability -> bool;
  rt_manifest_capability : option (manifest -> capability -> bool);
  rt_capability_reason : option (manifest -> capability -> option string);
  rt_loaded : string -> bool;
  rt_context : manifest -> option Z;
  rt_structured : option structured_status;
  rt_endpoint : option endpoint;
  rt_snapshot : option endpoint_snapshot;
  rt_count_tokens : option (string -> list message -> option Z)
}.

(** [RuntimeCatalog]: its runtimes, its endpoints and what the host and the pack
    registry say. *)
Record catalog := {
  ct_runtimes : list (affinity * runtime);
  ct_endpoints : list (string * runtime);
  ct_pack_reason : option (affinity -> option string);
  ct_host_memory : option Z
}.

Fixpoint rstrip_slashes (l : list Ascii.ascii) : list Ascii.ascii :=
  match l with c :: l' => if (Ascii.nat_of_ascii c =? 47)%nat then rstrip_slashes l' else l | [] => [] end.

(** [server_root]. *)
Definition server_root (url : string) : string :=
  let root := rev (rstrip_slashes (rev (String.list_ascii_of_string url))) in
  let n := length root in
  String.string_of_list_ascii
    (if (3 <=? n)%nat && bool_decide (drop (n - 3) root = String.list_ascii_of_string "/v1") then take (n - 3) root else root).

(** [_manifest_runtime]. *)
Definition manifest_runtime (ct : catalog) (a : affinity) (m : manifest) : option runtime :=
  if decide (a = ExternalAccelerator) then
    match meta "external_endpoint_id" m, meta "ollama_endpoint" m, ct_endpoints ct with
    | JStr id, _, _ => dget id (ct_endpoints ct)
    | _, JStr url, _ :: _ =>
        List.find (fun rt => match rt_endpoint rt with
                             | Some e => ((ep_profile e =? "ollama_local") && (server_root (ep_base_url e) =? server_root url))%string
                             | None => false
                             end) (map snd (ct_endpoints ct))
    | _, _, _ => dget a (ct_runtimes ct)
    end
  else dget a (ct_runtimes ct).

(** [_structurally_supports_manifest]. *)
Definition structurally_supports (rt : runtime) (m : manifest) : bool :=
  member (mf_format m) (rt_formats rt) && existsb (fun x => member x (rt_modalities rt)) (mf_modality m).

Fixpoint dedup_onto (seen l : list affinity) : list affinity :=
  match l with
  | [] => seen
  | a :: l' => dedup_onto (if member a seen then seen else seen ++ [a]) l'
  end.

(** [_candidate_affinities]. *)
Definition candidate_affinities (ct : catalog) (m : manifest) (rm : option request_modality) : list affinity :=
  match meta "external_endpoint_id" m with
  | JNull =>
      let l := (if decide (rm = Some TextOnly) then mf_text_affinity m else []) ++ mf_affinity m in
      let l := match dget ExternalAccelerator (ct_runtimes ct) with
               | Some rt => if negb (member ExternalAccelerator l) && structurally_supports rt m
                            then l ++ [ExternalAccelerator] else l
               | None => l
               end in
      dedup_onto [] l
  | _ => [ExternalAccelerator]
  end.

(** [_required_runtime_capabilities]. *)
Definition required_capabilities (c : option capability) (rm : option request_modality) : list capability :=
  match c with
  | None => []
  | Some c =>
      c :: (if member c [ChatCapability; Streaming]
               && match rm with Some (ImageConditioned | FrameBundleVideo) => true | _ => false end
            then [VisionCapability] else [])
  end.

Definition or_text (a : option string) (b : string) : string := match or_else a None with Some s => s | None => b end.

(** [_runtime_absence_reason]. *)
Definition runtime_absence_reason (ct : catalog) (a : affinity) : string :=
  if bool_decide (a = ExternalAccelerator) && nonempty (ct_endpoints ct) then
    "No matching endpoint/default; bind the manifest with external_endpoint_id when multiple endpoints are configured."
  else match ct_pack_reason ct with
       | None => "No runtime registered for this affinity."
       | Some reason => or_text (reason a) "No runtime registered for this affinity."
       end.

Fixpoint missing_capability (rt : runtime) (m : manifest) (required : list capability) : option string :=
  match required with
  | [] => None
  | c :: required' =>
      match rt_manifest_capability rt with
      | Some supports =>
          if supports m c then missing_capability rt m required'
          else Some (or_text (match rt_capability_reason rt with Some f => f m c | None => None end)
                       (or_text (rt_availability_reason rt) "capability unavailable"))
      | None =>
          if rt_supports_capability rt c then missing_capability rt m required'
          else Some (or_text (rt_availability_reason rt) "capability unavailable")
      end
  end.

(** One affinity of [compatible_runtimes]: a runtime, or why there is none. *)
Definition try_affinity (ct : catalog) (m : manifest) (required : list capability) (a : affinity) : runtime + string :=
  match manifest_runtime ct a m with
  | None => inr (runtime_absence_reason ct a)
  | Some rt =>
      match match rt_report rt with
            | Some report =>
                let r := report m in
                if negb (cr_available r) then Some (or_text (cr_reason r) "runtime unavailable")
                else if negb (cr_supports r) then Some (or_text (cr_reason r) "manifest unsupported")
                else None
            | None =>
                if negb (rt_available rt) then Some (or_text (rt_availability_reason rt) "runtime unavailable")
                else if negb (rt_supports_manifest rt m) then Some "manifest unsupported"
                else None
            end with
      | Some why => inr why
      | None => match missing_capability rt m required with Some why => inr why | None => inl rt end
      end
  end.

Definition compatible_runtimes (ct : catalog) (m : manifest) (c : option capability) (rm : option request_modality)
    : list runtime * list string :=
  let tried := map (fun a => (a, try_affinity ct m (required_capabilities c rm) a)) (candidate_affinities ct m rm) in
  (omap (fun x => match x.2 with inl rt => Some rt | inr _ => None end) tried,
   omap (fun x => match x.2 with inl _ => None | inr why => Some (affinity_value x.1 +:+ ": " +:+ why) end) tried).

(** [select_lifecycle_runtime]: [None] stands for [RoutingError]. *)
Definition select_lifecycle_runtime (ct : catalog) (m : manifest) (name : option string) : option runtime :=
  let compatible := fst (compatible_runtimes ct m None None) in
  let compatible := match name with
                    | Some n => List.filter (fun rt => rt_name rt =? n)%string compatible
                    | None => compatible
                    end in
  match compatible, List.filter (fun rt => rt_loaded rt (mf_id m)) compatible with
  | [], _ => None
  | _, rt :: _ => Some rt
  | rt :: _, [] => Some rt
  end.

(** ** Measured preferences *)

Definition string_or_none (v : json) : option string :=
  match v with JStr s => if (s =? "")%string then None else Some s | _ => None end.
Definition number_or_none (v : json) : option json := match v with JInt _ | JFloat _ | JBool _ => Some v | _ => None end.

Definition jget (key : string) (members : list (string * json)) : json := default JNull (dget key members).

Definition string_list (payload : json) (key : string) : list string :=
  match payload with
  | JObj members =>
      match jget key members with
      | JArr items => omap string_or_none items
      | _ => []
      end
  | _ => []
  end.

(** [RuntimePreferenceAssessment]. *)
Record assessment := {
  as_source : option string;
  as_selected_name : option string;
  as_selected_affinity : option string;
  as_baseline_name : option string;
  as_baseline_affinity : option string;
  as_name : option string;             (* effective *)
  as_affinity : option string;         (* effective *)
  as_metric : option string;
  as_selected_value : option json;
  as_baseline_value : option json;
  as_adopted : bool;
  as_downgrade : option string;
  as_preserved : list string;
  as_degraded : list string;
  as_rejected : list string
}.

(** [external_adapter_demotion_reason]. *)
Definition external_adapter_demotion_reason (baseline_affinity : option string) : option string :=
  match baseline_affinity with
  | Some a => if member a ["mlx_text"; "llamacpp"]
              then Some "external accelerators remain a measured bridge path and do not replace the first-class local runtime default on this host"
              else None
  | None => None
  end.

Definition quoted_names (names : list string) : string := String.concat ", " (map (fun n => "`" +:+ n +:+ "`") names).

(** [_is_external_runtime]. *)
Definition is_external_runtime (name affinity : option string) : bool :=
  bool_decide (affinity = Some "external_accelerator") || bool_decide (name = Some "local_external_adapter").

(** Why an adapter that was measured to win is not adopted. *)
Definition downgrade_reason (preserved degraded rejected : list string) (baseline_affinity : option string) : option string :=
  if nonempty rejected then
    Some ("measured feature-preservation evidence rejected native coverage for " +:+ quoted_names rejected)
  else if nonempty degraded then
    Some ("measured feature-preservation evidence only partially preserved " +:+ quoted_names degraded)
  else if negb (nonempty preserved) then
    Some "the measured comparison did not record feature-preservation evidence for the adapter path"
  else external_adapter_demotion_reason baseline_affinity.

(** [assess_runtime_preference]. *)
Definition assess_runtime_preference (payload : option json) : option assessment :=
  match payload with
  | Some (JObj p) =>
      let get key := string_or_none (jget key p) in
      let compared := bool_decide (get "source" = Some "compare_external_adapter") in
      let features key := if compared then string_list (jget "feature_preservation" p) key else [] in
      let preserved := features "preserved" in
      let degraded := features "degraded" in
      let rejected := features "rejected" in
      let downgrade :=
        if compared && is_external_runtime (get "selected_runtime_name") (get "selected_runtime_affinity")
        then downgrade_reason preserved degraded rejected (get "baseline_runtime_affinity") else None in
      let adopted := match downgrade with None => true | Some _ => false end in
      Some {| as_source := get "source";
              as_selected_name := get "selected_runtime_name"; as_selected_affinity := get "selected_runtime_affinity";
              as_baseline_name := get "baseline_runtime_name"; as_baseline_affinity := get "baseline_runtime_affinity";
              as_name := if adopted then get "selected_runtime_name" else get "baseline_runtime_name";
              as_affinity := if adopted then get "selected_runtime_affinity" else get "baseline_runtime_affinity";
              as_metric := get "primary_metric"; as_selected_value := number_or_none (jget "selected_metric_value" p);
              as_baseline_value := number_or_none (jget "baseline_metric_value" p);
              as_adopted := adopted; as_downgrade := downgrade;
              as_preserved := preserved; as_degraded := degraded; as_rejected := rejected |}
  | _ => None
  end.

(** [runtime_preference_matches]. *)
Definition preference_matches (a : assessment) (rt : runtime) : bool :=
  bool_decide (as_affinity a = Some (affinity_value (rt_affinity rt))) || bool_decide (as_name a = Some (rt_name rt)).

(** ** Requests and decisions *)

Inductive runtime_policy := KeepWarm | Balanced | AggressiveUnload.
Inductive fallback_policy := NoFallback | ExplicitAlias.
Inductive modality_path := TextDefault | TextFastPath | MultimodalDefault.

Definition policy_value (p : runtime_policy) : string :=
  match p with KeepWarm => "keep_warm" | Balanced => "balanced" | AggressiveUnload => "aggressive_unload" end.

(** The fields of [LewLMSettings] that routing reads. *)
Record routing_settings := {
  runtime_policy_of : runtime_policy;
  unknown_context_token_limit : Z;
  external_fallback_policy : fallback_policy;
  external_fallback_aliases : list (string * string);
  moe_bounded_memory_mode : memory_mode;
  moe_resident_expert_count : Z
}.

(** What a request asks for: the arguments of [route_capability] but the model. *)
Record route_request := {
  rq_capability : capability;
  rq_modalities : list modality;
  rq_context : option Z;
  rq_modality : option request_modality;
  rq_structured : bool
}.

Record candidate := { cd_manifest : manifest; cd_runtime : runtime; cd_score : f64; cd_reasons : list string }.

Record routing_decision := {
  rd_model : string;
  rd_runtime : string;
  rd_affinity : affinity;
  rd_support : support_path;
  rd_reason : string;
  rd_modality : option request_modality;
  rd_path : option modality_path;
  rd_path_reason : option string;
  rd_alternatives : list string;
  rd_endpoint : option string;
  rd_profile : option string;
  rd_locality : option string;
  rd_fallback_from : option string;
  rd_fallback_reason : option string
}.

#[export] Instance routing_decision_eta : Eta routing_decision := fun r =>
  Build_routing_decision (rd_model r) (rd_runtime r) (rd_affinity r) (rd_support r) (rd_reason r) (rd_modality r)
    (rd_path r) (rd_path_reason r) (rd_alternatives r) (rd_endpoint r) (rd_profile r) (rd_locality r)
    (rd_fallback_from r) (rd_fallback_reason r).

Inductive error_kind :=
| ModelNotFound
| NotRunnable
| MissingModalities
| ContextTooShort
| NoRegisteredModel
| NoRuntimeForModel
| NoCandidate
| NoLifecycleRuntime
| EngineDown (endpoint_id : string).       (* RuntimeUnavailableError *)

Record routing_error := {
  er_kind : error_kind;
  er_capability : option capability;
  er_requested : option string;
  er_modalities : list modality;
  er_context : option Z;
  er_alternatives : list string
}.

(** [_chat_request_profile]. *)
Definition is_frame_bundle (a : attachment) : bool :=
  match at_source_type a with
  | JStr s => if (s =? "image_bundle")%string then true
              else match at_source_path a with Some _ => at_is_dir a | None => false end
  | _ => match at_source_path a with Some _ => at_is_dir a | None => false end
  end.

Definition chat_request_profile (messages : option (list message)) : request_modality * list modality :=
  match messages with
  | None => (TextOnly, [Text])
  | Some ms =>
      let attachments := concat (map ms_attachments ms) in
      let images := List.filter (fun a => at_type a =? "image")%string attachments in
      if nonempty images then
        (if existsb is_frame_bundle images then FrameBundleVideo else ImageConditioned, [Text; Vision])
      else if existsb (fun a => at_type a =? "audio")%string attachments then (AudioConditioned, [Text])
      else (TextOnly, [Text])
  end.

(** [_estimate_text_tokens]. *)
Definition estimate_text_tokens (text : string) : Z :=
  let n := Z.of_nat (String.length (strip text)) in
  if n =? 0 then 0 else Z.max 1 (- ((- n) / 4)).

Definition sum_tokens (texts : list string) : Z := foldr Z.add 0 (map estimate_text_tokens texts).

Section router.
Context (st : routing_settings) (manifests : list manifest) (ct : catalog).
  (** The registry's measured preference of a model for a scoped capability, and [str] of JSON. *)
Context (preference_of : string -> string -> option json) (py_str : json -> string).

(** [all_runtimes]: a runtime that is registered twice answers once; for what follows
    the first answer counts. *)
Definition all_runtimes : list runtime := map snd (ct_runtimes ct) ++ map snd (ct_endpoints ct).

(** [_counted_prompt_tokens] and [_estimate_chat_context_tokens]. *)
Definition counted_prompt_tokens (requested : option string) (ms : list message) : option Z :=
  match requested with
  | None => None
  | Some id =>
      match get_manifest manifests id with
      | None => None
      | Some m =>
          foldr (fun rt rest => match match rt_count_tokens rt with Some f => f (mf_id m) ms | None => None end with
                                | Some n => Some n
                                | None => rest
                                end) None all_runtimes
      end
  end.

Definition estimate_chat_context_tokens (requested : option string) (ms : option (list message)) (max_tokens : Z) : Z :=
  match ms with
  | None => max_tokens
  | Some ms =>
      match counted_prompt_tokens requested ms with
      | Some n => n
      | None => sum_tokens (map ms_content ms)
      end + Z.max 0 max_tokens
  end.

Definition estimate_embedding_context_tokens (inputs : option (list string)) : option Z :=
  match inputs with None | Some [] => None | Some l => Some (sum_tokens l) end.

Definition estimate_rerank_context_tokens (query : option string) (documents : option (list string)) : option Z :=
  match truthy query, documents with
  | false, (None | Some []) => None
  | _, (None | Some []) => Some (estimate_text_tokens (default "" query))
  | _, Some (d :: ds) =>
      let q := estimate_text_tokens (default "" query) in
      Some (foldl (fun best d => Z.max best (q + estimate_text_tokens d)) (q + estimate_text_tokens d) ds)
  end.

(** ** Scores *)

Definition plan_of (m : manifest) : option serving_plan :=
  build_frontier_serving_plan (moe_bounded_memory_mode st) (moe_resident_expert_count st) m.

(** [_memory_budget_mb]. *)
Definition memory_budget : option Z :=
  match ct_host_memory ct with
  | None => None
  | Some host =>
      let factor := match runtime_policy_of st with
                    | KeepWarm => int_truediv 8 10
                    | Balanced => int_truediv 55 100
                    | AggressiveUnload => int_truediv 35 100
                    end in
      Some (Z.max 256 (default 0 (f_trunc (fmul (f_of_Z host) factor))))
  end.

(** [_routing_memory_estimate_mb]. *)
Definition routing_memory (m : manifest) : option Z :=
  match plan_of m with
  | None => mf_memory m
  | Some p =>
      match pl_planned p, mf_memory m with
      | Some planned, Some full =>
          if member (mf_subtype m) [Moe; HybridMoe] && negb (pl_mode p =? "off")%string && (planned <? full)
          then Some planned else Some full
      | _, full => full
      end
  end.

(** [_modality_routing_details]. *)
Definition modality_details (m : manifest) (rt : runtime) (rm : option request_modality)
    : option modality_path * option string :=
  match rm with
  | None => (None, None)
  | Some TextOnly =>
      if member (rt_affinity rt) (mf_text_affinity m) then
        let source := or_text (mf_text_source m) "same_bundle" in
        let detail := if (source =? "paired_artifact")%string then "paired text artifact" else "same-bundle text runtime" in
        (Some TextFastPath,
         Some (or_text (mf_text_reason m)
                 ("Text-only requests can prefer the declared " +:+ detail +:+ " for this multimodal model.")))
      else if member Multimodal (mf_modality m) then
        (Some MultimodalDefault,
         Some "No safe text-only runtime or paired text artifact was declared for this multimodal bundle.")
      else (Some TextDefault, Some "The request did not require multimodal conditioning.")
  | Some other =>
      if member (rt_affinity rt) (mf_affinity m) && any_modality [Vision; Multimodal] m then
        (Some MultimodalDefault,
         Some (match other with
               | FrameBundleVideo => "Frame-bundle or video-style image attachments require the multimodal runtime path."
               | ImageConditioned => "Image attachments require the multimodal runtime path."
               | _ => "Audio-conditioned requests disable the multimodal text-only fast path."
               end))
      else (Some TextDefault, Some "The request stayed on a text-native path after attachment preprocessing.")
  end.

(** [_runtime_preference_payload] and [_runtime_preference_assessment]. *)
Definition preference_payload (m : manifest) (c : capability) (rm : option request_modality) : option json :=
  if bool_decide (rm = Some TextOnly) && nonempty (mf_text_affinity m) then
    match preference_of (mf_id m) (capability_value c +:+ ":text_only") with
    | Some p => Some p
    | None => if decide (c = Streaming) then preference_of (mf_id m) "chat:text_only" else None
    end
  else
    match preference_of (mf_id m) (capability_value c) with
    | Some p => Some p
    | None => if decide (c = Streaming) then preference_of (mf_id m) "chat" else None
    end.

Definition preference_assessment (m : manifest) (c : capability) (rm : option request_modality) : option assessment :=
  assess_runtime_preference (preference_payload m c rm).

(** [runtime_preference_comparison_suffix]. *)
Definition comparison_suffix (a : assessment) : string :=
  match as_metric a, as_selected_value a, as_baseline_value a with
  | Some metric, Some x, Some y => " (" +:+ metric +:+ ": " +:+ py_str x +:+ " vs " +:+ py_str y +:+ ")"
  | _, _, _ => ""
  end.

(** A score so far with its reasons; [inr] is a candidate that is rejected. *)
Definition scored : Type := f64 * list string.

Definition add_score (x : f64) (reason : string) (s : scored) : scored := (fadd s.1 x, s.2 ++ [reason]).

(** The steps of [_score_candidate], in order. *)
Definition score_context (rq : route_request) (m : manifest) (rt : runtime) (s : scored) : scored + string :=
  match rq_context rq with
  | None => inl s
  | Some wanted =>
      match rt_context rt m with
      | None =>
          if unknown_context_token_limit st <=? wanted then
            inr (mf_id m +:+ ": context length is unknown, and the estimated request size of " +:+ pretty wanted
                 +:+ " tokens is at or above the " +:+ pretty (unknown_context_token_limit st)
                 +:+ "-token limit LewLM routes to an unmeasured model (`LEWLM_UNKNOWN_CONTEXT_TOKEN_LIMIT`).")
          else inl (fsub s.1 (f_of_Z 2), s.2 ++ ["context length unknown"])
      | Some served =>
          if served <? wanted then
            inr (mf_id m +:+ ": "
                 +:+ (if decide (mf_context m = Some served) then "context length " +:+ pretty served
                      else "served context length " +:+ pretty served +:+ " (model advertises "
                           +:+ match mf_context m with Some n => pretty n | None => "None" end
                           +:+ ", bounded by `" +:+ rt_name rt +:+ "`'s configured ceiling)")
                 +:+ " is below the estimated request size of " +:+ pretty wanted +:+ " tokens.")
          else
            inl (add_score (fmin (f_of_Z 20) (int_truediv (served - wanted) 1024))
                   ("context fit " +:+ pretty wanted +:+ "/" +:+ pretty served +:+ " tokens") s)
      end
  end.

Definition score_memory (m : manifest) (rt : runtime) (s : scored) : scored + string :=
  match mf_memory m with
  | None => inl (fsub s.1 (f_of_Z 1), s.2 ++ ["memory estimate unavailable"])
  | Some estimated =>
      if decide (rt_affinity rt = ExternalAccelerator) then
        inl (s.1, s.2 ++ ["memory " +:+ pretty estimated +:+ " MB held by the external engine"])
      else
        match memory_budget with
        | None => inl s
        | Some budget =>
            if match routing_memory m with Some n => budget <? n | None => false end then
              inr (mf_id m +:+ ": estimated memory " +:+ shown (routing_memory m) +:+ " MB exceeds the `"
                   +:+ policy_value (runtime_policy_of st) +:+ "` routing budget of " +:+ pretty budget +:+ " MB.")
            else
              let counted := int_or (routing_memory m) estimated in
              let fit := int_truediv counted (Z.max 1 budget) in
              inl (add_score (fmax (f_of_Z 2) (fmul (fsub (f_of_Z 1) fit) (f_of_Z 24)))
                     ("memory fit " +:+ pretty counted +:+ "/" +:+ pretty budget +:+ " MB") s)
        end
  end.

Definition score_loaded (m : manifest) (rt : runtime) (s : scored) : scored :=
  if rt_loaded rt (mf_id m) then
    add_score (f_of_Z (match runtime_policy_of st with KeepWarm => 45 | Balanced => 20 | AggressiveUnload => 6 end))
      "already loaded" s
  else
    add_score (f_of_Z (match runtime_policy_of st with KeepWarm => 0 | Balanced => 4 | AggressiveUnload => 1 end))
      "not yet loaded" s.

Fixpoint index_of (a : affinity) (l : list affinity) : nat :=
  match l with
  | [] => 0
  | b :: l' => if decide (a = b) then 0 else S (index_of a l')
  end.

(** [max(0.0, 4.0 - affinity_rank)]: the difference of small integers is exact. *)
Definition affinity_bonus (m : manifest) (rt : runtime) : f64 :=
  f_of_Z (Z.max 0 (4 - Z.of_nat (index_of (rt_affinity rt) (mf_affinity m)))).

Definition memory_penalty (estimated : Z) : f64 :=
  int_truediv estimated (match runtime_policy_of st with AggressiveUnload => 256 | Balanced => 1024 | KeepWarm => 4096 end).

Definition score_size (m : manifest) (rt : runtime) (s : scored) : scored :=
  let s := (s.1, s.2 ++ option_list (frontier_plan_summary py_str (plan_of m))) in
  let s := (fadd s.1 (affinity_bonus m rt), s.2) in
  match mf_memory m with
  | Some estimated => (fsub s.1 (memory_penalty estimated), s.2)
  | None => s
  end.

Definition score_modality (rq : route_request) (m : manifest) (rt : runtime) (s : scored) : scored :=
  let s := if bool_decide (rq_capability rq = ChatCapability) && member Vision (rq_modalities rq) && member Vision (mf_modality m)
           then add_score (f_of_Z 8) "includes required vision support" s else s in
  let '(path, path_reason) := modality_details m rt (rq_modality rq) in
  let s :=
    if bool_decide (rq_modality rq = Some TextOnly) && nonempty (mf_text_affinity m) then
      if member (rt_affinity rt) (mf_text_affinity m) then add_score (f_of_Z 80) "text-only fast path enabled" s
      else if member (rt_affinity rt) (mf_affinity m) then
        (fsub s.1 (f_of_Z 40), s.2 ++ ["text-only request would stay on the default multimodal runtime"])
      else s
    else
      match rq_modality rq, path with
      | Some _, Some MultimodalDefault =>
          (s.1, s.2 ++ ["attachment-bearing request stayed on the multimodal runtime"])
      | _, _ => s
      end in
  match path_reason with
  | Some r => if member r s.2 then s else (s.1, s.2 ++ [r])
  | None => s
  end.

(** [_structured_output_score]. *)
Definition structured_output_score (rt : runtime) : f64 * string :=
  match rt_structured rt with
  | Some status =>
      if ss_decoder_enforced status then (f_of_Z 48, "decode-time structured output available")
      else if ss_fallback_used status then (f_of_Z (-24), "structured output would use prompt-guided fallback")
      else (f_of_Z (-12), "structured-output enforcement is not advertised on this path")
  | None => (f_of_Z (-12), "structured-output enforcement is not advertised on this path")
  end.

Definition score_structured (rq : route_request) (rt : runtime) (s : scored) : scored :=
  if rq_structured rq then let '(x, reason) := structured_output_score rt in add_score x reason s else s.

Definition name_or_affinity (a : assessment) : string :=
  match or_else (as_name a) (as_affinity a) with Some s => s | None => "None" end.

Definition score_preference (rq : route_request) (m : manifest) (rt : runtime) (s : scored) : scored :=
  match preference_assessment m (rq_capability rq) (rq_modality rq) with
  | None => s
  | Some a =>
      if preference_matches a rt then
        add_score (f_of_Z 32)
          (if as_adopted a then "benchmark preferred `" +:+ rt_name rt +:+ "`" +:+ comparison_suffix a
           else "measured downgrade kept `" +:+ rt_name rt +:+ "` as the safe default"
                +:+ match as_downgrade a with Some why => " because " +:+ why | None => "" end) s
      else
        (fsub s.1 (f_of_Z 6),
         s.2 ++ [if as_adopted a then "benchmark preference favored `" +:+ name_or_affinity a +:+ "`"
                 else "measured downgrade kept `" +:+ name_or_affinity a +:+ "` as the safe default"])
  end.

(** [_score_candidate]: a scored candidate, or why it is rejected. *)
Definition score_candidate (rq : route_request) (m : manifest) (rt : runtime) : candidate + string :=
  match score_context rq m rt (fzero, []) with
  | inr why => inr why
  | inl s =>
      match score_memory m rt s with
      | inr why => inr why
      | inl s =>
          let s := score_size m rt (score_loaded m rt s) in
          let s := score_preference rq m rt (score_structured rq rt (score_modality rq m rt s)) in
          inl {| cd_manifest := m; cd_runtime := rt; cd_score := s.1; cd_reasons := s.2 |}
      end
  end.

(** ** Ranking *)

(** The keys [(-score, display_name.casefold(), model_id)] and, among the runtimes of
    one model, the runtime's name. *)
Definition key_before (a b : candidate) : bool :=
  if feqb (cd_score a) (cd_score b) then
    let na := casefold (mf_display_name (cd_manifest a)) in
    let nb := casefold (mf_display_name (cd_manifest b)) in
    if (na =? nb)%string then String.ltb (mf_id (cd_manifest a)) (mf_id (cd_manifest b)) else String.ltb na nb
  else fltb (cd_score b) (cd_score a).

Definition key_equal (a b : candidate) : bool :=
  feqb (cd_score a) (cd_score b)
  && (casefold (mf_display_name (cd_manifest a)) =? casefold (mf_display_name (cd_manifest b)))%string
  && (mf_id (cd_manifest a) =? mf_id (cd_manifest b))%string.

Definition runtime_before (a b : candidate) : bool :=
  if key_equal a b then String.ltb (rt_name (cd_runtime a)) (rt_name (cd_runtime b)) else key_before a b.

(** [_rank_runtime_candidates]: the candidates, best first, and what is noted of the
    others.  Without a compatible runtime the list is empty. *)
Definition rank_runtime_candidates (rq : route_request) (m : manifest) : list candidate * list string :=
  let '(runtimes, notes) := compatible_runtimes ct m (Some (rq_capability rq)) (rq_modality rq) in
  let tried := map (score_candidate rq m) runtimes in
  (sort_by runtime_before (omap (fun x => match x with inl c => Some c | inr _ => None end) tried),
   map (fun n => mf_id m +:+ ": " +:+ n) notes
   ++ omap (fun x => match x with inl _ => None | inr why => Some why end) tried).

(** [_preferred_runtime]; the list is not empty. *)
Definition preferred_runtime (m : manifest) (c : capability) (rm : option request_modality) (rts : list runtime) : option runtime :=
  match preference_assessment m c rm with
  | None => head rts
  | Some a => match List.find (preference_matches a) rts with Some rt => Some rt | None => head rts end
  end.

(** ** Decisions *)

Definition meta_string (key : string) (m : manifest) : option string :=
  match meta key m with JStr s => if (s =? "")%string then None else Some s | _ => None end.

(** [_execution_locality]. *)
Definition execution_locality (m : manifest) (rt : runtime) : string :=
  match meta_string "execution_locality" m, meta_string "ollama_execution_locality" m with
  | Some s, _ => s
  | None, Some s => s
  | None, None => if decide (rt_affinity rt = ExternalAccelerator) then "loopback_unverified" else "host_local"
  end.

(** [_runtime_label]. *)
Definition runtime_label (rt : runtime) : string :=
  match support_path_for (rt_affinity rt) with
  | Bridge => "bridge-backed `" +:+ rt_name rt +:+ "`"
  | Packaged => "`" +:+ rt_name rt +:+ "`"
  end.

(** [_build_explicit_reason]. *)
Definition explicit_reason (m : manifest) (rt : runtime) (rq : route_request) (score_reasons : list string) : string :=
  let fit := match rq_context rq, rt_context rt m with
             | Some wanted, Some served => ["context fit " +:+ pretty wanted +:+ "/" +:+ pretty served +:+ " tokens"]
             | _, _ => []
             end in
  let memory :=
    match mf_memory m with
    | None => []
    | Some estimated =>
        let counted := pretty (int_or (routing_memory m) estimated) in
        [match memory_budget with
         | Some budget => "estimated memory " +:+ counted +:+ "/" +:+ pretty budget +:+ " MB under `"
                          +:+ policy_value (runtime_policy_of st) +:+ "` policy"
         | None => "estimated memory " +:+ counted +:+ " MB"
         end]
    end in
  let notes := ["using explicitly requested model `" +:+ mf_id m +:+ "` via " +:+ runtime_label rt +:+ " for `"
                +:+ capability_value (rq_capability rq) +:+ "`"]
               ++ fit ++ memory ++ (if rt_loaded rt (mf_id m) then ["model already loaded"] else [])
               ++ score_reasons ++ option_list (frontier_plan_summary py_str (plan_of m)) in
  capitalize (String.concat "; " notes) +:+ ".".

(** [_build_candidate_reason]. *)
Definition candidate_reason (c : candidate) (rq : route_request) : string :=
  "Automatically selected `" +:+ mf_id (cd_manifest c) +:+ "` via " +:+ runtime_label (cd_runtime c) +:+ " for `"
  +:+ capability_value (rq_capability rq) +:+ "` under `" +:+ policy_value (runtime_policy_of st)
  +:+ "` policy (score " +:+ format_1f (cd_score c) +:+ "; " +:+ String.concat "; " (cd_reasons c) +:+ ").".

(** [_build_routing_decision]. *)
Definition build_decision (c : candidate) (rq : route_request) (explicit : bool) (alternatives : list string) : routing_decision :=
  let m := cd_manifest c in
  let rt := cd_runtime c in
  let '(path, path_reason) := modality_details m rt (rq_modality rq) in
  {| rd_model := mf_id m; rd_runtime := rt_name rt; rd_affinity := rt_affinity rt;
     rd_support := support_path_for (rt_affinity rt);
     rd_reason := if explicit then explicit_reason m rt rq (cd_reasons c) else candidate_reason c rq;
     rd_modality := rq_modality rq; rd_path := path; rd_path_reason := path_reason; rd_alternatives := alternatives;
     rd_endpoint := option_map ep_id (rt_endpoint rt); rd_profile := option_map ep_profile (rt_endpoint rt);
     rd_locality := Some (execution_locality m rt); rd_fallback_from := None; rd_fallback_reason := None |}.

Definition lower_score (c : candidate) : string :=
  mf_id (cd_manifest c) +:+ " via " +:+ rt_name (cd_runtime c) +:+ ": lower routing score (" +:+ format_1f (cd_score c) +:+ ").".

(** What is said of the others: notes first, then the next in rank. *)
Definition decision_alternatives (notes : list string) (ranked : list candidate) : list string :=
  take 4 notes ++ map lower_score (take 3 (tail ranked)).

(** ** Endpoints that are down *)

(** [_endpoint_error_details]: the endpoint of a bound model, with its state. *)
Definition endpoint_details (m : manifest) : option (string * option endpoint_snapshot) :=
  match meta "external_endpoint_id" m with
  | JStr id => Some (id, match dget id (ct_endpoints ct) with Some rt => rt_snapshot rt | None => None end)
  | _ => None
  end.

(** [_endpoint_is_down]. *)
Definition endpoint_is_down (details : option (string * option endpoint_snapshot)) : bool :=
  match details with
  | Some (_, Some s) => negb (es_enabled s) || member (es_inventory_state s) ["failed"; "stale"]
  | _ => false
  end.

(** ** Routes *)

(** [_routing_error], without its guidance. *)
Definition routing_failure (kind : error_kind) (c : option capability) (requested : option string)
    (rq : route_request) (alternatives : list string) : routing_error :=
  {| er_kind := kind; er_capability := c; er_requested := requested; er_modalities := rq_modalities rq;
     er_context := rq_context rq; er_alternatives := alternatives |}.

(** [_candidate_manifests] of a requested model, and of any. *)
Definition requested_manifest (id : string) (rq : route_request) : result routing_error manifest :=
  let fail kind := Err (routing_failure kind None (Some id) rq []) in
  match get_manifest manifests id with
  | None => fail ModelNotFound
  | Some m =>
      if negb (bool_decide (mf_status m = Runnable)) then fail NotRunnable
      else if nonempty (rq_modalities rq) && negb (all_modalities (rq_modalities rq) m) then fail MissingModalities
      else if match rq_context rq, mf_context m with Some wanted, Some n => n <? wanted | _, _ => false end
           then fail ContextTooShort
      else Ok m
  end.

Definition automatic_manifests (rq : route_request) : result routing_error (list manifest) :=
  match List.filter (fun m => bool_decide (mf_status m = Runnable) && all_modalities (rq_modalities rq) m) manifests with
  | [] => Err (routing_failure NoRegisteredModel None None rq [])
  | ms => Ok ms
  end.

Definition routed : Type := manifest * runtime * routing_decision.

(** [_explicit_fallback]: the substitute, or what is noted (without the text of the
    alias's own error). *)
Definition explicit_fallback (m : manifest) (rq : route_request) (alternatives : list string) : routed + list string :=
  match external_fallback_policy st, is_uri_source (mf_source_path m) with
  | ExplicitAlias, true =>
      match dget (mf_id m) (external_fallback_aliases st) with
      | None => inr (alternatives ++ [mf_id m +:+ ": no fallback alias configured in external_fallback_aliases."])
      | Some alias =>
          match requested_manifest alias rq with
          | Err _ => inr (alternatives ++ [mf_id m +:+ ": fallback alias `" +:+ alias +:+ "` is not usable."])
          | Ok am =>
              let '(ranked, notes) := rank_runtime_candidates rq am in
              let alternatives := alternatives ++ notes in
              match ranked with
              | [] => inr (alternatives ++ [mf_id m +:+ ": fallback alias `" +:+ alias +:+ "` has no ready runtime either."])
              | c :: _ =>
                  let why := "Requested model `" +:+ mf_id m +:+ "` on endpoint `"
                             +:+ match meta "external_endpoint_id" m with JNull => "None" | JStr s => s | v => py_str v end
                             +:+ "` had no ready runtime; substituted the operator-configured alias `" +:+ mf_id am
                             +:+ "` before submission." in
                  let d := build_decision c rq true (decision_alternatives alternatives ranked) in
                  inl (cd_manifest c, cd_runtime c,
                       d <| rd_reason := why +:+ " " +:+ rd_reason d |> <| rd_fallback_from := Some (mf_id m) |>
                         <| rd_fallback_reason := Some why |>)
              end
          end
      end
  | _, _ => inr alternatives
  end.

(** [route_capability] of a requested model. *)
Definition route_requested (id : string) (rq : route_request) : result routing_error routed :=
  let? m := requested_manifest id rq in
  let '(ranked, notes) := rank_runtime_candidates rq m in
  match ranked with
  | c :: _ =>
      Ok (cd_manifest c, cd_runtime c, build_decision c rq true (decision_alternatives notes ranked))
  | [] =>
      match explicit_fallback m rq notes with
      | inl r => Ok r
      | inr notes =>
          let details := endpoint_details m in
          let kind := match details with
                      | Some (endpoint_id, _) => if endpoint_is_down details then EngineDown endpoint_id else NoRuntimeForModel
                      | None => NoRuntimeForModel
                      end in
          Err (routing_failure kind (Some (rq_capability rq)) (Some id) rq (take 8 notes))
      end
  end.

(** [route_capability] of no model in particular. *)
Definition route_automatic (rq : route_request) : result routing_error routed :=
  let? ms := automatic_manifests rq in
  let ranked := map (rank_runtime_candidates rq) ms in
  let notes := concat (map snd ranked) in
  match sort_by key_before (concat (map fst ranked)) with
  | [] => Err (routing_failure NoCandidate (Some (rq_capability rq)) None rq (take 8 notes))
  | c :: others =>
      Ok (cd_manifest c, cd_runtime c, build_decision c rq false (decision_alternatives notes (c :: others)))
  end.

Definition route_capability (requested : option string) (rq : route_request) : result routing_error routed :=
  match requested with Some id => route_requested id rq | None => route_automatic rq end.

Definition route_chat (requested : option string) (ms : option (list message)) (max_tokens : Z) (structured : bool)
    : result routing_error routed :=
  let '(rm, modalities) := chat_request_profile ms in
  route_capability requested
    {| rq_capability := ChatCapability; rq_modalities := modalities;
       rq_context := Some (estimate_chat_context_tokens requested ms max_tokens); rq_modality := Some rm;
       rq_structured := structured |}.

Definition plain_request (c : capability) (modalities : list modality) (context : option Z) : route_request :=
  {| rq_capability := c; rq_modalities := modalities; rq_context := context; rq_modality := None; rq_structured := false |}.

Definition route_embeddings (requested : option string) (inputs : option (list string)) : result routing_error routed :=
  route_capability requested (plain_request Embeddings [Embedding] (estimate_embedding_context_tokens inputs)).

Definition route_rerank (requested query : option string) (documents : option (list string)) : result routing_error routed :=
  route_capability requested (plain_request RerankCapability [Rerank] (estimate_rerank_context_tokens query documents)).

Definition route_audio_transcription (requested : option string) : result routing_error routed :=
  route_capability requested (plain_request AudioTranscription [Audio] None).

Definition route_audio_speech (requested : option string) : result routing_error routed :=
  route_capability requested (plain_request AudioSpeech [Audio] None).

(** [route_lifecycle]. *)
Definition route_lifecycle (id : string) : result routing_error routed :=
  let fail kind := Err {| er_kind := kind; er_capability := None; er_requested := Some id; er_modalities := [];
                          er_context := None; er_alternatives := [] |} in
  match get_manifest manifests id with
  | None => fail ModelNotFound
  | Some m =>
      match select_lifecycle_runtime ct m None with
      | None => fail NoLifecycleRuntime
      | Some rt =>
          Ok (m, rt,
              {| rd_model := mf_id m; rd_runtime := rt_name rt; rd_affinity := rt_affinity rt;
                 rd_support := support_path_for (rt_affinity rt);
                 rd_reason := "Selected `" +:+ rt_name rt +:+ "` for lifecycle management of explicitly requested model `"
                              +:+ mf_id m +:+ "`.";
                 rd_modality := None; rd_path := None; rd_path_reason := None; rd_alternatives := []; rd_endpoint := None;
                 rd_profile := None; rd_locality := None; rd_fallback_from := None; rd_fallback_reason := None |})
      end
  end.

(** ** Readiness *)

Definition capability_priority : list capability :=
  [ChatCapability; Streaming; VisionCapability; Embeddings; RerankCapability; AudioTranscription; AudioSpeech].

(** [_capabilities_for_manifest]. *)
Definition capabilities_for (m : manifest) : list capability :=
  let l := (if any_modality [Text; Multimodal; Vision] m then [ChatCapability; Streaming] else [])
           ++ (if any_modality [Vision; Multimodal] m then [VisionCapability] else [])
           ++ (if member Embedding (mf_modality m) then [Embeddings] else [])
           ++ (if member Rerank (mf_modality m) then [RerankCapability] else [])
           ++ (if member Audio (mf_modality m)
               then List.filter (manifest_supports_audio_capability m) [AudioTranscription; AudioSpeech] else []) in
  List.filter (fun c => member c l) capability_priority.

Definition default_modality (c : capability) : option request_modality :=
  if member c [ChatCapability; Streaming] then Some TextOnly else None.

(** [_ready_and_blocked_capabilities]. *)
Definition is_ready (m : manifest) (c : capability) : bool := nonempty (fst (compatible_runtimes ct m (Some c) (default_modality c))).

Definition ready_and_blocked (m : manifest) (advertised : list capability) : list capability * list capability :=
  (List.filter (is_ready m) advertised, List.filter (fun c => negb (is_ready m c)) advertised).

(** [_chat_ready_fallback_alias]. *)
Definition chat_ready_fallback_alias (m : manifest) : option string :=
  match external_fallback_policy st, is_uri_source (mf_source_path m), dget (mf_id m) (external_fallback_aliases st) with
  | ExplicitAlias, true, Some alias =>
      match get_manifest manifests alias with
      | Some am => if bool_decide (mf_status am = Runnable) && is_ready am ChatCapability then Some (mf_id am) else None
      | None => None
      end
  | _, _, _ => None
  end.

(** [ModelCapabilityAvailability], without its reason and its binding. *)
Record availability := {
  av_model : string;
  av_servable : bool;
  av_chat_ready : bool;
  av_ready : list capability;
  av_blocked : list capability;
  av_fallback : option string
}.

(** [model_capability_availability]. *)
Definition model_capability_availability (m : manifest) : availability :=
  let advertised := capabilities_for m in
  if negb (bool_decide (mf_status m = Runnable)) then
    {| av_model := mf_id m; av_servable := false; av_chat_ready := false; av_ready := []; av_blocked := advertised;
       av_fallback := None |}
  else
    let '(ready, blocked) := ready_and_blocked m advertised in
    let chat_ready := member ChatCapability ready in
    {| av_model := mf_id m; av_servable := nonempty ready; av_chat_ready := chat_ready; av_ready := ready;
       av_blocked := blocked;
       av_fallback := if negb chat_ready && member ChatCapability advertised then chat_ready_fallback_alias m else None |}.

(** [annotate_inventory]: the availabilities with their counts. *)
Definition annotate_inventory (items : list manifest) : list availability * Z * Z :=
  let l := map model_capability_availability items in
  (l, Z.of_nat (length (List.filter av_servable l)), Z.of_nat (length (List.filter av_chat_ready l))).

Inductive readiness := ReadyState | NoModels | ConversionRequiredState | RuntimeUnavailableState | BlockedState.

(** [HostCapabilityReadiness], without its prose and support paths. *)
Record host_readiness := {
  hr_ready : bool;
  hr_state : readiness;
  hr_available : list string;
  hr_packaged : list string;
  hr_bridge : list string;
  hr_bridge_only : bool;
  hr_candidates : Z;
  hr_runnable : Z;
  hr_ready_models : list string;
  hr_blocked_models : list string;
  hr_conversion_models : list string
}.

(** [capability_readiness]. *)
Definition capability_readiness (c : capability) : host_readiness :=
  let candidates := List.filter (fun m => member c (capabilities_for m)) manifests in
  let convert := List.filter (fun m => bool_decide (mf_status m = RequiresConversion)) candidates in
  let runnable := List.filter (fun m => bool_decide (mf_status m = Runnable)) candidates in
  let usable m := fst (compatible_runtimes ct m (Some c) (default_modality c)) in
  let ready := List.filter (fun m => nonempty (usable m)) runnable in
  let blocked := List.filter (fun m => negb (bool_decide (mf_status m = RequiresConversion))
                                       && negb (bool_decide (mf_status m = Runnable) && nonempty (usable m))) candidates in
  let names p := sort_by String.ltb (remove_dups (map rt_name (List.filter p (concat (map usable ready))))) in
  let packaged := names (fun rt => match support_path_for (rt_affinity rt) with Packaged => true | Bridge => false end) in
  let bridge := names (fun rt => match support_path_for (rt_affinity rt) with Packaged => false | Bridge => true end) in
  {| hr_ready := nonempty ready;
     hr_state := if nonempty ready then ReadyState
                 else if negb (nonempty candidates) then NoModels
                 else if nonempty runnable then RuntimeUnavailableState
                 else if nonempty convert then ConversionRequiredState
                 else BlockedState;
     hr_available := names (fun _ => true); hr_packaged := packaged; hr_bridge := bridge;
     hr_bridge_only := nonempty bridge && negb (nonempty packaged);
     hr_candidates := Z.of_nat (length candidates); hr_runnable := Z.of_nat (length runnable);
     hr_ready_models := map mf_id ready; hr_blocked_models := map mf_id blocked; hr_conversion_models := map mf_id convert |}.

Inductive service_status := ServiceReady | ServicePartial | ServiceBlocked.

(** [capability_readiness_summary]: its status. *)
Definition readiness_status : service_status :=
  let n := length (List.filter hr_ready (map capability_readiness capability_priority)) in
  if (n =? length capability_priority)%nat then ServiceReady else if (0 <? n)%nat then ServicePartial else ServiceBlocked.
End router.

(** ** Which pairs can be routed *)

Section routing_proofs.
Context (st : routing_settings) (manifests : list manifest) (ct : catalog).
Context (preference_of : string -> string -> option json) (py_str : json -> string).

(** The request fits the context that the runtime serves, or is below the limit for
    models that do not say theirs. *)
Definition fits_context (rq : route_request) (m : manifest) (rt : runtime) : bool :=
  match rq_context rq, rt_context rt m with
  | None, _ => true
  | Some wanted, None => wanted <? unknown_context_token_limit st
  | Some wanted, Some served => wanted <=? served
  end.

(** The model fits the memory budget, unless another engine holds it or it is not
    known how large it is. *)
Definition fits_memory (m : manifest) (rt : runtime) : bool :=
  match mf_memory m, memory_budget st ct with
  | Some _, Some budget =>
      bool_decide (rt_affinity rt = ExternalAccelerator)
      || match routing_memory st m with Some n => n <=? budget | None => true end
  | _, _ => true
  end.

(** A pair that may serve the request, and a model that may be chosen for it. *)
Definition usable (rq : route_request) (m : manifest) (rt : runtime) : Prop :=
  rt ∈ fst (compatible_runtimes ct m (Some (rq_capability rq)) (rq_modality rq))
  /\ fits_context rq m rt = true /\ fits_memory m rt = true.

Definition eligible (rq : route_request) (m : manifest) : Prop :=
  m ∈ manifests /\ mf_status m = Runnable /\ all_modalities (rq_modalities rq) m = true.

Notation score := (score_candidate st ct preference_of py_str).
Notation rank := (rank_runtime_candidates st ct preference_of py_str).

Lemma score_context_fits rq m rt s :
  match score_context st rq m rt s with inl _ => fits_context rq m rt = true | inr _ => fits_context rq m rt = false end.
Proof.
  unfold score_context, fits_context. destruct (rq_context rq) as [wanted|]; [|done].
  destruct (rt_context rt m) as [served|].
  - destruct (served <? wanted) eqn:H; bool_prop; [apply Z.leb_gt|apply Z.leb_le]; lia.
  - destruct (_ <=? wanted) eqn:H; bool_prop; [apply Z.ltb_ge|apply Z.ltb_lt]; lia.
Qed.

Lemma score_memory_fits m rt s :
  match score_memory st ct m rt s with inl _ => fits_memory m rt = true | inr _ => fits_memory m rt = false end.
Proof.
  unfold score_memory, fits_memory. destruct (mf_memory m) as [e|]; [|done].
  destruct (decide (rt_affinity rt = ExternalAccelerator)) as [Ha|Ha].
  - rewrite bool_decide_true by done. by destruct (memory_budget st ct).
  - rewrite bool_decide_false by done. destruct (memory_budget st ct) as [b|]; [|done]. cbn [orb].
    destruct (routing_memory st m) as [n|]; [|done].
    destruct (b <? n) eqn:H; bool_prop; [apply Z.leb_gt|apply Z.leb_le]; lia.
Qed.

Lemma score_candidate_fits rq m rt :
  match score rq m rt with
  | inl c => cd_manifest c = m /\ cd_runtime c = rt /\ fits_context rq m rt = true /\ fits_memory m rt = true
  | inr _ => fits_context rq m rt = false \/ fits_memory m rt = false
  end.
Proof.
  unfold score_candidate. pose proof (score_context_fits rq m rt (fzero, [])) as Hc.
  destruct (score_context _ _ _ _ _) as [s|why]; [|by left].
  pose proof (score_memory_fits m rt s) as Hm. destruct (score_memory _ _ _ _ _) as [s'|why]; [by split_and!|by right].
Qed.

(** The candidates of a model are the usable runtimes, with their scores. *)
Lemma elem_rank rq m c :
  c ∈ fst (rank rq m)
  <-> exists rt, rt ∈ fst (compatible_runtimes ct m (Some (rq_capability rq)) (rq_modality rq)) /\ score rq m rt = inl c.
Proof.
  unfold rank_runtime_candidates. destruct (compatible_runtimes _ _ _ _) as [rts notes]. cbn [fst].
  rewrite elem_sort_by, list_elem_of_omap. split.
  - intros ([c'|why] & (rt & Heq & Hin)%list_elem_of_fmap & [= <-]). by exists rt.
  - intros (rt & Hin & Hs). exists (inl c). split; [|done]. apply list_elem_of_fmap. by exists rt.
Qed.

Lemma rank_usable rq m c : c ∈ fst (rank rq m) -> cd_manifest c = m /\ usable rq m (cd_runtime c).
Proof.
  intros (rt & Hin & Hs)%elem_rank. pose proof (score_candidate_fits rq m rt) as H. rewrite Hs in H.
  destruct H as (-> & -> & H1 & H2). by split_and!.
Qed.

Lemma usable_rank rq m rt : usable rq m rt -> exists c, score rq m rt = inl c /\ c ∈ fst (rank rq m).
Proof.
  intros (Hin & H1 & H2). pose proof (score_candidate_fits rq m rt) as H.
  destruct (score rq m rt) as [c|why] eqn:Hs; [|destruct H; congruence].
  exists c. split; [done|]. apply elem_rank. by exists rt.
Qed.

Lemma rank_nil rq m : fst (rank rq m) = [] <-> forall rt, ~ usable rq m rt.
Proof.
  split.
  - intros Hn rt (c & _ & Hc)%usable_rank. rewrite Hn in Hc. by apply not_elem_of_nil in Hc.
  - intros H. destruct (fst (rank rq m)) as [|c l] eqn:Hr; [done|]. exfalso. apply (H (cd_runtime c)).
    apply (rank_usable rq m c). rewrite Hr. by left.
Qed.

(** *** Manifests *)

Lemma resolve_selector_elem ms s m : resolve_manifest_selector ms s = Some m -> m ∈ ms.
Proof.
  unfold resolve_manifest_selector. destruct (_ =? "")%string; [done|].
  assert (Hu : forall p, resolve_unique ms p = Some m -> m ∈ ms).
  { intros p. unfold resolve_unique. destruct (List.filter p ms) as [|x [|y l]] eqn:Hf; [done| |done].
    intros [= ->]. apply list_elem_of_In. eapply (proj1 (filter_In p m ms)). rewrite Hf. by left. }
  cbn zeta. generalize [(fun x => casefold (mf_display_name x) =? casefold (strip s))%string;
    (fun x => casefold (path_name (mf_source_path x)) =? casefold (strip s))%string;
    (fun x => slugify (mf_display_name x) =? casefold (strip s))%string;
    (fun x => String.prefix (casefold (strip s)) (casefold (mf_id x)))].
  intros tries. induction tries as [|p tries IH]; [done|]. cbn [foldr].
  destruct (resolve_unique ms p) as [x|] eqn:Hx; [|done]. intros [= ->]. by apply (Hu p).
Qed.

Lemma get_manifest_elem ms id m : get_manifest ms id = Some m -> m ∈ ms.
Proof.
  unfold get_manifest. destruct (List.find _ ms) as [x|] eqn:Hf; [|apply resolve_selector_elem].
  intros [= ->]. apply find_some in Hf as [Hin _]. by apply list_elem_of_In.
Qed.

Lemma requested_manifest_Ok id rq m :
  requested_manifest manifests id rq = Ok m ->
  get_manifest manifests id = Some m /\ eligible rq m
  /\ match rq_context rq, mf_context m with Some wanted, Some n => wanted <= n | _, _ => True end.
Proof.
  unfold requested_manifest. destruct (get_manifest manifests id) as [x|] eqn:Hg; [|done].
  destruct (negb (bool_decide _)) eqn:Hr; [done|]. apply negb_false_iff, bool_decide_eq_true in Hr.
  destruct (nonempty _ && _)%bool eqn:Hm; [done|].
  destruct (match rq_context rq with Some _ => _ | None => _ end) eqn:Hc; [done|]. intros [= ->].
  split_and!; [done| |].
  - split_and!; [by eapply get_manifest_elem|done|].
    apply andb_false_iff in Hm as [Hm|Hm%negb_false_iff]; [|done]. by destruct (rq_modalities rq).
  - destruct (rq_context rq), (mf_context m); [|done..]. by bool_prop.
Qed.

Lemma automatic_manifests_Ok rq ms m : automatic_manifests manifests rq = Ok ms -> m ∈ ms <-> eligible rq m.
Proof.
  unfold automatic_manifests. destruct (List.filter _ manifests) as [|x l] eqn:Hf; [done|]. intros [= <-]. rewrite <- Hf.
  rewrite list_elem_of_In, filter_In, andb_true_iff, bool_decide_eq_true, <- list_elem_of_In. done.
Qed.

Lemma automatic_manifests_Err rq e m : automatic_manifests manifests rq = Err e -> ~ eligible rq m.
Proof.
  unfold automatic_manifests. destruct (List.filter _ manifests) as [|x l] eqn:Hf; [|done]. intros _ (H1 & H2 & H3).
  assert (Hin : m ∈ List.filter (fun m => bool_decide (mf_status m = Runnable) && all_modalities (rq_modalities rq) m)%bool manifests).
  { rewrite list_elem_of_In, filter_In, andb_true_iff, bool_decide_eq_true, <- list_elem_of_In. done. }
  rewrite Hf in Hin. by apply not_elem_of_nil in Hin.
Qed.

(** *** Decisions *)

Lemma build_decision_names c rq explicit alternatives :
  let d := build_decision st ct py_str c rq explicit alternatives in
  rd_model d = mf_id (cd_manifest c) /\ rd_runtime d = rt_name (cd_runtime c) /\ rd_fallback_from d = None.
Proof. unfold build_decision. by destruct (modality_details _ _ _). Qed.

Lemma explicit_fallback_inl m rq notes m' rt d :
  explicit_fallback st manifests ct preference_of py_str m rq notes = inl (m', rt, d) ->
  exists alias, external_fallback_policy st = ExplicitAlias /\ is_uri_source (mf_source_path m) = true
    /\ dget (mf_id m) (external_fallback_aliases st) = Some alias
    /\ requested_manifest manifests alias rq = Ok m' /\ usable rq m' rt
    /\ rd_fallback_from d = Some (mf_id m) /\ rd_model d = mf_id m' /\ rd_runtime d = rt_name rt
    /\ exists c, head (fst (rank rq m')) = Some c /\ cd_runtime c = rt.
Proof.
  unfold explicit_fallback. destruct (external_fallback_policy st); [done|].
  destruct (is_uri_source _); [|done]. destruct (dget _ _) as [alias|]; [|done].
  destruct (requested_manifest manifests alias rq) as [am|] eqn:Hreq; [|done].
  destruct (rank rq am) as [ranked more] eqn:Hr. destruct ranked as [|c l]; [done|]. intros [= <- <- <-].
  assert (Hc : c ∈ fst (rank rq am)) by (rewrite Hr; by left). pose proof (rank_usable rq am c Hc) as [Hm Hu].
  destruct (build_decision_names c rq true (decision_alternatives (notes ++ more) (c :: l))) as (H1 & H2 & _).
  rewrite Hm in *. exists alias. split_and!; try done. exists c. by rewrite Hr.
Qed.

Lemma route_requested_Ok id rq m rt d :
  route_requested st manifests ct preference_of py_str id rq = Ok (m, rt, d) ->
  exists m0, requested_manifest manifests id rq = Ok m0
    /\ ((m = m0 /\ usable rq m rt /\ rd_model d = mf_id m /\ rd_runtime d = rt_name rt /\ rd_fallback_from d = None
         /\ exists c, head (fst (rank rq m)) = Some c /\ cd_runtime c = rt)
        \/ (fst (rank rq m0) = [] /\ exists notes, explicit_fallback st manifests ct preference_of py_str m0 rq notes = inl (m, rt, d))).
Proof.
  unfold route_requested. intros (m0 & Hreq & H)%rbind_Ok. exists m0. split; [done|].
  destruct (rank rq m0) as [ranked notes] eqn:Hr. destruct ranked as [|c l].
  - right. split; [done|]. destruct (explicit_fallback _ _ _ _ _ m0 rq notes) as [r|] eqn:Hf; [|done].
    exists notes. by injection H as ->.
  - left. injection H as <- <- <-. assert (Hc : c ∈ fst (rank rq m0)) by (rewrite Hr; by left).
    pose proof (rank_usable rq m0 c Hc) as [Hm Hu].
    destruct (build_decision_names c rq true (decision_alternatives notes (c :: l))) as (H1 & H2 & H3).
    rewrite Hm in *. split_and!; try done. exists c. by rewrite Hr.
Qed.

(** *** Scores are numbers

    Everything that is added to a score is finite, but for the share of memory, which
    is at least 2, so no score is a NaN and ranking is by a weak order. *)

Definition sized (m : manifest) : Prop :=
  match mf_memory m with Some e => f_is_finite (memory_penalty st e) = true | None => True end.

Definition number (s : scored) : Prop := f_is_nan s.1 = false.

Lemma add_score_number x reason s : f_is_finite x = true -> number s -> number (add_score x reason s).
Proof. intros Hx Hs. by apply fadd_not_nan. Qed.

Lemma sub_score_number x reasons s : f_is_finite x = true -> number s -> number (fsub s.1 x, reasons).
Proof. intros Hx Hs. by apply fsub_not_nan. Qed.

Lemma fmin_finite x : f_is_nan x = false -> x <> S754_infinity true -> f_is_finite (fmin (f_of_Z 20) x) = true.
Proof. destruct x as [s|[]| |s m e]; intros H1 H2; try done. unfold fmin. by destruct (fltb _ _). Qed.

Lemma fmax_number x : f_is_nan (fmax (f_of_Z 2) x) = false.
Proof. unfold fmax. destruct (fltb (f_of_Z 2) x) eqn:H; [|done]. by destruct x. Qed.

Lemma affinity_bonus_finite m rt : f_is_finite (affinity_bonus m rt) = true.
Proof.
  unfold affinity_bonus. destruct (index_of (rt_affinity rt) (mf_affinity m)) as [|[|[|[|n]]]]; try done.
  by replace (Z.max 0 (4 - Z.of_nat (S (S (S (S n)))))) with 0 by lia.
Qed.

Lemma score_context_number rq m rt s :
  score_context st rq m rt (fzero, []) = inl s -> f_is_finite s.1 = true.
Proof.
  unfold score_context. destruct (rq_context rq) as [wanted|]; [|by intros [= <-]].
  destruct (rt_context rt m) as [served|].
  - destruct (served <? wanted) eqn:H; [done|]. intros [= <-]. bool_prop. unfold add_score. cbn [fst].
    destruct (truediv_sign (served - wanted) 1024 ltac:(lia) ltac:(lia)) as [H1 H2].
    pose proof (fmin_finite _ H1 H2) as Hf. destruct (fmin _ _) as [[]|[]| |]; done.
  - destruct (_ <=? wanted); [done|]. by intros [= <-].
Qed.

Lemma score_memory_number m rt s s' :
  f_is_finite s.1 = true -> score_memory st ct m rt s = inl s' -> number s'.
Proof.
  intros Hs. assert (Hn : number s) by (unfold number; by destruct s.1).
  unfold score_memory. destruct (mf_memory m) as [e|]; [|by intros [= <-]; apply sub_score_number].
  destruct (decide _); [by intros [= <-]|]. destruct (memory_budget st ct) as [b|]; [|by intros [= <-]].
  destruct (match routing_memory st m with Some n => b <? n | None => false end); [done|]. intros [= <-].
  apply fadd_pos_not_nan; [done|apply fmax_number].
Qed.

Lemma score_loaded_number m rt s : number s -> number (score_loaded st m rt s).
Proof. intros Hs. unfold score_loaded. destruct (rt_loaded rt _); apply add_score_number; by destruct (runtime_policy_of st). Qed.

Lemma score_size_number m rt s : sized m -> number s -> number (score_size st py_str m rt s).
Proof.
  intros Hm Hs. unfold score_size, sized in *. cbn zeta. cbn [fst snd].
  assert (H1 : f_is_nan (fadd s.1 (affinity_bonus m rt)) = false) by (apply fadd_not_nan; [done|apply affinity_bonus_finite]).
  destruct (mf_memory m) as [e|]; [|done]. by apply fsub_not_nan.
Qed.

Lemma score_modality_number rq m rt s : number s -> number (score_modality rq m rt s).
Proof.
  intros Hs. unfold score_modality.
  set (s1 := if (_ && _ && _)%bool then add_score _ _ s else s).
  assert (H1 : number s1) by (unfold s1; destruct (_ && _)%bool; [by apply add_score_number|done]). clearbody s1.
  destruct (modality_details m rt (rq_modality rq)) as [path why].
  set (s2 := if (_ && _)%bool then _ else _).
  assert (H2 : number s2).
  { unfold s2. destruct (_ && _)%bool; [|by destruct (rq_modality rq), path as [[]|]].
    destruct (member _ (mf_text_affinity m)); [by apply add_score_number|].
    destruct (member _ _); [by apply sub_score_number|done]. }
  clearbody s2. destruct why as [r|]; [|done]. by destruct (member r s2.2).
Qed.

Lemma score_rest_number rq m rt s :
  number s -> number (score_preference preference_of py_str rq m rt (score_structured rq rt s)).
Proof.
  intros Hs. assert (H1 : number (score_structured rq rt s)).
  { unfold score_structured, structured_output_score. destruct (rq_structured rq); [|done].
    destruct (rt_structured rt) as [x|]; [|by apply add_score_number].
    destruct (ss_decoder_enforced x), (ss_fallback_used x); by apply add_score_number. }
  unfold score_preference. destruct (preference_assessment _ _ _ _) as [a|]; [|done].
  destruct (preference_matches a rt); [by apply add_score_number|by apply sub_score_number].
Qed.

Lemma score_candidate_number rq m rt c : sized m -> score rq m rt = inl c -> f_is_nan (cd_score c) = false.
Proof.
  intros Hm. unfold score_candidate. destruct (score_context _ _ _ _ _) as [s|] eqn:Hc; [|done].
  destruct (score_memory _ _ _ _ _) as [s'|] eqn:Hs; [|done]. intros [= <-]. cbn [cd_score].
  apply score_rest_number, score_modality_number, score_size_number; [done|]. apply score_loaded_number.
  eapply score_memory_number; [by eapply score_context_number|done].
Qed.

(** *** The order of candidates *)

Definition real_score (c : candidate) : Prop := f_is_nan (cd_score c) = false.

Lemma score_part :
  part_of_key real_score (fun a b => feqb (cd_score a) (cd_score b)) (fun a b => fltb (cd_score b) (cd_score a))
    (Z * Z * Z) (fun c => f_rank (cd_score c)) (fun x y => rank_lt y x).
Proof.
  split.
  - unfold rank_lt. lia.
  - unfold rank_lt. lia.
  - intros [[x1 x2] x3] [[y1 y2] y3]. unfold rank_lt. cbn [fst snd].
    destruct (Z.lt_total x1 y1) as [?|[->|?]], (Z.lt_total x2 y2) as [?|[->|?]], (Z.lt_total x3 y3) as [?|[->|?]];
      try (by left); right; lia.
  - intros a b Ha Hb. by apply feqb_rank.
  - intros a b Ha Hb. by apply fltb_rank.
Qed.

Lemma weak_order_keys rest :
  weak_order rest real_score ->
  weak_order (lexicographic (fun a b => feqb (cd_score a) (cd_score b)) (fun a b => fltb (cd_score b) (cd_score a))
    (lexicographic (fun a b => casefold (mf_display_name (cd_manifest a)) =? casefold (mf_display_name (cd_manifest b)))%string
       (fun a b => String.ltb (casefold (mf_display_name (cd_manifest a))) (casefold (mf_display_name (cd_manifest b)))) rest))
    real_score.
Proof.
  intros H. eapply weak_order_lexicographic; [apply score_part|]. eapply weak_order_lexicographic; [|exact H].
  apply (string_part real_score (fun c => casefold (mf_display_name (cd_manifest c)))).
Qed.

Lemma key_before_weak_order : weak_order key_before real_score.
Proof. exact (weak_order_keys _ (string_weak_order _ (fun c => mf_id (cd_manifest c)))). Qed.

Lemma runtime_before_lexicographic a b :
  runtime_before a b
  = lexicographic (fun a b => feqb (cd_score a) (cd_score b)) (fun a b => fltb (cd_score b) (cd_score a))
      (lexicographic (fun a b => casefold (mf_display_name (cd_manifest a)) =? casefold (mf_display_name (cd_manifest b)))%string
         (fun a b => String.ltb (casefold (mf_display_name (cd_manifest a))) (casefold (mf_display_name (cd_manifest b))))
         (lexicographic (fun a b => mf_id (cd_manifest a) =? mf_id (cd_manifest b))%string
            (fun a b => String.ltb (mf_id (cd_manifest a)) (mf_id (cd_manifest b)))
            (fun a b => String.ltb (rt_name (cd_runtime a)) (rt_name (cd_runtime b))))) a b.
Proof.
  unfold runtime_before, key_equal, key_before, lexicographic.
  destruct (feqb _ _); cbn [andb]; [|done]. by destruct (_ =? _)%string.
Qed.

Lemma runtime_before_weak_order : weak_order runtime_before real_score.
Proof.
  assert (H : weak_order (lexicographic (fun a b => mf_id (cd_manifest a) =? mf_id (cd_manifest b))%string
            (fun a b => String.ltb (mf_id (cd_manifest a)) (mf_id (cd_manifest b)))
            (fun a b => String.ltb (rt_name (cd_runtime a)) (rt_name (cd_runtime b)))) real_score).
  { eapply weak_order_lexicographic; [apply (string_part real_score (fun c => mf_id (cd_manifest c)))|].
    apply (string_weak_order real_score (fun c => rt_name (cd_runtime c))). }
  apply weak_order_keys in H. destruct H as [H1 H2].
  split; [intros a b|intros a b c]; rewrite !runtime_before_lexicographic; [apply H1|apply H2].
Qed.

(** What is not before in the order of runtimes has no higher key. *)
Lemma runtime_key a b : runtime_before a b = false -> key_before a b = false.
Proof.
  unfold runtime_before, key_equal, key_before. cbn zeta. destruct (feqb _ _); cbn [andb]; [|done].
  destruct (casefold _ =? casefold _)%string; cbn [andb]; [|done].
  destruct (String.eqb_spec (mf_id (cd_manifest a)) (mf_id (cd_manifest b))) as [->|]; [|done].
  intros _. apply string_ltb_irrefl.
Qed.

Lemma key_score a b : key_before a b = false -> fltb (cd_score b) (cd_score a) = false.
Proof.
  unfold key_before, feqb, SFeqb, fltb, SFltb. rewrite (sfcompare_sym (cd_score a)).
  by destruct (SFcompare (cd_score b) (cd_score a)) as [[]|].
Qed.

Lemma rank_number rq m : sized m -> Forall real_score (fst (rank rq m)).
Proof.
  intros Hm. apply Forall_forall. intros c (rt & _ & Hs)%elem_rank. by apply score_candidate_number in Hs.
Qed.

(** The first in rank is not behind any other. *)
Lemma rank_head rq m c c' : sized m -> head (fst (rank rq m)) = Some c -> c' ∈ fst (rank rq m) -> key_before c' c = false.
Proof.
  intros Hm. pose proof (rank_number rq m Hm) as HP. unfold rank_runtime_candidates in *.
  destruct (compatible_runtimes _ _ _ _) as [rts notes]. cbn [fst] in *.
  destruct (sort_by runtime_before _) as [|x l] eqn:Hs; [done|]. intros [= ->] Hin. apply runtime_key.
  rewrite <- Hs in Hin, HP. eapply sort_by_head; [apply runtime_before_weak_order| |exact Hs|].
  - apply Forall_forall. intros y Hy. apply (proj1 (Forall_forall _ _) HP). by rewrite elem_sort_by.
  - by rewrite elem_sort_by in Hin.
Qed.

(** *** Compatible runtimes *)

(** The catalog has the runtime, which says that it is available and serves the model
    with each capability. *)
Definition answers (m : manifest) (required : list capability) (rt : runtime) : Prop :=
  match rt_report rt with
  | Some report => cr_available (report m) = true /\ cr_supports (report m) = true
  | None => rt_available rt = true /\ rt_supports_manifest rt m = true
  end
  /\ Forall (fun c => match rt_manifest_capability rt with Some f => f m c | None => rt_supports_capability rt c end = true)
       required.

Lemma missing_capability_None rt m required :
  missing_capability rt m required = None
  <-> Forall (fun c => match rt_manifest_capability rt with Some f => f m c | None => rt_supports_capability rt c end = true)
        required.
Proof.
  induction required as [|c required IH]; [done|]. rewrite Forall_cons. cbn [missing_capability].
  destruct (rt_manifest_capability rt) as [f|].
  - destruct (f m c); [rewrite IH; tauto|]. split; [done|by intros [? _]].
  - destruct (rt_supports_capability rt c); [rewrite IH; tauto|]. split; [done|by intros [? _]].
Qed.

Lemma try_affinity_inl m required a rt :
  try_affinity ct m required a = inl rt <-> manifest_runtime ct a m = Some rt /\ answers m required rt.
Proof.
  unfold try_affinity, answers. destruct (manifest_runtime ct a m) as [x|]; [|by split; [|intros [? _]]].
  setoid_rewrite <- missing_capability_None.
  split.
  - intros H. assert (x = rt) as ->.
    { destruct (rt_report x) as [r|]; [destruct (cr_available _), (cr_supports _)
        |destruct (rt_available _), (rt_supports_manifest _ _)]; cbn [negb] in H; try done;
        destruct (missing_capability _ _ _); by simplify_eq. }
    split; [done|]. destruct (rt_report rt) as [r|].
    + destruct (cr_available _), (cr_supports _); cbn [negb] in H; try done. by destruct (missing_capability _ _ _).
    + destruct (rt_available _), (rt_supports_manifest _ _); cbn [negb] in H; try done. by destruct (missing_capability _ _ _).
  - intros [[= ->] [H1 H2]]. rewrite H2. destruct (rt_report rt); destruct H1 as [-> ->]; done.
Qed.

Lemma elem_compatible m c rm rt :
  rt ∈ fst (compatible_runtimes ct m c rm)
  <-> exists a, a ∈ candidate_affinities ct m rm /\ manifest_runtime ct a m = Some rt
        /\ answers m (required_capabilities c rm) rt.
Proof.
  unfold compatible_runtimes. cbn [fst]. rewrite list_elem_of_omap. split.
  - intros ([a [x|why]] & (b & Heq & Hin)%list_elem_of_fmap & Hx); [|done]. injection Heq as -> Ht. injection Hx as <-.
    exists b. split; [done|]. by apply try_affinity_inl.
  - intros (a & Hin & Ht%try_affinity_inl). exists (a, inl rt). split; [|done].
    apply list_elem_of_fmap. exists a. by rewrite Ht.
Qed.

Lemma dget_values {K V} `{EqDecision K} (k : K) (v : V) d : dget k d = Some v -> v ∈ map snd d.
Proof. intros H%dget_Some_elem. apply list_elem_of_fmap. by exists (k, v). Qed.

Lemma manifest_runtime_registered a m rt : manifest_runtime ct a m = Some rt -> rt ∈ all_runtimes ct.
Proof.
  assert (H1 : dget a (ct_runtimes ct) = Some rt -> rt ∈ all_runtimes ct).
  { intros H%dget_values. apply elem_of_app. by left. }
  unfold manifest_runtime. destruct (decide _) as [_|_]; [|done].
  assert (H2 : forall f, List.find f (map snd (ct_endpoints ct)) = Some rt -> rt ∈ all_runtimes ct).
  { intros f [Hin _]%find_some. apply elem_of_app. right. by apply list_elem_of_In. }
  destruct (meta "external_endpoint_id" m) as [| | | |id| |]; try (intros H%dget_values; apply elem_of_app; by right);
    (destruct (meta "ollama_endpoint" m); try done; destruct (ct_endpoints ct) eqn:He; [done|]; rewrite <- He in *; apply H2).
Qed.

Lemma explicit_fallback_reason m rq notes m' rt d :
  explicit_fallback st manifests ct preference_of py_str m rq notes = inl (m', rt, d) -> rd_fallback_reason d <> None.
Proof.
  unfold explicit_fallback. destruct (external_fallback_policy st); [done|].
  destruct (is_uri_source _); [|done]. destruct (dget _ _) as [alias|]; [|done].
  destruct (requested_manifest manifests alias rq) as [am|]; [|done].
  destruct (rank rq am) as [[|c l] more]; [done|]. by intros [= <- <- <-].
Qed.

Lemma explicit_fallback_inr m rq notes more alias am rt :
  explicit_fallback st manifests ct preference_of py_str m rq notes = inr more ->
  external_fallback_policy st = ExplicitAlias -> is_uri_source (mf_source_path m) = true ->
  dget (mf_id m) (external_fallback_aliases st) = Some alias -> requested_manifest manifests alias rq = Ok am -> ~ usable rq am rt.
Proof.
  unfold explicit_fallback. intros H Hp Hu Ha Hr. rewrite Hp, Hu, Ha, Hr in H.
  pose proof (rank_nil rq am) as Hn. destruct (rank rq am) as [[|c l] notes']; [by apply Hn|done].
Qed.

Lemma member_true {A} `{EqDecision A} (x : A) l : member x l = true <-> x ∈ l.
Proof.
  unfold member. rewrite existsb_exists. setoid_rewrite <- list_elem_of_In. split.
  - by intros (y & Hy & ->%bool_decide_eq_true).
  - intros Hx. exists x. split; [done|]. by apply bool_decide_eq_true.
Qed.

Lemma endpoint_down_exact m ep kind :
  kind = match endpoint_details ct m with
         | Some (endpoint_id, _) => if endpoint_is_down (endpoint_details ct m) then EngineDown endpoint_id else NoRuntimeForModel
         | None => NoRuntimeForModel
         end ->
  kind = EngineDown ep <->
    meta "external_endpoint_id" m = JStr ep
    /\ exists rt s, dget ep (ct_endpoints ct) = Some rt /\ rt_snapshot rt = Some s
         /\ (es_enabled s = false \/ es_inventory_state s ∈ ["failed"; "stale"]).
Proof.
  intros ->. unfold endpoint_details, endpoint_is_down. destruct (meta "external_endpoint_id" m) as [| | | |id| |];
    try (by split; [|intros [? _]]).
  split.
  - destruct (dget id (ct_endpoints ct)) as [rt|] eqn:Hd; [|done]. destruct (rt_snapshot rt) as [s|] eqn:Hs; [|done].
    destruct (negb (es_enabled s)) eqn:He; cbn [orb].
    + intros [= <-]. split; [done|]. exists rt, s. apply negb_true_iff in He. by split_and!; [| |left].
    + destruct (member _ _) eqn:Hm; [|done]. intros [= <-]. split; [done|]. exists rt, s. split_and!; [done..|right].
      by apply member_true in Hm.
  - intros ([= ->] & rt & s & -> & -> & [->|H%member_true]); [done|]. by rewrite H, orb_true_r.
Qed.

(** ** What a route promises *)

Notation route := (route_capability st manifests ct preference_of py_str).

Lemma route_automatic_Ok rq m rt d :
  route None rq = Ok (m, rt, d) ->
  exists c others, sort_by key_before (concat (map (fun m => fst (rank rq m)) (List.filter
      (fun m => bool_decide (mf_status m = Runnable) && all_modalities (rq_modalities rq) m)%bool manifests))) = c :: others
    /\ m = cd_manifest c /\ rt = cd_runtime c
    /\ rd_model d = mf_id m /\ rd_runtime d = rt_name rt /\ rd_fallback_from d = None.
Proof.
  cbn [route_capability]. unfold route_automatic. intros (ms & Hms & H)%rbind_Ok.
  assert (Hf : List.filter (fun m => bool_decide (mf_status m = Runnable) && all_modalities (rq_modalities rq) m)%bool manifests = ms).
  { unfold automatic_manifests in Hms. destruct (List.filter _ _); congruence. }
  rewrite Hf. rewrite !map_map in H. destruct (sort_by key_before _) as [|c others] eqn:Hs; [done|]. injection H as <- <- <-.
  exists c, others. split; [done|].
  by destruct (build_decision_names c rq false (decision_alternatives (concat (map (fun x => snd (rank rq x)) ms)) (c :: others)))
    as (? & ? & ?).
Qed.

Lemma elem_candidates rq c :
  c ∈ concat (map (fun m => fst (rank rq m)) (List.filter
      (fun m => bool_decide (mf_status m = Runnable) && all_modalities (rq_modalities rq) m)%bool manifests))
  <-> exists m, eligible rq m /\ c ∈ fst (rank rq m).
Proof.
  rewrite list_elem_of_In, in_concat. split.
  - intros (l & (m & <- & [Hin Hf%andb_true_iff]%filter_In)%in_map_iff & Hc). exists m.
    rewrite bool_decide_eq_true in Hf. destruct Hf. split; [|by apply list_elem_of_In].
    split_and!; [by apply list_elem_of_In|done|done].
  - intros (m & (H1 & H2 & H3) & Hc). exists (fst (rank rq m)). split; [|by apply list_elem_of_In].
    apply (in_map (fun m => fst (rank rq m))), filter_In. split; [by apply list_elem_of_In|].
    by rewrite H3, bool_decide_true.
Qed.

(** C21.  What is routed can serve: the model is registered, runnable and has every
    modality that is asked for; the runtime is one of the catalog's, says that it is
    available and supports the model with every capability that the request needs,
    and serves a context that holds the request (or, where it does not say, the
    request is below the limit for such models); the model fits the policy's memory
    budget unless another engine holds it; and the decision names the two. *)
Theorem routed_pair_is_usable requested rq m rt d :
  route requested rq = Ok (m, rt, d) ->
  m ∈ manifests /\ mf_status m = Runnable /\ all_modalities (rq_modalities rq) m = true
  /\ rt ∈ all_runtimes ct
  /\ answers m (required_capabilities (Some (rq_capability rq)) (rq_modality rq)) rt
  /\ fits_context rq m rt = true /\ fits_memory m rt = true
  /\ rd_model d = mf_id m /\ rd_runtime d = rt_name rt.
Proof.
  intros H. assert (He : eligible rq m /\ usable rq m rt /\ rd_model d = mf_id m /\ rd_runtime d = rt_name rt).
  { destruct requested as [id|].
    - apply route_requested_Ok in H as (m0 & Hreq & [(-> & Hu & H1 & H2 & _)|(_ & notes & Hf)]).
      + by apply requested_manifest_Ok in Hreq as (_ & He & _).
      + apply explicit_fallback_inl in Hf as (alias & _ & _ & _ & Hr & Hu & _ & H1 & H2 & _).
        by apply requested_manifest_Ok in Hr as (_ & He & _).
    - apply route_automatic_Ok in H as (c & others & Hs & -> & -> & H1 & H2 & _).
      assert (Hc : c ∈ c :: others) by left. rewrite <- Hs, elem_sort_by, elem_candidates in Hc.
      destruct Hc as (m & He & [Hm Hu]%rank_usable). by rewrite Hm in *. }
  destruct He as ((? & ? & ?) & (Hin & Hc & Hm) & ? & ?). apply elem_compatible in Hin as (a & _ & Hr & Ha).
  split_and!; try done. by eapply manifest_runtime_registered.
Qed.

(** The models among which a request chooses: the one it names, or the eligible ones. *)
Definition contender (requested : option string) (rq : route_request) (m : manifest) : Prop :=
  match requested with Some id => requested_manifest manifests id rq = Ok m | None => eligible rq m end.

(** C22.  Routing picks the best: among the models a request may use, no usable pair
    of a model and a runtime comes before the routed one, by its score, then by the
    model's name, then by its id; unless the routed model is the configured
    substitute of a requested model that has no usable runtime.  (The hypothesis asks
    that no model is so large that its size in memory is no finite float.) *)
Theorem routing_picks_the_best requested rq m rt d :
  route requested rq = Ok (m, rt, d) -> rd_fallback_from d = None ->
  (forall m', contender requested rq m' -> sized m') ->
  exists c, score rq m rt = inl c
    /\ forall m' rt' c', contender requested rq m' -> usable rq m' rt' -> score rq m' rt' = inl c' ->
         key_before c' c = false /\ fltb (cd_score c) (cd_score c') = false.
Proof.
  intros H Hd Hsized.
  assert (Hc : exists c, score rq m rt = inl c
    /\ forall m' rt' c', contender requested rq m' -> usable rq m' rt' -> score rq m' rt' = inl c' -> key_before c' c = false).
  { destruct requested as [id|].
    - apply route_requested_Ok in H as (m0 & Hreq & [(-> & Hu & _ & _ & _ & c & Hhead & Hrt)|(_ & notes & Hf)]).
      2: { apply explicit_fallback_inl in Hf as (alias & _ & _ & _ & _ & _ & Hd' & _). congruence. }
      assert (Hin : c ∈ fst (rank rq m0)) by (destruct (fst (rank rq m0)); [done|injection Hhead as ->; by left]).
      apply elem_rank in Hin as (rt1 & _ & Hs). pose proof (score_candidate_fits rq m0 rt1) as Hfit. rewrite Hs in Hfit.
      destruct Hfit as (_ & <- & _). rewrite Hrt in Hs. exists c. split; [done|]. intros m' rt' c' Hm' Hu' Hs'.
      cbn [contender] in Hm'. rewrite Hreq in Hm'. injection Hm' as <-.
      eapply rank_head; [by apply Hsized|done|]. apply elem_rank. exists rt'. by destruct Hu'.
    - apply route_automatic_Ok in H as (c & others & Hs & -> & -> & _).
      assert (Hin : c ∈ c :: others) by left. rewrite <- Hs, elem_sort_by, elem_candidates in Hin.
      destruct Hin as (m & He & (rt1 & Hrt1 & Hs1)%elem_rank). pose proof (score_candidate_fits rq m rt1) as Hfit.
      rewrite Hs1 in Hfit. destruct Hfit as (Hm & Hrt & _). rewrite Hm, Hrt. exists c. split; [done|].
      intros m' rt' c' Hm' Hu' Hs'. eapply (sort_by_head key_before real_score); [apply key_before_weak_order| |exact Hs|].
      + apply Forall_forall. intros x (mx & Hmx & Hx)%elem_candidates.
        exact (proj1 (Forall_forall _ _) (rank_number rq mx (Hsized mx Hmx)) x Hx).
      + apply elem_candidates. exists m'. split; [done|]. apply elem_rank. exists rt'. by destruct Hu'. }
  destruct Hc as (c & Hs & Hbest). exists c. split; [done|]. intros m' rt' c' Hm' Hu' Hs'.
  pose proof (Hbest m' rt' c' Hm' Hu' Hs') as Hk. split; [done|]. by apply key_score in Hk.
Qed.

(** C23.  Substitution is opt-in: a request that names a model gets that model, without
    a trace of a substitute, or it gets the configured alias of that model; the latter
    only where the policy is [explicit_alias], the model's source is an external
    engine's, none of the model's runtimes can serve the request, and then the
    decision says which model was asked for and why it was replaced. *)
Theorem fallback_is_opt_in id rq m rt d :
  route (Some id) rq = Ok (m, rt, d) ->
  exists m0, get_manifest manifests id = Some m0
    /\ ((m = m0 /\ rd_fallback_from d = None)
        \/ ((forall rt', ~ usable rq m0 rt')
            /\ external_fallback_policy st = ExplicitAlias /\ is_uri_source (mf_source_path m0) = true
            /\ (exists alias, dget (mf_id m0) (external_fallback_aliases st) = Some alias
                              /\ get_manifest manifests alias = Some m)
            /\ rd_fallback_from d = Some (mf_id m0) /\ rd_fallback_reason d <> None)).
Proof.
  intros (m0 & Hreq & H)%route_requested_Ok. apply requested_manifest_Ok in Hreq as (Hg & _). exists m0. split; [done|].
  destruct H as [(-> & _ & _ & _ & Hd & _)|(Hn & notes & Hf)]; [by left|right].
  rewrite rank_nil in Hn. pose proof (explicit_fallback_reason _ _ _ _ _ _ Hf) as Hr.
  apply explicit_fallback_inl in Hf as (alias & Hp & Hu & Ha & Hr' & _ & Hd & _).
  apply requested_manifest_Ok in Hr' as (Hg' & _). split_and!; try done. by exists alias.
Qed.

(**  Routing is complete: without a model a request is routed exactly where some
    eligible model has a usable runtime, and a requested model with a usable runtime
    is the one that is routed. *)
Theorem routing_is_complete rq :
  ((exists r, route None rq = Ok r) <-> exists m rt, eligible rq m /\ usable rq m rt)
  /\ forall id m, requested_manifest manifests id rq = Ok m ->
       (exists rt, usable rq m rt) <-> exists rt d, route (Some id) rq = Ok (m, rt, d) /\ rd_fallback_from d = None.
Proof.
  split; [split|].
  - intros [[[m rt] d] H]. apply route_automatic_Ok in H as (c & others & Hs & _).
    assert (Hin : c ∈ c :: others) by left. rewrite <- Hs, elem_sort_by, elem_candidates in Hin.
    destruct Hin as (m' & He & [_ Hu]%rank_usable). by exists m', (cd_runtime c).
  - intros (m & rt & He & Hu). apply usable_rank in Hu as (c & _ & Hc). cbn [route_capability]. unfold route_automatic.
    destruct (automatic_manifests manifests rq) as [ms|e] eqn:Hms.
    2: by eapply automatic_manifests_Err in Hms; apply Hms in He.
    cbn [rbind]. rewrite !map_map. destruct (sort_by key_before _) as [|x l] eqn:Hs; [|by eexists]. exfalso.
    apply sort_by_nil in Hs. apply (automatic_manifests_Ok _ _ m) in Hms. apply Hms in He.
    assert (Hin : c ∈ concat (map (fun x => fst (rank rq x)) ms)).
    { apply list_elem_of_In, in_concat. exists (fst (rank rq m)). split; [|by apply list_elem_of_In].
      apply (in_map (fun m => fst (rank rq m))). by apply list_elem_of_In. }
    rewrite Hs in Hin. by apply not_elem_of_nil in Hin.
  - intros id m Hreq. cbn [route_capability]. split.
    + intros [rt Hu]. apply usable_rank in Hu as (c & _ & Hc). unfold route_requested. rewrite Hreq. cbn [rbind].
      pose proof (fun c => rank_usable rq m c) as Hall. destruct (rank rq m) as [[|x l] notes] eqn:Hr.
      { by apply not_elem_of_nil in Hc. }
      destruct (Hall x ltac:(by left)) as [-> _]. exists (cd_runtime x). eexists. split; [done|].
      by destruct (build_decision_names x rq true (decision_alternatives notes (x :: l))) as (_ & _ & ?).
    + intros (rt & d & H & Hd). apply route_requested_Ok in H as (m0 & Hreq' & [(-> & Hu & _)|(_ & notes & Hf)]).
      * by exists rt.
      * apply explicit_fallback_inl in Hf as (alias & _ & _ & _ & _ & _ & Hd' & _). congruence.
Qed.
(** C24.  Why a request for a model fails: the model is not known; or it is not runnable;
    or it lacks a modality; or its own context is too short; or else none of its
    runtimes can serve the request, nor has it a substitute that can, and the error
    names the endpoint as down exactly where the model is bound to an endpoint that is
    disabled or whose inventory could not be read. *)
Theorem routing_errors_exact id rq e :
  route (Some id) rq = Err e ->
  match get_manifest manifests id with
  | None => er_kind e = ModelNotFound
  | Some m =>
      if decide (mf_status m <> Runnable) then er_kind e = NotRunnable
      else if negb (all_modalities (rq_modalities rq) m) then er_kind e = MissingModalities
      else if match rq_context rq, mf_context m with Some wanted, Some n => n <? wanted | _, _ => false end
           then er_kind e = ContextTooShort
      else (forall rt, ~ usable rq m rt)
           /\ (forall alias am rt, external_fallback_policy st = ExplicitAlias -> is_uri_source (mf_source_path m) = true ->
                 dget (mf_id m) (external_fallback_aliases st) = Some alias ->
                 requested_manifest manifests alias rq = Ok am -> ~ usable rq am rt)
           /\ (length (er_alternatives e) <= 8)%nat
           /\ forall ep, er_kind e = EngineDown ep <->
                meta "external_endpoint_id" m = JStr ep
                /\ exists rt s, dget ep (ct_endpoints ct) = Some rt /\ rt_snapshot rt = Some s
                   /\ (es_enabled s = false \/ es_inventory_state s ∈ ["failed"; "stale"])
  end.
Proof.
  cbn [route_capability]. unfold route_requested, requested_manifest.
  destruct (get_manifest manifests id) as [m|]; [|by intros [= <-]].
  destruct (decide (mf_status m <> Runnable)) as [Hr|Hr].
  { rewrite bool_decide_false by done. by intros [= <-]. }
  rewrite bool_decide_true by (by destruct (decide (mf_status m = Runnable))). cbn [negb].
  assert (Hnil : nonempty (rq_modalities rq) && negb (all_modalities (rq_modalities rq) m) = negb (all_modalities (rq_modalities rq) m)).
  { by destruct (rq_modalities rq). }
  rewrite Hnil. destruct (negb (all_modalities _ m)); [by intros [= <-]|].
  destruct (match rq_context rq with Some _ => _ | None => _ end); [by intros [= <-]|]. cbn [rbind].
  pose proof (rank_nil rq m) as Hn. destruct (rank rq m) as [[|c l] notes]; [|done].
  pose proof (explicit_fallback_inr m rq notes) as Hf.
  destruct (explicit_fallback _ _ _ _ _ m rq notes) as [r|more]; [done|]. intros [= <-].
  split; [by apply Hn|]. split; [intros alias am rt; by apply (Hf more)|]. split; [cbn [er_alternatives routing_failure]; rewrite length_take; lia|].
  intros ep. by apply endpoint_down_exact.
Qed.

End routing_proofs.

(** ** Witnesses *)

Module RouteExamples.

(** An engine with every capability of text. *)
Definition engine (name : string) (a : affinity) (up : bool) : runtime :=
  {| rt_name := name; rt_affinity := a; rt_formats := [FormatMlx; FormatUnknown]; rt_modalities := [Text]; rt_report := None;
     rt_available := up; rt_availability_reason := None; rt_supports_manifest := fun _ => true;
     rt_supports_capability := fun c => member c [ChatCapability; Streaming]; rt_manifest_capability := None;
     rt_capability_reason := None; rt_loaded := fun id => (id =? "qwen-4b")%string; rt_context := mf_context;
     rt_structured := None; rt_endpoint := None; rt_snapshot := None; rt_count_tokens := None |}.

Definition text_model (id source : string) (a : affinity) (memory : Z) (metadata : list (string * json)) : manifest :=
  {| mf_id := id; mf_display_name := id; mf_family := "llama"; mf_quantization := None; mf_fingerprint := "";
     mf_role := Standalone; mf_lineage := []; mf_subtype := Transformer; mf_modality := [Text]; mf_audio_roles := [];
     mf_source_path := source; mf_format := FormatMlx; mf_affinity := [a]; mf_text_affinity := []; mf_text_source := None;
     mf_text_reason := None; mf_memory := Some memory; mf_context := Some 8192; mf_status := Runnable;
     mf_metadata := metadata |}.

Definition models : list manifest :=
  [ text_model "llama-8b" "/models/llama-8b" MlxText 5000 [];
    text_model "qwen-4b" "/models/qwen-4b" MlxText 2500 [];
    text_model "llama-70b" "/models/llama-70b" MlxText 40000 [];
    text_model "remote" "external://engine/remote" ExternalAccelerator 20000 [("external_endpoint_id", JStr "engine")] ].

Definition host : catalog :=
  {| ct_runtimes := [(MlxText, engine "mlx_text" MlxText true)];
     ct_endpoints := [("engine", engine "external" ExternalAccelerator false)];
     ct_pack_reason := None; ct_host_memory := Some 16384 |}.

Definition settings (alias : string) : routing_settings :=
  {| runtime_policy_of := Balanced; unknown_context_token_limit := 8192; external_fallback_policy := ExplicitAlias;
     external_fallback_aliases := [("remote", alias)]; moe_bounded_memory_mode := ModeOff; moe_resident_expert_count := 2 |}.

Definition ask : route_request :=
  {| rq_capability := ChatCapability; rq_modalities := [Text]; rq_context := Some 1000; rq_modality := Some TextOnly;
     rq_structured := false |}.

Definition unmeasured : string -> string -> option json := fun _ _ => None.
Definition py_str : json -> string := fun _ => "?".

Notation route alias requested := (route_capability (settings alias) models host unmeasured py_str requested ask).

Lemma routed_pair_is_usable_witness :
  exists m rt d, route "llama-8b" None = Ok (m, rt, d) /\ m ∈ models /\ answers m [ChatCapability] rt /\ rd_model d = "qwen-4b".
Proof.
  eexists _, _, _. split; [vm_compute; reflexivity|].
  pose proof (routed_pair_is_usable (settings "llama-8b") models host unmeasured py_str None ask _ _ _ ltac:(vm_compute; reflexivity)) as H.
  split; [exact (proj1 H)|]. split; [exact (proj1 (proj2 (proj2 (proj2 (proj2 H)))))|reflexivity].
Defined.

Lemma models_sized alias m : m ∈ models -> sized (settings alias) m.
Proof. unfold models. rewrite !elem_of_cons. by intros [->|[->|[->|[->|[]%not_elem_of_nil]]]]. Qed.

Lemma routing_picks_the_best_witness :
  exists m rt d c, route "llama-8b" None = Ok (m, rt, d) /\ mf_id m = "qwen-4b" 
    /\ score_candidate (settings "llama-8b") host unmeasured py_str ask m rt = inl c
    /\ forall c', score_candidate (settings "llama-8b") host unmeasured py_str ask (text_model "llama-8b" "/models/llama-8b" MlxText 5000 [])
                    (engine "mlx_text" MlxText true) = inl c' -> fltb (cd_score c) (cd_score c') = false.
Proof.
  destruct (routing_picks_the_best (settings "llama-8b") models host unmeasured py_str None ask
              (text_model "qwen-4b" "/models/qwen-4b" MlxText 2500 []) (engine "mlx_text" MlxText true) _
              ltac:(vm_compute; reflexivity) ltac:(reflexivity)
              ltac:(intros m [H _]; by apply models_sized)) as (c & Hs & Hbest).
  eexists _, _, _, c. split; [vm_compute; reflexivity|]. split; [reflexivity|]. split; [exact Hs|]. intros c' Hc'.
  eapply (Hbest (text_model "llama-8b" "/models/llama-8b" MlxText 5000 []) (engine "mlx_text" MlxText true)); [| |exact Hc'].
  - split; [left|by split].
  - split; [vm_compute; left|by split].
Defined.

Lemma fallback_is_opt_in_witness :
  exists m rt d m0, route "llama-8b" (Some "remote") = Ok (m, rt, d) /\ mf_id m = "llama-8b"
    /\ get_manifest models "remote" = Some m0
    /\ ((m = m0 /\ rd_fallback_from d = None)
        \/ ((forall rt', ~ usable (settings "llama-8b") host ask m0 rt')
            /\ external_fallback_policy (settings "llama-8b") = ExplicitAlias /\ is_uri_source (mf_source_path m0) = true
            /\ (exists alias, dget (mf_id m0) (external_fallback_aliases (settings "llama-8b")) = Some alias
                              /\ get_manifest models alias = Some m)
            /\ rd_fallback_from d = Some (mf_id m0) /\ rd_fallback_reason d <> None)).
Proof.
  destruct (fallback_is_opt_in (settings "llama-8b") models host unmeasured py_str "remote" ask _ _ _ ltac:(vm_compute; reflexivity))
    as (m0 & H).
  eexists _, _, _, m0. split; [vm_compute; reflexivity|]. split; [reflexivity|exact H].
Defined.

Lemma routing_is_complete_witness :
  exists rt d, route "llama-8b" (Some "llama-8b") = Ok (text_model "llama-8b" "/models/llama-8b" MlxText 5000 [], rt, d)
               /\ rd_fallback_from d = None.
Proof.
  apply (routing_is_complete (settings "llama-8b") models host unmeasured py_str ask); [reflexivity|].
  exists (engine "mlx_text" MlxText true). split; [vm_compute; left|by split].
Defined.

(** A model whose engine is down is listed with the alias that answers its chat
    requests, and the same request is refused: readiness asks only for a compatible
    runtime, and the alias does not fit the memory budget. *)
Theorem advertised_fallback_is_refused :
  exists m, get_manifest models "remote" = Some m
    /\ av_fallback (model_capability_availability (settings "llama-70b") models host m) = Some "llama-70b"
    /\ exists e, route_chat (settings "llama-70b") models host unmeasured py_str (Some "remote") None 0 false = Err e
                 /\ er_kind e = NoRuntimeForModel.
Proof. eexists. split; [reflexivity|]. split; [vm_compute; reflexivity|]. eexists. split; vm_compute; reflexivity. Qed.

Lemma routing_errors_exact_witness :
  exists e, route_capability (settings "llama-70b") models host unmeasured py_str (Some "remote") ask = Err e
    /\ er_kind e = NoRuntimeForModel /\ (length (er_alternatives e) <= 8)%nat.
Proof.
  eexists. split; [vm_compute; reflexivity|]. split; [reflexivity|].
  exact (proj1 (proj2 (proj2 (routing_errors_exact (settings "llama-70b") models host unmeasured py_str "remote" ask _
           ltac:(vm_compute; reflexivity))))).
Defined.
End RouteExamples.
