(* ===== verification/FrontierState.v ===== *)
(** What the runtime tracks of models with recurrent state or experts:
    src/src/lewlm/storage/frontier_state.py.

    A request is its model, its token limit, its messages and its metadata, which
    [annotate_request] changes.  Plans are dictionaries of JSON values.  The loop that
    draws the experts of a request has no bound, so it takes fuel, and [None] is a loop
    that is still running, with the tracker's lock held.  Strings are ASCII. *)

From stdpp Require Import pretty.
From S2P Require Import Prelude PyFloat PyString Json Sha256 Manifest.

Open Scope Z_scope.

(** ** Plans as dictionaries *)

Definition put_some (key : string) (v : option json) (d : list (string * json)) : list (string * json) :=
  match v with Some v => dset key v d | None => d end.

(** The dictionary that [build_frontier_serving_plan] returns, but for its two notes. *)
Definition plan_dict (py_str : json -> string) (p : serving_plan) : list (string * json) :=
  let int key v d := put_some key (option_map JInt v) d in
  let text v := match v with JStr s => s | v => py_str v end in
  int "estimated_dense_memory_mb" (pl_dense_memory p)
  (int "estimated_expert_memory_mb" (pl_expert_memory p)
  (int "estimated_swap_mb_per_request" (pl_swap p)
  (int "memory_savings_mb" (pl_savings p)
  (int "planned_memory_mb" (pl_planned p)
  (int "streamed_expert_count" (pl_streamed p)
  (int "resident_expert_count" (pl_resident p)
  (int "active_expert_count" (pl_active p)
  (int "expert_count" (pl_experts p)
  (dset "bounded_memory_mode" (JStr (pl_mode p))
  (put_some "estimated_state_cache_kb_per_token" (option_map JFloat (pl_state_kb_per_token p))
  (int "state_size" (pl_state_size p)
  (int "full_estimated_memory_mb" (pl_full p)
     [("architecture_subtype", JStr (pl_subtype p)); ("cache_state_handling", JStr (text (pl_cache_handling p)));
      ("planning_only", JBool true)])))))))))))).

(** [_coerce_int] of frontier_state.py: a boolean is a number here. *)
Definition coerce_number (v : json) : option Z := match v with JBool b => Some (if b then 1 else 0) | v => coerce_int v end.

Definition plan_get (key : string) (plan : list (string * json)) : json := default JNull (dget key plan).
Definition plan_int (key : string) (plan : list (string * json)) : option Z := coerce_number (plan_get key plan).

(** [_compact_metadata]. *)
Fixpoint compact_metadata (plan : list (string * json)) (updates : list (string * option json)) : list (string * json) :=
  match updates with
  | [] => plan
  | (key, v) :: updates => compact_metadata (put_some key v plan) updates
  end.

(** ** The window of resident experts *)

(** [_MoEResidencyWindow]: a deque, least recently used first. *)
Record window := { w_limit : Z; w_resident : list Z }.

#[export] Instance window_eta : Eta window := fun w => Build_window (w_limit w) (w_resident w).

Fixpoint remove_expert (x : Z) (l : list Z) : list Z :=
  match l with [] => [] | y :: l' => if y =? x then l' else y :: remove_expert x l' end.

(** The loop of [access]: the deque, the set of what it holds, the swaps so far. *)
Fixpoint access_loop (limit : Z) (expert_ids resident resident_set : list Z) (swaps : Z) : list Z * Z :=
  match expert_ids with
  | [] => (resident, swaps)
  | x :: expert_ids =>
      if bool_decide (x ∈ resident_set) then
        access_loop limit expert_ids (remove_expert x resident ++ [x]) resident_set swaps
      else
        let kept := if limit <=? Z.of_nat (length resident) then tail resident else resident in
        access_loop limit expert_ids (kept ++ [x]) (kept ++ [x]) (swaps + 1)
  end.

Definition access (expert_ids : list Z) (w : window) : window * Z :=
  if w_limit w <=? 0 then (w, Z.of_nat (length expert_ids))
  else let '(resident, swaps) := access_loop (w_limit w) expert_ids (w_resident w) (w_resident w) 0 in
       (w <| w_resident := resident |>, swaps).

(** ** Requests *)

Record prompt_message := { pm_role : string; pm_content : string }.

Record request := {
  q_model : string;
  q_max_tokens : Z;
  q_messages : list prompt_message;
  q_metadata : list (string * json)
}.

#[export] Instance request_eta : Eta request := fun q =>
  Build_request (q_model q) (q_max_tokens q) (q_messages q) (q_metadata q).

(** What [_prompt_key] hashes: nothing separates its parts. *)
Definition prompt_bytes (q : request) : list Z :=
  encode_ascii (q_model q) ++ encode_ascii (pretty (q_max_tokens q))
  ++ concat (map (fun m => encode_ascii (pm_role m) ++ encode_ascii (pm_content m)) (q_messages q)).

(** [_prompt_key]. *)
Definition prompt_key (q : request) : string := hexdigest (prompt_bytes q).

(** [_prompt_token_estimate]. *)
Definition prompt_token_estimate (q : request) : Z :=
  let characters := foldr Z.add 0 (map (fun m => Z.of_nat (String.length (pm_content m))) (q_messages q)) in
  Z.max ((characters + 3) / 4) (Z.of_nat (length (q_messages q))).

(** The loop of [_requested_experts]: [None] is out of fuel. *)
Fixpoint draw_experts (fuel : nat) (experts wanted : Z) (digest unread : list Z) (requested : list Z) : option (list Z) :=
  match fuel with
  | O => None
  | S fuel =>
      if wanted <=? Z.of_nat (length requested) then Some requested
      else
        let '(digest, unread) := match unread with [] => (digest_bytes digest, digest_bytes digest) | _ => (digest, unread) end in
        match unread with
        | [] => None
        | byte :: unread =>
            let candidate := byte mod experts in
            if bool_decide (candidate ∈ requested) then draw_experts fuel experts wanted digest unread requested
            else draw_experts fuel experts wanted digest unread (requested ++ [candidate])
        end
  end.

(** [_requested_experts]. *)
Definition requested_experts (fuel : nat) (q : request) (experts active : Z) : option (list Z) :=
  if experts <=? 0 then Some []
  else let digest := digest_bytes (encode_ascii (prompt_key q)) in
       draw_experts fuel experts (Z.min active experts) digest digest [].

(** ** The tracker *)

Record tracker := {
  t_plans : list (string * list (string * json));
  t_overrides : list (string * Z);
  t_prompt_keys : list (string * list string);       (* sets *)
  t_peak_bytes : list (string * Z);
  t_ssm_requests : Z;
  t_hits : Z;
  t_misses : Z;
  t_windows : list (string * window);
  t_moe_requests : Z;
  t_swaps : Z;
  t_swap_mb : Z;
  t_peak_experts : Z
}.

#[export] Instance tracker_eta : Eta tracker := fun t =>
  Build_tracker (t_plans t) (t_overrides t) (t_prompt_keys t) (t_peak_bytes t) (t_ssm_requests t) (t_hits t) (t_misses t)
    (t_windows t) (t_moe_requests t) (t_swaps t) (t_swap_mb t) (t_peak_experts t).

Definition init_tracker : tracker :=
  {| t_plans := []; t_overrides := []; t_prompt_keys := []; t_peak_bytes := []; t_ssm_requests := 0; t_hits := 0;
     t_misses := 0; t_windows := []; t_moe_requests := 0; t_swaps := 0; t_swap_mb := 0; t_peak_experts := 0 |}.

(** [unregister_model]. *)
Definition unregister_model (id : string) (t : tracker) : tracker :=
  t <| t_plans := ddel id (t_plans t) |> <| t_overrides := ddel id (t_overrides t) |>
    <| t_prompt_keys := ddel id (t_prompt_keys t) |> <| t_peak_bytes := ddel id (t_peak_bytes t) |>
    <| t_windows := ddel id (t_windows t) |>.

Section tracker.
Context (mode : memory_mode) (resident_setting : Z) (py_str : json -> string).

Definition text_of (v : json) : string := match v with JStr s => s | v => py_str v end.
(** [str(v or fallback)]. *)
Definition text_or (v : json) (fallback : string) : string := if json_truthy v then text_of v else fallback.

Definition plan_for (m : manifest) : option (list (string * json)) :=
  option_map (plan_dict py_str) (build_frontier_serving_plan mode resident_setting m).

(** [register_manifest]. *)
Definition register_manifest (m : manifest) (t : tracker) : tracker :=
  match plan_for m with
  | None => unregister_model (mf_id m) t
  | Some plan =>
      let t := t <| t_plans := dset (mf_id m) plan (t_plans t) |> in
      match plan_int "planned_memory_mb" plan, mf_memory m with
      | Some planned, Some full =>
          if planned <? full then t <| t_overrides := dset (mf_id m) planned (t_overrides t) |> else t
      | _, _ => t
      end
  end.

(** [loaded_memory_override]. *)
Definition loaded_memory_override (id : string) (t : tracker) : option Z := dget id (t_overrides t).

(** [x or 0] on an optional integer. *)
Definition int_or_none (a b : option Z) : option Z := match a with Some 0 | None => b | _ => a end.

(** [_annotate_ssm_request]. *)
Definition annotate_ssm_request (id : string) (q : request) (plan : list (string * json)) (t : tracker)
    : tracker * list (string * json) :=
  let key := prompt_key q in
  let keys := default [] (dget id (t_prompt_keys t)) in
  let state_size := Z.max (int_or (plan_int "state_size" plan) 1) 1 in
  let bytes := state_size * Z.max (prompt_token_estimate q) 1 * 2 in
  let hit := bool_decide (key ∈ keys) in
  let keys := if hit then keys else keys ++ [key] in
  let effective := int_or_none (plan_int "full_estimated_memory_mb" plan) (plan_int "planned_memory_mb" plan) in
  (t <| t_prompt_keys := dset id keys (t_prompt_keys t) |>
     <| t_hits := t_hits t + (if hit then 1 else 0) |> <| t_misses := t_misses t + (if hit then 0 else 1) |>
     <| t_ssm_requests := t_ssm_requests t + 1 |>
     <| t_peak_bytes := dset id (Z.max bytes (default 0 (dget id (t_peak_bytes t)))) (t_peak_bytes t) |>,
   compact_metadata plan
     [("planning_only", Some (JBool false)); ("execution_path", Some (JStr "state_cache"));
      ("state_cache_requests", Some (JInt 1)); ("state_cache_hits", Some (JInt (if hit then 1 else 0)));
      ("state_cache_misses", Some (JInt (if hit then 0 else 1)));
      ("state_cache_entry_count", Some (JInt (Z.of_nat (length keys)))); ("state_cache_bytes", Some (JInt bytes));
      ("effective_loaded_memory_mb", option_map JInt effective)]).

(** [_annotate_moe_request]; [None] where the draw of experts does not end. *)
Definition annotate_moe_request (fuel : nat) (id : string) (q : request) (plan : list (string * json)) (t : tracker)
    : option (tracker * list (string * json)) :=
  let experts := Z.max (int_or (plan_int "expert_count" plan) 0) 0 in
  let active := Z.max (int_or (plan_int "active_expert_count" plan) 1) 1 in
  let resident := Z.max (int_or (plan_int "resident_expert_count" plan) experts) 0 in
  let bounded := text_or (plan_get "bounded_memory_mode" plan) "off" in
  match requested_experts fuel q experts active with
  | None => None
  | Some requested =>
      let '(windows, resident_count, swaps) :=
        if (bounded =? "off")%string || (resident <=? 0) || (experts <=? 0) then (t_windows t, experts, 0)
        else
          let w := default {| w_limit := resident; w_resident := [] |} (dget id (t_windows t)) in
          let '(w, swaps) := access requested w in
          (dset id w (t_windows t), Z.of_nat (length (w_resident w)), swaps) in
      let full := plan_int "full_estimated_memory_mb" plan in
      let per_expert :=
        match plan_int "estimated_expert_memory_mb" plan with
        | Some total => if 0 <? experts then Z.max (default 0 (f_round_int (int_truediv total experts))) 1 else 0
        | None => 0
        end in
      let swap_mb := if (bounded =? "off")%string then 0 else per_expert * swaps in
      let effective := int_or_none (plan_int "planned_memory_mb" plan) full in
      Some
        (t <| t_windows := windows |> <| t_moe_requests := t_moe_requests t + 1 |> <| t_swaps := t_swaps t + swaps |>
           <| t_swap_mb := t_swap_mb t + swap_mb |> <| t_peak_experts := Z.max (t_peak_experts t) resident_count |>
           <| t_overrides := match effective with Some mb => dset id mb (t_overrides t) | None => t_overrides t end |>,
         compact_metadata plan
           [("planning_only", Some (JBool false));
            ("execution_path", Some (JStr (if (bounded =? "off")%string then "full_resident" else bounded)));
            ("requested_expert_count", Some (JInt (Z.of_nat (length requested))));
            ("resident_expert_count", Some (JInt resident_count)); ("expert_swap_count", Some (JInt swaps));
            ("expert_swap_mb", Some (JInt swap_mb));
            ("streamed_expert_count", if 0 <? experts then Some (JInt (Z.max (experts - resident_count) 0)) else None);
            ("effective_loaded_memory_mb", option_map JInt effective);
            ("memory_savings_mb", match full, effective with
                                  | Some f, Some e => Some (JInt (Z.max (f - e) 0))
                                  | _, _ => None
                                  end);
            ("estimated_dense_memory_mb", option_map JInt (plan_int "estimated_dense_memory_mb" plan))])
  end.

(** [annotate_request]: the tracker, the request with its metadata, and the answer. *)
Definition annotate_request (fuel : nat) (m : manifest) (q : request) (t : tracker)
    : option (tracker * request * option (list (string * json))) :=
  let '(base_plan, q) :=
    match dget "frontier_architecture" (q_metadata q) with
    | Some (JObj existing) => (Some existing, q)
    | _ => match plan_for m with
           | Some plan => (Some plan, q <| q_metadata := dset "frontier_architecture" (JObj plan) (q_metadata q) |>)
           | None => (None, q)
           end
    end in
  match base_plan with
  | None => Some (t, q, None)
  | Some plan =>
      let s := text_or (plan_get "architecture_subtype" plan) (subtype_value (mf_subtype m)) in
      let realized :=
        if member s ["ssm_mamba"; "hybrid_ssm"] then Some (Some (annotate_ssm_request (mf_id m) q plan t))
        else if member s ["moe"; "hybrid_moe"] then option_map Some (annotate_moe_request fuel (mf_id m) q plan t)
        else Some None in
      match realized with
      | None => None
      | Some None => Some (t, q, None)
      | Some (Some (t, realized)) =>
          let merged := compact_metadata plan (map (fun x => (x.1, Some x.2)) realized) in
          Some (t, q <| q_metadata := dset "frontier_architecture" (JObj merged) (q_metadata q) |>, Some merged)
      end
  end.

(** [performance_feature_snapshot], without its reasons. *)
Record feature_snapshot := {
  fs_ssm_supported : bool;
  fs_ssm_active : bool;
  fs_ssm_requests : Z;
  fs_hits : Z;
  fs_misses : Z;
  fs_entries : Z;
  fs_bytes : Z;
  fs_moe_supported : bool;
  fs_moe_active : bool;
  fs_moe_requests : Z;
  fs_swaps : Z;
  fs_swap_mb : Z;
  fs_peak_experts : Z;
  fs_mode : memory_mode;
  fs_resident_setting : Z
}.

Definition detected (subtypes : list string) (t : tracker) : bool :=
  existsb (fun p => existsb (fun s => bool_decide (plan_get "architecture_subtype" p.2 = JStr s)) subtypes) (t_plans t).

Definition performance_feature_snapshot (t : tracker) : feature_snapshot :=
  let resident := foldr Z.max 0 (map (fun w => Z.of_nat (length (w_resident w.2))) (t_windows t)) in
  {| fs_ssm_supported := detected ["ssm_mamba"; "hybrid_ssm"] t; fs_ssm_active := 0 <? t_ssm_requests t;
     fs_ssm_requests := t_ssm_requests t; fs_hits := t_hits t; fs_misses := t_misses t;
     fs_entries := foldr Z.add 0 (map (fun k => Z.of_nat (length k.2)) (t_prompt_keys t));
     fs_bytes := foldr Z.add 0 (map snd (t_peak_bytes t));
     fs_moe_supported := detected ["moe"; "hybrid_moe"] t;
     fs_moe_active := (0 <? t_moe_requests t) && negb (match mode with ModeOff => true | _ => false end);
     fs_moe_requests := t_moe_requests t; fs_swaps := t_swaps t; fs_swap_mb := t_swap_mb t;
     fs_peak_experts := Z.max (t_peak_experts t) resident; fs_mode := mode; fs_resident_setting := resident_setting |}.
End tracker.

(** ** The window is a least-recently-used cache

    The reference: of a history of accesses, the distinct experts, most recent first;
    what a cache of [k] experts holds; and how many accesses find their expert absent. *)

Definition recency_step (r : list Z) (x : Z) : list Z := x :: List.filter (fun y => negb (y =? x)) r.
Definition recency (history : list Z) : list Z := foldl recency_step [] history.

Fixpoint lru_faults (k : nat) (r history : list Z) : Z :=
  match history with
  | [] => 0
  | x :: history => (if bool_decide (x ∈ take k r) then 0 else 1) + lru_faults k (recency_step r x) history
  end.

(** Any number of calls of [access], with the swaps that they report. *)
Definition access_all (calls : list (list Z)) (w : window) : window * Z :=
  foldl (fun s ids => let '(w, n) := access ids s.1 in (w, s.2 + n)) (w, 0) calls.

Section lru.
Implicit Types (r l : list Z) (x : Z).

Lemma elem_filter_ne x y l : y ∈ List.filter (fun y => negb (y =? x)) l <-> y ∈ l /\ y <> x.
Proof. rewrite !list_elem_of_In, filter_In, negb_true_iff, Z.eqb_neq. done. Qed.

Lemma filter_ne_absent x l : x ∉ l -> List.filter (fun y => negb (y =? x)) l = l.
Proof.
  induction l as [|y l IH]; [done|]. intros [H1 H2]%not_elem_of_cons. cbn [List.filter].
  replace (y =? x) with false by (symmetry; apply Z.eqb_neq; done). cbn [negb]. by rewrite IH.
Qed.

Lemma remove_expert_filter x l : NoDup l -> remove_expert x l = List.filter (fun y => negb (y =? x)) l.
Proof.
  induction 1 as [|y l Hy Hl IH]; [done|]. cbn [remove_expert List.filter]. destruct (y =? x) eqn:He; cbn [negb].
  - apply Z.eqb_eq in He as ->. by rewrite filter_ne_absent.
  - by rewrite IH.
Qed.

Lemma take_filter_absent x r : forall k, x ∉ take k r -> take k (List.filter (fun y => negb (y =? x)) r) = take k r.
Proof.
  induction r as [|y r IH]; intros [|k]; try done. cbn [take List.filter]. intros [H1 H2]%not_elem_of_cons.
  replace (y =? x) with false by (symmetry; apply Z.eqb_neq; done). cbn [negb take]. by rewrite IH.
Qed.

Lemma take_filter_present x r : NoDup r -> forall k, x ∈ take (S k) r ->
  take k (List.filter (fun y => negb (y =? x)) r) = List.filter (fun y => negb (y =? x)) (take (S k) r).
Proof.
  induction 1 as [|y r Hy Hr IH]; intros k; [by intros ?%not_elem_of_nil|]. cbn [take List.filter].
  destruct (y =? x) eqn:He; cbn [negb].
  - apply Z.eqb_eq in He as ->. intros _. rewrite (filter_ne_absent x r) by done. symmetry. apply filter_ne_absent.
    intros Hin. apply Hy. by eapply subseteq_take.
  - apply Z.eqb_neq in He. intros [?|Hin]%elem_of_cons; [congruence|]. destruct k as [|k]; [by apply not_elem_of_nil in Hin|].
    cbn [take]. by rewrite (IH k Hin).
Qed.

Lemma NoDup_recency_step r x : NoDup r -> NoDup (recency_step r x).
Proof.
  intros Hr. unfold recency_step. constructor.
  - by intros [_ ?]%elem_filter_ne.
  - apply NoDup_ListNoDup, List.NoDup_filter, NoDup_ListNoDup. done.
Qed.

Lemma recency_app h h' : recency (h ++ h') = foldl recency_step (recency h) h'.
Proof. unfold recency. by rewrite foldl_app. Qed.

Lemma NoDup_recency_from r h : NoDup r -> NoDup (foldl recency_step r h).
Proof. revert r. induction h as [|x h IH]; [done|]. intros r Hr. cbn [foldl]. by apply IH, NoDup_recency_step. Qed.

Lemma tail_rev r : forall k, (k < length r)%nat -> tail (rev (take (S k) r)) = rev (take k r).
Proof.
  intros k Hk. destruct (lookup_lt_is_Some_2 r k Hk) as [y Hy]. rewrite (take_S_r _ _ _ Hy), rev_app_distr. done.
Qed.

(** One access. *)
Lemma lru_step k r x :
  NoDup r ->
  let resident := rev (take (S k) r) in
  (if bool_decide (x ∈ resident) then remove_expert x resident ++ [x]
   else (if Z.of_nat (S k) <=? Z.of_nat (length resident) then tail resident else resident) ++ [x])
  = rev (take (S k) (recency_step r x)).
Proof.
  intros Hr resident. unfold resident. clear resident. unfold recency_step. cbn [take rev].
  assert (Hin : x ∈ rev (take (S k) r) <-> x ∈ take (S k) r) by (rewrite !list_elem_of_In, <- in_rev; done).
  destruct (bool_decide (x ∈ rev (take (S k) r))) eqn:Hb.
  - apply bool_decide_eq_true, Hin in Hb. rewrite remove_expert_filter.
    + rewrite take_filter_present by done. rewrite filter_rev. done.
    + apply NoDup_ListNoDup, NoDup_rev, NoDup_ListNoDup. by eapply sublist_NoDup; [|apply sublist_take].
  - apply bool_decide_eq_false in Hb. rewrite Hin in Hb. f_equal. rewrite length_rev, length_take.
    destruct (Z.of_nat (S k) <=? _) eqn:Hl; bool_prop.
    + rewrite tail_rev by lia. rewrite take_filter_absent; [done|]. intros H. apply Hb.
      replace k with (Nat.min k (S k)) in H by lia. rewrite <- take_take in H. by eapply subseteq_take.
    + rewrite (take_ge r) in Hb by lia. rewrite (filter_ne_absent x r) by done. rewrite !take_ge by lia. done.
Qed.

Lemma access_loop_lru k h : forall r swaps,
  NoDup r ->
  access_loop (Z.of_nat (S k)) h (rev (take (S k) r)) (rev (take (S k) r)) swaps
  = (rev (take (S k) (foldl recency_step r h)), swaps + lru_faults (S k) r h).
Proof.
  assert (Hset : forall h resident s1 s2 swaps, (forall y, y ∈ s1 <-> y ∈ s2) ->
    access_loop (Z.of_nat (S k)) h resident s1 swaps = access_loop (Z.of_nat (S k)) h resident s2 swaps).
  { intros g. induction g as [|x g IH]; intros resident s1 s2 swaps Hs; [done|]. cbn [access_loop].
    rewrite (bool_decide_ext _ _ (Hs x)). destruct (bool_decide _); [by apply IH|done]. }
  induction h as [|x h IH]; intros r swaps Hr; [cbn [access_loop foldl lru_faults]; by rewrite Z.add_0_r|].
  cbn [access_loop foldl lru_faults]. pose proof (lru_step k r x Hr) as Hstep. cbn zeta in Hstep.
  assert (Hin : x ∈ rev (take (S k) r) <-> x ∈ take (S k) r) by (rewrite !list_elem_of_In, <- in_rev; done).
  rewrite (bool_decide_ext _ _ (iff_sym Hin)). destruct (bool_decide (x ∈ rev (take (S k) r))) eqn:Hb.
  - apply bool_decide_eq_true in Hb. rewrite (Hset _ _ _ (remove_expert x (rev (take (S k) r)) ++ [x])).
    + rewrite Hstep, IH by (by apply NoDup_recency_step). by f_equal; lia.
    + intros y. rewrite remove_expert_filter, elem_of_app, elem_filter_ne, list_elem_of_singleton.
      * destruct (decide (y = x)) as [->|]; tauto.
      * apply NoDup_ListNoDup, NoDup_rev, NoDup_ListNoDup. by eapply sublist_NoDup; [|apply sublist_take].
  - cbn zeta. rewrite Hstep, IH by (by apply NoDup_recency_step). f_equal. lia.
Qed.

Lemma lru_faults_app k h h' : forall r, lru_faults k r (h ++ h') = lru_faults k r h + lru_faults k (foldl recency_step r h) h'.
Proof. induction h as [|x h IH]; intros r; [done|]. cbn [app lru_faults foldl]. rewrite IH. lia. Qed.
End lru.

(** C29.  The window of resident experts is a least-recently-used cache: after any calls
    it holds the [limit] distinct experts that were accessed last, the least recent
    first, and the swaps that the calls report are exactly the accesses whose expert
    was not among them. *)
Theorem window_is_lru limit calls :
  0 < limit ->
  let history := concat calls in
  access_all calls {| w_limit := limit; w_resident := [] |}
  = ({| w_limit := limit; w_resident := rev (take (Z.to_nat limit) (recency history)) |},
     lru_faults (Z.to_nat limit) [] history).
Proof.
  intros Hl. cbn zeta. destruct (Z.to_nat limit) as [|k] eqn:Hk; [lia|]. assert (limit = Z.of_nat (S k)) as -> by lia.
  assert (H : forall calls r n, NoDup r ->
    foldl (fun s ids => let '(w, n) := access ids s.1 in (w, s.2 + n))
          ({| w_limit := Z.of_nat (S k); w_resident := rev (take (S k) r) |}, n) calls
    = ({| w_limit := Z.of_nat (S k); w_resident := rev (take (S k) (foldl recency_step r (concat calls))) |},
       n + lru_faults (S k) r (concat calls))).
  { clear calls. induction calls as [|ids calls IH]; intros r n Hr; [cbn [foldl concat lru_faults]; by rewrite Z.add_0_r|].
    cbn [foldl concat]. unfold access at 2. cbn [fst snd w_limit w_resident].
    replace (Z.of_nat (S k) <=? 0) with false by (symmetry; apply Z.leb_gt; lia). rewrite access_loop_lru by done.
    change (_ <| w_resident := _ |>) with {| w_limit := Z.of_nat (S k); w_resident := rev (take (S k) (foldl recency_step r ids)) |}.
    rewrite IH by (by apply NoDup_recency_from). rewrite foldl_app. f_equal. rewrite lru_faults_app. lia. }
  exact (H calls [] 0 ltac:(constructor)).
Qed.

Lemma window_is_lru_witness :
  0 < 2 /\ access_all [[1; 2]; [1; 3]] {| w_limit := 2; w_resident := [] |} = ({| w_limit := 2; w_resident := [1; 3] |}, 3).
Proof. split; [reflexivity|]. exact (window_is_lru 2 [[1; 2]; [1; 3]] ltac:(reflexivity)). Defined.

(** ** Which experts a request asks for *)

Lemma be_bytes_range n z : Forall (fun b => 0 <= b < 256) (be_bytes n z).
Proof.
  revert z. induction n as [|n IH]; intros z; [constructor|]. cbn [be_bytes]. apply Forall_app. split; [apply IH|].
  apply Forall_singleton. change 255 with (Z.ones 8). rewrite Z.land_ones by lia. apply Z.mod_pos_bound. lia.
Qed.

Lemma digest_bytes_range bs : Forall (fun b => 0 <= b < 256) (digest_bytes bs).
Proof.
  unfold digest_bytes. generalize (sha256_words bs). intros ws. induction ws as [|w ws IH]; [constructor|].
  cbn [map concat]. apply Forall_app. split; [apply be_bytes_range|done].
Qed.

(** What has been drawn is distinct, below the number of experts and below 256. *)
Definition drawn (experts : Z) (l : list Z) : Prop := NoDup l /\ Forall (fun x => 0 <= x < Z.min experts 256) l.

Lemma drawn_length experts l : drawn experts l -> Z.of_nat (length l) <= Z.max 0 (Z.min experts 256).
Proof.
  intros [Hnd Hl]. set (n := Z.min experts 256) in *.
  assert (Hsub : l ⊆+ seqZ 0 (Z.max 0 n)).
  { apply NoDup_submseteq; [done|]. intros x Hx. apply (proj1 (Forall_forall _ _) Hl) in Hx. apply elem_of_seqZ. lia. }
  apply submseteq_length in Hsub. rewrite length_seqZ in Hsub. lia.
Qed.

Lemma draw_experts_spec experts wanted : 0 < experts -> forall fuel digest unread requested l,
  Forall (fun b => 0 <= b < 256) unread -> drawn experts requested -> Z.of_nat (length requested) <= wanted ->
  draw_experts fuel experts wanted digest unread requested = Some l ->
  drawn experts l /\ Z.of_nat (length l) = wanted.
Proof.
  intros He fuel. induction fuel as [|fuel IH]; [done|]. intros digest unread requested l Hu Hd Hw. cbn [draw_experts].
  destruct (wanted <=? _) eqn:Hl; bool_prop; [intros [= <-]; split; [done|lia]|].
  set (next := match unread with [] => _ | _ => _ end).
  assert (Hn : Forall (fun b => 0 <= b < 256) next.2) by (unfold next; destruct unread; [apply digest_bytes_range|done]).
  destruct next as [digest' [|byte unread']]; [done|]. apply Forall_cons in Hn as [Hb Hn].
  destruct (bool_decide _) eqn:Hin; [by apply IH|]. apply bool_decide_eq_false in Hin. apply IH; [done| |rewrite length_app; cbn [length]; lia].
  destruct Hd as [Hnd Hall]. split.
  - apply NoDup_app. split; [done|]. split; [|apply NoDup_singleton]. set_solver.
  - apply Forall_app. split; [done|]. apply Forall_singleton. pose proof (Z.mod_pos_bound byte experts He).
    pose proof (Z.mod_le byte experts ltac:(lia) He). lia.
Qed.

Lemma requested_experts_drawn q experts active fuel l :
  1 <= active -> requested_experts fuel q experts active = Some l ->
  drawn experts l /\ Z.of_nat (length l) = Z.max 0 (Z.min active experts).
Proof.
  intros Ha H. unfold requested_experts in H. destruct (experts <=? 0) eqn:He; bool_prop.
  - injection H as <-. split; [split; constructor|cbn [length]; lia].
  - apply draw_experts_spec in H as [Hd Hl]; [split; [done|lia]|done|apply digest_bytes_range|split; constructor|cbn [length]; lia].
Qed.

Lemma many_experts_never_drawn q experts active fuel :
  1 <= active -> 256 < Z.min active experts -> requested_experts fuel q experts active = None.
Proof.
  intros Ha Hbig. destruct (requested_experts fuel q experts active) as [l|] eqn:Hr; [|done].
  apply requested_experts_drawn in Hr as [Hd%drawn_length Hl]; lia.
Qed.

(** The experts of a request are as many as are active, all of them distinct
    experts of the model; and where more than 256 are active the loop that draws them
    does not end, because it draws bytes (so experts from 256 up are never asked for). *)
Theorem drawn_experts_are_distinct q experts active :
  1 <= active ->
  (forall fuel l, requested_experts fuel q experts active = Some l ->
     NoDup l /\ Forall (fun x => 0 <= x < Z.min experts 256) l /\ Z.of_nat (length l) = Z.max 0 (Z.min active experts))
  /\ (256 < Z.min active experts -> forall fuel, requested_experts fuel q experts active = None).
Proof.
  intros Ha. split.
  - by intros fuel l [[H1 H2] H3]%requested_experts_drawn.
  - intros Hbig fuel. by apply many_experts_never_drawn.
Qed.

Definition sample_request : request :=
  {| q_model := "mixtral"; q_max_tokens := 16; q_messages := [{| pm_role := "user"; pm_content := "hi" |}]; q_metadata := [] |}.

Lemma drawn_experts_are_distinct_witness :
  exists l, requested_experts 20 sample_request 8 2 = Some l /\ NoDup l /\ Z.of_nat (length l) = 2
    /\ forall fuel, requested_experts fuel sample_request 384 300 = None.
Proof.
  eexists. split; [vm_compute; reflexivity|].
  destruct (drawn_experts_are_distinct sample_request 8 2 ltac:(lia)) as [H _].
  destruct (H 20%nat _ ltac:(vm_compute; reflexivity)) as (H1 & _ & H2). split; [exact H1|]. split; [exact H2|].
  exact (proj2 (drawn_experts_are_distinct sample_request 384 300 ltac:(lia)) ltac:(lia)).
Defined.

(** A request for a model of which more than 256 experts are active keeps the tracker's
    lock for ever: it never returns, whatever the tracker holds. *)
Lemma request_with_many_experts_never_returns mode resident py_str m q t plan :
  dget "frontier_architecture" (q_metadata q) = Some (JObj plan) ->
  plan_get "architecture_subtype" plan = JStr "moe" ->
  256 < Z.min (Z.max (int_or (plan_int "active_expert_count" plan) 1) 1) (Z.max (int_or (plan_int "expert_count" plan) 0) 0) ->
  forall fuel, annotate_request mode resident py_str fuel m q t = None.
Proof.
  intros Hq Hs Hbig fuel. unfold annotate_request. rewrite Hq. cbn zeta. unfold text_or. rewrite Hs. cbn.
  unfold annotate_moe_request. by rewrite many_experts_never_drawn by lia.
Qed.

(** Prompts whose parts are cut differently have one key: the second counts as a hit. *)
Example cut_prompts_share_a_key :
  prompt_key {| q_model := "m"; q_max_tokens := 16; q_messages := [{| pm_role := "user"; pm_content := "auserb" |}]; q_metadata := [] |}
  = prompt_key {| q_model := "m"; q_max_tokens := 16;
                  q_messages := [{| pm_role := "user"; pm_content := "a" |}; {| pm_role := "user"; pm_content := "b" |}];
                  q_metadata := [] |}.
Proof. vm_compute. reflexivity. Qed.

(** ** The tracker counts what it saw *)

Definition window_ok (peak : Z) (w : window) : Prop :=
  0 < w_limit w /\ NoDup (w_resident w) /\ Z.of_nat (length (w_resident w)) <= Z.min (w_limit w) peak.

Definition entries (keys : list string) : Z := Z.of_nat (length keys).

Record tracked (t : tracker) : Prop := {
  tk_requests : t_ssm_requests t = t_hits t + t_misses t;
  tk_entries : dtotal entries (t_prompt_keys t) <= t_misses t;
  tk_hits : 0 <= t_hits t;
  tk_keys : Forall (fun x => NoDup x.2) (t_prompt_keys t);
  tk_bytes : Forall (fun x => 2 <= x.2) (t_peak_bytes t);
  tk_windows : Forall (fun x => window_ok (t_peak_experts t) x.2) (t_windows t);
  tk_swaps : 0 <= t_swaps t /\ 0 <= t_swap_mb t
}.

Lemma tracked_init : tracked init_tracker.
Proof. split; cbn; try constructor; lia. Qed.

Lemma tracked_unregister id t : tracked t -> tracked (unregister_model id t).
Proof.
  intros []. split; cbn; try done; try (by apply Forall_ddel).
  transitivity (dtotal entries (t_prompt_keys t)); [|done]. apply dtotal_ddel. intros l. unfold entries. lia.
Qed.

Lemma tracked_register mode resident py_str m t : tracked t -> tracked (register_manifest mode resident py_str m t).
Proof.
  intros Ht. unfold register_manifest. destruct (plan_for _ _ _ _) as [plan|]; [|by apply tracked_unregister].
  destruct (plan_int _ _) as [n|], (mf_memory m) as [f|]; try (by destruct Ht; split).
  cbn zeta. destruct (n <? f); by destruct Ht; split.
Qed.

Lemma tracked_ssm id q plan t : tracked t -> tracked (annotate_ssm_request id q plan t).1.
Proof.
  intros []. unfold annotate_ssm_request. cbn [fst].
  set (keys := default [] (dget id (t_prompt_keys t))).
  assert (Hk : NoDup keys).
  { unfold keys. destruct (dget id (t_prompt_keys t)) as [l|] eqn:Hl; [|constructor].
    exact (Forall_dget (fun l => NoDup l) _ _ _ tk_keys0 Hl). }
  assert (He : match dget id (t_prompt_keys t) with Some l => entries l | None => 0 end = entries keys).
  { unfold keys. by destruct (dget id (t_prompt_keys t)). }
  split; cbn -[dtotal entries]; try done.
  - destruct (bool_decide _); lia.
  - rewrite dtotal_dset, He. unfold entries at 2 3. destruct (bool_decide _); [lia|]. rewrite length_app. cbn [length]. lia.
  - destruct (bool_decide _); lia.
  - apply (Forall_dset (fun l => NoDup l)); [done|]. destruct (bool_decide _) eqn:Hb; [done|].
    apply bool_decide_eq_false in Hb. apply NoDup_app. split; [done|]. split; [set_solver|apply NoDup_singleton].
  - apply (Forall_dset (fun v => 2 <= v)); [done|]. nia.
Qed.

Lemma access_ok ids w : NoDup (w_resident w) -> 0 < w_limit w -> Z.of_nat (length (w_resident w)) <= w_limit w ->
  let '(w', n) := access ids w in
  w_limit w' = w_limit w /\ NoDup (w_resident w') /\ Z.of_nat (length (w_resident w')) <= w_limit w /\ 0 <= n.
Proof.
  intros Hnd Hl Hlen. unfold access. replace (w_limit w <=? 0) with false by (symmetry; apply Z.leb_gt; lia).
  destruct (Z.to_nat (w_limit w)) as [|k] eqn:Hk; [lia|]. assert (Hz : w_limit w = Z.of_nat (S k)) by lia.
  assert (Hr : w_resident w = rev (take (S k) (rev (w_resident w)))).
  { rewrite take_ge, rev_involutive; [done|]. rewrite length_rev. lia. }
  rewrite Hr, Hz, access_loop_lru by (by apply NoDup_ListNoDup, NoDup_rev, NoDup_ListNoDup). cbn.
  set (r := foldl recency_step _ ids). split_and!; [done| | |].
  - apply NoDup_ListNoDup, NoDup_rev, NoDup_ListNoDup. eapply sublist_NoDup; [|apply sublist_take].
    unfold r. by apply NoDup_recency_from, NoDup_ListNoDup, NoDup_rev, NoDup_ListNoDup.
  - rewrite length_rev, length_take. lia.
  - generalize (rev (w_resident w)). clear. induction ids as [|x ids IH]; intros l; cbn [lru_faults]; [done|].
    specialize (IH (recency_step l x)). destruct (bool_decide _); lia.
Qed.

Lemma window_ok_mono p p' w : p <= p' -> window_ok p w -> window_ok p' w.
Proof. intros Hp (H1 & H2 & H3). split_and!; [done|done|lia]. Qed.

Lemma tracked_moe py_str fuel id q plan t t' realized :
  tracked t -> annotate_moe_request py_str fuel id q plan t = Some (t', realized) -> tracked t'.
Proof.
  intros []. unfold annotate_moe_request. cbn zeta.
  set (experts := Z.max (int_or (plan_int "expert_count" plan) 0) 0).
  set (resident := Z.max (int_or (plan_int "resident_expert_count" plan) experts) 0).
  destruct (requested_experts _ _ _ _) as [requested|]; [|done].
  set (step := (if (_ : bool) then _ else _ : list (string * window) * Z * Z)).
  assert (Hstep : Forall (fun x => window_ok (Z.max (t_peak_experts t) step.1.2) x.2) step.1.1 /\ 0 <= step.2).
  { unfold step. destruct (_ || _ || _)%bool eqn:Hoff; cbn [fst snd].
    - split; [|done]. eapply Forall_impl; [exact tk_windows0|]. intros x. apply window_ok_mono. lia.
    - apply orb_false_iff in Hoff as [[_ Hres]%orb_false_iff _]. bool_prop.
      set (w := default _ (dget id (t_windows t))).
      assert (Hw : 0 < w_limit w /\ NoDup (w_resident w) /\ Z.of_nat (length (w_resident w)) <= w_limit w).
      { unfold w. destruct (dget id (t_windows t)) as [x|] eqn:Hx; cbn [default w_limit w_resident length]; unfold Datatypes.id.
        - destruct (Forall_dget (window_ok (t_peak_experts t)) _ _ _ tk_windows0 Hx) as (H1 & H2 & H3). by split_and!; [| |lia].
        - split_and!; [done|constructor|lia]. }
      destruct Hw as (Hl & Hnd & Hlen). pose proof (access_ok requested w Hnd Hl Hlen) as Ha.
      destruct (access requested w) as [w' n]. destruct Ha as (H1 & H2 & H3 & H4). cbn [fst snd]. split; [|done].
      apply (Forall_dset (window_ok _)).
      + eapply Forall_impl; [exact tk_windows0|]. intros x. apply window_ok_mono. lia.
      + split_and!; [lia|done|lia]. }
  destruct step as [[windows count] swaps]. cbn [fst snd] in Hstep. destruct Hstep as [Hwin Hswaps]. intros [= <- _].
  destruct tk_swaps0 as [Hs1 Hs2]. split; cbn -[dtotal entries f_round_int int_truediv]; try done. split; [lia|].
  destruct (_ =? "off")%string; [lia|]. destruct (plan_int "estimated_expert_memory_mb" plan); [|lia].
  destruct (0 <? experts); [|lia]. nia.
Qed.

Section history.
Context (mode : memory_mode) (resident_setting : Z) (py_str : json -> string).

Lemma tracked_annotate fuel m q t t' q' answer :
  tracked t -> annotate_request mode resident_setting py_str fuel m q t = Some (t', q', answer) -> tracked t'.
Proof.
  intros Ht. unfold annotate_request. destruct (match dget _ _ with Some _ => _ | None => _ end) as [[plan|] q1]; [|by intros [= <- _ _]].
  cbn zeta. destruct (member _ ["ssm_mamba"; "hybrid_ssm"]).
  - destruct (annotate_ssm_request _ _ _ _) as [t1 realized] eqn:Hs. intros [= <- _ _].
    pose proof (tracked_ssm (mf_id m) q1 plan t Ht) as H. by rewrite Hs in H.
  - destruct (member _ _); [|by intros [= <- _ _]].
    destruct (annotate_moe_request _ _ _ _ _ _) as [[t1 realized]|] eqn:Hs; [|done]. intros [= <- _ _]. by eapply tracked_moe.
Qed.

(** What is done to a tracker; a request that never returns ends the history. *)
Inductive tracker_op :=
| Register (m : manifest)
| Unregister (id : string)
| Annotate (fuel : nat) (m : manifest) (q : request).

Definition run_op (t : tracker) (o : tracker_op) : option tracker :=
  match o with
  | Register m => Some (register_manifest mode resident_setting py_str m t)
  | Unregister id => Some (unregister_model id t)
  | Annotate fuel m q =>
      match annotate_request mode resident_setting py_str fuel m q t with Some (t, _, _) => Some t | None => None end
  end.

Fixpoint run_ops (t : tracker) (ops : list tracker_op) : option tracker :=
  match ops with [] => Some t | o :: ops => match run_op t o with Some t => run_ops t ops | None => None end end.

(** Whatever was registered, requested and forgotten before: hits and misses add
    up to the requests of models with recurrent state, no more prompts are remembered
    than were missed, each once per model; and every window of experts is within its
    limit, without repetition, and within the peak that the snapshot reports. *)
Theorem tracker_counts_what_it_saw ops t :
  run_ops init_tracker ops = Some t ->
  let s := performance_feature_snapshot mode resident_setting t in
  fs_ssm_requests s = fs_hits s + fs_misses s /\ fs_entries s <= fs_misses s
  /\ Forall (fun x => NoDup x.2) (t_prompt_keys t)
  /\ Forall (fun x => NoDup (w_resident x.2) /\ 0 < w_limit x.2
                      /\ Z.of_nat (length (w_resident x.2)) <= Z.min (w_limit x.2) (fs_peak_experts s)) (t_windows t).
Proof.
  intros H. assert (Ht : tracked t).
  { revert H. generalize tracked_init. generalize init_tracker. induction ops as [|o ops IH]; intros t0 H0.
    - by intros [= <-].
    - cbn [run_ops]. destruct (run_op t0 o) as [t1|] eqn:Ho; [|done]. apply IH. destruct o as [m|id|fuel m q]; cbn [run_op] in Ho.
      + injection Ho as <-. by apply tracked_register.
      + injection Ho as <-. by apply tracked_unregister.
      + destruct (annotate_request _ _ _ _ _ _ _) as [[[t2 q2] a]|] eqn:Ha; [|done]. injection Ho as <-.
        by eapply tracked_annotate. }
  destruct Ht. cbn -[Z.add]. split_and!; [done|done|done|].
  eapply Forall_impl; [exact tk_windows0|]. intros x (H1 & H2 & H3). split_and!; [done|done|lia].
Qed.
End history.

Definition moe_manifest : manifest :=
  {| mf_id := "mixtral"; mf_display_name := "Mixtral"; mf_family := "mixtral"; mf_quantization := None; mf_fingerprint := "";
     mf_role := Standalone; mf_lineage := []; mf_subtype := Moe; mf_modality := [Text]; mf_audio_roles := [];
     mf_source_path := "/models/mixtral"; mf_format := FormatMlx; mf_affinity := [MlxText]; mf_text_affinity := [];
     mf_text_source := None; mf_text_reason := None; mf_memory := Some 26000; mf_context := Some 32768;
     mf_status := Runnable; mf_metadata := [("expert_count", JInt 8); ("active_expert_count", JInt 2)] |}.

Definition sample_history : list tracker_op :=
  [Register moe_manifest; Annotate 50 moe_manifest sample_request; Annotate 50 moe_manifest (sample_request <| q_max_tokens := 17 |>)].

Lemma tracker_counts_what_it_saw_witness :
  exists t, run_ops ExpertStreaming 3 (fun _ => "?") init_tracker sample_history = Some t
    /\ Forall (fun x => NoDup (w_resident x.2) /\ 0 < w_limit x.2
                        /\ Z.of_nat (length (w_resident x.2)) <= Z.min (w_limit x.2) (fs_peak_experts (performance_feature_snapshot ExpertStreaming 3 t)))
         (t_windows t).
Proof.
  assert (Hrun : exists t, run_ops ExpertStreaming 3 (fun _ => "?") init_tracker sample_history = Some t)
    by (eexists; vm_compute; reflexivity).
  destruct Hrun as [t Ht]. exists t. split; [exact Ht|].
  exact (proj2 (proj2 (proj2 (tracker_counts_what_it_saw ExpertStreaming 3 (fun _ => "?") sample_history t Ht)))).
Defined.

(** The second request finds the experts of the first where they are the same. *)
Example sample_window :
  option_map (fun t => (map (fun x => w_resident x.2) (t_windows t), t_swaps t)) 
    (run_ops ExpertStreaming 3 (fun _ => "?") init_tracker sample_history) = Some ([[6; 3; 4]], 3).
Proof. vm_compute. reflexivity. Qed.
