(* ===== verification/Inventory.v ===== *)
(** Models that servers advertise: the URIs of src/src/lewlm/utils/model_identity.py,
    registry/external_inventory.py and registry/ollama_inventory.py.

    What a server answers is JSON, or the text of the error; a record is a dictionary.
    Strings are ASCII.  Validation results, the notes in the metadata of manifests and
    the advice in error texts are left out. *)

From S2P Require Import Prelude PyFloat PyString Json PySort Sha256 Manifest Routing.

Open Scope Z_scope.

(** ** URIs *)

Definition slash : Ascii.ascii := Ascii.ascii_of_nat 47.

Definition OLLAMA_SOURCE_PREFIX : string := "ollama://".
Definition EXTERNAL_SOURCE_PREFIX : string := "external://".

Definition is_external_source (source_path : string) : bool := String.prefix EXTERNAL_SOURCE_PREFIX source_path.
Definition is_ollama_source (source_path : string) : bool := String.prefix OLLAMA_SOURCE_PREFIX source_path.

Definition ollama_source_path (tag : string) : string := OLLAMA_SOURCE_PREFIX +:+ tag.
Definition external_source_path (endpoint_id upstream_id : string) : string :=
  EXTERNAL_SOURCE_PREFIX +:+ endpoint_id +:+ String slash (quote upstream_id).

Definition parse_external_source (source_path : string) : option (string * string) :=
  match strip_prefix EXTERNAL_SOURCE_PREFIX source_path with
  | None => None
  | Some remainder =>
      let '(endpoint_id, separator, encoded) := partition slash remainder in
      if (endpoint_id =? "")%string || negb separator || (encoded =? "")%string then None
      else Some (endpoint_id, unquote encoded)
  end.

Definition slug (s : string) : string :=
  String.string_of_list_ascii
    (rev (drop_dashes (rev (drop_dashes (String.list_ascii_of_string (sub_other false (casefold s))))))).

Definition text_or_else (s fallback : string) : string := if (s =? "")%string then fallback else s.

(** What identifies a model of an endpoint: the two names with a zero byte between. *)
Definition endpoint_identity (endpoint_id upstream_id : string) : string :=
  hexdigest (encode_ascii endpoint_id ++ 0 :: encode_ascii upstream_id).

Definition external_model_id (endpoint_id upstream_id : string) : string :=
  text_or_else (slug upstream_id) "model" +:+ "-" +:+ text_or_else (slug endpoint_id) "endpoint" +:+ "-"
  +:+ String.substring 0 8 (endpoint_identity endpoint_id upstream_id).

(** ** Reading records *)

Definition record : Type := list (string * json).

Definition rget (key : string) (r : record) : json := default JNull (dget key r).

Definition positive_int (v : json) : option Z := match v with JInt n => if 0 <? n then Some n else None | _ => None end.

(** [_string_or_none]: the stripped text, if something is left. *)
Definition stripped_text (v : json) : option string :=
  match v with JStr s => if (strip s =? "")%string then None else Some (strip s) | _ => None end.

Definition json_text (s : option string) : json := match s with Some s => JStr s | None => JNull end.
Definition json_int (n : option Z) : json := match n with Some n => JInt n | None => JNull end.

Fixpoint first_some {A B} (f : A -> option B) (l : list A) : option B :=
  match l with [] => None | x :: l => match f x with Some y => Some y | None => first_some f l end end.

(** The record, and its [metadata] if that is a dictionary. *)
Definition containers (r : record) : list record := r :: match rget "metadata" r with JObj d => [d] | _ => [] end.

(** ** Named endpoints *)

Record external_endpoint := { ee_id : string; ee_profile : string; ee_enabled : bool; ee_base_url : string }.

(** An endpoint's runtime as the inventory sees it: its configuration, if it has one,
    and how [advertised_model_records] ends, if it has that method. *)
Record inventory_runtime := { ir_endpoint : option external_endpoint; ir_records : option (result string (list record)); ir_stale : bool }.

Record external_result := {
  xr_endpoint_id : string;
  xr_endpoint : string;
  xr_profile : string;
  xr_manifests : list manifest;
  xr_error : option string;
  xr_stale : bool
}.

Definition xr_succeeded (r : external_result) : bool := match xr_error r with None => true | Some _ => false end.

Definition inventoried_endpoint (rt : inventory_runtime) : option external_endpoint :=
  match ir_endpoint rt with
  | Some e => if negb (ee_enabled e) then None
              else if (ee_profile e =? "ollama_local")%string then None
              else match ir_records rt with Some _ => Some e | None => None end
  | None => None
  end.

Definition record_id (r : record) : string := match rget "id" r with JStr s => strip s | _ => "" end.

Definition architecture_family (r : record) : string :=
  default "unknown"
    (first_some (fun d => first_some (fun key => stripped_text (rget key d)) ["architecture"; "family"; "model_type"]) (containers r)).

Definition format_hint (s : string) : option model_format :=
  dget s [("gguf", FormatGguf); ("exl3", FormatExl3); ("huggingface", FormatHuggingface); ("safetensors", FormatHuggingface);
          ("mlx", FormatMlx)].

Definition ends_with (suffix s : string) : bool :=
  let n := String.length suffix in
  (n <=? String.length s)%nat && (String.substring (String.length s - n) n s =? suffix)%string.

Definition format_evidence (r : record) (profile : string) : model_format :=
  match first_some (fun d => match rget "format" d with JStr s => format_hint (casefold (strip s)) | _ => None end) (containers r) with
  | Some f => f
  | None =>
      if existsb (fun key => match rget key r with JStr s => ends_with ".gguf" (casefold (strip s)) | _ => false end) ["id"; "root"]
      then FormatGguf
      else if member profile ["llamacpp_server"; "ollama_local"] then FormatGguf
      else FormatUnknown
  end.

(** [a or b] of optional values that are true when present. *)
Definition or_some {A} (a b : option A) : option A := match a with Some _ => a | None => b end.

Definition build_external_manifest (r : record) (e : external_endpoint) (upstream_id : string) : manifest :=
  {| mf_id := external_model_id (ee_id e) upstream_id; mf_display_name := upstream_id;
     mf_family := architecture_family r; mf_quantization := stripped_text (rget "quantization" r);
     mf_fingerprint := endpoint_identity (ee_id e) upstream_id; mf_role := Standalone; mf_lineage := [];
     mf_subtype := UnknownSubtype; mf_modality := [Text]; mf_audio_roles := [];
     mf_source_path := external_source_path (ee_id e) upstream_id; mf_format := format_evidence r (ee_profile e);
     mf_affinity := [ExternalAccelerator]; mf_text_affinity := []; mf_text_source := None; mf_text_reason := None;
     mf_memory := None;
     mf_context := or_some (positive_int (rget "max_model_len" r)) (positive_int (rget "context_length" r));
     mf_status := Runnable;
     mf_metadata :=
       [("source_kind", JStr "external"); ("external_endpoint_id", JStr (ee_id e)); ("external_profile", JStr (ee_profile e));
        ("external_endpoint_url", JStr (server_root (ee_base_url e))); ("external_adapter_model_id", JStr upstream_id);
        ("external_upstream_model_id", JStr upstream_id); ("external_owned_by", json_text (stripped_text (rget "owned_by" r)));
        ("external_record_created", json_int (positive_int (rget "created" r)));
        ("external_record_root", json_text (stripped_text (rget "root" r))); ("execution_locality", JStr "loopback_unverified")] |}.

(** The loop over records: those without an id, and ids that were seen, are skipped. *)
Fixpoint read_records (e : external_endpoint) (seen : list string) (rs : list record) : list manifest :=
  match rs with
  | [] => []
  | r :: rs =>
      let id := record_id r in
      if (id =? "")%string || member id seen then read_records e seen rs
      else build_external_manifest r e id :: read_records e (id :: seen) rs
  end.

(** [_read_endpoint]. *)
Definition read_endpoint (endpoint_id : string) (e : external_endpoint) (records : result string (list record)) (stale : bool)
    : external_result :=
  let root := server_root (ee_base_url e) in
  match records with
  | Err error =>
      {| xr_endpoint_id := endpoint_id; xr_endpoint := root; xr_profile := ee_profile e; xr_manifests := [];
         xr_error := Some error; xr_stale := stale |}
  | Ok rs =>
      {| xr_endpoint_id := endpoint_id; xr_endpoint := root; xr_profile := ee_profile e; xr_manifests := read_records e [] rs;
         xr_error := None; xr_stale := false |}
  end.

(** [discover_external_models]: the reads run concurrently, their results are in order. *)
Definition discover_external_models (runtimes : list (string * inventory_runtime)) : list external_result :=
  omap (fun '(id, rt) => match inventoried_endpoint rt, ir_records rt with
                         | Some e, Some records => Some (read_endpoint id e records (ir_stale rt))
                         | _, _ => None
                         end) runtimes.

(** ** The Ollama daemon *)

Inductive locality := HostLocal | OffHost.

#[export] Instance locality_eq_dec : EqDecision locality.
Proof. solve_decision. Defined.

Definition locality_value (l : locality) : string := match l with HostLocal => "host_local" | OffHost => "off_host" end.

(** [$]: the end, or a line feed before it. *)
Definition at_end (s : string) : bool :=
  match s with EmptyString => true | String c EmptyString => (Ascii.nat_of_ascii c =? 10)%nat | _ => false end.

(** [re.search] of [(?::cloud$|-cloud(?::|$))] in a lowered text. *)
Fixpoint cloud_name (s : string) : bool :=
  match strip_prefix ":cloud" s with
  | Some rest => at_end rest
  | None => match strip_prefix "-cloud" s with Some rest => String.prefix ":" rest || at_end rest | None => false end
  end
  || match s with EmptyString => false | String _ s' => cloud_name s' end.

Definition classify_execution_locality (r : record) : locality :=
  if existsb (fun key => match stripped_text (rget key r) with Some _ => true | None => false end) ["remote_host"; "remote_model"]
  then OffHost
  else if existsb (fun key => match rget key r with JStr s => cloud_name (casefold s) | _ => false end) ["name"; "model"]
  then OffHost
  else HostLocal.

Definition record_tag (r : record) : string :=
  default "" (first_some (fun key => stripped_text (rget key r)) ["name"; "model"]).

Definition record_details (r : record) : record := match rget "details" r with JObj d => d | _ => [] end.

(** [_capabilities]: lowered, each once, sorted. *)
Definition capabilities (r : record) : list string :=
  match rget "capabilities" r with
  | JArr items =>
      sort_by String.ltb (remove_dups (omap (fun v => match v with JStr s => if (s =? "")%string then None else Some (casefold s)
                                                      | _ => None end) items))
  | _ => []
  end.

Definition modalities_by_capability (c : string) : list modality :=
  default [] (dget c [("completion", [Text]); ("vision", [Vision; Multimodal]); ("embedding", [Embedding]); ("rerank", [Rerank])]).

Definition all_modality_values : list modality := [Text; Vision; Audio; Embedding; Rerank; Multimodal].

(** [_modality]: in the order of the enumeration. *)
Definition declared_modality (caps : list string) : list modality :=
  match concat (map modalities_by_capability caps) with
  | [] => [Text]
  | declared => List.filter (fun m => member m declared) all_modality_values
  end.

Definition record_fingerprint (r : record) (tag : string) : string :=
  default (hexdigest (encode_ascii tag)) (stripped_text (rget "digest" r)).

Definition ollama_model_id (tag fingerprint : string) : string :=
  text_or_else (slug tag) "model" +:+ "-" +:+ String.substring 0 12 fingerprint.

(** [_build_manifest]. *)
Definition build_ollama_manifest (r : record) (tag : string) (l : locality) (endpoint : string) : manifest :=
  let details := record_details r in
  let fingerprint := record_fingerprint r tag in
  let size := positive_int (rget "size" r) in
  {| mf_id := ollama_model_id tag fingerprint; mf_display_name := tag;
     mf_family := default "unknown" (stripped_text (rget "family" details));
     mf_quantization := match rget "quantization_level" details with JStr s => if (s =? "")%string then None else Some s | _ => None end;
     mf_fingerprint := fingerprint; mf_role := Standalone; mf_lineage := []; mf_subtype := UnknownSubtype;
     mf_modality := declared_modality (capabilities r); mf_audio_roles := []; mf_source_path := ollama_source_path tag;
     mf_format := FormatGguf; mf_affinity := [ExternalAccelerator]; mf_text_affinity := []; mf_text_source := None;
     mf_text_reason := None;
     mf_memory := match size with Some n => f_ceil (int_truediv n 1048576) | None => None end;
     mf_context := positive_int (rget "context_length" details); mf_status := Runnable;
     mf_metadata :=
       [("source_kind", JStr "ollama"); ("external_adapter_model_id", JStr tag);
        ("ollama_execution_locality", JStr (locality_value l)); ("execution_locality", JStr (locality_value l));
        ("ollama_endpoint", JStr endpoint); ("ollama_tag", JStr tag); ("ollama_digest", rget "digest" r);
        ("ollama_capabilities", JArr (map JStr (capabilities r))); ("ollama_parameter_size", rget "parameter_size" details);
        ("ollama_format", rget "format" details)]
       ++ match size with Some n => [("size_bytes", JInt n)] | None => [] end
       ++ (if decide (l = OffHost) then [("ollama_remote_host", rget "remote_host" r); ("ollama_remote_model", rget "remote_model" r)]
           else []) |}.

#[export] Instance manifest_eta : Eta manifest := fun m =>
  Build_manifest (mf_id m) (mf_display_name m) (mf_family m) (mf_quantization m) (mf_fingerprint m) (mf_role m) (mf_lineage m)
    (mf_subtype m) (mf_modality m) (mf_audio_roles m) (mf_source_path m) (mf_format m) (mf_affinity m) (mf_text_affinity m)
    (mf_text_source m) (mf_text_reason m) (mf_memory m) (mf_context m) (mf_status m) (mf_metadata m).

Record ollama_result := {
  or_endpoint : string;
  or_manifests : list manifest;
  or_skipped : list string;
  or_error : option string;
  or_binding_note : option string
}.

Definition or_succeeded (r : ollama_result) : bool := match or_error r with None => true | Some _ => false end.

(** The fields of [LewLMSettings] that are read, and [resolved_external_endpoints]. *)
Record ollama_settings := { os_base_url : string; os_cloud_enabled : bool; os_endpoints : list external_endpoint }.

(** [rstrip("/")]. *)
Definition rstrip_slash (s : string) : string :=
  String.string_of_list_ascii (rev (rstrip_slashes (rev (String.list_ascii_of_string s)))).

(** [_ollama_endpoint_binding]: the endpoint, or the note that there is none. *)
Definition ollama_endpoint_binding (cfg : ollama_settings) (endpoint : string) : option string * option string :=
  let daemon_root := server_root endpoint in
  match List.find (fun e => ee_enabled e && (ee_profile e =? "ollama_local")%string
                            && (server_root (ee_base_url e) =? daemon_root)%string) (os_endpoints cfg) with
  | Some e => (Some (ee_id e), None)
  | None => (None, Some ("No enabled external endpoint with profile `ollama_local` targets " +:+ daemon_root))
  end.

(** [_fetch_tags] after the answer was parsed: the records, or why there are none. *)
Definition tag_records (endpoint : string) (answer : result string json) : result string (list record) :=
  match answer with
  | Err e => Err e
  | Ok (JObj payload) =>
      match rget "models" payload with
      | JArr items => Ok (omap (fun v => match v with JObj r => Some r | _ => None end) items)
      | _ => Err ("Ollama returned no model list from " +:+ endpoint +:+ "/api/tags.")
      end
  | Ok _ => Err ("Ollama returned no model list from " +:+ endpoint +:+ "/api/tags.")
  end.

(** The loop of [discover_ollama_models]: manifests and the tags that are skipped. *)
Fixpoint read_tags (cfg : ollama_settings) (endpoint : string) (bound : option string) (seen : list string) (rs : list record)
    : list manifest * list string :=
  match rs with
  | [] => ([], [])
  | r :: rs =>
      let tag := record_tag r in
      if (tag =? "")%string || member tag seen then read_tags cfg endpoint bound seen rs
      else
        let l := classify_execution_locality r in
        let '(ms, skipped) := read_tags cfg endpoint bound (tag :: seen) rs in
        if bool_decide (l = OffHost) && negb (os_cloud_enabled cfg) then (ms, tag :: skipped)
        else
          let m := build_ollama_manifest r tag l endpoint in
          let m := match bound with
                   | Some id => m <| mf_metadata := dset "external_endpoint_id" (JStr id) (mf_metadata m) |>
                   | None => m
                   end in
          (m :: ms, skipped)
  end.

Definition discover_ollama_models (cfg : ollama_settings) (answer : result string json) : ollama_result :=
  let endpoint := rstrip_slash (os_base_url cfg) in
  match tag_records endpoint answer with
  | Err e => {| or_endpoint := endpoint; or_manifests := []; or_skipped := []; or_error := Some e; or_binding_note := None |}
  | Ok rs =>
      let '(bound, note) := ollama_endpoint_binding cfg endpoint in
      let '(ms, skipped) := read_tags cfg endpoint bound [] rs in
      {| or_endpoint := endpoint; or_manifests := ms; or_skipped := sort_by String.ltb skipped; or_error := None;
         or_binding_note := note |}
  end.

(** ** URIs are read back *)

Lemma strip_prefix_app p s : strip_prefix p (p +:+ s) = Some s.
Proof. induction p as [|c p IH]; [done|]. change (String c p +:+ s) with (String c (p +:+ s)). cbn [strip_prefix]. by rewrite decide_True. Qed.

Lemma prefix_app p s : String.prefix p (p +:+ s) = true.
Proof. induction p as [|c p IH]; [by destruct s|]. change (String c p +:+ s) with (String c (p +:+ s)).
  simpl. destruct (Ascii.ascii_dec c c); [exact IH|congruence]. Qed.

Lemma append_inj p s t : p +:+ s = p +:+ t -> s = t.
Proof. induction p as [|c p IH]; [done|]. change (String c p +:+ ?x) with (String c (p +:+ x)). intros [= H]. by apply IH. Qed.

(** An id of an endpoint: not empty and, by its pattern, without a slash. *)
Definition endpoint_name (id : string) : Prop := id <> "" /\ all_chars (fun c => negb (bool_decide (c = slash))) id = true.

Lemma quote_nonempty s : s <> "" -> quote s <> "".
Proof. intros Hs H. apply Hs. rewrite <- (unquote_quote s), H. done. Qed.

Lemma external_uri_partition id up :
  endpoint_name id -> strip_prefix EXTERNAL_SOURCE_PREFIX (external_source_path id up) = Some (id +:+ String slash (quote up))
  /\ partition slash (id +:+ String slash (quote up)) = (id, true, quote up).
Proof. intros [_ H]. split; [apply strip_prefix_app|by apply partition_app]. Qed.

Lemma parse_external_path id up :
  endpoint_name id -> up <> "" -> parse_external_source (external_source_path id up) = Some (id, up).
Proof.
  intros Hid Hup. destruct (external_uri_partition id up Hid) as [H1 H2].
  unfold parse_external_source. rewrite H1, H2, unquote_quote. destruct Hid as [Hid _].
  by rewrite (proj2 (String.eqb_neq _ _) Hid), (proj2 (String.eqb_neq _ _) (quote_nonempty up Hup)).
Qed.

(** The URI of an advertised model is read back as its endpoint and its exact id,
    whatever characters the id has, and no code takes it for a file. *)
Theorem external_uri_roundtrip id up :
  endpoint_name id -> up <> "" ->
  parse_external_source (external_source_path id up) = Some (id, up) /\ is_uri_source (external_source_path id up) = true.
Proof.
  intros Hid Hup. split; [by apply parse_external_path|].
  unfold is_uri_source, external_source_path. by rewrite (prefix_app EXTERNAL_SOURCE_PREFIX), orb_true_r.
Qed.

Lemma external_uri_roundtrip_witness :
  parse_external_source (external_source_path "lab.1" "org/Model 7B") = Some ("lab.1", "org/Model 7B").
Proof. apply (external_uri_roundtrip "lab.1" "org/Model 7B"); [by split|done]. Defined.

Lemma external_source_inj id up id' up' :
  endpoint_name id -> endpoint_name id' -> external_source_path id up = external_source_path id' up' -> id = id' /\ up = up'.
Proof.
  intros H H' Heq. destruct (external_uri_partition id up H) as [H1 H2], (external_uri_partition id' up' H') as [H1' H2'].
  rewrite Heq, H1' in H1. injection H1 as H1. rewrite H1, H2 in H2'. injection H2' as -> Hq. by apply quote_inj in Hq.
Qed.

(** ** What is registered of a daemon *)

Section daemon.
Context (cfg : ollama_settings) (endpoint : string) (bound : option string).

Lemma bound_manifest_fields m :
  let m' := match bound with Some id => m <| mf_metadata := dset "external_endpoint_id" (JStr id) (mf_metadata m) |> | None => m end in
  mf_id m' = mf_id m /\ mf_display_name m' = mf_display_name m /\ mf_source_path m' = mf_source_path m
  /\ meta "execution_locality" m' = meta "execution_locality" m.
Proof.
  destruct bound as [id|]; [|done]. cbn -[dset]. split_and!; [done..|]. unfold meta. cbn -[dset]. by rewrite dget_dset_ne.
Qed.

(** The record that decides about a tag: the first one with it. *)
Definition first_record (t : string) (rs : list record) : option record :=
  List.find (fun r => record_tag r =? t)%string rs.

Definition kept (r : record) : Prop := classify_execution_locality r = HostLocal \/ os_cloud_enabled cfg = true.

Definition fresh (seen : list string) (t : string) : Prop := t <> "" /\ t ∉ seen.

(** Every new tag is registered or skipped, once, as its first record says. *)
Record accounted (seen : list string) (rs : list record) (ms : list manifest) (skipped : list string) : Prop := {
  ac_names : NoDup (map mf_display_name ms);
  ac_skips : NoDup skipped;
  ac_registered : forall t, t ∈ map mf_display_name ms <-> fresh seen t /\ exists r, first_record t rs = Some r /\ kept r;
  ac_skipped : forall t, t ∈ skipped <-> fresh seen t /\ exists r, first_record t rs = Some r /\ ~ kept r;
  ac_manifest : forall m, m ∈ ms -> mf_source_path m = ollama_source_path (mf_display_name m)
    /\ exists r, first_record (mf_display_name m) rs = Some r
         /\ meta "execution_locality" m = JStr (locality_value (classify_execution_locality r))
}.

Lemma first_record_cons t r rs :
  first_record t (r :: rs) = if (record_tag r =? t)%string then Some r else first_record t rs.
Proof. done. Qed.

Lemma accounted_ignored r seen rs ms skipped :
  ~ fresh seen (record_tag r) -> accounted seen rs ms skipped -> accounted seen (r :: rs) ms skipped.
Proof.
  intros Hr [H1 H2 H3 H4 H5].
  assert (Hf : forall t, fresh seen t -> first_record t (r :: rs) = first_record t rs).
  { intros t Ht. rewrite first_record_cons. destruct (record_tag r =? t)%string eqn:Heq; [|done].
    apply String.eqb_eq in Heq. by subst t. }
  split; [done|done| | |].
  - intros t. rewrite H3. split; intros [Ht Hex]; (split; [done|]); by rewrite Hf in * by done.
  - intros t. rewrite H4. split; intros [Ht Hex]; (split; [done|]); by rewrite Hf in * by done.
  - intros m Hm. rewrite Hf; [by apply H5|]. apply H3. by apply list_elem_of_fmap_2.
Qed.

(** What a new tag changes: nothing for the others, and it is not in what follows. *)
Lemma fresh_step r seen rs t (P : record -> Prop) :
  fresh seen (record_tag r) ->
  (fresh seen t /\ exists r', first_record t (r :: rs) = Some r' /\ P r')
  <-> (t = record_tag r /\ P r) \/ (fresh (record_tag r :: seen) t /\ exists r', first_record t rs = Some r' /\ P r').
Proof.
  intros Hr. rewrite first_record_cons. unfold fresh. rewrite not_elem_of_cons.
  destruct (record_tag r =? t)%string eqn:Heq; [apply String.eqb_eq in Heq; subst t|apply String.eqb_neq in Heq]; naive_solver.
Qed.

Lemma accounted_off r seen rs ms skipped :
  fresh seen (record_tag r) -> ~ kept r ->
  accounted (record_tag r :: seen) rs ms skipped -> accounted seen (r :: rs) ms (record_tag r :: skipped).
Proof.
  intros Hr Hk [H1 H2 H3 H4 H5]. split; [done| | | |].
  - constructor; [|done]. rewrite H4. intros [[_ Hn] _]. apply Hn. by left.
  - intros t. rewrite fresh_step, <- H3 by done. naive_solver.
  - intros t. rewrite fresh_step, <- H4, elem_of_cons by done. naive_solver.
  - intros m Hm. destruct (H5 m Hm) as [Hs (r' & Hf & Hl)]. split; [done|]. exists r'. split; [|done].
    assert (Hin : mf_display_name m ∈ map mf_display_name ms) by by apply list_elem_of_fmap_2.
    apply H3 in Hin as [[_ Hn]%id _]. rewrite first_record_cons, (proj2 (String.eqb_neq _ _)); [done|].
    intros Heq. apply Hn. rewrite Heq. by left.
Qed.

Lemma accounted_on r seen rs ms skipped m :
  fresh seen (record_tag r) -> kept r ->
  mf_display_name m = record_tag r -> mf_source_path m = ollama_source_path (record_tag r) ->
  meta "execution_locality" m = JStr (locality_value (classify_execution_locality r)) ->
  accounted (record_tag r :: seen) rs ms skipped -> accounted seen (r :: rs) (m :: ms) skipped.
Proof.
  intros Hr Hk Hname Hsource Hloc [H1 H2 H3 H4 H5]. split; [|done| | |].
  - cbn [map]. rewrite Hname. constructor; [|done]. rewrite H3. intros [[_ Hn] _]. apply Hn. by left.
  - intros t. cbn [map]. rewrite fresh_step, <- H3, elem_of_cons, Hname by done. naive_solver.
  - intros t. rewrite fresh_step, <- H4 by done. naive_solver.
  - intros m' [->|Hm]%elem_of_cons.
    + rewrite Hname, first_record_cons, String.eqb_refl. split; [done|]. by exists r.
    + destruct (H5 m' Hm) as [Hs (r' & Hf & Hl)]. split; [done|]. exists r'. split; [|done].
      assert (Hin : mf_display_name m' ∈ map mf_display_name ms) by by apply list_elem_of_fmap_2.
      apply H3 in Hin as [[_ Hn] _]. rewrite first_record_cons, (proj2 (String.eqb_neq _ _)); [done|].
      intros Heq. apply Hn. rewrite Heq. by left.
Qed.

Lemma read_tags_accounted rs : forall seen ms skipped,
  read_tags cfg endpoint bound seen rs = (ms, skipped) -> accounted seen rs ms skipped.
Proof.
  induction rs as [|r rs IH]; intros seen ms skipped; cbn [read_tags].
  { intros [= <- <-]. split; [constructor|constructor|..]; intros t; (rewrite elem_of_nil||intros ?%not_elem_of_nil); naive_solver. }
  destruct ((record_tag r =? "")%string || member (record_tag r) seen) eqn:Hskip.
  { intros H. apply accounted_ignored; [|by apply IH]. intros [Hne Hns].
    apply orb_true_iff in Hskip as [?%String.eqb_eq|?%member_true]; done. }
  apply orb_false_iff in Hskip as [Hne%String.eqb_neq Hns].
  assert (Hf : fresh seen (record_tag r)) by (split; [done|]; rewrite <- member_true; by rewrite Hns).
  destruct (read_tags cfg endpoint bound (record_tag r :: seen) rs) as [ms' skipped'] eqn:Hrec. apply IH in Hrec. cbn zeta.
  destruct (bool_decide _ && negb _)%bool eqn:Hoff.
  - apply andb_true_iff in Hoff as [Hoff%bool_decide_eq_true Hc%negb_true_iff]. intros [= <- <-].
    apply accounted_off; [done| |done]. unfold kept. intros []; congruence.
  - intros [= <- <-]. destruct (bound_manifest_fields (build_ollama_manifest r (record_tag r) (classify_execution_locality r) endpoint))
      as (_ & Hname & Hsource & Hloc). apply accounted_on; try done.
    apply andb_false_iff in Hoff as [Hoff%bool_decide_eq_false|Hoff%negb_false_iff]; [left|by right].
    by destruct (classify_execution_locality r).
Qed.
End daemon.

(** *** What a record says of the cloud *)

(** The end of the text, or a line feed that ends it. *)
Definition ends_there (s : string) : Prop := s = "" \/ s = String (Ascii.ascii_of_nat 10) "".

(** A name with the cloud's tag, or with its suffix. *)
Definition cloud_marked (s : string) : Prop :=
  exists before after, (s = before +:+ ":cloud" +:+ after /\ ends_there after)
    \/ (s = before +:+ "-cloud" +:+ after /\ (ends_there after \/ exists tag, after = ":" +:+ tag)).

(** The record names a remote host or model, or carries a name with the cloud's mark:
    in the letters and blanks the daemon sends. *)
Definition says_cloud (r : record) : Prop :=
  (exists key v, key ∈ ["remote_host"; "remote_model"] /\ rget key r = JStr v /\ strip v <> "")
  \/ (exists key v, key ∈ ["name"; "model"] /\ rget key r = JStr v /\ cloud_marked (casefold v)).

Lemma at_end_spec s : at_end s = true <-> ends_there s.
Proof.
  unfold ends_there. destruct s as [|c [|d s]]; cbn [at_end].
  - split; [by left|done].
  - rewrite Nat.eqb_eq. split.
    + intros H. right. f_equal. by rewrite <- H, Ascii.ascii_nat_embedding.
    + intros [|[= ->]]; [done|]. by vm_compute.
  - split; [done|]. by intros [|].
Qed.

Lemma strip_prefix_spec p : forall s rest, strip_prefix p s = Some rest <-> s = p +:+ rest.
Proof.
  intros s rest. split; [|intros ->; apply strip_prefix_app]. revert s. induction p as [|c p IH]; intros s; [by intros [= ->]|].
  destruct s as [|c' s]; [done|]. cbn [strip_prefix]. destruct (decide (c = c')) as [->|]; [|done]. intros ->%IH. done.
Qed.

(** The mark at the start of a text. *)
Definition marked_here (s : string) : Prop :=
  (exists after, s = ":cloud" +:+ after /\ ends_there after)
  \/ (exists after, s = "-cloud" +:+ after /\ (ends_there after \/ exists tag, after = ":" +:+ tag)).

Lemma prefix_colon s : String.prefix ":" s = true <-> exists tag, s = ":" +:+ tag.
Proof.
  destruct s as [|c s]; [split; [done|by intros []]|]. cbn [String.prefix]. case_match; subst.
  - split; [intros _; by exists s|intros _; by destruct s].
  - split; [done|]. intros [tag Heq]. by injection Heq as ->.
Qed.

Lemma cloud_name_here s :
  match strip_prefix ":cloud" s with
  | Some rest => at_end rest
  | None => match strip_prefix "-cloud" s with Some rest => String.prefix ":" rest || at_end rest | None => false end
  end = true <-> marked_here s.
Proof.
  unfold marked_here. destruct (strip_prefix ":cloud" s) as [rest|] eqn:H1.
  - apply strip_prefix_spec in H1 as ->. rewrite at_end_spec. split; [intros H; left; by exists rest|].
    intros [(after & Heq & H)|(after & Heq & _)]; [|discriminate Heq].
    by apply (inj (String.append ":cloud")) in Heq as ->.
  - assert (Hno : forall after, s <> ":cloud" +:+ after) by (intros after H; apply strip_prefix_spec in H; congruence).
    destruct (strip_prefix "-cloud" s) as [rest|] eqn:H2.
    + apply strip_prefix_spec in H2 as ->. rewrite orb_true_iff, prefix_colon, at_end_spec. split.
      * intros H. right. exists rest. split; [done|]. tauto.
      * intros [(after & Heq & H)|(after & Heq & H)]; [discriminate Heq|].
        apply (inj (String.append "-cloud")) in Heq as ->. tauto.
    + split; [done|]. intros [(after & Heq & _)|(after & Heq & _)]; [by apply Hno in Heq|].
      apply strip_prefix_spec in Heq. congruence.
Qed.

Lemma cloud_name_spec s : cloud_name s = true <-> cloud_marked s.
Proof.
  assert (Hgen : cloud_marked s <-> exists before here, s = before +:+ here /\ marked_here here).
  { unfold cloud_marked, marked_here. split.
    - intros (before & after & [[-> H]|[-> H]]); exists before; eauto 10.
    - intros (before & here & -> & [(after & -> & H)|(after & -> & H)]); exists before, after; auto. }
  rewrite Hgen. clear Hgen. induction s as [|c s IH].
  - cbn [cloud_name]. rewrite orb_false_r. rewrite (cloud_name_here ""). split; [by exists "", ""|].
    intros (before & here & Heq & H). destruct before; [by destruct here|done].
  - cbn [cloud_name]. rewrite orb_true_iff, (cloud_name_here (String c s)), IH. split.
    + intros [H|(before & here & -> & H)]; [by exists "", (String c s)|by exists (String c before), here].
    + intros (before & here & Heq & H). destruct before as [|c' before]; [left; by rewrite Heq|].
      injection Heq as -> ->. right. by exists before, here.
Qed.

Lemma off_host_iff r : classify_execution_locality r = OffHost <-> says_cloud r.
Proof.
  unfold classify_execution_locality, says_cloud.
  assert (Hremote : existsb (fun key => match stripped_text (rget key r) with Some _ => true | None => false end) ["remote_host"; "remote_model"] = true
    <-> exists key v, key ∈ ["remote_host"; "remote_model"] /\ rget key r = JStr v /\ strip v <> "").
  { rewrite existsb_exists. split.
    - intros (key & Hin%list_elem_of_In & H). unfold stripped_text in H. destruct (rget key r) as [| | | |v| |] eqn:Hv; try done.
      destruct (strip v =? "")%string eqn:Hs; [done|]. apply String.eqb_neq in Hs. by exists key, v.
    - intros (key & v & Hin & Hv & Hs). exists key. split; [by apply list_elem_of_In|]. rewrite Hv. cbn [stripped_text].
      by rewrite (proj2 (String.eqb_neq _ _) Hs). }
  assert (Hname : existsb (fun key => match rget key r with JStr s => cloud_name (casefold s) | _ => false end) ["name"; "model"] = true
    <-> exists key v, key ∈ ["name"; "model"] /\ rget key r = JStr v /\ cloud_marked (casefold v)).
  { rewrite existsb_exists. split.
    - intros (key & Hin%list_elem_of_In & H). destruct (rget key r) as [| | | |v| |] eqn:Hv; try done. apply cloud_name_spec in H. by exists key, v.
    - intros (key & v & Hin & Hv & Hs). exists key. split; [by apply list_elem_of_In|]. rewrite Hv. by apply cloud_name_spec. }
  rewrite <- Hremote, <- Hname. destruct (existsb _ ["remote_host"; _]); [split; [by left|done]|].
  destruct (existsb _ ["name"; _]); [split; [by right|done]|]. split; [done|]. by intros [|].
Qed.

(** C27.  What discovery makes of the daemon's list, exactly.  The first record of a tag
    decides; it says the cloud when it names a remote host or model, or when its name,
    with the blanks it was sent with, carries the cloud's mark.  Without the opt-in the
    tags whose first record does not say the cloud get a manifest and those whose first
    record does are reported as skipped; with it every tag gets a manifest and none is
    skipped.  No tag gets two, and a manifest's locality is what the record says. *)
Theorem cloud_models_are_opt_in cfg answer rs :
  tag_records (rstrip_slash (os_base_url cfg)) answer = Ok rs ->
  let result := discover_ollama_models cfg answer in
  let names := map mf_display_name (or_manifests result) in
  (forall t, t ∈ names <->
     t <> "" /\ exists r, first_record t rs = Some r /\ (os_cloud_enabled cfg = true \/ ~ says_cloud r))
  /\ (forall t, t ∈ or_skipped result <->
        t <> "" /\ exists r, first_record t rs = Some r /\ os_cloud_enabled cfg = false /\ says_cloud r)
  /\ NoDup names /\ NoDup (or_skipped result)
  /\ (forall m, m ∈ or_manifests result -> mf_source_path m = ollama_source_path (mf_display_name m)
        /\ exists r, first_record (mf_display_name m) rs = Some r
             /\ (says_cloud r /\ meta "execution_locality" m = JStr "off_host"
                 \/ ~ says_cloud r /\ meta "execution_locality" m = JStr "host_local")).
Proof.
  intros Hrs. cbn zeta. unfold discover_ollama_models. rewrite Hrs. destruct (ollama_endpoint_binding _ _) as [bound note].
  destruct (read_tags cfg _ bound [] rs) as [ms skipped] eqn:Hr. apply read_tags_accounted in Hr as [H1 H2 H3 H4 H5].
  cbn [or_manifests or_skipped]. pose proof (sort_by_perm String.ltb skipped) as Hp.
  assert (Hkept : forall r, kept cfg r <-> os_cloud_enabled cfg = true \/ ~ says_cloud r).
  { intros r. unfold kept. rewrite <- off_host_iff. destruct (classify_execution_locality r); naive_solver. }
  assert (Hfresh : forall t, fresh [] t <-> t <> "").
  { intros t. unfold fresh. split; [by intros []|]. intros ?. split; [done|]. apply not_elem_of_nil. }
  split_and!.
  - intros t. rewrite H3, Hfresh. by setoid_rewrite Hkept.
  - intros t. rewrite Hp, H4, Hfresh. setoid_rewrite Hkept. setoid_rewrite <- off_host_iff.
    destruct (os_cloud_enabled cfg); split; intros (Hne & r & Hf & H); (split; [done|]); exists r; (split; [done|]);
      destruct (classify_execution_locality r); naive_solver.
  - done.
  - by rewrite Hp.
  - intros m Hm. destruct (H5 m Hm) as [Hs (r & Hf & Hl)]. split; [done|]. exists r. split; [done|].
    rewrite <- off_host_iff, Hl. destruct (classify_execution_locality r); [right|left]; done.
Qed.

Definition sample_daemon : ollama_settings :=
  {| os_base_url := "http://127.0.0.1:11434/"; os_cloud_enabled := false;
     os_endpoints := [{| ee_id := "ollama"; ee_profile := "ollama_local"; ee_enabled := true; ee_base_url := "http://127.0.0.1:11434/v1" |}] |}.

Definition sample_answer : json :=
  JObj [("models", JArr [JObj [("name", JStr "qwen3:8b"); ("size", JInt 5225388164); ("capabilities", JArr [JStr "vision"; JStr "completion"])];
                         JObj [("name", JStr "gpt-oss:120b-cloud")];
                         JObj [("name", JStr "glm"); ("remote_host", JStr "https://ollama.com")];
                         JObj [("model", JStr "qwen3:8b")]])].

Example sample_models :
  let r := discover_ollama_models sample_daemon (Ok sample_answer) in
  map (fun m => (mf_display_name m, mf_modality m, mf_memory m, meta "external_endpoint_id" m)) (or_manifests r)
    = [("qwen3:8b", [Text; Vision; Multimodal], Some 4984, JStr "ollama")]
  /\ or_skipped r = ["glm"; "gpt-oss:120b-cloud"].
Proof. vm_compute. done. Qed.

(** The name is searched as it is sent, the tag is stripped: a name with a blank after
    its cloud mark is taken for a model of the host. *)
Example padded_cloud_name :
  let r := [("name", JStr "gpt-oss:120b-cloud ")] in
  record_tag r = "gpt-oss:120b-cloud" /\ classify_execution_locality r = HostLocal
  /\ classify_execution_locality [("name", JStr (record_tag r))] = OffHost.
Proof. vm_compute. split; [|split]; reflexivity. Qed.

Lemma cloud_models_are_opt_in_witness :
  exists rs, tag_records "http://127.0.0.1:11434" (Ok sample_answer) = Ok rs
    /\ or_skipped (discover_ollama_models sample_daemon (Ok sample_answer)) = ["glm"; "gpt-oss:120b-cloud"]
    /\ exists r, first_record "glm" rs = Some r /\ says_cloud r.
Proof.
  eexists. split; [reflexivity|]. split; [vm_compute; reflexivity|].
  destruct (proj1 (proj2 (cloud_models_are_opt_in sample_daemon (Ok sample_answer) _ ltac:(reflexivity))) "glm") as [H _].
  destruct H as (_ & r & Hf & _ & Hs); [apply (bool_decide_unpack _); vm_compute; exact I|]. exists r. split; assumption.
Defined.

(** ** Sources are distinct *)

Lemma read_records_spec e rs : forall seen,
  let ms := read_records e seen rs in
  NoDup (map mf_display_name ms)
  /\ (forall m, m ∈ ms -> mf_display_name m ∉ seen /\ mf_display_name m <> ""
       /\ mf_source_path m = external_source_path (ee_id e) (mf_display_name m)).
Proof.
  induction rs as [|r rs IH]; intros seen; cbn zeta; cbn [read_records]; [split; [constructor|by intros ? ?%not_elem_of_nil]|].
  destruct ((record_id r =? "")%string || member (record_id r) seen) eqn:Hskip; [apply IH|].
  apply orb_false_iff in Hskip as [Hne%String.eqb_neq Hns].
  assert (Hns' : record_id r ∉ seen) by (rewrite <- member_true; by rewrite Hns).
  destruct (IH (record_id r :: seen)) as [H1 H2]. cbn zeta in *. split.
  - cbn [map mf_display_name build_external_manifest]. constructor; [|done]. intros (m & Hm & Hin)%list_elem_of_fmap.
    destruct (H2 m Hin) as (Hn & _). rewrite <- Hm in Hn. apply Hn. by left.
  - intros m [->|Hm]%elem_of_cons; [done|]. destruct (H2 m Hm) as (Hn & ? & ?). split_and!; [|done|done]. intros ?. apply Hn. by right.
Qed.
