(* ===== verification/Registry.v ===== *)
(** The registry of models: src/src/lewlm/registry/service.py over the table of
    manifests of storage/metadata.py.

    A scan takes what was found on disk and what the servers answered (Inventory) and
    brings the table in line with it.  The table's rows are manifests; encryption of
    its columns, which the code undoes on reading, is left out, as are the event and
    the audit record of a scan, which repeat its summary.  Roots are resolved absolute
    paths.  Strings are ASCII. *)

From stdpp Require Import pretty.
From S2P Require Import Prelude PyFloat PyString Json PySort Manifest Routing Inventory.

Open Scope Z_scope.

(** ** The table of manifests *)

Definition same_id (m r : manifest) : bool := (mf_id r =? mf_id m)%string.
Definition same_source (m r : manifest) : bool := (mf_source_path r =? mf_source_path m)%string.

(** One manifest of [replace_model_manifests]: the delete, then the upsert by source. *)
Definition store_manifest (rows : list manifest) (m : manifest) : list manifest :=
  let rows := List.filter (fun r => negb (same_id m r && negb (same_source m r))) rows in
  if existsb (same_source m) rows then map (fun r => if same_source m r then m else r) rows else rows ++ [m].

Definition replace_model_manifests (manifests : list manifest) (stale_source_paths : list string) (rows : list manifest) : list manifest :=
  List.filter (fun r => negb (member (mf_source_path r) stale_source_paths)) (foldl store_manifest rows manifests).

(** The order of [list_model_manifests]: rows by id, then sorted by name and id. *)
Definition listed_before (a b : manifest) : bool :=
  if (casefold (mf_display_name a) =? casefold (mf_display_name b))%string then String.ltb (mf_id a) (mf_id b)
  else String.ltb (casefold (mf_display_name a)) (casefold (mf_display_name b)).

Definition list_model_manifests (rows : list manifest) : list manifest :=
  sort_by listed_before (sort_by (fun a b => String.ltb (mf_id a) (mf_id b)) rows).

(** ** Roots *)

Definition path : Type := bool * list string.

(** [Path(s)]: whether it is absolute, and its parts. *)
Definition path_of (s : string) : path :=
  (String.prefix "/" s, List.filter (fun p => negb ((p =? "") || (p =? "."))%string) (split slash s)).

Fixpoint starts_with (prefix parts : list string) : bool :=
  match prefix, parts with
  | [], _ => true
  | p :: prefix, q :: parts => (p =? q)%string && starts_with prefix parts
  | _, [] => false
  end.

Definition is_relative_to (p root : path) : bool := eqb p.1 root.1 && starts_with root.2 p.2.

Definition is_under_roots (source : path) (roots : list path) : bool := existsb (is_relative_to source) roots.

(** [_resolve_roots] before it looks at the disk: each root once, and none below another. *)
Definition minimal_roots (requested : list path) : list path :=
  let unique := rev (remove_dups (rev requested)) in
  List.filter (fun r => negb (existsb (fun o => bool_decide (r <> o) && is_relative_to r o) unique)) unique.

(** ** Scanning *)

Record scan_summary := {
  ss_roots : list string;
  ss_discovered : Z;
  ss_new : Z;
  ss_updated : Z;
  ss_unchanged : Z;
  ss_removed : Z;
  ss_manifests : list manifest;
  ss_notes : list string
}.

Record registry := { rg_rows : list manifest; rg_last_scan : option scan_summary }.

(** What a scan finds: its roots, the manifests on disk, what the daemon answered if its
    discovery is on, and the runtimes of the endpoints if they are bound. *)
Record scan_input := {
  si_roots : list string;
  si_local : list manifest;
  si_ollama : option (ollama_settings * result string json);
  si_runtimes : option (list (string * inventory_runtime));
  si_endpoints : list external_endpoint
}.

Definition enabled_external_endpoint_ids (endpoints : list external_endpoint) : list string :=
  map ee_id (List.filter (fun e => ee_enabled e && negb (ee_profile e =? "ollama_local")%string) endpoints).

Definition scanned_ollama (i : scan_input) : option ollama_result :=
  option_map (fun x => discover_ollama_models x.1 x.2) (si_ollama i).

Definition scanned_external (i : scan_input) : list external_result :=
  match si_runtimes i with Some runtimes => discover_external_models runtimes | None => [] end.

Definition discovered (i : scan_input) : list manifest :=
  si_local i ++ match scanned_ollama i with Some r => or_manifests r | None => [] end
  ++ concat (map xr_manifests (scanned_external i)).

(** [_stale_ollama_sources]. *)
Definition stale_ollama_sources (existing discovered_sources : list string) (r : option ollama_result) : list string :=
  let registered := List.filter is_ollama_source existing in
  match r with
  | None => registered
  | Some r => if or_succeeded r then List.filter (fun s => negb (member s discovered_sources)) registered else []
  end.

(** The loop of [_stale_external_sources]: is this source to be forgotten? *)
Definition external_is_stale (enabled : list string) (results : list (string * external_result)) (discovered_sources : list string)
    (source : string) : bool :=
  match parse_external_source source with
  | None => true
  | Some (endpoint_id, _) =>
      if negb (member endpoint_id enabled) then true
      else match dget endpoint_id results with
           | None => false
           | Some r => xr_succeeded r && negb (member source discovered_sources)
           end
  end.

Definition stale_external_sources (existing discovered_sources : list string) (i : scan_input) : list string :=
  match si_runtimes i with
  | None => []
  | Some _ =>
      let results := foldl (fun d r => dset (xr_endpoint_id r) r d) [] (scanned_external i) in
      List.filter (external_is_stale (enabled_external_endpoint_ids (si_endpoints i)) results discovered_sources)
        (List.filter is_external_source existing)
  end.

Definition stale_sources (existing : list string) (i : scan_input) : list string :=
  let sources := map mf_source_path (discovered i) in
  List.filter (fun s => negb (is_uri_source s) && is_under_roots (path_of s) (map path_of (si_roots i)) && negb (member s sources)) existing
  ++ stale_ollama_sources existing sources (scanned_ollama i)
  ++ stale_external_sources existing sources i.

(** [_ollama_scan_notes] and [_external_scan_notes]. *)
Definition ollama_scan_notes (r : option ollama_result) : list string :=
  match r with
  | None => []
  | Some r =>
      match or_error r with
      | Some error => ["Ollama discovery could not read " +:+ or_endpoint r +:+ ": " +:+ error]
      | None =>
          ["Ollama discovery read " +:+ pretty (length (or_manifests r)) +:+ " model(s) from " +:+ or_endpoint r +:+ "."]
          ++ match or_binding_note r with Some note => [note] | None => [] end
          ++ match or_skipped r with
             | [] => []
             | l => ["Skipped " +:+ pretty (length l) +:+ " cloud-backed Ollama model(s) that execute off-host: "
                     +:+ String.concat ", " l +:+ ". Set LEWLM_OLLAMA_CLOUD_ENABLED=true to include them."]
             end
      end
  end.

Definition external_scan_notes (results : list external_result) (existing : list string) : list string :=
  map (fun r =>
         match xr_error r with
         | None => "Endpoint `" +:+ xr_endpoint_id r +:+ "` (" +:+ xr_profile r +:+ ") advertised "
                   +:+ pretty (length (xr_manifests r)) +:+ " model(s) at " +:+ xr_endpoint r +:+ "."
         | Some error =>
             let retained := length (List.filter (fun s => match parse_external_source s with
                                                           | Some (id, _) => (id =? xr_endpoint_id r)%string
                                                           | None => false
                                                           end) existing) in
             "Endpoint `" +:+ xr_endpoint_id r +:+ "` could not be read (" +:+ error +:+ "); keeping "
             +:+ pretty retained +:+ " previously registered model(s) as stale."
         end) results.

(** ** The advertised inventory *)

Definition source_lineage (m : manifest) : option artifact_layer :=
  List.find (fun l => bool_decide (al_role l = SourceBundle)) (mf_lineage m).

(** The model that this one was converted from, if its metadata names one. *)
Definition source_model_id (m : manifest) : option string :=
  match meta "source_model_id" m with JStr s => if (s =? "")%string then None else Some s | _ => None end.

Definition grouped_source_model_ids (ms : list manifest) : list (string * string) :=
  foldl (fun d m => match source_model_id m with Some id => dset id ("source-model:" +:+ id) d | None => d end) [] ms.

Definition grouped_source_paths (ms : list manifest) : list (string * string) :=
  foldl (fun d m => match source_lineage m with Some l => dset (al_source_path l) ("source-path:" +:+ al_source_path l) d
                    | None => d end) [] ms.

(** [_group_key]. *)
Definition group_key (ids paths : list (string * string)) (m : manifest) : string :=
  match source_model_id m with
  | Some id => default ("source-model:" +:+ id) (dget id ids)
  | None =>
      match dget (mf_id m) ids with
      | Some key => key
      | None =>
          match source_lineage m with
          | Some l => "source-path:" +:+ al_source_path l
          | None => match dget (mf_source_path m) paths with
                    | Some key => key
                    | None => "path:" +:+ mf_source_path m
                    end
          end
      end
  end.

(** [_AdvertisedInventoryGroup]. *)
Record group := {
  g_title : string;
  g_source_path : string;
  g_lineage : option artifact_layer;
  g_source : option manifest;
  g_runnable : list manifest;
  g_auxiliary : list manifest
}.

#[export] Instance group_eta : Eta group := fun g =>
  Build_group (g_title g) (g_source_path g) (g_lineage g) (g_source g) (g_runnable g) (g_auxiliary g).

(** [_is_converted_runnable_manifest]. *)
Definition is_converted_runnable (m : manifest) : bool :=
  json_truthy (meta "converted_output" m) || member (mf_role m) [MultimodalRunnable; TextRunnable].

(** One manifest of the loop of [_advertised_manifests]. *)
Definition group_manifest (ids paths : list (string * string)) (groups : list (string * group)) (m : manifest) : list (string * group) :=
  let key := group_key ids paths m in
  let lineage := source_lineage m in
  let g :=
    match dget key groups with
    | None => {| g_title := match lineage with Some l => al_display_name l | None => mf_display_name m end;
                 g_source_path := match lineage with Some l => al_source_path l | None => mf_source_path m end;
                 g_lineage := lineage; g_source := None; g_runnable := []; g_auxiliary := [] |}
    | Some g => match g_lineage g with None => g <| g_lineage := lineage |> | Some _ => g end
    end in
  let g :=
    if is_converted_runnable m then g <| g_runnable := g_runnable g ++ [m] |>
    else if member (mf_role m) [Standalone; SourceBundle] then
      match g_source g with
      | None => g <| g_source := Some m |>
      | Some _ => if decide (mf_role m = Standalone) then g <| g_source := Some m |> else g
      end
    else if member (mf_role m) [MultimodalRunnable; TextRunnable] then g <| g_runnable := g_runnable g ++ [m] |>
    else g <| g_auxiliary := g_auxiliary g ++ [m] |> in
  dset key g groups.

(** [_preferred_manifest]. *)
Definition preferred_manifest (g : group) : option manifest :=
  match g_runnable g with
  | first :: _ =>
      let source_modalities := match g_source g, g_lineage g with
                               | Some s, _ => mf_modality s
                               | None, Some l => al_modality l
                               | None, None => []
                               end in
      let multimodal := if member Vision source_modalities || member Multimodal source_modalities
                        then List.find (fun m => bool_decide (mf_role m = MultimodalRunnable)) (g_runnable g) else None in
      match multimodal, List.find (fun m => bool_decide (mf_role m = TextRunnable)) (g_runnable g) with
      | Some m, _ => Some m
      | None, Some m => Some m
      | None, None => Some first
      end
  | [] =>
      match g_source g with
      | Some s => Some s
      | None => head (sort_by listed_before (g_auxiliary g))
      end
  end.

Definition group_before (a b : group) : bool :=
  if (casefold (g_title a) =? casefold (g_title b))%string then String.ltb (g_source_path a) (g_source_path b)
  else String.ltb (casefold (g_title a)) (casefold (g_title b)).

Definition grouped (ms : list manifest) : list (string * group) :=
  foldl (group_manifest (grouped_source_model_ids ms) (grouped_source_paths ms)) [] ms.

(** [_advertised_manifests]; [inventory] is these and their number. *)
Definition advertised_manifests (ms : list manifest) : list manifest :=
  omap preferred_manifest (sort_by group_before (map snd (grouped ms))).

Section registry.
  (** [_manifest_change_signature]: the manifest as sorted JSON without its timestamps. *)
Context (signature : manifest -> string).

Definition count_if (p : manifest -> bool) (ms : list manifest) : Z := Z.of_nat (length (List.filter p ms)).

(** [scan] once its inputs are read. *)
Definition scan (i : scan_input) (rg : registry) : registry :=
  let rows := list_model_manifests (rg_rows rg) in
  let existing := foldl (fun d m => dset (mf_source_path m) m d) [] rows in
  let ms := discovered i in
  let known m := match dget (mf_source_path m) existing with Some old => true | None => false end in
  let same m := match dget (mf_source_path m) existing with Some old => (signature old =? signature m)%string | None => false end in
  let stale := stale_sources (dkeys existing) i in
  let summary :=
    {| ss_roots := si_roots i ++ match scanned_ollama i with Some r => [or_endpoint r] | None => [] end
                   ++ map (fun r => xr_endpoint r +:+ " (" +:+ xr_endpoint_id r +:+ ")") (scanned_external i);
       ss_discovered := Z.of_nat (length ms); ss_new := count_if (fun m => negb (known m)) ms;
       ss_updated := count_if (fun m => known m && negb (same m)) ms;
       ss_unchanged := count_if (fun m => known m && same m) ms; ss_removed := Z.of_nat (length stale); ss_manifests := ms;
       ss_notes := ollama_scan_notes (scanned_ollama i) ++ external_scan_notes (scanned_external i) (dkeys existing) |} in
  {| rg_rows := replace_model_manifests ms stale (rg_rows rg); rg_last_scan := Some summary |}.

(** [list_manifests], [get_manifest] and [inventory]. *)
Definition list_manifests (rg : registry) : list manifest := list_model_manifests (rg_rows rg).
Definition find_manifest (rg : registry) (id : string) : option manifest := get_manifest (list_manifests rg) id.
Definition inventory (rg : registry) : Z * list manifest :=
  let items := advertised_manifests (list_manifests rg) in (Z.of_nat (length items), items).
End registry.

(** ** What a scan leaves *)

Definition consistent (rows : list manifest) : Prop := NoDup (map mf_id rows) /\ NoDup (map mf_source_path rows).

(** No later manifest takes the id or the source of [r]. *)
Definition untouched (r : manifest) (ms : list manifest) : Prop :=
  Forall (fun m => mf_id r <> mf_id m /\ mf_source_path r <> mf_source_path m) ms.

Lemma same_id_true m r : same_id m r = true <-> mf_id r = mf_id m.
Proof. apply String.eqb_eq. Qed.
Lemma same_source_true m r : same_source m r = true <-> mf_source_path r = mf_source_path m.
Proof. apply String.eqb_eq. Qed.

Lemma same_source_false m r : same_source m r = false <-> mf_source_path r <> mf_source_path m.
Proof. apply String.eqb_neq. Qed.

(** An upsert over a row with the same source: the keys stay distinct. *)
Lemma replaced_ids m kept :
  (forall r, r ∈ kept -> mf_source_path r <> mf_source_path m -> mf_id r <> mf_id m) ->
  NoDup (map mf_id kept) -> NoDup (map mf_source_path kept) ->
  NoDup (map mf_id (map (fun r => if same_source m r then m else r) kept)).
Proof.
  intros Hother Hid Hsrc. induction kept as [|x kept IH]; [constructor|]. cbn [map] in *.
  apply NoDup_cons in Hid as [Hxi Hid], Hsrc as [Hxs Hsrc].
  constructor; [|by apply IH; [intros r Hr; apply Hother; by right|..]].
  intros (y & Hy & (z & Hyz & Hz)%list_elem_of_fmap)%list_elem_of_fmap. subst y.
  destruct (same_source m x) eqn:Hx, (same_source m z) eqn:Hz';
    rewrite ?same_source_true, ?same_source_false in Hx; rewrite ?same_source_true, ?same_source_false in Hz'; cbn in Hy.
  - apply Hxs, list_elem_of_fmap. exists z. by rewrite Hx, Hz'.
  - by apply (Hother z (list_elem_of_further _ _ _ Hz) Hz').
  - by apply (Hother x (list_elem_of_here _ _) Hx).
  - apply Hxi, list_elem_of_fmap. by exists z.
Qed.

Lemma replaced_sources m kept :
  map mf_source_path (map (fun r => if same_source m r then m else r) kept) = map mf_source_path kept.
Proof. rewrite map_map. apply map_ext. intros x. destruct (same_source m x) eqn:Hs; [by apply same_source_true in Hs|done]. Qed.

Lemma elem_replaced m kept old r :
  old ∈ kept -> mf_source_path old = mf_source_path m ->
  r ∈ map (fun r => if same_source m r then m else r) kept <-> r = m \/ (r ∈ kept /\ mf_source_path r <> mf_source_path m).
Proof.
  intros Hold Ho. rewrite list_elem_of_fmap. split.
  - intros (x & -> & Hx). destruct (same_source m x) eqn:Hs; [by left|right]. split; [done|]. by apply same_source_false.
  - intros [->|[Hr Hs]].
    + exists old. by rewrite (proj2 (same_source_true m old) Ho).
    + exists r. by rewrite (proj2 (same_source_false m r) Hs).
Qed.

(** The rows that a manifest leaves: itself, and those that share neither key with it. *)
Lemma store_manifest_spec rows m :
  consistent rows ->
  consistent (store_manifest rows m)
  /\ forall r, r ∈ store_manifest rows m <-> r = m \/ (r ∈ rows /\ mf_id r <> mf_id m /\ mf_source_path r <> mf_source_path m).
Proof.
  intros [Hid Hsrc]. unfold store_manifest. set (kept := List.filter _ rows).
  assert (Hkept : forall r, r ∈ kept <-> r ∈ rows /\ (mf_id r <> mf_id m \/ mf_source_path r = mf_source_path m)).
  { intros r. unfold kept. rewrite elem_list_filter, negb_true_iff, andb_false_iff, negb_false_iff, same_source_true.
    rewrite <- not_true_iff_false, same_id_true. done. }
  assert (Hkid : NoDup (map mf_id kept)) by by apply NoDup_map_filter.
  assert (Hksrc : NoDup (map mf_source_path kept)) by by apply NoDup_map_filter.
  assert (Hother : forall r, r ∈ kept -> mf_source_path r <> mf_source_path m -> mf_id r <> mf_id m) by (intros r [_ [?|?]]%Hkept ?; done).
  destruct (existsb (same_source m) kept) eqn:He.
  - apply existsb_exists in He as (old & Hold%list_elem_of_In & Ho%same_source_true). split; [split|].
    + by apply replaced_ids.
    + by rewrite replaced_sources.
    + intros r. rewrite (elem_replaced m kept old), Hkept by done. naive_solver.
  - assert (Hno : forall r, r ∈ kept -> mf_source_path r <> mf_source_path m).
    { intros r Hr Hs. apply not_true_iff_false in He. apply He, existsb_exists. exists r.
      split; [by apply list_elem_of_In|by apply same_source_true]. }
    split; [split|].
    + rewrite map_app. apply NoDup_app. split; [done|]. split; [|apply NoDup_singleton].
      intros x (r & -> & Hr)%list_elem_of_fmap Hx%list_elem_of_singleton. by apply (Hother r Hr (Hno r Hr)).
    + rewrite map_app. apply NoDup_app. split; [done|]. split; [|apply NoDup_singleton].
      intros x (r & -> & Hr)%list_elem_of_fmap Hx%list_elem_of_singleton. by apply (Hno r Hr).
    + intros r. rewrite elem_of_app, list_elem_of_singleton. split.
      * intros [Hr| ->]; [right|by left]. pose proof (Hno r Hr). apply Hkept in Hr. naive_solver.
      * intros [->|(Hr & Hi & Hs)]; [by right|left]. apply Hkept. naive_solver.
Qed.

Lemma store_all_spec ms : forall rows,
  consistent rows ->
  consistent (foldl store_manifest rows ms)
  /\ forall r, r ∈ foldl store_manifest rows ms
       <-> (exists before after, ms = before ++ r :: after /\ untouched r after) \/ (r ∈ rows /\ untouched r ms).
Proof.
  induction ms as [|m ms IH]; intros rows Hrows; cbn [foldl].
  { split; [done|]. intros r. split; [intros Hr; right; split; [done|constructor]|].
    intros [(before & after & H & _)|[Hr _]]; [by destruct before|done]. }
  destruct (store_manifest_spec rows m Hrows) as [Hc Hs]. destruct (IH _ Hc) as [Hc' Hspec]. split; [done|]. intros r. rewrite Hspec, Hs.
  unfold untouched. rewrite Forall_cons. split.
  - intros [(before & after & -> & Hu)|[[->|(Hr & Hi & Hsrc)] Hu]].
    + left. exists (m :: before), after. done.
    + left. exists [], ms. done.
    + right. done.
  - intros [([|x before] & after & Heq & Hu)|(Hr & (Hi & Hsrc) & Hu)].
    + injection Heq as -> ->. right. split; [by left|done].
    + injection Heq as -> ->. left. by exists before, after.
    + right. split; [right; done|done].
Qed.

Lemma replace_spec ms stale rows :
  consistent rows ->
  consistent (replace_model_manifests ms stale rows)
  /\ forall r, r ∈ replace_model_manifests ms stale rows
       <-> mf_source_path r ∉ stale
           /\ ((exists before after, ms = before ++ r :: after /\ untouched r after) \/ (r ∈ rows /\ untouched r ms)).
Proof.
  intros Hrows. destruct (store_all_spec ms rows Hrows) as [[Hi Hs] Hspec]. unfold replace_model_manifests. split.
  - split; by apply NoDup_map_filter.
  - intros r. rewrite elem_list_filter, Hspec, negb_true_iff, <- not_true_iff_false, member_true. tauto.
Qed.

(** The results of the endpoints have distinct ids, like the runtimes. *)
Lemma scanned_ids runtimes :
  NoDup (map fst runtimes) -> NoDup (map xr_endpoint_id (discover_external_models runtimes))
  /\ forall r, r ∈ discover_external_models runtimes -> exists rt e records,
       (xr_endpoint_id r, rt) ∈ runtimes /\ inventoried_endpoint rt = Some e /\ r = read_endpoint (xr_endpoint_id r) e records (ir_stale rt).
Proof.
  unfold discover_external_models. induction runtimes as [|[id rt] rts IH]; [by intros _; split; [constructor|intros ? ?%not_elem_of_nil]|].
  cbn [map fst]. intros [Hid Hnd]%NoDup_cons. destruct (IH Hnd) as [H1 H2].
  assert (Hlift : forall r, r ∈ discover_external_models rts -> exists rt' e records,
    (xr_endpoint_id r, rt') ∈ (id, rt) :: rts /\ inventoried_endpoint rt' = Some e /\ r = read_endpoint (xr_endpoint_id r) e records (ir_stale rt')).
  { intros r Hr. destruct (H2 r Hr) as (rt' & e & recs & Hin & Hrest). exists rt', e, recs. split; [by right|done]. }
  cbn [omap list_omap]. destruct (inventoried_endpoint rt) as [e|] eqn:He; [|by split].
  destruct (ir_records rt) as [records|]; [|by split].
  assert (Hread : xr_endpoint_id (read_endpoint id e records (ir_stale rt)) = id) by by destruct records. split.
  - cbn [map]. rewrite Hread. constructor; [|done]. intros (r & -> & Hr)%list_elem_of_fmap. apply Hid, list_elem_of_fmap.
    destruct (H2 r Hr) as (rt' & _ & _ & Hin & _). by exists (xr_endpoint_id r, rt').
  - intros r [->|Hr]%elem_of_cons; [|by apply Hlift]. exists rt, e, records. rewrite Hread. by split; [left|].
Qed.

(** What the code relies on of a scan's inputs: a path on disk is no URI, and the
    runtimes are keyed by the ids of configured endpoints. *)
Record input_ok (i : scan_input) : Prop := {
  io_local : forall m, m ∈ si_local i -> is_uri_source (mf_source_path m) = false;
  io_keys : forall runtimes, si_runtimes i = Some runtimes -> NoDup (map fst runtimes);
  io_endpoints : forall runtimes id rt e, si_runtimes i = Some runtimes -> (id, rt) ∈ runtimes -> ir_endpoint rt = Some e ->
    ee_id e = id /\ endpoint_name id /\ e ∈ si_endpoints i
}.

Definition read_succeeded (i : scan_input) (endpoint_id : string) : bool :=
  existsb (fun r => (xr_endpoint_id r =? endpoint_id)%string && xr_succeeded r) (scanned_external i).

(** Whether a scan that does not find [source] again keeps it: a server's model while the
    server cannot be read and is still enabled, a file's while it is outside the roots. *)
Definition keeps_unseen (i : scan_input) (source : string) : bool :=
  if is_external_source source then
    match si_runtimes i with
    | None => true
    | Some _ => match parse_external_source source with
                | None => false
                | Some (id, _) => member id (enabled_external_endpoint_ids (si_endpoints i)) && negb (read_succeeded i id)
                end
    end
  else if is_ollama_source source then match scanned_ollama i with None => false | Some r => negb (or_succeeded r) end
  else negb (is_under_roots (path_of source) (map path_of (si_roots i))).

Definition results_by_id (i : scan_input) : list (string * external_result) :=
  foldl (fun d r => dset (xr_endpoint_id r) r d) [] (scanned_external i).

Lemma scanned_external_ids i : input_ok i -> NoDup (map xr_endpoint_id (scanned_external i)).
Proof.
  intros Hi. unfold scanned_external. destruct (si_runtimes i) as [rts|] eqn:Hr; [|constructor]. by apply scanned_ids, (io_keys i Hi).
Qed.

Lemma result_of_endpoint i id :
  input_ok i -> (exists r, dget id (results_by_id i) = Some r /\ xr_succeeded r = true) <-> read_succeeded i id = true.
Proof.
  intros Hi. pose proof (scanned_external_ids i Hi) as Hnd. unfold read_succeeded, results_by_id. rewrite existsb_exists. split.
  - intros (r & Hr & Hs). destruct (decide (id ∈ map xr_endpoint_id (scanned_external i))) as [(x & -> & Hx)%list_elem_of_fmap|Hn].
    + rewrite (dget_index xr_endpoint_id (fun r => r)) in Hr by done. injection Hr as ->. exists r.
      split; [by apply list_elem_of_In|]. by rewrite String.eqb_refl.
    + by rewrite (dget_index_other xr_endpoint_id (fun r => r)) in Hr by done.
  - intros (r & Hr%list_elem_of_In & (<-%String.eqb_eq & Hs)%andb_true_iff). exists r. split; [|done].
    by rewrite (dget_index xr_endpoint_id (fun r => r)).
Qed.

Lemma external_is_stale_unseen i s sources :
  input_ok i -> is_external_source s = true -> si_runtimes i <> None -> s ∉ sources ->
  external_is_stale (enabled_external_endpoint_ids (si_endpoints i)) (results_by_id i) sources s = negb (keeps_unseen i s).
Proof.
  intros Hi He Hr Hs. unfold external_is_stale, keeps_unseen. rewrite He. destruct (si_runtimes i); [|done].
  destruct (parse_external_source s) as [[id up]|]; [|done]. destruct (member id _); [|done]. cbn [negb andb].
  rewrite negb_involutive. assert (Hm : member s sources = false) by (apply not_true_iff_false; by rewrite member_true).
  rewrite Hm. pose proof (result_of_endpoint i id Hi) as Hiff. destruct (dget id (results_by_id i)) as [r|].
  - rewrite andb_true_r. apply eq_true_iff_eq. rewrite <- Hiff. split; [intros H; by exists r|by intros (? & [= ->] & ?)].
  - symmetry. apply not_true_iff_false. rewrite <- Hiff. by intros (? & ? & _).
Qed.

(** A source belongs to one namespace. *)
Lemma external_not_ollama s : is_external_source s = true -> is_ollama_source s = false.
Proof.
  destruct s as [|c s]; [done|].
  change (is_external_source _) with (if Ascii.ascii_dec (Ascii.ascii_of_nat 101) c then String.prefix "xternal://" s else false).
  change (is_ollama_source _) with (if Ascii.ascii_dec (Ascii.ascii_of_nat 111) c then String.prefix "llama://" s else false).
  destruct (Ascii.ascii_dec (Ascii.ascii_of_nat 101) c) as [<-|]; [|done]. by destruct (Ascii.ascii_dec (Ascii.ascii_of_nat 111) (Ascii.ascii_of_nat 101)).
Qed.

Lemma uri_source s : is_uri_source s = is_ollama_source s || is_external_source s.
Proof. done. Qed.

(** A source that this scan does not find is forgotten exactly when it is not kept. *)
Lemma stale_unseen i existing s :
  input_ok i -> s ∉ map mf_source_path (discovered i) ->
  s ∈ stale_sources existing i <-> s ∈ existing /\ keeps_unseen i s = false.
Proof.
  intros Hi Hs. set (sources := map mf_source_path (discovered i)) in *.
  assert (Hm : member s sources = false) by (apply not_true_iff_false; by rewrite member_true).
  unfold stale_sources, stale_ollama_sources, stale_external_sources. fold sources. fold (results_by_id i).
  rewrite !elem_of_app, !elem_list_filter, Hm, uri_source. destruct (is_external_source s) eqn:He.
  - rewrite (external_not_ollama s He). cbn [orb negb andb]. split.
    + intros [[_ ?]|[Ho|Hx]]; [done| |].
      * exfalso. destruct (scanned_ollama i) as [r|]; [destruct (or_succeeded r); [|by apply not_elem_of_nil in Ho]|];
          rewrite ?elem_list_filter, (external_not_ollama s He) in Ho; by decompose [and] Ho.
      * destruct (si_runtimes i) eqn:Hr; [|by apply not_elem_of_nil in Hx]. rewrite !elem_list_filter in Hx. destruct Hx as [[? _] Hx].
        rewrite external_is_stale_unseen in Hx by (by rewrite ?Hr). split; [done|]. by apply negb_true_iff.
    + intros [Hin Hk]. right; right. destruct (si_runtimes i) eqn:Hr; [|unfold keeps_unseen in Hk; by rewrite He, Hr in Hk].
      rewrite !elem_list_filter. split; [done|]. rewrite external_is_stale_unseen by (by rewrite ?Hr). by rewrite Hk.
  - assert (Hx : ~ s ∈ match si_runtimes i with
              | None => []
              | Some _ => List.filter (external_is_stale (enabled_external_endpoint_ids (si_endpoints i)) (results_by_id i) sources)
                            (List.filter is_external_source existing)
              end).
    { destruct (si_runtimes i); [|apply not_elem_of_nil]. rewrite !elem_list_filter, He. by intros [[_ ?] _]. }
    unfold keeps_unseen. rewrite He. cbn [orb]. rewrite orb_false_r. destruct (is_ollama_source s) eqn:Ho; cbn [negb andb].
    + destruct (scanned_ollama i) as [r|]; [destruct (or_succeeded r)|]; rewrite ?elem_list_filter, ?Hm, ?Ho, ?elem_of_nil; cbn [negb]; naive_solver.
    + assert (Hn : ~ s ∈ match scanned_ollama i with
                    | Some r => if or_succeeded r then List.filter (fun s => negb (member s sources)) (List.filter is_ollama_source existing) else []
                    | None => List.filter is_ollama_source existing
                    end).
      { destruct (scanned_ollama i) as [r|]; [destruct (or_succeeded r); [|apply not_elem_of_nil]|]; rewrite ?elem_list_filter, Ho; naive_solver. }
      rewrite andb_true_r, negb_false_iff. tauto.
Qed.

(** The sources that servers advertise. *)
Lemma read_tags_sources cfg endpoint bound rs : forall seen m,
  m ∈ (read_tags cfg endpoint bound seen rs).1 -> is_ollama_source (mf_source_path m) = true.
Proof.
  induction rs as [|r rs IH]; intros seen m; cbn [read_tags]; [by intros ?%not_elem_of_nil|].
  destruct (_ || _); [apply IH|]. destruct (read_tags _ _ _ _ rs) as [ms sk] eqn:Hr.
  assert (Hms : m ∈ ms -> is_ollama_source (mf_source_path m) = true) by (intros H; apply (IH (record_tag r :: seen)); by rewrite Hr).
  destruct (_ && _); [exact Hms|]. cbn [fst]. intros [->|Hm]%elem_of_cons; [|by apply Hms].
  destruct bound; exact (prefix_app OLLAMA_SOURCE_PREFIX _).
Qed.

Lemma discovered_ollama cfg answer m : m ∈ or_manifests (discover_ollama_models cfg answer) ->
  is_ollama_source (mf_source_path m) = true.
Proof.
  unfold discover_ollama_models. destruct (tag_records _ answer) as [rs|]; [|by intros ?%not_elem_of_nil].
  destruct (ollama_endpoint_binding _ _) as [b n]. pose proof (read_tags_sources cfg (rstrip_slash (os_base_url cfg)) b rs [] m) as H.
  by destruct (read_tags _ _ _ _ _).
Qed.

Lemma discovered_external i m r :
  input_ok i -> r ∈ scanned_external i -> m ∈ xr_manifests r ->
  exists id up, endpoint_name id /\ up <> "" /\ mf_source_path m = external_source_path id up
    /\ id ∈ enabled_external_endpoint_ids (si_endpoints i) /\ si_runtimes i <> None.
Proof.
  intros Hi Hr Hm. unfold scanned_external in Hr. destruct (si_runtimes i) as [rts|] eqn:Hrt; [|by apply not_elem_of_nil in Hr].
  destruct (proj2 (scanned_ids rts (io_keys i Hi rts Hrt)) r Hr) as (rt & e & recs & Hin & He & Heq).
  rewrite Heq in Hm. destruct recs as [rs|]; [|by apply not_elem_of_nil in Hm].
  destruct (proj2 (read_records_spec e rs []) m Hm) as (_ & Hne & Hs).
  unfold inventoried_endpoint in He. destruct (ir_endpoint rt) as [e'|] eqn:Hend; [|done].
  destruct (ee_enabled e') eqn:Hen; [|done]. destruct (ee_profile e' =? "ollama_local")%string eqn:Hp; [done|].
  destruct (ir_records rt); [|done]. injection He as <-. destruct (io_endpoints i Hi rts _ _ _ Hrt Hin Hend) as (Hid & Hname & Hconf).
  exists (xr_endpoint_id r), (mf_display_name m). rewrite Hid in Hs. split_and!; [done..| |done].
  rewrite <- Hid. apply list_elem_of_fmap. exists e'. split; [done|]. apply elem_list_filter. by rewrite Hen, Hp.
Qed.

(** A source that this scan finds is not forgotten by it. *)
Lemma found_not_stale i existing m : input_ok i -> m ∈ discovered i -> mf_source_path m ∉ stale_sources existing i.
Proof.
  intros Hi Hm. set (sources := map mf_source_path (discovered i)).
  assert (Hs : member (mf_source_path m) sources = true) by (apply member_true, list_elem_of_fmap; by exists m).
  unfold stale_sources, stale_ollama_sources, stale_external_sources. fold sources.
  rewrite !elem_of_app, elem_list_filter, Hs, andb_false_r. unfold discovered in Hm. rewrite !elem_of_app in Hm.
  intros [[_ ?]|[Ho|Hx]]; [done| |].
  - destruct (scanned_ollama i) as [r|]; [destruct (or_succeeded r); [|by apply not_elem_of_nil in Ho]|];
      rewrite ?elem_list_filter, ?Hs in Ho; [by destruct Ho|]. destruct Ho as [_ Ho].
    destruct Hm as [Hm|[Hm|(r & Hr & Hml)%elem_concat_map]]; [|by apply not_elem_of_nil in Hm|].
    + pose proof (io_local i Hi m Hm) as Hu. by rewrite uri_source, Ho in Hu.
    + destruct (discovered_external i m r Hi Hr Hml) as (id & up & _ & _ & Hsrc & _). rewrite Hsrc in Ho.
      by rewrite (external_not_ollama (external_source_path id up) (prefix_app EXTERNAL_SOURCE_PREFIX _)) in Ho.
  - destruct (si_runtimes i) eqn:Hrt; [|by apply not_elem_of_nil in Hx]. rewrite !elem_list_filter in Hx.
    destruct Hx as [[_ He] Hx]. destruct Hm as [Hm|[Hm|(r & Hr & Hml)%elem_concat_map]].
    + pose proof (io_local i Hi m Hm) as Hu. by rewrite uri_source, He, orb_true_r in Hu.
    + unfold scanned_ollama in Hm. destruct (si_ollama i) as [[cfg answer]|]; [|by apply not_elem_of_nil in Hm].
      apply discovered_ollama in Hm. by rewrite (external_not_ollama _ He) in Hm.
    + destruct (discovered_external i m r Hi Hr Hml) as (id & up & Hname & Hup & Hsrc & Hen & _).
      unfold external_is_stale in Hx. rewrite Hsrc, (parse_external_path id up Hname Hup), (proj2 (member_true _ _) Hen) in Hx.
      rewrite <- Hsrc, Hs in Hx. cbn [negb] in Hx. destruct (dget id _); [|done]. by rewrite andb_false_r in Hx.
Qed.

(** ** A scan *)

Section scans.
Context (signature : manifest -> string).

Lemma elem_listed r rows : r ∈ list_model_manifests rows <-> r ∈ rows.
Proof. unfold list_model_manifests. by rewrite !elem_sort_by. Qed.

Lemma listed_perm rows : list_model_manifests rows ≡ₚ rows.
Proof. unfold list_model_manifests. by rewrite !sort_by_perm. Qed.

Definition existing_by_source (rg : registry) : list (string * manifest) :=
  foldl (fun d m => dset (mf_source_path m) m d) [] (list_model_manifests (rg_rows rg)).

Lemma existing_keys rg s : s ∈ dkeys (existing_by_source rg) <-> s ∈ map mf_source_path (rg_rows rg).
Proof.
  unfold existing_by_source. rewrite (dkeys_index mf_source_path (fun m => m)), !list_elem_of_fmap.
  setoid_rewrite elem_listed. split; [intros [H|H]; [by apply not_elem_of_nil in H|done]|by right].
Qed.

Lemma existing_row rg m :
  NoDup (map mf_source_path (rg_rows rg)) -> m ∈ rg_rows rg -> dget (mf_source_path m) (existing_by_source rg) = Some m.
Proof.
  intros Hnd Hm. apply (dget_index mf_source_path (fun m => m)); [|by apply elem_listed].
  rewrite (Permutation_map mf_source_path (listed_perm (rg_rows rg))). done.
Qed.

(** The rows after a scan. *)
Lemma scan_rows i rg :
  consistent (rg_rows rg) -> input_ok i ->
  consistent (rg_rows (scan signature i rg))
  /\ forall r, r ∈ rg_rows (scan signature i rg)
       <-> (exists before after, discovered i = before ++ r :: after /\ untouched r after)
           \/ (r ∈ rg_rows rg /\ untouched r (discovered i) /\ keeps_unseen i (mf_source_path r) = true).
Proof.
  intros Hc Hi. unfold scan. cbn zeta. cbn [rg_rows]. fold (existing_by_source rg).
  destruct (replace_spec (discovered i) (stale_sources (dkeys (existing_by_source rg)) i) (rg_rows rg) Hc) as [Hc' Hspec].
  split; [done|]. intros r. rewrite Hspec. split.
  - intros [Hs [Hnew|[Hr Hu]]]; [by left|right]. split; [done|]. split; [done|].
    apply not_false_iff_true. intros Hk. apply Hs. apply stale_unseen; [done| |].
    + intros (m & Hm & Hin)%list_elem_of_fmap. destruct (proj1 (Forall_forall _ _) Hu m Hin). done.
    + split; [|done]. apply existing_keys, list_elem_of_fmap. by exists r.
  - intros [(before & after & Heq & Hu)|(Hr & Hu & Hk)].
    + split; [|left; by exists before, after]. apply found_not_stale; [done|]. rewrite Heq. set_solver.
    + split; [|by right]. intros Hs. apply stale_unseen in Hs; [|done|].
      * destruct Hs. congruence.
      * intros (m & Hm & Hin)%list_elem_of_fmap. by destruct (proj1 (Forall_forall _ _) Hu m Hin).
Qed.

Lemma get_manifest_by_id l r : NoDup (map mf_id l) -> r ∈ l -> get_manifest l (mf_id r) = Some r.
Proof.
  intros Hnd Hr. unfold get_manifest. destruct (List.find _ l) as [m|] eqn:Hf.
  - apply find_some in Hf as [Hm%list_elem_of_In Hid%String.eqb_eq]. f_equal. by apply (NoDup_map_inj mf_id l).
  - apply list_elem_of_In in Hr. pose proof (find_none _ _ Hf r Hr) as H. cbn in H. by rewrite String.eqb_refl in H.
Qed.

Lemma listed_by_id rows r : NoDup (map mf_id rows) -> r ∈ rows -> get_manifest (list_model_manifests rows) (mf_id r) = Some r.
Proof.
  intros Hnd Hr. apply get_manifest_by_id; [|by apply elem_listed]. by rewrite (Permutation_map mf_id (listed_perm rows)).
Qed.

(** C25.  A scan brings the registry in line with what it found, and forgets nothing else:
    ids and sources stay unique; the rows afterwards are the manifests it found, the later
    one of two that share an id or a source, and the old rows that none of them replaces
    and that are kept (those of a server that is enabled but could not be read, and files
    outside the roots); every row answers to its id. *)
Theorem scan_is_exact i rg :
  consistent (rg_rows rg) -> input_ok i ->
  let rg' := scan signature i rg in
  consistent (rg_rows rg')
  /\ (forall r, r ∈ rg_rows rg'
        <-> (exists before after, discovered i = before ++ r :: after /\ untouched r after)
            \/ (r ∈ rg_rows rg /\ untouched r (discovered i) /\ keeps_unseen i (mf_source_path r) = true))
  /\ (forall r, r ∈ rg_rows rg' -> find_manifest rg' (mf_id r) = Some r).
Proof.
  intros Hc Hi rg'. destruct (scan_rows i rg Hc Hi) as [Hc' Hspec]. split; [done|]. split; [done|].
  intros r. by apply listed_by_id, Hc'.
Qed.

(** A scan over a registry that already holds what it finds. *)
Lemma store_known rows m : consistent rows -> m ∈ rows -> store_manifest rows m = rows.
Proof.
  intros [Hid Hsrc] Hm. unfold store_manifest.
  assert (Hk : List.filter (fun r => negb (same_id m r && negb (same_source m r))) rows = rows).
  { apply forallb_filter_id, forallb_forall. intros r Hr%list_elem_of_In. destruct (same_id m r) eqn:Hi; [|done].
    apply same_id_true in Hi. rewrite (NoDup_map_inj mf_id rows r m Hid Hr Hm Hi). unfold same_source. by rewrite String.eqb_refl. }
  rewrite Hk. rewrite (proj2 (existsb_exists (same_source m) rows)).
  - rewrite <- (map_id rows) at 2. apply map_ext_in. intros r Hr%list_elem_of_In. destruct (same_source m r) eqn:Hs; [|done].
    apply same_source_true in Hs. symmetry. by apply (NoDup_map_inj mf_source_path rows).
  - exists m. split; [by apply list_elem_of_In|]. apply String.eqb_refl.
Qed.

Lemma store_all_known ms rows : consistent rows -> (forall m, m ∈ ms -> m ∈ rows) -> foldl store_manifest rows ms = rows.
Proof.
  intros Hc. induction ms as [|m ms IH]; intros Hin; cbn [foldl]; [done|].
  rewrite store_known by (try done; apply Hin; by left). apply IH. intros x Hx. apply Hin. by right.
Qed.

Lemma found_row ms m : consistent ms -> m ∈ ms -> exists before after, ms = before ++ m :: after /\ untouched m after.
Proof.
  intros [Hid Hsrc] (before & after & ->)%list_elem_of_split. exists before, after. split; [done|].
  rewrite map_app in Hid, Hsrc. apply NoDup_app in Hid as (_ & _ & [Hi _]%NoDup_cons), Hsrc as (_ & _ & [Hs _]%NoDup_cons).
  apply Forall_forall. intros x Hx. split; intros He; [apply Hi|apply Hs]; apply list_elem_of_fmap; by exists x.
Qed.

Lemma count_all p ms : (forall m, m ∈ ms -> p m = true) -> count_if p ms = Z.of_nat (length ms).
Proof.
  intros H. unfold count_if. rewrite forallb_filter_id; [done|]. apply forallb_forall. intros m Hm%list_elem_of_In. auto.
Qed.

Lemma count_none p ms : (forall m, m ∈ ms -> p m = false) -> count_if p ms = 0.
Proof.
  intros H. unfold count_if. induction ms as [|m ms IH]; [done|]. cbn [List.filter].
  rewrite (H m) by (by left). apply IH. intros x Hx. apply H. by right.
Qed.

(** A second scan of the same world changes nothing and says so, if what is found has
    distinct ids and sources: the same rows, none new, updated or removed. *)
Theorem rescan_changes_nothing i rg :
  consistent (rg_rows rg) -> input_ok i -> consistent (discovered i) ->
  let first := scan signature i rg in
  let second := scan signature i first in
  rg_rows second = rg_rows first
  /\ exists s, rg_last_scan second = Some s
       /\ ss_new s = 0 /\ ss_updated s = 0 /\ ss_removed s = 0 /\ ss_unchanged s = ss_discovered s.
Proof.
  intros Hc Hi Hd first second. destruct (scan_rows i rg Hc Hi) as [Hc1 Hspec]. fold first in Hc1, Hspec.
  assert (Hin : forall m, m ∈ discovered i -> m ∈ rg_rows first) by (intros m Hm; apply Hspec; left; by apply found_row).
  assert (Hrow : forall m, m ∈ discovered i -> dget (mf_source_path m) (existing_by_source first) = Some m)
    by (intros m Hm; apply existing_row; [apply Hc1|by apply Hin]).
  assert (Hstale : stale_sources (dkeys (existing_by_source first)) i = []).
  { destruct (stale_sources _ i) as [|s l] eqn:Hst; [done|exfalso].
    assert (Hs : s ∈ stale_sources (dkeys (existing_by_source first)) i) by (rewrite Hst; by left).
    assert (Hn : s ∉ map mf_source_path (discovered i)).
    { intros (m & -> & Hm)%list_elem_of_fmap. by apply (found_not_stale i (dkeys (existing_by_source first)) m). }
    apply stale_unseen in Hs as [Hs Hk]; [|done|done]. apply existing_keys, list_elem_of_fmap in Hs as (r & -> & Hr).
    apply Hspec in Hr as [(before & after & Heq & _)|(_ & _ & Hr)]; [|congruence].
    apply Hn, list_elem_of_fmap. exists r. split; [done|]. rewrite Heq. set_solver. }
  unfold second, scan. cbn zeta. cbn [rg_rows rg_last_scan]. fold (existing_by_source first). rewrite Hstale. split.
  - unfold replace_model_manifests. rewrite store_all_known by done. by apply forallb_filter_id, forallb_forall.
  - eexists. split; [done|]. cbn [ss_new ss_updated ss_removed ss_unchanged ss_discovered].
    split_and!; [apply count_none|apply count_none|done|apply count_all];
      intros m Hm; rewrite (Hrow m Hm); cbn; rewrite ?String.eqb_refl; done.
Qed.
End scans.

(** ** The advertised inventory: one model of each group *)

Section groups.
Context (ids paths : list (string * string)).
Notation key := (group_key ids paths).

Definition source_role (m : manifest) : bool := member (mf_role m) [Standalone; SourceBundle].
Definition is_source (m : manifest) : bool := negb (is_converted_runnable m) && source_role m.

(** What a group holds of the manifests [seen] so far. *)
Record group_of (seen : list manifest) (k : string) (g : group) : Prop := {
  go_some : exists m, m ∈ seen /\ key m = k;
  go_runnable : forall m, m ∈ g_runnable g <-> m ∈ seen /\ key m = k /\ is_converted_runnable m = true;
  go_auxiliary : forall m, m ∈ g_auxiliary g <-> m ∈ seen /\ key m = k /\ is_converted_runnable m = false /\ source_role m = false;
  go_source : forall s, g_source g = Some s -> s ∈ seen /\ key s = k /\ is_source s = true;
  go_no_source : g_source g = None -> forall m, m ∈ seen -> key m = k -> is_source m = false;
  go_standalone : forall s m, g_source g = Some s -> m ∈ seen -> key m = k -> is_source m = true -> mf_role m = Standalone ->
    mf_role s = Standalone
}.

Record groups_of (seen : list manifest) (groups : list (string * group)) : Prop := {
  gs_keys : NoDup (dkeys groups);
  gs_each : forall k g, dget k groups = Some g -> group_of seen k g;
  gs_all : forall m, m ∈ seen -> key m ∈ dkeys groups
}.

(** A manifest of another group, and the title or the lineage of this one, change nothing. *)
Lemma group_of_other seen k g m : group_of seen k g -> key m <> k -> group_of (seen ++ [m]) k g.
Proof.
  intros [(x & Hx & Hk) Hr Ha Hs Hns Hst] Hne.
  split; intros; rewrite ?elem_of_app, ?list_elem_of_singleton in *;
    [exists x; set_solver|rewrite Hr|rewrite Ha|..]; naive_solver.
Qed.

Lemma group_of_same_lists seen k g g' :
  g_runnable g' = g_runnable g -> g_auxiliary g' = g_auxiliary g -> g_source g' = g_source g -> group_of seen k g -> group_of seen k g'.
Proof. intros Hr Ha Hs [H1 H2 H3 H4 H5 H6]. split; rewrite ?Hr, ?Ha, ?Hs; done. Qed.

(** The manifest goes to one of the three places of its group. *)
Definition place (g : group) (m : manifest) : group :=
  if is_converted_runnable m then g <| g_runnable := g_runnable g ++ [m] |>
  else if source_role m then
    match g_source g with
    | None => g <| g_source := Some m |>
    | Some _ => if decide (mf_role m = Standalone) then g <| g_source := Some m |> else g
    end
  else g <| g_auxiliary := g_auxiliary g ++ [m] |>.

Definition holds (seen : list manifest) (k : string) (g : group) : Prop :=
  group_of seen k g \/ (g_runnable g = [] /\ g_auxiliary g = [] /\ g_source g = None /\ forall m, m ∈ seen -> key m <> k).

Lemma is_source_runnable m : is_converted_runnable m = true -> is_source m = false.
Proof. unfold is_source. by intros ->. Qed.

(** Members of a list that grows by one. *)
Lemma snoc_kept seen m k (P : manifest -> Prop) (l : list manifest) :
  (forall x, x ∈ l <-> x ∈ seen /\ key x = k /\ P x) -> ~ P m -> forall x, x ∈ l <-> x ∈ seen ++ [m] /\ key x = k /\ P x.
Proof. intros Hl Hp x. rewrite Hl, elem_of_app, list_elem_of_singleton. naive_solver. Qed.

Lemma snoc_added seen m k (P : manifest -> Prop) (l : list manifest) :
  (forall x, x ∈ l <-> x ∈ seen /\ key x = k /\ P x) -> key m = k -> P m ->
  forall x, x ∈ l ++ [m] <-> x ∈ seen ++ [m] /\ key x = k /\ P x.
Proof. intros Hl Hk Hp x. rewrite !elem_of_app, Hl, list_elem_of_singleton. naive_solver. Qed.

Lemma place_group seen g m : holds seen (key m) g -> group_of (seen ++ [m]) (key m) (place g m).
Proof.
  intros Hg.
  assert (H : (forall x, x ∈ g_runnable g <-> x ∈ seen /\ key x = key m /\ is_converted_runnable x = true)
    /\ (forall x, x ∈ g_auxiliary g <-> x ∈ seen /\ key x = key m /\ is_converted_runnable x = false /\ source_role x = false)
    /\ (forall s, g_source g = Some s -> s ∈ seen /\ key s = key m /\ is_source s = true)
    /\ (g_source g = None -> forall x, x ∈ seen -> key x = key m -> is_source x = false)
    /\ (forall s x, g_source g = Some s -> x ∈ seen -> key x = key m -> is_source x = true -> mf_role x = Standalone -> mf_role s = Standalone)).
  { destruct Hg as [[]|(-> & -> & -> & Hn)]; [done|]. setoid_rewrite elem_of_nil. naive_solver. }
  clear Hg. destruct H as (Hr & Ha & Hs & Hns & Hst).
  assert (Hm : exists x, x ∈ seen ++ [m] /\ key x = key m) by (exists m; set_solver).
  assert (Hold : forall x, x ∈ seen -> x ∈ seen ++ [m]) by (intros x Hx; apply elem_of_app; by left).
  assert (Hnew : m ∈ seen ++ [m]) by (apply elem_of_app; right; by left).
  unfold place. destruct (is_converted_runnable m) eqn:Hc; [|destruct (source_role m) eqn:Hrole].
  - pose proof (is_source_runnable m Hc) as Hns'. split; [done|by apply snoc_added| |cbn..].
    + apply (snoc_kept seen m (key m) (fun x => is_converted_runnable x = false /\ source_role x = false)); [done|intros []; congruence].
    + intros s Hsome. destruct (Hs s Hsome) as (? & ? & ?). auto.
    + intros Hn x [Hx| ->%list_elem_of_singleton]%elem_of_app; [by apply Hns|done].
    + intros s x Hsome [Hx| ->%list_elem_of_singleton]%elem_of_app; [by apply Hst|congruence].
  - assert (Hsrc : is_source m = true) by (unfold is_source; by rewrite Hc, Hrole).
    assert (Hrun : forall x, x ∈ g_runnable g <-> x ∈ seen ++ [m] /\ key x = key m /\ is_converted_runnable x = true)
      by (apply snoc_kept; [done|congruence]).
    assert (Haux : forall x, x ∈ g_auxiliary g <-> x ∈ seen ++ [m] /\ key x = key m /\ is_converted_runnable x = false /\ source_role x = false)
      by (apply snoc_kept; [done|intros []; congruence]).
    destruct (g_source g) as [s|] eqn:Hg; [case_decide as Hrm|]; (split; [done..| | |]); cbn; rewrite ?Hg; try done.
    + by intros ? [= <-].
    + by intros ? x [= <-].
    + intros ? [= <-]. destruct (Hs s eq_refl) as (? & ? & ?). auto.
    + intros ? x [= <-] [Hx| ->%list_elem_of_singleton]%elem_of_app; [by apply Hst|congruence].
    + by intros ? [= <-].
    + intros ? x [= <-] [Hx| ->%list_elem_of_singleton]%elem_of_app Hk Hsx; [|done]. by rewrite (Hns eq_refl x Hx Hk) in Hsx.
  - assert (Hsrc : is_source m = false) by (unfold is_source; by rewrite Hc, Hrole). split; [done| | |cbn..].
    + apply snoc_kept; [done|congruence].
    + by apply (snoc_added seen m (key m) (fun x => is_converted_runnable x = false /\ source_role x = false)).
    + intros s Hsome. destruct (Hs s Hsome) as (? & ? & ?). auto.
    + intros Hn x [Hx| ->%list_elem_of_singleton]%elem_of_app; [by apply Hns|done].
    + intros s x Hsome [Hx| ->%list_elem_of_singleton]%elem_of_app; [by apply Hst|congruence].
Qed.

(** The two last tests of the loop are [place]: a runnable role was caught before. *)
Lemma group_manifest_place groups m :
  exists g, group_manifest ids paths groups m = dset (key m) (place g m) groups
    /\ match dget (key m) groups with
       | Some g0 => g_runnable g = g_runnable g0 /\ g_auxiliary g = g_auxiliary g0 /\ g_source g = g_source g0
       | None => g_runnable g = [] /\ g_auxiliary g = [] /\ g_source g = None
       end.
Proof.
  unfold group_manifest. set (g := match dget (key m) groups with Some _ => _ | None => _ end). exists g. split.
  - f_equal. unfold place, source_role. destruct (is_converted_runnable m) eqn:Hc; [done|]. destruct (member (mf_role m) [Standalone; SourceBundle]); [done|].
    apply orb_false_iff in Hc as [_ ->]. done.
  - unfold g. destruct (dget (key m) groups) as [g0|]; [|done]. by destruct (g_lineage g0).
Qed.

Lemma group_manifest_ok seen groups m : groups_of seen groups -> groups_of (seen ++ [m]) (group_manifest ids paths groups m).
Proof.
  intros [Hnd Heach Hall]. destruct (group_manifest_place groups m) as (g & -> & Hg).
  assert (Hplace : group_of (seen ++ [m]) (key m) (place g m)).
  { apply place_group. destruct (dget (key m) groups) as [g0|] eqn:Hd.
    - left. destruct Hg as (? & ? & ?). by apply (group_of_same_lists seen (key m) g0 g), Heach.
    - right. destruct Hg as (? & ? & ?). split_and!; [done..|]. intros x Hx Hk. apply dget_None in Hd. apply Hd. rewrite <- Hk. by apply Hall. }
  split.
  - by apply NoDup_dset.
  - intros k g' Hk. destruct (decide (k = key m)) as [->|Hne].
    + rewrite dget_dset_eq in Hk. by injection Hk as <-.
    + rewrite dget_dset_ne in Hk by done. by apply group_of_other; [apply Heach|].
  - intros x [Hx| ->%list_elem_of_singleton]%elem_of_app; apply dkeys_dset_elem; [right; by apply Hall|by left].
Qed.

Lemma groups_ok ms : forall seen groups, groups_of seen groups -> groups_of (seen ++ ms) (foldl (group_manifest ids paths) groups ms).
Proof.
  induction ms as [|m ms IH]; intros seen groups Hg; cbn [foldl]; [by rewrite app_nil_r|].
  rewrite (cons_middle m seen ms), app_assoc. by apply IH, group_manifest_ok.
Qed.

(** The model that stands for the group: a member, runnable if there is a runnable one. *)
Definition stands_for (seen : list manifest) (k : string) (x : manifest) : Prop :=
  x ∈ seen /\ key x = k
  /\ (forall m, m ∈ seen -> key m = k -> is_converted_runnable m = true -> is_converted_runnable x = true)
  /\ (forall m, m ∈ seen -> key m = k -> mf_role m = TextRunnable -> mf_role x ∈ [TextRunnable; MultimodalRunnable])
  /\ (forall m, m ∈ seen -> key m = k -> is_converted_runnable x = false -> mf_role m = Standalone -> mf_role x = Standalone).

Lemma runnable_role m : mf_role m = TextRunnable -> is_converted_runnable m = true.
Proof. unfold is_converted_runnable. intros ->. by rewrite orb_true_r. Qed.

Lemma preferred_runnable g first rest :
  g_runnable g = first :: rest ->
  exists x, preferred_manifest g = Some x /\ x ∈ g_runnable g
    /\ forall m, m ∈ g_runnable g -> mf_role m = TextRunnable -> mf_role x ∈ [TextRunnable; MultimodalRunnable].
Proof.
  intros Hr. unfold preferred_manifest. rewrite Hr, <- Hr. set (multimodal := if _ : bool then _ else None : option manifest).
  assert (Hmm : forall x, multimodal = Some x -> x ∈ g_runnable g /\ mf_role x = MultimodalRunnable).
  { intros x. unfold multimodal. destruct (_ || _); [|done]. intros [Hx%list_elem_of_In Hrole]%find_some. by apply bool_decide_eq_true in Hrole. }
  destruct multimodal as [x|]; [exists x; destruct (Hmm x eq_refl) as [? ->]; set_solver|]. clear Hmm.
  destruct (List.find _ (g_runnable g)) as [x|] eqn:Hf.
  - apply find_some in Hf as [Hx%list_elem_of_In Hrole%bool_decide_eq_true]. exists x. rewrite Hrole. set_solver.
  - exists first. split; [done|]. split; [rewrite Hr; by left|]. intros m Hm%list_elem_of_In Ht.
    pose proof (find_none _ _ Hf m Hm) as H. cbn beta in H. by rewrite bool_decide_eq_true_2 in H.
Qed.

Lemma preferred_stands_for seen k g : group_of seen k g -> exists x, preferred_manifest g = Some x /\ stands_for seen k x.
Proof.
  intros [(m0 & Hm0 & Hk0) Hr Ha Hs Hns Hst]. destruct (g_runnable g) as [|first rest] eqn:Hrun.
  - assert (Hno : forall m, m ∈ seen -> key m = k -> is_converted_runnable m = false).
    { intros m Hm Hk. apply not_true_iff_false. intros Hc. by apply (not_elem_of_nil m), Hr. }
    assert (Htext : forall m, m ∈ seen -> key m = k -> mf_role m <> TextRunnable).
    { intros m Hm Hk Hrole. pose proof (Hno m Hm Hk) as H. by rewrite (runnable_role m Hrole) in H. }
    unfold preferred_manifest. rewrite Hrun. destruct (g_source g) as [s|] eqn:Hsrc.
    + exists s. split; [done|]. destruct (Hs s eq_refl) as (Hin & Hk & _). split_and!; [done|done| |by intros m Hm Hkm ?%Htext|].
      * intros m Hm Hkm. by rewrite (Hno m Hm Hkm).
      * intros m Hm Hkm _ Hrole. apply (Hst s m); [done..| |done]. unfold is_source, source_role. by rewrite (Hno m Hm Hkm), Hrole.
    + assert (Haux : forall m, m ∈ seen -> key m = k -> m ∈ g_auxiliary g).
      { intros m Hm Hkm. apply Ha. pose proof (Hns eq_refl m Hm Hkm) as H. unfold is_source in H.
        rewrite (Hno m Hm Hkm) in H. split_and!; [done..|by apply Hno|done]. }
      destruct (sort_by listed_before (g_auxiliary g)) as [|x l] eqn:Hsort.
      { apply sort_by_nil in Hsort. pose proof (Haux m0 Hm0 Hk0) as H. rewrite Hsort in H. by apply not_elem_of_nil in H. }
      assert (Hx : x ∈ g_auxiliary g) by (apply (elem_sort_by listed_before); rewrite Hsort; by left).
      apply Ha in Hx as (Hin & Hk & _). exists x. split; [done|]. split_and!; [done|done| |by intros m Hm Hkm ?%Htext|].
      * intros m Hm Hkm. by rewrite (Hno m Hm Hkm).
      * intros m Hm Hkm _ Hrole. apply Haux, Ha in Hm as (_ & _ & _ & H); [|done]. unfold source_role in H. by rewrite Hrole in H.
  - destruct (preferred_runnable g first rest Hrun) as (x & Hx & Hin & Htext). exists x. split; [done|].
    rewrite Hrun in Hin, Htext. apply Hr in Hin as (? & ? & Hc). split_and!; [done..| |].
    + intros m Hm Hk Hrole. apply (Htext m); [|done]. apply Hr. split_and!; [done..|by apply runnable_role].
    + intros m Hm Hk Hc'. congruence.
Qed.
End groups.

Lemma omap_keys (f : manifest -> string) groups :
  (forall k g, (k, g) ∈ groups -> exists x, preferred_manifest g = Some x /\ f x = k) ->
  map f (omap preferred_manifest (map snd groups)) = dkeys groups.
Proof.
  induction groups as [|[k g] groups IH]; intros H; [done|]. destruct (H k g) as (x & Hx & Hk); [by left|].
  unfold dkeys in *. cbn [map snd fst omap list_omap]. rewrite Hx. cbn [map]. rewrite Hk. f_equal. apply IH. intros. apply H. by right.
Qed.


Definition inventory_key (ms : list manifest) : manifest -> string :=
  group_key (grouped_source_model_ids ms) (grouped_source_paths ms).

Lemma grouped_ok ms : groups_of (grouped_source_model_ids ms) (grouped_source_paths ms) ms (grouped ms).
Proof. apply (groups_ok _ _ ms [] []). split; [constructor|done|by intros ? ?%not_elem_of_nil]. Qed.

Lemma grouped_preferred ms k g :
  (k, g) ∈ grouped ms -> exists x, preferred_manifest g = Some x
    /\ stands_for (grouped_source_model_ids ms) (grouped_source_paths ms) ms k x.
Proof. intros Hin. destruct (grouped_ok ms) as [Hnd Heach _]. by apply preferred_stands_for, Heach, dget_elem. Qed.

Lemma elem_advertised ms x : x ∈ advertised_manifests ms <-> exists k g, (k, g) ∈ grouped ms /\ preferred_manifest g = Some x.
Proof.
  unfold advertised_manifests. rewrite list_elem_of_omap. split.
  - intros (g & Hg & Hx). apply elem_sort_by, list_elem_of_fmap in Hg as ([k g'] & -> & Hin). by exists k, g'.
  - intros (k & g & Hin & Hx). exists g. split; [|done]. apply elem_sort_by, list_elem_of_fmap. by exists (k, g).
Qed.

(** C26.  The advertised inventory shows every registered model once.  No two advertised
    models are of one group; each stands for its group: it is registered, and it is a
    runnable conversion if the group has one, a text or multimodal one if it has a text
    one, and otherwise the standalone model if there is one; and every registered model's
    group is shown. *)
Theorem advertised_one_per_group ms :
  NoDup (map (inventory_key ms) (advertised_manifests ms))
  /\ (forall x, x ∈ advertised_manifests ms ->
        stands_for (grouped_source_model_ids ms) (grouped_source_paths ms) ms (inventory_key ms x) x)
  /\ (forall m, m ∈ ms -> exists x, x ∈ advertised_manifests ms /\ inventory_key ms x = inventory_key ms m).
Proof.
  split_and!.
  - unfold advertised_manifests. rewrite (sort_by_perm group_before (map snd (grouped ms))), omap_keys; [apply (grouped_ok ms)|].
    intros k g Hin. destruct (grouped_preferred ms k g Hin) as (x & Hx & _ & Hk & _). by exists x.
  - intros x (k & g & Hin & Hx)%elem_advertised. destruct (grouped_preferred ms k g Hin) as (y & Hy & Hstands).
    rewrite Hx in Hy. injection Hy as <-. destruct Hstands as (? & Hk & ?). unfold inventory_key. rewrite Hk. done.
  - intros m Hm. pose proof (gs_all _ _ _ _ (grouped_ok ms) m Hm) as ([k g] & Hk & Hin)%list_elem_of_fmap. cbn in Hk.
    destruct (grouped_preferred ms k g Hin) as (x & Hx & _ & Hkx & _). exists x. split; [apply elem_advertised; by exists k, g|].
    unfold inventory_key. by rewrite Hkx, Hk.
Qed.

(** ** Examples *)

Definition sample_row (id name path : string) (role : artifact_role) (metadata : list (string * json)) : manifest :=
  {| mf_id := id; mf_display_name := name; mf_family := "llama"; mf_quantization := None; mf_fingerprint := "f"; mf_role := role;
     mf_lineage := []; mf_subtype := UnknownSubtype; mf_modality := [Text]; mf_audio_roles := []; mf_source_path := path;
     mf_format := FormatGguf; mf_affinity := []; mf_text_affinity := []; mf_text_source := None; mf_text_reason := None;
     mf_memory := None; mf_context := None; mf_status := Runnable; mf_metadata := metadata |}.

Definition base_model : manifest := sample_row "base" "Base" "/models/base" SourceBundle [].
Definition converted_model : manifest := sample_row "base-q4" "Base q4" "/out/base-q4" TextRunnable [("source_model_id", JStr "base")].
Definition other_model : manifest := sample_row "other" "Other" "/models/other.gguf" Standalone [].

(** The converted model is shown in place of the one it was made from. *)
Example sample_inventory : map mf_id (advertised_manifests [base_model; converted_model; other_model]) = ["base-q4"; "other"].
Proof. vm_compute. reflexivity. Qed.

(** The old table: a file that is gone, a file outside the roots, and models of two
    servers of which one cannot be read. *)
Definition lab : external_endpoint :=
  {| ee_id := "lab"; ee_profile := "vllm"; ee_enabled := true; ee_base_url := "http://127.0.0.1:8001" |}.
Definition den : external_endpoint :=
  {| ee_id := "den"; ee_profile := "vllm"; ee_enabled := true; ee_base_url := "http://127.0.0.1:8002" |}.
Definition sample_table : list manifest :=
  [other_model; sample_row "gone" "Gone" "/models/gone.gguf" Standalone []; sample_row "far" "Far" "/disk/far.gguf" Standalone [];
   sample_row "old-lab" "old" "external://lab/old" Standalone []; sample_row "old-den" "old" "external://den/old" Standalone []].
Definition sample_scan : scan_input :=
  {| si_roots := ["/models"]; si_local := [other_model]; si_ollama := None;
     si_runtimes := Some [("lab", {| ir_endpoint := Some lab; ir_records := Some (Ok [[("id", JStr "new")]]); ir_stale := false |});
                          ("den", {| ir_endpoint := Some den; ir_records := Some (Err "refused"); ir_stale := true |})];
     si_endpoints := [lab; den] |}.

Example sample_scan_keeps :
  map mf_source_path (rg_rows (scan mf_display_name sample_scan {| rg_rows := sample_table; rg_last_scan := None |}))
  = ["/models/other.gguf"; "/disk/far.gguf"; "external://den/old"; "external://lab/new"].
Proof. vm_compute. reflexivity. Qed.

Lemma sample_input_ok : input_ok sample_scan.
Proof.
  split.
  - intros m [->|?%not_elem_of_nil]%elem_of_cons; [|done]. reflexivity.
  - intros ? [= <-]. by apply (bool_decide_unpack _).
  - intros ? id rt e [= <-] Hin He.
    apply elem_of_cons in Hin as [Hin|[Hin|?%not_elem_of_nil]%elem_of_cons]; [..|done];
      injection Hin as -> ->; cbn in He; injection He as <-; (split; [done|]); (split; [by split|]); set_solver.
Qed.

Lemma sample_consistent : consistent sample_table.
Proof. split; by apply (bool_decide_unpack _). Qed.

Lemma scan_is_exact_witness :
  consistent (rg_rows (scan mf_display_name sample_scan {| rg_rows := sample_table; rg_last_scan := None |})).
Proof.
  apply (scan_is_exact mf_display_name sample_scan {| rg_rows := sample_table; rg_last_scan := None |} sample_consistent sample_input_ok).
Defined.

Lemma rescan_changes_nothing_witness :
  let first := scan mf_display_name sample_scan {| rg_rows := sample_table; rg_last_scan := None |} in
  rg_rows (scan mf_display_name sample_scan first) = rg_rows first.
Proof.
  refine (proj1 (rescan_changes_nothing mf_display_name sample_scan {| rg_rows := sample_table; rg_last_scan := None |}
    sample_consistent sample_input_ok _)).
  split; by apply (bool_decide_unpack _).
Defined.

(** Two tags of one digest whose names differ in a colon get one id: each scan registers
    only the later, and counts the other as new again. *)
Definition twin_tags : scan_input :=
  {| si_roots := []; si_local := [];
     si_ollama := Some ({| os_base_url := "http://127.0.0.1:11434"; os_cloud_enabled := false; os_endpoints := [] |},
       Ok (JObj [("models", JArr [JObj [("name", JStr "llama3:8b"); ("digest", JStr "0123456789abcdef")];
                                  JObj [("name", JStr "llama3-8b"); ("digest", JStr "0123456789abcdef")]])]));
     si_runtimes := None; si_endpoints := [] |}.

Lemma twin_tags_share_an_id :
  let first := scan mf_display_name twin_tags {| rg_rows := []; rg_last_scan := None |} in
  let second := scan mf_display_name twin_tags first in
  map mf_source_path (rg_rows second) = ["ollama://llama3-8b"]
  /\ option_map (fun s => (ss_discovered s, ss_new s, ss_unchanged s)) (rg_last_scan second) = Some (2, 1, 1).
Proof. vm_compute. split; reflexivity. Qed.
