(* ===== verification/History.v ===== *)
(** Chat sessions: src/src/lewlm/history over the session tables of
    storage/metadata.py.

    The database is two tables; a function of the store is one transaction.  The
    columns hold the values themselves: their JSON texts, and the encryption that
    reading undoes, are left out.  Times are integers.  The identifiers that uuid4
    draws and the readings of the clock are arguments.  An operation returns the store
    it leaves, also where it fails.  Strings are ASCII. *)

From Stdlib Require Import Sorted.
From stdpp Require Import pretty.
From S2P Require Import Prelude PyFloat PyString Json PySort.

Open Scope Z_scope.

(** ** Messages, sessions and turns *)

Record attachment := {
  at_type : string;
  at_name : string;
  at_source_path : option string;
  at_media_type : option string;
  at_detail : option string;
  at_text : option string;
  at_metadata : list (string * json)
}.

Record message := {
  ms_role : string;
  ms_content : string;
  ms_attachments : list attachment;
  ms_tool_call_id : option string;
  ms_tool_calls : option (list json)
}.

Inductive context_policy := FullHistory | LastTurn | SummaryAndLastTurn.
Inductive request_kind := ChatCompletions | Responses | CliChat.

Definition request_kind_value (k : request_kind) : string :=
  match k with ChatCompletions => "chat.completions" | Responses => "responses" | CliChat => "cli.chat" end.

(** [SessionRecord]. *)
Record session := {
  se_id : string;
  se_title : option string;
  se_policy : context_policy;
  se_metadata : list (string * json);
  se_messages : Z;
  se_turns : Z;
  se_created : Z;
  se_updated : Z
}.

#[export] Instance session_eta : Eta session := fun s =>
  Build_session (se_id s) (se_title s) (se_policy s) (se_metadata s) (se_messages s) (se_turns s) (se_created s) (se_updated s).

(** [SessionTurnRecord]. *)
Record turn := {
  tu_id : string;
  tu_session : string;
  tu_kind : request_kind;
  tu_input : list message;
  tu_response : message;
  tu_requested_model : option string;
  tu_model : string;
  tu_max_tokens : Z;
  tu_temperature : f64;
  tu_finish_reason : string;
  tu_usage : list (string * Z);
  tu_metadata : list (string * json);
  tu_created : Z
}.

#[export] Instance turn_eta : Eta turn := fun t =>
  Build_turn (tu_id t) (tu_session t) (tu_kind t) (tu_input t) (tu_response t) (tu_requested_model t) (tu_model t)
    (tu_max_tokens t) (tu_temperature t) (tu_finish_reason t) (tu_usage t) (tu_metadata t) (tu_created t).

(** [SessionDetail] and [SessionExportBundle]: a session with its turns. *)
Record detail := { de_session : session; de_turns : list turn }.

(** [(created_at, turn_id)], the key by which turns are sorted. *)
Definition turn_before (a b : turn) : bool :=
  if tu_created a =? tu_created b then String.ltb (tu_id a) (tu_id b) else tu_created a <? tu_created b.

Definition turn_messages (t : turn) : list message := tu_input t ++ [tu_response t].

(** [flatten_session_turns]. *)
Definition flatten_session_turns (turns : list turn) : list message := concat (map turn_messages (sort_by turn_before turns)).

(** ** The tables *)

Record store := { h_sessions : list session; h_turns : list turn }.

#[export] Instance store_eta : Eta store := fun st => Build_store (h_sessions st) (h_turns st).

Inductive history_error :=
| PrivacyMode
| SessionNotFound (id : string)
| NothingToUpdate (id : string)
| MissingSession (id : string)       (* StorageError of [append_session_turn] *)
| DuplicateTurn (id : string).       (* StorageError of the constraint on turn ids *)

Definition has_id (id : string) (s : session) : bool := (se_id s =? id)%string.

Definition upsert_session (s : session) (st : store) : store :=
  if existsb (has_id (se_id s)) (h_sessions st)
  then st <| h_sessions := map (fun x => if has_id (se_id s) x then s else x) (h_sessions st) |>
  else st <| h_sessions := h_sessions st ++ [s] |>.

Definition later_session (a b : session) : bool :=
  if se_updated a =? se_updated b then se_created b <? se_created a else se_updated b <? se_updated a.

Definition stored_sessions (st : store) : list session := sort_by later_session (h_sessions st).

Definition find_session (id : string) (st : store) : option session := List.find (has_id id) (h_sessions st).

(** The turns go with their session ([ON DELETE CASCADE]). *)
Definition delete_session_row (id : string) (st : store) : store :=
  {| h_sessions := List.filter (fun s => negb (has_id id s)) (h_sessions st);
     h_turns := List.filter (fun t => negb (tu_session t =? id)%string) (h_turns st) |}.

Definition append_session_turn (t : turn) (st : store) : store * result history_error unit :=
  match find_session (tu_session t) st with
  | None => (st, Err (MissingSession (tu_session t)))
  | Some s =>
      if existsb (fun x => tu_id x =? tu_id t)%string (h_turns st) then (st, Err (DuplicateTurn (tu_id t)))
      else
        let counted := s <| se_messages := se_messages s + Z.of_nat (length (tu_input t)) + 1 |>
                         <| se_turns := se_turns s + 1 |> <| se_updated := tu_created t |> in
        ({| h_sessions := map (fun x => if has_id (tu_session t) x then counted else x) (h_sessions st); h_turns := h_turns st ++ [t] |}, Ok ())
  end.

Definition list_session_turns (id : string) (st : store) : list turn :=
  sort_by turn_before (List.filter (fun t => tu_session t =? id)%string (h_turns st)).

(** ** The service *)

Section service.
Context (privacy : bool).

(** [_require_persistence_enabled], then the operation. *)
Definition with_persistence {A} (st : store) (op : store * result history_error A) : store * result history_error A :=
  if privacy then (st, Err PrivacyMode) else op.

Definition with_session {A} (id : string) (st : store) (op : session -> store * result history_error A) : store * result history_error A :=
  match find_session id st with
  | None => (st, Err (SessionNotFound id))
  | Some s => op s
  end.

Definition create_session (uuid : string) (created updated : Z) (title : option string) (metadata : list (string * json)) (policy : context_policy)
    (st : store) : store * result history_error session :=
  with_persistence st
    (let s := {| se_id := uuid; se_title := title; se_policy := policy; se_metadata := metadata; se_messages := 0; se_turns := 0;
                 se_created := created; se_updated := updated |} in
     (upsert_session s st, Ok s)).

Definition list_sessions (st : store) : store * result history_error (list session) :=
  with_persistence st (st, Ok (stored_sessions st)).

Definition get_session (id : string) (st : store) : store * result history_error session :=
  with_persistence st (with_session id st (fun s => (st, Ok s))).

Definition get_session_detail (id : string) (st : store) : store * result history_error detail :=
  with_persistence st (with_session id st (fun s => (st, Ok {| de_session := s; de_turns := list_session_turns id st |}))).

Definition on_detail {A} (f : detail -> A) (r : store * result history_error detail) : store * result history_error A :=
  (r.1, match r.2 with Ok d => Ok (f d) | Err e => Err e end).

Definition list_messages (id : string) (st : store) : store * result history_error (list message) :=
  on_detail (fun d => flatten_session_turns (de_turns d)) (get_session_detail id st).

(** [record_turn]: the turn as it is written, with its id and its time. *)
Definition record_turn (t : turn) (st : store) : store * result history_error detail :=
  with_persistence st (with_session (tu_session t) st (fun _ =>
    match append_session_turn t st with
    | (st, Ok _) => get_session_detail (tu_session t) st
    | (st, Err e) => (st, Err e)
    end)).

(** What [update_session] makes of the session that it read. *)
Definition updated_session (now : Z) (title : option string) (metadata : option (list (string * json))) (policy : option context_policy)
    (merge : bool) (s : session) : session :=
  s <| se_title := match title with Some _ => title | None => se_title s end |>
    <| se_metadata := match metadata with
                      | Some d => if merge then dmerge (se_metadata s) d else d
                      | None => se_metadata s
                      end |>
    <| se_policy := default (se_policy s) policy |> <| se_updated := now |>.

Definition update_session (id : string) (now : Z) (title : option string) (metadata : option (list (string * json)))
    (policy : option context_policy) (merge : bool) (st : store) : store * result history_error session :=
  with_persistence st (with_session id st (fun s =>
    match title, metadata, policy with
    | None, None, None => (st, Err (NothingToUpdate id))
    | _, _, _ => let s := updated_session now title metadata policy merge s in (upsert_session s st, Ok s)
    end)).

Definition delete_session (id : string) (st : store) : store * result history_error session :=
  with_persistence st (with_session id st (fun s => (delete_session_row id st, Ok s))).

(** [export_session]: the bundle holds the session and its turns. *)
Definition export_session (id : string) (st : store) : store * result history_error detail := get_session_detail id st.

Definition imported_turn (session_id uuid : string) (t : turn) : turn :=
  t <| tu_id := uuid |> <| tu_session := session_id |>
    <| tu_metadata := dset "imported_from_turn_id" (JStr (tu_id t)) (tu_metadata t) |>.

(** The loop of [import_session] over the sorted turns, with an identifier for each. *)
Fixpoint import_turns (session_id : string) (turns : list turn) (uuids : list string) (st : store) : store * result history_error unit :=
  match turns, uuids with
  | t :: turns, uuid :: uuids =>
      match append_session_turn (imported_turn session_id uuid t) st with
      | (st, Ok _) => import_turns session_id turns uuids st
      | (st, Err e) => (st, Err e)
      end
  | _, _ => (st, Ok ())
  end.

(** [title or bundle.session.title]. *)
Definition title_or (title other : option string) : option string := if truthy title then title else other.

Definition imported_session (bundle : detail) (title : option string) (uuid : string) : session :=
  let s := de_session bundle in
  {| se_id := uuid; se_title := title_or title (se_title s); se_policy := se_policy s;
     se_metadata := dset "imported_from_session_id" (JStr (se_id s)) (se_metadata s); se_messages := 0; se_turns := 0;
     se_created := se_created s; se_updated := se_updated s |}.

Definition import_session (bundle : detail) (title : option string) (uuid : string) (turn_uuids : list string) (st : store)
    : store * result history_error detail :=
  with_persistence st
    (let st := upsert_session (imported_session bundle title uuid) st in
     match import_turns uuid (sort_by turn_before (de_turns bundle)) turn_uuids st with
     | (st, Ok _) => get_session_detail uuid st
     | (st, Err e) => (st, Err e)
     end).

(** ** The conversation sent to the model *)

Section conversation.
  (** [format(x, 'g')] of a float. *)
Context (format_g : f64 -> string).

Definition truncate_text (value : string) (limit : nat) : string :=
  if (String.length value <=? limit)%nat then value else String.substring 0 (limit - 3) value +:+ "...".

(** [re.sub(r'\s+', ' ', s)]. *)
Fixpoint collapse_spaces (in_run : bool) (s : string) : string :=
  match s with
  | EmptyString => EmptyString
  | String c s => if is_space c then if in_run then collapse_spaces true s else String (Ascii.ascii_of_nat 32) (collapse_spaces true s)
                  else String c (collapse_spaces false s)
  end.

Definition summarize_message (m : message) : string :=
  let text := strip (collapse_spaces false (ms_content m)) in
  let excerpt := truncate_text (if (text =? "")%string then "(empty)" else text) 80 in
  match ms_attachments m with
  | [] => ms_role m +:+ ": " +:+ excerpt
  | l =>
      let names := String.concat ", " (map (fun a => truncate_text (at_name a) 24) (take 3 l)) in
      let names := if (3 <? length l)%nat then names +:+ ", +" +:+ pretty (length l - 3)%nat +:+ " more" else names in
      ms_role m +:+ ": " +:+ excerpt +:+ " [attachments: " +:+ names +:+ "]"
  end.

Definition summarize_messages (l : list message) : string :=
  match l with [] => "(no input)" | _ => String.concat " || " (map summarize_message l) end.

Definition summary_line (index : nat) (t : turn) : string :=
  pretty index +:+ ". " +:+ request_kind_value (tu_kind t) +:+ " via " +:+ tu_model t +:+ " (max_tokens=" +:+ pretty (tu_max_tokens t)
  +:+ ", temperature=" +:+ format_g (tu_temperature t) +:+ ") | user=" +:+ summarize_messages (tu_input t)
  +:+ " | assistant=" +:+ truncate_text (ms_content (tu_response t)) 120.

(** [f"{title or session_id}"]. *)
Definition session_name (s : session) : string :=
  match se_title s with Some t => if (t =? "")%string then se_id s else t | None => se_id s end.

Definition system_message (content : string) : message :=
  {| ms_role := "system"; ms_content := content; ms_attachments := []; ms_tool_call_id := None; ms_tool_calls := None |}.

Definition newline : string := String (Ascii.ascii_of_nat 10) "".

Definition summary_and_last_turn_messages (s : session) (turns : list turn) : list message :=
  if (length turns <=? 1)%nat then flatten_session_turns turns
  else
    let compacted := take (length turns - 1) turns in
    let lines :=
      ["Session summary for " +:+ session_name s +:+ ".";
       "Compacted " +:+ pretty (length compacted) +:+ " earlier turn(s) into this note; keep the latest turn verbatim below."]
      ++ imap (fun i t => summary_line (S i) t) compacted in
    system_message (String.concat newline lines) :: flatten_session_turns (drop (length turns - 1) turns).

(** [_build_context_messages]. *)
Definition build_context_messages (d : detail) : list message :=
  let ordered := sort_by turn_before (de_turns d) in
  match se_policy (de_session d) with
  | FullHistory => flatten_session_turns ordered
  | LastTurn => flatten_session_turns (drop (length ordered - 1) ordered)
  | SummaryAndLastTurn => summary_and_last_turn_messages (de_session d) ordered
  end.

Definition build_conversation_messages (id : string) (new_messages : list message) (st : store)
    : store * result history_error (list message) :=
  on_detail (fun d => build_context_messages d ++ new_messages) (get_session_detail id st).
End conversation.
End service.

(** ** What the tables hold *)

Definition turns_of (id : string) (st : store) : list turn := List.filter (fun t => tu_session t =? id)%string (h_turns st).

(** The messages of some turns, each with its answer. *)
Definition message_total (turns : list turn) : Z := foldr (fun t n => Z.of_nat (length (turn_messages t)) + n) 0 turns.

(** The numbers that a session's row keeps are those of its turns. *)
Definition counted (st : store) (s : session) : Prop :=
  se_turns s = Z.of_nat (length (turns_of (se_id s) st)) /\ se_messages s = message_total (turns_of (se_id s) st).

Record history_ok (st : store) : Prop := {
  ho_sessions : NoDup (map se_id (h_sessions st));
  ho_turns : NoDup (map tu_id (h_turns st));
  ho_owner : forall t, t ∈ h_turns st -> tu_session t ∈ map se_id (h_sessions st);
  ho_counts : forall s, s ∈ h_sessions st -> counted st s
}.

Definition no_history : store := {| h_sessions := []; h_turns := [] |}.

Lemma no_history_ok : history_ok no_history.
Proof. split; [constructor|constructor|by intros ? ?%not_elem_of_nil|by intros ? ?%not_elem_of_nil]. Qed.

Lemma has_id_true id s : has_id id s = true <-> se_id s = id.
Proof. apply String.eqb_eq. Qed.

Lemma find_session_elem id st s : find_session id st = Some s -> s ∈ h_sessions st /\ se_id s = id.
Proof. intros [Hs%list_elem_of_In Hid%has_id_true]%find_some. done. Qed.

Lemma find_session_None id st : find_session id st = None <-> id ∉ map se_id (h_sessions st).
Proof.
  unfold find_session. split.
  - intros Hn (s & -> & Hs%list_elem_of_In)%list_elem_of_fmap. pose proof (find_none _ _ Hn s Hs) as H. unfold has_id in H. by rewrite String.eqb_refl in H.
  - intros Hn. destruct (List.find _ _) as [s|] eqn:Hf; [|done]. apply find_some in Hf as [Hs%list_elem_of_In Hid%has_id_true].
    exfalso. apply Hn, list_elem_of_fmap. by exists s.
Qed.

Lemma find_session_unique id st s : NoDup (map se_id (h_sessions st)) -> s ∈ h_sessions st -> se_id s = id -> find_session id st = Some s.
Proof.
  intros Hnd Hs Hid. destruct (find_session id st) as [x|] eqn:Hf.
  - apply find_session_elem in Hf as [Hx Hxid]. f_equal. apply (NoDup_map_inj se_id _ _ _ Hnd Hx Hs). congruence.
  - apply find_session_None in Hf. exfalso. apply Hf, list_elem_of_fmap. by exists s.
Qed.

(** Replacing the rows of one id by a row with that id. *)
Lemma replaced_session_ids id s' l : se_id s' = id -> map se_id (map (fun x => if has_id id x then s' else x) l) = map se_id l.
Proof. intros Hs'. rewrite map_map. apply map_ext. intros x. destruct (has_id id x) eqn:Hx; [|done]. apply has_id_true in Hx. congruence. Qed.

Lemma elem_replaced_session id s' l x :
  x ∈ map (fun x => if has_id id x then s' else x) l -> x = s' \/ (x ∈ l /\ se_id x <> id).
Proof.
  intros (y & -> & Hy)%list_elem_of_fmap. destruct (has_id id y) eqn:Hx; [by left|right]. split; [done|].
  rewrite <- has_id_true. by rewrite Hx.
Qed.

Lemma find_replaced_same id s' l : se_id s' = id -> id ∈ map se_id l ->
  List.find (has_id id) (map (fun x => if has_id id x then s' else x) l) = Some s'.
Proof.
  intros Hs'. assert (Hself : has_id id s' = true) by by apply has_id_true.
  induction l as [|y l IH]; cbn [map List.find]; [by intros ?%not_elem_of_nil|]. intros [Hy|Hl]%elem_of_cons.
  - by rewrite (proj2 (has_id_true id y) (eq_sym Hy)), Hself.
  - destruct (has_id id y) eqn:Hx; [by rewrite Hself|rewrite Hx; by apply IH].
Qed.

Lemma find_replaced_other id id' s' l : se_id s' = id -> id' <> id ->
  List.find (has_id id') (map (fun x => if has_id id x then s' else x) l) = List.find (has_id id') l.
Proof.
  intros Hs' Hne. induction l as [|y l IH]; [done|]. cbn [map List.find]. destruct (has_id id y) eqn:Hx; [|by rewrite IH].
  apply has_id_true in Hx. assert (H1 : has_id id' s' = false) by (apply String.eqb_neq; congruence).
  assert (H2 : has_id id' y = false) by (apply String.eqb_neq; congruence). by rewrite H1, H2, IH.
Qed.

(** *** Appending a turn *)

Definition add_turn (t : turn) (s : session) : session :=
  s <| se_messages := se_messages s + Z.of_nat (length (tu_input t)) + 1 |> <| se_turns := se_turns s + 1 |> <| se_updated := tu_created t |>.

Lemma append_spec t st s :
  find_session (tu_session t) st = Some s -> tu_id t ∉ map tu_id (h_turns st) ->
  append_session_turn t st
  = ({| h_sessions := map (fun x => if has_id (tu_session t) x then add_turn t s else x) (h_sessions st); h_turns := h_turns st ++ [t] |}, Ok ()).
Proof.
  intros Hs Hid. unfold append_session_turn. rewrite Hs. destruct (existsb _ _) eqn:He; [|done].
  apply existsb_exists in He as (x & Hx%list_elem_of_In & Hx'%String.eqb_eq). exfalso. apply Hid, list_elem_of_fmap. by exists x.
Qed.

Lemma append_cases t st : 
  (exists s, find_session (tu_session t) st = Some s /\ tu_id t ∉ map tu_id (h_turns st)) \/ (append_session_turn t st).1 = st.
Proof.
  unfold append_session_turn. destruct (find_session (tu_session t) st) as [s|]; [|by right].
  destruct (existsb _ _) eqn:He; [by right|left]. exists s. split; [done|]. intros (x & Hx & Hin%list_elem_of_In)%list_elem_of_fmap.
  apply not_true_iff_false in He. apply He, existsb_exists. exists x. split; [done|]. by apply String.eqb_eq.
Qed.

Lemma turns_of_app id st t :
  List.filter (fun t => tu_session t =? id)%string (h_turns st ++ [t]) = turns_of id st ++ if (tu_session t =? id)%string then [t] else [].
Proof. unfold turns_of. rewrite List.filter_app. cbn [List.filter]. by destruct (tu_session t =? id)%string. Qed.

Lemma message_total_app l l' : message_total (l ++ l') = message_total l + message_total l'.
Proof. unfold message_total. induction l as [|t l IH]; cbn [app foldr]; [lia|]. rewrite IH. lia. Qed.

Lemma append_ok t st : history_ok st -> history_ok (append_session_turn t st).1.
Proof.
  intros Hok. destruct (append_cases t st) as [(s & Hs & Hid)| ->]; [|done]. rewrite (append_spec t st s Hs Hid). cbn [fst].
  destruct (find_session_elem _ _ _ Hs) as [Hin Hsid]. split; cbn [h_sessions h_turns].
  - rewrite replaced_session_ids by done. apply Hok.
  - rewrite map_app. apply NoDup_app. split; [apply Hok|]. split; [|apply NoDup_singleton].
    intros x Hx Hx'%list_elem_of_singleton. by subst.
  - rewrite replaced_session_ids by done. intros x [Hx| ->%list_elem_of_singleton]%elem_of_app; [by apply Hok|].
    rewrite <- Hsid. apply list_elem_of_fmap. by exists s.
  - intros x [->|[Hx Hne]]%elem_replaced_session; unfold counted, turns_of; cbn [h_turns]; rewrite turns_of_app.
    + change (se_id (add_turn t s)) with (se_id s). rewrite Hsid, String.eqb_refl. destruct (ho_counts st Hok s Hin) as [H1 H2]. rewrite Hsid in H1, H2.
      rewrite length_app, message_total_app. cbn. unfold turn_messages. rewrite H1, H2, length_app. cbn. lia.
    + assert (H : (tu_session t =? se_id x)%string = false) by (apply String.eqb_neq; congruence).
      rewrite H, app_nil_r. by apply (ho_counts st Hok).
Qed.

(** *** New, changed and deleted sessions *)

Lemma upsert_new s st : se_id s ∉ map se_id (h_sessions st) -> upsert_session s st = st <| h_sessions := h_sessions st ++ [s] |>.
Proof.
  intros Hn. unfold upsert_session. destruct (existsb _ _) eqn:He; [|done].
  apply existsb_exists in He as (x & Hx%list_elem_of_In & Hid%has_id_true). exfalso. apply Hn, list_elem_of_fmap. by exists x.
Qed.

Lemma upsert_old s st : se_id s ∈ map se_id (h_sessions st) ->
  upsert_session s st = st <| h_sessions := map (fun x => if has_id (se_id s) x then s else x) (h_sessions st) |>.
Proof.
  intros (x & Hx & Hin%list_elem_of_In)%list_elem_of_fmap. unfold upsert_session. rewrite (proj2 (existsb_exists _ _)); [done|].
  exists x. split; [done|]. by apply has_id_true.
Qed.

Lemma no_turns_of id st : history_ok st -> id ∉ map se_id (h_sessions st) -> turns_of id st = [].
Proof.
  intros Hok Hn. unfold turns_of. destruct (List.filter _ (h_turns st)) as [|t l] eqn:Hf; [done|exfalso].
  assert (Ht : t ∈ List.filter (fun t => tu_session t =? id)%string (h_turns st)) by (rewrite Hf; by left).
  apply elem_list_filter in Ht as [Ht <-%String.eqb_eq]. by apply Hn, Hok.
Qed.

Lemma new_session_ok s st : history_ok st -> se_id s ∉ map se_id (h_sessions st) -> se_turns s = 0 -> se_messages s = 0 ->
  history_ok (upsert_session s st).
Proof.
  intros Hok Hn Ht Hm. rewrite upsert_new by done. split; cbn.
  - rewrite map_app. apply NoDup_app. split; [apply Hok|]. split; [|apply NoDup_singleton]. intros x Hx Hx'%list_elem_of_singleton. by subst.
  - apply Hok.
  - intros t Ht'. rewrite map_app. apply elem_of_app. left. by apply Hok.
  - intros x [Hx| ->%list_elem_of_singleton]%elem_of_app; [by apply (ho_counts st Hok)|].
    unfold counted. change (turns_of (se_id s) _) with (turns_of (se_id s) st). by rewrite no_turns_of, Ht, Hm.
Qed.

Lemma changed_session_ok s s' st : history_ok st -> s ∈ h_sessions st -> se_id s' = se_id s -> se_turns s' = se_turns s ->
  se_messages s' = se_messages s -> history_ok (upsert_session s' st).
Proof.
  intros Hok Hs Hid Ht Hm. rewrite upsert_old by (rewrite Hid; apply list_elem_of_fmap; by exists s). split; cbn.
  - rewrite replaced_session_ids by done. apply Hok.
  - apply Hok.
  - rewrite replaced_session_ids by done. apply Hok.
  - intros x [->|[Hx Hne]]%elem_replaced_session; [|by apply (ho_counts st Hok)].
    destruct (ho_counts st Hok s Hs) as [H1 H2]. unfold counted. rewrite Hid, Ht, Hm. done.
Qed.

Lemma filter_filter_id {A} (p q : A -> bool) l : (forall x, q x = true -> p x = true) -> List.filter q (List.filter p l) = List.filter q l.
Proof.
  intros H. induction l as [|x l IH]; [done|]. cbn [List.filter]. destruct (p x) eqn:Hp; cbn [List.filter]; [by rewrite IH|].
  destruct (q x) eqn:Hq; [|done]. apply H in Hq. congruence.
Qed.

Lemma deleted_turns id id' st : id' <> id -> turns_of id' (delete_session_row id st) = turns_of id' st.
Proof.
  intros Hne. unfold turns_of, delete_session_row. cbn [h_turns]. apply filter_filter_id. intros t <-%String.eqb_eq.
  apply negb_true_iff, String.eqb_neq. done.
Qed.

Lemma delete_ok id st : history_ok st -> history_ok (delete_session_row id st).
Proof.
  intros Hok. split; cbn.
  - apply NoDup_map_filter, Hok.
  - apply NoDup_map_filter, Hok.
  - intros t [Ht Hne%negb_true_iff%String.eqb_neq]%elem_list_filter. pose proof (ho_owner st Hok t Ht) as (s & Hs & Hin)%list_elem_of_fmap.
    apply list_elem_of_fmap. exists s. split; [done|]. apply elem_list_filter. split; [done|]. apply negb_true_iff, String.eqb_neq. congruence.
  - intros s [Hs Hne%negb_true_iff%String.eqb_neq]%elem_list_filter. unfold counted. rewrite deleted_turns by done. by apply (ho_counts st Hok).
Qed.

Lemma import_turns_ok session_id turns : forall uuids st, history_ok st -> history_ok (import_turns session_id turns uuids st).1.
Proof.
  induction turns as [|t turns IH]; intros [|uuid uuids] st Hok; cbn [import_turns]; [done|done|done|].
  pose proof (append_ok (imported_turn session_id uuid t) st Hok) as H.
  destruct (append_session_turn _ st) as [st' [u|e]]; [by apply IH|done].
Qed.

(** ** Histories of operations *)

Inductive history_op :=
| OpCreate (uuid : string) (created updated : Z) (title : option string) (metadata : list (string * json)) (policy : context_policy)
| OpRecord (t : turn)
| OpUpdate (id : string) (now : Z) (title : option string) (metadata : option (list (string * json))) (policy : option context_policy)
    (merge : bool)
| OpDelete (id : string)
| OpImport (bundle : detail) (title : option string) (uuid : string) (turn_uuids : list string).

Definition run_op (privacy : bool) (o : history_op) (st : store) : store :=
  match o with
  | OpCreate uuid created updated title metadata policy => (create_session privacy uuid created updated title metadata policy st).1
  | OpRecord t => (record_turn privacy t st).1
  | OpUpdate id now title metadata policy merge => (update_session privacy id now title metadata policy merge st).1
  | OpDelete id => (delete_session privacy id st).1
  | OpImport bundle title uuid turn_uuids => (import_session privacy bundle title uuid turn_uuids st).1
  end.

(** A drawn session id is new. *)
Definition fresh_op (o : history_op) (st : store) : Prop :=
  match o with
  | OpCreate uuid _ _ _ _ _ | OpImport _ _ uuid _ => uuid ∉ map se_id (h_sessions st)
  | _ => True
  end.

Inductive history_of (privacy : bool) : store -> Prop :=
| history_start : history_of privacy no_history
| history_step st o : history_of privacy st -> fresh_op o st -> history_of privacy (run_op privacy o st).

Lemma get_detail_store privacy id st : (get_session_detail privacy id st).1 = st.
Proof. unfold get_session_detail, with_persistence, with_session. destruct privacy; [done|]. by destruct (find_session id st). Qed.

Lemma record_turn_store privacy t st : (record_turn privacy t st).1 = st \/ (record_turn privacy t st).1 = (append_session_turn t st).1.
Proof.
  unfold record_turn, with_persistence, with_session. destruct privacy; [by left|]. destruct (find_session _ _); [right|by left].
  destruct (append_session_turn t st) as [st' [u|e]]; [by rewrite get_detail_store|done].
Qed.

Lemma run_op_ok privacy o st : history_ok st -> fresh_op o st -> history_ok (run_op privacy o st).
Proof.
  intros Hok Hfresh. destruct o as [uuid created updated title metadata policy|t|id now title metadata policy merge|id|bundle title uuid uuids]; cbn [run_op].
  - unfold create_session, with_persistence. destruct privacy; [done|]. by apply new_session_ok.
  - destruct (record_turn_store privacy t st) as [->| ->]; [done|by apply append_ok].
  - unfold update_session, with_persistence, with_session. destruct privacy; [done|]. destruct (find_session id st) as [s|] eqn:Hs; [|done].
    destruct (find_session_elem _ _ _ Hs) as [Hin _].
    assert (H : history_ok (upsert_session (updated_session now title metadata policy merge s) st)) by by apply (changed_session_ok s).
    by destruct title, metadata, policy.
  - unfold delete_session, with_persistence, with_session. destruct privacy; [done|]. destruct (find_session id st); [by apply delete_ok|done].
  - unfold import_session, with_persistence. destruct privacy; [done|].
    pose proof (import_turns_ok uuid (sort_by turn_before (de_turns bundle)) uuids _
      (new_session_ok (imported_session bundle title uuid) st Hok Hfresh eq_refl eq_refl)) as H.
    destruct (import_turns _ _ _ _) as [st' [u|e]]; [by rewrite get_detail_store|done].
Qed.

Lemma history_of_ok privacy st : history_of privacy st -> history_ok st.
Proof. induction 1; [apply no_history_ok|by apply run_op_ok]. Qed.

Lemma message_total_perm l l' : l ≡ₚ l' -> message_total l = message_total l'.
Proof. induction 1; unfold message_total in *; cbn [foldr] in *; lia. Qed.

Lemma flatten_length turns : Z.of_nat (length (flatten_session_turns turns)) = message_total turns.
Proof.
  unfold flatten_session_turns. rewrite <- (message_total_perm _ _ (sort_by_perm turn_before turns)).
  induction (sort_by turn_before turns) as [|t l IH]; [done|]. cbn [map concat]. rewrite length_app, Nat2Z.inj_add, IH. done.
Qed.

(** C30.  After any operations, one at a time, whose session ids are drawn new: session and
    turn ids are unique, every turn belongs to a session, every session's row counts its
    turns and their messages exactly, and listing the messages gives as many. *)
Theorem history_counts_exact st :
  history_of false st ->
  history_ok st
  /\ forall s, s ∈ h_sessions st -> exists l, list_messages false (se_id s) st = (st, Ok l) /\ Z.of_nat (length l) = se_messages s.
Proof.
  intros Hst. pose proof (history_of_ok _ _ Hst) as Hok. split; [done|]. intros s Hs. destruct (ho_counts st Hok s Hs) as [_ Hm].
  unfold list_messages, get_session_detail, with_persistence, with_session.
  rewrite (find_session_unique (se_id s) st s) by (done || apply Hok). eexists. split; [done|].
  cbn [de_turns]. rewrite flatten_length, Hm. apply message_total_perm. apply sort_by_perm.
Qed.

(** An update is two transactions.  A turn that is recorded between them is kept, but the
    row is written back with the counts that were read before. *)
Lemma concurrent_update_loses_the_count now title s t st :
  history_ok st -> s ∈ h_sessions st -> tu_session t = se_id s -> tu_id t ∉ map tu_id (h_turns st) ->
  let read := find_session (se_id s) st in
  let st' := (append_session_turn t st).1 in
  let st'' := match read with Some s => upsert_session (updated_session now title None None true s) st' | None => st' end in
  exists s'', find_session (se_id s) st'' = Some s'' /\ se_turns s'' = Z.of_nat (length (turns_of (se_id s) st'')) - 1.
Proof.
  intros Hok Hs Ht Hn. cbn zeta. rewrite (find_session_unique (se_id s) st s) by (done || apply Hok).
  rewrite (append_spec t st s) by (try done; rewrite Ht; apply find_session_unique; done || apply Hok).
  cbn [fst]. set (s' := updated_session now title None None true s). exists s'.
  assert (Hin : se_id s ∈ map se_id (map (fun x => if has_id (tu_session t) x then add_turn t s else x) (h_sessions st))).
  { rewrite replaced_session_ids by done. apply list_elem_of_fmap. by exists s. }
  rewrite upsert_old by done. split.
  - unfold find_session. cbn [h_sessions set_field]. by apply find_replaced_same.
  - unfold turns_of. cbn. rewrite turns_of_app, Ht, String.eqb_refl, length_app. destruct (ho_counts st Hok s Hs) as [H _].
    change (se_turns s') with (se_turns s). cbn. lia.
Qed.

(** ** Export and import *)

(** A list that is in order is not changed by sorting. *)
Lemma sort_by_ordered {A} (lt : A -> A -> bool) l : StronglySorted (fun a b => lt b a = false) l -> sort_by lt l = l.
Proof.
  induction 1 as [|x l Hl IH Hx]; [done|]. unfold sort_by in *. cbn [foldr]. rewrite IH. destruct l as [|y l]; [done|].
  cbn [insert_by]. by rewrite (proj1 (proj1 (Forall_cons _ _ _) Hx)).
Qed.

Lemma turn_weak_order : weak_order turn_before (fun _ => True).
Proof.
  split; unfold turn_before.
  - intros a b _ _. rewrite (Z.eqb_sym (tu_created b)). destruct (Z.eqb_spec (tu_created a) (tu_created b)).
    + intros H. by apply (wo_asym _ _ (string_weak_order (fun _ => True) tu_id) a b).
    + rewrite Z.ltb_lt, Z.ltb_ge. lia.
  - intros a b c _ _ _. pose proof (wo_split _ _ (string_weak_order (fun _ => True) tu_id) a b c I I I) as Hid.
    destruct (Z.eqb_spec (tu_created a) (tu_created c)) as [Hac|], (Z.eqb_spec (tu_created a) (tu_created b)) as [Hab|],
      (Z.eqb_spec (tu_created b) (tu_created c)) as [Hbc|]; rewrite ?Z.ltb_lt; try lia; auto.
Qed.

(** Turns that keep their times and are in order without ties stay in order under any ids. *)
Definition same_time (t t' : turn) : Prop := tu_created t' = tu_created t.

Lemma Forall_related {A B} (R : A -> B -> Prop) (P : A -> Prop) (Q : B -> Prop) l l' :
  Forall2 R l l' -> Forall P l -> (forall a b, R a b -> P a -> Q b) -> Forall Q l'.
Proof. induction 1; intros HP HQ; [constructor|]. apply Forall_cons in HP as [? ?]. constructor; eauto. Qed.

Lemma retimed_ordered l l' :
  Forall2 same_time l l' -> NoDup (map tu_created l) ->
  StronglySorted (fun a b => turn_before b a = false) l -> StronglySorted (fun a b => turn_before b a = false) l'.
Proof.
  induction 1 as [|x y l l' Hxy Hl IH]; [done|]. cbn [map]. intros [Hx Hnd]%NoDup_cons [Hs Hall]%StronglySorted_inv.
  constructor; [by apply IH|]. apply (Forall_related same_time (fun a => a ∈ l /\ turn_before a x = false) _ l l' Hl).
  - apply Forall_forall. intros a Ha. split; [done|]. by apply (proj1 (Forall_forall _ _) Hall).
  - intros a b Hab [Ha Hlt]. assert (Hne : tu_created a <> tu_created x) by (intros He; apply Hx; rewrite <- He; by apply list_elem_of_fmap_2).
    unfold turn_before, same_time in *. rewrite Hab, Hxy. apply Z.eqb_neq in Hne. by rewrite Hne in *.
Qed.

(** Fields that an import leaves as they were. *)
Record same_turn (t t' : turn) : Prop := {
  st_kind : tu_kind t' = tu_kind t;
  st_input : tu_input t' = tu_input t;
  st_response : tu_response t' = tu_response t;
  st_requested : tu_requested_model t' = tu_requested_model t;
  st_model : tu_model t' = tu_model t;
  st_max_tokens : tu_max_tokens t' = tu_max_tokens t;
  st_temperature : tu_temperature t' = tu_temperature t;
  st_finish : tu_finish_reason t' = tu_finish_reason t;
  st_usage : tu_usage t' = tu_usage t;
  st_created : tu_created t' = tu_created t;
  st_origin : dget "imported_from_turn_id" (tu_metadata t') = Some (JStr (tu_id t))
}.

Definition imported_turns (session_id : string) (turns : list turn) (uuids : list string) : list turn :=
  zip_with (fun t uuid => imported_turn session_id uuid t) turns uuids.

Lemma imported_same session_id turns : forall uuids,
  length uuids = length turns -> Forall2 same_turn turns (imported_turns session_id turns uuids).
Proof.
  induction turns as [|t turns IH]; intros [|u uuids] Hlen; try done. cbn. constructor; [|apply IH; by injection Hlen].
  split; done || apply dget_dset_eq.
Qed.

Lemma imported_ids session_id turns : forall uuids, length uuids = length turns -> map tu_id (imported_turns session_id turns uuids) = uuids.
Proof. induction turns as [|t turns IH]; intros [|u uuids] Hlen; try done. cbn. f_equal. apply IH. by injection Hlen. Qed.

Lemma imported_filter id session_id turns : forall uuids,
  List.filter (fun t => tu_session t =? id)%string (imported_turns session_id turns uuids)
  = if (session_id =? id)%string then imported_turns session_id turns uuids else [].
Proof.
  induction turns as [|t turns IH]; intros [|u uuids]; try (by destruct (session_id =? id)%string). unfold imported_turns in *. cbn [zip_with List.filter].
  rewrite IH. cbn [tu_session imported_turn set_field]. by destruct (session_id =? id)%string.
Qed.

(** Fields of a session that appending turns leaves alone. *)
Definition same_session (s s' : session) : Prop :=
  se_id s' = se_id s /\ se_title s' = se_title s /\ se_policy s' = se_policy s /\ se_metadata s' = se_metadata s /\ se_created s' = se_created s.

Lemma import_turns_spec session_id turns : forall uuids st s,
  length uuids = length turns -> NoDup uuids -> (forall u, u ∈ uuids -> u ∉ map tu_id (h_turns st)) -> find_session session_id st = Some s ->
  exists st' s', import_turns session_id turns uuids st = (st', Ok ())
    /\ h_turns st' = h_turns st ++ imported_turns session_id turns uuids
    /\ find_session session_id st' = Some s' /\ same_session s s'
    /\ forall id, id <> session_id -> find_session id st' = find_session id st.
Proof.
  induction turns as [|t turns IH]; intros [|u uuids] st s Hlen Hnd Hfresh Hs; try done.
  - exists st, s. by rewrite app_nil_r.
  - apply NoDup_cons in Hnd as [Hu Hnd]. cbn [import_turns]. set (t' := imported_turn session_id u t).
    rewrite (append_spec t' st s Hs (Hfresh u (list_elem_of_here _ _))). set (st1 := {| h_sessions := _; h_turns := _ |}).
    destruct (find_session_elem _ _ _ Hs) as [Hin Hid].
    assert (Hmem : session_id ∈ map se_id (h_sessions st)) by (rewrite <- Hid; by apply list_elem_of_fmap_2).
    destruct (IH uuids st1 (add_turn t' s)) as (st' & s' & H1 & H2 & H3 & H4 & H5).
    + by injection Hlen.
    + done.
    + intros x Hx. cbn [h_turns st1]. rewrite map_app. intros [Hx'| ->%list_elem_of_singleton]%elem_of_app; [|done].
      by apply (Hfresh x (list_elem_of_further _ _ _ Hx)).
    + by apply find_replaced_same.
    + exists st', s'. split; [done|]. rewrite H2. cbn [h_turns st1]. split; [by rewrite <- app_assoc|]. split; [done|]. split; [exact H4|].
      intros id Hne. rewrite H5 by done. by apply find_replaced_other.
Qed.

Lemma find_snoc id s l : has_id id s = false -> List.find (has_id id) (l ++ [s]) = List.find (has_id id) l.
Proof. intros Hs. induction l as [|x l IH]; cbn; [by rewrite Hs|]. by rewrite IH. Qed.

(** What an import finds when it reads the session back. *)
Lemma import_spec bundle title uuid uuids st :
  history_ok st -> uuid ∉ map se_id (h_sessions st) -> length uuids = length (de_turns bundle) -> NoDup uuids ->
  (forall u, u ∈ uuids -> u ∉ map tu_id (h_turns st)) -> NoDup (map tu_created (de_turns bundle)) ->
  let turns := sort_by turn_before (de_turns bundle) in
  exists st' s', import_session false bundle title uuid uuids st = (st', Ok {| de_session := s'; de_turns := imported_turns uuid turns uuids |})
    /\ same_session (imported_session bundle title uuid) s' /\ history_ok st'
    /\ forall id, id <> uuid -> find_session id st' = find_session id st /\ turns_of id st' = turns_of id st.
Proof.
  intros Hok Hn Hlen Hnd Hfresh Htimes turns. set (s0 := imported_session bundle title uuid).
  assert (Hlen' : length uuids = length turns) by (rewrite Hlen; unfold turns; by rewrite sort_by_perm).
  pose proof (upsert_new s0 st Hn) as Hup. pose proof (new_session_ok s0 st Hok Hn eq_refl eq_refl) as Hok0.
  assert (Hs0 : find_session uuid (upsert_session s0 st) = Some s0).
  { apply find_session_unique; [apply Hok0| |done]. rewrite Hup. cbn. apply elem_of_app. right. by left. }
  destruct (import_turns_spec uuid turns uuids (upsert_session s0 st) s0 Hlen' Hnd) as (st' & s' & H1 & H2 & H3 & H4 & H5);
    [by rewrite Hup|done|].
  assert (Hturns : forall id, turns_of id st' = turns_of id st ++ if (uuid =? id)%string then imported_turns uuid turns uuids else []).
  { intros id. unfold turns_of. rewrite H2, List.filter_app, imported_filter, Hup. done. }
  exists st', s'. split_and!; [|done| |].
  - unfold import_session, with_persistence. fold s0 turns. rewrite H1. unfold get_session_detail, with_persistence, with_session.
    rewrite H3. do 3 f_equal. unfold list_session_turns. fold (turns_of uuid st'). rewrite Hturns, no_turns_of, String.eqb_refl by done.
    apply sort_by_ordered, (retimed_ordered turns).
    + eapply Forall2_impl; [by apply imported_same|]. intros t t' Ht. apply (st_created _ _ Ht).
    + unfold turns. rewrite (Permutation_map tu_created (sort_by_perm turn_before (de_turns bundle))). done.
    + apply (sort_by_in_order turn_before (fun _ => True) turn_weak_order). by apply Forall_forall.
  - pose proof (import_turns_ok uuid turns uuids _ Hok0) as H. by rewrite H1 in H.
  - intros id Hne. split.
    + rewrite H5, Hup by done. apply find_snoc. by apply String.eqb_neq.
    + rewrite Hturns, (proj2 (String.eqb_neq uuid id)) by done. apply app_nil_r.
Qed.

Notation in_time := (StronglySorted (fun a b => turn_before b a = false)).

Lemma flatten_in_time l : in_time l -> flatten_session_turns l = concat (map turn_messages l).
Proof. intros Hl. unfold flatten_session_turns. by rewrite sort_by_ordered. Qed.

Lemma in_time_drop n l : in_time l -> in_time (drop n l).
Proof.
  revert l. induction n as [|n IH]; intros l Hl; [done|]. destruct l as [|x l]; [done|]. apply StronglySorted_inv in Hl as [Hl _]. by apply IH.
Qed.

Lemma sorted_in_time l : in_time (sort_by turn_before l).
Proof. apply (sort_by_in_order turn_before (fun _ => True) turn_weak_order). by apply Forall_forall. Qed.

Lemma same_messages l l' : Forall2 same_turn l l' -> map turn_messages l' = map turn_messages l.
Proof. induction 1 as [|t t' l l' Ht Hl IH]; [done|]. cbn [map]. unfold turn_messages at 1 3. by rewrite (st_input _ _ Ht), (st_response _ _ Ht), IH. Qed.

Lemma same_flatten l l' : Forall2 same_turn l l' -> in_time l -> in_time l' -> flatten_session_turns l' = flatten_session_turns l.
Proof. intros Hl H H'. by rewrite !flatten_in_time, (same_messages l l') by done. Qed.

Lemma same_summary_line format_g i t t' : same_turn t t' -> summary_line format_g i t' = summary_line format_g i t.
Proof. intros []. unfold summary_line. congruence. Qed.

Lemma imap_related {A B C} (R : A -> B -> Prop) l l' : Forall2 R l l' -> forall (f : nat -> A -> C) (g : nat -> B -> C),
  (forall i a b, R a b -> g i b = f i a) -> imap g l' = imap f l.
Proof.
  induction 1 as [|a b l l' Hab Hl IH]; intros f g Hfg; [done|]. rewrite !imap_cons. f_equal; [by apply Hfg|].
  apply IH. intros i x y. apply Hfg.
Qed.

(** Turns that agree but for their ids give the same context. *)
Lemma same_context format_g s s' l l' :
  se_policy s' = se_policy s -> session_name s' = session_name s -> Forall2 same_turn (sort_by turn_before l) (sort_by turn_before l') ->
  build_context_messages format_g {| de_session := s'; de_turns := l' |} = build_context_messages format_g {| de_session := s; de_turns := l |}.
Proof.
  intros Hp Hn Hl. pose proof (sorted_in_time l) as Ht. pose proof (sorted_in_time l') as Ht'.
  unfold build_context_messages. cbn [de_session de_turns]. rewrite Hp.
  set (t := sort_by turn_before l) in *. set (t' := sort_by turn_before l') in *. pose proof (Forall2_length _ _ _ Hl) as Hlen.
  assert (Hlast : flatten_session_turns (drop (length t' - 1) t') = flatten_session_turns (drop (length t - 1) t)).
  { rewrite <- Hlen. apply same_flatten; [by apply Forall2_drop|by apply in_time_drop..]. }
  destruct (se_policy s); [by apply same_flatten|done|].
  unfold summary_and_last_turn_messages. rewrite <- Hlen, Hn. destruct (length t <=? 1)%nat; [by apply same_flatten|].
  assert (Hsum : imap (fun i t => summary_line format_g (S i) t) (take (length t - 1) t') = imap (fun i t => summary_line format_g (S i) t) (take (length t - 1) t)).
  { apply (imap_related same_turn); [by apply Forall2_take|]. intros i a b. apply same_summary_line. }
  rewrite <- Hlen in Hlast. by rewrite Hlast, Hsum, !length_take, <- Hlen.
Qed.

(** The name of the session is in the summary of several turns only. *)
Lemma same_context_unnamed format_g s s' l l' :
  se_policy s' = se_policy s -> se_policy s <> SummaryAndLastTurn \/ (length l <= 1)%nat ->
  Forall2 same_turn (sort_by turn_before l) (sort_by turn_before l') ->
  build_context_messages format_g {| de_session := s'; de_turns := l' |} = build_context_messages format_g {| de_session := s; de_turns := l |}.
Proof.
  intros Hp Hu Hl.
  rewrite <- (same_context format_g s (s <| se_policy := se_policy s' |>) l l') by done.
  unfold build_context_messages, summary_and_last_turn_messages. cbn [de_session de_turns].
  change (se_policy (s <| se_policy := se_policy s' |>)) with (se_policy s'). destruct Hu as [Hu|Hu].
  - rewrite Hp. by destruct (se_policy s).
  - assert (Hn : (length (sort_by turn_before l') <= 1)%nat) by (rewrite <- (Forall2_length _ _ _ Hl); by rewrite sort_by_perm).
    by rewrite (proj2 (Nat.leb_le _ _) Hn).
Qed.

Lemma listed_counts id st s : history_ok st -> s ∈ h_sessions st -> se_id s = id ->
  se_turns s = Z.of_nat (length (list_session_turns id st))
  /\ se_messages s = Z.of_nat (length (flatten_session_turns (list_session_turns id st))).
Proof.
  intros Hok Hs <-. destruct (ho_counts st Hok s Hs) as [-> ->]. unfold list_session_turns. fold (turns_of (se_id s) st). split.
  - by rewrite sort_by_perm.
  - rewrite flatten_length. symmetry. apply message_total_perm, sort_by_perm.
Qed.

(** The exported session under the id and the title it is imported with. *)
Definition renamed (uuid : string) (title : option string) (bundle : detail) : detail :=
  {| de_session := (de_session bundle) <| se_id := uuid |> <| se_title := title_or title (se_title (de_session bundle)) |>;
     de_turns := de_turns bundle |}.

(** C31.  Importing an exported session gives the same conversation: where the turns have
    distinct times and the drawn ids are new, the import succeeds, and what it reads back
    has the title that was asked for, or else the exported one, the policy and counts of
    the session exported, its turns in order with nothing but ids changed and their origin
    noted, and the same messages.  The context for the model is the one of the exported
    session under its new id and title; so it is the same unless it is a summary of several
    turns, which names the session, and the name changed.  No other session of the
    importing store changes. *)
Theorem import_preserves_the_conversation from id bundle title uuid uuids st :
  history_ok from -> export_session false id from = (from, Ok bundle) ->
  history_ok st -> uuid ∉ map se_id (h_sessions st) -> length uuids = length (de_turns bundle) -> NoDup uuids ->
  (forall u, u ∈ uuids -> u ∉ map tu_id (h_turns st)) -> NoDup (map tu_created (de_turns bundle)) ->
  exists st' d, import_session false bundle title uuid uuids st = (st', Ok d) /\ history_ok st'
    /\ se_title (de_session d) = title_or title (se_title (de_session bundle))
    /\ se_policy (de_session d) = se_policy (de_session bundle)
    /\ se_messages (de_session d) = se_messages (de_session bundle) /\ se_turns (de_session d) = se_turns (de_session bundle)
    /\ Forall2 same_turn (de_turns bundle) (de_turns d)
    /\ flatten_session_turns (de_turns d) = flatten_session_turns (de_turns bundle)
    /\ (forall format_g, build_context_messages format_g d = build_context_messages format_g (renamed uuid title bundle))
    /\ (se_policy (de_session bundle) <> SummaryAndLastTurn \/ (length (de_turns bundle) <= 1)%nat
          \/ session_name (de_session d) = session_name (de_session bundle) ->
        forall format_g, build_context_messages format_g d = build_context_messages format_g bundle)
    /\ forall other, other <> uuid -> find_session other st' = find_session other st /\ turns_of other st' = turns_of other st.
Proof.
  intros Hfrom Hexp Hok Hn Hlen Hnd Hfresh Htimes.
  unfold export_session, get_session_detail, with_persistence, with_session in Hexp.
  destruct (find_session id from) as [s|] eqn:Hs; [|done]. injection Hexp as <-. destruct (find_session_elem _ _ _ Hs) as [Hin Hid].
  destruct (import_spec _ title uuid uuids st Hok Hn Hlen Hnd Hfresh Htimes) as (st' & s' & Himp & (Hsid & Htitle & Hpol & _) & Hok' & Hothers).
  cbn zeta in *. cbn [de_session de_turns] in *. set (turns := list_session_turns id from) in *.
  assert (Hsorted : sort_by turn_before turns = turns) by apply sort_by_ordered, sorted_in_time. rewrite Hsorted in Himp.
  pose proof (imported_same uuid turns uuids Hlen) as Hsame. set (new := imported_turns uuid turns uuids) in *.
  assert (Hnew : in_time new).
  { apply (retimed_ordered turns new); [|done|apply sorted_in_time]. eapply Forall2_impl; [exact Hsame|]. intros t t' Ht. apply (st_created _ _ Ht). }
  assert (Hread : get_session_detail false uuid st' = (st', Ok {| de_session := s'; de_turns := new |})).
  { unfold import_session, with_persistence in Himp. destruct (import_turns _ _ _ _) as [st1 [u|e]]; [|done].
    pose proof (get_detail_store false uuid st1) as Hst. rewrite Himp in Hst. cbn in Hst. by subst st1. }
  assert (Hcount : se_turns s' = se_turns s /\ se_messages s' = se_messages s).
  { unfold get_session_detail, with_persistence, with_session in Hread. destruct (find_session uuid st') as [x|] eqn:Hx; [|done].
    injection Hread as -> Hlist. destruct (find_session_elem _ _ _ Hx) as [Hin' Hid'].
    destruct (listed_counts uuid st' s' Hok' Hin' Hid') as [-> ->], (listed_counts id from s Hfrom Hin Hid) as [-> ->].
    rewrite Hlist. fold turns. by rewrite (same_flatten turns new Hsame (sorted_in_time _) Hnew), (Forall2_length _ _ _ Hsame). }
  exists st', {| de_session := s'; de_turns := new |}. cbn [de_session de_turns].
  assert (Hsorted2 : Forall2 same_turn (sort_by turn_before turns) (sort_by turn_before new))
    by by rewrite Hsorted, (sort_by_ordered turn_before new).
  split_and!; [done..|apply Hcount|apply Hcount|done| | | |done].
  - apply same_flatten; [done|apply sorted_in_time|done].
  - intros format_g. apply same_context; [done| |done]. unfold renamed, session_name. cbn. by rewrite Htitle, Hsid.
  - intros Hcase format_g. destruct Hcase as [Hpolicy|Hname].
    + apply same_context_unnamed; [done|by left|done].
    + destruct Hname as [Hshort|Hname]; [apply same_context_unnamed; [done|by right|done]|by apply same_context].
Qed.

(** With privacy mode on nothing is read or written. *)
Lemma privacy_mode_keeps_the_store o st : run_op true o st = st.
Proof. by destruct o. Qed.

(** ** Examples *)

Definition say (role content : string) : message :=
  {| ms_role := role; ms_content := content; ms_attachments := []; ms_tool_call_id := None; ms_tool_calls := None |}.

Definition sample_turn (id session question answer : string) (now : Z) : turn :=
  {| tu_id := id; tu_session := session; tu_kind := CliChat; tu_input := [say "user" question]; tu_response := say "assistant" answer;
     tu_requested_model := None; tu_model := "base"; tu_max_tokens := 64; tu_temperature := fzero; tu_finish_reason := "stop"; tu_usage := [];
     tu_metadata := []; tu_created := now |}.

Definition sample_store : store :=
  run_op false (OpRecord (sample_turn "t2" "s1" "and  then?" "the end" 3))
    (run_op false (OpRecord (sample_turn "t1" "s1" "hello" "hi" 2))
      (run_op false (OpCreate "s1" 1 1 (Some "Talk") [] SummaryAndLastTurn) no_history)).

Lemma sample_history : history_of false sample_store.
Proof. unfold sample_store. repeat (apply history_step; [|by try (apply not_elem_of_nil)]). apply history_start. Qed.

Lemma history_counts_exact_witness :
  exists l, list_messages false "s1" sample_store = (sample_store, Ok l) /\ Z.of_nat (length l) = 4.
Proof.
  refine (proj2 (history_counts_exact sample_store sample_history) _ (list_elem_of_here _ [])).
Defined.

Definition sample_bundle : detail :=
  {| de_session := default {| se_id := ""; se_title := None; se_policy := FullHistory; se_metadata := []; se_messages := 0; se_turns := 0;
                              se_created := 0; se_updated := 0 |} (find_session "s1" sample_store);
     de_turns := list_session_turns "s1" sample_store |}.

Lemma import_preserves_the_conversation_witness :
  exists st' d, import_session false sample_bundle None "s2" ["u1"; "u2"] no_history = (st', Ok d)
    /\ flatten_session_turns (de_turns d) = [say "user" "hello"; say "assistant" "hi"; say "user" "and  then?"; say "assistant" "the end"].
Proof.
  destruct (import_preserves_the_conversation sample_store "s1" sample_bundle None "s2" ["u1"; "u2"] no_history) as (st' & d & H);
    [exact (history_of_ok _ _ sample_history)|vm_compute; reflexivity|exact no_history_ok|apply not_elem_of_nil|reflexivity
    |by apply (bool_decide_unpack _)|intros u _; apply not_elem_of_nil|by apply (bool_decide_unpack _)|].
  exists st', d. destruct H as (H1 & _ & _ & _ & _ & _ & _ & H2 & _). split; [exact H1|]. rewrite H2. vm_compute. reflexivity.
Defined.

(** The context of the sample session: a note on the first turn, then the last one. *)
Example sample_context :
  map ms_content (build_context_messages (fun _ => "0") sample_bundle)
  = ["Session summary for Talk." +:+ newline
     +:+ "Compacted 1 earlier turn(s) into this note; keep the latest turn verbatim below." +:+ newline
     +:+ "1. cli.chat via base (max_tokens=64, temperature=0) | user=user: hello | assistant=hi"; "and  then?"; "the end"].
Proof. vm_compute. reflexivity. Qed.

(** Turns of one time are ordered by their ids, and the import draws new ones: without
    distinct times the imported conversation may be in another order. *)
Lemma import_reorders_turns_of_one_time :
  let bundle := {| de_session := de_session sample_bundle;
                   de_turns := [sample_turn "t1" "s1" "hello" "hi" 2; sample_turn "t2" "s1" "bye" "ciao" 2] |} in
  map ms_content (flatten_session_turns (de_turns bundle)) = ["hello"; "hi"; "bye"; "ciao"]
  /\ exists st' d, import_session false bundle None "s2" ["u2"; "u1"] no_history = (st', Ok d)
       /\ map ms_content (flatten_session_turns (de_turns d)) = ["bye"; "ciao"; "hello"; "hi"].
Proof.
  split; [vm_compute; reflexivity|]. eexists _, _. split; [vm_compute; reflexivity|vm_compute; reflexivity].
Qed.
