(* ===== verification/Speculation.v ===== *)
(** Speculative decoding plans: src/src/lewlm/core/speculation.py.

    A plan is chosen from the settings, the manifests of the registry and what the
    runtime says of itself (its snapshot, if it has one).  Of a message only the content
    is read.  Reasons are constructors; the prose of a selection is left out.
    [importlib.util.find_spec] is a parameter that can raise ([None]).  Strings are
    ASCII; sizes are within the range of floats. *)

From Stdlib Require Import Sorted.
From S2P Require Import Prelude PyFloat PyString Json PySort Manifest Routing.

Open Scope Z_scope.

(** ** Modes *)

Inductive spec_mode :=
  DraftModel | PromptLookup | Medusa | Eagle | Hydra | Dflash | SelfSpeculative | SuffixDecoding | HeterogeneousVocab.

#[export] Instance spec_mode_eq_dec : EqDecision spec_mode.
Proof. solve_decision. Defined.

Definition mode_value (m : spec_mode) : string :=
  match m with
  | DraftModel => "draft_model" | PromptLookup => "prompt_lookup" | Medusa => "medusa" | Eagle => "eagle" | Hydra => "hydra"
  | Dflash => "dflash" | SelfSpeculative => "self_speculative" | SuffixDecoding => "suffix_decoding"
  | HeterogeneousVocab => "heterogeneous_vocab"
  end.

Definition all_modes : list spec_mode :=
  [DraftModel; PromptLookup; Medusa; Eagle; Hydra; Dflash; SelfSpeculative; SuffixDecoding; HeterogeneousVocab].

(** [_DEFAULT_MODE_PRIORITY]: every mode has one. *)
Definition mode_priority (m : spec_mode) : Z :=
  match m with
  | Medusa => 0 | Eagle => 1 | Hydra => 2 | Dflash => 3 | SelfSpeculative => 4 | SuffixDecoding => 5 | HeterogeneousVocab => 6
  | DraftModel => 7 | PromptLookup => 8
  end.

(** [_MODE_ALIASES]. *)
Definition mode_aliases : list (string * spec_mode) :=
  [("self_speculation", SelfSpeculative); ("self_speculative_decoding", SelfSpeculative); ("suffix", SuffixDecoding);
   ("suffix_decoder", SuffixDecoding); ("heterogeneous_vocab_draft", HeterogeneousVocab);
   ("heterogeneous_vocabulary", HeterogeneousVocab); ("heterogeneous_vocabulary_draft", HeterogeneousVocab);
   ("swift", HeterogeneousVocab)].

(** [_coerce_mode]. *)
Definition coerce_mode (v : json) : option spec_mode :=
  match v with
  | JStr s =>
      let normalized := casefold (strip s) in
      match dget normalized mode_aliases with
      | Some m => Some m
      | None => List.find (fun m => mode_value m =? normalized)%string all_modes
      end
  | _ => None
  end.

(** ** Numbers of metadata *)

(** What can be raised: by [int] of a float that is not finite, by [find_spec], and by
    an explicit draft model that cannot be used. *)
Inductive spec_error := NotFinite | NoParentModule (name : string) | DraftNotFound (id : string) | DraftIsPrimary (id : string) | DraftUnfit (id : string).

(** [_coerce_int] and [_coerce_optional_int]. *)
Definition coerce_int (v : json) : result spec_error Z :=
  match v with
  | JBool b => Ok (if b then 1 else 0)
  | JInt n => Ok n
  | JFloat x => match f_trunc x with Some n => Ok n | None => Err NotFinite end
  | JStr s => Ok (default 0 (int_of_string s))
  | _ => Ok 0
  end.

Definition coerce_optional_int (v : json) : result spec_error (option Z) :=
  let? n := coerce_int v in Ok (if 0 <? n then Some n else None).

Definition coerce_optional_string (v : json) : option string :=
  match v with JStr s => if (s =? "")%string then None else Some s | _ => None end.

(** ** The workload *)

(** [_estimate_text_tokens] and [_estimate_chat_context_tokens]. *)
Definition text_tokens (text : string) : Z :=
  let n := Z.of_nat (String.length (strip text)) in if n =? 0 then 0 else Z.max 1 (- ((- n) / 4)).

Definition chat_context_tokens (contents : list string) (max_tokens : Z) : Z :=
  foldr Z.add 0 (map text_tokens contents) + Z.max 0 max_tokens.

Definition contains (text token : string) : bool := match String.index 0 token text with Some _ => true | None => false end.

(** [_classify_chat_speculation_workload]. *)
Definition classify_workload (contents : list string) (context_tokens : Z) : string :=
  let text := casefold (String.concat (String (Ascii.ascii_of_nat 10) "") contents) in
  if 4096 <=? context_tokens then "long_context"
  else if existsb (contains text) ["```"; "def "; "class "; "function "; "traceback"; "stack trace"; "bug"; "refactor"; "pytest"; "regex";
                                   "algorithm"; "sql"] then "coding"
  else if existsb (contains text) ["json"; "schema"; "csv"; "yaml"; "table"; "structured"] then "structured"
  else if existsb (contains text) ["tool"; "repository"; "repo"; "file"; "plan"; "step by step"; "agent"] then "agentic"
  else "general_chat".

Definition chat_speculation_workload_class (contents : list string) (max_tokens : Z) : string :=
  classify_workload contents (chat_context_tokens contents max_tokens).

(** [speculation_benchmark_preference_key]. *)
Definition preference_key (model_id runtime_name : string) (workload : option string) : string :=
  let base := "speculation.preference::" +:+ runtime_name +:+ "::" +:+ model_id in
  if truthy workload then base +:+ "::" +:+ default "" workload else base.

(** ** Candidates *)

(** [GenerateSpeculation]. *)
Record speculation := {
  sc_mode : spec_mode;
  sc_draft : option string;
  sc_companion : option string;
  sc_draft_tokens : option Z;
  sc_ngram : option Z;
  sc_pred_tokens : option Z;
  sc_parameters : list (string * json);
  sc_auto : bool
}.

(** [PlannedSpeculation]. *)
Record planned := {
  pn_request : speculation;
  pn_draft : option manifest;
  pn_companions : list manifest;
  pn_preferred : bool
}.

#[export] Instance planned_eta : Eta planned := fun p => Build_planned (pn_request p) (pn_draft p) (pn_companions p) (pn_preferred p).

Inductive reject_reason :=
| BackendWithoutMode | NoDraft | UnknownMode (v : json) | ModeDisabled | OtherRuntime | NoHook | ModulesMissing | NoBackendParameter
| CompanionNotFound | CompanionIsPrimary | CompanionNotRunnable | CompanionAffinity | CompanionContext.

Record rejected := { rj_mode : option spec_mode; rj_reason : reject_reason; rj_metadata : bool }.

Record inspection := { in_candidates : list planned; in_rejected : list rejected; in_workload : string }.

Record spec_settings := {
  sp_decoding : bool;
  sp_draft_id : option string;
  sp_draft_tokens : Z;
  sp_lookup : bool;
  sp_ngram : Z;
  sp_pred_tokens : Z
}.

(** [_settings_allow_mode]. *)
Definition settings_allow_mode (st : spec_settings) (m : spec_mode) : bool :=
  match m with PromptLookup => sp_lookup st | _ => sp_decoding st end.

(** [_runtime_supported_speculation_modes] of the runtime's snapshot. *)
Definition runtime_supported_modes (snapshot : option json) : option (list spec_mode) :=
  match snapshot with
  | Some (JObj d) =>
      let supported e := bool_decide (dget "supported" e = Some (JBool true)) in
      match dget "speculative_decoding" d, dget "prompt_lookup_speculation" d with
      | Some (JObj e), lookup =>
          let modes := if supported e then match dget "modes" e with Some (JArr l) => omap coerce_mode l | _ => [] end else [] in
          Some (modes ++ match lookup with Some (JObj e) => if supported e then [PromptLookup] else [] | _ => [] end)
      | _, Some (JObj e) => Some (if supported e then [PromptLookup] else [])
      | _, _ => None
      end
  | _ => None
  end.

(** Whether the runtime is known not to have the mode. *)
Definition lacks_mode (modes : option (list spec_mode)) (m : spec_mode) : bool :=
  match modes with Some l => negb (member m l) | None => false end.

Definition context_fits (m : manifest) (context_tokens : Z) : bool :=
  match mf_context m with Some n => negb (n <? context_tokens) | None => true end.

(** [_is_mlx_draft_candidate]. *)
Definition is_mlx_draft_candidate (draft primary : manifest) (context_tokens : Z) : bool :=
  bool_decide (mf_status draft = Runnable) && bool_decide (mf_format draft = FormatMlx) && member MlxText (mf_affinity draft)
  && any_modality [Text; Multimodal] draft && context_fits draft context_tokens && bool_decide (mf_format primary = FormatMlx).

(** The key by which drafts are sorted, compared part by part. *)
Definition draft_family (primary m : manifest) : Z := if (mf_family m =? mf_family primary)%string then 0 else 1.
Definition draft_smaller (primary m : manifest) : Z :=
  match mf_memory primary, mf_memory m with Some p, Some n => if n <? p then 0 else 1 | _, _ => 1 end.
Definition draft_memory (m : manifest) : Z := default 1000000000 (mf_memory m).

Definition int_before {A} (f : A -> Z) (rest : A -> A -> bool) : A -> A -> bool :=
  lexicographic (fun a b => f a =? f b) (fun a b => f a <? f b) rest.

Definition draft_before (primary : manifest) : manifest -> manifest -> bool :=
  int_before (draft_family primary) (int_before (draft_smaller primary) (int_before draft_memory (fun a b => String.ltb (mf_id a) (mf_id b)))).

Definition draft_candidates (manifests : list manifest) (primary : manifest) (context_tokens : Z) : list manifest :=
  List.filter (fun m => negb (mf_id m =? mf_id primary)%string && is_mlx_draft_candidate m primary context_tokens) manifests.

(** [_resolve_mlx_draft_manifest], with [_validate_mlx_draft_candidate] for an explicit
    one: the draft and whether it was chosen. *)
Definition resolve_mlx_draft_manifest (manifests : list manifest) (st : spec_settings) (primary : manifest) (context_tokens : Z)
    : result spec_error (option manifest * bool) :=
  match sp_draft_id st with
  | Some id =>
      if (id =? "")%string then
        Ok (match sort_by (draft_before primary) (draft_candidates manifests primary context_tokens) with m :: _ => (Some m, true) | [] => (None, false) end)
      else
        match get_manifest manifests id with
        | None => Err (DraftNotFound id)
        | Some m =>
            if (mf_id m =? mf_id primary)%string then Err (DraftIsPrimary (mf_id m))
            else if is_mlx_draft_candidate m primary context_tokens then Ok (Some m, false) else Err (DraftUnfit (mf_id m))
        end
  | None =>
      Ok (match sort_by (draft_before primary) (draft_candidates manifests primary context_tokens) with m :: _ => (Some m, true) | [] => (None, false) end)
  end.

(** [_plan_mlx_draft_candidate]. *)
Definition plan_mlx_draft_candidate (manifests : list manifest) (st : spec_settings) (primary : manifest) (runtime : affinity) (context_tokens : Z)
    : result spec_error (option planned) :=
  if negb (bool_decide (runtime = MlxText)) || negb (sp_decoding st) then Ok None
  else
    let? (draft, auto) := resolve_mlx_draft_manifest manifests st primary context_tokens in
    Ok (match draft with
        | None => None
        | Some m =>
            Some {| pn_request := {| sc_mode := DraftModel; sc_draft := Some (mf_id m); sc_companion := Some (mf_id m);
                                     sc_draft_tokens := Some (sp_draft_tokens st); sc_ngram := None; sc_pred_tokens := None;
                                     sc_parameters := []; sc_auto := auto |};
                    pn_draft := Some m; pn_companions := [m]; pn_preferred := false |}
        end).

(** [_plan_prompt_lookup_candidate]. *)
Definition plan_prompt_lookup_candidate (st : spec_settings) (runtime : affinity) : option planned :=
  if negb (bool_decide (runtime = LlamaCpp)) || negb (sp_lookup st) then None
  else Some {| pn_request := {| sc_mode := PromptLookup; sc_draft := None; sc_companion := None; sc_draft_tokens := None;
                                sc_ngram := Some (sp_ngram st); sc_pred_tokens := Some (sp_pred_tokens st); sc_parameters := []; sc_auto := false |};
               pn_draft := None; pn_companions := []; pn_preferred := false |}.

(** ** Candidates of the model's metadata *)

Definition entry : Type := list (string * json).

(** [_normalize_frontier_entries]. *)
Definition normalize_entries (raw : json) : list entry :=
  match raw with
  | JObj d => map (fun x => match x.2 with JObj v => dmerge [("mode", JStr x.1)] v | _ => [("mode", JStr x.1)] end) d
  | JArr l => omap (fun v => match v with JStr s => Some [("mode", JStr s)] | JObj d => Some d | _ => None end) l
  | _ => []
  end.

Definition eget (key : string) (e : entry) : json := default JNull (dget key e).

(** [_normalize_parameter_mapping]. *)
Definition normalize_parameters (raw : json) : list (string * json) :=
  match raw with
  | JObj d => List.filter (fun x => negb (x.1 =? "")%string && match x.2 with JArr _ | JObj _ => false | _ => true end) d
  | _ => []
  end.

(** [_validate_frontier_companion_candidate]: the reason why not. *)
Definition companion_unfit (m primary : manifest) (runtime : affinity) (context_tokens : Z) : option reject_reason :=
  if (mf_id m =? mf_id primary)%string then Some CompanionIsPrimary
  else if negb (bool_decide (mf_status m = Runnable)) then Some CompanionNotRunnable
  else if negb (member runtime (mf_affinity m)) then Some CompanionAffinity
  else if negb (context_fits m context_tokens) then Some CompanionContext
  else None.

Section planning.
Context (py_str : json -> string).
(** [find_spec]: whether the module is found; [None] if its parent package is not. *)
Context (find_spec : string -> option bool).

(** [_entry_runtime_matches]. *)
Definition entry_runtime_matches (e : entry) (runtime : affinity) : bool :=
  match eget "runtime_affinity" e with
  | JStr s => (s =? affinity_value runtime)%string
  | JArr l => existsb (fun v => (match v with JStr s => s | v => py_str v end =? affinity_value runtime)%string) l
  | _ => true
  end.

(** [_entry_modules_available]: the modules are looked for until one is missing. *)
Fixpoint modules_available (names : list string) : result spec_error bool :=
  match names with
  | [] => Ok true
  | name :: names =>
      match find_spec name with
      | None => Err (NoParentModule name)
      | Some found => if found then modules_available names else Ok false
      end
  end.

Definition required_modules (e : entry) : list string :=
  match eget "required_module" e with JStr s => if (s =? "")%string then [] else [s] | _ => [] end
  ++ match eget "required_modules" e with
     | JArr l => omap (fun v => match v with JStr s => if (s =? "")%string then None else Some s | _ => None end) l
     | _ => []
     end.

Section model.
Context (manifests : list manifest) (st : spec_settings) (primary : manifest) (runtime : affinity) (context_tokens : Z).
Context (modes : option (list spec_mode)).

Definition companion_of (e : entry) : option string :=
  coerce_optional_string (match dget "companion_model_id" e with Some v => v | None => eget "draft_model_id" e end).

Definition resolve_companion (id : option string) : option manifest + reject_reason :=
  match id with
  | None => inl None
  | Some id =>
      match get_manifest manifests id with
      | None => inr CompanionNotFound
      | Some m => match companion_unfit m primary runtime context_tokens with Some reason => inr reason | None => inl (Some m) end
      end
  end.

(** One entry of the loop: nothing, a candidate or a rejection.  The fields of prompt
    lookup are set for a mode that does not get this far. *)
Definition plan_entry (e : entry) : result spec_error (option (planned + rejected)) :=
  match coerce_mode (eget "mode" e) with
  | None => Ok (Some (inr {| rj_mode := None; rj_reason := UnknownMode (eget "mode" e); rj_metadata := true |}))
  | Some m =>
      let reject reason := Ok (Some (inr {| rj_mode := Some m; rj_reason := reason; rj_metadata := true |})) in
      if member m [DraftModel; PromptLookup] then Ok None
      else if negb (settings_allow_mode st m) then reject ModeDisabled
      else if negb (entry_runtime_matches e runtime) then reject OtherRuntime
      else if lacks_mode modes m then reject NoHook
      else
        let? available := modules_available (required_modules e) in
        if negb available then reject ModulesMissing
        else
          let parameters := normalize_parameters (eget "parameters" e) in
          let hinted := match dget "backend_parameter" parameters with Some (JStr s) => negb (s =? "")%string | _ => false end in
          if match modes with None => negb hinted | Some _ => false end then reject NoBackendParameter
          else
            match resolve_companion (companion_of e) with
            | inr reason => reject reason
            | inl companion =>
                let? tokens := coerce_optional_int (eget "num_draft_tokens" e) in
                Ok (Some (inl
                  {| pn_request := {| sc_mode := m; sc_draft := if decide (m = DraftModel) then companion_of e else None;
                                      sc_companion := companion_of e; sc_draft_tokens := tokens; sc_ngram := None; sc_pred_tokens := None;
                                      sc_parameters := parameters; sc_auto := true |};
                     pn_draft := if decide (m = DraftModel) then companion else None;
                     pn_companions := match companion with Some c => [c] | None => [] end; pn_preferred := false |}))
            end
  end.

Fixpoint plan_entries (es : list entry) : result spec_error (list planned * list rejected) :=
  match es with
  | [] => Ok ([], [])
  | e :: es =>
      let? r := plan_entry e in
      let? (candidates, rejections) := plan_entries es in
      Ok (match r with
          | Some (inl p) => (p :: candidates, rejections)
          | Some (inr x) => (candidates, x :: rejections)
          | None => (candidates, rejections)
          end)
  end.

(** [_plan_frontier_metadata_candidates]. *)
Definition plan_frontier_metadata_candidates : result spec_error (list planned * list rejected) :=
  let raw := meta "speculation_modes" primary in
  plan_entries (normalize_entries (if decide (raw = JNull) then meta "frontier_speculation" primary else raw)).
End model.

(** [_prioritize_candidates]. *)
Definition pn_mode (p : planned) : spec_mode := sc_mode (pn_request p).

Definition prefers (preferred : option spec_mode) (p : planned) : Z := if decide (preferred = Some (pn_mode p)) then 0 else 1.

Definition candidate_before (preferred : option spec_mode) : planned -> planned -> bool :=
  int_before (prefers preferred) (int_before (fun p => mode_priority (pn_mode p)) (fun a b => String.ltb (mode_value (pn_mode a)) (mode_value (pn_mode b)))).

Definition dedup_modes (candidates : list planned) : list (spec_mode * planned) :=
  foldl (fun d p => match dget (pn_mode p) d with Some _ => d | None => dset (pn_mode p) p d end) [] candidates.

Definition prioritize_candidates (candidates : list planned) (preferred : option spec_mode) : list planned :=
  let ordered := sort_by (candidate_before preferred) (map snd (dedup_modes candidates)) in
  match preferred with
  | Some m => map (fun p => p <| pn_preferred := bool_decide (pn_mode p = m) |>) ordered
  | None => ordered
  end.

Section inspect.
Context (manifests : list manifest) (st : spec_settings) (primary : manifest) (runtime : affinity) (snapshot : option json).
Context (contents : list string) (max_tokens : Z).

(** The draft model and the prompt lookup of the built-in backends. *)
Definition inspect_draft : result spec_error (list planned * list rejected) :=
  let modes := runtime_supported_modes snapshot in
  if bool_decide (runtime = MlxText) && sp_decoding st then
    if lacks_mode modes DraftModel then
      Ok ([], [{| rj_mode := Some DraftModel; rj_reason := BackendWithoutMode; rj_metadata := false |}])
    else
      let? candidate := plan_mlx_draft_candidate manifests st primary runtime (chat_context_tokens contents max_tokens) in
      Ok (match candidate with
          | Some p => ([p], [])
          | None => ([], if decide (mf_format primary = FormatMlx)
                         then [{| rj_mode := Some DraftModel; rj_reason := NoDraft; rj_metadata := false |}] else [])
          end)
  else Ok ([], []).

Definition inspect_lookup : list planned * list rejected :=
  if bool_decide (runtime = LlamaCpp) && sp_lookup st then
    if lacks_mode (runtime_supported_modes snapshot) PromptLookup then
      ([], [{| rj_mode := Some PromptLookup; rj_reason := BackendWithoutMode; rj_metadata := false |}])
    else (match plan_prompt_lookup_candidate st runtime with Some p => [p] | None => [] end, [])
  else ([], []).

(** [inspect_chat_speculation_candidates]. *)
Definition inspect_chat_speculation_candidates (preferred : option spec_mode) : result spec_error inspection :=
  let tokens := chat_context_tokens contents max_tokens in
  let? (drafts, r1) := inspect_draft in
  let '(lookups, r2) := inspect_lookup in
  let? (frontier, r3) := plan_frontier_metadata_candidates manifests st primary runtime tokens (runtime_supported_modes snapshot) in
  Ok {| in_candidates := prioritize_candidates (drafts ++ lookups ++ frontier) preferred; in_rejected := r1 ++ r2 ++ r3;
        in_workload := classify_workload contents tokens |}.

(** [list_chat_speculation_candidates] and [plan_chat_speculation]. *)
Definition list_chat_speculation_candidates (preferred : option spec_mode) : result spec_error (list planned) :=
  let? i := inspect_chat_speculation_candidates preferred in Ok (in_candidates i).

Definition plan_chat_speculation (preferred : option spec_mode) : result spec_error (option planned) :=
  let? l := list_chat_speculation_candidates preferred in Ok (head l).
End inspect.
End planning.

(** ** Measurements of a request that was answered *)

(** [a.get(key, b)]. *)
Definition get_or (key : string) (d : list (string * json)) (fallback : json) : json := default fallback (dget key d).

Definition runtime_summary (metadata : list (string * json)) : list (string * json) :=
  match dget "speculation_runtime" metadata with Some (JObj d) => d | _ => [] end.

(** The token counts, as corrected from each other: drafted, accepted, verified,
    rejected and rolled back. *)
Record token_counts := { tc_drafted : Z; tc_accepted : Z; tc_verified : Z; tc_rejected : Z; tc_rollback : Z }.

Definition corrected (drafted accepted verified rejected rollback : Z) : token_counts :=
  let accepted := if (accepted <=? 0) && (0 <? verified) && (0 <? drafted) then Z.min verified drafted else accepted in
  let rejected := if (rejected <=? 0) && (0 <? drafted) && (0 <=? accepted) then Z.max (drafted - accepted) 0 else rejected in
  let rollback := if (rollback <=? 0) && (0 <? drafted) then Z.max rejected 0 else rollback in
  {| tc_drafted := drafted; tc_accepted := accepted; tc_verified := verified; tc_rejected := rejected; tc_rollback := rollback |}.

Definition token_counts_of (metadata usage : list (string * json)) : result spec_error token_counts :=
  let summary := runtime_summary metadata in
  let? drafted := coerce_int (get_or "drafted_tokens" usage (get_or "drafted_tokens" summary (get_or "accepted_tokens" usage (JInt 0)))) in
  let? accepted := coerce_int (get_or "accepted_tokens" usage (get_or "accepted_tokens" summary (get_or "verified_tokens" usage (JInt 0)))) in
  let? verified := coerce_int (get_or "verified_tokens" usage (get_or "verified_tokens" summary (JInt accepted))) in
  let? rejected := coerce_int (get_or "rejected_tokens" usage (get_or "rejected_tokens" summary JNull)) in
  let? rollback := coerce_int (get_or "rollback_tokens" usage (get_or "rollback_tokens" summary JNull)) in
  Ok (corrected drafted accepted verified rejected rollback).

Definition unless_zero (key : string) (n : Z) : list (string * json) := if n =? 0 then [] else [(key, JInt n)].
Definition if_some (key : string) (n : option Z) : list (string * json) := match n with Some n => [(key, JInt n)] | None => [] end.

(** [speculation_measurements]. *)
Definition speculation_measurements (sc : option speculation) (metadata usage : list (string * json)) : result spec_error (list (string * json)) :=
  match sc with
  | None => Ok []
  | Some sc =>
      let path := match dget "speculation_execution_path" metadata with
                  | Some (JStr s) => if (s =? "lewlm_controller")%string then [("controller_owned_requests", JInt 1)]
                                     else if (s =? "backend_passthrough")%string then [("backend_passthrough_requests", JInt 1)] else []
                  | _ => []
                  end in
      let preferred := if bool_decide (dget "speculation_benchmark_preferred" metadata = Some (JBool true))
                       then [("benchmark_preferred_requests", JInt 1)] else [] in
      let? fallbacks := coerce_int (get_or "speculation_fallback_count" metadata
                                      (get_or "fallback_count" (runtime_summary metadata) (get_or "fallback_count" usage (JInt 0)))) in
      let? t := token_counts_of metadata usage in
      let mode := match sc_mode sc with
                  | DraftModel => ("draft_model_requests", JInt 1) :: if_some "configured_num_draft_tokens" (sc_draft_tokens sc)
                  | PromptLookup => ("prompt_lookup_requests", JInt 1) :: if_some "prompt_lookup_max_ngram_size" (sc_ngram sc)
                                    ++ if_some "prompt_lookup_num_pred_tokens" (sc_pred_tokens sc)
                  | _ => [("frontier_speculation_requests", JInt 1)]
                  end in
      Ok ([("speculative_requests", JInt 1)] ++ path ++ preferred ++ unless_zero "fallback_count" fallbacks ++ mode
          ++ unless_zero "drafted_tokens" (tc_drafted t) ++ unless_zero "accepted_tokens" (tc_accepted t)
          ++ unless_zero "verified_tokens" (tc_verified t) ++ unless_zero "rejected_tokens" (tc_rejected t)
          ++ unless_zero "rollback_tokens" (tc_rollback t)
          ++ if 0 <? tc_drafted t then [("acceptance_rate", JFloat (f_round4 (int_truediv (tc_accepted t) (tc_drafted t))))] else [])
  end.

(** ** Which plans are made *)

(** What holds of a candidate that may be executed. *)
Record usable_plan (manifests : list manifest) (st : spec_settings) (primary : manifest) (runtime : affinity) (snapshot : option json)
    (context_tokens : Z) (p : planned) : Prop := {
  up_allowed : settings_allow_mode st (pn_mode p) = true;
  up_supported : forall modes, runtime_supported_modes snapshot = Some modes -> pn_mode p ∈ modes;
  up_companion : forall c, c ∈ pn_companions p ->
    c ∈ manifests /\ mf_id c <> mf_id primary /\ mf_status c = Runnable /\ runtime ∈ mf_affinity c
    /\ (forall n, mf_context c = Some n -> context_tokens <= n);
  up_named : forall id, sc_companion (pn_request p) = Some id -> exists c, pn_companions p = [c] /\ (id = mf_id c \/ get_manifest manifests id = Some c);
  up_draft : pn_mode p = DraftModel -> exists c, pn_draft p = Some c /\ pn_companions p = [c]
    /\ (sc_auto (pn_request p) = true -> forall x, x ∈ draft_candidates manifests primary context_tokens -> draft_before primary x c = false)
}.

Lemma context_fits_spec m tokens : context_fits m tokens = true <-> forall n, mf_context m = Some n -> tokens <= n.
Proof.
  unfold context_fits. destruct (mf_context m) as [n|]; [|done]. rewrite negb_true_iff, Z.ltb_ge. split; [by intros H ? [= <-]|by intros H; apply H].
Qed.

Lemma lacks_mode_false modes m : lacks_mode modes m = false -> forall l, modes = Some l -> m ∈ l.
Proof. intros H l ->. by apply negb_false_iff, member_true in H. Qed.

Lemma companion_unfit_None m primary runtime tokens :
  companion_unfit m primary runtime tokens = None ->
  mf_id m <> mf_id primary /\ mf_status m = Runnable /\ runtime ∈ mf_affinity m /\ (forall n, mf_context m = Some n -> tokens <= n).
Proof.
  unfold companion_unfit. destruct (mf_id m =? mf_id primary)%string eqn:Hid; [done|]. destruct (bool_decide (mf_status m = Runnable)) eqn:Hs; [|done].
  destruct (member runtime (mf_affinity m)) eqn:Ha; [|done]. destruct (context_fits m tokens) eqn:Hc; [|done]. intros _.
  split_and!; [by apply String.eqb_neq|by apply bool_decide_eq_true_1 in Hs|by apply member_true|by apply context_fits_spec].
Qed.

Lemma mlx_draft_fits draft primary tokens : is_mlx_draft_candidate draft primary tokens = true ->
  mf_status draft = Runnable /\ MlxText ∈ mf_affinity draft /\ (forall n, mf_context draft = Some n -> tokens <= n).
Proof.
  unfold is_mlx_draft_candidate. rewrite !andb_true_iff, !bool_decide_eq_true, member_true, context_fits_spec. tauto.
Qed.

Section plans.
Context (py_str : json -> string) (find_spec : string -> option bool).
Context (manifests : list manifest) (st : spec_settings) (primary : manifest) (runtime : affinity) (snapshot : option json).

Lemma int_part {A} (P : A -> Prop) (f : A -> Z) : part_of_key P (fun a b => f a =? f b) (fun a b => f a <? f b) Z f Z.lt.
Proof.
  split; [lia|lia|lia|intros a b _ _; apply Z.eqb_eq|intros a b _ _; apply Z.ltb_lt].
Qed.

Lemma int_before_weak {A} (f : A -> Z) rest : weak_order rest (fun _ => True) -> weak_order (int_before f rest) (fun _ => True).
Proof. intros H. by apply (weak_order_lexicographic _ _ _ _ Z f Z.lt (int_part _ f)). Qed.

Lemma draft_order : weak_order (draft_before primary) (fun _ => True).
Proof. do 3 apply int_before_weak. apply string_weak_order. Qed.

Lemma candidate_order preferred : weak_order (candidate_before preferred) (fun _ => True).
Proof. do 2 apply int_before_weak. apply (string_weak_order _ (fun p => mode_value (pn_mode p))). Qed.

(** The draft that is chosen. *)
Lemma elem_draft_candidates m tokens :
  m ∈ draft_candidates manifests primary tokens <->
  m ∈ manifests /\ mf_id m <> mf_id primary /\ is_mlx_draft_candidate m primary tokens = true.
Proof. unfold draft_candidates. rewrite elem_list_filter, andb_true_iff, negb_true_iff, String.eqb_neq. tauto. Qed.

Lemma resolve_draft_spec tokens m auto :
  resolve_mlx_draft_manifest manifests st primary tokens = Ok (Some m, auto) ->
  m ∈ manifests /\ mf_id m <> mf_id primary /\ is_mlx_draft_candidate m primary tokens = true
  /\ (auto = true -> forall x, x ∈ draft_candidates manifests primary tokens -> draft_before primary x m = false).
Proof.
  assert (Hauto : forall r, r = (match sort_by (draft_before primary) (draft_candidates manifests primary tokens) with m :: _ => (Some m, true) | [] => (None, false) end) ->
    r = (Some m, auto) -> m ∈ manifests /\ mf_id m <> mf_id primary /\ is_mlx_draft_candidate m primary tokens = true
    /\ (auto = true -> forall x, x ∈ draft_candidates manifests primary tokens -> draft_before primary x m = false)).
  { intros r -> H. destruct (sort_by _ _) as [|x l] eqn:Hs; [done|]. injection H as -> <-.
    assert (Hm : m ∈ draft_candidates manifests primary tokens) by (apply (elem_sort_by (draft_before primary)); rewrite Hs; by left).
    apply elem_draft_candidates in Hm as (? & ? & ?). split_and!; [done..|]. intros _ x Hx.
    by apply (sort_by_head (draft_before primary) (fun _ => True) draft_order _ _ _ _ (proj2 (Forall_forall _ _) (fun _ _ => I)) Hs). }
  unfold resolve_mlx_draft_manifest. destruct (sp_draft_id st) as [id|]; [|intros [= H]; by eapply Hauto].
  destruct (id =? "")%string; [intros [= H]; by eapply Hauto|].
  destruct (get_manifest manifests id) as [x|] eqn:Hg; [|done]. destruct (mf_id x =? mf_id primary)%string eqn:Hid; [done|].
  destruct (is_mlx_draft_candidate x primary tokens) eqn:Hx; [|done]. intros [= -> <-].
  split_and!; [by eapply get_manifest_elem|by apply String.eqb_neq|done|done].
Qed.

Lemma draft_plan_usable tokens p :
  plan_mlx_draft_candidate manifests st primary runtime tokens = Ok (Some p) ->
  lacks_mode (runtime_supported_modes snapshot) DraftModel = false ->
  pn_mode p = DraftModel /\ usable_plan manifests st primary runtime snapshot tokens p.
Proof.
  unfold plan_mlx_draft_candidate. destruct (bool_decide (runtime = MlxText)) eqn:Hrt; [|done]. apply bool_decide_eq_true_1 in Hrt.
  destruct (sp_decoding st) eqn:Hset; [|done]. cbn [negb orb]. intros ([draft auto] & Hr & H)%rbind_Ok Hmode.
  destruct draft as [m|]; [|done]. injection H as <-. apply resolve_draft_spec in Hr as (Hin & Hid & Hfit & Hbest).
  apply mlx_draft_fits in Hfit as (Hs & Ha & Hc). split; [done|]. split; unfold pn_mode; cbn.
  - done.
  - by apply lacks_mode_false.
  - intros c ->%list_elem_of_singleton. rewrite Hrt. done.
  - intros id [= <-]. exists m. split; [done|by left].
  - intros _. exists m. done.
Qed.

Lemma lookup_plan_usable tokens p :
  plan_prompt_lookup_candidate st runtime = Some p -> lacks_mode (runtime_supported_modes snapshot) PromptLookup = false ->
  pn_mode p = PromptLookup /\ usable_plan manifests st primary runtime snapshot tokens p.
Proof.
  unfold plan_prompt_lookup_candidate. destruct (bool_decide (runtime = LlamaCpp)); [|done]. destruct (sp_lookup st) eqn:Hset; [|done].
  intros [= <-] Hmode. split; [done|]. split; unfold pn_mode; cbn; [done|by apply lacks_mode_false|by intros ? ?%not_elem_of_nil|done|done].
Qed.

Lemma entry_plan_usable tokens e p :
  plan_entry py_str find_spec manifests st primary runtime tokens (runtime_supported_modes snapshot) e = Ok (Some (inl p)) ->
  usable_plan manifests st primary runtime snapshot tokens p /\ pn_mode p <> DraftModel /\ pn_mode p <> PromptLookup.
Proof.
  unfold plan_entry. destruct (coerce_mode _) as [m|]; [|done]. destruct (member m [DraftModel; PromptLookup]) eqn:Hm; [done|].
  destruct (settings_allow_mode st m) eqn:Hset; [|done]. destruct (entry_runtime_matches _ _ _); [|done].
  destruct (lacks_mode _ m) eqn:Hl; [done|]. intros (available & _ & H)%rbind_Ok. destruct available; [|done]. cbn [negb] in H.
  set (no_hint := match runtime_supported_modes snapshot with None => _ | Some _ => false end) in H. destruct no_hint; [done|].
  destruct (resolve_companion _ _ _ _ _) as [companion|reason] eqn:Hc; [|done]. apply rbind_Ok in H as (n & _ & H). injection H as <-.
  assert (Hne : m <> DraftModel /\ m <> PromptLookup).
  { rewrite <- not_true_iff_false, member_true in Hm. set_solver. }
  unfold pn_mode. cbn [pn_request sc_mode]. split; [|done]. unfold resolve_companion in Hc.
  split; unfold pn_mode; cbn [pn_request sc_mode pn_companions sc_companion pn_draft]; [done|by apply lacks_mode_false| | |by intros ?; destruct Hne].
  - intros c Hin. destruct companion as [x|]; [|by apply not_elem_of_nil in Hin]. apply list_elem_of_singleton in Hin as ->.
    destruct (companion_of e) as [id|]; [|done]. destruct (get_manifest manifests id) as [y|] eqn:Hg; [|done].
    destruct (companion_unfit y primary runtime tokens) eqn:Hu; [done|]. injection Hc as ->.
    apply companion_unfit_None in Hu as (? & ? & ? & ?). split_and!; [by eapply get_manifest_elem|done..].
  - intros id Hid. rewrite Hid in Hc. destruct (get_manifest manifests id) as [y|] eqn:Hg; [|done].
    destruct (companion_unfit y primary runtime tokens) eqn:Hu; [done|]. injection Hc as <-. exists y. split; [done|by right].
Qed.

Lemma entries_usable tokens es : forall candidates rejections,
  plan_entries py_str find_spec manifests st primary runtime tokens (runtime_supported_modes snapshot) es = Ok (candidates, rejections) ->
  Forall (usable_plan manifests st primary runtime snapshot tokens) candidates.
Proof.
  induction es as [|e es IH]; intros candidates rejections; cbn [plan_entries]; [by intros [= <- <-]|].
  intros (r & Hr & H)%rbind_Ok. apply rbind_Ok in H as ([c x] & Hc & H). pose proof (IH _ _ Hc) as Hall.
  destruct r as [[p|y]|]; injection H as <- <-; [|done|done]. constructor; [|done]. by apply entry_plan_usable in Hr as [? _].
Qed.
End plans.

(** ** The order of the candidates *)

Lemma dedup_modes_spec candidates : forall d,
  NoDup (dkeys d) -> (forall k p, (k, p) ∈ d -> pn_mode p = k) ->
  let d' := foldl (fun d p => match dget (pn_mode p) d with Some _ => d | None => dset (pn_mode p) p d end) d candidates in
  NoDup (dkeys d') /\ (forall k p, (k, p) ∈ d' -> pn_mode p = k /\ (p ∈ candidates \/ (k, p) ∈ d))
  /\ (forall k, k ∈ dkeys d' <-> k ∈ dkeys d \/ k ∈ map pn_mode candidates).
Proof.
  induction candidates as [|c candidates IH]; intros d Hnd Hd; cbn zeta; cbn [foldl map].
  { split; [done|]. split; [intros k p Hin; split; [by apply Hd|by right]|]. intros k. rewrite elem_of_nil. tauto. }
  destruct (dget (pn_mode c) d) as [o|] eqn:Ho.
  - destruct (IH d Hnd Hd) as (H1 & H2 & H3). split; [done|]. split.
    + intros k p Hin. destruct (H2 k p Hin) as [? [?|?]]; split; [done|left; by right|done|by right].
    + intros k. rewrite H3, elem_of_cons. apply dget_Some_key in Ho. naive_solver.
  - apply dget_None in Ho. assert (Hnew : dset (pn_mode c) c d = d ++ [(pn_mode c, c)]) by by apply dset_new.
    destruct (IH (dset (pn_mode c) c d)) as (H1 & H2 & H3).
    + by apply NoDup_dset.
    + intros k p. rewrite Hnew. intros [Hin|[= -> ->]%list_elem_of_singleton]%elem_of_app; [by apply Hd|done].
    + split; [done|]. split.
      * intros k p Hin. destruct (H2 k p Hin) as [Hk [?|Hin']]; (split; [done|]); [left; by right|].
        rewrite Hnew in Hin'. apply elem_of_app in Hin' as [?|[= -> ->]%list_elem_of_singleton]; [by right|left; by left].
      * intros k. rewrite H3, dkeys_dset_elem, elem_of_cons. tauto.
Qed.

Lemma dedup_ok candidates :
  NoDup (map pn_mode (map snd (dedup_modes candidates)))
  /\ (forall p, p ∈ map snd (dedup_modes candidates) -> p ∈ candidates)
  /\ (forall m, m ∈ map pn_mode (map snd (dedup_modes candidates)) <-> m ∈ map pn_mode candidates).
Proof.
  destruct (dedup_modes_spec candidates []) as (H1 & H2 & H3); [constructor|by intros ? ? ?%not_elem_of_nil|]. cbn zeta in *. fold (dedup_modes candidates) in *.
  assert (Hkeys : map pn_mode (map snd (dedup_modes candidates)) = dkeys (dedup_modes candidates)).
  { unfold dkeys. rewrite map_map. apply map_ext_in. intros [k p] Hin%list_elem_of_In. by destruct (H2 k p Hin). }
  rewrite Hkeys. split; [done|]. split.
  - intros p ([k p'] & -> & Hin)%list_elem_of_fmap. destruct (H2 k p' Hin) as [_ [?|?%not_elem_of_nil]]; done.
  - intros m. rewrite H3, elem_of_nil. tauto.
Qed.

Definition marked (preferred : option spec_mode) (p : planned) : planned :=
  match preferred with Some m => p <| pn_preferred := bool_decide (pn_mode p = m) |> | None => p end.

Lemma prioritize_marked candidates preferred :
  prioritize_candidates candidates preferred
  = map (marked preferred) (sort_by (candidate_before preferred) (map snd (dedup_modes candidates))).
Proof. unfold prioritize_candidates, marked. destruct preferred; [done|]. by rewrite map_id. Qed.

Lemma marked_mode preferred p : pn_mode (marked preferred p) = pn_mode p.
Proof. by destruct preferred. Qed.

Lemma marked_usable manifests st primary runtime snapshot tokens preferred p :
  usable_plan manifests st primary runtime snapshot tokens p -> usable_plan manifests st primary runtime snapshot tokens (marked preferred p).
Proof. destruct preferred; [|done]. by intros []. Qed.

(** A map that the order does not see leaves a list in order. *)
Lemma map_in_order {A} (R : A -> A -> Prop) (f : A -> A) l :
  (forall a b, R a b -> R (f a) (f b)) -> StronglySorted R l -> StronglySorted R (map f l).
Proof.
  intros Hf. induction 1 as [|x l Hl IH Hx]; [constructor|]. cbn [map]. constructor; [done|]. apply Forall_forall. intros y (z & -> & Hz)%list_elem_of_fmap.
  apply Hf. by apply (proj1 (Forall_forall _ _) Hx).
Qed.

Lemma prioritize_spec candidates preferred :
  NoDup (map pn_mode (prioritize_candidates candidates preferred))
  /\ (forall p, p ∈ prioritize_candidates candidates preferred -> exists q, q ∈ candidates /\ p = marked preferred q)
  /\ (forall m, m ∈ map pn_mode (prioritize_candidates candidates preferred) <-> m ∈ map pn_mode candidates)
  /\ StronglySorted (fun a b => candidate_before preferred b a = false) (prioritize_candidates candidates preferred).
Proof.
  rewrite prioritize_marked. destruct (dedup_ok candidates) as (H1 & H2 & H3). set (l := map snd (dedup_modes candidates)) in *.
  assert (Hmodes : forall l', map pn_mode (map (marked preferred) l') = map pn_mode l') by (intros l'; rewrite map_map; apply map_ext, marked_mode).
  rewrite Hmodes. split_and!.
  - by rewrite (sort_by_perm _ l).
  - intros p (q & -> & Hq)%list_elem_of_fmap. exists q. rewrite elem_sort_by in Hq. split; [by apply H2|done].
  - intros m. rewrite <- H3. by rewrite (sort_by_perm _ l).
  - apply map_in_order.
    + intros a b. unfold candidate_before, int_before, lexicographic, prefers. by rewrite !marked_mode.
    + apply (sort_by_in_order _ (fun _ => True) (candidate_order preferred)). by apply Forall_forall.
Qed.

(** C28.  Every speculation candidate can be executed: its mode is enabled and not known to
    be missing in the runtime, its companion is a registered, runnable model other than
    the primary one, of the runtime's affinity and with enough context, and an automatic
    draft is the first of the fitting ones in the order of preference.  There is one
    candidate per mode, the benchmark's preferred mode comes first if it is among them,
    then the order is that of the modes, and the plan is the first candidate. *)
Theorem speculation_plans_are_usable py_str find_spec manifests st primary runtime snapshot contents max_tokens preferred i :
  inspect_chat_speculation_candidates py_str find_spec manifests st primary runtime snapshot contents max_tokens preferred = Ok i ->
  Forall (usable_plan manifests st primary runtime snapshot (chat_context_tokens contents max_tokens)) (in_candidates i)
  /\ NoDup (map pn_mode (in_candidates i))
  /\ StronglySorted (fun a b => candidate_before preferred b a = false) (in_candidates i)
  /\ plan_chat_speculation py_str find_spec manifests st primary runtime snapshot contents max_tokens preferred = Ok (head (in_candidates i))
  /\ forall m, preferred = Some m -> m ∈ map pn_mode (in_candidates i) ->
       exists p, head (in_candidates i) = Some p /\ pn_mode p = m /\ pn_preferred p = true.
Proof.
  intros H. assert (Hplan : plan_chat_speculation py_str find_spec manifests st primary runtime snapshot contents max_tokens preferred = Ok (head (in_candidates i)))
    by (unfold plan_chat_speculation, list_chat_speculation_candidates; by rewrite H).
  unfold inspect_chat_speculation_candidates in H. apply rbind_Ok in H as ([drafts r1] & Hd & H).
  destruct (inspect_lookup st runtime snapshot) as [lookups r2] eqn:Hl. apply rbind_Ok in H as ([frontier r3] & Hf & H). injection H as <-.
  cbn [in_candidates] in *. set (tokens := chat_context_tokens contents max_tokens) in *.
  assert (Hall : Forall (usable_plan manifests st primary runtime snapshot tokens) (drafts ++ lookups ++ frontier)).
  { rewrite !Forall_app. split_and!.
    - unfold inspect_draft in Hd. destruct (_ && _); [|by injection Hd as <- _]. destruct (lacks_mode _ DraftModel) eqn:Hm; [by injection Hd as <- _|].
      apply rbind_Ok in Hd as (c & Hc & Hd). injection Hd as Hd. destruct c as [p|]; injection Hd as <- _; [|done].
      apply Forall_singleton. by apply (draft_plan_usable manifests st primary runtime snapshot tokens p Hc).
    - unfold inspect_lookup in Hl. destruct (_ && _); [|by injection Hl as <- _]. destruct (lacks_mode _ PromptLookup) eqn:Hm; [by injection Hl as <- _|].
      injection Hl as <- _. destruct (plan_prompt_lookup_candidate st runtime) as [p|] eqn:Hp; [|done]. apply Forall_singleton.
      by apply (lookup_plan_usable manifests st primary runtime snapshot tokens p Hp).
    - unfold plan_frontier_metadata_candidates in Hf. by apply entries_usable in Hf. }
  destruct (prioritize_spec (drafts ++ lookups ++ frontier) preferred) as (H1 & H2 & H3 & H4).
  set (l := prioritize_candidates (drafts ++ lookups ++ frontier) preferred) in *. split_and!; [|done|done|done|].
  - apply Forall_forall. intros p (q & Hq & ->)%H2. by apply marked_usable, (proj1 (Forall_forall _ _) Hall).
  - intros m -> (p & -> & Hp)%list_elem_of_fmap. destruct l as [|x l'] eqn:Hx; [by apply not_elem_of_nil in Hp|]. exists x. split; [done|].
    destruct (H2 x (list_elem_of_here _ _)) as (q & _ & Hq). assert (Hmark : pn_preferred x = bool_decide (pn_mode x = pn_mode p)).
    { rewrite Hq. cbn [marked pn_preferred set_field]. done. }
    assert (Hmode : pn_mode x = pn_mode p); [|split; [done|rewrite Hmark; by apply bool_decide_eq_true]].
    apply elem_of_cons in Hp as [->|Hp]; [done|]. apply StronglySorted_inv in H4 as [_ Hle].
    pose proof (proj1 (Forall_forall _ _) Hle p Hp) as Hb. unfold candidate_before, int_before, lexicographic, prefers in Hb.
    rewrite (decide_True (P := Some (pn_mode p) = Some (pn_mode p))) in Hb by done. case_decide as Hd'; [congruence|done].
Qed.

(** ** Examples *)

Definition spec_model (id family : string) (memory : Z) (metadata : list (string * json)) : manifest :=
  {| mf_id := id; mf_display_name := id; mf_family := family; mf_quantization := None; mf_fingerprint := "f"; mf_role := Standalone;
     mf_lineage := []; mf_subtype := Transformer; mf_modality := [Text]; mf_audio_roles := []; mf_source_path := "/models/" +:+ id;
     mf_format := FormatMlx; mf_affinity := [MlxText]; mf_text_affinity := []; mf_text_source := None; mf_text_reason := None;
     mf_memory := Some memory; mf_context := Some 4096; mf_status := Runnable; mf_metadata := metadata |}.

Definition big_model : manifest :=
  spec_model "big" "llama" 16000
    [("speculation_modes", JObj [("medusa", JObj [("parameters", JObj [("backend_parameter", JStr "heads")])]);
                                 ("swift", JObj [("required_module", JStr "absent")])])].
Definition spec_models : list manifest := [big_model; spec_model "other" "qwen" 500 []; spec_model "small" "llama" 1000 []].
Definition spec_on : spec_settings :=
  {| sp_decoding := true; sp_draft_id := None; sp_draft_tokens := 3; sp_lookup := false; sp_ngram := 2; sp_pred_tokens := 10 |}.
Definition no_modules (name : string) : option bool := Some false.
Definition sample_inspection (preferred : option spec_mode) : result spec_error inspection :=
  inspect_chat_speculation_candidates (fun _ => "") no_modules spec_models spec_on big_model MlxText None ["fix this bug"] 256 preferred.

(** The draft is of the same family although another model is smaller; a measured
    preference for it puts it before the mode of the metadata. *)
Example sample_plans :
  (match sample_inspection None with Ok i => Some (map pn_mode (in_candidates i), map rj_reason (in_rejected i), in_workload i) | Err _ => None end
     = Some ([Medusa; DraftModel], [ModulesMissing], "coding"))
  /\ match sample_inspection (Some DraftModel) with
     | Ok i => map (fun p => (pn_mode p, sc_draft (pn_request p), pn_preferred p)) (in_candidates i)
     | Err _ => []
     end = [(DraftModel, Some "small", true); (Medusa, None, false)].
Proof. split; vm_compute; reflexivity. Qed.

Lemma speculation_plans_are_usable_witness :
  exists i, sample_inspection (Some DraftModel) = Ok i
    /\ exists p, head (in_candidates i) = Some p /\ pn_mode p = DraftModel /\ pn_preferred p = true.
Proof.
  assert (H : exists i, sample_inspection (Some DraftModel) = Ok i) by (eexists; vm_compute; reflexivity).
  destruct H as [i Hi]. exists i. split; [exact Hi|].
  destruct (speculation_plans_are_usable _ _ _ _ _ _ _ _ _ _ _ Hi) as (_ & _ & _ & _ & H). apply H; [reflexivity|].
  clear H. unfold sample_inspection in Hi. vm_compute in Hi. injection Hi as <-. by left.
Defined.

(** A required module in a package that is not installed: [find_spec] raises, and so does
    the planning of every request to the model. *)
Lemma missing_package_fails_the_request preferred :
  let m := spec_model "big" "llama" 16000 [("speculation_modes", JObj [("medusa", JObj [("required_module", JStr "absent.part")])])] in
  let find_spec name := if (name =? "absent.part")%string then None else Some false in
  plan_chat_speculation (fun _ => "") find_spec [m] spec_on m MlxText None ["hello"] 64 preferred = Err (NoParentModule "absent.part").
Proof. destruct preferred as [[]|]; vm_compute; reflexivity. Qed.

(** The counts fit together: what was drafted is accepted or rejected, if the backend
    says no more than how many it drafted and accepted. *)
Lemma corrected_counts drafted accepted :
  0 <= accepted <= drafted ->
  let t := corrected drafted accepted accepted 0 0 in
  tc_accepted t + tc_rejected t = tc_drafted t /\ tc_rollback t = tc_rejected t.
Proof.
  intros H. unfold corrected. cbn [tc_accepted tc_rejected tc_drafted tc_rollback].
  destruct (Z.leb_spec accepted 0), (Z.ltb_spec 0 accepted), (Z.ltb_spec 0 drafted); cbn [andb]; try lia;
    rewrite ?(proj2 (Z.leb_le 0 0)), ?(proj2 (Z.leb_le 0 accepted)) by lia; cbn [andb]; repeat case_match; lia.
Qed.

Example sample_measurements :
  speculation_measurements (Some {| sc_mode := DraftModel; sc_draft := Some "small"; sc_companion := Some "small"; sc_draft_tokens := Some 3;
                                    sc_ngram := None; sc_pred_tokens := None; sc_parameters := []; sc_auto := true |})
    [("speculation_execution_path", JStr "lewlm_controller")] [("drafted_tokens", JInt 10); ("accepted_tokens", JInt 7)]
  = Ok [("speculative_requests", JInt 1); ("controller_owned_requests", JInt 1); ("draft_model_requests", JInt 1);
        ("configured_num_draft_tokens", JInt 3); ("drafted_tokens", JInt 10); ("accepted_tokens", JInt 7); ("verified_tokens", JInt 7);
        ("rejected_tokens", JInt 3); ("rollback_tokens", JInt 3); ("acceptance_rate", JFloat (int_truediv 7 10))].
Proof. vm_compute. reflexivity. Qed.
