(* ===== verification/Caches.v ===== *)
(** Cached blocks and responses: src/src/lewlm/storage/block_cache.py and
    runtime/response_cache.py over the tables [cache_blocks], [runtime_response_cache]
    and [app_kv] of storage/metadata.py.

    The tables and the directory of block files are dictionaries: of the rows by their
    key, of the texts by their path.  [json.dumps] with the options the code uses and
    [json.loads] are parameters.  A feature is an opaque value; what the code asks of it
    is its size.  Attachments and responses are their JSON payloads; making typed values
    of them is pydantic's.  Strings are ASCII. *)

From Stdlib Require Import Sorted.
From S2P Require Import Prelude PyFloat PyString Json PySort Sha256.

Open Scope Z_scope.

(** ** Tables and files *)

Record block := {
  bl_kind : string;
  bl_path : string;
  bl_size : Z;
  bl_metadata : list (string * json);
  bl_updated : Z
}.

Record response_row := { rr_capability : string; rr_model : string; rr_text : string; rr_size : Z }.

Record disk_cache := {
  c_blocks : list (string * block);
  c_files : list (string * string);
  c_responses : list (string * response_row);
  c_counters : list (string * Z)
}.

#[export] Instance disk_cache_eta : Eta disk_cache := fun c =>
  Build_disk_cache (c_blocks c) (c_files c) (c_responses c) (c_counters c).

Inductive cache_error := KindMismatch (key : string) | FileMissing (path : string) | InvalidJson.

Definition get_counter (key : string) (c : disk_cache) : Z := default 0 (dget key (c_counters c)).
Definition increment_counter (key : string) (amount : Z) (c : disk_cache) : disk_cache :=
  c <| c_counters := dset key (get_counter key c + amount) (c_counters c) |>.

(** [list_cache_blocks]: the latest first, then by key. *)
Definition block_before (a b : string * block) : bool :=
  if bl_updated a.2 =? bl_updated b.2 then String.ltb a.1 b.1 else bl_updated b.2 <? bl_updated a.2.
Definition blocks_of (kind : string) (c : disk_cache) : list (string * block) :=
  List.filter (fun x => bl_kind x.2 =? kind)%string (c_blocks c).
Definition list_cache_blocks (kind : string) (c : disk_cache) : list (string * block) := sort_by block_before (blocks_of kind c).
Definition cache_block_count (kind : option string) (c : disk_cache) : Z :=
  Z.of_nat (length (match kind with Some k => blocks_of k c | None => c_blocks c end)).
Definition cache_block_size_bytes (kind : option string) (c : disk_cache) : Z :=
  foldr Z.add 0 (map (fun x => bl_size x.2) (match kind with Some k => blocks_of k c | None => c_blocks c end)).

(** ** Blocks of JSON *)

(** [_compact_cache_filename] and [_block_path]. *)
Definition compact_cache_filename (key : string) : string :=
  if (String.length key <=? 20)%nat then key else String.substring 0 20 (hexdigest (encode_ascii key)).
Definition block_path (key kind : string) : string :=
  kind +:+ "/" +:+ String.substring 0 2 key +:+ "/" +:+ compact_cache_filename key +:+ ".json".

Definition FEATURE_KIND : string := "multimodal_feature".
Definition ENCODER_KIND : string := "multimodal_encoder".

(** [_record_hit] and [_record_miss] of [BlockDiskCache]. *)
Definition count_event (event kind : string) (c : disk_cache) : disk_cache :=
  let c := increment_counter ("block_cache_" +:+ event) 1 c in
  let c := if (kind =? FEATURE_KIND)%string then increment_counter ("multimodal_feature_cache_" +:+ event) 1 c else c in
  if (kind =? ENCODER_KIND)%string then increment_counter ("multimodal_encoder_cache_" +:+ event) 1 c else c.

Section json.
Context (json_dumps : json -> string) (json_loads : string -> option json).

(** [get_json_block]. *)
Definition get_json_block (key kind : string) (c : disk_cache) : disk_cache * result cache_error (option json) :=
  match dget key (c_blocks c) with
  | None => (count_event "misses" kind c, Ok None)
  | Some b =>
      if negb (bl_kind b =? kind)%string then (c, Err (KindMismatch key))
      else
        match dget (bl_path b) (c_files c) with
        | None => (c, Err (FileMissing (bl_path b)))
        | Some text => (count_event "hits" kind c, match json_loads text with Some v => Ok (Some v) | None => Err InvalidJson end)
        end
  end.

(** [put_json_block]. *)
Definition put_json_block (key kind : string) (payload : json) (metadata : list (string * json)) (size : option Z) (now : Z) (c : disk_cache)
    : disk_cache :=
  let text := json_dumps payload in
  let path := block_path key kind in
  c <| c_files := dset path text (c_files c) |>
    <| c_blocks := dset key {| bl_kind := kind; bl_path := path; bl_size := default (Z.of_nat (String.length text)) size;
                               bl_metadata := metadata; bl_updated := now |} (c_blocks c) |>.

(** [delete_json_block]. *)
Definition delete_json_block (key kind : string) (c : disk_cache) : disk_cache * bool :=
  match dget key (c_blocks c) with
  | Some b => if (bl_kind b =? kind)%string
              then (c <| c_files := ddel (bl_path b) (c_files c) |> <| c_blocks := ddel key (c_blocks c) |>, true)
              else (c, false)
  | None => (c, false)
  end.

(** [stats] of the block cache: number and bytes of the blocks, hits and misses. *)
Definition block_stats (kind : option string) (c : disk_cache) : Z * Z * Z * Z :=
  let prefix := match kind with Some k => k +:+ "_cache_" | None => "block_cache_" end in
  (cache_block_count kind c, cache_block_size_bytes kind c, get_counter (prefix +:+ "hits") c, get_counter (prefix +:+ "misses") c).

(** The keys: digests of a JSON object with its version. *)
Definition digest_key (version : Z) (payload : list (string * json)) : string :=
  hexdigest (encode_ascii (json_dumps (JObj (dmerge [("version", JInt version)] payload)))).

Definition json_text (s : option string) : json := match s with Some s => JStr s | None => JNull end.

(** *** Features of attachments *)

Definition cache_key_for_path_attachment (raw : list Z) (suffix : string) : string :=
  digest_key 1 [("scope", JStr "path_attachment"); ("suffix", JStr suffix); ("content_sha256", JStr (hexdigest raw));
                ("input_bytes", JInt (Z.of_nat (length raw)))].

Definition cache_key_for_audio_attachment (raw : list Z) (file_name suffix : string) (language prompt : option string) : string :=
  digest_key 1 [("scope", JStr "audio_attachment"); ("file_name", JStr file_name); ("suffix", JStr suffix); ("language", json_text language);
                ("prompt", json_text prompt); ("content_sha256", JStr (hexdigest raw)); ("input_bytes", JInt (Z.of_nat (length raw)))].

Definition get_attachment (key : string) (c : disk_cache) : disk_cache * result cache_error (option json) := get_json_block key FEATURE_KIND c.
Definition put_attachment (key : string) (attachment_type : string) (media_type text : json) (metadata : list (string * json))
    (cache_metadata : list (string * json)) (now : Z) (c : disk_cache) : disk_cache :=
  put_json_block key FEATURE_KIND
    (JObj [("attachment_type", JStr attachment_type); ("media_type", media_type); ("extracted_text", text); ("metadata", JObj metadata)])
    cache_metadata None now c.

(** ** Cached responses *)

(** [RuntimeResponseCache._cache_key] in a namespace. *)
Definition response_key (namespace : option string) (capability : string) (payload : list (string * json)) : string :=
  let d := dmerge [("capability", JStr capability)] payload in
  let d := if truthy namespace then dmerge d [("runtime_namespace", json_text namespace)] else d in
  hexdigest (encode_ascii (json_dumps (JObj d))).

Definition embedding_payload (model_id : string) (inputs : list string) : list (string * json) :=
  [("model_id", JStr model_id); ("inputs", JArr (map JStr inputs))].
Definition rerank_payload (model_id query : string) (documents : list string) (top_n : option Z) : list (string * json) :=
  [("model_id", JStr model_id); ("query", JStr query); ("documents", JArr (map JStr documents));
   ("top_n", match top_n with Some n => JInt n | None => JNull end)].
(** [_audio_transcription_payload]. *)
Definition audio_transcription_payload (model_id : string) (audio : list Z) (file_name : string) (language prompt : option string)
    : list (string * json) :=
  [("model_id", JStr model_id); ("file_name", JStr file_name); ("language", json_text language); ("prompt", json_text prompt);
   ("audio_sha256", JStr (hexdigest audio)); ("audio_input_bytes", JInt (Z.of_nat (length audio)))].
Definition audio_speech_payload (model_id input_text : string) (voice : option string) (audio_format : string) : list (string * json) :=
  [("model_id", JStr model_id); ("input_text", JStr input_text); ("voice", json_text voice); ("audio_format", JStr audio_format)].

(** [_get_cache_record] and [_lookup_response_by_cache_key]: the payload that is validated. *)
Definition lookup_response (key : string) (c : disk_cache) : disk_cache * result cache_error (option json) :=
  match dget key (c_responses c) with
  | None => (increment_counter "runtime_cache_misses" 1 c, Ok None)
  | Some r =>
      match json_loads (rr_text r) with
      | Some v => (increment_counter "runtime_cache_hits" 1 c, Ok (Some v))
      | None => (c, Err InvalidJson)
      end
  end.

(** [_store_response_payload]. *)
Definition store_response (key capability model_id : string) (payload : json) (c : disk_cache) : disk_cache :=
  let text := json_dumps payload in
  c <| c_responses := dset key {| rr_capability := capability; rr_model := model_id; rr_text := text; rr_size := Z.of_nat (String.length text) |}
                        (c_responses c) |>.

(** [cache_stats]. *)
Definition response_stats (c : disk_cache) : Z * Z * Z * Z :=
  (Z.of_nat (length (c_responses c)), foldr Z.add 0 (map (fun x => rr_size x.2) (c_responses c)),
   get_counter "runtime_cache_hits" c, get_counter "runtime_cache_misses" c).

(** ** Outputs of encoders *)

Section encoder.
Context {feature : Type} (feature_bytes_of : feature -> Z) (max_entries : Z).

(** [_ResidentEncoderFeature], by its key. *)
Record resident := { rs_feature : feature; rs_source : option string; rs_bytes : Z }.

(** The cache: what is resident, the least recently used first, over the disk. *)
Record encoder_cache := { e_resident : list (string * resident); e_disk : disk_cache }.

Definition cache_key_for_feature (runtime model_id fingerprint modality content preprocessing : string) : string :=
  digest_key 1 [("scope", JStr ENCODER_KIND); ("runtime", JStr runtime); ("model_id", JStr model_id); ("model_fingerprint", JStr fingerprint);
                ("modality", JStr modality); ("content_sha256", JStr content); ("preprocessing_fingerprint", JStr preprocessing)].

Definition move_to_end (key : string) (d : list (string * resident)) : list (string * resident) :=
  match dget key d with Some r => ddel key d ++ [(key, r)] | None => d end.

(** [get_feature]. *)
Definition get_feature (key : string) (s : encoder_cache) : encoder_cache * option feature :=
  let c := e_disk s in
  let miss := increment_counter "multimodal_encoder_cache_misses" 1 c in
  match dget key (c_blocks c) with
  | Some b =>
      if negb (bl_kind b =? ENCODER_KIND)%string then ({| e_resident := ddel key (e_resident s); e_disk := miss |}, None)
      else
        match dget key (e_resident s) with
        | None => ({| e_resident := e_resident s; e_disk := miss |}, None)
        | Some r => ({| e_resident := move_to_end key (e_resident s);
                        e_disk := increment_counter "multimodal_encoder_cache_hits" 1 c |}, Some (rs_feature r))
        end
  | None => ({| e_resident := ddel key (e_resident s); e_disk := miss |}, None)
  end.

(** Whether an index row is of the source, and of the runtime and model if they are given. *)
Definition row_matches (source : option string) (runtime model_id : option string) (b : block) : bool :=
  let has key v := match v with Some s => bool_decide (default JNull (dget key (bl_metadata b)) = JStr s) | None => true end in
  has "source_locator" source && has "runtime" runtime && has "model_id" model_id.

(** One step of the loop of [invalidate_source]. *)
Definition invalidate_row (acc : encoder_cache * Z) (key : string) : encoder_cache * Z :=
  let '(s, removed) := acc in
  let '(c, deleted) := delete_json_block key ENCODER_KIND (e_disk s) in
  ({| e_resident := ddel key (e_resident s); e_disk := c |}, if deleted then removed + 1 else removed).

(** [invalidate_source]. *)
Definition invalidate_source (source : string) (runtime model_id keep : option string) (s : encoder_cache) : encoder_cache * Z :=
  let rows := List.filter (fun x => row_matches (Some source) runtime model_id x.2 && negb (bool_decide (keep = Some x.1)))
                (list_cache_blocks ENCODER_KIND (e_disk s)) in
  let '(s, removed) := foldl invalidate_row (s, 0) (map fst rows) in
  (if 0 <? removed then {| e_resident := e_resident s; e_disk := increment_counter "multimodal_encoder_cache_invalidations" removed (e_disk s) |}
   else s, removed).

(** [drop_runtime_resident_features]. *)
Definition drop_runtime_resident_features (runtime model_id : option string) (s : encoder_cache) : encoder_cache * Z :=
  let keys := map fst (List.filter (fun x => row_matches None runtime model_id x.2) (list_cache_blocks ENCODER_KIND (e_disk s))) in
  foldl (fun '(s, removed) key =>
           match dget key (e_resident s) with
           | Some _ => ({| e_resident := ddel key (e_resident s); e_disk := e_disk s |}, removed + 1)
           | None => (s, removed)
           end) (s, 0) keys.

(** [_evict_if_needed]: the first go while there are too many; a limit below zero, for
    which it raises, is left out. *)
Definition evict (d : list (string * resident)) : list (string * resident) :=
  drop (length d - Z.to_nat max_entries) d.

(** What describes a feature. *)
Record descriptor := {
  ds_runtime : string;
  ds_model : string;
  ds_fingerprint : string;
  ds_modality : string;
  ds_content : string;
  ds_preprocessing : string;
  ds_source : option string
}.

Definition descriptor_fields (d : descriptor) (bytes : Z) : list (string * json) :=
  [("runtime", JStr (ds_runtime d)); ("model_id", JStr (ds_model d)); ("model_fingerprint", JStr (ds_fingerprint d));
   ("modality", JStr (ds_modality d)); ("content_sha256", JStr (ds_content d)); ("preprocessing_fingerprint", JStr (ds_preprocessing d));
   ("source_locator", json_text (ds_source d)); ("feature_bytes", JInt bytes)].

(** [put_feature]. *)
Definition put_feature (key : string) (d : descriptor) (f : feature) (bytes : option Z) (metadata : list (string * json)) (now : Z)
    (s : encoder_cache) : encoder_cache :=
  let s := match ds_source d with
           | Some source => (invalidate_source source (Some (ds_runtime d)) (Some (ds_model d)) (Some key) s).1
           | None => s
           end in
  let bytes := default (feature_bytes_of f) bytes in
  let c := put_json_block key ENCODER_KIND (JObj (("version", JInt 1) :: descriptor_fields d bytes)) (dmerge (descriptor_fields d bytes) metadata)
             (if 0 <? bytes then Some bytes else None) now (e_disk s) in
  let r := {| rs_feature := f; rs_source := ds_source d; rs_bytes := bytes |} in
  {| e_resident := evict (move_to_end key (dset key r (e_resident s))); e_disk := c |}.

(** [stats]: what is resident, over the statistics of the disk. *)
Definition resident_stats (s : encoder_cache) : Z * Z :=
  (Z.of_nat (length (e_resident s)), foldr Z.add 0 (map (fun x => rs_bytes x.2) (e_resident s))).
End encoder.
End json.

(** ** Which features are served *)

Section encoder_spec.
Context (json_dumps : json -> string) {feature : Type} (feature_bytes_of : feature -> Z) (max_entries : Z).

(** The reference: the features that were put and not invalidated since, by key; of one
    that an earlier process put, only the description is left. *)
Notation valid := (list (string * (descriptor * option feature))).

Definition of_source (source : string) (runtime model_id : option string) (d : descriptor) : bool :=
  bool_decide (ds_source d = Some source) && match runtime with Some r => (ds_runtime d =? r)%string | None => true end
  && match model_id with Some m => (ds_model d =? m)%string | None => true end.

Definition spec_invalidate (source : string) (runtime model_id keep : option string) (v : valid) : valid :=
  List.filter (fun x => negb (of_source source runtime model_id x.2.1 && negb (bool_decide (keep = Some x.1)))) v.

Definition spec_put (key : string) (d : descriptor) (f : feature) (v : valid) : valid :=
  dset key (d, Some f) (match ds_source d with
                        | Some source => spec_invalidate source (Some (ds_runtime d)) (Some (ds_model d)) (Some key) v
                        | None => v
                        end).

Definition forget_features (v : valid) : valid := map (fun x => (x.1, (x.2.1, None))) v.

Inductive encoder_op :=
| EPut (key : string) (d : descriptor) (f : feature) (bytes : option Z) (metadata : list (string * json)) (now : Z)
| EGet (key : string)
| EInvalidate (source : string) (runtime model_id : option string)
| EDropRuntime (runtime model_id : option string)
| ERestart.

(** [ERestart]: another process opens the disk; its [__init__] has nothing resident. *)
Definition run_encoder (o : encoder_op) (s : encoder_cache) : encoder_cache :=
  match o with
  | EPut key d f bytes metadata now => put_feature json_dumps feature_bytes_of max_entries key d f bytes metadata now s
  | EGet key => (get_feature key s).1
  | EInvalidate source runtime model_id => (invalidate_source source runtime model_id None s).1
  | EDropRuntime runtime model_id => (drop_runtime_resident_features runtime model_id s).1
  | ERestart => {| e_resident := []; e_disk := e_disk s |}
  end.

Definition run_spec (o : encoder_op) (v : valid) : valid :=
  match o with
  | EPut key d f _ _ _ => spec_put key d f v
  | EInvalidate source runtime model_id => spec_invalidate source runtime model_id None v
  | ERestart => forget_features v
  | _ => v
  end.

(** What a caller adds to the description does not replace the runtime, the model or the
    source in it; the runtimes add counts of inputs and their bytes. *)
Definition plain_metadata (metadata : list (string * json)) : Prop :=
  "runtime" ∉ dkeys metadata /\ "model_id" ∉ dkeys metadata /\ "source_locator" ∉ dkeys metadata.

Definition plain_op (o : encoder_op) : Prop :=
  match o with EPut _ _ _ _ metadata _ => plain_metadata metadata | _ => True end.

(** The rows of the encoder's kind are exactly the valid features' descriptions; the
    table holds the rows of other kinds, too. *)
Definition described (b : option block) (x : option (descriptor * option feature)) : Prop :=
  match b, x with
  | Some b, Some (d, _) => bl_kind b = ENCODER_KIND
      /\ exists n metadata, plain_metadata metadata /\ bl_metadata b = dmerge (descriptor_fields d n) metadata
  | Some b, None => bl_kind b <> ENCODER_KIND
  | None, None => True
  | None, Some _ => False
  end.

Record represents (s : encoder_cache) (v : valid) : Prop := {
  rp_blocks : NoDup (dkeys (c_blocks (e_disk s)));
  rp_valid : NoDup (dkeys v);
  rp_resident : NoDup (dkeys (e_resident s));
  rp_index : forall k, described (dget k (c_blocks (e_disk s))) (dget k v);
  rp_feature : forall k r, dget k (e_resident s) = Some r -> exists d, dget k v = Some (d, Some (rs_feature r));
  rp_bound : Z.of_nat (length (e_resident s)) <= max_entries
}.

(** Looking up in a filtered dictionary. *)
Lemma dget_filtered (A : Type) (p : string * A -> bool) (d : list (string * A)) k : NoDup (dkeys d) ->
  dget k (List.filter p d) = match dget k d with Some x => if p (k, x) then Some x else None | None => None end.
Proof.
  induction d as [|[k' x] d IH]; [done|]. cbn [dkeys map fst List.filter]. intros [Hk Hnd]%NoDup_cons. rewrite (dget_cons k). cbn [fst snd].
  destruct (decide (k = k')) as [->|Hne].
  - destruct (p (k', x)); [by rewrite dget_cons, decide_True|]. rewrite IH by done. apply dget_None in Hk. by rewrite Hk.
  - destruct (p (k', x)); [rewrite dget_cons, decide_False by done|]; by apply IH.
Qed.

Lemma NoDup_dkeys_filter (A : Type) (p : string * A -> bool) (d : list (string * A)) : NoDup (dkeys d) -> NoDup (dkeys (List.filter p d)).
Proof. apply NoDup_map_filter. Qed.

(** Deleting several keys. *)
Lemma ddel_all (A : Type) ks : forall (d : list (string * A)), NoDup (dkeys d) ->
  NoDup (dkeys (foldl (fun d k => ddel k d) d ks)) /\ forall k, dget k (foldl (fun d k => ddel k d) d ks) = if bool_decide (k ∈ ks) then None else dget k d.
Proof.
  induction ks as [|k0 ks IH]; intros d Hnd; cbn [foldl]; [done|]. destruct (IH (ddel k0 d)) as [H1 H2]; [by apply NoDup_ddel|].
  split; [done|]. intros k. rewrite H2. destruct (decide (k = k0)) as [->|Hne].
  - rewrite dget_ddel_eq, (bool_decide_eq_true_2 (k0 ∈ k0 :: ks)) by (done || by left). by destruct (bool_decide _).
  - rewrite dget_ddel_ne by done. rewrite (bool_decide_ext (k ∈ ks) (k ∈ k0 :: ks)); [done|]. rewrite elem_of_cons. naive_solver.
Qed.

(** A row's metadata says what its descriptor says. *)
Lemma row_matches_source source runtime model_id b d n metadata :
  plain_metadata metadata -> bl_metadata b = dmerge (descriptor_fields d n) metadata ->
  row_matches (Some source) runtime model_id b = of_source source runtime model_id d.
Proof.
  intros (Hr & Hm & Hs) Hb. unfold row_matches, of_source. rewrite Hb, !dget_dmerge by done.
  change (dget "source_locator" (descriptor_fields d n)) with (Some (json_text (ds_source d))).
  change (dget "runtime" (descriptor_fields d n)) with (Some (JStr (ds_runtime d))).
  change (dget "model_id" (descriptor_fields d n)) with (Some (JStr (ds_model d))).
  assert (Hstr : forall x y, bool_decide (JStr x = JStr y) = (x =? y)%string).
  { intros x y. apply eq_true_iff_eq. rewrite bool_decide_eq_true, String.eqb_eq. split; congruence. }
  cbn [default]. unfold Datatypes.id. f_equal; [f_equal|].
  - apply bool_decide_ext. destruct (ds_source d); cbn; split; congruence.
  - by destruct runtime.
  - by destruct model_id.
Qed.

Lemma described_Some k s v b : represents s v -> dget k (c_blocks (e_disk s)) = Some b -> bl_kind b = ENCODER_KIND ->
  exists d f n metadata, dget k v = Some (d, f) /\ plain_metadata metadata /\ bl_metadata b = dmerge (descriptor_fields d n) metadata.
Proof.
  intros Hr Hb Hk. pose proof (rp_index s v Hr k) as H. rewrite Hb in H. destruct (dget k v) as [[d f]|]; [|done].
  destruct H as [_ (n & md & Hp & Hn)]. by exists d, f, n, md.
Qed.

Lemma elem_rows k b (s : @encoder_cache feature) v : represents s v ->
  (k, b) ∈ list_cache_blocks ENCODER_KIND (e_disk s) <-> dget k (c_blocks (e_disk s)) = Some b /\ bl_kind b = ENCODER_KIND.
Proof.
  intros Hr. unfold list_cache_blocks, blocks_of. rewrite elem_sort_by, elem_list_filter, String.eqb_eq. cbn [snd]. split.
  - intros [Hin Hk]. split; [by apply dget_elem; [apply Hr|]|done].
  - intros [Hb Hk]. split; [by apply dget_Some_elem|done].
Qed.

Lemma delete_block_spec k c :
  NoDup (dkeys (c_blocks c)) -> (forall b, dget k (c_blocks c) = Some b -> bl_kind b = ENCODER_KIND) ->
  c_blocks (delete_json_block k ENCODER_KIND c).1 = ddel k (c_blocks c).
Proof.
  intros Hnd Hk. unfold delete_json_block. destruct (dget k (c_blocks c)) as [b|] eqn:Hb.
  - by rewrite (Hk b eq_refl), String.eqb_refl.
  - symmetry. apply ddel_id. by apply dget_None.
Qed.

Lemma invalidate_rows_spec ks : forall (s : @encoder_cache feature) n,
  NoDup (dkeys (c_blocks (e_disk s))) -> NoDup (dkeys (e_resident s)) ->
  (forall k b, k ∈ ks -> dget k (c_blocks (e_disk s)) = Some b -> bl_kind b = ENCODER_KIND) ->
  let s' := (foldl invalidate_row (s, n) ks).1 in
  NoDup (dkeys (c_blocks (e_disk s'))) /\ NoDup (dkeys (e_resident s')) /\ (length (e_resident s') <= length (e_resident s))%nat
  /\ (forall k, dget k (c_blocks (e_disk s')) = if bool_decide (k ∈ ks) then None else dget k (c_blocks (e_disk s)))
  /\ (forall k, dget k (e_resident s') = if bool_decide (k ∈ ks) then None else dget k (e_resident s)).
Proof.
  induction ks as [|k0 ks IH]; intros s n Hb Hr Hk; cbn zeta; cbn [foldl]; [done|].
  pose proof (delete_block_spec k0 (e_disk s) Hb (fun b => Hk k0 b (list_elem_of_here _ _))) as Hdel. unfold invalidate_row at 2 4 6 8 10.
  destruct (delete_json_block k0 ENCODER_KIND (e_disk s)) as [c deleted]. cbn [fst] in Hdel.
  set (n' := if deleted then n + 1 else n). set (s1 := {| e_resident := ddel k0 (e_resident s); e_disk := c |}).
  destruct (IH s1 n') as (H1 & H2 & H3 & H4 & H5); cbn [s1 e_disk e_resident]; rewrite ?Hdel.
  - by apply NoDup_ddel.
  - by apply NoDup_ddel.
  - intros k b Hin Hkb. apply (Hk k b); [by right|]. destruct (decide (k = k0)) as [->|Hne]; [by rewrite dget_ddel_eq in Hkb|by rewrite dget_ddel_ne in Hkb].
  - assert (Hcase : forall A (d : list (string * A)) k, NoDup (dkeys d) ->
      (if bool_decide (k ∈ ks) then None else dget k (ddel k0 d)) = if bool_decide (k ∈ k0 :: ks) then None else dget k d).
    { intros A d k Hd. pose proof (ddel_all A [k0] d Hd) as [_ Hone]. cbn [foldl] in Hone. rewrite Hone. repeat case_bool_decide; set_solver. }
    split_and!; [done|done| |intros k; rewrite H4; cbn [s1 e_disk]; rewrite Hdel; by apply Hcase|intros k; rewrite H5; by apply Hcase].
    etrans; [exact H3|]. apply length_ddel_le.
Qed.

Lemma represents_counters s v c :
  represents s v -> c_blocks c = c_blocks (e_disk s) -> represents {| e_resident := e_resident s; e_disk := c |} v.
Proof. intros [] Hc. split; cbn [e_disk e_resident]; rewrite ?Hc; done. Qed.

Lemma invalidate_represents source runtime model_id keep s v :
  represents s v -> represents (invalidate_source source runtime model_id keep s).1 (spec_invalidate source runtime model_id keep v).
Proof.
  intros Hr. unfold invalidate_source. set (rows := List.filter _ _). set (ks := map fst rows).
  assert (Hks : forall k, k ∈ ks <-> exists b, dget k (c_blocks (e_disk s)) = Some b /\ bl_kind b = ENCODER_KIND /\ row_matches (Some source) runtime model_id b = true /\ keep <> Some k).
  { intros k. unfold ks, rows. rewrite list_elem_of_fmap. split.
    - intros ([k' b] & -> & Hin). apply elem_list_filter in Hin as [Hin [Hm Hne]%andb_true_iff].
      apply (elem_rows _ _ s v Hr) in Hin as [Hin Hk]. exists b. split_and!; [done|done|done|].
      by apply negb_true_iff, bool_decide_eq_false in Hne.
    - intros (b & Hb & Hk & Hm & Hne). exists (k, b). split; [done|]. apply elem_list_filter. split; [by apply (elem_rows _ _ s v Hr)|].
      cbn [fst snd]. by rewrite Hm, bool_decide_eq_false_2. }
  destruct (invalidate_rows_spec ks s 0) as (H1 & H2 & H3 & H4 & H5); [apply Hr|apply Hr| |].
  { intros k b (b' & Hb' & Hk & _)%Hks Hb. congruence. }
  destruct (foldl invalidate_row (s, 0) ks) as [s' removed] eqn:Hf. cbn [fst] in *.
  assert (Hrep : represents s' (spec_invalidate source runtime model_id keep v)).
  { assert (Hgone : forall k, dget k (spec_invalidate source runtime model_id keep v) = if bool_decide (k ∈ ks) then None else dget k v).
    { intros k. unfold spec_invalidate. rewrite dget_filtered by apply Hr. destruct (dget k v) as [[d f]|] eqn:Hv; [|by destruct (bool_decide _)].
      cbn [fst snd]. pose proof (rp_index s v Hr k) as Hd. rewrite Hv in Hd. destruct (dget k (c_blocks (e_disk s))) as [b|] eqn:Hb; [|done].
      destruct Hd as [Hkind (n & md & Hmd & Hn)]. rewrite <- (row_matches_source source runtime model_id b d n md Hmd Hn).
      destruct (bool_decide (k ∈ ks)) eqn:Hin.
      - apply bool_decide_eq_true_1, Hks in Hin as (b' & Hb' & _ & Hm & Hne). rewrite Hb in Hb'. injection Hb' as <-.
        by rewrite Hm, bool_decide_eq_false_2.
      - apply bool_decide_eq_false in Hin. rewrite Hks in Hin.
        destruct (row_matches (Some source) runtime model_id b) eqn:Hm; [|done]. destruct (decide (keep = Some k)) as [Hk|Hk].
        + by rewrite bool_decide_eq_true_2.
        + exfalso. apply Hin. by exists b. }
    split; [done|by apply NoDup_dkeys_filter, Hr|done| | |pose proof (rp_bound s v Hr); lia].
    - intros k. rewrite H4, Hgone. destruct (bool_decide (k ∈ ks)); [done|]. apply Hr.
    - intros k r. rewrite H5, Hgone. destruct (bool_decide (k ∈ ks)); [done|]. apply Hr. }
  destruct (0 <? removed); [|done]. cbn [fst]. by apply represents_counters.
Qed.

(** The order of what is resident: the same entries, none more. *)
Lemma move_to_end_spec k (d : list (string * @resident feature)) : NoDup (dkeys d) ->
  NoDup (dkeys (move_to_end k d)) /\ length (move_to_end k d) = length d /\ forall k', dget k' (move_to_end k d) = dget k' d.
Proof.
  intros Hnd. unfold move_to_end. destruct (dget k d) as [r|] eqn:Hk; [|done].
  assert (Hn : k ∉ dkeys (ddel k d)) by by apply ddel_not_elem. rewrite <- (dset_new (ddel k d) k r Hn). split_and!.
  - by apply NoDup_dset, NoDup_ddel.
  - rewrite dset_new, length_app by done. cbn [length]. pose proof (length_ddel_mem d k (dget_Some_key _ _ _ Hk)). lia.
  - intros k'. destruct (decide (k' = k)) as [->|Hne]; [by rewrite dget_dset_eq|]. rewrite dget_dset_ne by done. by apply dget_ddel_ne.
Qed.

Lemma evict_resident_spec (d : list (string * @resident feature)) : NoDup (dkeys d) ->
  NoDup (dkeys (evict max_entries d)) /\ (forall k r, dget k (evict max_entries d) = Some r -> dget k d = Some r)
  /\ (0 <= max_entries -> Z.of_nat (length (evict max_entries d)) <= max_entries).
Proof.
  intros Hnd. unfold evict. set (n := (length d - Z.to_nat max_entries)%nat).
  assert (Hk : NoDup (dkeys (drop n d))).
  { pose proof Hnd as H. rewrite <- (take_drop n d), dkeys_app in H. by apply NoDup_app in H as (_ & _ & ?). }
  split_and!; [done| |].
  - intros k r Hkr%dget_Some_elem. apply dget_elem; [done|]. rewrite <- (take_drop n d). apply elem_of_app. by right.
  - intros H0. rewrite length_drop. lia.
Qed.

Lemma resident_represents s v d :
  represents s v -> NoDup (dkeys d) -> (forall k r, dget k d = Some r -> dget k (e_resident s) = Some r) ->
  (length d <= length (e_resident s))%nat -> represents {| e_resident := d; e_disk := e_disk s |} v.
Proof. intros [] Hd Hsub Hlen. split; cbn; [done|done|done|done|intros k x Hx; eauto|lia]. Qed.

Lemma get_represents k s v : represents s v -> represents (get_feature k s).1 v.
Proof.
  intros Hr. unfold get_feature.
  assert (Hgone : represents {| e_resident := ddel k (e_resident s); e_disk := e_disk s |} v).
  { apply resident_represents; [done|apply NoDup_ddel, Hr| |apply length_ddel_le]. intros k' x Hk'. destruct (decide (k' = k)) as [->|Hne].
    - by rewrite dget_ddel_eq in Hk' by apply Hr.
    - by rewrite dget_ddel_ne in Hk'. }
  destruct (dget k (c_blocks (e_disk s))) as [b|]; [destruct (negb _)|]; [by apply (represents_counters _ v _ Hgone)| |by apply (represents_counters _ v _ Hgone)].
  destruct (dget k (e_resident s)) as [r|] eqn:Hk; [|by apply (represents_counters s v _ Hr)].
  destruct (move_to_end_spec k (e_resident s)) as (H1 & H2 & H3); [apply Hr|].
  assert (Hmoved : represents {| e_resident := move_to_end k (e_resident s); e_disk := e_disk s |} v).
  { apply resident_represents; [done|done|intros k' x; by rewrite H3|by rewrite H2]. }
  by apply (represents_counters _ v _ Hmoved).
Qed.

Lemma drop_represents runtime model_id s v : represents s v -> represents (drop_runtime_resident_features runtime model_id s).1 v.
Proof.
  intros Hr. unfold drop_runtime_resident_features. generalize 0. revert s Hr.
  assert (H : forall ks s n, represents s v -> represents (foldl (fun '(s, removed) key =>
            match dget key (e_resident s) with
            | Some _ => ({| e_resident := ddel key (e_resident s); e_disk := e_disk s |}, removed + 1)
            | None => (s, removed)
            end) (s, n) ks).1 v); [|by intros s Hr n; apply H].
  intros ks. induction ks as [|k ks IH]; intros s n Hr; cbn [foldl]; [done|]. destruct (dget k (e_resident s)); [|by apply IH]. apply IH.
  apply resident_represents; [done|apply NoDup_ddel, Hr| |apply length_ddel_le].
  intros k' x Hk'. destruct (decide (k' = k)) as [->|Hne]; [by rewrite dget_ddel_eq in Hk' by apply Hr|by rewrite dget_ddel_ne in Hk'].
Qed.

Lemma write_represents key d f source bytes size metadata now (s : @encoder_cache feature) v :
  0 <= max_entries -> plain_metadata metadata -> represents s v ->
  represents {| e_resident := evict max_entries (move_to_end key (dset key {| rs_feature := f; rs_source := source; rs_bytes := bytes |} (e_resident s)));
                e_disk := put_json_block json_dumps key ENCODER_KIND (JObj (("version", JInt 1) :: descriptor_fields d bytes))
                            (dmerge (descriptor_fields d bytes) metadata) size now (e_disk s) |} (dset key (d, Some f) v).
Proof.
  intros Hmax Hmd Hr. set (r := {| rs_feature := f; rs_source := source; rs_bytes := bytes |}).
  assert (Hnd : NoDup (dkeys (dset key r (e_resident s)))) by apply NoDup_dset, Hr.
  destruct (move_to_end_spec key (dset key r (e_resident s)) Hnd) as (H1 & _ & H3).
  destruct (evict_resident_spec _ H1) as (H4 & H5 & H6). split; cbn [e_disk e_resident c_blocks put_json_block set_field].
  - apply NoDup_dset, Hr.
  - apply NoDup_dset, Hr.
  - done.
  - intros k. destruct (decide (k = key)) as [->|Hne].
    + rewrite !dget_dset_eq. split; [done|]. by exists bytes, metadata.
    + rewrite !dget_dset_ne by done. apply Hr.
  - intros k x Hx%H5. rewrite H3 in Hx. destruct (decide (k = key)) as [->|Hne].
    + rewrite dget_dset_eq in Hx. injection Hx as <-. exists d. by rewrite dget_dset_eq.
    + rewrite dget_dset_ne in Hx by done. rewrite dget_dset_ne by done. by apply (rp_feature s v Hr).
  - by apply H6.
Qed.

Lemma dget_forget k v : dget k (forget_features v) = (fun x => (x.1, None)) <$> dget k v.
Proof.
  induction v as [|[k' x] v IH]; [done|]. change (forget_features ((k', x) :: v)) with ((k', (x.1, None)) :: forget_features v).
  rewrite !dget_cons. cbn [fst snd]. by case_decide.
Qed.

Lemma dkeys_forget v : dkeys (forget_features v) = dkeys v.
Proof. unfold dkeys, forget_features. by rewrite map_map. Qed.

Lemma restart_represents (s : @encoder_cache feature) v :
  0 <= max_entries -> represents s v -> represents {| e_resident := []; e_disk := e_disk s |} (forget_features v).
Proof.
  intros Hmax Hr. split; cbn [e_disk e_resident].
  - apply Hr.
  - rewrite dkeys_forget. apply Hr.
  - constructor.
  - intros k. rewrite dget_forget. pose proof (rp_index s v Hr k) as H. by destruct (dget k (c_blocks (e_disk s))), (dget k v) as [[d f]|].
  - done.
  - done.
Qed.

Lemma run_represents o s v : 0 <= max_entries -> plain_op o -> represents s v -> represents (run_encoder o s) (run_spec o v).
Proof.
  intros Hmax Hop Hr. destruct o as [key d f bytes metadata now|key|source runtime model_id|runtime model_id|]; cbn [run_encoder run_spec].
  - unfold put_feature, spec_put. destruct (ds_source d) as [source|]; apply write_represents; [done|done|by apply invalidate_represents|done|done|done].
  - by apply get_represents.
  - by apply invalidate_represents.
  - by apply drop_represents.
  - by apply restart_represents.
Qed.

Lemma runs_represent ops s v : 0 <= max_entries -> Forall plain_op ops -> represents s v ->
  represents (foldl (fun s o => run_encoder o s) s ops) (foldl (fun v o => run_spec o v) v ops).
Proof.
  intros Hmax Hops. revert s v. induction Hops as [|o ops Ho _ IH]; intros s v Hr; [done|]. by apply IH, run_represents.
Qed.

(** *** One feature of a source *)

Definition one_per_source (v : valid) : Prop :=
  forall k d f k' d' f' source, dget k v = Some (d, f) -> dget k' v = Some (d', f') -> ds_source d = Some source -> ds_source d' = Some source ->
    ds_runtime d' = ds_runtime d -> ds_model d' = ds_model d -> k' = k.

Lemma spec_invalidate_get source runtime model_id keep (v : valid) k x :
  NoDup (dkeys v) -> dget k (spec_invalidate source runtime model_id keep v) = Some x ->
  dget k v = Some x /\ (of_source source runtime model_id x.1 = false \/ keep = Some k).
Proof.
  intros Hnd. unfold spec_invalidate. rewrite dget_filtered by done. destruct (dget k v) as [y|]; [|done]. cbn [fst snd].
  destruct (of_source source runtime model_id y.1) eqn:Ho; cbn [andb negb]; [|intros [= <-]; by rewrite Ho; split; [|left]].
  destruct (bool_decide (keep = Some k)) eqn:Hk; [|done]. intros [= <-]. split; [done|right]. by apply bool_decide_eq_true_1 in Hk.
Qed.

Lemma run_one_per_source o v : NoDup (dkeys v) -> one_per_source v -> one_per_source (run_spec o v).
Proof.
  intros Hnd Hone. destruct o as [key d f bytes metadata now|key|source runtime model_id|runtime model_id|]; cbn [run_spec]; [|done| |done|].
  - unfold spec_put. set (v' := match ds_source d with Some source => _ | None => v end).
    assert (Hv' : forall k x, dget k v' = Some x -> dget k v = Some x
        /\ forall source, ds_source d = Some source -> of_source source (Some (ds_runtime d)) (Some (ds_model d)) x.1 = true -> k = key).
    { intros k x. unfold v'. destruct (ds_source d) as [source|]; [|intros H; split; [done|intros ? [=]]].
      intros [H1 H2]%spec_invalidate_get; [|done]. split; [done|]. intros ? [= <-] Ho. destruct H2 as [H2|[= H2]]; [congruence|done]. }
    assert (Hother : forall k d1 f1 source, dget k v' = Some (d1, f1) -> ds_source d = Some source -> ds_source d1 = Some source ->
        ds_runtime d1 = ds_runtime d -> ds_model d1 = ds_model d -> k = key).
    { intros k d1 f1 source Hk Hs Hs1 Hr Hm. apply (proj2 (Hv' k _ Hk) source Hs). unfold of_source. cbn [fst].
      by rewrite Hs1, Hr, Hm, bool_decide_eq_true_2, !String.eqb_refl. }
    intros k1 d1 f1 k2 d2 f2 source. destruct (decide (k1 = key)) as [->|H1], (decide (k2 = key)) as [->|H2];
      rewrite ?dget_dset_eq, ?dget_dset_ne by done; [done| | |].
    + intros [= <- <-] Hk2 Hs1 Hs2 Hr Hm. by eapply Hother.
    + intros Hk1 [= <- <-] Hs1 Hs2 Hr Hm. symmetry. by eapply Hother.
    + intros Hk1 Hk2. apply Hv' in Hk1 as [Hk1 _], Hk2 as [Hk2 _]. by eapply Hone.
  - intros k1 d1 f1 k2 d2 f2 s [H1 _]%spec_invalidate_get [H2 _]%spec_invalidate_get; [|done|done]. by eapply Hone.
  - intros k1 d1 f1 k2 d2 f2 s. rewrite !dget_forget. intros ([e1 g1] & H1 & [= -> _])%fmap_Some ([e2 g2] & H2 & [= -> _])%fmap_Some.
    by eapply Hone.
Qed.

(** C32.  The encoder cache serves only what is current.  It starts on a disk whose rows
    of its kind describe some features [v0], at most one of each source, runtime and model
    (on an empty one there are none; rows of other kinds do not matter), and callers add
    metadata that leaves the runtime, model and source as they are.  Then, after any
    operations and restarts of the process, it holds at most the allowed number of
    features; its rows are exactly those of the features that were described or put and
    not invalidated since, with at most one per source, runtime and model; and a lookup
    that finds a feature finds the one this process last put under its key, described by
    the row. *)
Theorem encoder_cache_serves_current_features disk v0 ops :
  0 <= max_entries -> NoDup (dkeys (c_blocks disk)) -> NoDup (dkeys v0) ->
  (forall k, described (dget k (c_blocks disk)) (dget k v0)) -> one_per_source v0 -> Forall plain_op ops ->
  let s := foldl (fun s o => run_encoder o s) {| e_resident := []; e_disk := disk |} ops in
  let v := foldl (fun v o => run_spec o v) (forget_features v0) ops in
  Z.of_nat (length (e_resident s)) <= max_entries
  /\ (forall k, (exists b, dget k (c_blocks (e_disk s)) = Some b /\ bl_kind b = ENCODER_KIND) <-> exists x, dget k v = Some x)
  /\ one_per_source v
  /\ forall k f, (get_feature k s).2 = Some f -> exists d b n metadata, dget k v = Some (d, Some f)
       /\ dget k (c_blocks (e_disk s)) = Some b /\ plain_metadata metadata
       /\ bl_metadata b = dmerge (descriptor_fields d n) metadata.
Proof.
  intros Hmax Hdisk Hv0 Hindex Hone Hops s v.
  assert (H0 : represents {| e_resident := []; e_disk := disk |} (forget_features v0)).
  { split; cbn [e_disk e_resident]; [done|by rewrite dkeys_forget|constructor| |done|done]. intros k. rewrite dget_forget.
    pose proof (Hindex k) as H. by destruct (dget k (c_blocks disk)), (dget k v0) as [[d f]|]. }
  assert (Hone0 : one_per_source (forget_features v0)) by (apply (run_one_per_source ERestart v0 Hv0 Hone)).
  pose proof (runs_represent ops _ _ Hmax Hops H0) as Hr. fold s v in Hr. split_and!.
  - apply Hr.
  - intros k. pose proof (rp_index s v Hr k) as H. destruct (dget k (c_blocks (e_disk s))) as [b|], (dget k v) as [[d f]|]; cbn in H; naive_solver.
  - unfold v. clear Hr s v. revert H0 Hone0. generalize (forget_features v0).
    generalize ({| e_resident := []; e_disk := disk |} : @encoder_cache feature).
    induction Hops as [|o ops Ho _ IH]; intros s v Hr Hv; [done|]. cbn [foldl].
    apply (IH (run_encoder o s)); [by apply run_represents|]. apply run_one_per_source; [apply Hr|done].
  - intros k f. unfold get_feature. destruct (dget k (c_blocks (e_disk s))) as [b|] eqn:Hb; [|done].
    destruct (bl_kind b =? ENCODER_KIND)%string eqn:Hk; cbn [negb]; [|done]. apply String.eqb_eq in Hk.
    destruct (dget k (e_resident s)) as [r|] eqn:Hres; [|done]. intros [= <-].
    destruct (rp_feature s v Hr k r Hres) as [d Hd]. destruct (described_Some k s v b Hr Hb Hk) as (d' & f' & n & md & Hd' & Hmd & Hn).
    rewrite Hd in Hd'. injection Hd' as <- <-. by exists d, b, n, md.
Qed.
End encoder_spec.

(** ** Blocks and responses are read back *)

Section read_back.
Context (json_dumps : json -> string) (json_loads : string -> option json).

Lemma put_block_is_read key kind payload metadata size now c :
  get_json_block json_loads key kind (put_json_block json_dumps key kind payload metadata size now c)
  = (count_event "hits" kind (put_json_block json_dumps key kind payload metadata size now c),
     match json_loads (json_dumps payload) with Some v => Ok (Some v) | None => Err InvalidJson end).
Proof.
  unfold get_json_block, put_json_block. cbn [c_blocks set_field]. rewrite dget_dset_eq. cbn [bl_kind bl_path]. rewrite String.eqb_refl.
  cbn [negb c_files]. by rewrite dget_dset_eq.
Qed.

(** Another block keeps its text unless its file has the same path. *)
Lemma put_block_keeps_others key kind payload metadata size now c key' kind' :
  key' <> key -> (forall b, dget key' (c_blocks c) = Some b -> bl_path b <> block_path key kind) ->
  (get_json_block json_loads key' kind' (put_json_block json_dumps key kind payload metadata size now c)).2 = (get_json_block json_loads key' kind' c).2.
Proof.
  intros Hne Hpath. unfold get_json_block, put_json_block. cbn [c_blocks c_files set_field]. rewrite dget_dset_ne by done.
  destruct (dget key' (c_blocks c)) as [b|] eqn:Hb; [|done]. destruct (negb _); [done|]. rewrite dget_dset_ne by by apply Hpath.
  by destruct (dget (bl_path b) (c_files c)).
Qed.

Lemma stored_response_is_read key capability model_id payload c :
  (lookup_response json_loads key (store_response json_dumps key capability model_id payload c)).2
  = match json_loads (json_dumps payload) with Some v => Ok (Some v) | None => Err InvalidJson end.
Proof.
  unfold lookup_response, store_response. cbn [c_responses set_field]. rewrite dget_dset_eq. cbn [rr_text].
  by destruct (json_loads (json_dumps payload)).
Qed.
End read_back.

(** ** Examples *)

Definition sample_descriptor (source : string) (content : string) : descriptor :=
  {| ds_runtime := "mlx_vision"; ds_model := "m"; ds_fingerprint := "f"; ds_modality := "vision"; ds_content := content; ds_preprocessing := "p";
     ds_source := Some source |}.

(** A picture whose file changed: the old feature goes with the new one's arrival; of
    three pictures two stay resident, and the one put after a restart is served.  The
    table also holds the row of an attachment. *)
Definition image_metadata : list (string * json) :=
  [("image_count", JInt 1); ("frame_count", JInt 0); ("bundle_count", JInt 0); ("input_bytes", JInt 8)].

Definition sample_ops : list (@encoder_op nat) :=
  [EPut "k1" (sample_descriptor "/a.png" "old") 1%nat (Some 8) image_metadata 1;
   EPut "k2" (sample_descriptor "/a.png" "new") 2%nat (Some 8) image_metadata 2;
   EPut "k3" (sample_descriptor "/b.png" "b") 3%nat (Some 8) image_metadata 3;
   EPut "k4" (sample_descriptor "/c.png" "c") 4%nat (Some 8) image_metadata 4].

Definition attachment_disk : disk_cache :=
  {| c_blocks := [("a1", {| bl_kind := FEATURE_KIND; bl_path := "p"; bl_size := 1; bl_metadata := []; bl_updated := 0 |})];
     c_files := []; c_responses := []; c_counters := [] |}.

Definition sample_run (ops : list encoder_op) : @encoder_cache nat :=
  foldl (fun s o => run_encoder (fun _ => "") (fun _ => 0) 2 o s) {| e_resident := []; e_disk := attachment_disk |} ops.

Example sample_encoder :
  let s := sample_run sample_ops in
  map (fun k => (get_feature k s).2) ["k1"; "k2"; "k3"; "k4"] = [None; None; Some 3%nat; Some 4%nat]
  /\ dkeys (c_blocks (e_disk s)) = ["a1"; "k2"; "k3"; "k4"]
  /\ (get_feature "k4" (run_encoder (fun _ => "") (fun _ => 0) 2 ERestart s)).2 = None.
Proof. vm_compute. split; [|split]; reflexivity. Qed.

Lemma sample_ops_plain : Forall plain_op (sample_ops ++ [ERestart; EPut "k5" (sample_descriptor "/a.png" "newer") 5%nat None image_metadata 5]).
Proof. repeat constructor; apply (bool_decide_unpack _); vm_compute; exact I. Qed.

Lemma encoder_cache_serves_current_features_witness :
  let s := sample_run (sample_ops ++ [ERestart; EPut "k5" (sample_descriptor "/a.png" "newer") 5%nat None image_metadata 5]) in
  (get_feature "k5" s).2 = Some 5%nat /\ dkeys (c_blocks (e_disk s)) = ["a1"; "k3"; "k4"; "k5"]
  /\ exists d b n metadata, dget "k5" (c_blocks (e_disk s)) = Some b /\ bl_metadata b = dmerge (descriptor_fields d n) metadata.
Proof.
  intros s. assert (Hf : (get_feature "k5" s).2 = Some 5%nat) by (vm_compute; reflexivity).
  split; [exact Hf|]. split; [vm_compute; reflexivity|].
  destruct (encoder_cache_serves_current_features (fun _ => "") (fun _ => 0) 2 attachment_disk []
    (sample_ops ++ [ERestart; EPut "k5" (sample_descriptor "/a.png" "newer") 5%nat None image_metadata 5])) as (_ & _ & _ & H).
  - lia.
  - apply (bool_decide_unpack _). vm_compute. exact I.
  - constructor.
  - intros k. unfold dget, described. simpl. destruct (decide (k = "a1")); [cbn; discriminate|exact I].
  - intros k d f k' d' f' source Hk. discriminate Hk.
  - exact sample_ops_plain.
  - destruct (H "k5" 5%nat Hf) as (d & b & n & md & _ & H1 & _ & H2). exists d, b, n, md. split; assumption.
Defined.
